(* ===== verification/_CoqProject ===== *)
-Q . S2P
Prelude.v
Rlu.v
McsLock.v
Profiler.v
ProfReport.v
Vector.v
NfosMap.v
VigMap.v
Links.v
Dchain.v
DchainExp.v
Cht.v
MeObj.v
ConcDchain.v
ConcMap.v
Txn.v
PktSet.v
DataPlane.v
BatchPlane.v
Ether.v
NfUtil.v
NfCommon.v
Frame.v
Interfaces.v
Sessions.v
NatFw.v
SessList.v
StaticMapping.v
ExpTable.v
Bridge.v
NfMain.v
Rss.v
NfStart.v
Mtrie.v
LoadBalance.v
FibInit.v
NatInit.v
NatFwInit.v
Firewall.v
EiNat.v
NatWire.v
MtrieRun.v
Maglev.v
MaglevPlane.v
MaglevInit.v
Dummy.v
System.v
FwSystem.v
Bst.v
LbAlgo.v
Barrier.v
LbMonitor.v
LbSync.v
