(* ===== verification/Prelude.v ===== *)
(** * NFOS: a verification library

    NFOS (src/src/) runs stateful network functions on many cores.  A network
    function (NF, src/nf/) divides its packets into packet sets, each handled
    by one core, and keeps the rest of its state in data structures that all
    cores share.  A handler runs in a critical section of the MV-RLU library:
    it reads a consistent snapshot, locks what it writes, and is run again when
    a lock is refused (ABORT_HANDLER) or the snapshot is no longer valid.  This
    library models that runtime, its data structures and the NFs built on it,
    and proves what they promise.

    ** How the program is modelled

    - Integers are [Z], with C's wrap-around written out where the code
      computes ([u32], [i32], ... below); an array is a function [Z -> O],
      updated by [<[i := x]> f].  What malloc returns is an argument
      (usually called [uninit] or [garbage]); whether it succeeds is a boolean.
    - Code inside a critical section is a computation of the monad [M T A :=
      T -> option A * T] of Rlu.v: [T] is the thread's transaction, [None] is
      ABORT_HANDLER.  [wp R c t Q] is its total-correctness weakest
      precondition: [c] returns a value that satisfies [Q], or aborts because
      another thread holds a lock.  Handlers that also use the core's private
      memory [L] run in [M (L * T) A], with [wpm] of Txn.v.
    - Code outside of critical sections is a function on the memory it uses;
      assertions and failed allocations give [None] or a constructor.
    - Loops that run a given number of times are [for_range] and [loop_range];
      other loops take fuel.  The theorems give the fuel that is enough: the
      number of cells of a chain, the number of indexes for a partition loop,
      the number of indexes and of lists for an expiry loop; for the restart
      loops, a bound on how often a critical section fails ([retries]).
    - Build options are arguments: [batching] is PKT_PROCESS_BATCHING, which
      the firewall, the balancer, the dummy NF and, as configured, the bridge
      define and the NATs do not; [mutable] is MUTABLE_PKT_SET_STATE, which no
      NF defines, although the firewall, the balancer and a NAT write the
      states of packet sets.  What is proved of an NF in the data plane is
      proved of its own build.

    ** What is a parameter

    MV-RLU is not in the repository: [RluMem]/[RluLaws] (one array of
    protected objects), [RluIndep] (two of them) and [RluRuntime] (lock,
    unlock, abort).  Nor is DPDK: [Dpdk] of NfMain.v, the answers in
    NfStart.v, [RetaDevice] of Rss.v.  The CRC instruction, qsort ([Qsort] of
    LbAlgo.v), rand and the text functions of the C library are parameters
    too.  NFs are written over [PacketIo] of NfCommon.v, headers as values;
    Frame.v implements it with Vigor's code on bytes.  Every class has an
    instance that is computed with, which the witnesses use: [snap_txn], a
    snapshot with a write set; [ex_frame], buffers that hold their headers.
    Data-plane code takes the functions an NF defines (src/src/include/nf.h)
    as the class [NfHandlers] of DataPlane.v.

    ** The files

    The runtime's data structures (src/src/):
    - Prelude.v: this file: integers, sums, function updates, loops.
    - Rlu.v (include/rlu-wrapper.h): critical sections; Txn.v: their restarts,
      [run_txn], with its meaning without fuel, [txn_outcome].
    - Profiler.v (scalability-profiler.c): the record of a transaction's
      operations and the sampling of aborts; ProfReport.v: the report made of
      them.  The *_debug_t variants of the operations are in each structure's
      file.
    - Vector.v (vector.c), NfosMap.v (map.c): [map_inv] relates the
      open-addressing table to a finite map.
    - Links.v: the linked lists that the three allocators thread through their
      cells, [linked]; Dchain.v (double-chain*.c), DchainExp.v
      (double-chain-exp.c), ConcDchain.v (concurrent-double-chain*.c, which is
      protected by locks instead of MV-RLU; a schedule interleaves its atomic
      sections).
    - McsLock.v (include/lock.h): the queue lock of that allocator, as a step
      relation on threads that run its instructions one at a time.
    - Cht.v (cht.c): the consistent-hashing table.  MeObj.v (mergeable-obj.c).
    - ConcMap.v (concurrent-map.c) and PktSet.v (pkt-set-manager.c): packet
      sets, their index, their expiry.
    - DataPlane.v (data-plane.c): one packet, or a batch, through an NF's
      handlers, with restarts and the roll-back of packet-set state.
      BatchPlane.v: batches without that roll-back: that they return and handle
      every packet, and what they keep of what each run of a handler keeps
      ([nf_keeps]).
    - NfMain.v (nf.c, include/timer.h): a core's main loop, the periodic
      handler's loop.  NfStart.v (nf.c): from main to the launch of the cores.
      System.v: all cores, taking turns; a step is labelled with the core that
      takes it.

    What is used of Vigor (src/deps/vigor/):
    - Ether.v (libvig/verified/ether.c), Frame.v (packet-io.c, nf-util.h,
      nf-util.c): packets as bytes; NfUtil.v (nf-util.c): texts.
    - VigMap.v (libvig/verified/map.c, map-impl-pow2.c): a sequential map.
    - Rss.v (nf-lb/rss.c): hash keys and redirection tables of the devices.
    - Bst.v (bst.c), LbAlgo.v (lb_algo.c), LbMonitor.v (lb.c), all in nf-lb:
      moving flow partitions between cores; Barrier.v (barrier.c), access by
      access, and LbSync.v (lb.c, nf.c) on top of it: how the workers get to
      see the new table.  nf.c uses these in the build LOAD_BALANCING.

    The network functions (src/nf/):
    - NfCommon.v: packets and flows.  Interfaces.v: what maps, allocators and
      vectors promise to NFs, as classes with instances ([MapSpec],
      [AllocatorSpec], [Frame]).
    - Sessions.v: keys, indexes and external addresses of NAT sessions, which
      the two NATs share.  NatInit.v, NatFw.v, NatFwInit.v (fw-nat/main.c).
    - SessList.v, EiNat.v (ei-nat/main.c): the NAT that also keeps, per user, a
      list of the user's sessions, the last refreshed first; StaticMapping.v
      (static_mapping.c); NatWire.v: what the translation does to the bytes of
      a frame.
    - ExpTable.v: a table whose entries expire, used by Bridge.v
      (bridge/main.c) and Maglev.v, MaglevInit.v (maglev/main.c);
      MaglevPlane.v: the balancer's handlers in the data plane, on batches.
    - Mtrie.v (common/mtrie.c, fib_table.c): the forwarding table; MtrieRun.v:
      computing with it; LoadBalance.v (common/load-balance.c): the entries it
      leads to; FibInit.v: the tables that the firewall and ei-nat make.
    - Firewall.v (fw/main.c), and FwSystem.v: the firewall on all cores, on
      batches.
    - Dummy.v (dummy/main.c, rand-gen.c): the NF of the scalability tests.

    ** What the theorems show

    - Data structures refine their abstract counterparts: the map a finite
      map, the allocators sets of indexes with the order they expire in, the
      packet-set map a finite map per partition, the trie longest-prefix
      match; initialisation establishes the invariants and fails only
      without memory.  The concurrent allocator is linearizable; the queue
      lock excludes and serves in order.
    - Expiry times are sums of int64_t ([expiry_time]); that rings are ordered
      by them, so that expiry misses nothing, is proved while time and validity
      duration fit.
    - The consistent-hashing table gives every flow a permutation of the
      backends; when backends come and go, a flow whose backend lives keeps it
      or moves to a new one.
    - In the build without batches a packet has the effect of one complete run
      of a handler, however many runs were aborted; in both builds processing
      returns if aborts are bounded.  A round of the main loop, its expiry
      included, returns and frees or sends every buffer once; in every
      interleaving of the cores the packet sets stay well formed, and a core
      changes its own only.
    - The periodic expiry of a table removes what has expired; a run that is
      rejected after its work was done makes the next one do nothing, which is
      a finding and part of the statement.
    - The NFs: the NATs give different sessions different external addresses
      and ports; the sessions of a user form a proper list; the bridge learns;
      the load balancer keeps a flow on its backend while that lives; the
      firewall, on all cores, lets in only what answers a flow from inside
      that went through the same core.  No build makes the devices bring both
      directions of a connection to one core (a finding): replies that arrive
      at another core are dropped.
    - Rebalancing ends, and moves partitions only to lower the greatest load;
      the barrier lets no thread through early and none wait for ever; a
      worker never reads a half-written table.
    The manifest's findings are the places where the code does something else
    than it means to; many have a small theorem at the end of their file.

    ** Not modelled

    - The body of MV-RLU and its memory reclamation; the memory model: critical
      sections are taken at their interface, and the accesses of McsLock.v and
      Barrier.v are sequentially consistent, so that the fences are no-ops.
    - Parsing of arguments, signals, printing and logs; the build options
      FLOW_PERF_BENCH, ENABLE_STAT and DEBUG_REAL_NOP; of LOAD_BALANCING the
      rings on which workers pass packets on (the build calls functions that
      the repository does not have).
    - In System.v a core's step is a whole packet or expiry round: critical
      sections are serialised, as MV-RLU promises for those that commit;
      handlers that interleave are covered by the aborts of Txn.v only.
    - An assertion of a handler that fails ends the process; in the data plane
      the run of the handler just ends there.
    - The rest of src/deps/vigor (Vigor's own NFs, the library modules that
      NFOS does not call, the VeriFast proofs and KLEE models), the third-party
      generators of src/nf/dummy (rand.c, zipf.c, hash.h), flow rules and
      device statistics (nf-lb/flow-rules.c, util.c), src/utils, src/tests,
      src/setup and src/nfos-experiments. *)

From stdpp Require Export base tactics list list_numbers gmap functions relations sorting.
From Stdlib Require Export ZArith Lia Bool.
Open Scope Z_scope.

(** ** Machine integers *)

(** C's fixed-width unsigned arithmetic: a value is a [Z] reduced modulo
    [2^w]; signed values are the two's complement representatives. *)
Definition wrap (w x : Z) : Z := x mod 2 ^ w.
Definition u8 (x : Z) : Z := wrap 8 x.
Definition u16 (x : Z) : Z := wrap 16 x.
Definition u32 (x : Z) : Z := wrap 32 x.
Definition u64 (x : Z) : Z := wrap 64 x.
Definition swrap (w x : Z) : Z := (x + 2 ^ (w - 1)) mod 2 ^ w - 2 ^ (w - 1).
Definition i16 (x : Z) : Z := swrap 16 x.
Definition i32 (x : Z) : Z := swrap 32 x.
Definition i64 (x : Z) : Z := swrap 64 x.

Lemma wrap_id w x : 0 <= x < 2 ^ w -> wrap w x = x.
Proof. intros. unfold wrap. by apply Z.mod_small. Qed.

Lemma wrap_range w x : 0 <= w -> 0 <= wrap w x < 2 ^ w.
Proof. intros. unfold wrap. apply Z.mod_pos_bound. lia. Qed.

Lemma u32_id x : 0 <= x < 2 ^ 32 -> u32 x = x.
Proof. apply wrap_id. Qed.

Lemma u16_id x : 0 <= x < 2 ^ 16 -> u16 x = x.
Proof. apply wrap_id. Qed.

Lemma u64_id x : 0 <= x < 2 ^ 64 -> u64 x = x.
Proof. apply wrap_id. Qed.

Lemma swrap_id w x : 0 < w -> - 2 ^ (w - 1) <= x < 2 ^ (w - 1) -> swrap w x = x.
Proof.
  intros Hw Hx. unfold swrap.
  assert (2 ^ w = 2 * 2 ^ (w - 1)) as E.
  { rewrite <- Z.pow_succ_r by lia. f_equal. lia. }
  rewrite Z.mod_small; lia.
Qed.

Lemma i32_id x : - 2 ^ 31 <= x < 2 ^ 31 -> i32 x = x.
Proof. intros. by apply swrap_id. Qed.

Lemma i64_id x : - 2 ^ 63 <= x < 2 ^ 63 -> i64 x = x.
Proof. intros. by apply swrap_id. Qed.

(** A power-of-two mask is a remainder. *)
Lemma land_mask x k : 0 <= k -> Z.land x (2 ^ k - 1) = x mod 2 ^ k.
Proof.
  intros. rewrite <- Z.land_ones by lia. f_equal. rewrite Z.ones_equiv. lia.
Qed.

(** ** Sums over lists of integers *)

Fixpoint zsum {A} (f : A -> Z) (l : list A) : Z :=
  match l with
  | [] => 0
  | x :: l' => f x + zsum f l'
  end.

Lemma zsum_ext {A} (f g : A -> Z) l :
  (forall x, x ∈ l -> f x = g x) -> zsum f l = zsum g l.
Proof.
  induction l as [|x l IH]; intros H; simpl; [done|].
  rewrite IH by set_solver. by rewrite H by set_solver.
Qed.

Lemma zsum_nonneg {A} (f : A -> Z) l :
  (forall x, x ∈ l -> 0 <= f x) -> 0 <= zsum f l.
Proof.
  induction l as [|x l IH]; intros H; simpl; [done|].
  assert (0 <= f x) by (apply H; set_solver).
  assert (0 <= zsum f l) by (apply IH; set_solver). lia.
Qed.

Lemma zsum_elem {A} (f : A -> Z) l x :
  (forall y, y ∈ l -> 0 <= f y) -> x ∈ l -> f x <= zsum f l.
Proof.
  induction l as [|y l IH]; intros H Hx; simpl; [set_solver|].
  assert (0 <= zsum f l) by (apply zsum_nonneg; set_solver).
  assert (0 <= f y) by (apply H; set_solver).
  apply elem_of_cons in Hx as [->|Hx]; [lia|].
  assert (f x <= zsum f l) by (apply IH; set_solver). lia.
Qed.

(** Changing one summand of a duplicate-free list. *)
Lemma zsum_change {A} (f g : A -> Z) l x :
  NoDup l -> x ∈ l -> (forall y, y ∈ l -> y <> x -> g y = f y) ->
  zsum g l = zsum f l + (g x - f x).
Proof.
  induction l as [|y l IH]; intros Hnd Hx H; simpl; [set_solver|].
  apply NoDup_cons in Hnd as [Hy Hnd].
  apply elem_of_cons in Hx as [->|Hx].
  - rewrite (zsum_ext g f l); [lia|]. intros z Hz. apply H; set_solver.
  - rewrite IH by set_solver. rewrite (H y); [lia|set_solver|set_solver].
Qed.

Lemma zsum_bound {A} (f : A -> Z) l b :
  (forall x, x ∈ l -> f x <= b) -> 0 <= b -> zsum f l <= b * Z.of_nat (length l).
Proof.
  induction l as [|x l IH]; intros H Hb; simpl; [lia|].
  assert (f x <= b) by (apply H; set_solver).
  assert (zsum f l <= b * Z.of_nat (length l)) by (apply IH; set_solver). lia.
Qed.

Lemma zsum_zero {A} (f : A -> Z) l : (forall x, x ∈ l -> f x = 0) -> zsum f l = 0.
Proof. induction l as [|y l IH]; intros H; cbn; [done|]. rewrite (H y), IH by set_solver. done. Qed.

(** ** Lookups in updated functions *)

Lemma fn_insert_dec {A B} `{EqDecision A} (f : A -> B) i j x :
  (<[i := x]> f) j = if decide (i = j) then x else f j.
Proof.
  case_decide; subst; [apply fn_lookup_insert|by apply fn_lookup_insert_ne].
Qed.

(** [fsolve] evaluates reads of an updated function ([<[i:=x]> f j]) whose
    indices are equal or different by linear arithmetic; [fcases] splits on
    the index equalities that remain. *)
Ltac fstep :=
  match goal with
  | |- context [(<[?i := ?x]> ?f) ?i] => rewrite (fn_lookup_insert f i x)
  | |- context [(<[?i := ?x]> ?f) ?j] =>
      first
        [ rewrite (fn_lookup_insert_ne f i j x) by (first [lia | congruence])
        | replace ((<[i := x]> f) j) with x by
            (replace j with i by lia; symmetry; apply fn_lookup_insert) ]
  end.
Ltac fsolve := repeat fstep.

Ltac fcase :=
  match goal with
  | |- context [(<[?i := ?x]> ?f) ?j] =>
      rewrite (fn_insert_dec f i j x); case_decide; simplify_eq
  | H : context [(<[?i := ?x]> ?f) ?j] |- _ =>
      rewrite (fn_insert_dec f i j x) in H; case_decide; simplify_eq
  end.
Ltac fcases := repeat fcase.


(** ** Lengths of filtered lists *)

Lemma length_filter_full {A} (P : A -> Prop) `{!forall x, Decision (P x)} l :
  (forall x, x ∈ l -> P x) -> length (filter P l) = length l.
Proof.
  induction l as [|x l IH]; intros Hall; [done|].
  rewrite filter_cons_True by set_solver. simpl. f_equal. apply IH. set_solver.
Qed.

Lemma length_filter_strict {A} (P : A -> Prop) `{!forall x, Decision (P x)} l x :
  x ∈ l -> ~ P x -> (length (filter P l) < length l)%nat.
Proof.
  induction l as [|y l IH]; intros Hin Hx; [set_solver|].
  apply elem_of_cons in Hin as [->|Hin]; [|specialize (IH Hin Hx)].
  - rewrite filter_cons_False by done. simpl. pose proof (length_filter P l). lia.
  - rewrite filter_cons. case_decide; simpl; lia.
Qed.

(** ** Sorted lists of integers *)

Lemma sorted_snoc (l : list Z) x :
  StronglySorted Z.le l -> (forall y, y ∈ l -> y <= x) -> StronglySorted Z.le (l ++ [x]).
Proof.
  induction 1 as [|y l Hs IH Hf]; intros Hx; simpl; [repeat constructor|].
  constructor; [apply IH; intros; apply Hx; by right|].
  apply Forall_app. split; [done|]. constructor; [apply Hx; left|constructor].
Qed.

Lemma sorted_remove (l1 : list Z) x l2 :
  StronglySorted Z.le (l1 ++ x :: l2) -> StronglySorted Z.le (l1 ++ l2).
Proof.
  induction l1 as [|y l1 IH]; simpl; inversion 1; subst; [done|].
  constructor; [auto|]. rewrite Forall_app, Forall_cons in *. naive_solver.
Qed.

(** ** Counted loops *)

(** for (k = i; k < i + n; k++) s = body(k, s); *)
Fixpoint loop_range {S} (i : Z) (n : nat) (body : Z -> S -> S) (s : S) : S :=
  match n with
  | O => s
  | Datatypes.S n' => loop_range (i + 1) n' body (body i s)
  end.

Lemma loop_range_inv {S} (I : Z -> S -> Prop) body n : forall i s,
  I i s ->
  (forall k s, i <= k < i + Z.of_nat n -> I k s -> I (k + 1) (body k s)) ->
  I (i + Z.of_nat n) (loop_range i n body s).
Proof.
  induction n as [|n IH]; intros i s Hi Hb; cbn [loop_range].
  - by rewrite Z.add_0_r.
  - replace (i + Z.of_nat (Datatypes.S n)) with (i + 1 + Z.of_nat n) by lia.
    apply IH; [apply Hb; [lia|done]|]. intros k s' Hk. apply Hb. lia.
Qed.

Lemma loop_range_spec {S} (I : Z -> S -> Prop) body n s :
  0 <= n -> I 0 s -> (forall k s, 0 <= k < n -> I k s -> I (k + 1) (body k s)) ->
  I n (loop_range 0 (Z.to_nat n) body s).
Proof.
  intros Hn H0 Hb. pose proof (loop_range_inv I body (Z.to_nat n) 0 s H0) as H.
  rewrite Z.add_0_l, Z2Nat.id in H by lia. apply H. intros k s' Hk. apply Hb. lia.
Qed.

(** An injective map from a finite interval to itself covers it. *)
Lemma inj_surj (f : Z -> Z) n :
  (forall i, 0 <= i < n -> 0 <= f i < n) ->
  (forall i j, 0 <= i < n -> 0 <= j < n -> f i = f j -> i = j) ->
  forall b, 0 <= b < n -> exists i, 0 <= i < n /\ f i = b.
Proof.
  intros Hr Hi b Hb.
  assert (NoDup (f <$> seqZ 0 n)) as Hnd.
  { apply NoDup_fmap_2_strong; [|apply NoDup_seqZ].
    intros x y Hx%elem_of_seqZ Hy%elem_of_seqZ. apply Hi; lia. }
  assert (f <$> seqZ 0 n ⊆ seqZ 0 n) as Hsub.
  { intros x (i & -> & Hx%elem_of_seqZ)%list_elem_of_fmap. apply elem_of_seqZ.
    specialize (Hr i). lia. }
  assert (Permutation (f <$> seqZ 0 n) (seqZ 0 n)) as Hp.
  { apply submseteq_length_Permutation; [by apply NoDup_submseteq|]. by rewrite length_fmap. }
  assert (b ∈ f <$> seqZ 0 n) as Hin by (rewrite Hp; apply elem_of_seqZ; lia).
  apply list_elem_of_fmap in Hin as (i & -> & Hin%elem_of_seqZ). exists i. split; [lia|done].
Qed.
