(* ===== verification/Rlu.v ===== *)
(** * The MV-RLU critical section, seen from NFOS

    src/src/include/rlu-wrapper.h includes the public header of the MV-RLU
    library, which is a git submodule and not part of the repository.  It is
    therefore a parameter of the whole development: [RluMem] is the record of
    the operations NFOS calls on one array of RLU-protected objects
    (RLU_DEREF, RLU_TRY_LOCK/_mvrlu_try_lock and a store through the pointer
    they return) and [RluLaws] is the documented behaviour NFOS relies on: a
    critical section reads a consistent view, overlaid with the copies it has
    locked itself; a lock that is granted copies the object it sees; only
    locked copies may be written.  Functions that return ABORT_HANDLER when a
    lock is refused are computations of the monad [M]. *)

From S2P Require Import Prelude.
Open Scope Z_scope.

(** ** Handler code as a state monad with abort *)

(** [None] is the return value ABORT_HANDLER (-1); the transaction reached so
    far is kept, as in C, and is discarded by nfos_abort_txn. *)
Definition M (T A : Type) : Type := T -> option A * T.

Definition ret {T A} (a : A) : M T A := fun t => (Some a, t).
Definition abort {T A} : M T A := fun t => (None, t).
Definition bind {T A B} (m : M T A) (k : A -> M T B) : M T B :=
  fun t => match m t with
           | (Some a, t') => k a t'
           | (None, t') => (None, t')
           end.

Declare Scope rlu_scope.
Delimit Scope rlu_scope with rlu.
Notation "'let!' x ':=' m 'in' k" := (bind m (fun x => k))
  (at level 10, x pattern, m at level 100, k at level 200,
   format "'[v' 'let!'  x  ':='  m  'in' '/' k ']'") : rlu_scope.
Notation "m ;; k" := (bind m (fun _ => k))
  (at level 100, right associativity) : rlu_scope.
Open Scope rlu_scope.

(** A counted C loop: the body for [i], [i+1], ..., [i+n-1]. *)
Fixpoint for_range {T} (i : Z) (n : nat) (body : Z -> M T unit) : M T unit :=
  match n with
  | O => ret tt
  | S n' => body i ;; for_range (i + 1) n' body
  end.

(** A computation whose value is not used. *)
Lemma run_ret {T A} (c : M T A) t r t' :
  (let! _ := c in ret tt) t = (r, t') -> exists a, c t = (a, t').
Proof. unfold bind. destruct (c t) as [[a|] t1]; intros [= _ <-]; eauto. Qed.

(** ** The interface of MV-RLU *)

(** Whether the rest of the system leaves every lock to this thread. *)
Class RluTxn (T : Type) := no_conflict : T -> Prop.

(** One array of RLU-protected objects of type [O], indexed like the C array
    of pointers to their master copies; [T] is the thread's transaction. *)
Record RluMem (T O : Type) := {
  view : T -> Z -> O;
  locked : T -> Z -> Prop;
  try_lock : T -> Z -> option T;
  store : T -> Z -> O -> T
}.
Arguments view {T O} _ _ _.
Arguments locked {T O} _ _ _.
Arguments try_lock {T O} _ _ _.
Arguments store {T O} _ _ _ _.

Class RluLaws {T O} `{RluTxn T} (m : RluMem T O) := {
  try_lock_view t l t' l' : try_lock m t l = Some t' -> view m t' l' = view m t l';
  try_lock_locked t l t' : try_lock m t l = Some t' -> locked m t' l;
  try_lock_mono t l t' l' : try_lock m t l = Some t' -> locked m t l' -> locked m t' l';
  try_lock_refused t l : try_lock m t l = None -> ~ no_conflict t;
  try_lock_free t l t' : try_lock m t l = Some t' -> no_conflict t -> no_conflict t';
  store_view_eq t l o : locked m t l -> view m (store m t l o) l = o;
  store_view_ne t l l' o :
    locked m t l -> l <> l' -> view m (store m t l o) l' = view m t l';
  store_mono t l o l' : locked m t l -> locked m t l' -> locked m (store m t l o) l';
  store_free t l o : locked m t l -> no_conflict t -> no_conflict (store m t l o)
}.

(** The steps a transaction can make on one array. *)
Inductive mem_step {T O} (m : RluMem T O) : T -> T -> Prop :=
| step_lock t l t' : try_lock m t l = Some t' -> mem_step m t t'
| step_store t l o : locked m t l -> mem_step m t (store m t l o).
Abbreviation mem_steps m := (rtc (mem_step m)).

(** Steps on one array neither change nor unlock the objects of another. *)
Class RluIndep {T O1 O2} (m1 : RluMem T O1) (m2 : RluMem T O2) := {
  indep_view t t' l : mem_step m1 t t' -> view m2 t' l = view m2 t l;
  indep_locked t t' l : mem_step m1 t t' -> locked m2 t l -> locked m2 t' l
}.

Section ops.
Context {T O : Type} (m : RluMem T O).

(** RLU_DEREF(rlu_data, arr[l]) followed by reads of the version. *)
Definition deref (l : Z) : M T O := fun t => (Some (view m t l), t).

(** A read through a pointer that try_lock made point to the locked copy. *)
Definition load (l : Z) : M T O := fun t => (Some (view m t l), t).

(** if (!RLU_TRY_LOCK(rlu_data, &p)) return ABORT_HANDLER; *)
Definition lock (l : Z) : M T unit :=
  fun t => match try_lock m t l with
           | Some t' => (Some tt, t')
           | None => (None, t)
           end.

(** p->field = v through a locked pointer: [f] updates the field. *)
Definition modify (l : Z) (f : O -> O) : M T unit :=
  fun t => (Some tt, store m t l (f (view m t l))).
End ops.

(** ** Weakest preconditions *)

(** [wp R c t Q]: run from [t], [c] either returns a value and a transaction
    satisfying [Q], moving along [R], or aborts, and then some lock was
    refused because of a conflict.  It is a total-correctness statement. *)
Class TxnRel {T} `{RluTxn T} (R : T -> T -> Prop) := {
  #[global] txn_preorder :: PreOrder R;
  txn_free t t' : R t t' -> no_conflict t -> no_conflict t'
}.

Definition wp {T A} `{RluTxn T} (R : T -> T -> Prop) (c : M T A) (t : T)
    (Q : A -> T -> Prop) : Prop :=
  match c t with
  | (Some a, t') => R t t' /\ Q a t'
  | (None, _) => ~ no_conflict t
  end.

Section wp.
Context {T : Type} `{RluTxn T} (R : T -> T -> Prop) `{!TxnRel R}.

Lemma wp_ret {A} (a : A) t (Q : A -> T -> Prop) : Q a t -> wp R (ret a) t Q.
Proof. intros. split; [reflexivity|done]. Qed.

Lemma wp_bind {A B} (c : M T A) (k : A -> M T B) t Q :
  wp R c t (fun a t' => wp R (k a) t' Q) -> wp R (bind c k) t Q.
Proof.
  unfold wp, bind. destruct (c t) as [[a|] t'] eqn:E; [|done].
  intros [HR Hk]. destruct (k a t') as [[b|] t''].
  - destruct Hk. split; [by transitivity t'|done].
  - intros Hf. by apply Hk, (txn_free t t').
Qed.

Lemma wp_mono {A} (c : M T A) t (Q Q' : A -> T -> Prop) :
  (forall a t', R t t' -> Q a t' -> Q' a t') -> wp R c t Q -> wp R c t Q'.
Proof. unfold wp. destruct (c t) as [[a|] t']; naive_solver. Qed.

Lemma wp_rel {A} (R' : T -> T -> Prop) (c : M T A) t Q :
  (forall t t', R' t t' -> R t t') -> wp R' c t Q -> wp R c t Q.
Proof. unfold wp. intros HR. destruct (c t) as [[a|] t']; naive_solver. Qed.

Lemma wp_for_range (I : Z -> T -> Prop) (body : Z -> M T unit) n :
  forall i t,
  I i t ->
  (forall j t, i <= j < i + Z.of_nat n -> I j t ->
     wp R (body j) t (fun _ t' => I (j + 1) t')) ->
  wp R (for_range i n body) t (fun _ t' => I (i + Z.of_nat n) t').
Proof.
  induction n as [|n IH]; intros i t HI Hb; simpl.
  - apply wp_ret. by rewrite Z.add_0_r.
  - apply wp_bind. eapply wp_mono; [|apply Hb; [lia|done]].
    intros [] t' _ HI'. replace (i + Z.of_nat (S n)) with (i + 1 + Z.of_nat n) by lia.
    apply IH; [done|]. intros j t'' Hj. apply Hb. lia.
Qed.
End wp.

(** [R] includes the steps on the array [m]. *)
Class MemRel {T O} (m : RluMem T O) (R : T -> T -> Prop) :=
  mem_rel t t' : mem_step m t t' -> R t t'.
#[export] Instance mem_rel_steps {T O} (m : RluMem T O) : MemRel m (mem_steps m).
Proof. intros t t'. apply rtc_once. Qed.

(** [holds m t f ls]: in [t] the array reads as [f] and [ls] are locked. *)
Definition holds {T O} (m : RluMem T O) (t : T) (f : Z -> O) (ls : list Z) : Prop :=
  (forall l, view m t l = f l) /\ (forall l, l ∈ ls -> locked m t l).

Section mem_wp.
Context {T O : Type} `{RluTxn T} (m : RluMem T O) `{!RluLaws m}.

#[export] Instance mem_steps_rel : TxnRel (mem_steps m).
Proof.
  constructor; [apply rtc_po|]. intros t t'.
  induction 1 as [|t t1 t2 Hs Hr IH]; [done|]. intros Hf. apply IH.
  destruct Hs; eauto using try_lock_free, store_free.
Qed.

Lemma holds_view t : holds m t (view m t) [].
Proof. split; [done|set_solver]. Qed.

Lemma holds_weaken t f ls ls' : ls' ⊆ ls -> holds m t f ls -> holds m t f ls'.
Proof. intros Hs [Hv Hl]. split; [done|]. intros. apply Hl. by apply Hs. Qed.

Lemma holds_ext t f f' ls : (forall l, f' l = f l) -> holds m t f ls -> holds m t f' ls.
Proof. intros E [Hv Hl]. split; [|done]. intros l. by rewrite E. Qed.

Context (R : T -> T -> Prop) `{!TxnRel R, !MemRel m R}.

Lemma wp_deref l t f ls (Q : O -> T -> Prop) :
  holds m t f ls -> Q (f l) t -> wp R (deref m l) t Q.
Proof. intros [Hv _] HQ. split; [reflexivity|]. by rewrite Hv. Qed.

Lemma wp_load l t f ls (Q : O -> T -> Prop) :
  holds m t f ls -> Q (f l) t -> wp R (load m l) t Q.
Proof. intros [Hv _] HQ. split; [reflexivity|]. by rewrite Hv. Qed.

Lemma wp_lock l t f ls (Q : unit -> T -> Prop) :
  holds m t f ls ->
  (forall t', holds m t' f (l :: ls) -> Q tt t') -> wp R (lock m l) t Q.
Proof.
  intros [Hv Hl] HQ. unfold wp, lock. destruct (try_lock m t l) as [t'|] eqn:E.
  - split; [by apply (mem_rel (m:=m)), (step_lock _ _ l)|]. apply HQ. split.
    + intros l'. by rewrite (try_lock_view _ _ _ _ E).
    + intros l' [->|Hl']%elem_of_cons;
        eauto using try_lock_locked, try_lock_mono.
  - by eapply try_lock_refused.
Qed.

Lemma wp_modify l g t f ls (Q : unit -> T -> Prop) :
  holds m t f ls -> l ∈ ls ->
  (forall t', holds m t' (<[l := g (f l)]> f) ls -> Q tt t') ->
  wp R (modify m l g) t Q.
Proof.
  intros [Hv Hl] Hin HQ. unfold wp, modify. pose proof (Hl _ Hin) as Hlk.
  split; [by apply (mem_rel (m:=m)), step_store|]. apply HQ. split.
  - intros l'. destruct (decide (l = l')) as [<-|Hne].
    + rewrite store_view_eq by done. rewrite fn_lookup_insert. by rewrite Hv.
    + rewrite store_view_ne by done. rewrite fn_lookup_insert_ne by done. apply Hv.
  - intros l' Hl'. apply store_mono; auto.
Qed.
End mem_wp.

(** ** A small proof mode *)

(** Discharge the class side conditions of the rules above. *)
Ltac wp_tc :=
  lazymatch goal with
  | |- RluLaws _ => typeclasses eauto
  | |- TxnRel _ => typeclasses eauto
  | |- MemRel _ _ => typeclasses eauto
  | |- RluIndep _ _ => typeclasses eauto
  | _ => idtac
  end.

(** One step of a computation; the transaction reached after a lock or a
    store is introduced with its description [Hh]. *)
Ltac wstep :=
  lazymatch goal with
  | |- wp _ (bind _ _) _ _ => eapply wp_bind; wp_tc
  | |- wp _ (ret _) _ _ => eapply wp_ret; wp_tc
  | |- wp _ (deref _ _) _ _ =>
      eapply wp_deref; wp_tc; [eassumption|]; cbv beta
  | |- wp _ (load _ _) _ _ =>
      eapply wp_load; wp_tc; [eassumption|]; cbv beta
  | |- wp _ (lock ?m _) ?t _ =>
      eapply wp_lock; wp_tc; [eassumption|];
      match goal with H : holds m t _ _ |- _ => clear H end;
      let t' := fresh "t" in let Hh := fresh "Hh" in intros t' Hh; cbv beta
  | |- wp _ (modify ?m _ _) ?t _ =>
      eapply wp_modify; wp_tc; [eassumption|set_solver|];
      match goal with H : holds m t _ _ |- _ => clear H end;
      let t' := fresh "t" in let Hh := fresh "Hh" in intros t' Hh; cbv beta
  end.

(** From a [wp] along the steps of one array to the run itself. *)
Lemma wp_run {T A} `{RluTxn T} (R : T -> T -> Prop) (c : M T A) t
    (P : A -> T -> Prop) :
  wp R c t P ->
  match c t with
  | (Some a, t') => P a t'
  | (None, _) => ~ no_conflict t
  end.
Proof. unfold wp. destruct (c t) as [[a|] t']; naive_solver. Qed.

Section indep.
Context {T O1 O2 : Type} (m1 : RluMem T O1) (m2 : RluMem T O2) `{!RluIndep m1 m2}.

Lemma indep_holds t t' f ls :
  mem_steps m1 t t' -> holds m2 t f ls -> holds m2 t' f ls.
Proof.
  induction 1 as [|t t1 t2 Hs Hr IH]; [done|]. intros [Hv Hl]. apply IH. split.
  - intros l. by rewrite (indep_view _ _ l Hs).
  - intros l Hin. eapply indep_locked; eauto.
Qed.
End indep.

(** ** An instance: a snapshot with the set of copies locked so far *)

(** The committed snapshot a critical section started from, the copies it has
    locked (visible to itself only), and the locks other threads deny it. *)
Record snap_txn (O : Type) := SnapTxn {
  snapshot : Z -> O;
  pending : gmap Z O;
  denied : Z -> bool
}.
Arguments SnapTxn {O} _ _ _.
Arguments snapshot {O} _ _.
Arguments pending {O} _.
Arguments denied {O} _ _.

Definition snap_view {O} (t : snap_txn O) (l : Z) : O :=
  default (snapshot t l) (pending t !! l).
Definition snap_put {O} (t : snap_txn O) (l : Z) (o : O) : snap_txn O :=
  SnapTxn (snapshot t) (<[l := o]> (pending t)) (denied t).
Definition snap_lock {O} (t : snap_txn O) (l : Z) : option (snap_txn O) :=
  if denied t l then None else Some (snap_put t l (snap_view t l)).

#[export] Instance snap_txn_conflict O : RluTxn (snap_txn O) :=
  fun t => forall l, denied t l = false.

(** Several arrays in one transaction: the transaction [T] has a component
    for each of them, reached by a lens. *)
Record lens (T S : Type) := Lens { lget : T -> S; lset : S -> T -> T }.
Arguments Lens {T S} _ _.
Arguments lget {T S} _ _.
Arguments lset {T S} _ _ _.

Class LensLaws {T O} `{RluTxn T} (ln : lens T (snap_txn O)) := {
  lget_lset s t : lget ln (lset ln s t) = s;
  lens_free t : no_conflict t -> no_conflict (lget ln t);
  lset_free s t : no_conflict t -> no_conflict s -> no_conflict (lset ln s t)
}.

Class LensDisj {T S1 S2} (l1 : lens T S1) (l2 : lens T S2) :=
  lens_disj s t : lget l2 (lset l1 s t) = lget l2 t.

Definition lens_mem {T O} (ln : lens T (snap_txn O)) : RluMem T O := {|
  view t l := snap_view (lget ln t) l;
  locked t l := is_Some (pending (lget ln t) !! l);
  try_lock t l :=
    match snap_lock (lget ln t) l with
    | Some s => Some (lset ln s t)
    | None => None
    end;
  store t l o := lset ln (snap_put (lget ln t) l o) t
|}.

Lemma snap_view_put {O} (t : snap_txn O) l l' o :
  snap_view (snap_put t l o) l' = if decide (l = l') then o else snap_view t l'.
Proof.
  unfold snap_view, snap_put; simpl. rewrite lookup_insert. by case_decide.
Qed.

#[export] Instance lens_mem_laws {T O} `{RluTxn T} (ln : lens T (snap_txn O))
  `{!LensLaws ln} : RluLaws (lens_mem ln).
Proof.
  assert (forall t l t', try_lock (lens_mem ln) t l = Some t' ->
    denied (lget ln t) l = false /\
    t' = lset ln (snap_put (lget ln t) l (snap_view (lget ln t) l)) t) as Hlk.
  { intros t l t'. simpl. unfold snap_lock. destruct (denied _ _); naive_solver. }
  split; simpl.
  - intros t l t' l' [_ ->]%Hlk. rewrite lget_lset, snap_view_put. case_decide; by subst.
  - intros t l t' [_ ->]%Hlk. rewrite lget_lset. simpl. rewrite lookup_insert_eq. eauto.
  - intros t l t' l' [_ ->]%Hlk Hl. rewrite lget_lset. simpl.
    rewrite lookup_insert. case_decide; eauto.
  - intros t l. unfold snap_lock. destruct (denied _ _) eqn:E; [|done].
    intros _ Hf%lens_free. by rewrite (Hf l) in E.
  - intros t l t' [_ ->]%Hlk Hf. apply lset_free; [done|]. intros l'. simpl.
    by apply lens_free in Hf.
  - intros t l o _. by rewrite lget_lset, snap_view_put, decide_True.
  - intros t l l' o _ Hne. by rewrite lget_lset, snap_view_put, decide_False.
  - intros t l o l' _ Hl. rewrite lget_lset. simpl. rewrite lookup_insert.
    case_decide; eauto.
  - intros t l o _ Hf. apply lset_free; [done|]. intros l'. simpl.
    by apply lens_free in Hf.
Qed.

#[export] Instance lens_mem_indep {T O1 O2} (l1 : lens T (snap_txn O1))
  (l2 : lens T (snap_txn O2)) `{!LensDisj l1 l2} : RluIndep (lens_mem l1) (lens_mem l2).
Proof.
  assert (forall t t', mem_step (lens_mem l1) t t' -> lget l2 t' = lget l2 t) as E.
  { intros t t' Hs. inversion Hs as [? l ? Hl|? l o ?]; subst; simpl in *.
    - destruct (snap_lock _ _); naive_solver.
    - apply lens_disj. }
  split; intros t t' l Hs; simpl; by rewrite (E _ _ Hs).
Qed.

(** The single-array transaction. *)
Definition self_lens {O} : lens (snap_txn O) (snap_txn O) := Lens (fun t => t) (fun s _ => s).
#[export] Instance self_lens_laws {O} : LensLaws (@self_lens O).
Proof. split; simpl; auto. Qed.
Definition snap_mem {O} : RluMem (snap_txn O) O := lens_mem self_lens.

(** Transactions over two arrays, each with its own lens. *)
#[export] Instance pair_conflict {A B} `{RluTxn A, RluTxn B} : RluTxn (A * B) :=
  fun p => no_conflict p.1 /\ no_conflict p.2.
Definition fst_lens {A B S} (l : lens A S) : lens (A * B) S :=
  Lens (fun p => lget l p.1) (fun s p => (lset l s p.1, p.2)).
Definition snd_lens {A B S} (l : lens B S) : lens (A * B) S :=
  Lens (fun p => lget l p.2) (fun s p => (p.1, lset l s p.2)).
#[export] Instance fst_lens_laws {A B O} `{RluTxn A, RluTxn B} (l : lens A (snap_txn O))
  `{!LensLaws l} : LensLaws (fst_lens (B:=B) l).
Proof.
  split; simpl.
  - intros. apply lget_lset.
  - intros t [? _]. by apply lens_free.
  - intros s t [? ?] ?. split; [by apply lset_free|done].
Qed.
#[export] Instance snd_lens_laws {A B O} `{RluTxn A, RluTxn B} (l : lens B (snap_txn O))
  `{!LensLaws l} : LensLaws (snd_lens (A:=A) l).
Proof.
  split; simpl.
  - intros. apply lget_lset.
  - intros t [_ ?]. by apply lens_free.
  - intros s t [? ?] ?. split; [done|by apply lset_free].
Qed.
#[export] Instance fst_snd_disj {A B S1 S2} (l1 : lens A S1) (l2 : lens B S2) :
  LensDisj (fst_lens l1) (snd_lens l2).
Proof. intros s t. done. Qed.
#[export] Instance snd_fst_disj {A B S1 S2} (l1 : lens A S1) (l2 : lens B S2) :
  LensDisj (snd_lens l2) (fst_lens l1).
Proof. intros s t. done. Qed.
#[export] Instance fst_fst_disj {A B S1 S2} (l1 : lens A S1) (l2 : lens A S2)
  `{!LensDisj l1 l2} : LensDisj (fst_lens (B:=B) l1) (fst_lens l2).
Proof. intros s t. simpl. apply LensDisj0. Qed.
#[export] Instance snd_snd_disj {A B S1 S2} (l1 : lens B S1) (l2 : lens B S2)
  `{!LensDisj l1 l2} : LensDisj (snd_lens (A:=A) l1) (snd_lens l2).
Proof. intros s t. simpl. apply LensDisj0. Qed.
