(* ===== verification/McsLock.v ===== *)
(** * The queue lock (src/src/include/lock.h)

    An MCS lock: a waiting thread spins on its own queue node, the lock word
    points to the last node of the queue, and a thread that unlocks wakes the
    owner of the next node.  Every thread has one node (each call of
    mcslock_lock in the code passes a node on the caller's stack), so a node
    is named by its thread.  [mcs_instr] executes one memory access of one
    thread - swaps and compare-and-swaps are one access - and a schedule is
    a list of threads, so that all interleavings of the accesses are runs.
    Memory is sequentially consistent: the fences smp_wmb and smp_rmb are
    no-ops here, and the reordering of stores and later loads that x86 allows
    is not modelled.

    The theorems: at most one thread is between lock and unlock, no thread
    follows a NULL pointer or writes to a node whose owner has returned
    ([mcs_exclusion]); the lock is granted in the order of the swaps
    ([mcs_fifo]); a waiting thread gets the lock after a bounded number of
    fair rounds ([mcs_starvation_free]). *)

From S2P Require Import Prelude.
Open Scope Z_scope.

(** ** State *)

Definition thread : Type := nat.

#[export] Instance thread_eq_dec : EqDecision thread.
Proof. unfold thread. apply _. Defined.

(** Where a thread is in mcslock_lock (up to [Critical]) and mcslock_unlock;
    [Fault]: it has followed a NULL pointer. *)
Inductive mcs_pc :=
  | Idle
  | LockNext                    (* about to store qnode->next = NULL *)
  | LockSwap                    (* about to swap itself into lock->qnode *)
  | LockLink (prev : thread)    (* about to store prev->next = qnode *)
  | LockSpin                    (* while (!qnode->locked) *)
  | Critical
  | UnlockTest                  (* if (!qnode->next) *)
  | UnlockCas                   (* smp_cas(&lock->qnode, qnode, NULL) *)
  | UnlockSpin                  (* while (!qnode->next) *)
  | UnlockLoad                  (* about to load qnode->next *)
  | UnlockStore (next : thread) (* about to store next->locked = 1 *)
  | Fault.

(** struct mcslock_t and all the nodes, struct mcsqnode_t. *)
Record mcs_state := {
  mcs_qnode : option thread;
  locked : thread -> Z;
  node_next : thread -> option thread;
  mcs_at : thread -> mcs_pc
}.

Definition mcslock_init (s : mcs_state) : mcs_state :=
  {| mcs_qnode := None; locked := locked s; node_next := node_next s; mcs_at := mcs_at s |}.

Definition goto (i : thread) (c : mcs_pc) (s : mcs_state) : mcs_state :=
  {| mcs_qnode := mcs_qnode s; locked := locked s; node_next := node_next s;
     mcs_at := <[i := c]> (mcs_at s) |}.

Definition set_locked (i : thread) (v : Z) (s : mcs_state) : mcs_state :=
  {| mcs_qnode := mcs_qnode s; locked := <[i := v]> (locked s); node_next := node_next s;
     mcs_at := mcs_at s |}.

Definition set_node_next (i : thread) (v : option thread) (s : mcs_state) : mcs_state :=
  {| mcs_qnode := mcs_qnode s; locked := locked s; node_next := <[i := v]> (node_next s);
     mcs_at := mcs_at s |}.

Definition set_qnode (v : option thread) (s : mcs_state) : mcs_state :=
  {| mcs_qnode := v; locked := locked s; node_next := node_next s; mcs_at := mcs_at s |}.

(** ** Instructions *)

(** mcslock_lock, one access at a time; an idle thread that is scheduled
    calls it. *)
Definition mcslock_lock (i : thread) (s : mcs_state) : mcs_state :=
  match mcs_at s i with
  | Idle => goto i LockNext (set_locked i 0 s)
  | LockNext => goto i LockSwap (set_node_next i None s)
  | LockSwap =>
      match mcs_qnode s with
      | None => goto i Critical (set_qnode (Some i) s)
      | Some prev => goto i (LockLink prev) (set_qnode (Some i) s)
      end
  | LockLink prev => goto i LockSpin (set_node_next prev (Some i) s)
  | LockSpin => if locked s i =? 0 then s else goto i Critical s
  | _ => s
  end.

(** mcslock_unlock; a thread in its critical section that is scheduled
    leaves it and calls mcslock_unlock. *)
Definition mcslock_unlock (i : thread) (s : mcs_state) : mcs_state :=
  match mcs_at s i with
  | Critical => goto i UnlockTest s
  | UnlockTest =>
      match node_next s i with
      | None => goto i UnlockCas s
      | Some _ => goto i UnlockLoad s
      end
  | UnlockCas =>
      if decide (mcs_qnode s = Some i) then goto i Idle (set_qnode None s)
      else goto i UnlockSpin s
  | UnlockSpin =>
      match node_next s i with
      | None => s
      | Some _ => goto i UnlockLoad s
      end
  | UnlockLoad =>
      match node_next s i with
      | None => goto i Fault s
      | Some next => goto i (UnlockStore next) s
      end
  | UnlockStore next => goto i Idle (set_locked next 1 s)
  | _ => s
  end.

Definition in_lock (c : mcs_pc) : bool :=
  match c with Idle | LockNext | LockSwap | LockLink _ | LockSpin => true | _ => false end.

Definition mcs_instr (s : mcs_state) (i : thread) : mcs_state :=
  if in_lock (mcs_at s i) then mcslock_lock i s else mcslock_unlock i s.

Definition mcs_run (s : mcs_state) (sched : list thread) : mcs_state :=
  foldl mcs_instr s sched.

(** Between the return of mcslock_lock and the access of mcslock_unlock that
    gives the lock away. *)
Definition holding (c : mcs_pc) : bool :=
  match c with
  | Critical | UnlockTest | UnlockCas | UnlockSpin | UnlockLoad | UnlockStore _ => true
  | _ => false
  end.

(** The calls in which the thread's node is alive and published. *)
Definition queued (c : mcs_pc) : bool :=
  match c with LockLink _ | LockSpin => true | _ => holding c end.

(** The other thread's node that the next access writes. *)
Definition writes_node (c : mcs_pc) : option thread :=
  match c with LockLink j | UnlockStore j => Some j | _ => None end.

(** The threads in the order of their swaps, and in the order in which they
    enter their critical sections. *)
Definition swapped (c : mcs_pc) : bool :=
  match c with LockSwap => true | _ => false end.

Definition entered (c c' : mcs_pc) : bool :=
  match c, c' with
  | Critical, _ => false
  | _, Critical => true
  | _, _ => false
  end.

Fixpoint swaps (s : mcs_state) (sched : list thread) : list thread :=
  match sched with
  | [] => []
  | i :: l => (if swapped (mcs_at s i) then [i] else []) ++ swaps (mcs_instr s i) l
  end.

Fixpoint entries (s : mcs_state) (sched : list thread) : list thread :=
  match sched with
  | [] => []
  | i :: l =>
      (if entered (mcs_at s i) (mcs_at (mcs_instr s i) i) then [i] else [])
      ++ entries (mcs_instr s i) l
  end.

(** ** The queue *)

(** The nodes behind node [a] in the queue, in order: each is linked to its
    predecessor or about to be, and not yet woken up. *)
Fixpoint waiting (s : mcs_state) (a : thread) (l : list thread) : Prop :=
  match l with
  | [] => node_next s a = None
  | b :: r =>
      (mcs_at s b = LockLink a /\ node_next s a = None \/
       mcs_at s b = LockSpin /\ node_next s a = Some b)
      /\ locked s b = 0 /\ waiting s b r
  end.

(** The owner of the queue's first node holds the lock, or has been woken up
    and will see it. *)
Definition granted (s : mcs_state) (h : thread) : Prop :=
  match mcs_at s h with
  | LockSpin => locked s h = 1
  | Critical | UnlockTest | UnlockCas => True
  | UnlockSpin => mcs_qnode s <> Some h
  | UnlockLoad => node_next s h <> None
  | UnlockStore n => node_next s h = Some n
  | _ => False
  end.

Record queue (s : mcs_state) (q : list thread) : Prop := {
  q_nodup : NoDup q;
  q_at i : i ∈ q <-> queued (mcs_at s i) = true;
  q_last : mcs_qnode s = last q;
  q_list : match q with [] => True | h :: r => granted s h /\ waiting s h r end;
  q_fresh i : mcs_at s i = LockNext -> locked s i = 0;
  q_ready i : mcs_at s i = LockSwap -> locked s i = 0 /\ node_next s i = None;
  q_fault i : mcs_at s i <> Fault
}.

(** The queue after an instruction. *)
Definition next_queue (s : mcs_state) (q : list thread) (i : thread) : list thread :=
  match mcs_at s i with
  | LockSwap => q ++ [i]
  | UnlockCas => if decide (mcs_qnode s = Some i) then tail q else q
  | UnlockStore _ => tail q
  | _ => q
  end.

(** ** Lemmas on the queue *)

Lemma waiting_frame s s' a l :
  (forall b, b ∈ l -> mcs_at s' b = mcs_at s b /\ locked s' b = locked s b) ->
  (forall b, b ∈ a :: l -> node_next s' b = node_next s b) ->
  waiting s a l -> waiting s' a l.
Proof.
  revert a. induction l as [|b l IH]; intros a Hb Hn; simpl.
  - by rewrite Hn by apply list_elem_of_here.
  - destruct (Hb b) as [-> ->]; [apply list_elem_of_here|].
    rewrite (Hn a) by apply list_elem_of_here.
    intros (Hab & Hl & Hw). split; [done|]. split; [done|].
    apply IH; [| |done]; intros c Hc; [apply Hb|apply Hn]; by right.
Qed.

(** What the frame lemma needs when one thread that is not waiting moves. *)
Lemma waiting_goto s a l i c : i ∉ l -> waiting s a l -> waiting (goto i c s) a l.
Proof.
  intros Hi. apply waiting_frame; [|done].
  intros b Hb. simpl. rewrite fn_lookup_insert_ne; [done|]. by intros ->.
Qed.

Lemma waiting_qnode s a l v : waiting s a l -> waiting (set_qnode v s) a l.
Proof. by apply waiting_frame. Qed.

Lemma waiting_locked s a l i v : i ∉ l -> waiting s a l -> waiting (set_locked i v s) a l.
Proof.
  intros Hi. apply waiting_frame; [|done].
  intros b Hb. simpl. rewrite fn_lookup_insert_ne; [done|]. by intros ->.
Qed.

Lemma waiting_next s a l i v :
  i ∉ a :: l -> waiting s a l -> waiting (set_node_next i v s) a l.
Proof.
  intros Hi. apply waiting_frame; [done|].
  intros b Hb. simpl. rewrite fn_lookup_insert_ne; [done|]. by intros ->.
Qed.

Lemma waiting_snoc s a l x p :
  waiting s a l -> last (a :: l) = Some p -> mcs_at s x = LockLink p -> locked s x = 0 ->
  node_next s x = None -> waiting s a (l ++ [x]).
Proof.
  revert a. induction l as [|b l IH]; intros a Hw Hp Hx Hl Hn; simpl in *.
  - simplify_eq. auto.
  - destruct Hw as (Hab & Hb & Hw). split; [done|]. split; [done|].
    by apply IH.
Qed.

Lemma waiting_link s a l b p :
  waiting s a l -> NoDup (a :: l) -> b ∈ l -> mcs_at s b = LockLink p ->
  waiting (goto b LockSpin (set_node_next p (Some b) s)) a l /\ p ∈ a :: l.
Proof.
  revert a. induction l as [|c l IH]; intros a Hw Hnd Hb Hp; [by apply not_elem_of_nil in Hb|].
  apply NoDup_cons in Hnd as [Ha Hnd]. destruct Hw as (Hac & Hc & Hw).
  destruct (decide (b = c)) as [->|Hbc].
  - destruct Hac as [[Hl Hn]|[Hl _]]; [|congruence]. assert (p = a) as -> by congruence.
    split; [|apply list_elem_of_here]. simpl. rewrite !fn_lookup_insert.
    split; [auto|]. split; [done|]. apply waiting_goto; [by apply NoDup_cons in Hnd as [? _]|].
    by apply waiting_next.
  - apply elem_of_cons in Hb as [?|Hb]; [done|]. destruct (IH c Hw Hnd Hb Hp) as [Hw' Hin].
    split; [|by right]. simpl. rewrite !fn_lookup_insert_ne; [done| |congruence].
    intros ->. done.
Qed.

(** Whether a thread is at the head of the queue shows in its state. *)
Lemma waiting_pc s a l b :
  waiting s a l -> b ∈ l -> mcs_at s b = LockSpin \/ exists p, mcs_at s b = LockLink p.
Proof.
  revert a. induction l as [|c l IH]; intros a Hw Hb; [by apply not_elem_of_nil in Hb|].
  destruct Hw as (Hac & _ & Hw). apply elem_of_cons in Hb as [->|Hb]; [|by eapply IH].
  destruct Hac as [[? _]|[? _]]; eauto.
Qed.

Lemma waiting_unlocked s a l b : waiting s a l -> b ∈ l -> locked s b = 0.
Proof.
  revert a. induction l as [|c l IH]; intros a Hw Hb; [by apply not_elem_of_nil in Hb|].
  destruct Hw as (_ & Hc & Hw). apply elem_of_cons in Hb as [->|Hb]; [done|by eapply IH].
Qed.

Lemma queue_holder s q i : queue s q -> holding (mcs_at s i) = true -> head q = Some i.
Proof.
  intros Q Hi. assert (i ∈ q) as Hq by (apply (q_at _ _ Q); by destruct (mcs_at s i)).
  destruct q as [|h r]; [by apply not_elem_of_nil in Hq|].
  apply elem_of_cons in Hq as [->|Hr]; [done|].
  destruct (q_list _ _ Q) as [_ Hw].
  destruct (waiting_pc _ _ _ _ Hw Hr) as [E|[p E]]; rewrite E in Hi; discriminate.
Qed.

Lemma queue_linking s q i p :
  queue s q -> mcs_at s i = LockLink p -> exists h r, q = h :: r /\ i ∈ r /\ waiting s h r.
Proof.
  intros Q Hi. assert (i ∈ q) as Hq by (apply (q_at _ _ Q); by rewrite Hi).
  destruct q as [|h r]; [by apply not_elem_of_nil in Hq|]. exists h, r.
  destruct (q_list _ _ Q) as [Hh Hw]. split; [done|]. split; [|done].
  apply elem_of_cons in Hq as [->|Hr]; [|done]. unfold granted in Hh. by rewrite Hi in Hh.
Qed.

(** ** Every instruction keeps the queue *)

(** A thread that moves without touching the memory, inside or outside the
    queue. *)
Lemma queue_goto s q i c :
  queue s q -> queued c = queued (mcs_at s i) ->
  (head q = Some i -> granted (goto i c s) i) -> i ∉ tail q ->
  (c = LockNext -> locked s i = 0) ->
  (c = LockSwap -> locked s i = 0 /\ node_next s i = None) -> c <> Fault ->
  queue (goto i c s) q.
Proof.
  intros Q Hc Hg Ht Hf Hr HF. split; simpl.
  - apply (q_nodup _ _ Q).
  - intros j. rewrite (q_at _ _ Q), fn_insert_dec. case_decide; subst; [by rewrite Hc|done].
  - apply (q_last _ _ Q).
  - destruct q as [|h r]; [done|]. destruct (q_list _ _ Q) as [Hh Hw].
    split; [|by apply waiting_goto].
    destruct (decide (h = i)) as [->|Hne]; [by apply Hg|].
    revert Hh. unfold granted. simpl. by rewrite fn_lookup_insert_ne.
  - intros j. rewrite fn_insert_dec. case_decide; subst; [done|apply (q_fresh _ _ Q)].
  - intros j. rewrite fn_insert_dec. case_decide; subst; [done|apply (q_ready _ _ Q)].
  - intros j. rewrite fn_insert_dec. case_decide; subst; [done|apply (q_fault _ _ Q)].
Qed.

(** A thread outside the queue prepares its node. *)
Lemma queue_set_locked s q i :
  queue s q -> mcs_at s i = Idle -> queue (set_locked i 0 s) q.
Proof.
  intros Q Hi. assert (i ∉ q) as Hq by (rewrite (q_at _ _ Q), Hi; done).
  split; simpl; try apply Q.
  - destruct q as [|h r]; [done|]. destruct (q_list _ _ Q) as [Hh Hw].
    apply not_elem_of_cons in Hq as [Hih Hir]. split; [|by apply waiting_locked].
    revert Hh. unfold granted. simpl. by rewrite fn_lookup_insert_ne.
  - intros j Hj. rewrite fn_lookup_insert_ne by congruence. by apply (q_fresh _ _ Q).
  - intros j Hj. rewrite fn_lookup_insert_ne by congruence. by apply (q_ready _ _ Q).
Qed.

Lemma queue_set_next s q i :
  queue s q -> mcs_at s i = LockNext -> queue (set_node_next i None s) q.
Proof.
  intros Q Hi. assert (i ∉ q) as Hq by (rewrite (q_at _ _ Q), Hi; done).
  split; simpl; try apply Q.
  - destruct q as [|h r]; [done|]. destruct (q_list _ _ Q) as [Hh Hw].
    split; [|by apply waiting_next]. apply not_elem_of_cons in Hq as [Hih _].
    revert Hh. unfold granted. simpl. by rewrite fn_lookup_insert_ne.
  - intros j Hj. rewrite fn_lookup_insert_ne by congruence. by apply (q_ready _ _ Q).
Qed.

(** The swap: the thread joins the queue, and holds the lock if it is alone. *)
Lemma queue_swap s q i :
  queue s q -> mcs_at s i = LockSwap -> queue (mcslock_lock i s) (q ++ [i]).
Proof.
  intros Q Hi. assert (i ∉ q) as Hq by (rewrite (q_at _ _ Q), Hi; done).
  destruct (q_ready _ _ Q i Hi) as [Hl Hn]. unfold mcslock_lock. rewrite Hi, (q_last _ _ Q).
  assert (forall c, queued c = true -> c <> LockNext -> c <> LockSwap ->
    match q ++ [i] with [] => True
    | h :: r => granted (goto i c (set_qnode (Some i) s)) h
                /\ waiting (goto i c (set_qnode (Some i) s)) h r end ->
    queue (goto i c (set_qnode (Some i) s)) (q ++ [i])) as Hjoin.
  { intros c Hc H1 H2 Hlist. split; simpl; try done.
    - apply NoDup_app. split; [apply Q|]. split; [|apply NoDup_singleton].
      intros j Hj ->%list_elem_of_singleton. done.
    - intros j. rewrite elem_of_app, list_elem_of_singleton, fn_insert_dec.
      case_decide as E; subst; [tauto|]. rewrite (q_at _ _ Q). split; [|tauto].
      intros [?|?]; [done|congruence].
    - by rewrite last_snoc.
    - intros j. rewrite fn_insert_dec. case_decide; subst; [done|apply (q_fresh _ _ Q)].
    - intros j. rewrite fn_insert_dec. case_decide; subst; [done|apply (q_ready _ _ Q)].
    - intros j. rewrite fn_insert_dec.
      case_decide; subst; [by intros ->|apply (q_fault _ _ Q)]. }
  destruct q as [|h r].
  { simpl. apply Hjoin; try done. simpl. unfold granted. simpl. by rewrite fn_lookup_insert. }
  destruct (last (h :: r)) as [p|] eqn:Hp; [|by apply last_None in Hp].
  apply Hjoin; try done. destruct (q_list _ _ Q) as [Hh Hw].
  apply not_elem_of_cons in Hq as [Hih Hir]. split.
  - revert Hh. unfold granted. simpl. rewrite fn_lookup_insert_ne by congruence.
    destruct (mcs_at s h); try done. congruence.
  - apply waiting_snoc with p; simpl; try done; [|by rewrite fn_lookup_insert].
    by apply waiting_goto, waiting_qnode.
Qed.

(** The new waiter links itself to its predecessor. *)
Lemma queue_link s q i p :
  queue s q -> mcs_at s i = LockLink p ->
  queue (goto i LockSpin (set_node_next p (Some i) s)) q /\ p ∈ q.
Proof.
  intros Q Hi. destruct (queue_linking _ _ _ _ Q Hi) as (h & r & -> & Hir & Hw).
  pose proof (q_nodup _ _ Q) as Hnd.
  destruct (waiting_link _ _ _ _ _ Hw Hnd Hir Hi) as [Hw' Hp].
  split; [|done]. destruct (q_list _ _ Q) as [Hh _].
  assert (h <> i) as Hhi by (intros ->; by apply NoDup_cons in Hnd as [? _]).
  split; simpl; try apply Q.
  - intros j. rewrite (q_at _ _ Q), fn_insert_dec. case_decide; subst; [by rewrite Hi|done].
  - split; [|done]. revert Hh. unfold granted. simpl.
    rewrite fn_lookup_insert_ne by congruence. rewrite fn_insert_dec.
    case_decide as Hph; [|done]. subst p.
    destruct (mcs_at s h) eqn:Hat; try done.
    (* the head is about to wake the node that is not linked yet *)
    destruct r as [|b r]; [by apply not_elem_of_nil in Hir|].
    destruct Hw as (Hb & _ & _). intros Hn. f_equal.
    assert (node_next s h = None) as Hno; [|congruence].
    destruct Hb as [[_ ?]|[Hb _]]; [done|]. apply elem_of_cons in Hir as [->|Hir]; [congruence|].
    exfalso. simpl in Hw'. destruct Hw' as ([[_ Hx]|[_ Hx]] & _ & _).
    + by rewrite fn_lookup_insert in Hx.
    + rewrite fn_lookup_insert in Hx. simplify_eq. apply NoDup_cons in Hnd as [_ Hnd].
      by apply NoDup_cons in Hnd as [? _].
  - intros j. rewrite fn_insert_dec. case_decide; subst; [done|apply (q_fresh _ _ Q)].
  - intros j. rewrite fn_insert_dec. case_decide; subst; [done|]. intros Hj.
    destruct (q_ready _ _ Q j Hj) as [? ?]. split; [done|].
    rewrite fn_lookup_insert_ne; [done|]. intros ->.
    apply (q_at _ _ Q) in Hp. by rewrite Hj in Hp.
  - intros j. rewrite fn_insert_dec. case_decide; subst; [done|apply (q_fault _ _ Q)].
Qed.

(** The last thread of the queue leaves it. *)
Lemma queue_release s i :
  queue s [i] -> mcs_at s i = UnlockCas -> queue (goto i Idle (set_qnode None s)) [].
Proof.
  intros Q Hi. split; simpl; try done.
  - apply NoDup_nil_2.
  - intros j. rewrite fn_insert_dec. case_decide; subst; [by split; [intros ?%not_elem_of_nil|]|].
    rewrite <- (q_at _ _ Q), list_elem_of_singleton. split; [by intros ?%not_elem_of_nil|].
    congruence.
  - intros j. rewrite fn_insert_dec. case_decide; subst; [done|apply (q_fresh _ _ Q)].
  - intros j. rewrite fn_insert_dec. case_decide; subst; [done|apply (q_ready _ _ Q)].
  - intros j. rewrite fn_insert_dec. case_decide; subst; [done|apply (q_fault _ _ Q)].
Qed.

(** The head gives the lock to the next thread. *)
Lemma queue_wake s h r n :
  queue s (h :: r) -> mcs_at s h = UnlockStore n ->
  queue (goto h Idle (set_locked n 1 s)) r /\ head r = Some n.
Proof.
  intros Q Hi. destruct (q_list _ _ Q) as [Hh Hw]. unfold granted in Hh. rewrite Hi in Hh.
  destruct r as [|b r]; [simpl in Hw; congruence|].
  destruct Hw as ([[_ ?]|[Hb Hn]] & Hlb & Hw); [congruence|].
  assert (n = b) as -> by congruence. split; [|done].
  pose proof (q_nodup _ _ Q) as Hnd. apply NoDup_cons in Hnd as [Hhr Hnd].
  pose proof Hnd as [Hbr _]%NoDup_cons.
  assert (b <> h) as Hbh by (intros ->; by apply Hhr; left).
  split; simpl.
  - done.
  - intros j. pose proof (q_at _ _ Q j) as Hj. rewrite fn_insert_dec.
    case_decide; subst; [by split|]. rewrite <- Hj, (elem_of_cons _ j h). split; [tauto|].
    intros [?|?]; [congruence|done].
  - rewrite (q_last _ _ Q). simpl. by destruct r.
  - split.
    + unfold granted. simpl. rewrite fn_lookup_insert_ne, Hb by congruence.
      by rewrite fn_lookup_insert.
    + apply waiting_goto; [by intros ?; apply Hhr; right|]. by apply waiting_locked.
  - intros j. rewrite fn_insert_dec. case_decide; subst; [done|]. intros Hj.
    rewrite fn_lookup_insert_ne by congruence. by apply (q_fresh _ _ Q).
  - intros j. rewrite fn_insert_dec. case_decide; subst; [done|]. intros Hj.
    rewrite fn_lookup_insert_ne by congruence. by apply (q_ready _ _ Q).
  - intros j. rewrite fn_insert_dec. case_decide; subst; [done|apply (q_fault _ _ Q)].
Qed.

Lemma last_head_alone (h : thread) r : NoDup (h :: r) -> last (h :: r) = Some h -> r = [].
Proof.
  intros [Hh _]%NoDup_cons Hl. destruct r as [|b r]; [done|]. exfalso. apply Hh.
  simpl in Hl. by apply last_Some_elem_of.
Qed.

Lemma queue_step s q i : queue s q -> queue (mcs_instr s i) (next_queue s q i).
Proof.
  intros Q. unfold mcs_instr, next_queue.
  destruct (holding (mcs_at s i)) eqn:Hold.
  - (* the head of the queue *)
    pose proof (queue_holder _ _ _ Q Hold) as Hq. destruct q as [|h r]; simplify_eq/=.
    pose proof (q_nodup _ _ Q) as Hnd. pose proof Hnd as [Hir _]%NoDup_cons.
    destruct (q_list _ _ Q) as [Hh Hw]. unfold granted in Hh. unfold mcslock_unlock.
    assert (forall c, queued c = true -> c <> LockNext -> c <> LockSwap ->
      granted (goto i c s) i -> queue (goto i c s) (i :: r)) as Hgo.
    { intros c ? ? ? ?. apply queue_goto; try done; by destruct (mcs_at s i), c. }
    destruct (mcs_at s i) eqn:Hi; try done; simpl.
    + apply Hgo; try done. unfold granted. simpl. by rewrite fn_lookup_insert.
    + destruct (node_next s i) eqn:Hn; apply Hgo; try done; unfold granted; simpl;
        by rewrite fn_lookup_insert, ?Hn.
    + case_decide as Hc.
      * rewrite (q_last _ _ Q) in Hc. apply last_head_alone in Hc as ->; [|done].
        by apply queue_release.
      * apply Hgo; try done. unfold granted. simpl. by rewrite fn_lookup_insert.
    + destruct (node_next s i) eqn:Hn; [|done].
      apply Hgo; try done. unfold granted. simpl. by rewrite fn_lookup_insert, Hn.
    + destruct (node_next s i) eqn:Hn; [|done].
      apply Hgo; try done. unfold granted. simpl. by rewrite fn_lookup_insert, Hn.
    + by apply (queue_wake s i r next).
  - destruct (mcs_at s i) eqn:Hi; try done; simpl.
    + unfold mcslock_lock. rewrite Hi.
      apply queue_goto; simpl; [by apply queue_set_locked|by rewrite Hi| | | |done|done].
      * intros Hq. destruct q as [|h r]; simplify_eq/=. exfalso.
        assert (queued (mcs_at s i) = true); [apply (q_at _ _ Q); left|by rewrite Hi in *].
      * intros Ht. assert (queued (mcs_at s i) = true); [|by rewrite Hi in *].
        apply (q_at _ _ Q). destruct q; [done|by right].
      * intros _. by rewrite fn_lookup_insert.
    + unfold mcslock_lock. rewrite Hi.
      apply queue_goto; simpl; [by apply queue_set_next|by rewrite Hi| | |done| |done].
      * intros Hq. destruct q as [|h r]; simplify_eq/=. exfalso.
        assert (queued (mcs_at s i) = true); [apply (q_at _ _ Q); left|by rewrite Hi in *].
      * intros Ht. assert (queued (mcs_at s i) = true); [|by rewrite Hi in *].
        apply (q_at _ _ Q). destruct q; [done|by right].
      * intros _. rewrite fn_lookup_insert. split; [|done]. by apply (q_fresh _ _ Q).
    + by apply queue_swap.
    + unfold mcslock_lock. rewrite Hi. by apply queue_link.
    + unfold mcslock_lock. rewrite Hi. case_eq (locked s i =? 0); intros El; [done|].
      assert (head q = Some i) as Hq.
      { assert (i ∈ q) as Hin by (apply (q_at _ _ Q); by rewrite Hi).
        destruct q as [|h r]; [by apply not_elem_of_nil in Hin|].
        apply elem_of_cons in Hin as [->|Hin]; [done|]. destruct (q_list _ _ Q) as [_ Hw].
        pose proof (waiting_unlocked _ _ _ _ Hw Hin). lia. }
      destruct q as [|h r]; simplify_eq/=. apply queue_goto; try done.
      * by rewrite Hi.
      * intros _. unfold granted. simpl. by rewrite fn_lookup_insert.
      * pose proof (q_nodup _ _ Q) as Hnd. by apply NoDup_cons in Hnd as [? _].
    + by pose proof (q_fault _ _ Q i).
Qed.

(** A waiter does not wait behind itself. *)
Lemma waiting_self s a l i :
  waiting s a l -> NoDup (a :: l) -> i ∈ l -> mcs_at s i <> LockLink i.
Proof.
  revert a. induction l as [|b l IH]; intros a Hw Hnd Hi; [by apply not_elem_of_nil in Hi|].
  apply NoDup_cons in Hnd as [Ha Hnd]. destruct Hw as (Hab & _ & Hw).
  apply elem_of_cons in Hi as [->|Hi]; [|by apply (IH b)].
  intros Hb. apply Ha. destruct Hab as [[? _]|[? _]]; [|congruence].
  assert (a = b) as -> by congruence. by left.
Qed.

(** Only the first waiter links itself to the head. *)
Lemma waiting_first s a l i :
  waiting s a l -> NoDup (a :: l) -> i ∈ l -> mcs_at s i = LockLink a -> head l = Some i.
Proof.
  intros Hw [Ha Hnd]%NoDup_cons Hi Hat. destruct l as [|b l]; [by apply not_elem_of_nil in Hi|].
  apply elem_of_cons in Hi as [->|Hi]; [done|]. destruct Hw as (_ & _ & Hw).
  by destruct (waiting_link _ _ _ _ _ Hw Hnd Hi Hat) as [_ ?].
Qed.

(** The thread about to wake the next one is the head. *)
Lemma queue_waker s q i n :
  queue s q -> mcs_at s i = UnlockStore n -> exists r, q = i :: n :: r.
Proof.
  intros Q Hi. pose proof (queue_holder _ _ i Q) as Hh. rewrite Hi in Hh.
  specialize (Hh eq_refl). destruct q as [|h r]; simplify_eq/=.
  destruct (queue_wake _ _ _ _ Q Hi) as [_ Hr]. destruct r as [|b r]; simplify_eq/=. by exists r.
Qed.

Lemma queue_run s q sched : queue s q -> exists q', queue (mcs_run s sched) q'.
Proof.
  revert s q. induction sched as [|i l IH]; intros s q Q; [by exists q|].
  by apply (IH (mcs_instr s i) (next_queue s q i)), queue_step.
Qed.

Definition all_idle (s : mcs_state) : Prop := forall i, mcs_at s i = Idle.

Lemma queue_init s : all_idle s -> queue (mcslock_init s) [].
Proof.
  intros H. split; simpl; try done; try (intros i; rewrite H; done).
  - apply NoDup_nil_2.
  - intros i. rewrite H. split; [by intros ?%not_elem_of_nil|done].
Qed.

(** ** Mutual exclusion *)

(** C18: from a lock that mcslock_init has set up, whatever the interleaving:
    two threads never hold the lock together, no thread dereferences a NULL
    next pointer, and every access to another thread's node - linking to the
    predecessor, waking the successor - finds that thread still inside its
    calls, so that the node on its stack is alive; the lock word too only
    ever points to such a node. *)
Theorem mcs_exclusion (s0 : mcs_state) (sched : list thread) :
  all_idle s0 ->
  let s := mcs_run (mcslock_init s0) sched in
  (forall i j, holding (mcs_at s i) = true -> holding (mcs_at s j) = true -> i = j)
  /\ (forall i, mcs_at s i <> Fault)
  /\ (forall i j, writes_node (mcs_at s i) = Some j -> j <> i /\ queued (mcs_at s j) = true)
  /\ (forall j, mcs_qnode s = Some j -> queued (mcs_at s j) = true).
Proof.
  intros Hidle s. destruct (queue_run _ _ sched (queue_init _ Hidle)) as [q Q]. fold s in Q.
  split; [|split; [apply (q_fault _ _ Q)|split]].
  - intros i j Hi Hj. pose proof (queue_holder _ _ _ Q Hi). pose proof (queue_holder _ _ _ Q Hj).
    congruence.
  - intros i j Hw. destruct (mcs_at s i) as [| | |p| | | | | | |n|] eqn:Hi; simplify_eq/=.
    + destruct (queue_link _ _ _ _ Q Hi) as [_ Hj].
      destruct (queue_linking _ _ _ _ Q Hi) as (h & r & -> & Hr & Hl).
      split; [|by apply (q_at _ _ Q)]. intros ->. by apply (waiting_self s h r i Hl (q_nodup _ _ Q)).
    + destruct (queue_waker _ _ _ _ Q Hi) as [r ->].
      pose proof (q_nodup _ _ Q) as [Hnd _]%NoDup_cons.
      split; [intros ->; apply Hnd; by left|]. apply (q_at _ _ Q). right. by left.
  - intros j Hj. apply (q_at _ _ Q). rewrite (q_last _ _ Q) in Hj. by apply last_Some_elem_of.
Qed.

(** ** Order *)

(** The head of the queue, if it has entered its critical section. *)
Definition served (s : mcs_state) (q : list thread) : list thread :=
  match q with h :: _ => if holding (mcs_at s h) then [h] else [] | [] => [] end.

(** One instruction: what the swaps add at the end of the queue, and what the
    releases take from its front. *)
Lemma queue_order_step s q i :
  queue s q ->
  exists gone,
    q ++ (if swapped (mcs_at s i) then [i] else []) = gone ++ next_queue s q i
    /\ served s q ++ (if entered (mcs_at s i) (mcs_at (mcs_instr s i) i) then [i] else [])
       = gone ++ served (mcs_instr s i) (next_queue s q i).
Proof.
  intros Q. pose proof (queue_step s q i Q) as Q'.
  assert (forall c, holding c = holding (mcs_at s i) -> served (goto i c s) q = served s q) as Hsame.
  { intros c Hc. destruct q as [|h r]; [done|]. simpl. rewrite fn_insert_dec.
    case_decide; subst; [by rewrite Hc|done]. }
  revert Q'. unfold next_queue, mcs_instr.
  destruct (mcs_at s i) as [| | |p| | | | | | |n|] eqn:Hi; simpl;
    unfold mcslock_lock, mcslock_unlock; rewrite Hi; intros Q'.
  - exists []. simpl. rewrite fn_lookup_insert, !app_nil_r. split; [done|].
    symmetry. apply (Hsame LockNext). done.
  - exists []. simpl. rewrite fn_lookup_insert, !app_nil_r. split; [done|].
    symmetry. apply (Hsame LockSwap). done.
  - exists []. split; [done|]. rewrite (q_last _ _ Q).
    assert (i ∉ q) as Hq by (rewrite (q_at _ _ Q), Hi; done).
    destruct q as [|h r]; simpl; [by rewrite !fn_lookup_insert|].
    destruct (last (h :: r)) as [p|] eqn:Hp; [|by apply last_None in Hp].
    simpl. rewrite fn_lookup_insert. apply not_elem_of_cons in Hq as [? _].
    by rewrite fn_lookup_insert_ne, app_nil_r by congruence.
  - exists []. simpl. rewrite fn_lookup_insert, !app_nil_r. split; [done|].
    symmetry. apply (Hsame LockSpin). done.
  - exists []. rewrite !app_nil_r. split; [done|]. unfold mcslock_lock in Q'.
    case_eq (locked s i =? 0); intros E; rewrite E in Q'; simpl.
    + by rewrite Hi, app_nil_r.
    + rewrite fn_lookup_insert. destruct q as [|h r].
      * pose proof (q_at _ _ Q' i) as [_ H]. simpl in H. rewrite fn_lookup_insert in H.
        by apply not_elem_of_nil in H.
      * pose proof (queue_holder _ _ i Q') as H. simpl in H. rewrite fn_lookup_insert in H.
        specialize (H eq_refl). simplify_eq/=. by rewrite Hi, fn_lookup_insert.
  - exists []. rewrite !app_nil_r. split; [done|]. symmetry. by apply Hsame.
  - exists []. rewrite !app_nil_r. split; [done|]. symmetry.
    destruct (node_next s i); simpl; rewrite fn_lookup_insert, app_nil_r; by apply Hsame.
  - pose proof (queue_holder _ _ i Q) as Hh. rewrite Hi in Hh. specialize (Hh eq_refl).
    destruct q as [|h r]; simplify_eq/=. case_decide as Hc.
    + exists [i]. rewrite (q_last _ _ Q) in Hc.
      apply last_head_alone in Hc as ->; [|apply Q]. simpl. rewrite Hi, fn_lookup_insert. done.
    + exists []. rewrite !app_nil_r. split; [done|]. simpl. by rewrite fn_lookup_insert, Hi.
  - exists []. rewrite !app_nil_r. split; [done|]. symmetry.
    destruct (node_next s i); simpl; [|by rewrite Hi, app_nil_r].
    rewrite fn_lookup_insert, app_nil_r. by apply Hsame.
  - exists []. rewrite !app_nil_r. split; [done|].
    pose proof (queue_holder _ _ i Q) as Hh. rewrite Hi in Hh. specialize (Hh eq_refl).
    destruct q as [|h r]; simplify_eq/=. destruct (q_list _ _ Q) as [Hg _].
    unfold granted in Hg. rewrite Hi in Hg. destruct (node_next s i); [|done].
    simpl. by rewrite fn_lookup_insert, Hi.
  - destruct (queue_waker _ _ _ _ Q Hi) as [r ->]. exists [i]. simpl.
    rewrite fn_lookup_insert, Hi. split; [by rewrite app_nil_r|]. simpl.
    destruct (q_list _ _ Q) as [_ (Hn & _)]. pose proof (q_nodup _ _ Q) as [Hnd _]%NoDup_cons.
    rewrite fn_lookup_insert_ne by (intros ->; apply Hnd; by left).
    destruct Hn as [[-> _]|[-> _]]; done.
  - by pose proof (q_fault _ _ Q i).
Qed.

Lemma queue_order s q sched :
  queue s q ->
  exists gone q',
    queue (mcs_run s sched) q' /\ q ++ swaps s sched = gone ++ q'
    /\ served s q ++ entries s sched = gone ++ served (mcs_run s sched) q'.
Proof.
  revert s q. induction sched as [|i l IH]; intros s q Q.
  { exists [], q. by rewrite !app_nil_r. }
  destruct (queue_order_step s q i Q) as (g1 & Hs1 & He1).
  destruct (IH _ _ (queue_step s q i Q)) as (g2 & q' & Q' & Hs2 & He2).
  exists (g1 ++ g2), q'. simpl. split; [exact Q'|]. split.
  - by rewrite app_assoc, Hs1, <- !app_assoc, Hs2.
  - by rewrite app_assoc, He1, <- !app_assoc, He2.
Qed.

(** C20: the lock is fair: the threads enter their critical sections in
    exactly the order in which they swapped themselves into the lock word,
    and those that have swapped and not entered are, each once, the threads
    that are still linking themselves or spinning. *)
Theorem mcs_fifo (s0 : mcs_state) (sched : list thread) :
  all_idle s0 ->
  let s := mcslock_init s0 in
  exists w,
    swaps s sched = entries s sched ++ w /\ NoDup w
    /\ forall i, i ∈ w <-> queued (mcs_at (mcs_run s sched) i) = true
                          /\ holding (mcs_at (mcs_run s sched) i) = false.
Proof.
  intros Hidle s. destruct (queue_order s [] sched (queue_init _ Hidle)) as (g & q & Q & Hs & He).
  simpl in Hs, He. rewrite Hs, He. pose proof (q_at _ _ Q) as Hat. pose proof (q_nodup _ _ Q) as Hnd.
  pose proof (fun i => queue_holder _ _ i Q) as Hhold.
  set (s' := mcs_run s sched) in *. destruct q as [|h r]; simpl in *.
  { exists []. rewrite !app_nil_r. split; [done|]. split; [done|]. intros i.
    rewrite <- (Hat i). split; [by intros ?%not_elem_of_nil|by intros [? _]]. }
  destruct (holding (mcs_at s' h)) eqn:Hh.
  - exists r. apply NoDup_cons in Hnd as [Hhr Hnd]. split; [by rewrite <- app_assoc|].
    split; [done|]. intros i. rewrite <- (Hat i), elem_of_cons. split.
    + intros Hi. split; [by right|]. apply not_true_is_false. intros Hi'.
      apply Hhold in Hi'. simplify_eq. done.
    + intros [[->|Hi] Hn]; congruence.
  - exists (h :: r). split; [by rewrite app_nil_r|]. split; [done|]. intros i.
    rewrite <- (Hat i). split; [|by intros [? _]]. intros Hi. split; [done|].
    apply not_true_is_false. intros Hi'. pose proof (Hhold i Hi'). simplify_eq. congruence.
Qed.

(** ** Waiting is bounded *)

(** The accesses the head of the queue still makes before it gives the lock
    away, and the access its successor owes it. *)
Definition phase (c : mcs_pc) : nat :=
  match c with
  | LockSpin => 7 | Critical => 6 | UnlockTest => 5 | UnlockCas => 4 | UnlockSpin => 3
  | UnlockLoad => 2 | UnlockStore _ => 1 | _ => 0
  end.

Definition owed (c : mcs_pc) : nat := match c with LockLink _ => 1 | _ => 0 end.

Lemma owed_le c : (owed c <= 1)%nat.
Proof. destruct c; simpl; lia. Qed.

(** How far thread [i] is from its critical section behind the threads [l],
    and the thread whose next access brings it closer. *)
Definition distance (s : mcs_state) (l : list thread) (i : thread) : nat :=
  match l with
  | [] => 7
  | h :: r => 8 * length l + phase (mcs_at s h) + owed (mcs_at s (hd i r))
  end.

Definition stuck (s : mcs_state) (h : thread) : bool :=
  match mcs_at s h, node_next s h with UnlockSpin, None => true | _, _ => false end.

Definition awaited (s : mcs_state) (l : list thread) (i : thread) : thread :=
  match l with
  | [] => i
  | h :: r => if stuck s h then hd i r else h
  end.

(** Thread [i] waits behind [l]. *)
Record waits (s : mcs_state) (l : list thread) (i : thread) (l' : list thread) : Prop := {
  w_queue : queue s (l ++ i :: l');
  w_wait : holding (mcs_at s i) = false
}.

(** One access: [i] enters, or is closer, or as far as before with the same
    thread awaited. *)
Definition closer (s : mcs_state) (l : list thread) (i j : thread) (s' : mcs_state) : Prop :=
  mcs_at s' i = Critical
  \/ exists l1 l2, l1 ⊆ l /\ waits s' l1 i l2
     /\ (distance s' l1 i < distance s l i
         \/ distance s' l1 i = distance s l i /\ awaited s' l1 i = awaited s l i
            /\ j <> awaited s l i)%nat.

Section Waiting.
Context (s : mcs_state) (l : list thread) (i : thread) (l' : list thread).
Hypothesis (W : waits s l i l').

Lemma waits_step j l1 l2 :
  next_queue s (l ++ i :: l') j = l1 ++ i :: l2 ->
  holding (mcs_at (mcs_instr s j) i) = false -> waits (mcs_instr s j) l1 i l2.
Proof. intros E H. split; [|done]. rewrite <- E. apply queue_step, W. Qed.

(** The second node of the queue. *)
Lemma waits_second h r :
  l = h :: r ->
  hd i r <> h
  /\ (mcs_at s (hd i r) = LockLink h /\ node_next s h = None
      \/ mcs_at s (hd i r) = LockSpin /\ node_next s h = Some (hd i r)).
Proof.
  intros ->. destruct W as [Q _]. destruct (q_list _ _ Q) as [_ Hw].
  pose proof (q_nodup _ _ Q) as [Hnd _]%NoDup_cons.
  split; [intros <-; apply Hnd; destruct r; by left|].
  destruct r; by destruct Hw as [? _].
Qed.

(** A thread outside the queue. *)
Lemma waits_outside j : j ∉ l ++ i :: l' -> closer s l i j (mcs_instr s j).
Proof.
  intros Hj. right. pose proof (w_queue _ _ _ _ W) as Q.
  assert (queued (mcs_at s j) = false) as Hq.
  { apply not_true_is_false. by rewrite <- (q_at _ _ Q). }
  exists l, (if swapped (mcs_at s j) then l' ++ [j] else l'). split; [done|].
  assert (forall k, k ∈ l ++ i :: l' -> mcs_at (mcs_instr s j) k = mcs_at s k
    /\ node_next (mcs_instr s j) k = node_next s k) as Hsame.
  { intros k Hk. assert (j <> k) by congruence.
    unfold mcs_instr, mcslock_lock, mcslock_unlock. revert Hq. destruct (mcs_at s j); try done; simpl; try destruct (mcs_qnode s); simpl;
      by rewrite ?fn_lookup_insert_ne. }
  assert (i ∈ l ++ i :: l') as Hi by (apply elem_of_app; right; by left).
  split.
  - apply waits_step.
    + unfold next_queue. destruct (mcs_at s j); try done. simpl. by rewrite <- app_assoc.
    + destruct (Hsame i Hi) as [-> _]. apply W.
  - right. destruct l as [|h r]; simpl.
    + repeat split; try done. intros ->. by apply Hj; left.
    + assert (hd i r ∈ r ++ i :: l') as Hr by (destruct r; by left).
      unfold stuck. destruct (Hsame h) as [-> ->]; [by left|].
      destruct (Hsame (hd i r)) as [-> _]; [by right|].
      repeat split; try done. fold (stuck s h). intros ->. apply Hj. simpl.
      destruct (stuck s h); [by right|by left].
Qed.

(** The head of the queue, on its way from the lock to its return. *)
Lemma waits_head j : holding (mcs_at s j) = true -> closer s l i j (mcs_instr s j).
Proof.
  intros Hj. pose proof (w_queue _ _ _ _ W) as Q.
  pose proof (queue_holder _ _ _ Q Hj) as Hh. pose proof (w_wait _ _ _ _ W) as Hi.
  assert (exists r, l = j :: r) as [r El].
  { destruct l as [|h r]; simpl in Hh; [congruence|]. exists r. congruence. }
  destruct (waits_second j r El) as [Hne H2]. assert (i <> j) as Hij by congruence.
  assert (granted s j) as Hg by (pose proof (q_list _ _ Q) as Hg; rewrite El in Hg; by destruct Hg).
  assert (forall c, mcs_at (goto j c s) i = mcs_at s i) as Hat'.
  { intros c. simpl. by rewrite fn_lookup_insert_ne. }
  (* the head stays and makes one more access *)
  assert (forall c, next_queue s (l ++ i :: l') j = l ++ i :: l' -> mcs_instr s j = goto j c s ->
    (phase c < phase (mcs_at s j))%nat ->
    closer s l i j (mcs_instr s j)) as Hgo.
  { intros c Hq Hc Hp. right. exists l, l'. split; [done|]. split; [apply waits_step; [done|by rewrite Hc, Hat']|].
    left. rewrite Hc, El. simpl. rewrite fn_lookup_insert, fn_lookup_insert_ne by congruence. lia. }
  revert Hgo. unfold granted in Hg. unfold next_queue, mcs_instr, mcslock_unlock.
  destruct (mcs_at s j) eqn:Hat; try done; simpl; intros Hgo.
  - apply (Hgo UnlockTest); try done. simpl. lia.
  - destruct (node_next s j); [apply (Hgo UnlockLoad)|apply (Hgo UnlockCas)]; try done; simpl; lia.
  - assert (mcs_qnode s <> Some j) as Hq.
    { rewrite (q_last _ _ Q), El. intros Hq. apply last_head_alone in Hq.
      - by destruct r.
      - rewrite <- app_comm_cons in Hq. pose proof (q_nodup _ _ Q) as Hnd. by rewrite El in Hnd. }
    revert Hgo. rewrite !decide_False by done. intros Hgo.
    apply (Hgo UnlockSpin); try done. simpl. lia.
  - destruct (node_next s j) eqn:Hn; [apply (Hgo UnlockLoad); try done; simpl; lia|].
    (* the head polls its next pointer until its successor has stored it *)
    right. exists l, l'. split; [done|]. split; [done|]. right. split; [done|]. split; [done|].
    rewrite El. simpl. unfold stuck. by rewrite Hat, Hn.
  - destruct (node_next s j) as [n|] eqn:Hn; [|done].
    apply (Hgo (UnlockStore n)); try done. simpl. lia.
  - right. exists r, l'. split; [rewrite El; by apply list_subseteq_cons|]. split.
    + split; [|simpl; by rewrite fn_lookup_insert_ne].
      pose proof (queue_step s _ j Q) as Q'. unfold next_queue, mcs_instr, mcslock_unlock in Q'.
      rewrite Hat in Q'. simpl in Q'. by rewrite El in Q'.
    + left. rewrite El. simpl. rewrite Hat. destruct r as [|b r]; simpl; [lia|].
      simpl in Hne, H2. rewrite fn_lookup_insert_ne by congruence.
      pose proof (owed_le (<[j:=Idle]> (mcs_at s) (hd i r))).
      destruct H2 as [[-> _]|[-> _]]; simpl; lia.
Qed.

Lemma waits_link j p : mcs_at s j = LockLink p -> closer s l i j (mcs_instr s j).
Proof.
  intros Hat. pose proof (w_queue _ _ _ _ W) as Q. pose proof (w_wait _ _ _ _ W) as Hi.
  destruct (queue_linking _ _ _ _ Q Hat) as (h & r0 & Eq & Hj & Hw).
  pose proof (q_nodup _ _ Q) as Hnd. rewrite Eq in Hnd. pose proof Hnd as [Hh _]%NoDup_cons.
  assert (mcs_instr s j = goto j LockSpin (set_node_next p (Some j) s)) as Ei.
  { unfold mcs_instr, mcslock_lock. by rewrite Hat. }
  right. exists l, l'. split; [done|]. split.
  { apply waits_step; [unfold next_queue; by rewrite Hat|]. rewrite Ei. simpl.
    rewrite fn_insert_dec. case_decide; [done|apply W]. }
  rewrite Ei. clear Ei. destruct l as [|h' r]; simplify_eq/=.
  { right. repeat split; try done. by intros ->. }
  assert (h <> j) as Hhj by congruence. rewrite (fn_lookup_insert_ne _ j h) by congruence.
  destruct (decide (j = hd i r)) as [Ej|Hne].
  - left. rewrite <- Ej, fn_lookup_insert, Hat. simpl. lia.
  - right. rewrite fn_lookup_insert_ne by done. split; [done|].
    assert (p <> h) as Hp.
    { intros ->. apply Hne. pose proof (waiting_first _ _ _ _ Hw Hnd Hj Hat) as Hf.
      by destruct r; simplify_eq/=. }
    unfold stuck. simpl. rewrite !fn_lookup_insert_ne by congruence. split; [done|].
    by destruct (mcs_at s h), (node_next s h).
Qed.

Lemma waits_spin j :
  j ∈ l ++ i :: l' -> mcs_at s j = LockSpin -> closer s l i j (mcs_instr s j).
Proof.
  intros Hin Hat. pose proof (w_queue _ _ _ _ W) as Q. pose proof (w_wait _ _ _ _ W) as Hi.
  assert (mcs_instr s j = if locked s j =? 0 then s else goto j Critical s) as Ei.
  { unfold mcs_instr, mcslock_lock. by rewrite Hat. }
  assert (head (l ++ i :: l') = Some j <-> locked s j <> 0) as Hhead.
  { pose proof (q_list _ _ Q) as Hq. destruct (l ++ i :: l') as [|h r]; [by apply not_elem_of_nil in Hin|].
    destruct Hq as [Hg Hw]. split.
    - intros [= ->]. unfold granted in Hg. rewrite Hat in Hg. lia.
    - intros Hl. apply elem_of_cons in Hin as [->|Hin]; [done|].
      by pose proof (waiting_unlocked _ _ _ _ Hw Hin). }
  case_eq (locked s j =? 0); intros El; rewrite El in Ei; rewrite Ei.
  - right. exists l, l'. split; [done|]. split; [done|]. right. split; [done|]. split; [done|].
    assert (head (l ++ i :: l') <> Some j) as Hnh by (rewrite Hhead; lia).
    pose proof waits_second as Hsec. destruct l as [|h r]; simpl in *; [congruence|].
    destruct (stuck s h) eqn:Hst; [|congruence].
    destruct (Hsec h r eq_refl) as [_ [[H2 _]|[_ H2]]]; [congruence|].
    unfold stuck in Hst. rewrite H2 in Hst. by destruct (mcs_at s h).
  - assert (head (l ++ i :: l') = Some j) as Hh by (apply Hhead; lia).
    destruct l as [|h r]; simplify_eq/=; [left; simpl; by rewrite fn_lookup_insert|].
    right. exists (j :: r), l'. split; [done|]. pose proof (q_nodup _ _ Q) as [Hnd _]%NoDup_cons.
    assert (i <> j) as Hij by (intros ->; apply Hnd, elem_of_app; right; by left).
    assert (hd i r <> j) as H2 by (intros <-; apply Hnd; destruct r; by left).
    split; [|left; simpl; rewrite fn_lookup_insert, fn_lookup_insert_ne, Hat by congruence; simpl; lia].
    split; [|simpl; by rewrite fn_lookup_insert_ne].
    pose proof (queue_step s _ j Q) as Q'. unfold next_queue in Q'.
    by rewrite Hat, Ei in Q'.
Qed.

Lemma waits_closer j : closer s l i j (mcs_instr s j).
Proof.
  destruct (decide (j ∈ l ++ i :: l')) as [Hin|Hin]; [|by apply waits_outside].
  pose proof (proj1 (q_at _ _ (w_queue _ _ _ _ W) j) Hin) as Hq.
  destruct (holding (mcs_at s j)) eqn:Hj; [by apply waits_head|].
  destruct (mcs_at s j) eqn:Hat; try done; [by apply (waits_link j prev)|by apply waits_spin].
Qed.
End Waiting.

(** ** Fair schedules *)

Lemma waits_run s l i l' sched :
  waits s l i l' ->
  (exists n, mcs_at (mcs_run s (take n sched)) i = Critical)
  \/ exists l1 l2, l1 ⊆ l /\ waits (mcs_run s sched) l1 i l2
     /\ (distance (mcs_run s sched) l1 i < distance s l i
         \/ distance (mcs_run s sched) l1 i = distance s l i
            /\ awaited s l i ∉ sched)%nat.
Proof.
  revert s l l'. induction sched as [|j sched IH]; intros s l l' W.
  { right. exists l, l'. split; [done|]. split; [done|]. right. split; [done|].
    apply not_elem_of_nil. }
  destruct (waits_closer _ _ _ _ W j) as [Hc|(l1 & l2 & Hl & W1 & Hd)]; [left; by exists 1%nat|].
  destruct (IH _ _ _ W1) as [[n Hn]|(l3 & l4 & Hl3 & W3 & Hd3)]; [left; by exists (S n)|].
  right. exists l3, l4. split; [by transitivity l1|]. split; [done|]. simpl.
  destruct Hd as [Hd|(Hd & Ha & Hj)], Hd3 as [Hd3|[Hd3 Ha3]]; [left; lia..|].
  right. split; [lia|]. rewrite <- Ha. apply not_elem_of_cons. split; [|done]. by rewrite Ha.
Qed.

Lemma awaited_queued s l i : awaited s l i ∈ i :: l.
Proof.
  destruct l as [|h r]; simpl; [by left|]. destruct (stuck s h); [|right; by left].
  destruct r; simpl; [by left|right; right; by left].
Qed.

Lemma waits_rounds T i rounds s l l' :
  waits s l i l' -> i :: l ⊆ T -> Forall (fun r => T ⊆ r) rounds ->
  (distance s l i < length rounds)%nat ->
  exists n, mcs_at (mcs_run s (take n (concat rounds))) i = Critical.
Proof.
  revert s l l'. induction rounds as [|r rounds IH]; intros s l l' W HT Hr Hd; simpl in Hd; [lia|].
  apply Forall_cons in Hr as [Hr Hrs].
  destruct (waits_run _ _ _ _ r W) as [[n Hn]|(l1 & l2 & Hl & W1 & [Hlt|[_ Ha]])].
  - exists (n `min` length r)%nat. simpl. rewrite take_app_le by lia.
    destruct (decide (n <= length r)%nat); [by rewrite Nat.min_l by lia|].
    rewrite Nat.min_r by lia. rewrite take_ge in Hn by lia. by rewrite take_ge by lia.
  - destruct (IH _ _ _ W1) as [n Hn]; [| done|lia|].
    + intros k [->|Hk]%elem_of_cons; apply HT; [by left|]. right. by apply Hl.
    + exists (length r + n)%nat. simpl. rewrite take_app_add. unfold mcs_run in *.
      by rewrite foldl_app.
  - exfalso. apply Ha, Hr, HT, awaited_queued.
Qed.

Lemma mcs_unscheduled s sched k : k ∉ sched -> mcs_at (mcs_run s sched) k = mcs_at s k.
Proof.
  revert s. induction sched as [|j sched IH]; intros s Hk; [done|].
  apply not_elem_of_cons in Hk as [Hj Hk]. simpl. rewrite IH by done.
  unfold mcs_instr, mcslock_lock, mcslock_unlock.
  destruct (mcs_at s j); simpl; repeat case_match; simpl; by rewrite ?fn_lookup_insert_ne.
Qed.

Lemma waits_distance s l i : (distance s l i <= 8 * S (length l))%nat.
Proof.
  destruct l as [|h r]; simpl; [lia|]. pose proof (owed_le (mcs_at s (hd i r))).
  assert (phase (mcs_at s h) <= 7)%nat by (destruct (mcs_at s h); simpl; lia). lia.
Qed.

(** C19: no thread starves.  Take any state that any interleaving of the
    threads [T] reaches, and a thread that has swapped itself into the queue
    there; then in every continuation that consists of rounds in which each
    thread of [T] makes at least one access (in any order, any number of
    times, along with threads outside [T]), the thread has been in its critical section by the end
    of [8 * length T + 1] rounds. *)
Theorem mcs_starvation_free (s0 : mcs_state) (T sched : list thread) (rounds : list (list thread)) (i : thread) :
  all_idle s0 -> sched ⊆ T ->
  let s := mcs_run (mcslock_init s0) sched in
  queued (mcs_at s i) = true -> holding (mcs_at s i) = false ->
  Forall (fun r => T ⊆ r) rounds -> (8 * length T < length rounds)%nat ->
  exists n, mcs_at (mcs_run s (take n (concat rounds))) i = Critical.
Proof.
  intros Hidle HT s Hi Hh Hr Hlen.
  destruct (queue_run _ _ sched (queue_init _ Hidle)) as [q Q]. fold s in Q.
  assert (q ⊆ T) as HqT.
  { intros k Hk. apply (q_at _ _ Q) in Hk. destruct (decide (k ∈ sched)) as [|Hk']; [by apply HT|].
    unfold s in Hk.
    rewrite (mcs_unscheduled _ _ _ Hk') in Hk. simpl in Hk. by rewrite Hidle in Hk. }
  apply (q_at _ _ Q) in Hi. apply list_elem_of_split in Hi as (l & l' & ->).
  pose proof (waits_distance s l i) as Hd.
  assert (i :: l ⊆ T) as Hsub.
  { intros k Hk. apply HqT, elem_of_app. apply elem_of_cons in Hk as [->|Hk]; [right; by left|by left]. }
  assert (length (i :: l) <= length T)%nat as Hll.
  { apply submseteq_length, NoDup_submseteq; [|exact Hsub].
    pose proof (q_nodup _ _ Q) as (Hl & Hd' & _)%NoDup_app. apply NoDup_cons.
    split; [|done]. intros Hil. apply (Hd' i Hil). by left. }
  apply waits_rounds with T l l'; [by split|done|done|simpl in *; lia].
Qed.

(** ** Examples *)

(** Three threads: 1 and 2 queue up behind 0, which gives the lock to 1. *)
Definition ex_idle : mcs_state :=
  {| mcs_qnode := Some 7%nat; locked := fun _ => 5; node_next := fun _ => Some 9%nat;
     mcs_at := fun _ => Idle |}.

Definition ex_sched : list thread := [0; 1; 0; 0; 1; 2; 1; 2; 2; 1; 2]%nat.

Definition ex_round : list thread := [2; 0; 1]%nat.

Lemma mcs_exclusion_witness :
  let s := mcs_run (mcslock_init ex_idle) ex_sched in
  mcs_at s 0%nat = Critical /\ mcs_at s 1%nat = LockSpin /\ mcs_at s 2%nat = LockSpin
  /\ forall j, holding (mcs_at s j) = true -> j = 0%nat.
Proof.
  pose proof (mcs_exclusion ex_idle ex_sched (fun _ => eq_refl)) as [H _].
  split; [by vm_compute|]. split; [by vm_compute|]. split; [by vm_compute|].
  intros j Hj. symmetry. by apply H.
Defined.

Lemma mcs_fifo_witness :
  let s := mcslock_init ex_idle in
  let sched := ex_sched ++ concat (replicate 12 ex_round) in
  entries s sched = [0; 1; 2]%nat
  /\ exists w, swaps s sched = entries s sched ++ w.
Proof.
  split; [by vm_compute|].
  destruct (mcs_fifo ex_idle (ex_sched ++ concat (replicate 12 ex_round)) (fun _ => eq_refl)) as [w [Hw _]].
  by exists w.
Defined.

Lemma mcs_starvation_free_witness :
  exists n, mcs_at (mcs_run (mcs_run (mcslock_init ex_idle) ex_sched)
                      (take n (concat (replicate 25 ex_round)))) 2%nat = Critical.
Proof.
  apply (mcs_starvation_free ex_idle [0; 1; 2]%nat ex_sched (replicate 25 ex_round) 2%nat
           (fun _ => eq_refl)).
  - apply (bool_decide_unpack _). by vm_compute.
  - by vm_compute.
  - by vm_compute.
  - apply (bool_decide_unpack _). by vm_compute.
  - apply (bool_decide_unpack _). by vm_compute.
Defined.
