(* ===== verification/Profiler.v ===== *)
(** * The scalability profiler

    src/src/scalability-profiler.c and include/scalability-profiler.h: the
    per-thread record of the data-structure operations of the running
    transaction, the sampling of aborts, the table of conflict causes the
    report is built from, and the wrappers ([debug_op]) that every *_debug_t
    variant of a data-structure operation is made of.  The queries answered by
    the MV-RLU library (current operation, timestamp, conflicting operation)
    are parameters. *)

From S2P Require Import Prelude Rlu.
From stdpp Require Import sorting strings.
Open Scope Z_scope.

Definition CCM_SIZE : Z := 10.
Definition DSM_SIZE : Z := 10.
Definition DS_OP_INFO_CACHE_SIZE : Z := 4096.
Definition DS_OP_ARG_LENGTH : Z := 16.
Definition ABORT_INFO_SAMPLING_RATE : Z := 256.

Record ds_op_info := DsOpInfo {
  oi_txn_ts : Z;
  oi_ds_inst : Z;
  oi_ds_id : Z;
  oi_ds_op_id : Z;
  oi_thr_id : Z;
  oi_args : list Z;
  oi_args_len : Z
}.

Record ds_op_cache := DsOpCache {
  oc_thr_id : Z;
  op_infos : Z -> ds_op_info
}.

Record abort_info := AbortInfo {
  ai_ds_inst : Z;
  ai_ds_id : Z;
  ai_ds_op_id : Z;
  ai_thr_id : Z;
  ai_conflict_ds_op_id : Z;
  ai_conflict_thr_id : Z;
  ai_args : list Z;
  ai_conflict_args : list Z;
  ai_txn_ts : Z;
  ai_conflict_txn_ts : Z
}.

(** [abort_infos] lists the slots written so far, oldest first. *)
Record abort_info_db := AbortInfoDb {
  num_aborts : Z;
  num_samples : Z;
  num_false_abort_samples : Z;
  num_missing_samples : Z;
  abort_infos : list abort_info
}.

Record conflict_cause := ConflictCause {
  cc_ds_inst : Z;
  cc_ds_id : Z;
  cc_ds_op_id : Z;
  cc_conflict_ds_op_id : Z;
  cc_id : Z
}.
#[export] Instance conflict_cause_eq_dec : EqDecision conflict_cause.
Proof. solve_decision. Defined.

Record conflict_cause_entry := CcEntry {
  cce_key : conflict_cause;
  cce_num_samples : Z
}.

(** The array [conflict_causes] up to [num_conflict_causes]. *)
Definition conflict_cause_map := list conflict_cause_entry.

Record ds_inst_entry := DsInstEntry {
  di_addr : Z;
  di_filename : string;
  di_lineno : Z
}.
Definition ds_inst_map := list ds_inst_entry.

(** ** Conflict causes *)

Definition conflict_cause_equal (a b : conflict_cause) : bool :=
  (cc_ds_inst a =? cc_ds_inst b) && (cc_ds_id a =? cc_ds_id b) &&
  (cc_ds_op_id a =? cc_ds_op_id b) &&
  (cc_conflict_ds_op_id a =? cc_conflict_ds_op_id b) && (cc_id a =? cc_id b).

(** The search loop increments the entry of the key where it is; otherwise
    the entry is appended, and the assertion on CCM_SIZE may fail ([None]). *)
Fixpoint ccm_find_inc (ccm : conflict_cause_map) (key : conflict_cause)
    : option conflict_cause_map :=
  match ccm with
  | [] => None
  | e :: ccm' =>
      if conflict_cause_equal key (cce_key e)
      then Some (CcEntry (cce_key e) (u64 (cce_num_samples e + 1)) :: ccm')
      else match ccm_find_inc ccm' key with
           | Some ccm'' => Some (e :: ccm'')
           | None => None
           end
  end.

Definition conflict_cause_map_add_sample (ccm : conflict_cause_map)
    (key : conflict_cause) : option conflict_cause_map :=
  match ccm_find_inc ccm key with
  | Some ccm' => Some ccm'
  | None =>
      if Z.of_nat (length ccm) + 1 <=? CCM_SIZE
      then Some (ccm ++ [CcEntry key 1])
      else None
  end.

Definition cc_compar (a b : conflict_cause_entry) : Z :=
  if cce_num_samples a >? cce_num_samples b then -1
  else if cce_num_samples a =? cce_num_samples b then 0
  else 1.

(** qsort leaves the order of equal elements open: any function returning a
    permutation ordered by the comparison will do. *)
Definition conflict_cause_map_sort
    (qsort : (conflict_cause_entry -> conflict_cause_entry -> Z) ->
             list conflict_cause_entry -> list conflict_cause_entry)
    (ccm : conflict_cause_map) : conflict_cause_map := qsort cc_compar ccm.

Fixpoint ds_inst_map_get (dim : ds_inst_map) (key : Z) : option ds_inst_entry :=
  match dim with
  | [] => None
  | e :: dim' => if key =? di_addr e then Some e else ds_inst_map_get dim' key
  end.

Definition ds_inst_map_put (dim : ds_inst_map) (kvp : ds_inst_entry)
    : option ds_inst_map :=
  match ds_inst_map_get dim (di_addr kvp) with
  | Some _ => Some dim
  | None =>
      if Z.of_nat (length dim) + 1 <=? DSM_SIZE then Some (dim ++ [kvp]) else None
  end.

Definition get_conflict_cause_id_fast_path (ds_id op conflict_op : Z) : Z :=
  if ds_id =? 0 then
    let cc_id := if (op =? 0) && (conflict_op =? 1) then -1 else 0 in
    if (op =? 1) && (conflict_op =? 0) then -1 else cc_id
  else if ds_id =? 2 then
    if (op =? 2) && (conflict_op =? 2) then 0 else -1
  else 0.

(** In the case of maps the source tests the assignment [cc_id = 0], whose
    value is 0. *)
Definition get_recipe (cc : conflict_cause) : string :=
  let ds_id := cc_ds_id cc in
  let op := cc_ds_op_id cc in
  let conflict_op := cc_conflict_ds_op_id cc in
  let recipe := "placeholder"%string in
  if cc_id cc =? -1 then recipe
  else if ds_id =? 0 then
    if (op =? 0) && (conflict_op =? 0) then "Overprovision resource"
    else if (op =? 1) && (conflict_op =? 1)
    then "Increase resource refreshing interval"
    else if ((op =? 0) && (conflict_op =? 1)) || ((op =? 1) && (conflict_op =? 0))
    then if cc_id cc =? 0 then "Increase resource refreshing interval"
         else "Overprovision resource"
    else recipe
  else if ds_id =? 1 then "Increase maximum allowed staleness"
  else if ds_id =? 2 then
    let assigned := 0 in
    if negb (assigned =? 0)
    then "Use mergeable object and increase maximum allowed staleness"
    else "Increase map size or change hash function that reduces collision"
  else if ds_id =? 3 then "Use mergeable object and increase maximum allowed staleness"
  else if ds_id =? 4 then
    if (op =? 0) && (conflict_op =? 0) then "Overprovision resource" else recipe
  else recipe.

(** The bridge's variant: conflicts on vectors (structure 3) are added to the
    first entry of refreshes of the allocator and removed. *)
Fixpoint cc_find_merge_base (ccm : conflict_cause_map) (i : nat) : option nat :=
  match ccm with
  | [] => None
  | e :: ccm' =>
      if (cc_ds_id (cce_key e) =? 0) && (cc_ds_op_id (cce_key e) =? 1) &&
         (cc_conflict_ds_op_id (cce_key e) =? 1)
      then Some i else cc_find_merge_base ccm' (S i)
  end.

Definition conflict_cause_map_merge_dchain_exp_legacy (ccm : conflict_cause_map)
    : option conflict_cause_map :=
  let vec := filter (fun e => cc_ds_id (cce_key e) = 3) ccm in
  let extra := zsum cce_num_samples vec in
  match cc_find_merge_base ccm 0 with
  | Some base =>
      let ccm' := alter (fun e => CcEntry (cce_key e) (u64 (cce_num_samples e + extra)))
                    base ccm in
      Some (filter (fun e => cc_ds_id (cce_key e) <> 3) ccm')
  | None =>
      (* cc_merge_base is uninitialised: only read when there is an entry to add *)
      match vec with [] => Some ccm | _ => None end
  end.

(** The table profiler_show_profile builds from the samples of all threads. *)
Definition cause_of_sample (a : abort_info) : conflict_cause :=
  ConflictCause (ai_ds_inst a) (ai_ds_id a) (ai_ds_op_id a) (ai_conflict_ds_op_id a)
    (get_conflict_cause_id_fast_path (ai_ds_id a) (ai_ds_op_id a)
       (ai_conflict_ds_op_id a)).

Fixpoint add_all_samples (ccm : conflict_cause_map) (l : list conflict_cause)
    : option conflict_cause_map :=
  match l with
  | [] => Some ccm
  | cc :: l' =>
      match conflict_cause_map_add_sample ccm cc with
      | Some ccm' => add_all_samples ccm' l'
      | None => None
      end
  end.

Definition profiler_show_profile
    (qsort : (conflict_cause_entry -> conflict_cause_entry -> Z) ->
             list conflict_cause_entry -> list conflict_cause_entry)
    (abort_info_dbs : list abort_info_db) : option conflict_cause_map :=
  match add_all_samples []
          (abort_info_dbs ≫= fun db => cause_of_sample <$> abort_infos db) with
  | Some ccm => Some (conflict_cause_map_sort qsort ccm)
  | None => None
  end.

(** ** Recording operations and aborts *)

(** What the MV-RLU library answers about the running transaction. *)
Class MvrluProfiler (P : Type) := {
  mvrlu_profiler_get_curr_op : P -> Z;
  mvrlu_profiler_get_txn_ts : P -> Z;
  mvrlu_profiler_inc_curr_op : P -> Z -> P
}.

Definition memcpy_args (dst src : list Z) : list Z := src ++ drop (length src) dst.

(** The operation record at [curr_op]; argument bytes and their length are
    only written when there are some. *)
Definition set_ds_op_info (old : ds_op_info) (txn_ts ds_inst ds_id ds_op_id thr_id : Z)
    (args : list Z) : ds_op_info :=
  DsOpInfo txn_ts ds_inst (u16 ds_id) (u16 ds_op_id) (u16 thr_id)
    (if bool_decide (args = []) then oi_args old else memcpy_args (oi_args old) args)
    (if bool_decide (args = []) then oi_args_len old
     else u8 (Z.of_nat (length args))).

Section recording.
Context {P : Type} `{MvrluProfiler P}.

Definition profiler_add_ds_op_info (p : P) (thr_id : Z) (c : ds_op_cache)
    (ds_inst ds_id ds_op_id : Z) (args : list Z) : ds_op_cache :=
  let curr_op := mvrlu_profiler_get_curr_op p in
  let txn_ts := mvrlu_profiler_get_txn_ts p in
  DsOpCache (oc_thr_id c)
    (<[curr_op := set_ds_op_info (op_infos c curr_op) txn_ts ds_inst ds_id ds_op_id
                    thr_id args]> (op_infos c)).

Definition profiler_inc_curr_op (p : P) : P :=
  mvrlu_profiler_inc_curr_op p DS_OP_INFO_CACHE_SIZE.

(** The body shared by the *_debug_t variants: record, run, count. *)
Definition debug_op {T A} (thr_id ds_inst ds_id ds_op_id : Z) (args : list Z)
    (op : M T A) : M ((P * ds_op_cache) * T) A :=
  fun '((p, c), t) =>
    let c' := profiler_add_ds_op_info p thr_id c ds_inst ds_id ds_op_id args in
    let (r, t') := op t in
    (r, ((profiler_inc_curr_op p, c'), t')).

(** The wrapper of the allocation functions. *)
Definition profiler_add_ds_inst (di_map : ds_inst_map) (addr : Z) (filename : string)
    (lineno : Z) : option ds_inst_map :=
  ds_inst_map_put di_map (DsInstEntry addr filename lineno).
End recording.

Definition profiler_init (num_cores : Z)
    : (Z -> ds_op_cache) * (Z -> abort_info_db) * ds_inst_map :=
  (fun i => DsOpCache (if decide (0 <= i < num_cores) then i else 0)
              (fun _ => DsOpInfo 0 0 0 0 0 (replicate (Z.to_nat DS_OP_ARG_LENGTH) 0) 0),
   fun _ => AbortInfoDb 0 0 0 0 [],
   []).

(** [conflict] is the library's answer to mvrlu_profiler_get_confict_ops. *)
Definition add_abort_info_sample (caches : Z -> ds_op_cache)
    (conflict : option (Z * Z * Z * Z)) (db : abort_info_db) : abort_info_db :=
  match conflict with
  | Some (thr_id, op, conflict_thr_id, conflict_op) =>
      if negb (thr_id =? conflict_thr_id) then
        let oi := op_infos (caches thr_id) op in
        let coi := op_infos (caches conflict_thr_id) conflict_op in
        let slot := replicate (Z.to_nat DS_OP_ARG_LENGTH) 0 in
        let info := AbortInfo (oi_ds_inst oi) (oi_ds_id oi) (oi_ds_op_id oi)
          (oi_thr_id oi) (oi_ds_op_id coi) (oi_thr_id coi)
          (memcpy_args slot (take (Z.to_nat (oi_args_len oi)) (oi_args oi)))
          (memcpy_args slot (take (Z.to_nat (oi_args_len coi)) (oi_args coi)))
          (oi_txn_ts oi) (oi_txn_ts coi) in
        AbortInfoDb (num_aborts db) (i32 (num_samples db + 1))
          (num_false_abort_samples db) (num_missing_samples db)
          (abort_infos db ++ [info])
      else
        AbortInfoDb (num_aborts db) (num_samples db)
          (i32 (num_false_abort_samples db + 1)) (num_missing_samples db)
          (abort_infos db)
  | None =>
      AbortInfoDb (num_aborts db) (num_samples db) (num_false_abort_samples db)
        (i32 (num_missing_samples db + 1)) (abort_infos db)
  end.

Definition profiler_add_abort_info (caches : Z -> ds_op_cache)
    (conflict : option (Z * Z * Z * Z)) (db : abort_info_db) : abort_info_db :=
  let db' := if Z.land (num_aborts db) (ABORT_INFO_SAMPLING_RATE - 1) =? 0
             then add_abort_info_sample caches conflict db else db in
  AbortInfoDb (u64 (num_aborts db' + 1)) (num_samples db')
    (num_false_abort_samples db') (num_missing_samples db') (abort_infos db').

(** Packet counters of the workers (include/scalability-profiler.h). *)
Definition profiler_pkt_cnt_init : Z -> Z := fun _ => 0.
Definition profiler_pkt_cnt_inc (pkt_cnts : Z -> Z) (thr_id num_pkts : Z) : Z -> Z :=
  <[thr_id := u64 (pkt_cnts thr_id + num_pkts)]> pkt_cnts.

(** ** The table counts the samples *)

Lemma conflict_cause_equal_spec a b : conflict_cause_equal a b = true <-> a = b.
Proof.
  unfold conflict_cause_equal. rewrite !andb_true_iff, !Z.eqb_eq.
  destruct a, b; simpl. naive_solver.
Qed.

Definition ccm_count (ccm : conflict_cause_map) (key : conflict_cause) : Z :=
  zsum (fun e => if decide (cce_key e = key) then cce_num_samples e else 0) ccm.
Definition ccm_keys (ccm : conflict_cause_map) : list conflict_cause := cce_key <$> ccm.
Definition occurrences (l : list conflict_cause) (key : conflict_cause) : Z :=
  Z.of_nat (length (filter (fun k => k = key) l)).

(** A well-formed table: no duplicate key, at most CCM_SIZE entries, and the
    counter of every key is the number of its samples. *)
Definition ccm_ok (l : list conflict_cause) (ccm : conflict_cause_map) : Prop :=
  NoDup (ccm_keys ccm) /\ Z.of_nat (length ccm) <= CCM_SIZE /\
  (forall k, k ∈ ccm_keys ccm <-> k ∈ l) /\
  (forall e, e ∈ ccm -> cce_num_samples e = occurrences l (cce_key e)).

Lemma occurrences_snoc l k k' :
  occurrences (l ++ [k']) k = occurrences l k + (if decide (k' = k) then 1 else 0).
Proof.
  unfold occurrences. rewrite filter_app, length_app, filter_cons, filter_nil.
  case_decide; simpl; lia.
Qed.

Lemma occurrences_bound l k : 0 <= occurrences l k <= Z.of_nat (length l).
Proof. unfold occurrences. pose proof (length_filter (fun k' => k' = k) l). lia. Qed.

Lemma ccm_find_inc_spec ccm key :
  match ccm_find_inc ccm key with
  | Some ccm' =>
      exists l1 e l2, ccm = l1 ++ e :: l2 /\ cce_key e = key /\
        ccm' = l1 ++ CcEntry key (u64 (cce_num_samples e + 1)) :: l2
  | None => key ∉ ccm_keys ccm
  end.
Proof.
  induction ccm as [|e ccm IH]; simpl; [set_solver|].
  destruct (conflict_cause_equal key (cce_key e)) eqn:E.
  - apply conflict_cause_equal_spec in E as ->. by exists [], e, ccm.
  - assert (key <> cce_key e).
    { intros ->. assert (conflict_cause_equal (cce_key e) (cce_key e) = true)
        by (by apply conflict_cause_equal_spec). congruence. }
    destruct (ccm_find_inc ccm key) as [ccm'|].
    + destruct IH as (l1 & e' & l2 & -> & He & ->). by exists (e :: l1), e', l2.
    + unfold ccm_keys in *; simpl. set_solver.
Qed.

Lemma ccm_keys_upd l1 e l2 key v :
  cce_key e = key -> ccm_keys (l1 ++ CcEntry key v :: l2) = ccm_keys (l1 ++ e :: l2).
Proof. intros <-. unfold ccm_keys. by rewrite !fmap_app. Qed.

Lemma nodup_key_unique l1 e l2 e' :
  NoDup (ccm_keys (l1 ++ e :: l2)) -> e' ∈ l1 ++ l2 -> cce_key e' <> cce_key e.
Proof.
  unfold ccm_keys. rewrite fmap_app, fmap_cons, NoDup_app, NoDup_cons.
  intros (Hn1 & Hd & Hn2 & _) [Hin|Hin]%elem_of_app Heq.
  - apply (Hd (cce_key e')); [by apply list_elem_of_fmap_2|]. rewrite Heq. set_solver.
  - apply Hn2. rewrite <- Heq. by apply list_elem_of_fmap_2.
Qed.

Lemma add_sample_ok l ccm key ccm' :
  Z.of_nat (length l) + 1 < 2 ^ 64 ->
  ccm_ok l ccm -> conflict_cause_map_add_sample ccm key = Some ccm' ->
  ccm_ok (l ++ [key]) ccm'.
Proof.
  intros Hb (Hnd & Hlen & Hkeys & Hcnt). unfold conflict_cause_map_add_sample.
  pose proof (ccm_find_inc_spec ccm key) as Hf.
  destruct (ccm_find_inc ccm key) as [c|].
  - intros [= ->]. destruct Hf as (l1 & e & l2 & -> & He & ->).
    split; [by erewrite ccm_keys_upd|].
    split; [rewrite length_app in *; simpl in *; lia|].
    split.
    { intros k. erewrite ccm_keys_upd by done. rewrite Hkeys.
      assert (key ∈ l). { apply Hkeys. rewrite <- He. apply list_elem_of_fmap_2. set_solver. }
      set_solver. }
    intros e' He'. rewrite occurrences_snoc.
    assert (e' = CcEntry key (u64 (cce_num_samples e + 1)) \/ e' ∈ l1 ++ l2) as [->|Hin]
      by set_solver.
    + simpl. rewrite decide_True by done. rewrite (Hcnt e) by set_solver. rewrite He.
      apply u64_id. pose proof (occurrences_bound l key). lia.
    + rewrite decide_False.
      * rewrite Z.add_0_r. apply Hcnt. set_solver.
      * rewrite <- He. intros E. by eapply nodup_key_unique.
  - case_match eqn:Hle; [|done]. intros [= <-]. apply Z.leb_le in Hle.
    split; [|split; [|split]].
    + unfold ccm_keys in *. rewrite fmap_app. apply NoDup_app. split; [done|].
      split; [|apply NoDup_singleton]. set_solver.
    + rewrite length_app; simpl. lia.
    + intros k. unfold ccm_keys in *. rewrite fmap_app. set_solver.
    + intros e' [Hin| ->%list_elem_of_singleton]%elem_of_app; rewrite occurrences_snoc.
      * rewrite (Hcnt _ Hin), decide_False; [lia|]. intros ->. apply Hf.
        by apply list_elem_of_fmap_2.
      * simpl. rewrite decide_True by done. enough (occurrences l key = 0) by lia.
        unfold occurrences. destruct (filter _ l) as [|k ks] eqn:Ef; [done|].
        assert (k ∈ filter (fun k => k = key) l) as Hk by (rewrite Ef; set_solver).
        apply list_elem_of_filter in Hk as [-> Hk]. by apply Hkeys in Hk.
Qed.

Lemma add_all_samples_ok l' : forall l ccm ccm',
  Z.of_nat (length l) + Z.of_nat (length l') < 2 ^ 64 ->
  ccm_ok l ccm -> add_all_samples ccm l' = Some ccm' -> ccm_ok (l ++ l') ccm'.
Proof.
  induction l' as [|k l' IH]; intros l ccm ccm' Hb Hok; simpl in *.
  - intros [= <-]. by rewrite app_nil_r.
  - destruct (conflict_cause_map_add_sample ccm k) as [c|] eqn:E; [|done].
    intros Ha. rewrite cons_middle, app_assoc.
    apply (IH _ c); [rewrite length_app; simpl; lia| |done].
    eapply add_sample_ok; eauto. lia.
Qed.

Lemma ccm_ok_nil : ccm_ok [] [].
Proof. split; [constructor|]. split; [done|]. split; set_solver. Qed.

(** The assertion can only fail when there are more than CCM_SIZE causes. *)
Lemma add_all_samples_total (causes : list conflict_cause) : forall l' l ccm,
  (forall k, k ∈ l ++ l' -> k ∈ causes) -> Z.of_nat (length causes) <= CCM_SIZE ->
  Z.of_nat (length l) + Z.of_nat (length l') < 2 ^ 64 ->
  ccm_ok l ccm -> is_Some (add_all_samples ccm l').
Proof.
  induction l' as [|k l' IH]; intros l ccm Hin Hc Hb Hok; simpl in *; [by eexists|].
  destruct (conflict_cause_map_add_sample ccm k) as [c|] eqn:E.
  - apply (IH (l ++ [k])); [set_solver|done|rewrite length_app; simpl; lia|].
    eapply add_sample_ok; eauto. lia.
  - exfalso. unfold conflict_cause_map_add_sample in E.
    pose proof (ccm_find_inc_spec ccm k) as Hf. destruct (ccm_find_inc ccm k); [done|].
    case_match eqn:Hle; [done|]. apply Z.leb_gt in Hle.
    destruct Hok as (Hnd & Hlen & Hkeys & _).
    assert (NoDup (k :: ccm_keys ccm)) as Hnd' by (by apply NoDup_cons).
    assert (k :: ccm_keys ccm ⊆ causes) as Hsub.
    { intros k'. rewrite elem_of_cons, Hkeys. intros Hk'. apply Hin. set_solver. }
    pose proof (submseteq_length _ _ (NoDup_submseteq _ _ Hnd' Hsub)) as Hle'.
    unfold ccm_keys in Hle'. simpl in Hle'. rewrite length_fmap in Hle'. lia.
Qed.

(** ** Properties *)

(** Descending order of the counters, as cc_compar defines it. *)
Definition cc_sorted (ccm : conflict_cause_map) : Prop :=
  StronglySorted (fun a b => cc_compar a b <= 0) ccm.

(** The report counts correctly: when profiler_show_profile produces its
    table, the table is ordered by decreasing number of samples, holds every
    conflict cause that occurs in some thread's samples exactly once, and the
    number next to a cause is the number of samples with that cause. *)
Theorem profiler_show_profile_counts
    (qsort : (conflict_cause_entry -> conflict_cause_entry -> Z) ->
             list conflict_cause_entry -> list conflict_cause_entry)
    (dbs : list abort_info_db) (ccm : conflict_cause_map) :
  (forall l, Permutation (qsort cc_compar l) l /\ cc_sorted (qsort cc_compar l)) ->
  let causes : list conflict_cause :=
    dbs ≫= (fun db => cause_of_sample <$> abort_infos db) in
  Z.of_nat (length causes) < 2 ^ 64 ->
  profiler_show_profile qsort dbs = Some ccm ->
  cc_sorted ccm /\ NoDup (ccm_keys ccm) /\
  (forall k, k ∈ ccm_keys ccm <-> k ∈ causes) /\
  (forall e, e ∈ ccm -> cce_num_samples e = occurrences causes (cce_key e)).
Proof.
  intros Hq causes Hb. unfold profiler_show_profile. fold causes.
  destruct (add_all_samples [] causes) as [c|] eqn:E; [|done]. intros [= <-].
  apply (add_all_samples_ok _ [] []) in E as (Hnd & _ & Hk & Hc);
    [|simpl; lia|apply ccm_ok_nil].
  unfold conflict_cause_map_sort. destruct (Hq c) as [Hp Hs].
  split; [done|]. split; [|split].
  - unfold ccm_keys in *. by rewrite Hp.
  - intros k. unfold ccm_keys in *. rewrite Hp. apply Hk.
  - intros e. rewrite Hp. apply Hc.
Qed.

(** The assertion on the size of the table is never reached by a program
    whose conflicts have at most CCM_SIZE distinct causes: the table is
    produced. *)
Theorem profiler_show_profile_total
    (qsort : (conflict_cause_entry -> conflict_cause_entry -> Z) ->
             list conflict_cause_entry -> list conflict_cause_entry)
    (dbs : list abort_info_db) (distinct : list conflict_cause) :
  let causes : list conflict_cause :=
    dbs ≫= (fun db => cause_of_sample <$> abort_infos db) in
  (forall k, k ∈ causes -> k ∈ distinct) ->
  Z.of_nat (length distinct) <= CCM_SIZE -> Z.of_nat (length causes) < 2 ^ 64 ->
  is_Some (profiler_show_profile qsort dbs).
Proof.
  intros causes Hin Hd Hb. unfold profiler_show_profile. fold causes.
  destruct (add_all_samples_total distinct causes [] []) as [c ->];
    [done..|simpl; lia|apply ccm_ok_nil|by eexists].
Qed.

(** A conflict on a map is never reported with the recipe for reads that
    conflict with writes of the same mapping: the test of cc_id in get_recipe
    is an assignment, so that the branch for cc_id = 0 is dead. *)
Theorem get_recipe_map (cc : conflict_cause) :
  cc_ds_id cc = 2 -> cc_id cc <> -1 ->
  get_recipe cc = "Increase map size or change hash function that reduces collision"%string.
Proof.
  intros Hd Hi. unfold get_recipe. rewrite Hd.
  destruct (cc_id cc =? -1) eqn:E; [by apply Z.eqb_eq in E|done].
Qed.

(** Aborts are sampled one in ABORT_INFO_SAMPLING_RATE. *)
Fixpoint add_aborts (caches : Z -> ds_op_cache)
    (conflicts : list (option (Z * Z * Z * Z))) (db : abort_info_db) : abort_info_db :=
  match conflicts with
  | [] => db
  | c :: l => add_aborts caches l (profiler_add_abort_info caches c db)
  end.

Definition db_total (db : abort_info_db) : Z :=
  num_samples db + num_false_abort_samples db + num_missing_samples db.

(** Counters in range; the number of samples taken is ceil(aborts / rate). *)
Definition db_ok (db : abort_info_db) : Prop :=
  0 <= num_samples db /\ 0 <= num_false_abort_samples db /\
  0 <= num_missing_samples db /\ 0 <= num_aborts db /\
  num_samples db = Z.of_nat (length (abort_infos db)) /\
  db_total db = (num_aborts db + 255) / 256.

Lemma add_abort_info_ok caches c db :
  db_ok db -> num_aborts db + 1 < 2 ^ 31 ->
  db_ok (profiler_add_abort_info caches c db) /\
  num_aborts (profiler_add_abort_info caches c db) = num_aborts db + 1.
Proof.
  intros (Hs & Hf & Hm & Ha & Hl & Ht) Hb. unfold db_total in Ht.
  assert (forall x, 0 <= x <= (num_aborts db + 255) / 256 -> i32 (x + 1) = x + 1) as Hi.
  { intros x Hx. apply i32_id. pose proof (Z.div_mod (num_aborts db + 255) 256).
    pose proof (Z.mod_pos_bound (num_aborts db + 255) 256). lia. }
  unfold profiler_add_abort_info.
  replace (Z.land (num_aborts db) (ABORT_INFO_SAMPLING_RATE - 1))
    with (num_aborts db mod 256) by (symmetry; by apply (land_mask _ 8)).
  destruct (num_aborts db mod 256 =? 0) eqn:E.
  - apply Z.eqb_eq in E.
    assert ((num_aborts db + 1 + 255) / 256 = (num_aborts db + 255) / 256 + 1) as Hd.
    { Z.div_mod_to_equations. lia. }
    unfold add_abort_info_sample.
    destruct c as [[[[thr op] cthr] cop]|]; [destruct (thr =? cthr)|];
      simpl; rewrite ?(u64_id (num_aborts db + 1)), Hi by lia;
      (split; [|done]); unfold db_ok, db_total; simpl;
      rewrite ?length_app; simpl; rewrite Hd; lia.
  - apply Z.eqb_neq in E. simpl. rewrite u64_id by lia. split; [|done].
    unfold db_ok, db_total; simpl.
    assert ((num_aborts db + 1 + 255) / 256 = (num_aborts db + 255) / 256) as ->; [|lia].
    change (2 ^ 8) with 256 in E.
    Z.div_mod_to_equations. lia.
Qed.

(** Of the aborts of a thread exactly one in 256 is sampled, starting with
    the first: after [n] aborts the samples, the false aborts and the samples
    the library had no answer for add up to ceil(n / 256), and there is one
    stored record per sample. *)
Theorem profiler_sampling_rate (caches : Z -> ds_op_cache)
    (conflicts : list (option (Z * Z * Z * Z))) :
  let n := Z.of_nat (length conflicts) in
  let db := add_aborts caches conflicts (AbortInfoDb 0 0 0 0 []) in
  n < 2 ^ 31 ->
  num_aborts db = n /\ num_samples db = Z.of_nat (length (abort_infos db)) /\
  num_samples db + num_false_abort_samples db + num_missing_samples db = (n + 255) / 256.
Proof.
  intros n db Hb.
  assert (forall l db0, db_ok db0 -> num_aborts db0 + Z.of_nat (length l) < 2 ^ 31 ->
    db_ok (add_aborts caches l db0) /\
    num_aborts (add_aborts caches l db0) = num_aborts db0 + Z.of_nat (length l)) as Hg.
  { induction l as [|c l IH]; intros db0 Hok Hn; simpl in *; [split; [done|lia]|].
    destruct (add_abort_info_ok caches c db0 Hok) as [Hok' Hn']; [lia|].
    destruct (IH _ Hok') as [Hok'' Hn'']; [lia|]. split; [done|]. lia. }
  destruct (Hg conflicts (AbortInfoDb 0 0 0 0 [])) as [(?&?&?&?&?&Ht) Hn];
    [done|simpl; lia|]. fold db in Hn, Ht, H3. simpl in Hn. unfold db_total in Ht.
  rewrite Hn in Ht. split; [done|]. split; [done|]. rewrite Ht. done.
Qed.

(** ** Witnesses *)

Definition ex_sample (inst op cop : Z) : abort_info :=
  AbortInfo inst 3 op 0 cop 1 [] [] 0 0.
Definition ex_dbs : list abort_info_db :=
  [AbortInfoDb 3 3 0 0 [ex_sample 7 0 1; ex_sample 8 1 0; ex_sample 8 1 0];
   AbortInfoDb 1 1 0 0 [ex_sample 8 1 0]].

(** Insertion sort, one function qsort may be. *)
Fixpoint ins (cmp : conflict_cause_entry -> conflict_cause_entry -> Z) e l :=
  match l with
  | [] => [e]
  | e' :: l' => if cmp e e' <=? 0 then e :: l else e' :: ins cmp e l'
  end.
Definition ins_sort cmp (l : list conflict_cause_entry) := foldr (ins cmp) [] l.

Lemma cc_compar_le a b : cc_compar a b <= 0 <-> cce_num_samples b <= cce_num_samples a.
Proof.
  unfold cc_compar. destruct (_ >? _) eqn:E; [lia|]. destruct (_ =? _) eqn:E'; lia.
Qed.

Lemma ins_sort_spec l :
  Permutation (ins_sort cc_compar l) l /\ cc_sorted (ins_sort cc_compar l).
Proof.
  assert (forall e l, Permutation (ins cc_compar e l) (e :: l)) as Hp.
  { intros e l'. induction l' as [|e' l' IH]; simpl; [done|]. case_match; [done|].
    rewrite IH. apply perm_swap. }
  induction l as [|e l [IHp IHs]]; simpl; [split; [done|constructor]|].
  split; [by rewrite Hp, IHp|]. clear IHp. unfold cc_sorted in *.
  induction IHs as [|e' l' Hs IH Hf]; simpl; [repeat constructor|].
  destruct (cc_compar e e' <=? 0) eqn:E.
  - apply Z.leb_le in E. constructor; [by constructor|]. constructor; [done|].
    eapply Forall_impl; [done|]. intros x. simpl. rewrite !cc_compar_le in *. lia.
  - apply Z.leb_gt in E. constructor; [done|]. rewrite Hp. constructor; [|done].
    apply cc_compar_le. destruct (decide (cce_num_samples e <= cce_num_samples e')); [done|].
    assert (cc_compar e e' <= 0) by (apply cc_compar_le; lia). lia.
Qed.

Example profiler_show_profile_counts_witness :
  exists ccm, profiler_show_profile ins_sort ex_dbs = Some ccm /\ cc_sorted ccm.
Proof.
  eexists. split; [vm_compute; reflexivity|].
  eapply (profiler_show_profile_counts ins_sort ex_dbs _ ins_sort_spec);
    [vm_compute; reflexivity|vm_compute; reflexivity].
Defined.

Example profiler_show_profile_total_witness :
  is_Some (profiler_show_profile ins_sort ex_dbs).
Proof.
  apply (profiler_show_profile_total ins_sort ex_dbs
           [ConflictCause 7 3 0 1 0; ConflictCause 8 3 1 0 0]).
  - intros k Hk. vm_compute in Hk. vm_compute.
    repeat (apply elem_of_cons in Hk as [->|Hk]; [set_solver|]). set_solver.
  - vm_compute. discriminate.
  - vm_compute. reflexivity.
Defined.

Example get_recipe_map_witness :
  get_recipe (ConflictCause 1 2 2 2 0)
  = "Increase map size or change hash function that reduces collision"%string.
Proof. apply get_recipe_map; [reflexivity|discriminate]. Defined.

Example profiler_sampling_rate_witness :
  num_aborts (add_aborts (fun _ => DsOpCache 0 (fun _ => DsOpInfo 0 0 0 0 0 [] 0))
                [None; Some (0, 0, 1, 0)] (AbortInfoDb 0 0 0 0 [])) = 2.
Proof.
  apply (profiler_sampling_rate _ [None; Some (0, 0, 1, 0)]). vm_compute. reflexivity.
Defined.
