(* ===== verification/ProfReport.v ===== *)
(** * The report of the scalability profiler

    conflict_cause_map_show of src/src/scalability-profiler.c and
    profiler_get_load_imbalance of include/scalability-profiler.h: the causes
    of aborts with their shares, largest first, and the imbalance of the
    load, in the IEEE arithmetic of the Standard Library's SpecFloat.  The
    lines that are printed are values of [bottleneck]. *)

From Stdlib Require Import Floats.SpecFloat.
From stdpp Require Import strings.
From S2P Require Import Prelude Profiler.
Open Scope Z_scope.

(** ** float and double *)

Definition round_to (prec emax : Z) (x : spec_float) : spec_float :=
  match x with
  | S754_finite s m e => binary_normalize prec emax (cond_Zopp s (Zpos m)) e s
  | _ => x
  end.
Definition to_float : spec_float -> spec_float := round_to 24 128.
Definition to_double : spec_float -> spec_float := round_to 53 1024.
(** The conversions of an unsigned 64-bit integer. *)
Definition float_of (x : Z) : spec_float := binary_normalize 24 128 x 0 false.
Definition double_of (x : Z) : spec_float := binary_normalize 53 1024 x 0 false.
Definition dmul : spec_float -> spec_float -> spec_float := SFmul 53 1024.
Definition ddiv : spec_float -> spec_float -> spec_float := SFdiv 53 1024.
Definition dadd : spec_float -> spec_float -> spec_float := SFadd 53 1024.

(** (100.0 * (float) x) / (float) y, stored in a float. *)
Definition percentage (x y : Z) : spec_float :=
  to_float (ddiv (dmul (double_of 100) (to_double (float_of x))) (to_double (float_of y))).

(** ** The report *)

Definition ds_names : list string :=
  ["resource allocator"; "mergeable object"; "map"; "vector"; "resource allocator"]%string.
Definition op_names : list (list string) :=
  [["alloc"; "refresh"; "undefined"; "undefined"]; ["read"; "update"; "undefined"; "undefined"];
   ["put"; "erase"; "get"; "undefined"]; ["write"; "read"; "undefined"; "undefined"];
   ["alloc"; "free"; "undefined"; "undefined"]]%string.

(** What is printed of one cause; [None]: a read outside the table. *)
Record bottleneck := Bottleneck {
  b_number : Z;
  b_ds_name : option string;
  b_filename : string;
  b_lineno : Z;
  b_ds_inst : Z;
  b_op : option string;
  b_conflict_op : option string;
  b_cc_id : Z;
  b_num_aborts : Z;
  b_ratio : spec_float;
  b_recipe : string
}.

(** How the loop ends: after all causes, at one below 1%, or at one whose
    structure is not in the map, which is read through NULL. *)
Inductive report_end := AllShown | RestBelow | NullRead.

Record report := Report {
  r_total_txns : Z;
  r_total_aborts : Z;
  r_abort_ratio : spec_float;
  r_bottlenecks : list bottleneck;
  r_end : report_end
}.

Definition op_name (ds_id op_id : Z) : option string :=
  ops ← op_names !! Z.to_nat ds_id; ops !! Z.to_nat op_id.

Section show.
Context (di_map : ds_inst_map) (total_aborts : Z).

Definition num_aborts (e : conflict_cause_entry) : Z := u64 (cce_num_samples e * ABORT_INFO_SAMPLING_RATE).

Definition show_cause (i : Z) (e : conflict_cause_entry) (di_entry : ds_inst_entry) : bottleneck :=
  let key := cce_key e in
  Bottleneck (i + 1) (ds_names !! Z.to_nat (cc_ds_id key)) (di_filename di_entry) (di_lineno di_entry)
    (cc_ds_inst key) (op_name (cc_ds_id key) (cc_ds_op_id key)) (op_name (cc_ds_id key) (cc_conflict_ds_op_id key))
    (cc_id key + 1) (num_aborts e) (percentage (num_aborts e) total_aborts) (get_recipe key).

(** if (ratio < 1.0) *)
Definition below_1_percent (e : conflict_cause_entry) : bool :=
  SFltb (to_double (percentage (num_aborts e) total_aborts)) (double_of 1).

Fixpoint show_loop (i : Z) (ccm : conflict_cause_map) : list bottleneck * report_end :=
  match ccm with
  | [] => ([], AllShown)
  | e :: ccm =>
      if below_1_percent e then ([], RestBelow)
      else
        match ds_inst_map_get di_map (cc_ds_inst (cce_key e)) with
        | None => ([], NullRead)
        | Some di_entry =>
            let (l, r) := show_loop (i + 1) ccm in (show_cause i e di_entry :: l, r)
        end
  end.
End show.

(** [total_txns]: mvrlu_profiler_get_total_txns. *)
Definition conflict_cause_map_show (di_map : ds_inst_map) (total_txns : Z) (ccm : conflict_cause_map) : report :=
  let total_num_samples := foldl (fun n e => u64 (n + cce_num_samples e)) 0 ccm in
  let total_aborts := u64 (total_num_samples * ABORT_INFO_SAMPLING_RATE) in
  let (l, r) := show_loop di_map total_aborts 0 ccm in
  Report total_txns total_aborts (percentage total_aborts total_txns) l r.

Definition profiler_get_load_imbalance (lcores : Z) (pkt_cnts : Z -> Z) : spec_float :=
  let num_workers := lcores - 1 in
  let '(total_pkts_recved, max_pkts_recved) :=
    loop_range 0 (Z.to_nat num_workers)
      (fun i '(total, max) =>
         (dadd total (double_of (pkt_cnts i)),
          if SFltb max (double_of (pkt_cnts i)) then double_of (pkt_cnts i) else max))
      (double_of 0, double_of 0) in
  let avg_pkts_recved := ddiv total_pkts_recved (double_of num_workers) in
  ddiv max_pkts_recved avg_pkts_recved.

(** ** What is shown *)

Section shown.
Context (di_map : ds_inst_map) (total : Z).

(** Where the loop stops, and why. *)
Definition stops (r : report_end) (rest : conflict_cause_map) : Prop :=
  match r, rest with
  | AllShown, [] => True
  | RestBelow, e :: _ => below_1_percent total e = true
  | NullRead, e :: _ => below_1_percent total e = false /\ ds_inst_map_get di_map (cc_ds_inst (cce_key e)) = None
  | _, _ => False
  end.

Lemma show_loop_spec ccm : forall i, exists shown rest, ccm = shown ++ rest /\
  stops (show_loop di_map total i ccm).2 rest /\
  Forall2 (fun e b => below_1_percent total e = false /\
    exists d, ds_inst_map_get di_map (cc_ds_inst (cce_key e)) = Some d /\ exists n, b = show_cause total n e d)
    shown (show_loop di_map total i ccm).1 /\
  b_number <$> (show_loop di_map total i ccm).1 = seqZ (i + 1) (Z.of_nat (length shown)).
Proof.
  induction ccm as [|e ccm IH]; intros i; cbn [show_loop].
  { exists [], []. by repeat split. }
  destruct (below_1_percent total e) eqn:Eb.
  { exists [], (e :: ccm). repeat split; try done; by rewrite ?Eb. }
  destruct (ds_inst_map_get di_map (cc_ds_inst (cce_key e))) as [d|] eqn:Ed.
  2: { exists [], (e :: ccm). by repeat split. }
  destruct (IH (i + 1)) as (shown & rest & -> & Hs & Hf & Hn). destruct (show_loop _ _ _ _) as [l r].
  exists (e :: shown), rest. cbn [fst snd length] in *. split; [done|]. split; [done|]. split.
  - constructor; [|done]. split; [done|]. exists d. split; [done|]. by exists i.
  - rewrite Nat2Z.inj_succ, (seqZ_cons (i + 1)) by lia. rewrite fmap_cons, Hn. f_equal. f_equal; lia.
Qed.
End shown.

(** ** Properties *)

(** The report of the profiler: the first causes of the table are shown, in
    their order and numbered from 1, each with the place its structure was
    initialised at and its recipe, up to the first one that makes up less
    than 1% of the aborts; when every structure has been registered none is
    read through NULL. *)
Theorem profiler_report_spec (di_map : ds_inst_map) (total_txns : Z) (ccm : conflict_cause_map) :
  let r := conflict_cause_map_show di_map total_txns ccm in
  exists shown rest, ccm = shown ++ rest /\ stops di_map (r_total_aborts r) (r_end r) rest /\
    Forall2 (fun e b => below_1_percent (r_total_aborts r) e = false /\
      exists d, ds_inst_map_get di_map (cc_ds_inst (cce_key e)) = Some d /\
        exists n, b = show_cause (r_total_aborts r) n e d) shown (r_bottlenecks r) /\
    b_number <$> r_bottlenecks r = seqZ 1 (Z.of_nat (length shown)) /\
    ((forall e, e ∈ ccm -> ds_inst_map_get di_map (cc_ds_inst (cce_key e)) <> None) -> r_end r <> NullRead).
Proof.
  unfold conflict_cause_map_show. set (total := u64 _).
  destruct (show_loop_spec di_map total ccm 0) as (shown & rest & E & Hs & Hf & Hn).
  destruct (show_loop di_map total 0 ccm) as [l r]. exists shown, rest. cbn in *. do 4 (split; [done|]).
  intros Hall ->. destruct rest as [|e rest]; [done|]. destruct Hs as [_ Hs].
  apply (Hall e); [|done]. rewrite E. apply elem_of_app. right. left.
Qed.

(** ** Examples *)

Example percentage_third : percentage 256 768 = S754_finite false 8738133 (-18).
Proof. vm_compute. reflexivity. Qed.

Example balanced_load : profiler_get_load_imbalance 4 (fun _ => 1000) = double_of 1.
Proof. vm_compute. reflexivity. Qed.

(** One of five workers gets everything. *)
Example unbalanced_load : profiler_get_load_imbalance 6 (fun i => if i =? 2 then 1000 else 0) = double_of 5.
Proof. vm_compute. reflexivity. Qed.

(** 199 of 200 samples are conflicts of one pair of operations. *)
Example one_bottleneck :
  let ccm := [CcEntry (ConflictCause 64 2 0 0 0) 199; CcEntry (ConflictCause 32 3 0 0 0) 1] in
  let r := conflict_cause_map_show [DsInstEntry 64 "fw.c" 10] 1000000 ccm in
  r_total_aborts r = 51200 /\ b_recipe <$> r_bottlenecks r =
    ["Increase map size or change hash function that reduces collision"%string] /\ r_end r = RestBelow.
Proof. vm_compute. auto. Qed.
