(* ===== verification/Vector.v ===== *)
(** * NfosVector: a vector of RLU-protected elements

    src/src/vector.c and include/vector.h.  [elems] is the array of pointers
    to the elements' master copies; a mutable borrow locks the element and
    hands out its private copy (here its index, written with [modify]), an
    immutable borrow hands out the version the critical section sees. *)

From stdpp Require Import strings.
From S2P Require Import Prelude Rlu Profiler.
Open Scope Z_scope.

Record NfosVector (T O : Type) := {
  elems : RluMem T O;
  elem_size : Z;
  capacity : Z
}.
Arguments elems {T O} _.
Arguments elem_size {T O} _.
Arguments capacity {T O} _.

Definition nfos_vector_get_elem_size {T O} (v : NfosVector T O) : Z := elem_size v.
Definition nfos_vector_get_capacity {T O} (v : NfosVector T O) : Z := capacity v.

(** ** Allocation *)

(** The master copies a fresh vector consists of: element [i] is the object
    RLU_ALLOC returned for it, initialised by [init_elem]. *)
Record vector_masters (O : Type) := VectorMasters {
  m_elems : Z -> O;
  m_elem_size : Z;
  m_capacity : Z
}.
Arguments VectorMasters {O} _ _ _.
Arguments m_elems {O} _ _.
Arguments m_elem_size {O} _.
Arguments m_capacity {O} _.

Fixpoint vector_init_loop {O} (rlu_alloc : Z -> O) (init_elem : O -> O) (n : nat) (i : Z)
    (elems : Z -> O) : Z -> O :=
  match n with
  | O => elems
  | S n' => vector_init_loop rlu_alloc init_elem n' (i + 1)
              (<[i := init_elem (rlu_alloc i)]> elems)
  end.

(** [malloc_ok] and [rte_malloc_ok]: whether the two allocations succeed;
    [uninit]: the contents of the fresh array of pointers. *)
Definition nfos_vector_allocate_t {O} (malloc_ok rte_malloc_ok : bool)
    (rlu_alloc uninit : Z -> O) (elem_size capacity : Z) (init_elem : O -> O)
    : option (vector_masters O) :=
  if negb malloc_ok then None
  else if negb rte_malloc_ok then None
  else Some (VectorMasters
               (vector_init_loop rlu_alloc init_elem (Z.to_nat capacity) 0 uninit)
               elem_size capacity).

Definition nfos_vector_allocate_debug_t {O} (malloc_ok rte_malloc_ok : bool)
    (rlu_alloc uninit : Z -> O) (elem_size capacity : Z) (init_elem : O -> O)
    (di_map : ds_inst_map) (vector_out : Z) (filename : string) (lineno : Z)
    : option (vector_masters O) * option ds_inst_map :=
  (nfos_vector_allocate_t malloc_ok rte_malloc_ok rlu_alloc uninit elem_size capacity
     init_elem,
   profiler_add_ds_inst di_map vector_out filename lineno).

(** ** Borrowing *)

Section borrow.
Context {T O : Type}.

Definition nfos_vector_borrow_mut_t (v : NfosVector T O) (index : Z) : M T Z :=
  lock (elems v) index ;; ret index.

Definition nfos_vector_borrow_t (v : NfosVector T O) (index : Z) : M T O :=
  deref (elems v) index.

(** The master copy itself, outside any critical section. *)
Definition nfos_vector_borrow_unsafe (masters : Z -> O) (index : Z) : O :=
  masters index.

Context {P : Type} `{MvrluProfiler P}.

Definition nfos_vector_borrow_mut_debug_t (thr_id addr : Z) (v : NfosVector T O)
    (index : Z) (index_bytes : list Z) : M ((P * ds_op_cache) * T) Z :=
  debug_op thr_id addr 3 0 index_bytes (nfos_vector_borrow_mut_t v index).

Definition nfos_vector_borrow_debug_t (thr_id addr : Z) (v : NfosVector T O)
    (index : Z) (index_bytes : list Z) : M ((P * ds_op_cache) * T) O :=
  debug_op thr_id addr 3 1 index_bytes (nfos_vector_borrow_t v index).
End borrow.

(** ** Lemmas *)

Lemma vector_init_loop_spec {O} (rlu_alloc : Z -> O) init n : forall i elems l,
  vector_init_loop rlu_alloc init n i elems l =
  if decide (i <= l < i + Z.of_nat n) then init (rlu_alloc l) else elems l.
Proof.
  induction n as [|n IH]; intros i elems l; cbn [vector_init_loop].
  - rewrite decide_False by lia. done.
  - rewrite IH. destruct (decide (l = i)) as [->|Hne].
    + rewrite decide_False by lia. rewrite fn_lookup_insert, decide_True by lia. done.
    + rewrite fn_lookup_insert_ne by done. do 2 case_decide; (done || lia).
Qed.

Section vector_wp.
Context {T O : Type} `{RluTxn T} (v : NfosVector T O) `{!RluLaws (elems v)}.
Context (R : T -> T -> Prop) `{!TxnRel R, !MemRel (elems v) R}.

Lemma wp_borrow_mut index t f ls (Q : Z -> T -> Prop) :
  holds (elems v) t f ls ->
  (forall t', holds (elems v) t' f (index :: ls) -> Q index t') ->
  wp R (nfos_vector_borrow_mut_t v index) t Q.
Proof.
  intros Hh HQ. unfold nfos_vector_borrow_mut_t. wstep. wstep. wstep. by apply HQ.
Qed.

Lemma wp_borrow index t f ls (Q : O -> T -> Prop) :
  holds (elems v) t f ls -> Q (f index) t -> wp R (nfos_vector_borrow_t v index) t Q.
Proof. intros. unfold nfos_vector_borrow_t. by wstep. Qed.
End vector_wp.

(** ** Properties *)

(** A successful nfos_vector_allocate gives a vector of the requested
    capacity and element size in which every element has been initialised by
    the caller's function; it fails exactly when one of its two allocations
    fails. *)
Theorem nfos_vector_allocate_spec {O} (malloc_ok rte_ok : bool) (rlu_alloc uninit : Z -> O)
    (elem_size capacity : Z) (init : O -> O) :
  match nfos_vector_allocate_t malloc_ok rte_ok rlu_alloc uninit elem_size capacity init with
  | Some v =>
      malloc_ok && rte_ok = true /\ m_capacity v = capacity /\ m_elem_size v = elem_size /\
      (forall i, 0 <= i < capacity ->
         nfos_vector_borrow_unsafe (m_elems v) i = init (rlu_alloc i))
  | None => malloc_ok && rte_ok = false
  end.
Proof.
  unfold nfos_vector_allocate_t. destruct malloc_ok, rte_ok; simpl; try done.
  do 3 (split; [done|]). intros i Hi. unfold nfos_vector_borrow_unsafe.
  rewrite vector_init_loop_spec, decide_True by lia. done.
Qed.

(** A mutable borrow either aborts, and then another thread holds the
    element's lock, or gives the element's private copy, which can be written:
    a write is seen by later borrows of the same element in this transaction
    and by no borrow of another element. *)
Theorem nfos_vector_borrow_mut_write {T O} `{RluTxn T} (v : NfosVector T O)
    `{!RluLaws (elems v)} (index : Z) (f : O -> O) (t : T) :
  match (let! p := nfos_vector_borrow_mut_t v index in modify (elems v) p f) t with
  | (Some _, t') =>
      forall i, fst (nfos_vector_borrow_t v i t') =
        Some (if decide (i = index) then f (view (elems v) t index)
              else view (elems v) t i)
  | (None, _) => ~ no_conflict t
  end.
Proof.
  assert (holds (elems v) t (view (elems v) t) []) as Hh by (by apply holds_view).
  pose (Q := fun (_ : unit) t' =>
    holds (elems v) t' (<[index := f (view (elems v) t index)]> (view (elems v) t)) [index]).
  assert (wp (mem_steps (elems v))
    (let! p := nfos_vector_borrow_mut_t v index in modify (elems v) p f) t Q) as Hwp.
  { wstep. eapply wp_borrow_mut; wp_tc; [done|]. intros t' Hh'. by wstep. }
  apply wp_run in Hwp. destruct (bind _ _ t) as [[[]|] t']; [|done].
  intros i. unfold nfos_vector_borrow_t, deref; simpl. rewrite (proj1 Hwp), fn_insert_dec.
  repeat case_decide; congruence.
Qed.

(** A vector over the single-array transaction, for the witnesses. *)
Definition snap_vector {O} (n : Z) : NfosVector (snap_txn O) O :=
  {| elems := snap_mem; elem_size := 4; capacity := n |}.

Definition vector_txn : snap_txn Z := SnapTxn (fun i => 10 * i) ∅ (fun _ => false).

Lemma nfos_vector_borrow_mut_write_witness :
  fst (nfos_vector_borrow_t (snap_vector 8) 3
    (snd ((let! p := nfos_vector_borrow_mut_t (snap_vector 8) 3 in
           modify (elems (snap_vector 8)) p (Z.add 1)) vector_txn))) = Some 31 /\
  match (let! p := nfos_vector_borrow_mut_t (snap_vector 8) 3 in
         modify (elems (snap_vector 8)) p (Z.add 1)) vector_txn with
  | (Some _, t') =>
      forall i, fst (nfos_vector_borrow_t (snap_vector 8) i t') =
        Some (if decide (i = 3) then 1 + view (elems (snap_vector 8)) vector_txn 3
              else view (elems (snap_vector 8)) vector_txn i)
  | (None, _) => ~ no_conflict vector_txn
  end.
Proof.
  split; [vm_compute; reflexivity|].
  apply (nfos_vector_borrow_mut_write (snap_vector 8) 3 (Z.add 1) vector_txn).
Defined.
