(* ===== verification/NfosMap.v ===== *)
(** * NfosMap: the open-addressing hash map

    src/src/map.c and include/map.h.  A map is an array of RLU-protected
    entries; [chns] of a slot counts the keys whose probe sequence passes the
    slot, which is what lets a lookup stop early.  The file translates
    allocation, get, put and erase (and their profiled variants), gives the
    representation invariant [map_inv] that relates the array to a finite map
    and proves that the operations implement lookup, insert and delete. *)

From stdpp Require Import strings.
From S2P Require Import Prelude Rlu Profiler.
Open Scope Z_scope.

Record nfos_map_entry (K : Type) := MapEntry {
  busybits : Z;
  khs : Z;
  chns : Z;
  vals : Z;
  key : K
}.
Arguments MapEntry {K} _ _ _ _ _.
Arguments busybits {K} _.
Arguments khs {K} _.
Arguments chns {K} _.
Arguments vals {K} _.
Arguments key {K} _.

Record NfosMap (T K : Type) := {
  map_entries : RluMem T (nfos_map_entry K);
  map_key_size : Z;
  map_capacity : Z;
  map_keys_eq : K -> K -> bool;
  map_khash : K -> Z
}.
Arguments map_entries {T K} _.
Arguments map_key_size {T K} _.
Arguments map_capacity {T K} _.
Arguments map_keys_eq {T K} _ _ _.
Arguments map_khash {T K} _ _.

(** ** Allocation *)

(** The next power of two of a 32-bit value. *)
Definition next_pow2 (v : Z) : Z :=
  let v := u32 (v - 1) in
  let v := Z.lor v (Z.shiftr v 1) in
  let v := Z.lor v (Z.shiftr v 2) in
  let v := Z.lor v (Z.shiftr v 4) in
  let v := Z.lor v (Z.shiftr v 8) in
  let v := Z.lor v (Z.shiftr v 16) in
  u32 (v + 1).

Record map_masters (K : Type) := MapMasters {
  mm_entries : Z -> nfos_map_entry K;
  mm_key_size : Z;
  mm_capacity : Z
}.
Arguments MapMasters {K} _ _ _.
Arguments mm_entries {K} _ _.
Arguments mm_key_size {K} _.
Arguments mm_capacity {K} _.

Definition entry_reset {K} (e : nfos_map_entry K) : nfos_map_entry K :=
  MapEntry 0 (khs e) 0 (vals e) (key e).

Fixpoint map_reset_loop {K} (n : nat) (i : Z) (es : Z -> nfos_map_entry K)
    : Z -> nfos_map_entry K :=
  match n with
  | O => es
  | S n' => map_reset_loop n' (i + 1) (<[i := entry_reset (es i)]> es)
  end.

Definition nfos_map_allocate_t {K} (malloc_ok rte_malloc_ok : bool)
    (rlu_alloc : Z -> nfos_map_entry K) (key_size capacity : Z) : option (map_masters K) :=
  let capacity := next_pow2 capacity in
  if negb malloc_ok then None
  else if negb rte_malloc_ok then None
  else Some (MapMasters (map_reset_loop (Z.to_nat capacity) 0 rlu_alloc) key_size capacity).

Definition nfos_map_allocate_debug_t {K} (malloc_ok rte_malloc_ok : bool)
    (rlu_alloc : Z -> nfos_map_entry K) (key_size capacity : Z)
    (di_map : ds_inst_map) (map_out : Z) (filename : string) (lineno : Z)
    : option (map_masters K) * option ds_inst_map :=
  (nfos_map_allocate_t malloc_ok rte_malloc_ok rlu_alloc key_size capacity,
   profiler_add_ds_inst di_map map_out filename lineno).

(** ** Operations *)

Definition add_chns {K} (d : Z) (e : nfos_map_entry K) : nfos_map_entry K :=
  MapEntry (busybits e) (khs e) (i32 (chns e + d)) (vals e) (key e).

Section operations.
Context {T K : Type} (map : NfosMap T K).

Fixpoint map_get_loop (k : K) (hash start : Z) (n : nat) (i : Z) : M T (option Z) :=
  match n with
  | O => ret None
  | S n' =>
      let index := Z.land (u32 (start + i)) (map_capacity map - 1) in
      let! entry := deref (map_entries map) index in
      if negb (busybits entry =? 0) && (khs entry =? hash) then
        if map_keys_eq map (key entry) k then ret (Some (vals entry))
        else map_get_loop k hash start n' (i + 1)
      else if chns entry =? 0 then ret None
      else map_get_loop k hash start n' (i + 1)
  end.

(** [Some v]: return 1 with *value_out = v; [None]: return 0. *)
Definition nfos_map_get_t (k : K) : M T (option Z) :=
  let hash := map_khash map k in
  let start := Z.land hash (map_capacity map - 1) in
  map_get_loop k hash start (Z.to_nat (map_capacity map)) 0.

(** for (k = lo; k < hi; k++) { lock entries[k]; entries[k]->chns += d; } *)
Definition update_chains (lo hi d : Z) : M T unit :=
  for_range lo (Z.to_nat (hi - lo)) (fun k =>
    lock (map_entries map) k ;;
    modify (map_entries map) k (add_chns d)).

Definition fill_entry (hash value : Z) (k : K) (e : nfos_map_entry K) : nfos_map_entry K :=
  MapEntry 1 hash (chns e) value k.

Fixpoint map_put_loop (k : K) (value hash start : Z) (n : nat) (i : Z) : M T bool :=
  match n with
  | O => ret false
  | S n' =>
      let index := Z.land (u32 (start + i)) (map_capacity map - 1) in
      let! entry := deref (map_entries map) index in
      if busybits entry =? 0 then
        if u32 (start + i) >=? map_capacity map then
          update_chains 0 (u32 (u32 (start + i) - map_capacity map)) 1 ;;
          lock (map_entries map) index ;;
          modify (map_entries map) index (fill_entry hash value k) ;;
          update_chains start (map_capacity map) 1 ;;
          ret true
        else
          update_chains start (u32 (start + i)) 1 ;;
          lock (map_entries map) index ;;
          modify (map_entries map) index (fill_entry hash value k) ;;
          ret true
      else map_put_loop k value hash start n' (i + 1)
  end.

Definition nfos_map_put_t (k : K) (value : Z) : M T bool :=
  let hash := map_khash map k in
  let start := Z.land hash (map_capacity map - 1) in
  map_put_loop k value hash start (Z.to_nat (map_capacity map)) 0.

Definition clear_busy (e : nfos_map_entry K) : nfos_map_entry K :=
  MapEntry 0 (khs e) (chns e) (vals e) (key e).

Fixpoint map_erase_loop (k : K) (hash start : Z) (n : nat) (i : Z) : M T bool :=
  match n with
  | O => ret false
  | S n' =>
      let index := Z.land (u32 (start + i)) (map_capacity map - 1) in
      let! entry := deref (map_entries map) index in
      if negb (busybits entry =? 0) && (khs entry =? hash) then
        if map_keys_eq map (key entry) k then
          if u32 (start + i) >=? map_capacity map then
            update_chains 0 (u32 (u32 (start + i) - map_capacity map)) (-1) ;;
            lock (map_entries map) index ;;
            modify (map_entries map) index clear_busy ;;
            update_chains start (map_capacity map) (-1) ;;
            ret true
          else
            update_chains start (u32 (start + i)) (-1) ;;
            lock (map_entries map) index ;;
            modify (map_entries map) index clear_busy ;;
            ret true
        else map_erase_loop k hash start n' (i + 1)
      else if chns entry =? 0 then ret false
      else map_erase_loop k hash start n' (i + 1)
  end.

Definition nfos_map_erase_t (k : K) : M T bool :=
  let hash := map_khash map k in
  let start := Z.land hash (map_capacity map - 1) in
  map_erase_loop k hash start (Z.to_nat (map_capacity map)) 0.

Context {P : Type} `{MvrluProfiler P}.

(** [key_bytes]: the bytes of the key, [map_key_size] of them. *)
Definition nfos_map_put_debug_t (thr_id addr : Z) (key_bytes : list Z) (k : K) (value : Z)
    : M ((P * ds_op_cache) * T) bool :=
  debug_op thr_id addr 2 0 key_bytes (nfos_map_put_t k value).
Definition nfos_map_erase_debug_t (thr_id addr : Z) (key_bytes : list Z) (k : K)
    : M ((P * ds_op_cache) * T) bool :=
  debug_op thr_id addr 2 1 key_bytes (nfos_map_erase_t k).
Definition nfos_map_get_debug_t (thr_id addr : Z) (key_bytes : list Z) (k : K)
    : M ((P * ds_op_cache) * T) (option Z) :=
  debug_op thr_id addr 2 2 key_bytes (nfos_map_get_t k).
End operations.

(** ** The representation invariant *)

Section invariant.
Context {K : Type} `{Countable K} (khash : K -> Z) (cap : Z).

(** The probe offset at which the key reaches slot [j]. *)
Definition dist (k : K) (j : Z) : Z := (j - khash k) mod cap.

Definition busy (e : nfos_map_entry K) : bool := negb (busybits e =? 0).

(** The key stored in slot [j] passes slot [i] when it is probed for. *)
Definition passes (m : Z -> nfos_map_entry K) (i j : Z) : Z :=
  if busy (m j) && (dist (key (m j)) i <? dist (key (m j)) j) then 1 else 0.

Record map_inv (m : Z -> nfos_map_entry K) (kv : gmap K Z) : Prop := {
  inv_busy j : 0 <= j < cap -> busy (m j) = true ->
    khs (m j) = khash (key (m j)) /\ kv !! key (m j) = Some (vals (m j));
  inv_stored k v : kv !! k = Some v ->
    exists j, 0 <= j < cap /\ busy (m j) = true /\ key (m j) = k;
  inv_unique j j' : 0 <= j < cap -> 0 <= j' < cap ->
    busy (m j) = true -> busy (m j') = true -> key (m j) = key (m j') -> j = j';
  inv_chns i : 0 <= i < cap -> chns (m i) = zsum (passes m i) (seqZ 0 cap)
}.

Lemma map_inv_ext m m' kv :
  (forall l, 0 <= l < cap -> m' l = m l) -> map_inv m kv -> map_inv m' kv.
Proof.
  intros E [Hb Hs Hu Hc]. split.
  - intros j Hj. rewrite E by done. by apply Hb.
  - intros k v Hk. destruct (Hs k v Hk) as (j & Hj & ? & ?). exists j. by rewrite E.
  - intros j j' Hj Hj'. rewrite !E by done. by apply Hu.
  - intros i Hi. rewrite E, Hc by done. apply zsum_ext. intros j Hj%elem_of_seqZ.
    unfold passes. rewrite E by lia. done.
Qed.

Context (Hcap : 0 < cap).

Lemma dist_bound k j : 0 <= dist k j < cap.
Proof. apply Z.mod_pos_bound. lia. Qed.

Lemma dist_inj k j j' :
  0 <= j < cap -> 0 <= j' < cap -> dist k j = dist k j' -> j = j'.
Proof.
  unfold dist. intros Hj Hj' E.
  pose proof (Z.div_mod (j - khash k) cap). pose proof (Z.div_mod (j' - khash k) cap).
  assert (j - j' = cap * ((j - khash k) / cap - (j' - khash k) / cap)) by lia.
  assert ((j - khash k) / cap - (j' - khash k) / cap = 0) by nia. lia.
Qed.

(** The slot probed at offset [i]. *)
Definition probe (k : K) (i : Z) : Z := (khash k mod cap + i) mod cap.

Lemma probe_bound k i : 0 <= probe k i < cap.
Proof. apply Z.mod_pos_bound. lia. Qed.

Lemma dist_probe k i : 0 <= i < cap -> dist k (probe k i) = i.
Proof.
  intros Hi. unfold dist, probe. rewrite Zminus_mod_idemp_l.
  replace (khash k mod cap + i - khash k) with (i + (- (khash k / cap)) * cap).
  - rewrite Z.mod_add by lia. by apply Z.mod_small.
  - pose proof (Z.div_mod (khash k) cap). lia.
Qed.

Lemma probe_dist k j : 0 <= j < cap -> probe k (dist k j) = j.
Proof.
  intros Hj. apply (dist_inj k); [apply probe_bound|done|].
  rewrite dist_probe by apply dist_bound. done.
Qed.

(** The slots a key passes, as the loops of put and erase enumerate them. *)
Lemma dist_lt k l i :
  0 <= l < cap -> 0 <= i < cap ->
  let start := khash k mod cap in
  dist k l < i <->
  if start + i >=? cap then start <= l \/ l < start + i - cap
  else start <= l < start + i.
Proof.
  intros Hl Hi start. subst start. unfold dist.
  set (s := khash k mod cap). assert (0 <= s < cap) by (apply Z.mod_pos_bound; lia).
  assert ((l - khash k) mod cap = if s <=? l then l - s else l - s + cap) as ->.
  { rewrite <- Zminus_mod_idemp_r. fold s. destruct (s <=? l) eqn:E.
    - rewrite Z.mod_small; lia.
    - rewrite <- (Z.mod_add _ 1) by lia. rewrite Z.mod_small; lia. }
  rewrite Z.geb_leb. destruct (s <=? l) eqn:E1, (cap <=? s + i) eqn:E2; lia.
Qed.

Lemma passes_range m i j : 0 <= passes m i j <= 1.
Proof. unfold passes. case_match; lia. Qed.

Lemma passes_self m i : passes m i i = 0.
Proof. unfold passes. rewrite Z.ltb_irrefl, andb_false_r. done. Qed.

Lemma chns_bound m i : 0 <= i < cap -> 0 <= zsum (passes m i) (seqZ 0 cap) < cap.
Proof.
  intros Hi. split; [apply zsum_nonneg; intros; apply passes_range|].
  pose (g := fun j => if decide (j = i) then 1 else passes m i j).
  assert (zsum g (seqZ 0 cap) = zsum (passes m i) (seqZ 0 cap) + (g i - passes m i i)) as E.
  { apply zsum_change; [apply NoDup_seqZ|apply elem_of_seqZ; lia|].
    intros y _ Hy. unfold g. by rewrite decide_False. }
  assert (zsum g (seqZ 0 cap) <= 1 * Z.of_nat (length (seqZ 0 cap))) as Hb.
  { apply zsum_bound; [|lia]. intros x _. unfold g.
    case_decide; [lia|apply passes_range]. }
  rewrite length_seqZ in Hb. unfold g at 2 in E. rewrite decide_True in E by done.
  rewrite passes_self in E. lia.
Qed.

(** The number of mappings is the number of busy slots. *)
Lemma map_inv_size m kv :
  map_inv m kv -> size kv = length (filter (fun j => busy (m j) = true) (seqZ 0 cap)).
Proof.
  intros [Hb Hs Hu _]. set (bs := filter _ _).
  assert (forall j, j ∈ bs <-> 0 <= j < cap /\ busy (m j) = true) as Hin.
  { intros j. unfold bs. rewrite list_elem_of_filter, elem_of_seqZ. naive_solver lia. }
  assert (NoDup (key ∘ m <$> bs)) as Hnd.
  { apply NoDup_fmap_2_strong.
    - intros j j' Hj Hj' E. apply Hin in Hj as [? ?], Hj' as [? ?]. by apply Hu.
    - apply NoDup_filter, NoDup_seqZ. }
  assert (dom kv = list_to_set (key ∘ m <$> bs)) as Hd.
  { apply set_eq. intros k. rewrite elem_of_list_to_set, list_elem_of_fmap, elem_of_dom. split.
    - intros [v Hv]. destruct (Hs k v Hv) as (j & Hj & Hbj & <-). exists j.
      split; [done|]. by apply Hin.
    - intros (j & -> & [Hj Hbj]%Hin). simpl. destruct (Hb j Hj Hbj) as [_ ->]. eauto. }
  rewrite <- size_dom, Hd, size_list_to_set by done. apply length_fmap.
Qed.

Lemma map_inv_full m kv :
  map_inv m kv -> (Z.of_nat (size kv) < cap <-> exists j, 0 <= j < cap /\ busy (m j) = false).
Proof.
  intros Hi. rewrite (map_inv_size m kv Hi). split.
  - intros Hlt. destruct (decide (Exists (fun j => busy (m j) = false) (seqZ 0 cap))) as [He|He].
    + apply Exists_exists in He as (j & Hj%elem_of_seqZ & Hbj). exists j. split; [lia|done].
    + exfalso. apply not_Exists_Forall in He; [|solve_decision].
      rewrite length_filter_full, length_seqZ in Hlt; [lia|].
      intros j Hj. rewrite Forall_forall in He. specialize (He j Hj).
      simpl in He. by destruct (busy (m j)).
  - intros (j & Hj & Hbj).
    enough (length (filter (fun j => busy (m j) = true) (seqZ 0 cap)) <
            length (seqZ 0 cap))%nat as Hl by (rewrite length_seqZ in Hl; lia).
    apply length_filter_strict with j; [apply elem_of_seqZ; lia|congruence].
Qed.

(** A lookup may stop at the first slot no key passes. *)
Lemma probe_stop m kv k i :
  map_inv m kv -> 0 <= i < cap ->
  (forall i', 0 <= i' < i -> ~ (busy (m (probe k i')) = true /\ key (m (probe k i')) = k)) ->
  ~ (busy (m (probe k i)) = true /\ khs (m (probe k i)) = khash k) ->
  chns (m (probe k i)) = 0 -> kv !! k = None.
Proof.
  intros [Hb Hs _ Hc] Hi Hbefore Hat H0. destruct (kv !! k) as [v|] eqn:Ek; [exfalso|done].
  destruct (Hs k v Ek) as (j & Hj & Hbj & <-). set (k := key (m j)) in *.
  rewrite <- (probe_dist k j Hj) in Hbj. pose proof (dist_bound k j).
  destruct (decide (dist k j < i)) as [Hlt|Hge].
  { apply (Hbefore (dist k j)); [lia|]. by rewrite probe_dist in Hbj |- *. }
  destruct (decide (dist k j = i)) as [<-|Hne].
  { apply Hat. rewrite probe_dist in * by done. split; [done|]. by apply Hb. }
  rewrite probe_dist in Hbj by done. pose proof (probe_bound k i).
  assert (passes m (probe k i) j = 1) as Hp.
  { unfold passes. rewrite Hbj. fold k. rewrite dist_probe by lia.
    rewrite (proj2 (Z.ltb_lt _ _)) by lia. done. }
  assert (passes m (probe k i) j <= zsum (passes m (probe k i)) (seqZ 0 cap)).
  { apply zsum_elem; [intros; apply passes_range|apply elem_of_seqZ; lia]. }
  rewrite <- Hc in * by done. lia.
Qed.

Lemma probe_all m kv k :
  map_inv m kv ->
  (forall i, 0 <= i < cap -> ~ (busy (m (probe k i)) = true /\ key (m (probe k i)) = k)) ->
  kv !! k = None.
Proof.
  intros [_ Hs _ _] Hall. destruct (kv !! k) as [v|] eqn:Ek; [exfalso|done].
  destruct (Hs k v Ek) as (j & Hj & Hbj & Hk). apply (Hall (dist k j)); [apply dist_bound|].
  by rewrite probe_dist.
Qed.

(** Changing the occupancy of one slot changes only its own passes. *)
Lemma passes_change m m' idx l :
  0 <= idx < cap ->
  (forall j, 0 <= j < cap -> j <> idx -> busy (m' j) = busy (m j) /\ key (m' j) = key (m j)) ->
  zsum (passes m' l) (seqZ 0 cap) =
  zsum (passes m l) (seqZ 0 cap) + (passes m' l idx - passes m l idx).
Proof.
  intros Hidx Hsame. apply zsum_change; [apply NoDup_seqZ|apply elem_of_seqZ; lia|].
  intros j Hj%elem_of_seqZ Hne. unfold passes.
  destruct (Hsame j) as [-> ->]; [lia|done|done].
Qed.

(** The array after put and erase, slot by slot. *)
Definition slot_update (d : Z) (upd : nfos_map_entry K -> nfos_map_entry K) (k : K)
    (i : Z) (m : Z -> nfos_map_entry K) (l : Z) : nfos_map_entry K :=
  if decide (l = probe k i) then upd (m l)
  else if decide (dist k l < i) then add_chns d (m l) else m l.

Context (Hcap31 : cap <= 2 ^ 31).

Lemma map_inv_put m kv k v i :
  map_inv m kv -> kv !! k = None -> 0 <= i < cap -> busy (m (probe k i)) = false ->
  map_inv (slot_update 1 (fill_entry (khash k) v k) k i m) (<[k := v]> kv).
Proof.
  intros Hi Hk Hbi Hfree. pose proof Hi as [Hb Hs Hu Hc].
  set (m' := slot_update _ _ _ _ _). pose proof (probe_bound k i) as Hp.
  assert (m' (probe k i) = fill_entry (khash k) v k (m (probe k i))) as Hm'.
  { unfold m', slot_update. by rewrite decide_True. }
  assert (forall j, j <> probe k i -> busy (m' j) = busy (m j) /\ key (m' j) = key (m j) /\
    khs (m' j) = khs (m j) /\ vals (m' j) = vals (m j)) as Hsame.
  { intros j Hj. unfold m', slot_update. rewrite decide_False by done. by case_decide. }
  assert (forall j, 0 <= j < cap -> busy (m j) = true -> key (m j) <> k) as Hnk.
  { intros j Hj Hbj <-. destruct (Hb j Hj Hbj). congruence. }
  split.
  - intros j Hj Hbj. destruct (decide (j = probe k i)) as [->|Hne].
    + rewrite Hm'. simpl. by rewrite lookup_insert_eq.
    + destruct (Hsame j Hne) as (Eb & Ek & Eh & Ev). rewrite Ek, Eh, Ev. rewrite Eb in Hbj.
      rewrite lookup_insert_ne by (intros E; by eapply Hnk). auto.
  - intros k' v' [[<- <-]|[Hne Hk']]%lookup_insert_Some.
    + exists (probe k i). by rewrite Hm'.
    + destruct (Hs k' v' Hk') as (j & Hj & Hbj & Hkj). exists j.
      destruct (Hsame j) as (-> & -> & _); [intros ->; congruence|done].
  - intros j j' Hj Hj'. destruct (decide (j = probe k i)) as [->|Hne], 
      (decide (j' = probe k i)) as [->|Hne']; try done.
    + destruct (Hsame j' Hne') as (-> & -> & _). rewrite Hm'. simpl. intros _ Hbj E.
      exfalso. by apply (Hnk j').
    + destruct (Hsame j Hne) as (-> & -> & _). rewrite Hm'. simpl. intros Hbj _ E.
      exfalso. by apply (Hnk j).
    + destruct (Hsame j Hne) as (-> & -> & _), (Hsame j' Hne') as (-> & -> & _). auto.
  - intros l Hl. pose proof (chns_bound m' l Hl) as Hbound.
    rewrite (passes_change m m' (probe k i) l) in Hbound |- *
      by (first [done | intros j _ Hj; destruct (Hsame j Hj) as (? & ? & _); done]).
    rewrite <- Hc in Hbound |- * by done.
    assert (passes m l (probe k i) = 0) as E0 by (unfold passes; by rewrite Hfree).
    assert (passes m' l (probe k i) = if decide (dist k l < i) then 1 else 0) as E1.
    { unfold passes. rewrite Hm'. simpl. rewrite dist_probe by done.
      case_decide; [rewrite (proj2 (Z.ltb_lt _ _))|rewrite (proj2 (Z.ltb_ge _ _))]; try lia. }
    rewrite E0, E1 in Hbound |- *. unfold m', slot_update.
    destruct (decide (l = probe k i)) as [->|Hne].
    + rewrite dist_probe, decide_False by lia. simpl. lia.
    + case_decide; simpl; [|lia]. rewrite i32_id by lia. lia.
Qed.

Lemma map_inv_erase m kv k i :
  map_inv m kv -> 0 <= i < cap ->
  busy (m (probe k i)) = true -> key (m (probe k i)) = k ->
  map_inv (slot_update (-1) clear_busy k i m) (delete k kv).
Proof.
  intros Hi Hbi Hbusy Hkey. pose proof Hi as [Hb Hs Hu Hc].
  set (m' := slot_update _ _ _ _ _). pose proof (probe_bound k i) as Hp.
  assert (m' (probe k i) = clear_busy (m (probe k i))) as Hm'.
  { unfold m', slot_update. by rewrite decide_True. }
  assert (forall j, j <> probe k i -> busy (m' j) = busy (m j) /\ key (m' j) = key (m j) /\
    khs (m' j) = khs (m j) /\ vals (m' j) = vals (m j)) as Hsame.
  { intros j Hj. unfold m', slot_update. rewrite decide_False by done. by case_decide. }
  assert (forall j, 0 <= j < cap -> busy (m' j) = true -> j <> probe k i) as Hne.
  { intros j Hj Hbj ->. by rewrite Hm' in Hbj. }
  split.
  - intros j Hj Hbj. pose proof (Hne j Hj Hbj) as Hn.
    destruct (Hsame j Hn) as (Eb & Ek & Eh & Ev). rewrite Ek, Eh, Ev. rewrite Eb in Hbj.
    destruct (Hb j Hj Hbj). rewrite lookup_delete_ne; [done|]. intros E.
    apply Hn. apply Hu; auto. congruence.
  - intros k' v' [Hk' Hv']%lookup_delete_Some.
    destruct (Hs k' v' Hv') as (j & Hj & Hbj & Hkj). exists j.
    destruct (Hsame j) as (-> & -> & _); [intros ->; congruence|done].
  - intros j j' Hj Hj' Hbj Hbj'. pose proof (Hne _ Hj Hbj) as Hn.
    pose proof (Hne _ Hj' Hbj') as Hn'. revert Hbj Hbj'.
    destruct (Hsame j Hn) as (-> & -> & _), (Hsame j' Hn') as (-> & -> & _). auto.
  - intros l Hl. pose proof (chns_bound m l Hl) as Hbound.
    pose proof (chns_bound m' l Hl) as Hbound'.
    rewrite (passes_change m m' (probe k i) l) in Hbound' |- *
      by (first [done | intros j _ Hj; destruct (Hsame j Hj) as (? & ? & _); done]).
    rewrite <- Hc in Hbound, Hbound' |- * by done.
    assert (passes m' l (probe k i) = 0) as E0 by (unfold passes; by rewrite Hm').
    assert (passes m l (probe k i) = if decide (dist k l < i) then 1 else 0) as E1.
    { unfold passes. rewrite Hbusy, Hkey. simpl. rewrite dist_probe by done.
      case_decide; [rewrite (proj2 (Z.ltb_lt _ _))|rewrite (proj2 (Z.ltb_ge _ _))]; lia. }
    rewrite E0, E1 in Hbound' |- *. unfold m', slot_update.
    destruct (decide (l = probe k i)) as [->|Hn].
    + rewrite dist_probe, decide_False by lia. simpl. lia.
    + case_decide; simpl; [|lia]. rewrite i32_id by lia. lia.
Qed.
End invariant.

(** ** The operations implement the finite map *)

(** What the configuration of a map promises: the capacity is a power of two
    that fits an int (nfos_map_allocate rounds up to it), the hash is an
    unsigned int and the equality function decides equality of keys. *)
Class MapConfig {T K} `{EqDecision K} (map : NfosMap T K) := {
  cap_log : Z;
  cap_log_bound : 0 <= cap_log <= 31;
  map_cap_pow2 : map_capacity map = 2 ^ cap_log;
  map_khash_range k : 0 <= map_khash map k < 2 ^ 32;
  map_keys_eq_spec k k' : map_keys_eq map k k' = true <-> k = k'
}.

(** In [t] the map holds exactly the mappings [kv]. *)
Definition map_rep {T K} `{Countable K} (map : NfosMap T K) (t : T) (kv : gmap K Z) : Prop :=
  map_inv (map_khash map) (map_capacity map) (view (map_entries map) t) kv.

Section map_wp.
Context {T K : Type} `{Countable K} `{RluTxn T} (map : NfosMap T K).
Context `{!RluLaws (map_entries map), !MapConfig map}.
Context (R : T -> T -> Prop) `{!TxnRel R, !MemRel (map_entries map) R}.
Let cap := map_capacity map.
Let prb := probe (map_khash map) cap.
Let inv := map_inv (map_khash map) cap.

Lemma cap_bound : 0 < cap <= 2 ^ 31.
Proof.
  unfold cap. rewrite map_cap_pow2. pose proof cap_log_bound. split; [lia|].
  apply Z.pow_le_mono_r; lia.
Qed.

Lemma cap_mask x : Z.land x (cap - 1) = x mod cap.
Proof. unfold cap. rewrite map_cap_pow2. apply land_mask. pose proof cap_log_bound. lia. Qed.

(** The loops' index arithmetic does not wrap around. *)
Lemma start_index k i :
  0 <= i < cap ->
  u32 (map_khash map k mod cap + i) = map_khash map k mod cap + i.
Proof.
  intros Hi. pose proof cap_bound.
  pose proof (Z.mod_pos_bound (map_khash map k) cap). apply u32_id. lia.
Qed.

Lemma probe_index k i :
  0 <= i < cap ->
  Z.land (u32 (map_khash map k mod cap + i)) (cap - 1) = prb k i.
Proof. intros Hi. rewrite start_index by done. apply cap_mask. Qed.

Lemma wp_update_chains lo hi d t f ls (Q : unit -> T -> Prop) :
  lo <= hi -> holds (map_entries map) t f ls ->
  (forall t', holds (map_entries map) t'
     (fun l => if decide (lo <= l < hi) then add_chns d (f l) else f l) [] -> Q tt t') ->
  wp R (update_chains map lo hi d) t Q.
Proof.
  intros Hle Hh HQ. unfold update_chains.
  pose (I := fun j t => holds (map_entries map) t
     (fun l => if decide (lo <= l < j) then add_chns d (f l) else f l) []).
  eapply wp_mono; [|apply (wp_for_range R I)].
  - intros [] t' _ HI. apply HQ. unfold I in HI.
    by replace (lo + Z.of_nat (Z.to_nat (hi - lo))) with hi in HI by lia.
  - destruct Hh as [Hv _]. split; [|set_solver]. intros l.
    rewrite decide_False by lia. apply Hv.
  - intros j t' Hj HI. unfold I in HI. do 3 wstep. rename Hh0 into Hh'.
    destruct Hh' as [Hv _]. split; [|set_solver]. intros l. rewrite Hv, fn_insert_dec.
    repeat case_decide; subst; try lia; done.
Qed.

Lemma wp_get_loop k kv t (Q : option Z -> T -> Prop) n : forall i,
  map_rep map t kv -> i + Z.of_nat n = cap -> 0 <= i ->
  (forall i', 0 <= i' < i -> ~ (busy (view (map_entries map) t (prb k i')) = true /\
     key (view (map_entries map) t (prb k i')) = k)) ->
  Q (kv !! k) t ->
  wp R (map_get_loop map k (map_khash map k) (map_khash map k mod cap) n i) t Q.
Proof.
  pose proof cap_bound as Hcap.
  induction n as [|n IH]; intros i Hr Hn Hi Hb HQ; cbn [map_get_loop].
  - wstep. rewrite (probe_all _ _ (proj1 Hcap) _ _ _ Hr) in HQ; [done|].
    intros i' Hi'. apply Hb. lia.
  - pose proof (holds_view (map_entries map) t) as Hh. wstep. wstep.
    fold cap. rewrite probe_index by lia. set (e := view _ t _).
    pose proof (probe_bound (map_khash map) cap (proj1 Hcap) k i) as Hp.
    destruct (negb (busybits e =? 0) && (khs e =? map_khash map k)) eqn:Em.
    + apply andb_true_iff in Em as [Eb Eh]. destruct (map_keys_eq map (key e) k) eqn:Ek.
      * apply map_keys_eq_spec in Ek. wstep.
        destruct (inv_busy _ _ _ _ Hr (prb k i) Hp Eb) as [_ Hv].
        unfold e in Ek |- *. rewrite Ek in Hv. by rewrite <- Hv.
      * apply IH; [done|lia|lia| |done]. intros i' Hi' [Hbi Hki].
        destruct (decide (i' = i)) as [->|]; [|apply (Hb i'); [lia|done]].
        fold e in Hki. apply map_keys_eq_spec in Hki. congruence.
    + assert (~ (busy e = true /\ khs e = map_khash map k)) as Hno.
      { intros [Eb Eh]. unfold busy in Eb. rewrite Eb, Eh, Z.eqb_refl in Em. done. }
      destruct (Z.eqb_spec (chns e) 0) as [E0|E0].
      * wstep. rewrite (probe_stop _ _ (proj1 Hcap) _ _ _ i Hr) in HQ; [done|lia|done|done|done].
      * apply IH; [done|lia|lia| |done]. intros i' Hi' [Hbi Hki].
        destruct (decide (i' = i)) as [->|]; [|apply (Hb i'); [lia|done]].
        apply Hno. split; [done|]. rewrite <- Hki. by apply (inv_busy _ _ _ _ Hr (prb k i)).
Qed.

Lemma wp_map_get k kv t (Q : option Z -> T -> Prop) :
  map_rep map t kv -> Q (kv !! k) t -> wp R (nfos_map_get_t map k) t Q.
Proof.
  intros Hr HQ. pose proof cap_bound. unfold nfos_map_get_t. fold cap. rewrite cap_mask.
  eapply wp_get_loop; [done|lia|lia| |done]. intros i' Hi'. lia.
Qed.

(** The update both put and erase end with: the chains in index order, the
    slot itself between the wrapped part and the rest. *)
Lemma wp_slot_update d upd k i t (Q : bool -> T -> Prop) :
  let start := map_khash map k mod cap in
  0 <= i < cap ->
  (forall t', (forall l, 0 <= l < cap -> view (map_entries map) t' l =
      slot_update (map_khash map) cap d upd k i (view (map_entries map) t) l) ->
     Q true t') ->
  wp R (if u32 (start + i) >=? cap then
          update_chains map 0 (u32 (u32 (start + i) - cap)) d ;;
          lock (map_entries map) (prb k i) ;;
          modify (map_entries map) (prb k i) upd ;;
          update_chains map start cap d ;;
          ret true
        else
          update_chains map start (u32 (start + i)) d ;;
          lock (map_entries map) (prb k i) ;;
          modify (map_entries map) (prb k i) upd ;;
          ret true) t Q.
Proof.
  intros start Hi HQ. pose proof cap_bound as Hcap.
  pose proof (dist_lt (map_khash map) cap (proj1 Hcap) k) as Hd. fold start in Hd.
  assert (0 <= start < cap) as Hs by (apply Z.mod_pos_bound; lia).
  assert (u32 (start + i) = start + i) as Eu by (by apply start_index). rewrite !Eu. clear Eu.
  pose proof (holds_view (map_entries map) t) as Hh.
  assert (prb k i = (start + i) mod cap) as Hprb by done.
  destruct (Z.geb_spec (start + i) cap) as [Hge|Hlt].
  - rewrite u32_id by lia.
    rewrite <- (Z.mod_add _ (-1)), Z.mod_small in Hprb by lia.
    wstep. eapply wp_update_chains; [lia|done|]. intros ta Hh1.
    do 4 wstep. wstep. eapply wp_update_chains; [lia|done|]. intros tb [Hv _].
    wstep. apply HQ. intros l Hl. rewrite Hv. unfold slot_update. fold prb.
    rewrite !fn_insert_dec. specialize (Hd l i Hl Hi). cbv zeta in Hd.
    replace (start + i >=? cap) with true in Hd by lia.
    repeat case_decide; subst; try lia; try done.
  - rewrite Z.mod_small in Hprb by lia.
    wstep. eapply wp_update_chains; [lia|done|]. intros ta Hh1.
    do 4 wstep. wstep. apply HQ. intros l Hl.
    rewrite (proj1 Hh0). unfold slot_update. fold prb.
    rewrite !fn_insert_dec. specialize (Hd l i Hl Hi). cbv zeta in Hd.
    replace (start + i >=? cap) with false in Hd by lia.
    repeat case_decide; subst; try lia; try done.
Qed.

Lemma wp_put_loop k kv value t (Q : bool -> T -> Prop) n : forall i,
  map_rep map t kv -> kv !! k = None -> i + Z.of_nat n = cap -> 0 <= i ->
  (forall i', 0 <= i' < i -> busy (view (map_entries map) t (prb k i')) = true) ->
  (Z.of_nat (size kv) < cap -> forall t', map_rep map t' (<[k := value]> kv) -> Q true t') ->
  (cap <= Z.of_nat (size kv) -> Q false t) ->
  wp R (map_put_loop map k value (map_khash map k) (map_khash map k mod cap) n i) t Q.
Proof.
  pose proof cap_bound as Hcap.
  induction n as [|n IH]; intros i Hr Hk Hn Hi Hb HQ HQ'; cbn [map_put_loop].
  - wstep. apply HQ'. apply Z.nlt_ge. rewrite (map_inv_full _ _ (proj1 Hcap) _ _ Hr).
    intros (j & Hj & Hbj). rewrite <- (probe_dist (map_khash map) cap (proj1 Hcap) k j Hj) in Hbj.
    fold prb in Hbj. rewrite Hb in Hbj; [done|].
    pose proof (dist_bound (map_khash map) cap (proj1 Hcap) k j). lia.
  - pose proof (holds_view (map_entries map) t) as Hh. wstep. wstep.
    fold cap. rewrite probe_index by lia. set (e := view _ t _).
    pose proof (probe_bound (map_khash map) cap (proj1 Hcap) k i) as Hp.
    destruct (Z.eqb_spec (busybits e) 0) as [Eb|Eb].
    + apply (wp_slot_update 1 (fill_entry (map_khash map k) value k) k i); [lia|].
      intros t' Hv. apply HQ.
      * rewrite (map_inv_full _ _ (proj1 Hcap) _ _ Hr). exists (prb k i). split; [done|].
        unfold busy. fold e. by rewrite Eb.
      * eapply map_inv_ext; [exact Hv|].
        apply map_inv_put; try done; try lia. unfold busy. fold prb e. by rewrite Eb.
    + apply IH; try done; try lia. intros i' Hi'.
      destruct (decide (i' = i)) as [->|]; [|apply Hb; lia].
      unfold busy. fold e. by apply negb_true_iff, Z.eqb_neq.
Qed.

Lemma wp_map_put k kv value t (Q : bool -> T -> Prop) :
  map_rep map t kv -> kv !! k = None ->
  (Z.of_nat (size kv) < cap -> forall t', map_rep map t' (<[k := value]> kv) -> Q true t') ->
  (cap <= Z.of_nat (size kv) -> Q false t) ->
  wp R (nfos_map_put_t map k value) t Q.
Proof.
  intros Hr Hk HQ HQ'. pose proof cap_bound. unfold nfos_map_put_t. fold cap.
  rewrite cap_mask. apply (wp_put_loop k kv); try done; try lia.
Qed.

Lemma wp_erase_loop k kv t (Q : bool -> T -> Prop) n : forall i,
  map_rep map t kv -> i + Z.of_nat n = cap -> 0 <= i ->
  (forall i', 0 <= i' < i -> ~ (busy (view (map_entries map) t (prb k i')) = true /\
     key (view (map_entries map) t (prb k i')) = k)) ->
  (is_Some (kv !! k) -> forall t', map_rep map t' (delete k kv) -> Q true t') ->
  (kv !! k = None -> Q false t) ->
  wp R (map_erase_loop map k (map_khash map k) (map_khash map k mod cap) n i) t Q.
Proof.
  pose proof cap_bound as Hcap.
  induction n as [|n IH]; intros i Hr Hn Hi Hb HQ HQ'; cbn [map_erase_loop].
  - wstep. apply HQ'. apply (probe_all _ _ (proj1 Hcap) _ _ _ Hr).
    intros i' Hi'. apply Hb. lia.
  - pose proof (holds_view (map_entries map) t) as Hh. wstep. wstep.
    fold cap. rewrite probe_index by lia. set (e := view _ t _).
    pose proof (probe_bound (map_khash map) cap (proj1 Hcap) k i) as Hp.
    destruct (negb (busybits e =? 0) && (khs e =? map_khash map k)) eqn:Em.
    + apply andb_true_iff in Em as [Eb Eh]. destruct (map_keys_eq map (key e) k) eqn:Ek.
      * apply map_keys_eq_spec in Ek.
        apply (wp_slot_update (-1) clear_busy k i); [lia|]. intros t' Hv. apply HQ.
        -- destruct (inv_busy _ _ _ _ Hr (prb k i) Hp Eb) as [_ Hkv].
           unfold e in Ek. rewrite Ek in Hkv. eauto.
        -- eapply map_inv_ext; [exact Hv|]. apply map_inv_erase; (done || lia).
      * apply IH; try done; try lia. intros i' Hi' [Hbi Hki].
        destruct (decide (i' = i)) as [->|]; [|apply (Hb i'); [lia|done]].
        fold e in Hki. apply map_keys_eq_spec in Hki. congruence.
    + assert (~ (busy e = true /\ khs e = map_khash map k)) as Hno.
      { intros [Eb Eh]. unfold busy in Eb. rewrite Eb, Eh, Z.eqb_refl in Em. done. }
      destruct (Z.eqb_spec (chns e) 0) as [E0|E0].
      * wstep. apply HQ'. apply (probe_stop _ _ (proj1 Hcap) _ _ _ i Hr); (done || lia).
      * apply IH; try done; try lia. intros i' Hi' [Hbi Hki].
        destruct (decide (i' = i)) as [->|]; [|apply (Hb i'); [lia|done]].
        apply Hno. split; [done|]. rewrite <- Hki. by apply (inv_busy _ _ _ _ Hr (prb k i)).
Qed.

Lemma wp_map_erase k kv t (Q : bool -> T -> Prop) :
  map_rep map t kv ->
  (is_Some (kv !! k) -> forall t', map_rep map t' (delete k kv) -> Q true t') ->
  (kv !! k = None -> Q false t) ->
  wp R (nfos_map_erase_t map k) t Q.
Proof.
  intros Hr HQ HQ'. pose proof cap_bound. unfold nfos_map_erase_t. fold cap.
  rewrite cap_mask. apply (wp_erase_loop k kv); try done; try lia.
Qed.
End map_wp.

(** ** next_pow2 *)

(** [smear k x]: the bits of [x] copied onto their [k-1] lower neighbours. *)
Lemma smear_bits x m n :
  0 <= x -> 0 <= m -> 0 <= n ->
  (forall y, 0 <= y ->
     Z.testbit x y = true <-> exists d, 0 <= d < m /\ Z.testbit n (y + d) = true) ->
  (forall y, 0 <= y -> Z.testbit (Z.lor x (Z.shiftr x m)) y = true <->
     exists d, 0 <= d < 2 * m /\ Z.testbit n (y + d) = true).
Proof.
  intros Hx Hm Hn Hb y Hy. rewrite Z.lor_spec, Z.shiftr_spec, orb_true_iff by lia.
  rewrite !Hb by lia. split.
  - intros [(d & Hd & Ht)|(d & Hd & Ht)]; [exists d|exists (m + d)].
    + split; [lia|done].
    + split; [lia|]. by rewrite Z.add_assoc.
  - intros (d & Hd & Ht). destruct (decide (d < m)); [left; exists d|right; exists (d - m)].
    + split; [lia|done].
    + split; [lia|]. by replace (y + m + (d - m)) with (y + d) by lia.
Qed.

Definition pow2_smear (v : Z) : Z :=
  let v := Z.lor v (Z.shiftr v 1) in
  let v := Z.lor v (Z.shiftr v 2) in
  let v := Z.lor v (Z.shiftr v 4) in
  let v := Z.lor v (Z.shiftr v 8) in
  Z.lor v (Z.shiftr v 16).

Lemma pow2_smear_spec n : 0 < n < 2 ^ 32 -> pow2_smear n = 2 ^ (Z.log2 n + 1) - 1.
Proof.
  intros Hn. pose proof (Z.log2_nonneg n) as Hl0.
  assert (Z.log2 n < 32) as Hl by (apply Z.log2_lt_pow2; lia).
  replace (2 ^ (Z.log2 n + 1) - 1) with (Z.ones (Z.log2 n + 1)) by (rewrite Z.ones_equiv; lia).
  assert (forall y, 0 <= y -> Z.testbit n y = true <->
    exists d, 0 <= d < 1 /\ Z.testbit n (y + d) = true) as Hs0.
  { intros y Hy. split.
    - intros. exists 0. split; [lia|]. by rewrite Z.add_0_r.
    - intros (d & Hd & Ht). by replace (y + d) with y in Ht by lia. }
  unfold pow2_smear.
  assert (forall a b, 0 <= a -> 0 <= Z.lor a (Z.shiftr a b)) as Hnn.
  { intros. apply Z.lor_nonneg. split; [done|]. by apply Z.shiftr_nonneg. }
  set (n1 := Z.lor n (Z.shiftr n 1)). assert (0 <= n1) by (apply Hnn; lia).
  set (n2 := Z.lor n1 (Z.shiftr n1 2)). assert (0 <= n2) by (by apply Hnn).
  set (n3 := Z.lor n2 (Z.shiftr n2 4)). assert (0 <= n3) by (by apply Hnn).
  set (n4 := Z.lor n3 (Z.shiftr n3 8)). assert (0 <= n4) by (by apply Hnn).
  pose proof (smear_bits n 1 n ltac:(lia) ltac:(lia) ltac:(lia) Hs0) as Hs1.
  pose proof (smear_bits n1 2 n ltac:(lia) ltac:(lia) ltac:(lia) Hs1) as Hs2.
  pose proof (smear_bits n2 4 n ltac:(lia) ltac:(lia) ltac:(lia) Hs2) as Hs3.
  pose proof (smear_bits n3 8 n ltac:(lia) ltac:(lia) ltac:(lia) Hs3) as Hs4.
  pose proof (smear_bits n4 16 n ltac:(lia) ltac:(lia) ltac:(lia) Hs4) as Hs5.
  apply Z.bits_inj'. intros y Hy. apply eq_true_iff_eq. rewrite Hs5 by done.
  rewrite Z.testbit_ones_nonneg, Z.ltb_lt by lia. split.
  - intros (d & Hd & Ht). apply Z.nle_gt. intros Hge.
    rewrite Z.bits_above_log2 in Ht by lia. done.
  - intros Hlt. exists (Z.log2 n - y). split; [lia|].
    replace (y + (Z.log2 n - y)) with (Z.log2 n) by lia. apply Z.bit_log2. lia.
Qed.

Lemma next_pow2_up v : 1 < v <= 2 ^ 31 -> next_pow2 v = 2 ^ Z.log2_up v.
Proof.
  intros Hv. change (next_pow2 v) with (u32 (pow2_smear (u32 (v - 1)) + 1)).
  rewrite (u32_id (v - 1)) by lia.
  rewrite pow2_smear_spec by lia. rewrite Z.log2_up_eqn by lia.
  rewrite <- Z.sub_1_r. pose proof (Z.log2_nonneg (v - 1)).
  assert (Z.log2 (v - 1) < 31) by (apply Z.log2_lt_pow2; lia).
  replace (2 ^ (Z.log2 (v - 1) + 1) - 1 + 1) with (2 ^ Z.succ (Z.log2 (v - 1)))
    by (rewrite Z.add_1_r; lia).
  apply u32_id. split; [lia|]. apply Z.pow_lt_mono_r; lia.
Qed.

Lemma next_pow2_large v : 2 ^ 31 < v < 2 ^ 32 -> next_pow2 v = 0.
Proof.
  intros Hv. change (next_pow2 v) with (u32 (pow2_smear (u32 (v - 1)) + 1)).
  rewrite (u32_id (v - 1)) by lia.
  rewrite pow2_smear_spec by lia.
  assert (Z.log2 (v - 1) = 31) as -> by (apply Z.log2_unique; lia). done.
Qed.

Lemma map_reset_loop_spec {K} n : forall i (es : Z -> nfos_map_entry K) l,
  map_reset_loop n i es l =
  if decide (i <= l < i + Z.of_nat n) then entry_reset (es l) else es l.
Proof.
  induction n as [|n IH]; intros i es l; cbn [map_reset_loop].
  - rewrite decide_False by lia. done.
  - rewrite IH. destruct (decide (l = i)) as [->|Hne].
    + rewrite decide_False, decide_True, fn_lookup_insert by lia. done.
    + rewrite fn_lookup_insert_ne by done. do 2 case_decide; (done || lia).
Qed.

Lemma map_inv_empty {K} `{Countable K} (khash : K -> Z) cap (m : Z -> nfos_map_entry K) :
  (forall i, 0 <= i < cap -> busybits (m i) = 0 /\ chns (m i) = 0) ->
  map_inv khash cap m ∅.
Proof.
  intros Hm. assert (forall i, 0 <= i < cap -> busy (m i) = false) as Hb.
  { intros i Hi. unfold busy. by destruct (Hm i Hi) as [-> _]. }
  split.
  - intros j Hj Hbj. by rewrite Hb in Hbj.
  - intros k v Hk. by rewrite lookup_empty in Hk.
  - intros j j' Hj _ Hbj. by rewrite Hb in Hbj.
  - intros i Hi. destruct (Hm i Hi) as [_ ->]. symmetry.
    rewrite (zsum_ext _ (fun _ => 0)); [by induction (seqZ 0 cap)|].
    intros j Hj%elem_of_seqZ. unfold passes. by rewrite Hb by lia.
Qed.

Lemma next_pow2_pow v :
  1 <= v <= 2 ^ 31 -> exists p, 0 <= p <= 31 /\ next_pow2 v = 2 ^ p /\ v <= 2 ^ p < 2 * v.
Proof.
  intros Hv. destruct (decide (v = 1)) as [->|]; [by exists 0|].
  exists (Z.log2_up v). rewrite next_pow2_up by lia.
  pose proof (Z.log2_up_spec v ltac:(lia)) as [Hlo Hhi].
  assert (Z.log2_up v <= 31) by (apply Z.log2_up_le_pow2; lia).
  pose proof (Z.log2_up_nonneg v). do 2 (split; [done|]). split; [done|].
  assert (2 ^ Z.log2_up v = 2 * 2 ^ Z.pred (Z.log2_up v)) as ->; [|lia].
  rewrite <- Z.pow_succ_r; [f_equal; lia|]. pose proof (Z.log2_up_pos v). lia.
Qed.

(** ** Properties *)

(** Next_pow2 gives the least power of two that is at least its argument,
    for 1 to 2^31; beyond, where no 32-bit power of two exists, and for 0, it
    gives 0. *)
Theorem next_pow2_spec (v : Z) (Hv : 0 <= v < 2 ^ 32) :
  if (1 <=? v) && (v <=? 2 ^ 31) then
    exists p, 0 <= p <= 31 /\ next_pow2 v = 2 ^ p /\ v <= 2 ^ p < 2 * v
  else next_pow2 v = 0.
Proof.
  destruct (Z.leb_spec 1 v), (Z.leb_spec v (2 ^ 31)); cbn [andb].
  - by apply next_pow2_pow.
  - apply next_pow2_large. lia.
  - by replace v with 0 by lia.
  - by replace v with 0 by lia.
Qed.

Lemma next_pow2_spec_witness : next_pow2 33 = 64 /\ exists p, 0 <= p <= 31 /\
  next_pow2 33 = 2 ^ p /\ 33 <= 2 ^ p < 2 * 33.
Proof.
  split; [vm_compute; reflexivity|]. apply (next_pow2_spec 33). lia.
Defined.

(** A map that nfos_map_allocate returns has the least power of two of
    slots that holds the requested capacity and represents the empty map,
    whatever the memory RLU_ALLOC returned contains. *)
Theorem nfos_map_allocate_empty {K} `{Countable K} (khash : K -> Z) (malloc_ok rte_ok : bool)
    (rlu_alloc : Z -> nfos_map_entry K) (key_size capacity : Z)
    (Hc : 1 <= capacity <= 2 ^ 31) :
  match nfos_map_allocate_t malloc_ok rte_ok rlu_alloc key_size capacity with
  | Some mm => malloc_ok && rte_ok = true /\
      (exists p, 0 <= p <= 31 /\ mm_capacity mm = 2 ^ p) /\
      capacity <= mm_capacity mm < 2 * capacity /\
      map_inv khash (mm_capacity mm) (mm_entries mm) ∅
  | None => malloc_ok && rte_ok = false
  end.
Proof.
  unfold nfos_map_allocate_t. destruct malloc_ok, rte_ok; simpl; try done.
  assert (next_pow2 capacity = 2 ^ Z.log2_up capacity) as ->.
  { destruct (decide (capacity = 1)) as [->|]; [done|]. apply next_pow2_up. lia. }
  assert (Z.log2_up capacity <= 31) by (apply Z.log2_up_le_pow2; lia).
  pose proof (Z.log2_up_nonneg capacity). split; [done|]. split; [by eexists|].
  assert (capacity <= 2 ^ Z.log2_up capacity) by (apply Z.log2_up_le_pow2; lia).
  split; [split; [done|]|].
  - destruct (decide (capacity = 1)) as [->|]; [done|].
    pose proof (Z.log2_up_spec capacity ltac:(lia)) as [Hlo _].
    pose proof (Z.log2_up_pos capacity ltac:(lia)).
    replace (2 ^ Z.log2_up capacity) with (2 * 2 ^ Z.pred (Z.log2_up capacity))
      by (rewrite <- Z.pow_succ_r by lia; f_equal; lia). lia.
  - apply map_inv_empty. intros i Hi. rewrite map_reset_loop_spec, decide_True by lia. done.
Qed.

(** A map with integer keys over the single-array transaction. *)
Definition snap_map (n : Z) : NfosMap (snap_txn (nfos_map_entry Z)) Z :=
  {| map_entries := snap_mem; map_key_size := 4; map_capacity := n;
     map_keys_eq := Z.eqb; map_khash := u32 |}.
#[export] Instance snap_map_config : MapConfig (snap_map 4).
Proof.
  apply (Build_MapConfig _ _ _ (snap_map 4) 2); [lia|done| |].
  - intros k. apply wrap_range. lia.
  - intros k k'. apply Z.eqb_eq.
Defined.
Definition free_entry : nfos_map_entry Z := MapEntry 0 0 0 0 0.
Definition empty_map_txn : snap_txn (nfos_map_entry Z) :=
  SnapTxn (fun _ => free_entry) ∅ (fun _ => false).
Definition full_map_txn : snap_txn (nfos_map_entry Z) :=
  SnapTxn (slot_update u32 4 1 (fill_entry 7 70 7) 7 0 (fun _ => free_entry)) ∅ (fun _ => false).
Lemma empty_map_rep : map_rep (snap_map 4) empty_map_txn ∅.
Proof. by apply map_inv_empty. Qed.
Lemma full_map_rep : map_rep (snap_map 4) full_map_txn {[7 := 70]}.
Proof.
  unfold map_rep. apply (map_inv_ext _ _
    (slot_update u32 4 1 (fill_entry 7 70 7) 7 0 (fun _ => free_entry))); [done|].
  apply (map_inv_put u32 4 ltac:(lia) ltac:(lia) (fun _ => free_entry) ∅ 7 70 0); [|done|lia|done].
  by apply map_inv_empty.
Qed.

(** A lookup only reads. *)
Lemma map_get_reads {T K} (map : NfosMap T K) k hash start n : forall i t,
  exists r, map_get_loop map k hash start n i t = (Some r, t).
Proof.
  induction n as [|n IH]; intros i t; simpl; [by eexists|].
  unfold bind, deref. repeat case_match; simpl; eauto; by eexists.
Qed.

(** C16: nfos_map_get never aborts, changes nothing and returns the value the
    represented map gives to the key, if any: stopping at a slot whose chain
    counter is 0 loses no key. *)
Theorem nfos_map_get_spec {T K} `{Countable K} `{RluTxn T} (map : NfosMap T K)
    `{!RluLaws (map_entries map), !MapConfig map} (k : K) (kv : gmap K Z) (t : T)
    (Hr : map_rep map t kv) :
  nfos_map_get_t map k t = (Some (kv !! k), t).
Proof.
  pose proof (wp_map_get map (mem_steps (map_entries map)) k kv t
    (fun r t' => r = kv !! k) Hr eq_refl) as Hwp.
  apply wp_run in Hwp. unfold nfos_map_get_t in *.
  destruct (map_get_reads map k (map_khash map k)
    (Z.land (map_khash map k) (map_capacity map - 1)) (Z.to_nat (map_capacity map)) 0 t) as [r E].
  rewrite E in Hwp |- *. by subst.
Qed.

Lemma nfos_map_get_spec_witness :
  nfos_map_get_t (snap_map 4) 7 full_map_txn = (Some (Some 70), full_map_txn) /\
  nfos_map_get_t (snap_map 4) 7 full_map_txn =
    (Some (({[7 := 70]} : gmap Z Z) !! 7), full_map_txn).
Proof.
  split; [vm_compute; reflexivity|].
  apply (nfos_map_get_spec (snap_map 4) 7 {[7 := 70]} full_map_txn full_map_rep).
Defined.

(** C15: nfos_map_put of an absent key inserts the mapping exactly when the map
    has room, and otherwise returns 0 and changes nothing; when it aborts, a
    lock was refused because of another thread. *)
Theorem nfos_map_put_spec {T K} `{Countable K} `{RluTxn T} (map : NfosMap T K)
    `{!RluLaws (map_entries map), !MapConfig map} (k : K) (value : Z) (kv : gmap K Z) (t : T)
    (Hr : map_rep map t kv) (Hk : kv !! k = None) :
  match nfos_map_put_t map k value t with
  | (Some true, t') => Z.of_nat (size kv) < map_capacity map /\
                       map_rep map t' (<[k := value]> kv)
  | (Some false, t') => map_capacity map <= Z.of_nat (size kv) /\ t' = t
  | (None, _) => ~ no_conflict t
  end.
Proof.
  pose (Q := fun (r : bool) t' => if r
    then Z.of_nat (size kv) < map_capacity map /\ map_rep map t' (<[k := value]> kv)
    else map_capacity map <= Z.of_nat (size kv) /\ t' = t).
  pose proof (wp_map_put map (mem_steps (map_entries map)) k kv value t Q Hr Hk
    ltac:(by split) ltac:(by split)) as Hwp.
  apply wp_run in Hwp. by destruct (nfos_map_put_t map k value t) as [[[]|] t'].
Qed.

Lemma nfos_map_put_spec_witness :
  fst (nfos_map_put_t (snap_map 4) 3 30 full_map_txn) = Some true /\
  match nfos_map_put_t (snap_map 4) 3 30 full_map_txn with
  | (Some true, t') => Z.of_nat (size ({[7 := 70]} : gmap Z Z)) < 4 /\
                       map_rep (snap_map 4) t' (<[3 := 30]> {[7 := 70]})
  | (Some false, t') => 4 <= Z.of_nat (size ({[7 := 70]} : gmap Z Z)) /\ t' = full_map_txn
  | (None, _) => ~ no_conflict full_map_txn
  end.
Proof.
  split; [vm_compute; reflexivity|].
  apply (nfos_map_put_spec (snap_map 4) 3 30 {[7 := 70]} full_map_txn full_map_rep eq_refl).
Defined.

(** C17: nfos_map_erase removes exactly the given key and says whether it was
    there; the mappings of all other keys stay reachable. *)
Theorem nfos_map_erase_spec {T K} `{Countable K} `{RluTxn T} (map : NfosMap T K)
    `{!RluLaws (map_entries map), !MapConfig map} (k : K) (kv : gmap K Z) (t : T)
    (Hr : map_rep map t kv) :
  match nfos_map_erase_t map k t with
  | (Some true, t') => is_Some (kv !! k) /\ map_rep map t' (delete k kv)
  | (Some false, t') => kv !! k = None /\ t' = t
  | (None, _) => ~ no_conflict t
  end.
Proof.
  pose (Q := fun (r : bool) t' => if r
    then is_Some (kv !! k) /\ map_rep map t' (delete k kv) else kv !! k = None /\ t' = t).
  pose proof (wp_map_erase map (mem_steps (map_entries map)) k kv t Q Hr
    ltac:(by split) ltac:(by split)) as Hwp.
  apply wp_run in Hwp. by destruct (nfos_map_erase_t map k t) as [[[]|] t'].
Qed.

Lemma nfos_map_erase_spec_witness :
  fst (nfos_map_erase_t (snap_map 4) 7 full_map_txn) = Some true /\
  match nfos_map_erase_t (snap_map 4) 7 full_map_txn with
  | (Some true, t') => is_Some (({[7 := 70]} : gmap Z Z) !! 7) /\
                       map_rep (snap_map 4) t' (delete 7 {[7 := 70]})
  | (Some false, t') => ({[7 := 70]} : gmap Z Z) !! 7 = None /\ t' = full_map_txn
  | (None, _) => ~ no_conflict full_map_txn
  end.
Proof.
  split; [vm_compute; reflexivity|].
  apply (nfos_map_erase_spec (snap_map 4) 7 {[7 := 70]} full_map_txn full_map_rep).
Defined.

Lemma nfos_map_allocate_empty_witness :
  match nfos_map_allocate_t true true (fun _ => MapEntry 1 2 3 4 5) 4 3 with
  | Some mm => true && true = true /\
      (exists p, 0 <= p <= 31 /\ mm_capacity mm = 2 ^ p) /\
      3 <= mm_capacity mm < 2 * 3 /\
      map_inv u32 (mm_capacity mm) (mm_entries mm) ∅
  | None => true && true = false
  end.
Proof.
  apply (nfos_map_allocate_empty u32 true true (fun _ => MapEntry 1 2 3 4 5) 4 3). lia.
Defined.
