(* ===== verification/VigMap.v ===== *)
(** * VigMap: Vigor's sequential hash map

    src/deps/vigor/libvig/verified/map.c over map-impl-pow2.c, the build the
    Makefile selects with CAPACITY_POW2.  ei-nat keeps its static mappings in
    such a map.  The five arrays of the C code are functions on indexes; a
    key stands for the memory its pointer leads to, which the owner of the
    map must not change while the map holds it.  The representation invariant
    is the one of src/src/map.c (file NfosMap), whose code is a copy of this
    one with locks. *)

From S2P Require Import Prelude Rlu NfosMap.
Open Scope Z_scope.

Module Vig.

Record Map (K : Type) := MkMap {
  busybits : Z -> Z;
  keyps : Z -> K;
  khs : Z -> Z;
  chns : Z -> Z;
  vals : Z -> Z;
  capacity : Z;
  size : Z;
  keys_eq : K -> K -> bool;
  khash : K -> Z
}.
Arguments MkMap {K} _ _ _ _ _ _ _ _ _.
Arguments busybits {K} _ _.
Arguments keyps {K} _ _.
Arguments khs {K} _ _.
Arguments chns {K} _ _.
Arguments vals {K} _ _.
Arguments capacity {K} _.
Arguments size {K} _.
Arguments keys_eq {K} _ _ _.
Arguments khash {K} _ _.

(** ** map-impl-pow2.c *)

Definition loop (k capacity : Z) : Z := Z.land k (capacity - 1).

Section impl.
Context {K : Type}.

Fixpoint find_key_loop (busybits : Z -> Z) (keyps : Z -> K) (k_hashes chns : Z -> Z) (keyp : K)
    (eq : K -> K -> bool) (key_hash capacity start : Z) (n : nat) (i : Z) : Z :=
  match n with
  | O => -1
  | S n' =>
      let index := loop (u32 (start + i)) capacity in
      let next := find_key_loop busybits keyps k_hashes chns keyp eq key_hash capacity start n' (i + 1) in
      if negb (busybits index =? 0) && (k_hashes index =? key_hash) then
        if eq (keyps index) keyp then i32 index else next
      else if chns index =? 0 then -1
      else next
  end.

Definition find_key (busybits : Z -> Z) (keyps : Z -> K) (k_hashes chns : Z -> Z) (keyp : K)
    (eq : K -> K -> bool) (key_hash capacity : Z) : Z :=
  let start := loop key_hash capacity in
  find_key_loop busybits keyps k_hashes chns keyp eq key_hash capacity start (Z.to_nat capacity) 0.

(** The index (or -1), busybits, chns and, if it is written, *keyp_out. *)
Fixpoint remove_chain_loop (busybits : Z -> Z) (keyps : Z -> K) (k_hashes : Z -> Z) (keyp : K)
    (eq : K -> K -> bool) (key_hash capacity start : Z) (n : nat) (i : Z) (chns : Z -> Z)
    : Z * (Z -> Z) * (Z -> Z) * option K :=
  match n with
  | O => (u32 (-1), busybits, chns, None)
  | S n' =>
      let index := loop (u32 (start + i)) capacity in
      let next := remove_chain_loop busybits keyps k_hashes keyp eq key_hash capacity start n'
                    (i + 1) (<[index := i32 (chns index - 1)]> chns) in
      if negb (busybits index =? 0) && (k_hashes index =? key_hash) then
        if eq (keyps index) keyp then
          (index, <[index := 0]> busybits, chns, Some (keyps index))
        else next
      else next
  end.

Definition find_key_remove_chain (busybits : Z -> Z) (keyps : Z -> K) (k_hashes chns : Z -> Z)
    (keyp : K) (eq : K -> K -> bool) (key_hash capacity : Z)
    : Z * (Z -> Z) * (Z -> Z) * option K :=
  let start := loop key_hash capacity in
  remove_chain_loop busybits keyps k_hashes keyp eq key_hash capacity start
    (Z.to_nat capacity) 0 chns.

Fixpoint find_empty_loop (busybits : Z -> Z) (start capacity : Z) (n : nat) (i : Z)
    (chns : Z -> Z) : Z * (Z -> Z) :=
  match n with
  | O => (u32 (-1), chns)
  | S n' =>
      let index := loop (u32 (start + i)) capacity in
      if 0 =? busybits index then (index, chns)
      else find_empty_loop busybits start capacity n' (i + 1)
             (<[index := i32 (chns index + 1)]> chns)
  end.

Definition find_empty (busybits chns : Z -> Z) (start capacity : Z) : Z * (Z -> Z) :=
  find_empty_loop busybits start capacity (Z.to_nat capacity) 0 chns.

Fixpoint impl_init_loop (n : nat) (i : Z) (bc : (Z -> Z) * (Z -> Z)) : (Z -> Z) * (Z -> Z) :=
  match n with
  | O => bc
  | S n' => impl_init_loop n' (i + 1) (<[i := 0]> bc.1, <[i := 0]> bc.2)
  end.

(** busybits and chns. *)
Definition map_impl_init (busybits chns : Z -> Z) (capacity : Z) : (Z -> Z) * (Z -> Z) :=
  impl_init_loop (Z.to_nat capacity) 0 (busybits, chns).

(** [Some v]: return 1 with *value = v; [None]: return 0. *)
Definition map_impl_get (busybits : Z -> Z) (keyps : Z -> K) (k_hashes chns values : Z -> Z)
    (keyp : K) (eq : K -> K -> bool) (hash capacity : Z) : option Z :=
  let index := find_key busybits keyps k_hashes chns keyp eq hash capacity in
  if -1 =? index then None else Some (values index).

Fixpoint impl_size_loop (busybits : Z -> Z) (n : nat) (i s : Z) : Z :=
  match n with
  | O => s
  | S n' => impl_size_loop busybits n' (i + 1) (if negb (busybits i =? 0) then u32 (s + 1) else s)
  end.

Definition map_impl_size (busybits : Z -> Z) (capacity : Z) : Z :=
  impl_size_loop busybits (Z.to_nat capacity) 0 0.

(** busybits, keyps, k_hashes, chns and values. *)
Definition map_impl_put (busybits : Z -> Z) (keyps : Z -> K) (k_hashes chns values : Z -> Z)
    (keyp : K) (hash value capacity : Z)
    : (Z -> Z) * (Z -> K) * (Z -> Z) * (Z -> Z) * (Z -> Z) :=
  let start := loop hash capacity in
  let '(index, chns) := find_empty busybits chns start capacity in
  (<[index := 1]> busybits, <[index := keyp]> keyps, <[index := hash]> k_hashes, chns,
   <[index := value]> values).

(** busybits, chns and *keyp_out. *)
Definition map_impl_erase (busybits : Z -> Z) (keyps : Z -> K) (k_hashes chns : Z -> Z) (keyp : K)
    (eq : K -> K -> bool) (hash capacity : Z) : (Z -> Z) * (Z -> Z) * option K :=
  let '(_, busybits, chns, keyp_out) :=
    find_key_remove_chain busybits keyps k_hashes chns keyp eq hash capacity in
  (busybits, chns, keyp_out).

(** ** map.c *)

(** [ok i]: whether the [i]-th malloc succeeds; [bb0], ...: the contents of
    the fresh arrays.  [None]: 0, with *map_out as it was. *)
Definition map_allocate (ok : nat -> bool) (bb0 khs0 chns0 vals0 : Z -> Z) (keyps0 : Z -> K)
    (keq : K -> K -> bool) (khash : K -> Z) (capacity : Z) : option (Map K) :=
  if (capacity =? 0) || negb (Z.land capacity (capacity - 1) =? 0) then None
  else if negb (ok 0%nat) then None
  else if negb (ok 1%nat) then None
  else if negb (ok 2%nat) then None
  else if negb (ok 3%nat) then None
  else if negb (ok 4%nat) then None
  else if negb (ok 5%nat) then None
  else
    let '(bbs, chns) := map_impl_init bb0 chns0 capacity in
    Some (MkMap bbs keyps0 khs0 chns vals0 capacity 0 keq khash).

Definition map_get (map : Map K) (key : K) : option Z :=
  let hash := khash map key in
  map_impl_get (busybits map) (keyps map) (khs map) (chns map) (vals map) key (keys_eq map) hash
    (capacity map).

Definition map_put (map : Map K) (key : K) (value : Z) : Map K :=
  let hash := khash map key in
  let '(bbs, kps, khs, chns, vals) :=
    map_impl_put (busybits map) (keyps map) (khs map) (chns map) (vals map) key hash value
      (capacity map) in
  MkMap bbs kps khs chns vals (capacity map) (u32 (size map + 1)) (keys_eq map) (khash map).

(** The map and, if it is written, *trash. *)
Definition map_erase (map : Map K) (key : K) : Map K * option K :=
  let hash := khash map key in
  let '(bbs, chns, trash) :=
    map_impl_erase (busybits map) (keyps map) (khs map) (chns map) key (keys_eq map) hash
      (capacity map) in
  (MkMap bbs (keyps map) (khs map) chns (vals map) (capacity map) (u32 (size map - 1))
     (keys_eq map) (khash map), trash).

Definition map_size (map : Map K) : Z := size map.
End impl.
End Vig.

(** ** The operations implement the finite map *)

Section refinement.
Context {K : Type} `{Countable K} (hash : K -> Z) (eq : K -> K -> bool) (lg : Z).
Context (Hlg : 0 <= lg <= 31) (Hhash : forall k, 0 <= hash k < 2 ^ 32).
Context (Heq : forall k k', eq k k' = true <-> k = k').
Let cap := 2 ^ lg.
Let prb := probe hash cap.

(** The arrays as an array of the entries of NfosMap. *)
Definition slots (bb : Z -> Z) (kps : Z -> K) (kh ch vs : Z -> Z) (i : Z) : nfos_map_entry K :=
  MapEntry (bb i) (kh i) (ch i) (vs i) (kps i).

(** The map has the capacity [2 ^ lg], the functions of its client, and
    holds exactly the mappings [kv]. *)
Record vmap_rep (m : Vig.Map K) (kv : gmap K Z) : Prop := {
  vr_capacity : Vig.capacity m = cap;
  vr_eq : Vig.keys_eq m = eq;
  vr_hash : Vig.khash m = hash;
  vr_size : Vig.size m = Z.of_nat (size kv);
  vr_inv : map_inv hash cap
             (slots (Vig.busybits m) (Vig.keyps m) (Vig.khs m) (Vig.chns m) (Vig.vals m)) kv
}.

Lemma vcap_bound : 0 < cap <= 2 ^ 31.
Proof. unfold cap. split; [lia|]. apply Z.pow_le_mono_r; lia. Qed.

Lemma loop_mod x : Vig.loop x cap = x mod cap.
Proof. apply land_mask. lia. Qed.

Lemma loop_probe k i :
  0 <= i < cap -> Vig.loop (u32 (hash k mod cap + i)) cap = prb k i.
Proof.
  intros Hi. pose proof vcap_bound. pose proof (Z.mod_pos_bound (hash k) cap).
  rewrite loop_mod, u32_id by lia. done.
Qed.

Lemma find_key_loop_spec bb kps kh ch vs kv k n : forall i,
  map_inv hash cap (slots bb kps kh ch vs) kv -> i + Z.of_nat n = cap -> 0 <= i ->
  (forall i', 0 <= i' < i -> ~ (busy (slots bb kps kh ch vs (prb k i')) = true /\ kps (prb k i') = k)) ->
  let r := Vig.find_key_loop bb kps kh ch k eq (hash k) cap (hash k mod cap) n i in
  match kv !! k with Some v => 0 <= r /\ vs r = v | None => r = -1 end.
Proof.
  pose proof vcap_bound as Hcap. set (m := slots bb kps kh ch vs).
  induction n as [|n IH]; intros i Hr Hn Hi Hb; cbn [Vig.find_key_loop].
  - rewrite (probe_all hash cap (proj1 Hcap) m kv k Hr); [done|]. intros i' Hi'. apply Hb. lia.
  - rewrite loop_probe by lia. pose proof (probe_bound hash cap (proj1 Hcap) k i) as Hp.
    fold prb in Hp. change (bb (prb k i)) with (NfosMap.busybits (m (prb k i))).
    change (kh (prb k i)) with (NfosMap.khs (m (prb k i))).
    change (kps (prb k i)) with (NfosMap.key (m (prb k i))).
    change (ch (prb k i)) with (NfosMap.chns (m (prb k i))).
    assert (~ (busy (m (prb k i)) = true /\ NfosMap.key (m (prb k i)) = k) ->
      forall i', 0 <= i' < i + 1 -> ~ (busy (m (prb k i')) = true /\ kps (prb k i') = k)) as Hnext.
    { intros Hat i' Hi'. destruct (decide (i' = i)) as [->|]; [done|]. apply Hb. lia. }
    destruct (negb (NfosMap.busybits (m (prb k i)) =? 0) &&
              (NfosMap.khs (m (prb k i)) =? hash k)) eqn:Em.
    + apply andb_true_iff in Em as [Eb _]. destruct (eq _ k) eqn:Ek.
      * apply Heq in Ek. destruct (inv_busy _ _ _ _ Hr (prb k i) Hp Eb) as [_ Hv].
        rewrite Ek in Hv. rewrite Hv, i32_id by lia. split; [lia|done].
      * apply IH; [done|lia|lia|]. apply Hnext. intros [_ Hk%Heq]. congruence.
    + assert (~ (busy (m (prb k i)) = true /\ NfosMap.khs (m (prb k i)) = hash k)) as Hno.
      { intros [Eb Eh]. unfold busy in Eb. rewrite Eb, Eh, Z.eqb_refl in Em. done. }
      destruct (Z.eqb_spec (NfosMap.chns (m (prb k i))) 0) as [E0|E0].
      * by rewrite (probe_stop hash cap (proj1 Hcap) m kv k i Hr ltac:(lia) Hb Hno E0).
      * apply IH; [done|lia|lia|]. apply Hnext. intros [Eb Ek]. apply Hno. split; [done|].
        destruct (inv_busy _ _ _ _ Hr (prb k i) Hp Eb) as [E _]. by rewrite Ek in E.
Qed.

Lemma vmap_get m kv k : vmap_rep m kv -> Vig.map_get m k = kv !! k.
Proof.
  intros [Hc He Hh _ Hi]. unfold Vig.map_get, Vig.map_impl_get, Vig.find_key.
  rewrite Hc, He, Hh, loop_mod. pose proof vcap_bound.
  pose proof (find_key_loop_spec _ _ _ _ _ kv k (Z.to_nat cap) 0 Hi ltac:(lia) ltac:(lia)
    ltac:(intros; lia)) as Hf. cbv zeta in Hf. destruct (kv !! k).
  - destruct Hf as [Hr <-]. destruct (Z.eqb_spec (-1)
      (Vig.find_key_loop (Vig.busybits m) (Vig.keyps m) (Vig.khs m) (Vig.chns m) k eq (hash k) cap
         (hash k mod cap) (Z.to_nat cap) 0)); [lia|done].
  - by rewrite Hf.
Qed.

(** The chain counters after the loops of put and erase have passed [i] slots. *)
Definition shifted (d : Z) (k : K) (i : Z) (ch ch' : Z -> Z) : Prop :=
  forall l, 0 <= l < cap -> ch' l = if decide (dist hash cap k l < i) then i32 (ch l + d) else ch l.

Lemma shifted_step d k i ch ch' :
  0 <= i < cap -> shifted d k i ch ch' ->
  shifted d k (i + 1) ch (<[prb k i := i32 (ch' (prb k i) + d)]> ch').
Proof.
  intros Hi Hs l Hl. pose proof vcap_bound as Hcap.
  pose proof (probe_bound hash cap (proj1 Hcap) k i) as Hp. fold prb in Hp.
  rewrite fn_insert_dec. destruct (decide (prb k i = l)) as [<-|Hne].
  - rewrite (Hs (prb k i) Hp). unfold prb. rewrite !dist_probe by lia.
    rewrite decide_False, decide_True by lia. done.
  - rewrite (Hs l Hl). assert (dist hash cap k l <> i) as Hd.
    { intros <-. apply Hne. unfold prb. by rewrite probe_dist by lia. }
    repeat case_decide; lia || done.
Qed.

Lemma shifted_0 d k ch : shifted d k 0 ch ch.
Proof.
  intros l _. pose proof (dist_bound hash cap (proj1 vcap_bound) k l).
  by rewrite decide_False by lia.
Qed.

Lemma find_empty_loop_spec bb ch k n : forall i ch0,
  i + Z.of_nat n = cap -> 0 <= i -> shifted 1 k i ch ch0 ->
  (forall i', 0 <= i' < i -> bb (prb k i') <> 0) -> (exists j, 0 <= j < cap /\ bb j = 0) ->
  exists i' ch', Vig.find_empty_loop bb (hash k mod cap) cap n i ch0 = (prb k i', ch') /\
    0 <= i' < cap /\ bb (prb k i') = 0 /\ shifted 1 k i' ch ch'.
Proof.
  pose proof vcap_bound as Hcap.
  induction n as [|n IH]; intros i ch0 Hn Hi Hs Hb Hfree; cbn [Vig.find_empty_loop].
  - destruct Hfree as (j & Hj & Hbj). pose proof (dist_bound hash cap (proj1 Hcap) k j).
    destruct (Hb (dist hash cap k j)); [lia|]. unfold prb. by rewrite probe_dist by lia.
  - rewrite loop_probe by lia. destruct (Z.eqb_spec 0 (bb (prb k i))) as [E|E].
    + exists i, ch0. by split_and!; [|lia|lia| |].
    + apply IH; [lia|lia|by apply shifted_step; [lia|]| |done]. intros i' Hi'.
      destruct (decide (i' = i)) as [->|]; [done|apply Hb; lia].
Qed.

Lemma remove_chain_loop_spec bb kps kh ch vs kv k n : forall i ch0,
  map_inv hash cap (slots bb kps kh ch vs) kv -> is_Some (kv !! k) ->
  i + Z.of_nat n = cap -> 0 <= i -> shifted (-1) k i ch ch0 ->
  (forall i', 0 <= i' < i -> ~ (busy (slots bb kps kh ch vs (prb k i')) = true /\ kps (prb k i') = k)) ->
  exists i' ch',
    Vig.remove_chain_loop bb kps kh k eq (hash k) cap (hash k mod cap) n i ch0 =
      (prb k i', <[prb k i' := 0]> bb, ch', Some k) /\
    0 <= i' < cap /\ busy (slots bb kps kh ch vs (prb k i')) = true /\ kps (prb k i') = k /\
    shifted (-1) k i' ch ch'.
Proof.
  pose proof vcap_bound as Hcap. set (m := slots bb kps kh ch vs).
  induction n as [|n IH]; intros i ch0 Hr Hk Hn Hi Hs Hb; cbn [Vig.remove_chain_loop].
  - destruct Hk as [v Hk]. rewrite (probe_all hash cap (proj1 Hcap) m kv k Hr) in Hk; [done|].
    intros i' Hi'. apply Hb. lia.
  - rewrite loop_probe by lia. pose proof (probe_bound hash cap (proj1 Hcap) k i) as Hp.
    fold prb in Hp.
    assert (~ (busy (m (prb k i)) = true /\ kps (prb k i) = k) ->
      exists i' ch', Vig.remove_chain_loop bb kps kh k eq (hash k) cap (hash k mod cap) n (i + 1)
          (<[prb k i := i32 (ch0 (prb k i) - 1)]> ch0) =
        (prb k i', <[prb k i' := 0]> bb, ch', Some k) /\
        0 <= i' < cap /\ busy (m (prb k i')) = true /\ kps (prb k i') = k /\
        shifted (-1) k i' ch ch') as Hnext.
    { intros Hat. apply IH; [done|done|lia|lia|by apply shifted_step; [lia|]|]. intros i' Hi'.
      destruct (decide (i' = i)) as [->|]; [done|apply Hb; lia]. }
    destruct (negb (bb (prb k i) =? 0) && (kh (prb k i) =? hash k)) eqn:Em.
    + apply andb_true_iff in Em as [Eb _]. destruct (eq _ k) eqn:Ek.
      * apply Heq in Ek. exists i, ch0. rewrite Ek. by split_and!; [|lia|lia|exact Eb| |].
      * apply Hnext. intros [_ Hk'%Heq]. congruence.
    + apply Hnext. intros [Eb Ek]. destruct (inv_busy _ _ _ _ Hr (prb k i) Hp Eb) as [Eh _].
      simpl in Eh. unfold busy in Eb. simpl in Eb. rewrite Eb, Eh, Ek, Z.eqb_refl in Em. done.
Qed.

(** The arrays after the loops are those of [slot_update]. *)
Lemma shifted_slots d upd k i bb bb' kps kps' kh kh' ch ch' vs vs' kv :
  0 <= i < cap -> shifted d k i ch ch' ->
  map_inv hash cap (slot_update hash cap d upd k i (slots bb kps kh ch vs)) kv ->
  (forall l, 0 <= l < cap -> slots bb' kps' kh' ch vs' l =
     if decide (l = prb k i) then upd (slots bb kps kh ch vs l) else slots bb kps kh ch vs l) ->
  (forall e, NfosMap.chns (upd e) = NfosMap.chns e) ->
  map_inv hash cap (slots bb' kps' kh' ch' vs') kv.
Proof.
  intros Hi Hs Hinv Hsl Hupd. eapply map_inv_ext; [|exact Hinv]. intros l Hl.
  specialize (Hsl l Hl). specialize (Hs l Hl). unfold slot_update. fold prb.
  destruct (decide (l = prb k i)) as [->|Hne].
  - rewrite <- Hsl. unfold slots. rewrite Hs. unfold prb at 2.
    rewrite dist_probe, decide_False by lia. done.
  - destruct (decide (dist hash cap k l < i)); rewrite <- Hsl in *; unfold slots, add_chns in *;
      simpl; rewrite Hs; simplify_eq; by f_equal.
Qed.

Lemma map_inv_size_le m kv : map_inv hash cap m kv -> Z.of_nat (size kv) <= cap.
Proof.
  intros Hi. rewrite (map_inv_size _ _ _ _ Hi).
  pose proof (length_filter (fun j => busy (m j) = true) (seqZ 0 cap)) as Hl.
  rewrite length_seqZ in Hl. pose proof vcap_bound. lia.
Qed.

Lemma impl_size_loop_spec bb n : forall i s,
  0 <= s -> s + Z.of_nat n < 2 ^ 32 ->
  Vig.impl_size_loop bb n i s = s + Z.of_nat (length (filter (fun j => bb j <> 0) (seqZ i (Z.of_nat n)))).
Proof.
  induction n as [|n IH]; intros i s Hs Hn; cbn [Vig.impl_size_loop]; [by rewrite Z.add_0_r|].
  rewrite seqZ_cons, filter_cons by lia. replace (Z.pred (Z.of_nat (S n))) with (Z.of_nat n) by lia.
  rewrite <- Z.add_1_r. destruct (Z.eqb_spec (bb i) 0) as [E|E]; cbn [negb].
  - rewrite decide_False by lia. apply IH; lia.
  - rewrite u32_id, decide_True by (done || lia). rewrite IH by lia. simpl. lia.
Qed.

(** Counting the busy slots gives the number of mappings. *)
Lemma vmap_impl_size m kv : vmap_rep m kv -> Vig.map_impl_size (Vig.busybits m) cap = Z.of_nat (size kv).
Proof.
  intros [_ _ _ _ Hi]. pose proof vcap_bound as Hcap. unfold Vig.map_impl_size.
  rewrite impl_size_loop_spec, Z2Nat.id, (map_inv_size _ _ _ _ Hi) by lia.
  rewrite Z.add_0_l. do 2 f_equal. apply list_filter_iff. intros j. unfold busy. simpl.
  rewrite negb_true_iff, Z.eqb_neq. done.
Qed.

Lemma vmap_put m kv k v :
  vmap_rep m kv -> kv !! k = None -> Z.of_nat (size kv) < cap ->
  vmap_rep (Vig.map_put m k v) (<[k := v]> kv).
Proof.
  intros [Hc He Hh Hsz Hi] Hk Hlt. pose proof vcap_bound as Hcap.
  unfold Vig.map_put, Vig.map_impl_put, Vig.find_empty. rewrite Hc, Hh, loop_mod.
  destruct (find_empty_loop_spec (Vig.busybits m) (Vig.chns m) k (Z.to_nat cap) 0 (Vig.chns m))
    as (i & ch' & -> & Hi' & Hb & Hs); [lia|lia|apply shifted_0|intros; lia| |].
  { apply (map_inv_full _ _ (proj1 Hcap) _ _ Hi) in Hlt as (j & Hj & Hbj). exists j.
    split; [done|]. unfold busy in Hbj. simpl in Hbj.
    by apply negb_false_iff, Z.eqb_eq in Hbj. }
  split; simpl; try done.
  - rewrite map_size_insert_None, Hsz, u32_id by (done || lia). lia.
  - apply (shifted_slots 1 (fill_entry (hash k) v k) k i (Vig.busybits m) _ (Vig.keyps m) _
      (Vig.khs m) _ (Vig.chns m) _ (Vig.vals m)); [done|exact Hs| |intros l Hl|done].
    + apply map_inv_put; try done; try lia. unfold busy. simpl. unfold prb in Hb. by rewrite Hb.
    + unfold slots, fill_entry. rewrite !fn_insert_dec.
      destruct (decide (l = prb k i)) as [->|]; [by rewrite !decide_True|].
      by rewrite !decide_False by congruence.
Qed.

Lemma vmap_erase m kv k :
  vmap_rep m kv -> is_Some (kv !! k) ->
  vmap_rep (Vig.map_erase m k).1 (delete k kv) /\ (Vig.map_erase m k).2 = Some k.
Proof.
  intros [Hc He Hh Hsz Hi] Hk. pose proof vcap_bound as Hcap.
  unfold Vig.map_erase, Vig.map_impl_erase, Vig.find_key_remove_chain.
  rewrite Hc, He, Hh, loop_mod.
  destruct (remove_chain_loop_spec (Vig.busybits m) (Vig.keyps m) (Vig.khs m) (Vig.chns m)
    (Vig.vals m) kv k (Z.to_nat cap) 0 (Vig.chns m) Hi Hk)
    as (i & ch' & -> & Hi' & Hb & Hkey & Hs); [lia|lia|apply shifted_0|intros; lia|].
  split; [|done]. split; simpl; try done.
  - pose proof (map_inv_size_le _ _ Hi) as Hn. rewrite map_size_delete.
    destruct Hk as [v Hv]. rewrite Hv, Hsz. assert (size kv <> 0%nat).
    { intros E%map_size_empty_inv. subst kv. by rewrite lookup_empty in Hv. }
    rewrite u32_id by lia. lia.
  - apply (shifted_slots (-1) clear_busy k i (Vig.busybits m) _ (Vig.keyps m) _ (Vig.khs m) _
      (Vig.chns m) _ (Vig.vals m)); [done|exact Hs| |intros l Hl|done].
    + apply map_inv_erase; (done || lia).
    + unfold slots, clear_busy. rewrite !fn_insert_dec.
      destruct (decide (l = prb k i)) as [->|]; [by rewrite !decide_True|].
      by rewrite !decide_False by congruence.
Qed.

Lemma impl_init_loop_zero n : forall i bc l,
  i <= l < i + Z.of_nat n \/ (bc.1 l = 0 /\ bc.2 l = 0) ->
  (Vig.impl_init_loop n i bc).1 l = 0 /\ (Vig.impl_init_loop n i bc).2 l = 0.
Proof.
  induction n as [|n IH]; intros i bc l Hl; simpl; [destruct Hl; [lia|done]|].
  apply IH. simpl. rewrite !fn_insert_dec. case_decide; [by right|]. destruct Hl; [left; lia|by right].
Qed.

(** The check of the capacity accepts exactly the powers of two. *)
Lemma land_pred_pow2 c : 0 < c -> Z.land c (c - 1) = 0 <-> c = 2 ^ Z.log2 c.
Proof.
  intros Hc. pose proof (Z.log2_spec c Hc) as [Hlo Hhi]. pose proof (Z.log2_nonneg c).
  split; intros E.
  - apply Z.le_antisymm; [|done]. apply Z.nlt_ge. intros Hlt.
    assert (Z.log2 (c - 1) = Z.log2 c) as El by (apply Z.log2_unique; lia).
    assert (Z.testbit (Z.land c (c - 1)) (Z.log2 c) = true) as Hb; [|by rewrite E, Z.bits_0 in Hb].
    rewrite Z.land_spec, Z.bit_log2 by done. rewrite <- El. apply Z.bit_log2. lia.
  - rewrite E at 2. rewrite land_mask, E at 1 by lia. apply Z.mod_same. lia.
Qed.

(** Allocation fails for want of memory only. *)
Lemma vmap_allocate ok bb0 khs0 chns0 vals0 keyps0 :
  match Vig.map_allocate ok bb0 khs0 chns0 vals0 keyps0 eq hash cap with
  | Some m => vmap_rep m ∅ /\ forall i, (i < 6)%nat -> ok i = true
  | None => exists i, (i < 6)%nat /\ ok i = false
  end.
Proof.
  pose proof vcap_bound as Hcap. unfold Vig.map_allocate.
  rewrite (proj2 (Z.eqb_neq cap 0)) by lia.
  assert (Z.land cap (cap - 1) = 0) as ->.
  { apply land_pred_pow2; [lia|]. unfold cap. by rewrite Z.log2_pow2 by lia. }
  simpl. do 6 (match goal with |- context [ok ?i] => destruct (ok i) eqn:?; simpl;
    [|exists i; split; [lia|done]] end).
  pose proof (impl_init_loop_zero (Z.to_nat cap) 0 (bb0, chns0)) as Hz.
  unfold Vig.map_impl_init. destruct (Vig.impl_init_loop _ _ _) as [bbs chns0']. simpl in Hz. split.
  - split; try done. apply map_inv_empty. intros i Hi. apply (Hz i). lia.
  - intros i Hi. do 6 (destruct i as [|i]; [done|]). lia.
Qed.
End refinement.

(** ** Sequences of operations *)

Inductive vop (K : Type) := VPut (k : K) (value : Z) | VErase (k : K).
Arguments VPut {K} _ _.
Arguments VErase {K} _.

Definition run_vop {K} (m : Vig.Map K) (op : vop K) : Vig.Map K :=
  match op with
  | VPut k v => Vig.map_put m k v
  | VErase k => (Vig.map_erase m k).1
  end.

(** What the contract of the map asks of its client: put keys that are
    absent, while there is room, and erase keys that are present. *)
Definition legal_vop {K} `{Countable K} (cap : Z) (kv : gmap K Z) (op : vop K) : option (gmap K Z) :=
  match op with
  | VPut k v =>
      match kv !! k with
      | None => if Z.of_nat (size kv) <? cap then Some (<[k := v]> kv) else None
      | Some _ => None
      end
  | VErase k => match kv !! k with Some _ => Some (delete k kv) | None => None end
  end.

Fixpoint legal_vops {K} `{Countable K} (cap : Z) (kv : gmap K Z) (ops : list (vop K))
    : option (gmap K Z) :=
  match ops with
  | [] => Some kv
  | op :: ops' => match legal_vop cap kv op with Some kv' => legal_vops cap kv' ops' | None => None end
  end.

Lemma run_vops {K} `{Countable K} (hash : K -> Z) eq lg (Hlg : 0 <= lg <= 31)
    (Hhash : forall k, 0 <= hash k < 2 ^ 32) (Heq : forall k k', eq k k' = true <-> k = k') ops :
  forall m kv kv', vmap_rep hash eq lg m kv -> legal_vops (2 ^ lg) kv ops = Some kv' ->
  vmap_rep hash eq lg (foldl run_vop m ops) kv'.
Proof.
  induction ops as [|op ops IH]; intros m kv kv' Hm Hl; simpl in *; [by simplify_eq|].
  destruct (legal_vop (2 ^ lg) kv op) as [kv1|] eqn:E; [|done]. apply (IH _ kv1); [|done].
  destruct op as [k v|k]; simpl in *; destruct (kv !! k) eqn:Ek; simplify_eq.
  - destruct (Z.ltb_spec (Z.of_nat (size kv)) (2 ^ lg)); simplify_eq. by apply vmap_put.
  - by apply vmap_erase.
Qed.

(** C34: Vigor's map can be allocated with a power of two as its capacity and
    fails only without memory; after every legal sequence of put and erase it
    behaves as the finite map: get finds exactly the bindings, size and
    the count of the busy slots are their number, erase hands back the key. *)
Theorem vig_map_refines {K : Type} `{Countable K} (hash : K -> Z) (eq : K -> K -> bool) (lg : Z)
    (ok : nat -> bool) bb0 khs0 chns0 vals0 keyps0 (ops : list (vop K)) (kv : gmap K Z)
    (Hlg : 0 <= lg <= 31) (Hhash : forall k, 0 <= hash k < 2 ^ 32)
    (Heq : forall k k', eq k k' = true <-> k = k') (Hops : legal_vops (2 ^ lg) ∅ ops = Some kv) :
  match Vig.map_allocate ok bb0 khs0 chns0 vals0 keyps0 eq hash (2 ^ lg) with
  | None => exists i, (i < 6)%nat /\ ok i = false
  | Some m =>
      let m' := foldl run_vop m ops in
      (forall k, Vig.map_get m' k = kv !! k) /\
      Vig.map_size m' = Z.of_nat (size kv) /\
      Vig.map_impl_size (Vig.busybits m') (Vig.capacity m') = Z.of_nat (size kv) /\
      (forall k, is_Some (kv !! k) -> (Vig.map_erase m' k).2 = Some k)
  end.
Proof.
  pose proof (vmap_allocate hash eq lg Hlg ok bb0 khs0 chns0 vals0 keyps0) as Ha.
  destruct (Vig.map_allocate _ _ _ _ _ _ _ _ _) as [m|]; [|done]. destruct Ha as [Hm _].
  eapply run_vops in Hm; [|done..]. cbv zeta. split_and!.
  - intros k. by eapply vmap_get.
  - apply Hm.
  - rewrite (vr_capacity _ _ _ _ _ Hm). by eapply vmap_impl_size.
  - intros k Hk. by eapply vmap_erase.
Qed.

Definition ex_vops : list (vop Z) := [VPut 1 10; VPut 5 50; VPut 2 20; VErase 1; VPut 9 90].

Definition ex_vkv : gmap Z Z := <[9 := 90]> (delete 1 (<[2 := 20]> (<[5 := 50]> {[1 := 10]}))).

Lemma vig_map_refines_witness :
  match Vig.map_allocate (fun _ => true) (fun _ => 7) (fun _ => 7) (fun _ => 7) (fun _ => 7)
          (fun _ => 0) Z.eqb u32 (2 ^ 2) with
  | None => exists i, (i < 6)%nat /\ true = false
  | Some m =>
      let m' := foldl run_vop m ex_vops in
      (forall k, Vig.map_get m' k = ex_vkv !! k) /\
      Vig.map_size m' = Z.of_nat (size ex_vkv) /\
      Vig.map_impl_size (Vig.busybits m') (Vig.capacity m') = Z.of_nat (size ex_vkv) /\
      (forall k, is_Some (ex_vkv !! k) -> (Vig.map_erase m' k).2 = Some k)
  end.
Proof.
  refine (vig_map_refines u32 Z.eqb 2 (fun _ => true) (fun _ => 7) (fun _ => 7) (fun _ => 7)
    (fun _ => 7) (fun _ => 0) ex_vops ex_vkv _ _ _ _).
  - lia.
  - intros k. apply Z.mod_pos_bound. lia.
  - intros k k'. apply Z.eqb_eq.
  - vm_compute. reflexivity.
Defined.

(** The probing of the example: 5 and 9 hash to the slot of 1. *)
Example ex_vops_get :
  match Vig.map_allocate (fun _ => true) (fun _ => 7) (fun _ => 7) (fun _ => 7) (fun _ => 7)
          (fun _ => 0) Z.eqb u32 4 with
  | None => None
  | Some m => Some ((fun k => Vig.map_get (foldl run_vop m ex_vops) k) <$> [1; 2; 5; 9; 13])
  end = Some [None; Some 20; Some 50; Some 90; None].
Proof. vm_compute. reflexivity. Qed.

(** *** Outside the contract *)

(** A put into a full map finds no free slot and writes to the element that
    follows the largest index an int holds: beyond every array. *)
Lemma vig_put_overflows (bb chns : Z -> Z) capacity start :
  (forall i, bb i <> 0) -> (Vig.find_empty bb chns start capacity).1 = 2 ^ 32 - 1.
Proof.
  intros Hb. unfold Vig.find_empty. generalize (Z.to_nat capacity), 0, chns.
  intros n. induction n as [|n IH]; intros i c; cbn [Vig.find_empty_loop]; [done|].
  rewrite (proj2 (Z.eqb_neq 0 _)); [apply IH|]. intros E. by apply (Hb (Vig.loop (u32 (start + i)) capacity)).
Qed.

(** Erasing a key that is absent makes the size wrap around. *)
Example vig_erase_absent :
  match Vig.map_allocate (fun _ => true) (fun _ => 7) (fun _ => 7) (fun _ => 7) (fun _ => 7)
          (fun _ => 0) Z.eqb u32 4 with
  | None => None
  | Some m => Some (Vig.map_size (Vig.map_erase m 1).1)
  end = Some (2 ^ 32 - 1).
Proof. vm_compute. reflexivity. Qed.
