(* ===== verification/Links.v ===== *)
(** * Chains: the linked lists the three index allocators share

    src/src/double-chain-impl.c, double-chain-exp.c and
    concurrent-double-chain-impl.c keep the indexes of an allocator on linked
    lists threaded through one array of cells: per core a doubly linked ring
    of allocated indexes and a singly linked list of free ones, and one global
    free list.  The three files repeat the same pointer surgery on cells that
    differ in their extra fields.  This file has the cells' interface
    ([ChainCell]), the surgery as memory updates ([pop], [push], [append],
    [remove]), the initialisation loops, the invariant [linked] (every cell is
    on exactly one list) and the proof that each update moves one index from
    one list to another. *)

From S2P Require Import Prelude Rlu.
Open Scope Z_scope.

Definition LIST_HEAD_PADDING : Z := 3.

(** ** Cells *)

Class ChainCell (C : Type) := {
  prev : C -> Z;
  next : C -> Z;
  list_ind : C -> Z;
  set_prev : Z -> C -> C;
  set_next : Z -> C -> C;
  set_list_ind : Z -> C -> C
}.

Class ChainCellLaws (C : Type) `{ChainCell C} := {
  prev_set_prev v (c : C) : prev (set_prev v c) = v;
  next_set_prev v (c : C) : next (set_prev v c) = next c;
  ind_set_prev v (c : C) : list_ind (set_prev v c) = list_ind c;
  prev_set_next v (c : C) : prev (set_next v c) = prev c;
  next_set_next v (c : C) : next (set_next v c) = v;
  ind_set_next v (c : C) : list_ind (set_next v c) = list_ind c;
  prev_set_ind v (c : C) : prev (set_list_ind v c) = prev c;
  next_set_ind v (c : C) : next (set_list_ind v c) = next c;
  ind_set_ind v (c : C) : list_ind (set_list_ind v c) = v
}.

Create Rewrite HintDb links.
#[export] Hint Rewrite @prev_set_prev @next_set_prev @ind_set_prev @prev_set_next
  @next_set_next @ind_set_next @prev_set_ind @next_set_ind @ind_set_ind
  using typeclasses eauto : links.

(** Functions that change only the other fields of a cell. *)
Class KeepsLinks {C} `{ChainCell C} (g : C -> C) := {
  prev_keep c : prev (g c) = prev c;
  next_keep c : next (g c) = next c;
  ind_keep c : list_ind (g c) = list_ind c
}.
#[export] Hint Rewrite @prev_keep @next_keep @ind_keep using typeclasses eauto : links.
#[export] Instance keeps_id {C} `{ChainCell C} : KeepsLinks (fun c => c).
Proof. by split. Qed.

(** A field that is not a link. *)
Class Payload {C X} `{ChainCell C} (pay : C -> X) := {
  pay_set_prev v c : pay (set_prev v c) = pay c;
  pay_set_next v c : pay (set_next v c) = pay c;
  pay_set_ind v c : pay (set_list_ind v c) = pay c
}.
#[export] Hint Rewrite @pay_set_prev @pay_set_next @pay_set_ind using typeclasses eauto : links.

(** ** Surgery *)

Section surgery.
Context {C : Type} `{ChainCell C}.

(** p->next = v; p->prev = p->next; *)
Definition set_both (v : Z) (c : C) : C := set_prev v (set_next v c).

(** Take the first cell off the singly linked list with head [h]. *)
Definition pop (f : Z -> C) (h : Z) : Z -> C :=
  <[h := set_both (next (f (next (f h)))) (f h)]> f.

(** Put cell [x] at the front of the singly linked list with head [h]. *)
Definition push (g : C -> C) (f : Z -> C) (h x : Z) : Z -> C :=
  let f1 := <[x := g (set_list_ind (-1) (set_both (next (f h)) (f x)))]> f in
  <[h := set_both x (f1 h)]> f1.

(** Put cell [x] at the end of the ring with head [h]. *)
Definition append (g : C -> C) (f : Z -> C) (h ind x : Z) : Z -> C :=
  let last := prev (f h) in
  let f1 := <[x := g (set_list_ind ind (set_prev last (set_next h (f x))))]> f in
  let f2 := <[last := set_next x (f1 last)]> f1 in
  <[h := set_prev x (f2 h)]> f2.

(** Unlink cell [x] from its ring. *)
Definition remove (f : Z -> C) (x : Z) : Z -> C :=
  let p := prev (f x) in
  let n := next (f x) in
  let f1 := <[p := set_next n (f p)]> f in
  <[n := set_prev p (f1 n)]> f1.

(** ** Initialisation *)

(** The heads of the lists of [num_cores] cores, 8 cells apart. *)
Definition FREE_LIST_HEAD (num_cores : Z) : Z := Z.shiftl num_cores LIST_HEAD_PADDING.
Definition GLOBAL_FREE_LIST_HEAD (num_cores : Z) : Z :=
  Z.shiftl (num_cores * 2) LIST_HEAD_PADDING.
Definition INDEX_SHIFT (num_cores : Z) : Z := GLOBAL_FREE_LIST_HEAD num_cores + 1.

(** [fix_head], [fix_index] and [related] set what the three cell types have
    besides the links; [None]: more iterations than [fuel]. *)
Variables (fix_head fix_index : C -> C) (related : Z -> (Z -> C) -> (Z -> C)).

Fixpoint init_al_heads (fuel : nat) (num_cores i : Z) (cells : Z -> C)
    : option (Z -> C) :=
  if negb (i <? FREE_LIST_HEAD num_cores) then Some cells
  else match fuel with
  | O => None
  | S fuel =>
      init_al_heads fuel num_cores (i + Z.shiftl 1 LIST_HEAD_PADDING)
        (<[i := fix_head (set_list_ind i (set_next i (set_prev i (cells i))))]> cells)
  end.

Fixpoint init_fl_heads (fuel : nat) (size num_cores i : Z) (cells : Z -> C)
    : option (Z -> C) :=
  if negb (i <? GLOBAL_FREE_LIST_HEAD num_cores) then Some cells
  else match fuel with
  | O => None
  | S fuel =>
      let off := i - FREE_LIST_HEAD num_cores in
      let first := INDEX_SHIFT num_cores +
        size / num_cores * Z.shiftr off LIST_HEAD_PADDING in
      init_fl_heads fuel size num_cores (i + Z.shiftl 1 LIST_HEAD_PADDING)
        (<[i := fix_head (set_list_ind off (set_both first (cells i)))]> cells)
  end.

Definition init_index (i v : Z) (cells : Z -> C) : Z -> C :=
  related i (<[i := fix_index (set_list_ind (-1) (set_both v (cells i)))]> cells).

(** The inner loop; it returns the final value of [j] too. *)
Fixpoint init_run (fuel : nat) (size num_cores i j : Z) (cells : Z -> C)
    : option (Z * (Z -> C)) :=
  if negb ((j <? size / num_cores - 1) && (i + j <? size + INDEX_SHIFT num_cores - 1))
  then Some (j, cells)
  else match fuel with
  | O => None
  | S fuel =>
      init_run fuel size num_cores i (j + 1) (init_index (i + j) (i + j + 1) cells)
  end.

Fixpoint init_partition (fuel : nat) (size num_cores i core_id : Z) (cells : Z -> C)
    : option (Z -> C) :=
  if negb (i <? size + INDEX_SHIFT num_cores) then Some cells
  else match fuel with
  | O => None
  | S fuel' =>
      match init_run (Z.to_nat size) size num_cores i 0 cells with
      | None => None
      | Some (j, cells) =>
          init_partition fuel' size num_cores (i + size / num_cores) (core_id + 1)
            (init_index (i + j)
               (FREE_LIST_HEAD num_cores + Z.shiftl core_id LIST_HEAD_PADDING) cells)
      end
  end.

Definition chain_init (fuel : nat) (size num_cores : Z) (cells : Z -> C)
    : option (Z -> C) :=
  match init_al_heads (Z.to_nat num_cores) num_cores 0 cells with
  | None => None
  | Some cells =>
      match init_fl_heads (Z.to_nat num_cores) size num_cores
              (FREE_LIST_HEAD num_cores) cells with
      | None => None
      | Some cells =>
          let gl := GLOBAL_FREE_LIST_HEAD num_cores in
          let cells := <[gl := fix_head (set_list_ind (-1) (set_both gl (cells gl)))]> cells in
          init_partition fuel size num_cores (INDEX_SHIFT num_cores) 0 cells
      end
  end.
End surgery.

(** ** Paths *)

(** Following [nx] from [a] visits [l] and then reaches [b]. *)
Fixpoint path (nx : Z -> Z) (a : Z) (l : list Z) (b : Z) : Prop :=
  match l with
  | [] => nx a = b
  | x :: l' => nx a = x /\ path nx x l' b
  end.

Lemma path_ext nx nx' l : forall a b,
  (forall x, x ∈ a :: l -> nx' x = nx x) -> path nx a l b -> path nx' a l b.
Proof.
  induction l as [|x l IH]; intros a b E; simpl.
  - intros <-. apply E. set_solver.
  - intros [<- Hp]. split; [apply E; set_solver|]. apply IH; [|done].
    intros y Hy. apply E. set_solver.
Qed.

Lemma path_app nx l1 x l2 : forall a b,
  path nx a (l1 ++ x :: l2) b <-> path nx a l1 x /\ path nx x l2 b.
Proof.
  induction l1 as [|y l1 IH]; intros a b; simpl; [done|]. rewrite IH. tauto.
Qed.

(** The last cell of a path, and redirecting it. *)
Definition lastof (a : Z) (l : list Z) : Z := default a (last l).

Lemma lastof_in a l : lastof a l ∈ a :: l.
Proof.
  unfold lastof. destruct (last l) eqn:E; simpl; [|set_solver].
  apply last_Some_elem_of in E. set_solver.
Qed.

Lemma path_snoc nx l : forall a x b,
  path nx a (l ++ [x]) b <-> path nx a l x /\ nx x = b.
Proof. intros. by rewrite path_app. Qed.

Lemma path_last nx l : forall a b, path nx a l b -> nx (lastof a l) = b.
Proof.
  induction l as [|x l _] using rev_ind; intros a b; [done|].
  rewrite path_snoc. unfold lastof. rewrite last_snoc. naive_solver.
Qed.

Lemma path_redirect nx nx' l : forall a b b',
  NoDup (a :: l) -> path nx a l b ->
  (forall x, x ∈ a :: l -> x <> lastof a l -> nx' x = nx x) ->
  nx' (lastof a l) = b' -> path nx' a l b'.
Proof.
  induction l as [|y l IH]; intros a b b' Hnd; simpl; [done|].
  intros [<- Hp] E El. apply NoDup_cons in Hnd as [Ha Hnd].
  assert (lastof a (nx a :: l) = lastof (nx a) l) as Elast.
  { unfold lastof. destruct l; [done|]. rewrite last_cons_cons. 
    destruct (last (z :: l)) eqn:El'; [done|by apply last_None in El']. }
  rewrite Elast in *. split.
  - apply E; [set_solver|]. intros Ea. apply Ha. rewrite Ea at 1. apply lastof_in.
  - eapply IH; eauto. intros x Hx. apply E. set_solver.
Qed.

(** ** Places *)

(** Where an index can be: on the ring or the free list of a core, on the
    global free list, or in the hands of a core that moves it. *)
Inductive place := PA (c : Z) | PF (c : Z) | PG | PH (c : Z).
#[export] Instance place_eq_dec : EqDecision place.
Proof. solve_decision. Defined.

Section invariant.
Context {C : Type} `{ChainCell C, !ChainCellLaws C}.
(** The number of cores and of the indexes that can be allocated. *)
Variables (N usable : Z).
Hypothesis (HN : 0 < N).

Definition valid (p : place) : Prop :=
  match p with PA c | PF c | PH c => 0 <= c < N | PG => True end.
#[export] Instance valid_dec p : Decision (valid p).
Proof. destruct p; simpl; solve_decision. Defined.
Definition head (p : place) : Z :=
  match p with
  | PA c => Z.shiftl c LIST_HEAD_PADDING
  | PF c => FREE_LIST_HEAD N + Z.shiftl c LIST_HEAD_PADDING
  | PG => GLOBAL_FREE_LIST_HEAD N
  | PH c => -1 - c
  end.

(** The cells of a ring are linked both ways and carry the ring's number;
    those of a free list are linked one way, twice, and carry -1. *)
Definition place_ok (f : Z -> C) (p : place) (l : list Z) : Prop :=
  match p with
  | PA c =>
      path (fun x => next (f x)) (head p) l (head p) /\
      path (fun x => prev (f x)) (head p) (reverse l) (head p) /\
      forall x, x ∈ l -> list_ind (f x) = Z.shiftl c LIST_HEAD_PADDING
  | PH _ => True
  | _ =>
      path (fun x => next (f x)) (head p) l (head p) /\
      (forall x, x ∈ head p :: l -> prev (f x) = next (f x)) /\
      forall x, x ∈ l -> list_ind (f x) = -1
  end.

(** Every index is in exactly one place. *)
Record partition (L : place -> list Z) : Prop := {
  part_disj p q x : x ∈ L p -> x ∈ L q -> p = q;
  part_nodup p : NoDup (L p);
  part_range x : (exists p, x ∈ L p) <-> INDEX_SHIFT N <= x < INDEX_SHIFT N + usable;
  part_valid p : ~ valid p -> L p = []
}.

Record linked (f : Z -> C) (L : place -> list Z) : Prop := {
  linked_ok p : valid p -> place_ok f p (L p);
  linked_part : partition L
}.

Lemma shift3 x : Z.shiftl x LIST_HEAD_PADDING = 8 * x.
Proof. unfold LIST_HEAD_PADDING. rewrite Z.shiftl_mul_pow2 by lia. lia. Qed.

Lemma head_inj p q : valid p -> valid q -> head p = head q -> p = q.
Proof.
  unfold head, FREE_LIST_HEAD, GLOBAL_FREE_LIST_HEAD. rewrite !shift3.
  destruct p as [c|c| |c], q as [c'|c'| |c']; simpl; rewrite ?shift3; intros;
    first [f_equal; lia | exfalso; lia | done].
Qed.

Lemma head_low p : valid p -> head p < INDEX_SHIFT N.
Proof.
  unfold INDEX_SHIFT, head, FREE_LIST_HEAD, GLOBAL_FREE_LIST_HEAD. rewrite !shift3.
  destruct p; simpl; rewrite ?shift3; lia.
Qed.

Lemma part_elem L p x : partition L -> x ∈ L p -> INDEX_SHIFT N <= x < INDEX_SHIFT N + usable.
Proof. intros HL Hx. apply (part_range L HL). by exists p. Qed.

Lemma part_elem_valid L p x : partition L -> x ∈ L p -> valid p.
Proof using HN.
  intros HL Hx. destruct (decide (valid p)) as [|Hv]; [done|].
  rewrite (part_valid L HL p Hv) in Hx. by apply not_elem_of_nil in Hx.
Qed.

(** The cells of two places are different. *)
Lemma cells_disj L p q x :
  partition L -> valid p -> valid q -> p <> q ->
  x ∈ head p :: L p -> x ∈ head q :: L q -> False.
Proof.
  intros HL Hp Hq Hne [->|Hx]%elem_of_cons [E|Hx']%elem_of_cons.
  - by apply Hne, head_inj.
  - pose proof (part_elem L q _ HL Hx'). pose proof (head_low p Hp). lia.
  - subst. pose proof (part_elem L p _ HL Hx). pose proof (head_low q Hq). lia.
  - by apply Hne, (part_disj L HL p q x).
Qed.

Lemma cells_nodup L p : partition L -> valid p -> NoDup (head p :: L p).
Proof.
  intros HL Hp. apply NoDup_cons. split; [|apply (part_nodup L HL)].
  intros Hx. pose proof (part_elem L p _ HL Hx). pose proof (head_low p Hp). lia.
Qed.

Definition same_links (c c' : C) : Prop :=
  next c' = next c /\ prev c' = prev c /\ list_ind c' = list_ind c.

Lemma place_ok_frame f f' p l :
  (forall x, x ∈ head p :: l -> same_links (f x) (f' x)) ->
  place_ok f p l -> place_ok f' p l.
Proof.
  intros E. assert (forall (g : C -> Z), (forall x, x ∈ head p :: l -> g (f' x) = g (f x)) ->
    forall l', (forall x, x ∈ l' -> x ∈ l) -> forall b,
    path (fun x => g (f x)) (head p) l' b -> path (fun x => g (f' x)) (head p) l' b) as Hpath.
  { intros g Hg l' Hl' b. apply path_ext. intros x Hx. apply Hg. set_solver. }
  assert (forall x, x ∈ reverse l -> x ∈ l) as Hrev by (intros x; by rewrite elem_of_reverse).
  destruct p as [c|c| |c]; cbn [place_ok]; try done.
  - intros (Hn & Hv & Hi). split; [|split].
    + apply (Hpath next); [|done|done]. intros x Hx. by apply E.
    + apply (Hpath prev); [|done|done]. intros x Hx. by apply E.
    + intros x Hx. destruct (E x) as (_ & _ & ->); [set_solver|auto].
  - intros (Hn & Hv & Hi). split; [|split].
    + apply (Hpath next); [|done|done]. intros x Hx. by apply E.
    + intros x Hx. destruct (E x Hx) as (-> & -> & _). auto.
    + intros x Hx. destruct (E x) as (_ & _ & ->); [set_solver|auto].
  - intros (Hn & Hv & Hi). split; [|split].
    + apply (Hpath next); [|done|done]. intros x Hx. by apply E.
    + intros x Hx. destruct (E x Hx) as (-> & -> & _). auto.
    + intros x Hx. destruct (E x) as (_ & _ & ->); [set_solver|auto].
Qed.

(** ** Moving an index *)

Definition move (p q : place) (lp lq : list Z) (L : place -> list Z) : place -> list Z :=
  <[q := lq]> (<[p := lp]> L).

Lemma move_elem L p q x l1 l2 m1 m2 r y :
  partition L -> p <> q -> L p = l1 ++ x :: l2 -> L q = m1 ++ m2 ->
  y ∈ move p q (l1 ++ l2) (m1 ++ x :: m2) L r <-> if decide (y = x) then r = q else y ∈ L r.
Proof.
  intros HL Hpq Ep Eq. pose proof (part_nodup L HL p) as Hnd. rewrite Ep in Hnd.
  rewrite <- Permutation_middle in Hnd. apply NoDup_cons in Hnd as [Hx _].
  assert (x ∈ L p) as Hxp by (rewrite Ep; set_solver). unfold move. rewrite !fn_insert_dec.
  destruct (decide (q = r)) as [<-|Hqr].
  { rewrite Eq, !elem_of_app, elem_of_cons.
    case_decide; rewrite ?elem_of_app; naive_solver. }
  destruct (decide (p = r)) as [<-|Hpr].
  { rewrite Ep. rewrite elem_of_app in Hx.
    case_decide; rewrite ?elem_of_app, ?elem_of_cons; naive_solver. }
  case_decide as E; [subst|done]. split; [|congruence].
  intros Hxr. by destruct Hpr; apply (part_disj L HL _ _ x).
Qed.

Lemma partition_move L p q x l1 l2 m1 m2 :
  partition L -> valid q -> p <> q -> L p = l1 ++ x :: l2 -> L q = m1 ++ m2 ->
  partition (move p q (l1 ++ l2) (m1 ++ x :: m2) L).
Proof.
  intros HL Hq Hpq Ep Eq. pose proof (fun r y => move_elem L p q x l1 l2 m1 m2 r y HL Hpq Ep Eq) as Hm.
  assert (x ∈ L p) as Hxp by (rewrite Ep; set_solver).
  split.
  - intros r r' y. rewrite !Hm. case_decide; [congruence|]. apply (part_disj L HL).
  - intros r. unfold move. rewrite !fn_insert_dec.
    pose proof (part_nodup L HL p) as Hp. pose proof (part_nodup L HL q) as Hnq.
    rewrite Ep, <- Permutation_middle in Hp. apply NoDup_cons in Hp as [Hx Hp]. rewrite Eq in Hnq.
    case_decide; [|case_decide; [done|apply (part_nodup L HL)]].
    rewrite <- Permutation_middle. apply NoDup_cons. split; [|done]. rewrite <- Eq.
    intros Hxq. by apply Hpq, (part_disj L HL p q x).
  - intros y. rewrite <- (part_range L HL). setoid_rewrite Hm. case_decide as E; [|done].
    subst. naive_solver.
  - intros r Hr. unfold move. rewrite !fn_insert_dec. pose proof (part_elem_valid L p x HL Hxp).
    do 2 (case_decide; [congruence|]). by apply (part_valid L HL).
Qed.

Lemma partition_perm L p l : partition L -> Permutation l (L p) -> partition (<[p := l]> L).
Proof.
  intros HL Hl. assert (forall r y, y ∈ (<[p := l]> L) r <-> y ∈ L r) as Hm.
  { intros r y. rewrite fn_insert_dec. case_decide; [subst; by rewrite Hl|done]. }
  split.
  - intros r r' y. rewrite !Hm. apply (part_disj L HL).
  - intros r. rewrite fn_insert_dec. case_decide; [rewrite Hl|]; apply (part_nodup L HL).
  - intros y. setoid_rewrite Hm. apply (part_range L HL).
  - intros r Hr. rewrite fn_insert_dec. case_decide; [subst|by apply (part_valid L HL)].
    rewrite (part_valid L HL r Hr) in Hl. by apply Permutation_nil_r.
Qed.

Lemma linked_move f f' L p q lp lq :
  linked f L -> valid p -> valid q ->
  (forall x, x ∉ head p :: L p -> x ∉ head q :: L q -> same_links (f x) (f' x)) ->
  place_ok f' p lp -> place_ok f' q lq -> p <> q ->
  partition (move p q lp lq L) -> linked f' (move p q lp lq L).
Proof.
  intros [Hok HL] Hp Hq Hf Hpok Hqok Hne HL'. split; [|done]. intros r Hr.
  unfold move. rewrite !fn_insert_dec.
  case_decide as E1; [by subst|]. case_decide as E2; [by subst|].
  apply (place_ok_frame f); [|auto]. intros x Hx.
  apply Hf; intros Hx'.
  - by apply (cells_disj L r p x).
  - by apply (cells_disj L r q x).
Qed.

(** *** Taking an index off a free list *)

Definition free_place (p : place) : Prop :=
  match p with PF _ | PG => True | _ => False end.

Lemma free_ok f p l :
  free_place p -> (place_ok f p l <->
  path (fun x => next (f x)) (head p) l (head p) /\
  (forall x, x ∈ head p :: l -> prev (f x) = next (f x)) /\
  forall x, x ∈ l -> list_ind (f x) = -1).
Proof. by destruct p. Qed.

Lemma free_head f L p :
  linked f L -> valid p -> free_place p ->
  next (f (head p)) = match L p with [] => head p | x :: _ => x end.
Proof.
  intros [Hok _] Hv Hp. specialize (Hok p Hv). rewrite free_ok in Hok by done.
  destruct Hok as [Hpath _]. destruct (L p); simpl in Hpath; tauto.
Qed.

Lemma linked_pop f L p c x l :
  linked f L -> valid p -> free_place p -> 0 <= c < N -> L p = x :: l ->
  linked (pop f (head p)) (move p (PH c) l (x :: L (PH c)) L).
Proof.
  intros HL Hv Hp Hc E. pose proof HL as [Hok Hpart].
  pose proof (Hok p Hv) as Hpok. rewrite E, free_ok in Hpok by done.
  destruct Hpok as (Hnx & Hpv & Hind). simpl in Hnx. destruct Hnx as [Hx Hnx].
  pose proof (cells_nodup L p Hpart Hv) as Hnd. rewrite E in Hnd.
  apply NoDup_cons in Hnd as [Hh Hnd].
  assert (p <> PH c) as Hne by (by intros ->).
  apply linked_move with f; try done.
  - intros y Hy _. unfold pop. rewrite fn_lookup_insert_ne by set_solver. done.
  - rewrite free_ok by done. unfold pop. rewrite Hx.
    assert (forall y, y ∈ l -> y <> head p) as Hyh by set_solver.
    split; [|split].
    + destruct l as [|y l]; simpl in *.
      * rewrite fn_lookup_insert. unfold set_both. by autorewrite with links.
      * destruct Hnx as [Hy Hnx]. rewrite fn_lookup_insert. unfold set_both.
        autorewrite with links. split; [done|].
        eapply path_ext; [|exact Hnx]. intros z Hz. simpl.
        rewrite fn_lookup_insert_ne; [done|]. apply not_eq_sym, Hyh. set_solver.
    + intros y Hy. rewrite fn_insert_dec. unfold set_both.
      case_decide; [by autorewrite with links|]. apply Hpv. set_solver.
    + intros y Hy. rewrite fn_lookup_insert_ne by (by apply not_eq_sym, Hyh).
      apply Hind. set_solver.
  - by apply (partition_move L p (PH c) x [] l [] (L (PH c))).
Qed.

(** *** The links after each update *)

Section getters.
Context (g : C -> C) `{!KeepsLinks g} (f : Z -> C).

Ltac getter := intros; unfold push, append, remove, set_both; cbv zeta; rewrite ?fn_insert_dec;
  repeat (case_decide; subst; simplify_eq); autorewrite with links;
  rewrite ?fn_insert_dec; repeat (case_decide; subst; simplify_eq);
  autorewrite with links; (done || congruence).

Lemma next_push h x y : h <> x ->
  next (push g f h x y) =
  if decide (h = y) then x else if decide (x = y) then next (f h) else next (f y).
Proof. getter. Qed.

Lemma prev_push h x y : h <> x ->
  prev (push g f h x y) =
  if decide (h = y) then x else if decide (x = y) then next (f h) else prev (f y).
Proof. getter. Qed.

Lemma ind_push h x y : h <> x ->
  list_ind (push g f h x y) = if decide (x = y) then -1 else list_ind (f y).
Proof. getter. Qed.

Lemma next_append h ind x y : h <> x -> prev (f h) <> x ->
  next (append g f h ind x y) =
  if decide (x = y) then h else if decide (prev (f h) = y) then x else next (f y).
Proof. getter. Qed.

Lemma prev_append h ind x y : h <> x -> prev (f h) <> x ->
  prev (append g f h ind x y) =
  if decide (h = y) then x else if decide (x = y) then prev (f h) else prev (f y).
Proof. getter. Qed.

Lemma ind_append h ind x y : h <> x -> prev (f h) <> x ->
  list_ind (append g f h ind x y) = if decide (x = y) then ind else list_ind (f y).
Proof. getter. Qed.

Lemma next_remove x y :
  next (remove f x y) = if decide (prev (f x) = y) then next (f x) else next (f y).
Proof. getter. Qed.

Lemma prev_remove x y :
  prev (remove f x y) = if decide (next (f x) = y) then prev (f x) else prev (f y).
Proof. getter. Qed.

Lemma ind_remove x y : list_ind (remove f x y) = list_ind (f y).
Proof. getter. Qed.
End getters.

(** *** The other fields after each update *)

Section payload.
Context {X : Type} (pay : C -> X) `{!Payload pay} (f : Z -> C).

Ltac getpay := intros; unfold pop, push, append, remove, set_both; cbv zeta;
  rewrite ?fn_insert_dec; repeat (case_decide; subst; simplify_eq); autorewrite with links;
  rewrite ?fn_insert_dec; repeat (case_decide; subst; simplify_eq);
  autorewrite with links; (done || congruence).

Lemma pay_pop h y : pay (pop f h y) = pay (f y).
Proof. getpay. Qed.

Lemma pay_push g h x y : x <> y -> pay (push g f h x y) = pay (f y).
Proof. getpay. Qed.

Lemma pay_push_at g h x : h <> x ->
  pay (push g f h x x) = pay (g (set_list_ind (-1) (set_both (next (f h)) (f x)))).
Proof. getpay. Qed.

Lemma pay_append g h ind x y : h <> x -> prev (f h) <> x -> x <> y ->
  pay (append g f h ind x y) = pay (f y).
Proof. getpay. Qed.

Lemma pay_append_at g h ind x : h <> x -> prev (f h) <> x ->
  pay (append g f h ind x x) = pay (g (set_list_ind ind (set_prev (prev (f h)) (set_next h (f x))))).
Proof. getpay. Qed.

Lemma pay_remove x y : pay (remove f x y) = pay (f y).
Proof. getpay. Qed.
End payload.

(** *** Paths of a ring *)

Lemma path_restart nx nx' a a' l b :
  (forall y, y ∈ l -> nx' y = nx y) -> nx' a' = nx a -> path nx a l b -> path nx' a' l b.
Proof.
  intros E Ea. destruct l as [|y l]; simpl; [congruence|]. intros [<- Hp].
  split; [done|]. eapply path_ext; [|done]. done.
Qed.

Lemma path_first nx a l b : path nx a l b -> nx a = default b (hd_error l).
Proof. destruct l; simpl; naive_solver. Qed.

Lemma path_remove nx nx' a l1 x l2 b :
  NoDup (a :: l1 ++ x :: l2) -> path nx a (l1 ++ x :: l2) b ->
  nx' (lastof a l1) = nx x ->
  (forall y, y ∈ a :: l1 ++ l2 -> y <> lastof a l1 -> nx' y = nx y) ->
  path nx' a (l1 ++ l2) b.
Proof using Type.
  clear - nx nx' a l1 x l2 b.
  intros Hnd [Hp1 Hp2]%path_app Elast E.
  assert (NoDup (a :: l1)) as Hnd1.
  { rewrite app_comm_cons in Hnd. by apply NoDup_app in Hnd as [? _]. }
  destruct l2 as [|y l2]; simpl in Hp2.
  - rewrite app_nil_r in *. apply (path_redirect nx nx' l1 a x); [done|done| |congruence].
    intros z Hz. apply E. set_solver.
  - destruct Hp2 as [Hy Hp2]. apply path_app. split.
    + apply (path_redirect nx nx' l1 a x); [done|done| |congruence].
      intros z Hz. apply E. set_solver.
    + eapply path_ext; [|exact Hp2]. intros z Hz. apply E; [set_solver|].
      intros ->. rewrite app_comm_cons in Hnd. apply NoDup_app in Hnd as (_ & Hd & _).
      apply (Hd (lastof a l1)); [apply lastof_in|set_solver].
Qed.

Lemma ring_last f c l :
  place_ok f (PA c) l -> prev (f (head (PA c))) = lastof (head (PA c)) l.
Proof.
  intros (_ & Hp & _). apply path_first in Hp. rewrite Hp. unfold lastof.
  rewrite <- head_reverse. by destruct (reverse l).
Qed.

Lemma ring_append g `{!KeepsLinks g} f c l x :
  0 <= c < N -> NoDup (head (PA c) :: l) -> x ∉ head (PA c) :: l ->
  place_ok f (PA c) l ->
  place_ok (append g f (head (PA c)) (Z.shiftl c LIST_HEAD_PADDING) x) (PA c) (l ++ [x]).
Proof.
  intros Hc Hnd Hx Hok. pose proof (ring_last f c l Hok) as El.
  destruct Hok as (Hn & Hp & Hi). set (h := head (PA c)) in *.
  pose proof (lastof_in h l) as Hlast.
  assert (h <> x) as Hhx by set_solver.
  assert (prev (f h) <> x) as Hlx by (rewrite El; set_solver).
  split; [|split].
  - apply path_snoc. split.
    + apply (path_redirect (fun y => next (f y)) _ l h h); [done|done| |].
      * intros y Hy Hne. cbv beta. rewrite next_append by done.
        rewrite El. rewrite !decide_False by (done || set_solver). done.
      * cbv beta. rewrite next_append by done. rewrite El.
        rewrite decide_False, decide_True by (done || set_solver). done.
    + rewrite next_append by done. by rewrite decide_True.
  - rewrite reverse_snoc. split; [rewrite prev_append by done; by rewrite decide_True|].
    apply (path_restart (fun y => prev (f y)) _ h); [| |done].
    + intros y Hy%elem_of_reverse. rewrite prev_append by done.
      apply NoDup_cons in Hnd as [Hh _].
      rewrite !decide_False by (intros <-; set_solver). done.
    + rewrite prev_append by done. by rewrite decide_False, decide_True.
  - intros y [Hy| ->%list_elem_of_singleton]%elem_of_app; rewrite ind_append by done.
    + rewrite decide_False by set_solver. by apply Hi.
    + by rewrite decide_True.
Qed.

Lemma ring_remove f c l1 x l2 :
  NoDup (head (PA c) :: l1 ++ x :: l2) -> place_ok f (PA c) (l1 ++ x :: l2) ->
  place_ok (remove f x) (PA c) (l1 ++ l2) /\
  prev (f x) = lastof (head (PA c)) l1 /\ next (f x) = lastof (head (PA c)) (reverse l2).
Proof.
  intros Hnd (Hn & Hp & Hi). set (h := head (PA c)) in *.
  assert (reverse (l1 ++ x :: l2) = reverse l2 ++ x :: reverse l1) as Er.
  { by rewrite reverse_app, reverse_cons, <- app_assoc. }
  assert (reverse (l1 ++ l2) = reverse l2 ++ reverse l1) as Er' by apply reverse_app.
  rewrite Er in Hp.
  assert (prev (f x) = lastof h l1) as Ep.
  { apply path_app in Hp as [_ Hp]. apply path_first in Hp. rewrite Hp. unfold lastof.
    rewrite <- head_reverse. by destruct (reverse l1). }
  assert (next (f x) = lastof h (reverse l2)) as En.
  { apply path_app in Hn as [_ Hn]. apply path_first in Hn. rewrite Hn. unfold lastof.
    rewrite <- head_reverse, reverse_involutive. by destruct l2. }
  split; [|done]. split; [|split].
  - apply (path_remove (fun y => next (f y)) _ h l1 x l2); [done|done| |].
    + rewrite next_remove. by rewrite decide_True.
    + intros y Hy Hne. rewrite next_remove. by rewrite decide_False by congruence.
  - fold h. rewrite Er'. apply (path_remove (fun y => prev (f y)) _ h _ x); [|done| |].
    + rewrite <- Er. rewrite NoDup_cons in *. by rewrite reverse_Permutation.
    + rewrite prev_remove. by rewrite decide_True.
    + intros y Hy Hne. rewrite prev_remove. by rewrite decide_False by congruence.
  - intros y Hy. rewrite ind_remove. apply Hi. set_solver.
Qed.

(** *** The moves *)

Lemma not_cell (h x y : Z) l : h <> x -> x ∉ l -> y ∈ h :: l -> y <> x.
Proof. set_solver. Qed.

Lemma cell_other (h x y : Z) l : y ∉ h :: l -> x ∈ h :: l -> x <> y.
Proof. set_solver. Qed.

Lemma cell_not_head f L p q x : linked f L -> x ∈ L p -> valid q -> head q <> x.
Proof.
  intros [_ Hpart] Hx Hq. pose proof (part_elem L p x Hpart Hx).
  pose proof (head_low q Hq). lia.
Qed.

(** An index in flight is on no list. *)
Lemma in_flight f L c x l p :
  linked f L -> L (PH c) = x :: l -> valid p -> PH c <> p -> (x ∉ L p) /\ head p <> x.
Proof.
  intros [_ Hpart] E Hv Hne. assert (x ∈ L (PH c)) as Hxc by (rewrite E; left).
  split; [intros Hx; by apply Hne, (part_disj L Hpart _ _ x)|].
  pose proof (part_elem L _ x Hpart Hxc). pose proof (head_low p Hv). lia.
Qed.

Lemma linked_push g `{!KeepsLinks g} f L p c x l :
  linked f L -> valid p -> free_place p -> 0 <= c < N -> L (PH c) = x :: l ->
  linked (push g f (head p) x) (move (PH c) p l (x :: L p) L).
Proof.
  intros HL Hv Hp Hc E. assert (PH c <> p) as Hne by (by intros <-).
  destruct (in_flight f L c x l p HL E Hv Hne) as [Hxp Hhx].
  pose proof HL as [Hok Hpart].
  pose proof (Hok p Hv) as Hpok. rewrite free_ok in Hpok by done.
  destruct Hpok as (Hnx & Hpv & Hind).
  apply linked_move with f; try done.
  - intros y Hy1 Hy2. rewrite E in Hy1.
    assert (x <> y) by (apply (cell_other (head (PH c)) _ _ (x :: l)); [done|right; left]).
    assert (head p <> y) by (apply (cell_other (head p) _ _ (L p)); [done|left]).
    unfold same_links. rewrite next_push, prev_push, ind_push by done.
    rewrite !decide_False by done. done.
  - rewrite free_ok by done. split; [|split].
    + cbn [path]. rewrite !next_push by done. rewrite decide_True by done. split; [done|].
      destruct (L p) as [|y l'] eqn:EL; cbn [path] in *.
      * rewrite next_push by done. by rewrite decide_False, decide_True.
      * destruct Hnx as [Hy Hnx].
        rewrite next_push by done. rewrite decide_False, decide_True by done. split; [done|].
        eapply path_ext; [|exact Hnx]. intros z Hz. cbv beta.
        pose proof (cells_nodup L p Hpart Hv) as [Hh _]%NoDup_cons. rewrite EL in Hh.
        rewrite next_push by done. rewrite !decide_False; [done| |]; by intros <-.
    + intros y Hy. rewrite next_push, prev_push by done. repeat case_decide; try done.
      apply Hpv. apply elem_of_cons in Hy as [->|Hy]; [done|].
      apply elem_of_cons in Hy as [->|Hy]; [done|by right].
    + intros y [->|Hy]%elem_of_cons; rewrite ind_push by done; [by rewrite decide_True|].
      rewrite decide_False by (by intros ->). by apply Hind.
  - by apply (partition_move L (PH c) p x [] l [] (L p)).
Qed.

Lemma linked_append g `{!KeepsLinks g} f L c d x l :
  linked f L -> 0 <= c < N -> 0 <= d < N -> L (PH c) = x :: l ->
  linked (append g f (head (PA d)) (Z.shiftl d LIST_HEAD_PADDING) x)
    (move (PH c) (PA d) l (L (PA d) ++ [x]) L).
Proof.
  intros HL Hc Hd E.
  destruct (in_flight f L c x l (PA d) HL E Hd ltac:(done)) as [Hxp Hhx].
  pose proof HL as [Hok Hpart]. pose proof (Hok (PA d) Hd) as Hpok.
  pose proof (ring_last f d _ Hpok) as El. pose proof (lastof_in (head (PA d)) (L (PA d))) as Hl.
  rewrite <- El in Hl.
  assert (prev (f (head (PA d))) <> x) as Hlx by (by eapply not_cell).
  apply linked_move with f; try done.
  - intros y Hy1 Hy2. rewrite E in Hy1.
    assert (x <> y) by (apply (cell_other (head (PH c)) _ _ (x :: l)); [done|right; left]).
    assert (head (PA d) <> y) by (apply (cell_other (head (PA d)) _ _ (L (PA d))); [done|left]).
    assert (prev (f (head (PA d))) <> y) by (by eapply cell_other).
    unfold same_links. rewrite next_append, prev_append, ind_append by done.
    rewrite !decide_False by done. done.
  - apply ring_append; try done; [by apply cells_nodup|].
    intros [Hx|Hx]%elem_of_cons; by auto.
  - apply (partition_move L (PH c) (PA d) x [] l (L (PA d)) []); try done.
    by rewrite app_nil_r.
Qed.

Lemma linked_remove f L c d l1 x l2 :
  linked f L -> 0 <= c < N -> 0 <= d < N -> L (PA d) = l1 ++ x :: l2 ->
  linked (remove f x) (move (PA d) (PH c) (l1 ++ l2) (x :: L (PH c)) L).
Proof.
  intros HL Hc Hd E. pose proof HL as [Hok Hpart]. pose proof (Hok (PA d) Hd) as Hpok.
  pose proof (cells_nodup L (PA d) Hpart Hd) as Hnd. rewrite E in Hpok, Hnd.
  destruct (ring_remove f d l1 x l2 Hnd Hpok) as (Hok' & Ep & En).
  assert (prev (f x) ∈ head (PA d) :: L (PA d)) as Hp.
  { rewrite Ep, E. pose proof (lastof_in (head (PA d)) l1) as [->|Hl]%elem_of_cons; [left|].
    right. apply elem_of_app. by left. }
  assert (next (f x) ∈ head (PA d) :: L (PA d)) as Hn.
  { rewrite En, E. pose proof (lastof_in (head (PA d)) (reverse l2)) as [->|Hl]%elem_of_cons;
      [left|]. right. apply elem_of_app. right. right. by apply elem_of_reverse. }
  apply linked_move with f; try done.
  - intros y Hy1 _. unfold same_links. rewrite next_remove, prev_remove, ind_remove.
    rewrite !decide_False by (by eapply cell_other). done.
  - by apply (partition_move L (PA d) (PH c) x l1 l2 [] (L (PH c))).
Qed.

Lemma linked_ext f f' L L' :
  (forall x, same_links (f x) (f' x)) -> (forall p, L' p = L p) -> linked f L -> linked f' L'.
Proof.
  intros Ef EL [Hok [Hd Hn Hr Hv]]. split.
  - intros p Hp. rewrite EL. eapply place_ok_frame; [|by apply Hok]. intros x _. apply Ef.
  - split.
    + intros p q x. rewrite !EL. apply Hd.
    + intros p. rewrite EL. apply Hn.
    + intros x. rewrite <- Hr. by setoid_rewrite EL.
    + intros p. rewrite EL. apply Hv.
Qed.

(** Lists that hold no index in flight. *)
Definition settled (L : place -> list Z) : Prop := forall c, L (PH c) = [].

(** The index lists an allocated index is on. *)
Lemma linked_allocated f L x d :
  linked f L -> 0 <= d < N -> x ∈ L (PA d) -> list_ind (f x) = Z.shiftl d LIST_HEAD_PADDING.
Proof. intros [Hok _] Hd Hx. by apply (Hok (PA d) Hd). Qed.

Lemma linked_free f L x :
  linked f L -> settled L -> INDEX_SHIFT N <= x < INDEX_SHIFT N + usable ->
  list_ind (f x) = -1 <-> forall d, x ∉ L (PA d).
Proof.
  intros [Hok Hpart] Hs Hx. split.
  - intros Hi d Hd. assert (0 <= d < N) as Hv by (by apply (part_elem_valid L (PA d) x)).
    destruct (Hok (PA d) Hv) as (_ & _ & Hi'). rewrite (Hi' x Hd), shift3 in Hi. lia.
  - intros Hno. apply (part_range L Hpart) in Hx as [p Hp].
    pose proof (part_elem_valid L p x Hpart Hp) as Hv. specialize (Hok p Hv).
    destruct p as [d|d| |c]; simpl in Hok.
    + by destruct (Hno d).
    + by apply Hok.
    + by apply Hok.
    + rewrite Hs in Hp. set_solver.
Qed.

(** Moving an allocated index to the end of its ring. *)
Lemma linked_rejuvenate g `{!KeepsLinks g} f L d l1 x l2 :
  linked f L -> 0 <= d < N -> L (PA d) = l1 ++ x :: l2 ->
  linked (append g (remove f x) (head (PA d)) (Z.shiftl d LIST_HEAD_PADDING) x)
    (<[PA d := l1 ++ l2 ++ [x]]> L).
Proof.
  intros HL Hd E.
  pose proof (linked_remove f L d d l1 x l2 HL Hd Hd E) as HL1.
  pose proof (linked_append g _ _ d d x (L (PH d)) HL1 Hd Hd) as HL2.
  eapply linked_ext; [| |apply HL2]; [done| |].
  - intros p. unfold move. rewrite !fn_insert_dec. repeat case_decide; try done.
    + by rewrite <- app_assoc.
    + subst. done.
  - unfold move. by rewrite fn_lookup_insert.
Qed.
End invariant.

(** ** A fresh chain *)

Section init.
Context {C : Type} `{ChainCell C, !ChainCellLaws C}.
Context (fix_head fix_index : C -> C) `{!KeepsLinks fix_head, !KeepsLinks fix_index}.
Context (related : Z -> (Z -> C) -> (Z -> C)) (size N : Z).
Hypotheses (HN : 0 < N) (Hq : 0 < size / N).
(** What is written next to an index lies beyond the last index. *)
Hypothesis (Hrel : forall i (f : Z -> C) x,
  INDEX_SHIFT N <= i -> x < INDEX_SHIFT N + size -> related i f x = f x).

Lemma consts :
  FREE_LIST_HEAD N = 8 * N /\ GLOBAL_FREE_LIST_HEAD N = 16 * N /\
  INDEX_SHIFT N = 16 * N + 1 /\ Z.shiftl 1 LIST_HEAD_PADDING = 8.
Proof.
  unfold INDEX_SHIFT, GLOBAL_FREE_LIST_HEAD, FREE_LIST_HEAD. rewrite !shift3. lia.
Qed.

Lemma init_al_heads_spec n : forall c (f : Z -> C),
  0 <= c -> c + Z.of_nat n = N ->
  exists f', init_al_heads fix_head n N (8 * c) f = Some f' /\
    (forall c', c <= c' < N -> next (f' (8 * c')) = 8 * c' /\ prev (f' (8 * c')) = 8 * c') /\
    (forall x, ~ (8 * c <= x < 8 * N) -> f' x = f x).
Proof.
  destruct consts as (EF & EG & ES & E8).
  induction n as [|n IH]; intros c f Hc Hn; cbn [init_al_heads]; rewrite EF.
  - rewrite (proj2 (Z.ltb_ge _ _)) by lia. exists f. split; [done|]. split; [lia|done].
  - rewrite (proj2 (Z.ltb_lt _ _)) by lia. cbn [negb]. rewrite E8.
    replace (8 * c + 8) with (8 * (c + 1)) by lia.
    edestruct (IH (c + 1)) as (f' & -> & Hh & Hf); [lia..|]. exists f'. split; [done|].
    split.
    + intros c' Hc'. destruct (decide (c' = c)) as [->|]; [|apply Hh; lia].
      rewrite Hf by lia. fsolve. autorewrite with links. done.
    + intros x Hx. rewrite Hf by lia. by fsolve.
Qed.

Lemma init_fl_heads_spec n : forall c (f : Z -> C),
  0 <= c -> c + Z.of_nat n = N ->
  exists f', init_fl_heads fix_head n size N (8 * N + 8 * c) f = Some f' /\
    (forall c', c <= c' < N ->
       next (f' (8 * N + 8 * c')) = INDEX_SHIFT N + size / N * c' /\
       prev (f' (8 * N + 8 * c')) = INDEX_SHIFT N + size / N * c') /\
    (forall x, ~ (8 * N + 8 * c <= x < 16 * N) -> f' x = f x).
Proof.
  destruct consts as (EF & EG & ES & E8).
  induction n as [|n IH]; intros c f Hc Hn; cbn [init_fl_heads]; rewrite EG.
  - rewrite (proj2 (Z.ltb_ge _ _)) by lia. exists f. split; [done|]. split; [lia|done].
  - rewrite (proj2 (Z.ltb_lt _ _)) by lia. cbn [negb]. cbv zeta. rewrite E8, EF.
    replace (8 * N + 8 * c - 8 * N) with (8 * c) by lia.
    assert (Z.shiftr (8 * c) LIST_HEAD_PADDING = c) as ->.
    { unfold LIST_HEAD_PADDING. rewrite Z.shiftr_div_pow2 by lia.
      rewrite Z.mul_comm. by apply Z.div_mul. }
    replace (8 * N + 8 * c + 8) with (8 * N + 8 * (c + 1)) by lia.
    edestruct (IH (c + 1)) as (f' & -> & Hh & Hf); [lia..|]. exists f'. split; [done|].
    split.
    + intros c' Hc'. destruct (decide (c' = c)) as [->|]; [|apply Hh; lia].
      rewrite Hf by lia. fsolve. unfold set_both. autorewrite with links. done.
    + intros x Hx. rewrite Hf by lia. by fsolve.
Qed.

(** Index [x] is free and followed by [v]. *)
Definition free_to (f : Z -> C) (x v : Z) : Prop :=
  next (f x) = v /\ prev (f x) = v /\ list_ind (f x) = -1.

Lemma init_index_at i v (f : Z -> C) :
  INDEX_SHIFT N <= i < INDEX_SHIFT N + size ->
  free_to (init_index fix_index related i v f) i v.
Proof.
  intros Hi. unfold free_to, init_index. rewrite Hrel by lia. fsolve.
  unfold set_both. autorewrite with links. done.
Qed.

Lemma init_index_ne i v (f : Z -> C) x :
  INDEX_SHIFT N <= i -> x < INDEX_SHIFT N + size -> x <> i ->
  init_index fix_index related i v f x = f x.
Proof. intros. unfold init_index. rewrite Hrel by lia. by fsolve. Qed.

Lemma init_run_spec n : forall i j (f : Z -> C),
  INDEX_SHIFT N <= i -> 0 <= j -> size / N - 1 - j <= Z.of_nat n ->
  exists j' f', init_run fix_index related n size N i j f = Some (j', f') /\ j <= j' /\
    (forall x, x < i + j -> x < INDEX_SHIFT N + size -> f' x = f x) /\
    (i + size / N <= INDEX_SHIFT N + size -> j < size / N -> j' = size / N - 1 /\
     forall k, j <= k < size / N - 1 -> free_to f' (i + k) (i + k + 1)).
Proof.
  induction n as [|n IH]; intros i j f Hi Hj Hn; cbn [init_run].
  - rewrite (proj2 (Z.ltb_ge _ _)) by lia. exists j, f. split; [done|]. split; [lia|].
    split; [done|]. intros. split; [lia|]. intros. lia.
  - destruct (Z.ltb_spec j (size / N - 1)) as [Hlt|Hge]; cbn [andb negb].
    2: { exists j, f. split; [done|]. split; [lia|]. split; [done|].
         intros. split; [lia|]. intros. lia. }
    destruct (Z.ltb_spec (i + j) (size + INDEX_SHIFT N - 1)) as [Hlt'|Hge'].
    2: { exists j, f. split; [done|]. split; [lia|]. split; [done|].
         intros. split; [lia|]. intros. lia. }
    cbn [andb negb].
    edestruct (IH i (j + 1)) as (j' & f' & -> & Hj' & Hf & Hfull); [lia..|].
    exists j', f'. split; [done|]. split; [lia|]. split.
    + intros x Hx Hx'. rewrite Hf by lia. apply init_index_ne; lia.
    + intros Hfit _. destruct Hfull as [-> Hfull]; [done|lia|]. split; [done|].
      intros k Hk. destruct (decide (k = j)) as [->|]; [|apply Hfull; lia].
      unfold free_to. rewrite Hf by lia. apply init_index_at. lia.
Qed.

Lemma init_partition_spec n : forall k (f : Z -> C),
  0 <= k -> size - k * (size / N) <= Z.of_nat n ->
  exists f', init_partition fix_index related n size N (INDEX_SHIFT N + k * (size / N)) k f
      = Some f' /\
    (forall x, x < INDEX_SHIFT N + k * (size / N) -> x < INDEX_SHIFT N + size -> f' x = f x) /\
    (forall k' j, k <= k' < N -> 0 <= j < size / N ->
       free_to f' (INDEX_SHIFT N + k' * (size / N) + j)
         (if decide (j = size / N - 1) then FREE_LIST_HEAD N + Z.shiftl k' LIST_HEAD_PADDING
          else INDEX_SHIFT N + k' * (size / N) + j + 1)).
Proof.
  set (q := size / N) in *. assert (N * q <= size) as HNq by (by apply Z.mul_div_le).
  induction n as [|n IH]; intros k f Hk Hn; cbn [init_partition].
  - rewrite (proj2 (Z.ltb_ge _ _)) by lia. exists f. split; [done|]. split; [done|].
    intros k' j Hk' Hj. exfalso. nia.
  - destruct (Z.ltb_spec (INDEX_SHIFT N + k * q) (size + INDEX_SHIFT N)) as [Hlt|Hge].
    2: { exists f. split; [done|]. split; [done|]. intros k' j Hk' Hj. exfalso. nia. }
    cbn [negb]. set (i := INDEX_SHIFT N + k * q) in *.
    destruct (init_run_spec (Z.to_nat size) i 0 f) as (j' & f1 & -> & Hj' & Hf1 & Hfull);
      [nia|lia|nia|].
    fold q. replace (i + q) with (INDEX_SHIFT N + (k + 1) * q) by lia.
    edestruct (IH (k + 1)) as (f' & -> & Hf' & Hc'); [lia|nia|].
    exists f'. split; [done|]. split.
    + intros x Hx Hx'. rewrite Hf' by nia. rewrite init_index_ne by lia.
      apply Hf1; lia.
    + intros k' j Hk'' Hj. destruct (decide (k' = k)) as [->|]; [|apply Hc'; lia].
      fold i. assert (i + q <= INDEX_SHIFT N + size) as Hfit by nia.
      destruct Hfull as [-> Hfull]; [done|lia|]. fold q in Hfull |- *.
      unfold free_to. rewrite Hf' by nia.
      case_decide as E; [subst j; apply init_index_at; nia|].
      rewrite init_index_ne by nia. apply Hfull. lia.
Qed.

(** The initial placement: [size / N] consecutive indexes per core. *)
Definition fresh_lists (p : place) : list Z :=
  match p with
  | PF c => if decide (0 <= c < N) then seqZ (INDEX_SHIFT N + size / N * c) (size / N) else []
  | _ => []
  end.

Lemma path_seqZ nx n : forall h a b,
  nx h = a -> (forall j, 0 <= j < Z.of_nat n -> nx (a + j) = a + j + 1) ->
  nx (a + Z.of_nat n) = b -> path nx h (seqZ a (Z.of_nat (S n))) b.
Proof.
  induction n as [|n IH]; intros h a b Eh Ej El; rewrite seqZ_cons by lia; cbn [path].
  - split; [done|]. replace (Z.pred (Z.of_nat 1)) with 0 by lia. cbn [seqZ path Z.to_nat].
    by rewrite Z.add_0_r in El.
  - split; [done|]. replace (Z.pred (Z.of_nat (S (S n)))) with (Z.of_nat (S n)) by lia.
    apply IH.
    + specialize (Ej 0 ltac:(lia)). rewrite Z.add_0_r in Ej. lia.
    + intros j Hj. specialize (Ej (j + 1) ltac:(lia)).
      replace (a + (j + 1)) with (Z.succ a + j) in Ej by lia. lia.
    + rewrite <- El. f_equal. lia.
Qed.

Lemma fresh_partition : partition N (N * (size / N)) fresh_lists.
Proof.
  set (q := size / N) in *. split.
  - intros [c|c| |c] [c'|c'| |c'] x; simpl; try set_solver. fold q.
    repeat case_decide; try set_solver. rewrite !elem_of_seqZ. intros. f_equal. nia.
  - intros [c|c| |c]; simpl; try apply NoDup_nil_2. case_decide; [apply NoDup_seqZ|constructor].
  - intros x. split.
    + intros [[c|c| |c] Hx]; simpl in Hx; try set_solver. case_decide; [|set_solver].
      apply elem_of_seqZ in Hx. fold q in Hx. nia.
    + intros Hx. exists (PF ((x - INDEX_SHIFT N) / q)). simpl. fold q.
      pose proof (Z.div_mod (x - INDEX_SHIFT N) q ltac:(lia)).
      pose proof (Z.mod_pos_bound (x - INDEX_SHIFT N) q Hq).
      rewrite decide_True by (split; [apply Z.div_pos; lia|apply Z.div_lt_upper_bound; lia]).
      apply elem_of_seqZ. lia.
  - intros [c|c| |c] Hv; simpl in *; try done. by rewrite decide_False.
Qed.

Lemma chain_init_linked fuel (cells : Z -> C) :
  size <= Z.of_nat fuel ->
  exists f, chain_init fix_head fix_index related fuel size N cells = Some f /\
    linked N (N * (size / N)) f fresh_lists.
Proof.
  intros Hfuel. destruct consts as (EF & EG & ES & E8). unfold chain_init.
  destruct (init_al_heads_spec (Z.to_nat N) 0 cells) as (f1 & E1 & Ha & Hf1); [lia..|].
  rewrite Z.mul_0_r in E1. rewrite E1. rewrite EF.
  destruct (init_fl_heads_spec (Z.to_nat N) 0 f1) as (f2 & E2 & Hfl & Hf2); [lia..|].
  rewrite Z.mul_0_r, Z.add_0_r in E2. rewrite E2. cbv zeta.
  set (f3 := <[_ := _]> f2).
  destruct (init_partition_spec fuel 0 f3) as (f & E & Hf & Hc); [lia..|].
  rewrite Z.mul_0_l, Z.add_0_r in E. rewrite E. exists f. split; [done|].
  split; [|apply fresh_partition].
  assert (forall x, x < INDEX_SHIFT N -> f x = f3 x) as Hlow.
  { intros x Hx. apply Hf; [lia|]. pose proof (Z.mul_div_le size N HN). nia. }
  intros p Hp. destruct p as [c|c| |c]; cbn [place_ok fresh_lists head]; [| | |done].
  - rewrite shift3 in *. simpl in Hp. cbn [path reverse]. rewrite reverse_nil. cbn [path].
    rewrite !Hlow by lia. unfold f3. rewrite EG. fsolve. rewrite !Hf2 by lia.
    destruct (Ha c) as [-> ->]; [lia|]. split; [done|]. split; [done|set_solver].
  - simpl in Hp. rewrite decide_True by done. rewrite EF, shift3.
    assert (next (f (8 * N + 8 * c)) = INDEX_SHIFT N + size / N * c /\
            prev (f (8 * N + 8 * c)) = INDEX_SHIFT N + size / N * c) as [Hhn Hhp].
    { rewrite Hlow by lia. unfold f3. rewrite EG. fsolve. apply Hfl. lia. }
    assert (forall x, x ∈ seqZ (INDEX_SHIFT N + size / N * c) (size / N) ->
      exists v, free_to f x v) as Hfree.
    { intros x Hx%elem_of_seqZ. eexists.
      specialize (Hc c (x - (INDEX_SHIFT N + c * (size / N))) Hp ltac:(lia)).
      replace (INDEX_SHIFT N + c * (size / N) + (x - (INDEX_SHIFT N + c * (size / N))))
        with x in Hc by lia. exact Hc. }
    split; [|split].
    + replace (size / N) with (Z.of_nat (S (Z.to_nat (size / N - 1)))) at 2 by lia.
      apply (path_seqZ (fun x => next (f x))); [done| |].
      * intros j Hj. destruct (Hc c j Hp ltac:(lia)) as [En _].
        rewrite decide_False in En by lia. rewrite (Z.mul_comm (size / N)). exact En.
      * destruct (Hc c (size / N - 1) Hp ltac:(lia)) as [En _].
        rewrite decide_True in En by lia. rewrite EF, shift3 in En.
        rewrite <- En. do 2 f_equal. lia.
    + intros x [->|Hx]%elem_of_cons; [congruence|].
      destruct (Hfree x Hx) as (v & -> & -> & _). done.
    + intros x Hx. by destruct (Hfree x Hx) as (v & _ & _ & ->).
  - cbn [path]. rewrite EG. rewrite !Hlow by lia. unfold f3. rewrite EG. fsolve.
    unfold set_both. autorewrite with links. split; [done|]. split; [|set_solver].
    intros x ->%list_elem_of_singleton. rewrite Hlow by lia. unfold f3. rewrite EG. fsolve.
    unfold set_both. by autorewrite with links.
Qed.
End init.

(** What setting up an index establishes, and setting up another one does not
    spoil, holds of every index after initialisation. *)
Section init_all.
Context {C : Type} `{ChainCell C} (fix_head fix_index : C -> C).
Context (related : Z -> (Z -> C) -> (Z -> C)) (size N : Z) (Q : (Z -> C) -> Z -> Prop).
Hypotheses (Hset : forall i v f, Q (init_index fix_index related i v f) i)
  (Hkeep : forall i v f x, Q f x -> Q (init_index fix_index related i v f) x).

Lemma init_run_all n : forall i j f j' f',
  init_run fix_index related n size N i j f = Some (j', f') ->
  (forall x, Q f x -> Q f' x) /\ (forall k, j <= k < j' -> Q f' (i + k)) /\ j <= j' /\
  (size / N - 1 <= j' \/ size + INDEX_SHIFT N - 1 <= i + j').
Proof.
  assert (forall i j f j' f',
    ((j <? size / N - 1) && (i + j <? size + INDEX_SHIFT N - 1)) = false ->
    (j, f) = (j', f') ->
    (forall x, Q f x -> Q f' x) /\ (forall k, j <= k < j' -> Q f' (i + k)) /\ j <= j' /\
    (size / N - 1 <= j' \/ size + INDEX_SHIFT N - 1 <= i + j')) as Hend.
  { intros i j f j' f' E [= <- <-]. split; [done|]. split; [lia|]. split; [done|].
    apply andb_false_iff in E as [E%Z.ltb_ge|E%Z.ltb_ge]; auto. }
  induction n as [|n IH]; intros i j f j' f'; cbn [init_run];
    destruct ((j <? _) && _) eqn:E; cbn [negb]; try done;
    try (intros [= E']; apply (Hend _ _ _ _ _ E); congruence).
  intros (H1 & H2 & H3 & H4)%IH. split; [auto|]. split; [|split; [lia|done]].
  intros k Hk. destruct (decide (k = j)) as [->|]; [auto|apply H2; lia].
Qed.

Lemma init_partition_all n : forall i core_id f f',
  init_partition fix_index related n size N i core_id f = Some f' ->
  (forall x, Q f x -> Q f' x) /\ forall x, i <= x < size + INDEX_SHIFT N -> Q f' x.
Proof.
  induction n as [|n IH]; intros i core_id f f'; cbn [init_partition];
    destruct (Z.ltb_spec i (size + INDEX_SHIFT N)); cbn [negb]; try done;
    try (intros [= <-]; split; [done|lia]).
  destruct (init_run _ _ _ _ _ _ _ _) as [[j f1]|] eqn:E; [|done].
  apply init_run_all in E as (H1 & H2 & H3 & H4). intros (H5 & H6)%IH. split; [auto|].
  intros x Hx. destruct (decide (x = i + j)) as [->|]; [auto|].
  destruct (decide (x < i + j)); [|apply H6; lia].
  apply H5, Hkeep. replace x with (i + (x - i)) by lia. apply H2. lia.
Qed.

Lemma chain_init_all fuel cells f :
  chain_init fix_head fix_index related fuel size N cells = Some f ->
  forall x, INDEX_SHIFT N <= x < INDEX_SHIFT N + size -> Q f x.
Proof.
  unfold chain_init. repeat case_match; try done.
  intros [_ Hall]%init_partition_all x Hx. apply Hall. lia.
Qed.
End init_all.

(** With fewer indexes than cores the loop over the cores' shares never
    advances: no number of iterations is enough. *)
Lemma init_partition_diverges {C} `{ChainCell C} (fix_index : C -> C) related size N :
  0 < size < N -> forall fuel core_id (cells : Z -> C),
  init_partition fix_index related fuel size N (INDEX_SHIFT N) core_id cells = None.
Proof.
  intros Hs. assert (size / N = 0) as E by (apply Z.div_small; lia).
  induction fuel as [|fuel IH]; intros core_id cells; cbn [init_partition].
  - by rewrite (proj2 (Z.ltb_lt _ _)) by lia.
  - rewrite (proj2 (Z.ltb_lt _ _)) by lia. cbn [negb].
    destruct (Z.to_nat size) as [|n] eqn:En; [lia|]. cbn [init_run]. rewrite E. simpl.
    rewrite Z.add_0_r. apply IH.
Qed.

(** ** The abstract allocator *)

(** The array implements an allocator of the indexes below [usable] in which
    core [c] has the indexes [al c] allocated, oldest first; the others are
    free. *)
Definition chain_rep {C} `{ChainCell C} (N usable : Z) (f : Z -> C) (al : Z -> list Z) : Prop :=
  exists L, linked N usable f L /\ settled L /\
    forall c, L (PA c) = Z.add (INDEX_SHIFT N) <$> al c.

Definition is_allocated (al : Z -> list Z) (i : Z) : Prop := exists c, i ∈ al c.

Section rep.
Context {C : Type} `{ChainCell C, !ChainCellLaws C}.
Variables (N usable : Z).
Hypothesis (HN : 0 < N).

Lemma rep_in (L : place -> list Z) (al : Z -> list Z) c i :
  (forall c, L (PA c) = Z.add (INDEX_SHIFT N) <$> al c) ->
  INDEX_SHIFT N + i ∈ L (PA c) <-> i ∈ al c.
Proof.
  intros E. rewrite E, list_elem_of_fmap. split; [|eauto].
  intros (j & Hj & Hin). by assert (i = j) as -> by lia.
Qed.

Lemma rep_range f al i : chain_rep N usable f al -> is_allocated al i -> 0 <= i < usable.
Proof.
  intros (L & [_ Hp] & _ & E) [c Hi]. apply (rep_in L al c i E) in Hi.
  pose proof (part_elem N usable L _ _ Hp Hi). lia.
Qed.

Lemma rep_core f al c i : chain_rep N usable f al -> i ∈ al c -> 0 <= c < N.
Proof.
  intros (L & [_ Hp] & _ & E) Hi. apply (rep_in L al c i E) in Hi.
  exact (part_elem_valid N usable HN L (PA c) _ Hp Hi).
Qed.

(** An index is on one ring only, once. *)
Lemma rep_unique f al c d i :
  chain_rep N usable f al -> i ∈ al c -> i ∈ al d -> c = d.
Proof.
  intros (L & [_ Hp] & _ & E) Hc Hd. apply (rep_in L al c i E) in Hc.
  apply (rep_in L al d i E) in Hd.
  pose proof (part_disj N usable L Hp (PA c) (PA d) _ Hc Hd). congruence.
Qed.

Lemma rep_nodup f al c : chain_rep N usable f al -> NoDup (al c).
Proof.
  intros (L & [_ Hp] & _ & E). pose proof (part_nodup N usable L Hp (PA c)) as Hn.
  rewrite E in Hn. by apply NoDup_fmap_1 in Hn.
Qed.

(** The test every operation makes: a cell is marked free exactly when its
    index is not allocated. *)
Lemma rep_ind f al i :
  chain_rep N usable f al -> 0 <= i < usable ->
  list_ind (f (INDEX_SHIFT N + i)) = -1 <-> ~ is_allocated al i.
Proof.
  intros (L & HL & Hs & E) Hi. rewrite (linked_free N usable HN f L) by (done || lia).
  unfold is_allocated. setoid_rewrite (rep_in L al _ i E). naive_solver.
Qed.

Lemma rep_ind_alloc f al i :
  chain_rep N usable f al -> 0 <= i < usable ->
  list_ind (f (INDEX_SHIFT N + i)) <> -1 -> is_allocated al i.
Proof.
  intros (L & HL & Hs & E) Hi Hind. pose proof HL as [Hok Hpart].
  destruct (proj2 (part_range N usable L Hpart (INDEX_SHIFT N + i))) as [p Hp]; [lia|].
  pose proof (part_elem_valid N usable HN L p _ Hpart Hp) as Hv. specialize (Hok p Hv).
  destruct p as [d|d| |d].
  - exists d. by apply (rep_in L al d i E).
  - exfalso. apply Hind. by apply Hok.
  - exfalso. apply Hind. by apply Hok.
  - rewrite Hs in Hp. set_solver.
Qed.

Lemma rep_ind_core f al c i :
  chain_rep N usable f al -> i ∈ al c ->
  list_ind (f (INDEX_SHIFT N + i)) = Z.shiftl c LIST_HEAD_PADDING.
Proof.
  intros Hr Hi. pose proof (rep_core f al c i Hr Hi). destruct Hr as (L & HL & _ & E).
  eapply linked_allocated; [done|done|]. by apply (rep_in L al c i E).
Qed.

Lemma chain_rep_al (f : Z -> C) al al' :
  (forall c, al' c = al c) -> chain_rep N usable f al -> chain_rep N usable f al'.
Proof.
  intros E (L & HL & Hs & HA). exists L. do 2 (split; [done|]). intros c. by rewrite E, HA.
Qed.

Lemma rep_ext f f' al :
  (forall x, same_links (f x) (f' x)) -> chain_rep N usable f al -> chain_rep N usable f' al.
Proof.
  intros E (L & HL & Hs & HA). exists L. split; [|done]. by eapply linked_ext.
Qed.
End rep.

Lemma chain_init_rep {C} `{ChainCell C, !ChainCellLaws C} (fix_head fix_index : C -> C)
    `{!KeepsLinks fix_head, !KeepsLinks fix_index} related size N fuel (cells : Z -> C) :
  (forall i (f : Z -> C) x,
     INDEX_SHIFT N <= i -> x < INDEX_SHIFT N + size -> related i f x = f x) ->
  0 < N <= size -> size <= Z.of_nat fuel ->
  exists f, chain_init fix_head fix_index related fuel size N cells = Some f /\
    chain_rep N (N * (size / N)) f (fun _ => []).
Proof.
  intros Hrel HN Hfuel. assert (0 < size / N) as Hq by (apply Z.div_str_pos; lia).
  destruct (chain_init_linked fix_head fix_index related size N ltac:(lia) Hq Hrel fuel cells
    Hfuel) as (f & E & HL).
  exists f. split; [done|]. exists (fresh_lists size N). split; [done|]. split; [by intros c|done].
Qed.

Lemma chain_init_diverges {C} `{ChainCell C, !ChainCellLaws C} (fix_head fix_index : C -> C)
    `{!KeepsLinks fix_head, !KeepsLinks fix_index} related size N fuel (cells : Z -> C) :
  0 < size < N -> chain_init fix_head fix_index related fuel size N cells = None.
Proof.
  intros Hs. unfold chain_init. repeat case_match; try done.
  by apply init_partition_diverges.
Qed.
