(* ===== verification/Dchain.v ===== *)
(** * The index allocator

    src/src/double-chain-impl.c and double-chain.c.  Allocation takes an index
    from the core's own free list, or from the global one, which is refilled
    with one index of every core's free list when it is empty; freeing returns
    an index to the freeing core's list.  The allocation code is repeated word
    for word in double-chain-exp.c, with a time stamp, and is therefore
    written here for any type of cell and any [stamp]. *)

From stdpp Require Import strings.
From S2P Require Import Prelude Rlu Profiler Links.
Open Scope Z_scope.

(** ** Operations on the cells *)

Section operations.
Context {T C : Type} `{ChainCell C} (cells : RluMem T C) (NUM_FREE_LISTS : Z).

Definition ALLOC_LIST_HEAD : Z := 0.
Let FL : Z := FREE_LIST_HEAD NUM_FREE_LISTS.
Let GL : Z := GLOBAL_FREE_LIST_HEAD NUM_FREE_LISTS.
Let SHIFT : Z := INDEX_SHIFT NUM_FREE_LISTS.

(** One round of the loop that refills the global free list. *)
Definition migrate_one (i : Z) : M T unit :=
  let list_head_ind := Z.shiftl i LIST_HEAD_PADDING in
  let! list_head := deref cells (FL + list_head_ind) in
  let migrated := next list_head in
  if migrated =? FL + list_head_ind then ret tt
  else
    lock cells (FL + list_head_ind) ;;
    let! migratedp := deref cells migrated in
    modify cells (FL + list_head_ind) (set_both (next migratedp)) ;;
    lock cells migrated ;;
    let! glb_fl_head := load cells GL in
    modify cells migrated (fun c => set_list_ind (-1) (set_both (next glb_fl_head) c)) ;;
    modify cells GL (set_both migrated).

(** Where the index comes from. *)
Record source := Source {
  alloc_from_local : bool;
  alloc_from_glb : bool;
  glb_fl_refilled : bool;
  allocated : Z
}.

(** "Get a free index". *)
Definition get_free (core_id : Z) : M T source :=
  let al_head_ind := Z.shiftl core_id LIST_HEAD_PADDING in
  let! fl_head := deref cells (FL + al_head_ind) in
  if next fl_head =? FL + al_head_ind then
    lock cells GL ;;
    let! glb_fl_head := load cells GL in
    if next glb_fl_head =? GL then
      for_range 0 (Z.to_nat NUM_FREE_LISTS) migrate_one ;;
      let! glb_fl_head := load cells GL in
      let refilled := negb (next glb_fl_head =? GL) in
      ret (Source false refilled refilled (next glb_fl_head))
    else ret (Source false true false (next glb_fl_head))
  else ret (Source true false false (next fl_head)).

(** "Install the free index to the local list of allocated indexes": the
    last part, which adds the link to the "new"-end of the ring. *)
Definition add_to_al_list (stamp : C -> C) (core_id allocated : Z) : M T unit :=
  let al_head_ind := Z.shiftl core_id LIST_HEAD_PADDING in
  modify cells allocated (set_next (ALLOC_LIST_HEAD + al_head_ind)) ;;
  let! al_head := deref cells (ALLOC_LIST_HEAD + al_head_ind) in
  modify cells allocated
    (fun c => stamp (set_list_ind al_head_ind (set_prev (prev al_head) c))) ;;
  if negb (prev al_head =? ALLOC_LIST_HEAD + al_head_ind) then
    lock cells (prev al_head) ;;
    modify cells (prev al_head) (set_next allocated) ;;
    lock cells (ALLOC_LIST_HEAD + al_head_ind) ;;
    modify cells (ALLOC_LIST_HEAD + al_head_ind) (set_prev allocated)
  else
    lock cells (ALLOC_LIST_HEAD + al_head_ind) ;;
    modify cells (ALLOC_LIST_HEAD + al_head_ind)
      (fun c => set_prev allocated (set_next allocated c)).

(** [Some i]: return 1 with *index = i; [None]: return 0. *)
Definition chain_allocate_new_index (stamp : C -> C) (core_id : Z) : M T (option Z) :=
  let al_head_ind := Z.shiftl core_id LIST_HEAD_PADDING in
  let! src := get_free core_id in
  if negb (alloc_from_local src) && negb (alloc_from_glb src) then ret None
  else
    (if negb (glb_fl_refilled src) then lock cells (allocated src) else ret tt) ;;
    let! allocp := load cells (allocated src) in
    (if alloc_from_glb src then modify cells GL (set_both (next allocp))
     else
       lock cells (FL + al_head_ind) ;;
       modify cells (FL + al_head_ind) (set_both (next allocp))) ;;
    add_to_al_list stamp core_id (allocated src) ;;
    ret (Some (allocated src - SHIFT)).

(** 1 ([true]) if the index has been freed, 0 if it was free already. *)
Definition nfos_dchain_impl_free_index (index core_id : Z) : M T bool :=
  let al_head_ind := Z.shiftl core_id LIST_HEAD_PADDING in
  let freed := index + SHIFT in
  let! freedp := deref cells freed in
  if list_ind freedp =? -1 then ret false
  else
    let freed_prev := prev freedp in
    let freed_next := next freedp in
    (if negb (freed_prev =? freed_next) then
       lock cells freed_prev ;;
       lock cells freed_next ;;
       modify cells freed_prev (set_next freed_next) ;;
       modify cells freed_next (set_prev freed_prev)
     else
       lock cells freed_prev ;;
       modify cells freed_prev (fun c => set_prev freed_prev (set_next freed_next c))) ;;
    let! fr_head := deref cells (FL + al_head_ind) in
    lock cells freed ;;
    modify cells freed (fun c => set_list_ind (-1) (set_both (next fr_head) c)) ;;
    lock cells (FL + al_head_ind) ;;
    modify cells (FL + al_head_ind) (set_both freed) ;;
    ret true.
End operations.

(** ** The allocator of double-chain.c *)

Record nfos_dchain_cell := DchainCell {
  dc_prev : Z;
  dc_next : Z;
  dc_list_ind : Z
}.
#[export] Instance dchain_cell : ChainCell nfos_dchain_cell := {|
  prev := dc_prev; next := dc_next; list_ind := dc_list_ind;
  set_prev v c := DchainCell v (dc_next c) (dc_list_ind c);
  set_next v c := DchainCell (dc_prev c) v (dc_list_ind c);
  set_list_ind v c := DchainCell (dc_prev c) (dc_next c) v
|}.
#[export] Instance dchain_cell_laws : ChainCellLaws nfos_dchain_cell.
Proof. by split. Qed.

Definition nfos_dchain_impl_init (fuel : nat) (cells : Z -> nfos_dchain_cell)
    (size num_cores : Z) : option (Z -> nfos_dchain_cell) :=
  chain_init (fun c => c) (fun c => c) (fun _ f => f) fuel size num_cores cells.

Definition nfos_dchain_impl_allocate_new_index {T} (cells : RluMem T nfos_dchain_cell)
    (num_cores core_id : Z) : M T (option Z) :=
  chain_allocate_new_index cells num_cores (fun c => c) core_id.

(** [lcores]: the answer of rte_lcore_count; the outer option is fuel, the
    inner one the failure of an allocation. *)
Definition nfos_dchain_allocate_t (malloc_ok rte_malloc_ok : bool) (fuel : nat)
    (rlu_alloc : Z -> nfos_dchain_cell) (lcores index_range : Z)
    : option (option (Z -> nfos_dchain_cell)) :=
  let num_cores := lcores - 1 in
  if negb malloc_ok then Some None
  else if negb rte_malloc_ok then Some None
  else match nfos_dchain_impl_init fuel rlu_alloc index_range num_cores with
       | Some cells => Some (Some cells)
       | None => None
       end.

(** The calling thread's number is the core whose lists are used. *)
Definition nfos_dchain_allocate_new_index_t {T} (cells : RluMem T nfos_dchain_cell)
    (num_cores thread_id : Z) : M T (option Z) :=
  nfos_dchain_impl_allocate_new_index cells num_cores thread_id.
Definition nfos_dchain_free_index_t {T} (cells : RluMem T nfos_dchain_cell)
    (num_cores thread_id index : Z) : M T bool :=
  nfos_dchain_impl_free_index cells num_cores index thread_id.

Section debug.
Context {T P : Type} `{MvrluProfiler P}.

Definition nfos_dchain_allocate_debug_t (malloc_ok rte_malloc_ok : bool) (fuel : nat)
    (rlu_alloc : Z -> nfos_dchain_cell) (lcores index_range : Z)
    (di_map : ds_inst_map) (chain_out : Z) (filename : string) (lineno : Z)
    : option (option (Z -> nfos_dchain_cell)) * option ds_inst_map :=
  (nfos_dchain_allocate_t malloc_ok rte_malloc_ok fuel rlu_alloc lcores index_range,
   profiler_add_ds_inst di_map chain_out filename lineno).
Definition nfos_dchain_allocate_new_index_debug_t (cells : RluMem T nfos_dchain_cell)
    (num_cores thread_id addr : Z) : M ((P * ds_op_cache) * T) (option Z) :=
  debug_op thread_id addr 4 0 []
    (nfos_dchain_allocate_new_index_t cells num_cores thread_id).
Definition nfos_dchain_free_index_debug_t (cells : RluMem T nfos_dchain_cell)
    (num_cores thread_id addr index : Z) (index_bytes : list Z)
    : M ((P * ds_op_cache) * T) bool :=
  debug_op thread_id addr 4 1 index_bytes
    (nfos_dchain_free_index_t cells num_cores thread_id index).
End debug.

(** ** The surgery done by the code *)

(** [mem cells t f]: in [t] the cells read as [f]. *)
Definition mem {T C} (cells : RluMem T C) (t : T) (f : Z -> C) : Prop := holds cells t f [].

Lemma mem_of {T C} (cells : RluMem T C) t f ls : holds cells t f ls -> mem cells t f.
Proof. intros [Hv _]. split; [done|]. intros l Hl. by apply not_elem_of_nil in Hl. Qed.

Section chain_wp.
Context {T C : Type} `{ChainCell C, !ChainCellLaws C} `{RluTxn T}.
Context (cells : RluMem T C) `{!RluLaws cells} (N usable : Z).
Hypothesis (HN : 0 < N).
Context (R : T -> T -> Prop) `{!TxnRel R, !MemRel cells R}.
Context {X : Type} (pay : C -> X) `{!Payload pay}.
Let FL : Z := FREE_LIST_HEAD N.
Let GL : Z := GLOBAL_FREE_LIST_HEAD N.
Let SHIFT : Z := INDEX_SHIFT N.

Lemma wp_add_to_al_list stamp c x t f ls (Q : unit -> T -> Prop) :
  let h := Z.shiftl c LIST_HEAD_PADDING in
  holds cells t f ls -> x ∈ ls -> h <> x -> prev (f h) <> x ->
  (forall t', mem cells t' (append stamp f h h x) -> Q tt t') ->
  wp R (add_to_al_list cells stamp c x) t Q.
Proof.
  intros h Hh Hx Hhx Hlx HQ. unfold add_to_al_list. cbv zeta. unfold ALLOC_LIST_HEAD.
  fold h. rewrite !Z.add_0_l. clearbody h.
  do 6 wstep. rewrite (fn_lookup_insert_ne f) by done.
  destruct (Z.eqb_spec (prev (f h)) h) as [E|E]; cbn [negb].
  - wstep. wstep. wstep. apply HQ. eapply mem_of, holds_ext; [|eassumption].
    intros y. unfold append. cbv zeta. rewrite E, !fn_insert_dec.
    repeat (case_decide; subst; simplify_eq); first [done|congruence].
  - do 6 wstep. wstep. apply HQ. eapply mem_of, holds_ext; [|eassumption].
    intros y. unfold append. cbv zeta. rewrite !fn_insert_dec.
    repeat (case_decide; subst; simplify_eq); try done; congruence.
Qed.

(** The global list as the refill leaves it: its head and cells are locked. *)
Definition refilling (f0 : Z -> C) (t : T) (L : place -> list Z) : Prop :=
  exists f ls, (forall y, pay (f y) = pay (f0 y)) /\ holds cells t f ls /\ linked N usable f L /\ settled L /\
    GL ∈ ls /\ (forall x, x ∈ L PG -> x ∈ ls).

(** Taking the first index of the free list [p] into the hands of a core. *)
Lemma popped f L p x l :
  linked N usable f L -> valid N p -> free_place p -> L p = x :: l ->
  next (f (head N p)) = x /\ head N p <> x.
Proof.
  intros HL Hv Hp E. split; [by rewrite (free_head N usable f L p HL Hv Hp), E|].
  pose proof HL as [_ Hpart]. pose proof (head_low N HN p Hv).
  pose proof (part_elem N usable L p x Hpart ltac:(rewrite E; left)). lia.
Qed.

Lemma wp_migrate_one f0 i t L (Q : unit -> T -> Prop) :
  refilling f0 t L -> 0 <= i < N ->
  (forall t' L', refilling f0 t' L' -> (forall c, L' (PA c) = L (PA c)) ->
     (L' PG = [] -> L' (PF i) = [] /\ forall p, L' p = L p) -> Q tt t') ->
  wp R (migrate_one cells N i) t Q.
Proof.
  intros (f & ls & Hp & Hh & HL & Hs & Hgl & Hlk) Hi HQ. unfold migrate_one. cbv zeta.
  fold FL GL. change (FL + Z.shiftl i LIST_HEAD_PADDING) with (head N (PF i)).
  wstep. wstep. rewrite (free_head N usable f L (PF i)) by done.
  destruct (L (PF i)) as [|x l] eqn:E.
  { rewrite Z.eqb_refl. wstep. apply (HQ t L); [by exists f, ls|done|done]. }
  destruct (popped f L (PF i) x l HL Hi I E) as [Hx Hhx].
  rewrite (proj2 (Z.eqb_neq _ _)) by done.
  do 8 wstep. wstep. wstep. wstep. wstep. wstep.
  pose proof (linked_pop N usable HN f L (PF i) 0 x l HL Hi I ltac:(lia) E) as HL1.
  pose proof (linked_push N usable HN (fun c => c) _ _ PG 0 x [] HL1 I I ltac:(lia)) as HL2.
  unfold move in HL2 at 1. rewrite fn_lookup_insert, Hs in HL2. specialize (HL2 eq_refl).
  eapply HQ.
  - eexists _, _. split; [|split; [eapply holds_ext; [|eassumption]|split; [exact HL2|split; [|split]]]].
    + intros y. destruct (decide (x = y)) as [<-|]; rewrite <- Hp.
      * rewrite (pay_push_at pay).
        { unfold set_both. autorewrite with links. by apply (pay_pop pay). }
        apply (cell_not_head N usable HN f L (PF i) PG); [done|rewrite E; left|done].
      * rewrite (pay_push pay) by done. by apply (pay_pop pay).
    + intros y. unfold push, pop. rewrite Hx. done.
    + intros c. unfold move. rewrite !fn_insert_dec. repeat (case_decide; simplify_eq); auto.
    + set_solver.
    + intros y. unfold move. rewrite !fn_insert_dec. cbn. set_solver.
  - intros c. unfold move. by rewrite !fn_insert_dec.
  - unfold move. by rewrite fn_lookup_insert.
Qed.

(** What get_free has found: nothing, and then no list has a free index, or
    the first index of the core's or of the global list, with the locks the
    code relies on later. *)
Definition found (f0 : Z -> C) (c : Z) (L : place -> list Z) (src : source) (t : T) : Prop :=
  exists f ls L', (forall y, pay (f y) = pay (f0 y)) /\ holds cells t f ls /\ linked N usable f L' /\ settled L' /\
    (forall d, L' (PA d) = L (PA d)) /\
    match alloc_from_local src, alloc_from_glb src with
    | false, false => forall p, free_place p -> L' p = []
    | true, false =>
        glb_fl_refilled src = false /\ exists l, L' (PF c) = allocated src :: l
    | false, true =>
        GL ∈ ls /\ (glb_fl_refilled src = true -> allocated src ∈ ls) /\
        exists l, L' PG = allocated src :: l
    | true, true => False
    end.

Lemma wp_get_free c t f L (Q : source -> T -> Prop) :
  mem cells t f -> linked N usable f L -> settled L -> 0 <= c < N ->
  (forall src t', found f c L src t' -> Q src t') ->
  wp R (get_free cells N c) t Q.
Proof.
  intros Hh HL Hs Hc HQ. unfold mem in Hh. unfold get_free. cbv zeta.
  fold FL GL. change (FL + Z.shiftl c LIST_HEAD_PADDING) with (head N (PF c)).
  wstep. wstep. rewrite (free_head N usable f L (PF c)) by done.
  destruct (L (PF c)) as [|x l] eqn:E.
  2: { destruct (popped f L (PF c) x l HL Hc I E) as [Hx Hhx].
       rewrite (proj2 (Z.eqb_neq _ _)) by done. wstep. apply HQ.
       exists f, [], L. do 5 (split; [done|]). cbn. split; [done|]. by exists l. }
  rewrite Z.eqb_refl. do 4 wstep. change GL with (head N PG).
  rewrite (free_head N usable f L PG) by done. destruct (L PG) as [|x l] eqn:EG.
  2: { destruct (popped f L PG x l HL I I EG) as [Hx Hhx].
       rewrite (proj2 (Z.eqb_neq _ _)) by done. wstep. apply HQ.
       exists f, [GL], L. do 5 (split; [done|]). cbn. split; [by left|]. split; [done|]. by exists l. }
  rewrite Z.eqb_refl. wstep.
  pose (I := fun (i : Z) t => exists L', refilling f t L' /\ (forall d, L' (PA d) = L (PA d)) /\
    (L' PG = [] -> forall d, 0 <= d < i -> L' (PF d) = [])).
  eapply wp_mono; [|apply (wp_for_range R I)].
  - intros [] t1 _ (L' & (f' & ls & Hp & Hh' & HL' & Hs' & Hgl & Hlk) & HA & Hempty).
    wstep. wstep. change GL with (head N PG). wstep. apply HQ.
    exists f', ls, L'. do 5 (split; [done|]). cbn.
    rewrite (free_head N usable f' L' PG) by done.
    destruct (L' PG) as [|y l] eqn:EG'.
    + rewrite Z.eqb_refl. cbn. intros [d|d| |d] Hfree; try done.
      destruct (decide (0 <= d < N)); [apply Hempty; [done|lia]|].
      by apply (part_valid N usable L' (linked_part _ _ _ _ HL') (PF d)).
    + destruct (popped f' L' PG y l HL' Logic.I Logic.I EG') as [_ Hhy].
      rewrite (proj2 (Z.eqb_neq _ _)) by done. cbn. split; [done|]. split; [|by exists l].
      intros _. apply Hlk. by left.
  - exists L. split; [|split; [done|lia]]. exists f, [GL]. split; [done|].
    do 3 (split; [done|]). split; [by left|]. rewrite EG. set_solver.
  - intros j t1 Hj (L' & Hr & HA & Hempty).
    eapply wp_migrate_one; [exact Hr|lia|]. intros t2 L2 Hr2 HA2 Hsame.
    exists L2. split; [done|]. split; [intros d; by rewrite HA2|].
    intros EG2 d Hd. destruct (Hsame EG2) as [Hj0 Heq].
    destruct (decide (d = j)) as [->|]; [done|]. rewrite Heq. apply Hempty; [|lia].
    by rewrite <- Heq.
Qed.

(** Installing the index found at the front of the free list [p]. *)
Lemma install stamp `{!KeepsLinks stamp} f L al p c x l :
  linked N usable f L -> settled L -> (forall d, L (PA d) = Z.add SHIFT <$> al d) ->
  valid N p -> free_place p -> 0 <= c < N -> L p = x :: l ->
  let h := Z.shiftl c LIST_HEAD_PADDING in
  let f1 := pop f (head N p) in
  let f2 := append stamp f1 h h x in
  0 <= x - SHIFT < usable /\ ~ is_allocated al (x - SHIFT) /\
  chain_rep N usable f2 (<[c := al c ++ [x - SHIFT]]> al) /\
  h <> x /\ prev (f1 h) <> x /\ head N p <> x /\
  (forall y, y <> x -> pay (f2 y) = pay (f y)) /\ exists c0, pay (f2 x) = pay (stamp c0).
Proof.
  intros HL Hs HA Hv Hp Hc E h f1 f2. pose proof HL as [_ Hpart].
  assert (x ∈ L p) as Hxp by (rewrite E; left).
  pose proof (part_elem N usable L p x Hpart Hxp) as Hrange.
  assert (p <> PH c) as Hpc by (by intros ->).
  pose proof (linked_pop N usable HN f L p c x l HL Hv Hp Hc E) as HL1. fold f1 in HL1.
  set (L1 := move p (PH c) l (x :: L (PH c)) L) in *.
  assert (L1 (PH c) = [x]) as E1 by (unfold L1, move; by rewrite fn_lookup_insert, Hs).
  pose proof (linked_append N usable HN stamp f1 L1 c c x [] HL1 Hc Hc E1) as HL2.
  assert (forall d, L1 (PA d) = L (PA d)) as EA.
  { intros d. unfold L1, move. rewrite !fn_insert_dec. repeat case_decide; by subst. }
  assert (h <> x) as Hhx.
  { apply (cell_not_head N usable HN f L p (PA c) x); done. }
  assert (prev (f1 h) <> x) as Hlx.
  { pose proof (ring_last N f1 c _ (linked_ok _ _ _ _ HL1 (PA c) Hc)) as El.
    change (head N (PA c)) with h in El. rewrite El, EA.
    pose proof (lastof_in h (L (PA c))) as [->|Hl]%elem_of_cons; [done|].
    intros Elx. rewrite Elx in Hl.
    pose proof (part_disj _ _ _ Hpart _ _ _ Hl Hxp). by subst. }
  split; [unfold SHIFT; lia|]. split.
  { intros [d Hd]. apply (rep_in N L al d _ HA) in Hd.
    replace (INDEX_SHIFT N + (x - SHIFT)) with x in Hd by (unfold SHIFT; lia).
    pose proof (part_disj _ _ _ Hpart _ _ _ Hd Hxp). by subst. }
  split.
  { eexists. split; [exact HL2|]. split.
    - intros d. unfold move. rewrite !fn_insert_dec. do 2 (case_decide; [done|]).
      unfold L1, move. rewrite !fn_insert_dec. case_decide; [by simplify_eq|].
      case_decide; [by subst|]. apply Hs.
    - intros d. unfold move. rewrite !fn_insert_dec.
      destruct (decide (c = d)) as [<-|Hcd].
      + rewrite decide_True by done. rewrite fmap_app. cbn [fmap list_fmap].
        rewrite EA, HA. fold SHIFT. do 2 f_equal. lia.
      + rewrite !decide_False by congruence. by rewrite EA, HA. }
  do 2 (split; [done|]). split; [by apply (cell_not_head N usable HN f L p p x)|]. split.
  - intros y Hy. unfold f2. rewrite (pay_append pay) by (done || congruence).
    by apply (pay_pop pay).
  - eexists. unfold f2. by apply (pay_append_at pay).
Qed.

(** What a call of the allocator may leave behind. *)
Definition allocated_post (stamp : C -> C) c (f0 : Z -> C) al (r : option Z) (t' : T) : Prop :=
  exists f', mem cells t' f' /\
  match r with
  | Some i =>
      0 <= i < usable /\ ~ is_allocated al i /\
      chain_rep N usable f' (<[c := al c ++ [i]]> al) /\
      (forall y, y <> SHIFT + i -> pay (f' y) = pay (f0 y)) /\
      exists c0, pay (f' (SHIFT + i)) = pay (stamp c0)
  | None =>
      (forall i, 0 <= i < usable -> is_allocated al i) /\ chain_rep N usable f' al /\
      (forall y, pay (f' y) = pay (f0 y))
  end.

Lemma wp_chain_allocate stamp `{!KeepsLinks stamp} c t f al (Q : option Z -> T -> Prop) :
  mem cells t f -> chain_rep N usable f al -> 0 <= c < N ->
  (forall r t', allocated_post stamp c f al r t' -> Q r t') ->
  wp R (chain_allocate_new_index cells N stamp c) t Q.
Proof.
  intros Hh (L & HL & Hs & HA) Hc HQ. unfold chain_allocate_new_index. cbv zeta.
  wstep. eapply wp_get_free; [done..|].
  intros [loc glb refilled x] t1 (f1 & ls & L1 & Hp & Hh1 & HL1 & Hs1 & HA1 & Hf). cbn in *.
  assert (forall d, L1 (PA d) = Z.add SHIFT <$> al d) as HA' by (intros; by rewrite HA1).
  assert (forall p l t2, L1 p = x :: l -> valid N p -> free_place p ->
    mem cells t2 (append stamp (pop f1 (head N p)) (Z.shiftl c LIST_HEAD_PADDING)
              (Z.shiftl c LIST_HEAD_PADDING) x) -> Q (Some (x - SHIFT)) t2) as Hend.
  { intros p l t2 E Hv Hfp Hm.
    destruct (install stamp f1 L1 al p c x l HL1 Hs1 HA' Hv Hfp Hc E)
      as (? & ? & ? & _ & _ & _ & Hpay & c0 & Hx).
    apply HQ. eexists. split; [exact Hm|].
    replace (SHIFT + (x - SHIFT)) with x by lia.
    do 3 (split; [done|]). split; [|by exists c0]. intros y Hy. by rewrite Hpay, Hp. }
  destruct loc, glb; cbn [negb andb]; try done.
  - destruct Hf as [-> [l E]]. cbn [negb].
    destruct (install stamp f1 L1 al (PF c) c x l HL1 Hs1 HA' Hc I Hc E)
      as (_ & _ & _ & Hhx & Hlx & Hpx & _).
    do 9 wstep. eapply wp_add_to_al_list; wp_tc; [eassumption|set_solver|done| |].
    + unfold pop in Hlx. rewrite (free_head N usable f1 L1 (PF c)), E in Hlx by done. exact Hlx.
    + intros tz Hm. wstep. apply (Hend (PF c) l); [done..|].
      unfold pop. rewrite (free_head N usable f1 L1 (PF c)), E by done. exact Hm.
  - destruct Hf as (Hgl & Hrx & l & E).
    destruct (install stamp f1 L1 al PG c x l HL1 Hs1 HA' I I Hc E)
      as (_ & _ & _ & Hhx & Hlx & Hpx & _).
    wstep. apply wp_mono with (fun _ t' => exists ls, holds cells t' f1 ls /\ GL ∈ ls /\ x ∈ ls).
    2: { destruct refilled; cbn [negb]; [wstep; by exists ls; auto|].
         wstep. eexists. split; [eassumption|]. set_solver. }
    intros [] t2 _ (ls' & Hh2 & Hgl' & Hx').
    do 5 wstep. eapply wp_add_to_al_list; wp_tc; [eassumption|done|done| |].
    + unfold pop in Hlx. rewrite (free_head N usable f1 L1 PG), E in Hlx by done. exact Hlx.
    + intros tz Hm. wstep. apply (Hend PG l); [done..|].
      unfold pop. rewrite (free_head N usable f1 L1 PG), E by done. exact Hm.
  - wstep. apply HQ. exists f1. split; [by eapply mem_of|]. split; [|split; [|done]].
    + intros i Hi. destruct HL1 as [_ Hpart].
      destruct (proj2 (part_range N usable L1 Hpart (SHIFT + i))) as [p Hin]; [unfold SHIFT; lia|].
      destruct p as [d|d| |d].
      * exists d. by apply (rep_in N L1 al d i HA').
      * rewrite Hf in Hin by done. set_solver.
      * rewrite Hf in Hin by done. set_solver.
      * rewrite Hs1 in Hin. set_solver.
    + by exists L1.
Qed.

(** Freeing: the index leaves its ring for the free list of core [c]. *)
Lemma unlink_push g `{!KeepsLinks g} f L al c d l1 i l2 :
  linked N usable f L -> settled L -> (forall d, L (PA d) = Z.add SHIFT <$> al d) ->
  0 <= c < N -> al d = l1 ++ i :: l2 ->
  let x := SHIFT + i in
  chain_rep N usable (push g (remove f x) (head N (PF c)) x) (<[d := l1 ++ l2]> al) /\
  head N (PF c) <> x /\ prev (f x) <> x /\ next (f x) <> x /\
  (prev (f x) <> head N (PF c)) /\ next (f x) <> head N (PF c).
Proof.
  intros HL Hs HA Hc E x. pose proof HL as [_ Hpart].
  assert (L (PA d) = (Z.add SHIFT <$> l1) ++ x :: (Z.add SHIFT <$> l2)) as EL.
  { rewrite HA, E, fmap_app. done. }
  assert (x ∈ L (PA d)) as Hx by (rewrite EL, elem_of_app; right; left).
  assert (0 <= d < N) as Hd by (exact (part_elem_valid N usable HN L (PA d) x Hpart Hx)).
  pose proof (linked_remove N usable HN f L c d _ x _ HL Hc Hd EL) as HL1.
  set (L1 := move _ _ _ _ _) in HL1.
  assert (L1 (PH c) = [x]) as E1 by (unfold L1, move; by rewrite fn_lookup_insert, Hs).
  pose proof (linked_push N usable HN g _ L1 (PF c) c x [] HL1 Hc I Hc E1) as HL2.
  split.
  { eexists. split; [exact HL2|]. split.
    - intros e. unfold move. rewrite !fn_insert_dec. do 2 (case_decide; [done|]).
      unfold L1, move. rewrite !fn_insert_dec. case_decide; [congruence|].
      case_decide; [done|]. apply Hs.
    - intros e. unfold move. rewrite !fn_insert_dec. do 2 (case_decide; [done|]).
      unfold L1, move. rewrite !fn_insert_dec. case_decide; [done|].
      destruct (decide (d = e)) as [<-|Hde]; [rewrite decide_True by done; by rewrite fmap_app|].
      rewrite decide_False by congruence. apply HA. }
  pose proof (cells_nodup N usable HN L (PA d) Hpart Hd) as Hnd.
  pose proof (linked_ok _ _ _ _ HL (PA d) Hd) as Hok. rewrite EL in Hnd, Hok.
  destruct (ring_remove N HN f d _ x _ Hnd Hok) as (_ & Ep & En).
  assert (lastof (head N (PA d)) (Z.add SHIFT <$> l1) ∈ head N (PA d) :: (Z.add SHIFT <$> l1))
    as Hl1 by apply lastof_in.
  assert (lastof (head N (PA d)) (reverse (Z.add SHIFT <$> l2)) ∈
    head N (PA d) :: (Z.add SHIFT <$> l2)) as Hl2.
  { pose proof (lastof_in (head N (PA d)) (reverse (Z.add SHIFT <$> l2))) as H'.
    apply elem_of_cons in H' as [->|H']; [left|right]. by rewrite elem_of_reverse in H'. }
  rewrite <- Ep in Hl1. rewrite <- En in Hl2.
  rewrite app_comm_cons, NoDup_app in Hnd. destruct Hnd as (_ & Hdisj & Hnd2).
  apply NoDup_cons in Hnd2 as [Hx2 _].
  split; [by apply (cell_not_head N usable HN f L (PA d) (PF c) x)|].
  assert (forall y, y ∈ head N (PA d) :: L (PA d) -> y <> head N (PF c)) as Hoth.
  { intros y Hy ->. apply (cells_disj N usable HN L (PA d) (PF c) (head N (PF c))); try done.
    left. }
  rewrite EL in Hoth. split; [|split; [|split]].
  - intros Ex. rewrite Ex in Hl1. apply (Hdisj x Hl1). left.
  - intros Ex. rewrite Ex in Hl2. apply elem_of_cons in Hl2 as [->|Hl2]; [|done].
    apply (Hdisj (head N (PA d))); left.
  - apply Hoth. apply elem_of_cons in Hl1 as [->|Hl1]; [left|right]. apply elem_of_app. by left.
  - apply Hoth. apply elem_of_cons in Hl2 as [->|Hl2]; [left|right]. apply elem_of_app.
    right. by right.
Qed.

Lemma wp_free_index i c t f al (Q : bool -> T -> Prop) :
  mem cells t f -> chain_rep N usable f al -> 0 <= i < usable -> 0 <= c < N ->
  (forall d l1 l2 t' f', al d = l1 ++ i :: l2 -> mem cells t' f' ->
     chain_rep N usable f' (<[d := l1 ++ l2]> al) -> Q true t') ->
  (~ is_allocated al i -> Q false t) ->
  wp R (nfos_dchain_impl_free_index cells N i c) t Q.
Proof.
  intros Hh Hr Hi Hc HQ HQ'. unfold mem in Hh. unfold nfos_dchain_impl_free_index. cbv zeta.
  fold SHIFT FL. rewrite (Z.add_comm i). set (x := SHIFT + i). wstep. wstep.
  destruct (Z.eqb_spec (list_ind (f x)) (-1)) as [E1|E1].
  { wstep. apply HQ'. by apply (rep_ind N usable HN f al i Hr Hi). }
  destruct (rep_ind_alloc N usable HN f al i Hr Hi E1) as [d Hd].
  apply list_elem_of_split in Hd as (l1 & l2 & E).
  destruct Hr as (L & HL & Hs & HA).
  destruct (unlink_push (fun c => c) f L al c d l1 i l2 HL Hs HA Hc E)
    as (Hrep & Hhx & Hpx & Hnx & Hph & Hnh). fold x in Hrep, Hhx, Hpx, Hnx, Hph, Hnh.
  change (FL + Z.shiftl c LIST_HEAD_PADDING) with (head N (PF c)).
  wstep. apply wp_mono with (fun _ t' => exists ls, holds cells t' (remove f x) ls).
  { intros [] t1 _ [ls Hh1]. do 10 wstep. wstep. eapply (HQ d l1 l2 _ _ E); [|exact Hrep].
    eapply mem_of, holds_ext; [|eassumption]. intros y. unfold push. cbv zeta.
    rewrite !fn_insert_dec. repeat (case_decide; subst; simplify_eq); done. }
  destruct (Z.eqb_spec (prev (f x)) (next (f x))) as [Epn|Epn]; cbn [negb].
  - do 3 wstep. eexists. eapply holds_ext; [|eassumption]. intros y. unfold remove. cbv zeta.
    rewrite !fn_insert_dec. rewrite <- Epn. repeat (case_decide; subst; simplify_eq); done.
  - do 7 wstep. eexists. eapply holds_ext; [|eassumption]. intros y. unfold remove. cbv zeta.
    rewrite !fn_insert_dec. repeat (case_decide; subst; simplify_eq); done.
Qed.
End chain_wp.

(** ** Properties *)

(** The allocator as the critical section [t] sees it. *)
Definition dchain_rep {T C} `{ChainCell C} (cells : RluMem T C) (N usable : Z) (t : T)
    (al : Z -> list Z) : Prop := chain_rep N usable (view cells t) al.

Lemma mem_rep {T C} `{ChainCell C, !ChainCellLaws C} (cells : RluMem T C) N usable t f al :
  0 < N -> mem cells t f -> chain_rep N usable f al -> dchain_rep cells N usable t al.
Proof.
  intros HN [Hv _] Hr. apply (rep_ext N usable HN f); [|done]. intros x. by rewrite Hv.
Qed.

#[export] Instance no_payload {C} `{ChainCell C} : Payload (fun _ : C => tt).
Proof. by split. Qed.

Lemma dchain_allocate_ok (malloc_ok rte_ok : bool) (fuel : nat)
    (rlu_alloc : Z -> nfos_dchain_cell) (lcores index_range : Z)
    (Hcores : 1 < lcores) (Hrange : lcores - 1 <= index_range)
    (Hfuel : index_range <= Z.of_nat fuel) :
  match nfos_dchain_allocate_t malloc_ok rte_ok fuel rlu_alloc lcores index_range with
  | Some (Some cells) => malloc_ok && rte_ok = true /\
      chain_rep (lcores - 1) ((lcores - 1) * (index_range / (lcores - 1))) cells (fun _ => [])
  | Some None => malloc_ok && rte_ok = false
  | None => False
  end.
Proof.
  unfold nfos_dchain_allocate_t. destruct malloc_ok, rte_ok; simpl; try done.
  unfold nfos_dchain_impl_init.
  destruct (chain_init_rep (fun c => c) (fun c => c) (fun _ f => f) index_range (lcores - 1)
    fuel rlu_alloc) as (f & -> & Hr); [done|lia|lia|done].
Qed.

(** Nfos_dchain_allocate initialises an allocator in which nothing is
    allocated and every core owns index_range / num_cores free indexes: the
    loops terminate, the lists are well formed and together hold exactly the
    indexes 0 to num_cores * (index_range / num_cores) - 1. *)
Theorem nfos_dchain_allocate_fresh (malloc_ok rte_ok : bool) (fuel : nat)
    (rlu_alloc : Z -> nfos_dchain_cell) (lcores index_range : Z)
    (Hcores : 1 < lcores) (Hrange : lcores - 1 <= index_range)
    (Hfuel : index_range <= Z.of_nat fuel) :
  match nfos_dchain_allocate_t malloc_ok rte_ok fuel rlu_alloc lcores index_range with
  | Some (Some cells) => malloc_ok && rte_ok = true /\
      chain_rep (lcores - 1) ((lcores - 1) * (index_range / (lcores - 1))) cells (fun _ => [])
  | Some None => malloc_ok && rte_ok = false
  | None => False
  end.
Proof. by apply dchain_allocate_ok. Qed.

Lemma nfos_dchain_allocate_fresh_witness :
  match nfos_dchain_allocate_t true true 5 (fun _ => DchainCell 7 7 7) 3 5 with
  | Some (Some cells) => true && true = true /\
      chain_rep (3 - 1) ((3 - 1) * (5 / (3 - 1))) cells (fun _ => [])
  | Some None => true && true = false
  | None => False
  end.
Proof. apply nfos_dchain_allocate_fresh; lia. Defined.

(** With fewer indexes than data-plane cores nfos_dchain_allocate never
    returns: the share of a core is 0 and the loop that hands out the shares
    does not advance, whatever number of iterations is allowed. *)
Theorem nfos_dchain_allocate_diverges (fuel : nat) (rlu_alloc : Z -> nfos_dchain_cell)
    (lcores index_range : Z) (Hrange : 0 < index_range < lcores - 1) :
  nfos_dchain_allocate_t true true fuel rlu_alloc lcores index_range = None.
Proof.
  unfold nfos_dchain_allocate_t, nfos_dchain_impl_init. simpl.
  by rewrite chain_init_diverges.
Qed.

Lemma nfos_dchain_allocate_diverges_witness :
  nfos_dchain_allocate_t true true 1000 (fun _ => DchainCell 0 0 0) 40 32 = None.
Proof. apply nfos_dchain_allocate_diverges. lia. Defined.

(** C22: nfos_dchain_allocate_new_index refines allocation from a set of
    indexes: it returns an index that no core has allocated and appends it to
    the caller's allocated list, or it returns 0 and then every index of every
    core is allocated (free indexes of other cores are found); it aborts only
    because of another thread. *)
Theorem nfos_dchain_allocate_new_index_spec {T} `{RluTxn T}
    (cells : RluMem T nfos_dchain_cell) `{!RluLaws cells} (N usable core_id : Z)
    (al : Z -> list Z) (t : T) (Hc : 0 <= core_id < N)
    (Hr : dchain_rep cells N usable t al) :
  match nfos_dchain_allocate_new_index_t cells N core_id t with
  | (Some (Some i), t') =>
      0 <= i < usable /\ ~ is_allocated al i /\
      dchain_rep cells N usable t' (<[core_id := al core_id ++ [i]]> al)
  | (Some None, t') =>
      (forall i, 0 <= i < usable -> is_allocated al i) /\ dchain_rep cells N usable t' al
  | (None, _) => ~ no_conflict t
  end.
Proof.
  assert (0 < N) as HN by lia.
  pose (Q := allocated_post cells N usable (fun _ => tt) (fun c => c) core_id
    (view cells t) al).
  pose proof (wp_chain_allocate cells N usable HN (mem_steps cells) (fun _ => tt)
    (fun c => c) core_id t (view cells t) al Q (holds_view cells t) Hr Hc ltac:(done)) as Hwp.
  apply wp_run in Hwp. unfold nfos_dchain_allocate_new_index_t, nfos_dchain_impl_allocate_new_index.
  destruct (chain_allocate_new_index _ _ _ _ t) as [[[i|]|] t']; [| |done];
    destruct Hwp as (f' & Hm & Hpost).
  - destruct Hpost as (? & ? & ? & _). do 2 (split; [done|]). by eapply mem_rep.
  - destruct Hpost as (? & ? & _). split; [done|]. by eapply mem_rep.
Qed.

(** Nfos_dchain_free_index removes exactly the given index from the list
    it is allocated on, whichever core frees it, so that it can be allocated
    again; on a free index it returns 0 and changes nothing. *)
Theorem nfos_dchain_free_index_spec {T} `{RluTxn T}
    (cells : RluMem T nfos_dchain_cell) `{!RluLaws cells} (N usable core_id index : Z)
    (al : Z -> list Z) (t : T) (Hc : 0 <= core_id < N) (Hi : 0 <= index < usable)
    (Hr : dchain_rep cells N usable t al) :
  match nfos_dchain_free_index_t cells N core_id index t with
  | (Some true, t') => exists d l1 l2, al d = l1 ++ index :: l2 /\
      dchain_rep cells N usable t' (<[d := l1 ++ l2]> al)
  | (Some false, t') => ~ is_allocated al index /\ t' = t
  | (None, _) => ~ no_conflict t
  end.
Proof.
  assert (0 < N) as HN by lia.
  pose (Q := fun (r : bool) t' => if r
    then exists d l1 l2, al d = l1 ++ index :: l2 /\
      dchain_rep cells N usable t' (<[d := l1 ++ l2]> al)
    else ~ is_allocated al index /\ t' = t).
  pose proof (wp_free_index cells N usable HN (mem_steps cells) (fun _ => tt)
    index core_id t (view cells t) al Q (holds_view cells t) Hr Hi Hc
    ltac:(intros; do 3 eexists; split; [done|by eapply mem_rep]) ltac:(by intros)) as Hwp.
  apply wp_run in Hwp. unfold nfos_dchain_free_index_t.
  by destruct (nfos_dchain_impl_free_index _ _ _ _ t) as [[[]|] t'].
Qed.

(** ** Witnesses: two cores with two indexes each *)

Definition ex_cells : Z -> nfos_dchain_cell :=
  match nfos_dchain_impl_init 4 (fun _ => DchainCell 0 0 0) 4 2 with
  | Some f => f
  | None => fun _ => DchainCell 0 0 0
  end.
Definition ex_txn : snap_txn nfos_dchain_cell := SnapTxn ex_cells ∅ (fun _ => false).
Definition ex_txn1 : snap_txn nfos_dchain_cell :=
  snd (nfos_dchain_allocate_new_index_t snap_mem 2 0 ex_txn).

Lemma ex_rep : dchain_rep snap_mem 2 4 ex_txn (fun _ => []).
Proof.
  destruct (chain_init_rep (fun c => c) (fun c => c) (fun _ f => f) 4 2 4
    (fun _ => DchainCell 0 0 0)) as (f & E & Hr); [done|lia|done|].
  unfold dchain_rep, ex_txn, ex_cells, nfos_dchain_impl_init. rewrite E.
  apply (rep_ext 2 4 ltac:(lia) f); [|exact Hr]. by intros x.
Qed.

Lemma ex_rep1 : dchain_rep snap_mem 2 4 ex_txn1 (<[0 := [0]]> (fun _ => [])).
Proof.
  pose proof (wp_chain_allocate snap_mem 2 4 ltac:(lia) (mem_steps snap_mem) (fun _ => tt)
    (fun c => c) 0 ex_txn _ (fun _ => []) (fun r t' => r = Some 0 ->
       dchain_rep snap_mem 2 4 t' (<[0 := [0]]> (fun _ => [])))
    (holds_view _ _) ex_rep ltac:(lia)) as Hwp.
  apply wp_run in Hwp; [|intros [i|] t' (f' & Hm & Hp) Hi; [|done]].
  - unfold ex_txn1, nfos_dchain_allocate_new_index_t, nfos_dchain_impl_allocate_new_index.
    assert (fst (chain_allocate_new_index snap_mem 2 (fun c => c) 0 ex_txn) = Some (Some 0)) as E
      by (vm_compute; reflexivity).
    destruct (chain_allocate_new_index _ _ _ _ _) as [r t']. simpl in E |- *.
    rewrite E in Hwp. by apply Hwp.
  - injection Hi as ->. destruct Hp as (_ & _ & Hp & _). by eapply mem_rep.
Qed.

Lemma nfos_dchain_allocate_new_index_spec_witness :
  fst (nfos_dchain_allocate_new_index_t snap_mem 2 1 ex_txn) = Some (Some 2) /\
  match nfos_dchain_allocate_new_index_t snap_mem 2 1 ex_txn with
  | (Some (Some i), t') =>
      0 <= i < 4 /\ ~ is_allocated (fun _ => []) i /\
      dchain_rep snap_mem 2 4 t' (<[1 := [] ++ [i]]> (fun _ => []))
  | (Some None, t') =>
      (forall i, 0 <= i < 4 -> is_allocated (fun _ => []) i) /\
      dchain_rep snap_mem 2 4 t' (fun _ => [])
  | (None, _) => ~ no_conflict ex_txn
  end.
Proof.
  split; [vm_compute; reflexivity|].
  apply (nfos_dchain_allocate_new_index_spec snap_mem 2 4 1 (fun _ => []) ex_txn);
    [lia|exact ex_rep].
Defined.

Lemma nfos_dchain_free_index_spec_witness :
  fst (nfos_dchain_free_index_t snap_mem 2 1 0 ex_txn1) = Some true /\
  match nfos_dchain_free_index_t snap_mem 2 1 0 ex_txn1 with
  | (Some true, t') => exists d l1 l2,
      (<[0 := [0]]> (fun _ : Z => [] : list Z)) d = l1 ++ 0 :: l2 /\
      dchain_rep snap_mem 2 4 t' (<[d := l1 ++ l2]> (<[0 := [0]]> (fun _ => [])))
  | (Some false, t') => ~ is_allocated (<[0 := [0]]> (fun _ => [])) 0 /\ t' = ex_txn1
  | (None, _) => ~ no_conflict ex_txn1
  end.
Proof.
  split; [vm_compute; reflexivity|].
  apply (nfos_dchain_free_index_spec snap_mem 2 4 1 0 _ ex_txn1); [lia|lia|exact ex_rep1].
Defined.
