(* ===== verification/DchainExp.v ===== *)
(** * The index allocator with expiration

    src/src/double-chain-exp.c.  The lists are those of Links.v; every cell
    also has the time at which its index expires.  The allocation code is that
    of double-chain-impl.c ([chain_allocate_new_index] of Dchain.v) with the
    time stamp.  Rejuvenation moves an index to the end of its ring, expiry
    takes the oldest index of one ring at a time and remembers, outside the
    RLU-protected cells, which ring it looks at next. *)

From stdpp Require Import sorting strings.
From S2P Require Import Prelude Rlu Profiler Links Dchain.
Open Scope Z_scope.

Record nfos_dchain_exp_cell := ExpCell {
  ec_prev : Z;
  ec_next : Z;
  ec_list_ind : Z;
  time : Z
}.
#[export] Instance exp_cell : ChainCell nfos_dchain_exp_cell := {|
  prev := ec_prev; next := ec_next; list_ind := ec_list_ind;
  set_prev v c := ExpCell v (ec_next c) (ec_list_ind c) (time c);
  set_next v c := ExpCell (ec_prev c) v (ec_list_ind c) (time c);
  set_list_ind v c := ExpCell (ec_prev c) (ec_next c) v (time c)
|}.
#[export] Instance exp_cell_laws : ChainCellLaws nfos_dchain_exp_cell.
Proof. by split. Qed.
#[export] Instance time_payload : Payload time.
Proof. by split. Qed.

Definition set_time (v : Z) (c : nfos_dchain_exp_cell) : nfos_dchain_exp_cell :=
  ExpCell (ec_prev c) (ec_next c) (ec_list_ind c) v.
#[export] Instance set_time_keeps v : KeepsLinks (set_time v).
Proof. by split. Qed.

Record NfosDoubleChainExp (T : Type) := {
  cells : RluMem T nfos_dchain_exp_cell;
  num_free_lists : Z;
  validity_duration : Z
}.
Arguments cells {T} _.
Arguments num_free_lists {T} _.
Arguments validity_duration {T} _.

(** ** Allocation of the chain *)

Definition INT64_MAX : Z := 2 ^ 63 - 1.

Record exp_masters := ExpMasters {
  em_cells : Z -> nfos_dchain_exp_cell;
  em_curr_free_list : Z;
  em_num_free_lists : Z;
  em_validity_duration : Z
}.

(** [usec_to_tsc]: nfos_usec_to_tsc_cycles of timer.h; the outer option is
    fuel, the inner one the failure of an allocation. *)
Definition nfos_dchain_exp_allocate_t (malloc_ok rte_malloc_ok : bool) (fuel : nat)
    (rlu_alloc : Z -> nfos_dchain_exp_cell) (usec_to_tsc : Z -> Z)
    (lcores index_range validity : Z) : option (option exp_masters) :=
  let num_cores := lcores - 1 in
  if negb malloc_ok then Some None
  else if negb rte_malloc_ok then Some None
  else match chain_init (set_time INT64_MAX) (set_time INT64_MAX) (fun _ f => f)
               fuel index_range num_cores rlu_alloc with
       | Some cs => Some (Some (ExpMasters cs 0 num_cores (usec_to_tsc validity)))
       | None => None
       end.

(** ** Operations *)

(** time + chain->validity_duration, of int64_t. *)
Definition expiry_time (now validity : Z) : Z := i64 (now + validity).

Section operations.
Context {T : Type} (chain : NfosDoubleChainExp T).
Let N : Z := num_free_lists chain.

Definition nfos_dchain_exp_allocate_new_index_t (thread_id now : Z) : M T (option Z) :=
  chain_allocate_new_index (cells chain) N
    (set_time (expiry_time now (validity_duration chain))) thread_id.

Definition nfos_dchain_exp_rejuvenate_index_t (index now : Z) : M T bool :=
  let lifted := index + INDEX_SHIFT N in
  let! liftedp := deref (cells chain) lifted in
  if list_ind liftedp =? -1 then ret false
  else
    let al_head_ind := list_ind liftedp in
    let lifted_next := next liftedp in
    let lifted_prev := prev liftedp in
    let expiry := expiry_time now (validity_duration chain) in
    if lifted_next =? ALLOC_LIST_HEAD + al_head_ind then
      lock (cells chain) lifted ;;
      modify (cells chain) lifted (set_time expiry) ;;
      ret true
    else
      lock (cells chain) lifted_prev ;;
      modify (cells chain) lifted_prev (set_next lifted_next) ;;
      lock (cells chain) lifted_next ;;
      modify (cells chain) lifted_next (set_prev lifted_prev) ;;
      let! al_head := deref (cells chain) (ALLOC_LIST_HEAD + al_head_ind) in
      let al_head_prev := prev al_head in
      lock (cells chain) lifted ;;
      modify (cells chain) lifted
        (fun c => set_time expiry
           (set_prev al_head_prev (set_next (ALLOC_LIST_HEAD + al_head_ind) c))) ;;
      (if negb (al_head_prev =? lifted_next) then
         lock (cells chain) al_head_prev ;;
         modify (cells chain) al_head_prev (set_next lifted)
       else modify (cells chain) lifted_next (set_next lifted)) ;;
      (if negb (al_head_ind + ALLOC_LIST_HEAD =? lifted_prev) then
         lock (cells chain) (ALLOC_LIST_HEAD + al_head_ind) ;;
         modify (cells chain) (ALLOC_LIST_HEAD + al_head_ind) (set_prev lifted)
       else modify (cells chain) lifted_prev (set_prev lifted)) ;;
      ret true.

Definition nfos_dchain_exp_reset_curr_free_list (curr_free_list : Z) : Z := 0.

(** The outcome of a call that returns: the index expired (return 1) or none
    (return 0), the new curr_free_list, and whether the call has set
    *expiration_done_out. *)
Record expire_result := Expired {
  index_out : option Z;
  curr_out : Z;
  expiration_done : bool
}.

(** chain->curr_free_list++ and its wrap-around. *)
Definition next_free_list (curr : Z) : expire_result :=
  let curr := curr + 1 in
  if curr >=? num_free_lists chain then Expired None 0 true else Expired None curr false.

Definition nfos_dchain_exp_expire_one_index_t (curr_free_list now : Z) : M T expire_result :=
  let al_head_ind := Z.shiftl curr_free_list LIST_HEAD_PADDING in
  let! al_head := deref (cells chain) (ALLOC_LIST_HEAD + al_head_ind) in
  if (next al_head =? prev al_head) && (next al_head =? ALLOC_LIST_HEAD + al_head_ind)
  then ret (next_free_list curr_free_list)
  else
    let freed := next al_head in
    let! freedp := deref (cells chain) freed in
    if time freedp >=? now then ret (next_free_list curr_free_list)
    else
      let freed_prev := prev freedp in
      let freed_next := next freedp in
      let fr := FREE_LIST_HEAD N + al_head_ind in
      let! fr_head := deref (cells chain) fr in
      lock (cells chain) freed ;;
      modify (cells chain) freed
        (fun c => set_time INT64_MAX (set_list_ind (-1) (set_both (next fr_head) c))) ;;
      lock (cells chain) fr ;;
      modify (cells chain) fr (set_both freed) ;;
      (if negb (freed_prev =? freed_next) then
         lock (cells chain) freed_next ;;
         lock (cells chain) freed_prev ;;
         modify (cells chain) freed_prev (set_next freed_next) ;;
         modify (cells chain) freed_next (set_prev freed_prev)
       else
         lock (cells chain) freed_prev ;;
         modify (cells chain) freed_prev
           (fun c => set_prev freed_prev (set_next freed_next c))) ;;
      ret (Expired (Some (freed - INDEX_SHIFT N)) curr_free_list false).

Definition nfos_dchain_exp_is_index_allocated_t (index : Z) : M T bool :=
  let! elemp := deref (cells chain) (index + INDEX_SHIFT N) in
  ret (negb (list_ind elemp =? -1)).

(** The profiled variants; [bytes] are the bytes of the recorded argument. *)
Context {P : Type} `{MvrluProfiler P}.

Definition nfos_dchain_exp_allocate_new_index_debug_t (thread_id addr now : Z)
    (bytes : list Z) : M ((P * ds_op_cache) * T) (option Z) :=
  debug_op thread_id addr 0 0 bytes (nfos_dchain_exp_allocate_new_index_t thread_id now).
Definition nfos_dchain_exp_rejuvenate_index_debug_t (thread_id addr index now : Z)
    (bytes : list Z) : M ((P * ds_op_cache) * T) bool :=
  debug_op thread_id addr 0 1 bytes (nfos_dchain_exp_rejuvenate_index_t index now).
Definition nfos_dchain_exp_expire_one_index_debug_t (thread_id addr curr now : Z)
    (bytes : list Z) : M ((P * ds_op_cache) * T) expire_result :=
  debug_op thread_id addr 0 2 bytes (nfos_dchain_exp_expire_one_index_t curr now).
Definition nfos_dchain_exp_is_index_allocated_debug_t (thread_id addr index : Z)
    (bytes : list Z) : M ((P * ds_op_cache) * T) bool :=
  debug_op thread_id addr 0 3 bytes (nfos_dchain_exp_is_index_allocated_t index).
End operations.

Definition nfos_dchain_exp_allocate_debug_t (malloc_ok rte_malloc_ok : bool) (fuel : nat)
    (rlu_alloc : Z -> nfos_dchain_exp_cell) (usec_to_tsc : Z -> Z)
    (lcores index_range validity : Z) (di_map : ds_inst_map) (chain_out : Z)
    (filename : string) (lineno : Z) : option (option exp_masters) * option ds_inst_map :=
  (nfos_dchain_exp_allocate_t malloc_ok rte_malloc_ok fuel rlu_alloc usec_to_tsc lcores
     index_range validity,
   profiler_add_ds_inst di_map chain_out filename lineno).

(** ** What the operations do to the abstract allocator *)

(** Core [c] has the indexes [al c] allocated, oldest first, and index [i]
    expires at [tm i]. *)
Definition exp_chain_rep (N usable : Z) (f : Z -> nfos_dchain_exp_cell)
    (al : Z -> list Z) (tm : Z -> Z) : Prop :=
  chain_rep N usable f al /\
  forall i, is_allocated al i -> time (f (INDEX_SHIFT N + i)) = tm i.

Lemma allocated_move (al : Z -> list Z) d l1 (i : Z) l2 j :
  al d = l1 ++ i :: l2 ->
  is_allocated (<[d := l1 ++ l2 ++ [i]]> al) j <-> is_allocated al j.
Proof.
  intros E. split; intros [c Hc]; exists c; rewrite fn_insert_dec in *;
    case_decide; subst; rewrite ?E in *; set_solver.
Qed.

Section exp_wp.
Context {T : Type} `{RluTxn T} (chain : NfosDoubleChainExp T) `{!RluLaws (cells chain)}.
Context (usable : Z) (R : T -> T -> Prop) `{!TxnRel R, !MemRel (cells chain) R}.
Let N : Z := num_free_lists chain.
Hypothesis (HN : 0 < N).
Let SHIFT : Z := INDEX_SHIFT N.

Definition exp_rep (t : T) (al : Z -> list Z) (tm : Z -> Z) : Prop :=
  exp_chain_rep N usable (view (cells chain) t) al tm.

Lemma exp_mem_rep t f al tm :
  mem (cells chain) t f -> exp_chain_rep N usable f al tm -> exp_rep t al tm.
Proof.
  intros Hm [Hr Ht]. split; [by eapply mem_rep|]. intros i Hi.
  rewrite (proj1 Hm). by apply Ht.
Qed.

Lemma wp_exp_allocate c now t al tm (Q : option Z -> T -> Prop) :
  exp_rep t al tm -> 0 <= c < N ->
  (forall t' i, 0 <= i < usable -> ~ is_allocated al i ->
     exp_rep t' (<[c := al c ++ [i]]> al) (<[i := expiry_time now (validity_duration chain)]> tm) ->
     Q (Some i) t') ->
  (forall t', (forall i, 0 <= i < usable -> is_allocated al i) -> exp_rep t' al tm ->
     Q None t') ->
  wp R (nfos_dchain_exp_allocate_new_index_t chain c now) t Q.
Proof.
  intros [Hr Ht] Hc HQ HQ'.
  eapply (wp_chain_allocate (cells chain) N usable HN R time
    (set_time (expiry_time now (validity_duration chain)))); [by apply holds_view|exact Hr|done|].
  intros [i|] t' (f' & Hm & Hp).
  - destruct Hp as (Hi & Hno & Hr' & Hpay & c0 & Hx). apply HQ; [done..|].
    apply (exp_mem_rep t' f'); [done|]. split; [done|]. intros j [d Hj].
    rewrite fn_insert_dec. case_decide as E; [subst; by rewrite Hx|].
    rewrite Hpay by lia. apply Ht. rewrite fn_insert_dec in Hj.
    case_decide; [subst|by exists d]. exists d. set_solver.
  - destruct Hp as (Hall & Hr' & Hpay). apply HQ'; [done|].
    apply (exp_mem_rep t' f'); [done|]. split; [done|]. intros j Hj. rewrite Hpay. by apply Ht.
Qed.

Lemma wp_is_index_allocated i t al tm (Q : bool -> T -> Prop) :
  exp_rep t al tm -> 0 <= i < usable ->
  (is_allocated al i -> Q true t) -> (~ is_allocated al i -> Q false t) ->
  wp R (nfos_dchain_exp_is_index_allocated_t chain i) t Q.
Proof.
  intros [Hr Ht] Hi HQ HQ'. unfold nfos_dchain_exp_is_index_allocated_t.
  pose proof (holds_view (cells chain) t) as Hh. wstep. wstep. wstep.
  rewrite (Z.add_comm i). fold N. destruct (Z.eqb_spec (list_ind (view (cells chain) t (INDEX_SHIFT N + i))) (-1)) as [E|E].
  - apply HQ'. by apply (rep_ind N usable HN _ al i Hr Hi).
  - apply HQ. by apply (rep_ind_alloc N usable HN _ al i Hr Hi).
Qed.

(** The ring of an allocated index and its cells. *)
Lemma allocated_split f al i :
  chain_rep N usable f al -> is_allocated al i ->
  exists d l1 l2, al d = l1 ++ i :: l2 /\ 0 <= d < N /\
    list_ind (f (SHIFT + i)) = Z.shiftl d LIST_HEAD_PADDING.
Proof.
  intros Hr [d Hd]. pose proof (rep_core N usable HN f al d i Hr Hd) as Hv.
  pose proof (rep_ind_core N usable HN f al d i Hr Hd) as Hind.
  apply list_elem_of_split in Hd as (l1 & l2 & E). by exists d, l1, l2.
Qed.

(** The cells around an allocated index. *)
Lemma around g `{!KeepsLinks g} f al d l1 i l2 :
  chain_rep N usable f al -> al d = l1 ++ i :: l2 ->
  let x := SHIFT + i in
  let h := Z.shiftl d LIST_HEAD_PADDING in
  0 <= d < N /\ h <> x /\ prev (f x) <> x /\ next (f x) <> x /\
  prev (remove f x h) <> x /\ (next (f x) = h <-> l2 = []) /\
  chain_rep N usable (append g (remove f x) h h x) (<[d := l1 ++ l2 ++ [i]]> al).
Proof.
  intros Hr E x h.
  assert (i ∈ al d) as Hi by (rewrite E, elem_of_app; right; left).
  pose proof (rep_core N usable HN f al d i Hr Hi) as Hd.
  destruct Hr as (L & HL & Hs & HA).
  destruct (unlink_push N usable HN (fun c => c)
    f L al d d l1 i l2 HL Hs HA Hd E) as (_ & _ & Hpx & Hnx & _ & _). fold SHIFT x in Hpx, Hnx.
  assert (L (PA d) = (Z.add SHIFT <$> l1) ++ x :: (Z.add SHIFT <$> l2)) as EL.
  { rewrite HA, E, fmap_app. done. }
  assert (x ∈ L (PA d)) as Hx by (rewrite EL, elem_of_app; right; left).
  assert (h <> x) as Hhx by (by apply (cell_not_head N usable HN f L (PA d) (PA d) x)).
  pose proof (linked_rejuvenate N usable HN g f L d _ x _ HL Hd EL) as HL2.
  pose proof (linked_remove N usable HN f L d d _ x _ HL Hd Hd EL) as HL1.
  pose proof (ring_last N _ d _ (linked_ok _ _ _ _ HL1 (PA d) Hd)) as Elast.
  pose proof (linked_part _ _ _ _ HL1) as Hpart1.
  change (head N (PA d)) with h in *.
  set (L1 := move (PA d) (PH d) _ _ L) in *.
  split; [done|]. split; [done|]. split; [done|]. split; [done|]. split.
  - rewrite Elast. intros Ex. pose proof (lastof_in h (L1 (PA d))) as Hl. rewrite Ex in Hl.
    apply elem_of_cons in Hl as [Hl|Hl]; [congruence|].
    assert (x ∈ L1 (PH d)) as Hx' by (unfold L1, move; rewrite fn_lookup_insert; left).
    pose proof (part_disj _ _ _ Hpart1 _ _ _ Hl Hx'). done.
  - split.
    + pose proof (linked_ok _ _ _ _ HL (PA d) Hd) as (Hn & _ & _). rewrite EL in Hn.
      apply path_app in Hn as [_ Hn]. change (head N (PA d)) with h in Hn.
      destruct l2 as [|j l2]; cbn [path fmap list_fmap] in Hn; cbv beta in Hn; [by rewrite Hn|]. destruct Hn as [-> _].
      split; [|done]. intros Eh. exfalso. revert Eh. apply not_eq_sym.
      apply (cell_not_head N usable HN f L (PA d) (PA d)); [done| |done].
      rewrite EL, elem_of_app. right. right. left.
    + eexists. split; [exact HL2|]. split.
      * intros c. rewrite fn_lookup_insert_ne by done. apply Hs.
      * intros c. rewrite !fn_insert_dec. destruct (decide (d = c)) as [<-|Hdc].
        -- rewrite decide_True by done. rewrite !fmap_app. done.
        -- rewrite decide_False by congruence. apply HA.
Qed.

(** Writing a cell's time does not change the lists. *)
Lemma rep_set_time f al x v :
  chain_rep N usable f al -> chain_rep N usable (<[x := set_time v (f x)]> f) al.
Proof.
  apply rep_ext; [done|]. intros y. unfold same_links. rewrite fn_insert_dec.
  case_decide; by subst.
Qed.

Lemma exp_rep_touch f f' al al' tm i e :
  exp_chain_rep N usable f al tm -> 0 <= i < usable ->
  chain_rep N usable f' al' -> (forall j, is_allocated al' j <-> is_allocated al j) ->
  (forall y, y <> SHIFT + i -> time (f' y) = time (f y)) -> time (f' (SHIFT + i)) = e ->
  exp_chain_rep N usable f' al' (<[i := e]> tm).
Proof.
  intros [_ Ht] Hi Hr' Hal Hoth Hx. split; [done|]. intros j Hj. rewrite fn_insert_dec.
  case_decide as E; [by subst|]. rewrite Hoth by lia. apply Ht. by apply Hal.
Qed.

Lemma wp_rejuvenate i now t al tm (Q : bool -> T -> Prop) :
  exp_rep t al tm -> 0 <= i < usable ->
  (forall d l1 l2 t', al d = l1 ++ i :: l2 ->
     exp_rep t' (<[d := l1 ++ l2 ++ [i]]> al) (<[i := expiry_time now (validity_duration chain)]> tm) ->
     Q true t') ->
  (~ is_allocated al i -> Q false t) ->
  wp R (nfos_dchain_exp_rejuvenate_index_t chain i now) t Q.
Proof.
  intros [Hr Ht] Hi HQ HQ'. set (f := view (cells chain) t) in *.
  assert (holds (cells chain) t f []) as Hh by (by apply holds_view).
  unfold nfos_dchain_exp_rejuvenate_index_t, ALLOC_LIST_HEAD. cbv zeta. fold N.
  rewrite (Z.add_comm i). fold SHIFT. set (x := SHIFT + i). wstep. wstep.
  destruct (Z.eqb_spec (list_ind (f x)) (-1)) as [E1|E1].
  { wstep. apply HQ'. by apply (rep_ind N usable HN f al i Hr Hi). }
  pose proof (rep_ind_alloc N usable HN f al i Hr Hi E1) as Hal.
  destruct (allocated_split f al i Hr Hal) as (d & l1 & l2 & E & Hd & Hind). fold x in Hind.
  set (e := expiry_time now (validity_duration chain)) in *.
  destruct (around (set_time e) f al d l1 i l2 Hr E) as (_ & Hhx & Hpx & Hnx & Hqx & Hend & Hrep).
  fold x in Hhx, Hpx, Hnx, Hqx, Hend, Hrep. rewrite Hind, !Z.add_0_l, Z.add_0_r.
  set (h := Z.shiftl d LIST_HEAD_PADDING) in *. clearbody h.
  assert (forall t' f', mem (cells chain) t' f' ->
    (forall y, f' y = append (set_time e) (remove f x) h h x y) -> Q true t') as Hdone.
  { intros t' f' Hm Hf'. apply (HQ d l1 l2 t' E). eapply exp_mem_rep; [exact Hm|].
    apply (exp_rep_touch f f' al _ tm i e); [done|done| | | |].
    - eapply rep_ext; [done| |exact Hrep]. intros y. by rewrite Hf'.
    - intros j. by apply allocated_move.
    - intros y Hy. rewrite Hf', (pay_append time) by done. apply (pay_remove time).
    - rewrite Hf'. by rewrite (pay_append_at time). }
  destruct (Z.eqb_spec (next (f x)) h) as [Enh|Enh].
  - do 5 wstep. apply Hend in Enh as ->. apply (HQ d l1 [] _ E).
    assert (al d = l1 ++ [] ++ [i]) as E' by done.
    eapply exp_mem_rep; [by eapply mem_of|]. fold x.
    apply (exp_rep_touch f _ al _ tm i e); [done|done| | | |].
    + apply (rep_set_time f al x e) in Hr. eapply chain_rep_al; [|exact Hr]. intros c.
      rewrite fn_insert_dec. case_decide; by subst.
    + intros j. by apply allocated_move.
    + intros y Hy. by rewrite fn_lookup_insert_ne by (fold x in Hy; congruence).
    + by rewrite fn_lookup_insert.
  - do 8 wstep.
    match goal with H : holds _ ?u _ _ |- _ => rename H into Hm1 end.
    change (holds (cells chain) t3 (remove f x) [next (f x); prev (f x)]) in Hm1.
    set (f1 := remove f x) in *. set (q := prev (f1 h)) in *.
    assert (f1 x = f x) as E1x by (unfold f1, remove; cbv zeta; by fsolve).
    do 4 wstep. fold q. wstep. wstep. rewrite E1x in Hh.
    set (f2 := <[x := _]> f1) in Hh.
    wstep. apply wp_mono with (fun _ t' => exists ls, prev (f x) ∈ ls /\
      holds (cells chain) t' (<[q := set_next x (f2 q)]> f2) ls).
    2: { destruct (Z.eqb_spec q (next (f x))) as [Eq|Eq]; cbn [negb].
         - wstep. eexists. split; [|rewrite <- Eq in Hh; exact Hh]. set_solver.
         - do 3 wstep. eexists. split; [|eassumption]. set_solver. }
    intros [] t6 _ (ls & Hpls & Hm2). set (f3 := <[q := _]> f2) in Hm2.
    wstep. apply wp_mono with (fun _ t' => mem (cells chain) t' (<[h := set_prev x (f3 h)]> f3)).
    2: { destruct (Z.eqb_spec h (prev (f x))) as [Eh|Eh]; cbn [negb].
         - wstep. rewrite Eh. by eapply mem_of.
         - do 3 wstep. by eapply mem_of. }
    intros [] t7 _ Hm3. wstep. apply (Hdone _ _ Hm3). intros y.
    unfold append. cbv zeta. fold q. rewrite E1x.
    assert (set_time e (set_list_ind h (set_prev q (set_next h (f x)))) =
      set_time e (set_prev q (set_next h (f x)))) as ->.
    { rewrite <- Hind. by destruct (f x). }
    done.
Qed.

(** The first cell of a ring. *)
Lemma ring_first f al c :
  chain_rep N usable f al -> 0 <= c < N ->
  let h := Z.shiftl c LIST_HEAD_PADDING in
  match al c with
  | [] => next (f h) = h /\ prev (f h) = h
  | i :: _ => next (f h) = SHIFT + i /\ SHIFT + i <> h
  end.
Proof.
  intros (L & HL & Hs & HA) Hc h. pose proof (linked_ok _ _ _ _ HL (PA c) Hc) as (Hn & Hp & _).
  change (head N (PA c)) with h in *. rewrite HA in Hn, Hp.
  destruct (al c) as [|i l] eqn:E; cbn [fmap list_fmap path] in Hn.
  - by split.
  - destruct Hn as [Hn _]. split; [exact Hn|]. apply not_eq_sym.
    apply (cell_not_head N usable HN f L (PA c) (PA c)); [done| |done].
    rewrite HA, E. left.
Qed.

Lemma wp_expire_one c now t al tm (Q : expire_result -> T -> Prop) :
  exp_rep t al tm -> 0 <= c < N ->
  (forall i l t', al c = i :: l -> tm i < now -> exp_rep t' (<[c := l]> al) tm ->
     Q (Expired (Some i) c false) t') ->
  ((forall i l, al c = i :: l -> now <= tm i) -> Q (next_free_list chain c) t) ->
  wp R (nfos_dchain_exp_expire_one_index_t chain c now) t Q.
Proof.
  intros [Hr Ht] Hc HQ HQ'. set (f := view (cells chain) t) in *.
  assert (holds (cells chain) t f []) as Hh by (by apply holds_view).
  unfold nfos_dchain_exp_expire_one_index_t, ALLOC_LIST_HEAD. cbv zeta. fold N.
  pose proof (ring_first f al c Hr Hc) as Hfirst. cbv zeta in Hfirst. rewrite !Z.add_0_l.
  wstep. wstep. destruct (al c) as [|i l] eqn:E.
  { destruct Hfirst as [-> ->]. rewrite Z.eqb_refl. cbn [andb]. wstep. by apply HQ'. }
  destruct Hfirst as [En Hne]. rewrite En, (proj2 (Z.eqb_neq (SHIFT + i) _) Hne), andb_false_r.
  assert (time (f (SHIFT + i)) = tm i) as Etm.
  { apply Ht. exists c. rewrite E. left. }
  wstep. wstep. rewrite Etm. destruct (Z.geb_spec (tm i) now) as [Hge|Hlt].
  { wstep. apply HQ'. intros i' l' [= -> ->]. done. }
  set (x := SHIFT + i) in *. pose proof Hr as (L & HL & Hs & HA).
  destruct (unlink_push N usable HN (set_time INT64_MAX) f L al c c [] i l HL Hs HA Hc E)
    as (Hrep & Hhx & Hpx & Hnx & Hph & Hnh). fold SHIFT x in Hrep, Hhx, Hpx, Hnx, Hph, Hnh.
  change (FREE_LIST_HEAD N + Z.shiftl c LIST_HEAD_PADDING) with (head N (PF c)).
  set (fr := head N (PF c)) in *.
  do 10 wstep. wstep.
  apply wp_mono with (fun _ t' => mem (cells chain) t' (push (set_time INT64_MAX) (remove f x) fr x)).
  - intros [] t' _ Hm. wstep. unfold x. replace (SHIFT + i - INDEX_SHIFT N) with i by (unfold SHIFT; lia).
    apply (HQ i l); [done|lia|]. eapply exp_mem_rep; [exact Hm|]. split; [exact Hrep|].
    intros j Hj. rewrite (pay_push time); [rewrite (pay_remove time)|].
    + apply Ht. destruct Hj as [d Hd]. exists d. rewrite fn_insert_dec in Hd.
      case_decide; [subst; rewrite E; by right|done].
    + intros Ex. assert (j = i) as -> by (unfold x, SHIFT in Ex; lia).
      destruct Hj as [d Hd]. assert (i ∈ al c) as Hic by (rewrite E; left).
      rewrite fn_insert_dec in Hd. case_decide as Ecd.
      * subst. pose proof (rep_nodup N usable f al d Hr) as Hnd. rewrite E in Hnd.
        by apply NoDup_cons in Hnd as [? _].
      * apply Ecd. by apply (rep_unique N usable f al c d i).
  - destruct (Z.eqb_spec (prev (f x)) (next (f x))) as [Epn|Epn]; cbn [negb].
    + do 3 wstep. eapply mem_of, holds_ext; [|eassumption]. intros y.
      unfold push, remove. cbv zeta. rewrite !fn_insert_dec, <- Epn.
      repeat (case_decide; subst; simplify_eq); try done; congruence.
    + do 7 wstep. eapply mem_of, holds_ext; [|eassumption]. intros y.
      unfold push, remove. cbv zeta. rewrite !fn_insert_dec.
      repeat (case_decide; subst; simplify_eq); try done; congruence.
Qed.
End exp_wp.

(** ** The abstract allocator with expiration and its operations *)

Record exp_state := ExpState { al_of : Z -> list Z; tm_of : Z -> Z }.

Inductive exp_op :=
| OpAllocate (core now : Z)
| OpRejuvenate (index now : Z)
| OpExpire (core now : Z).

Inductive exp_out :=
| OutIndex (r : option Z)
| OutDone (r : bool)
| OutExpired (r : expire_result).

Definition op_time (o : exp_op) : Z :=
  match o with OpAllocate _ n | OpRejuvenate _ n | OpExpire _ n => n end.
Definition op_valid (N usable : Z) (o : exp_op) : Prop :=
  match o with
  | OpAllocate c _ | OpExpire c _ => 0 <= c < N
  | OpRejuvenate i _ => 0 <= i < usable
  end.

Definition run_op {T} (chain : NfosDoubleChainExp T) (o : exp_op) : M T exp_out :=
  match o with
  | OpAllocate c now =>
      let! r := nfos_dchain_exp_allocate_new_index_t chain c now in ret (OutIndex r)
  | OpRejuvenate i now =>
      let! r := nfos_dchain_exp_rejuvenate_index_t chain i now in ret (OutDone r)
  | OpExpire c now =>
      let! r := nfos_dchain_exp_expire_one_index_t chain c now in ret (OutExpired r)
  end.

(** The specification: [v] is the validity duration, [nfl] the number of
    cores. *)
Inductive exp_step (v nfl usable : Z) : exp_state -> exp_op -> exp_out -> exp_state -> Prop :=
| step_alloc al tm c now i :
    0 <= i < usable -> ~ is_allocated al i ->
    exp_step v nfl usable (ExpState al tm) (OpAllocate c now) (OutIndex (Some i))
      (ExpState (<[c := al c ++ [i]]> al) (<[i := expiry_time now v]> tm))
| step_full al tm c now :
    (forall i, 0 <= i < usable -> is_allocated al i) ->
    exp_step v nfl usable (ExpState al tm) (OpAllocate c now) (OutIndex None) (ExpState al tm)
| step_rejuvenate al tm i now d l1 l2 :
    al d = l1 ++ i :: l2 ->
    exp_step v nfl usable (ExpState al tm) (OpRejuvenate i now) (OutDone true)
      (ExpState (<[d := l1 ++ l2 ++ [i]]> al) (<[i := expiry_time now v]> tm))
| step_free al tm i now :
    ~ is_allocated al i ->
    exp_step v nfl usable (ExpState al tm) (OpRejuvenate i now) (OutDone false) (ExpState al tm)
| step_expire al tm c now i l :
    al c = i :: l -> tm i < now ->
    exp_step v nfl usable (ExpState al tm) (OpExpire c now)
      (OutExpired (Expired (Some i) c false)) (ExpState (<[c := l]> al) tm)
| step_none al tm c now :
    (forall i l, al c = i :: l -> now <= tm i) ->
    exp_step v nfl usable (ExpState al tm) (OpExpire c now)
      (OutExpired (if c + 1 >=? nfl then Expired None 0 true
                   else Expired None (c + 1) false)) (ExpState al tm).

(** A run of operations; the times are those of a clock that never goes back
    and far enough from the end of int64_t. *)
Inductive exp_run (v nfl usable : Z) : Z -> exp_state -> Prop :=
| run_fresh now tm : exp_run v nfl usable now (ExpState (fun _ => []) tm)
| run_step now s o r s' :
    exp_run v nfl usable now s -> now <= op_time o -> - 2 ^ 63 <= op_time o + v < 2 ^ 63 -> exp_step v nfl usable s o r s' ->
    exp_run v nfl usable (op_time o) s'.

(** Every ring is ordered by expiration time, and no index outlives the
    validity duration. *)
Record exp_sorted (v now : Z) (s : exp_state) : Prop := {
  es_sorted c : StronglySorted Z.le (tm_of s <$> al_of s c);
  es_bound c i : i ∈ al_of s c -> tm_of s i <= now + v;
  es_nodup c : NoDup (al_of s c);
  es_unique c d i : i ∈ al_of s c -> i ∈ al_of s d -> c = d
}.

Lemma fmap_insert_ne (tm : Z -> Z) i e (l : list Z) :
  i ∉ l -> (<[i := e]> tm <$> l) = (tm <$> l).
Proof.
  intros Hi. apply list_fmap_ext. intros k x Hx. apply list_elem_of_lookup_2 in Hx.
  rewrite fn_lookup_insert_ne; [done|]. by intros ->.
Qed.

Lemma exp_sorted_append v now now' al tm c l i :
  exp_sorted v now (ExpState al tm) -> now <= now' -> - 2 ^ 63 <= now' + v < 2 ^ 63 ->
  (forall d, i ∈ al d -> d = c) -> StronglySorted Z.le (tm <$> l) -> i ∉ l -> NoDup l ->
  (forall j, j ∈ l -> j ∈ al c) ->
  exp_sorted v now' (ExpState (<[c := l ++ [i]]> al) (<[i := expiry_time now' v]> tm)).
Proof.
  intros [Hs Hb Hn Hu] Hle Hv Hi Hsl Hil Hnl Hsub. unfold expiry_time. rewrite i64_id by done. cbn in *.
  assert (forall d j, j ∈ (<[c := l ++ [i]]> al) d -> j = i /\ d = c \/ j <> i /\ j ∈ al d) as Hm.
  { intros d j. rewrite fn_insert_dec. case_decide as E.
    - subst. intros [Hj| ->%list_elem_of_singleton]%elem_of_app; [right|by left].
      split; [by intros ->|auto].
    - intros Hj. right. split; [|done]. intros ->. by apply E, eq_sym, Hi. }
  split; cbn.
  - intros d. rewrite (fn_insert_dec al). case_decide as E; [subst|].
    + rewrite fmap_app, fmap_insert_ne by done. cbn. rewrite fn_lookup_insert.
      apply sorted_snoc; [done|]. intros y (j & -> & Hj)%list_elem_of_fmap.
      specialize (Hb d j (Hsub j Hj)). lia.
    + rewrite fmap_insert_ne; [done|]. intros Hd. by apply E, eq_sym, Hi.
  - intros d j Hj. rewrite fn_insert_dec. case_decide as E; [lia|].
    destruct (Hm d j Hj) as [[-> _]|[_ Hj']]; [done|]. specialize (Hb d j Hj'). lia.
  - intros d. rewrite fn_insert_dec. case_decide; [|done]. apply NoDup_app.
    split; [done|]. split; [|apply NoDup_singleton]. set_solver.
  - intros d e j Hd He. destruct (Hm d j Hd) as [[Ei Ed]|[Hne Hd']], (Hm e j He) as [[Ei' Ee]|[Hne' He']];
      [congruence|done|done|]. by apply (Hu d e j).
Qed.

Lemma exp_sorted_later v now now' s : exp_sorted v now s -> now <= now' -> exp_sorted v now' s.
Proof. intros [Hs Hb Hn Hu] Hle. split; [done| |done|done]. intros c i Hc. specialize (Hb c i Hc). lia. Qed.

Lemma exp_sorted_expire v nfl usable now s c now' r s' :
  exp_sorted v now s -> now <= now' -> exp_step v nfl usable s (OpExpire c now') r s' -> exp_sorted v now' s'.
Proof.
  intros Hi Hle Hstep. pose proof (exp_sorted_later v now now' s Hi Hle) as Hlater. destruct Hi as [Hs Hb Hn Hu].
  inversion Hstep as [| | | |al tm c0 now0 i l H Ht|]; subst; cbn in *; [|done].
  assert (forall d j, j ∈ (<[c := l]> al) d -> j ∈ al d) as Hm.
  { intros d j. rewrite fn_insert_dec. case_decide; [subst; rewrite H; by right|done]. }
  split; cbn.
  - intros d. rewrite fn_insert_dec. case_decide; [|done]. subst. specialize (Hs d).
    rewrite H in Hs. by inversion Hs.
  - intros d j Hj. specialize (Hb d j (Hm d j Hj)). lia.
  - intros d. rewrite fn_insert_dec. case_decide; [|done]. subst. specialize (Hn d).
    rewrite H in Hn. by apply NoDup_cons in Hn as [_ ?].
  - intros d e j Hd He. apply (Hu d e j); auto.
Qed.

Lemma exp_sorted_step v nfl usable now s o r s' :
  exp_sorted v now s -> now <= op_time o -> - 2 ^ 63 <= op_time o + v < 2 ^ 63 -> exp_step v nfl usable s o r s' ->
  exp_sorted v (op_time o) s'.
Proof.
  intros Hi Hle Hv Hstep. pose proof Hi as [Hs Hb Hn Hu].
  pose proof (exp_sorted_later v now (op_time o) s Hi Hle) as Hlater.
  destruct Hstep; cbn in *; try done.
  - apply (exp_sorted_append v now); try done; [|].
    + intros d Hd. exfalso. apply H0. by exists d.
    + intros Hc. apply H0. by exists c.
  - assert (i ∈ al d) as Hd by (rewrite H; apply elem_of_app; right; left).
    pose proof (Hn d) as Hnd. rewrite H in Hnd.
    rewrite app_assoc. apply (exp_sorted_append v now); try done.
    + intros e He. by apply (Hu e d i).
    + specialize (Hs d). rewrite H, fmap_app in Hs. rewrite fmap_app. by eapply sorted_remove.
    + rewrite <- Permutation_middle in Hnd. by apply NoDup_cons in Hnd as [? _].
    + rewrite <- Permutation_middle in Hnd. by apply NoDup_cons in Hnd as [_ ?].
    + intros j. rewrite H. rewrite !elem_of_app, elem_of_cons. tauto.
  - by eapply (exp_sorted_expire v nfl usable), step_expire.
Qed.

Lemma exp_run_sorted v nfl usable now s : exp_run v nfl usable now s -> exp_sorted v now s.
Proof.
  induction 1; [|by eapply exp_sorted_step].
  split; cbn; [intros; constructor|set_solver|intros; constructor|set_solver].
Qed.

(** ** Properties *)

(** C21: the operations of double-chain-exp.c refine the abstract allocator
    with expiration: whatever allocation, rejuvenation or expiry returns is a
    step the specification allows, and the cells represent the state the step
    leads to; an operation aborts only because of another thread.  The expiry
    time is the sum of int64_t, wrapped around where it does not fit
    ([expiry_time]), and allocation never takes an expired index
    ([expired_not_reused]). *)
Theorem exp_ops_refine {T} `{RluTxn T} (chain : NfosDoubleChainExp T)
    `{!RluLaws (cells chain)} (usable : Z) (o : exp_op) (s : exp_state) (t : T)
    (HN : 0 < num_free_lists chain) (Ho : op_valid (num_free_lists chain) usable o)
    (Hr : exp_rep chain usable t (al_of s) (tm_of s)) :
  match run_op chain o t with
  | (Some r, t') => exists s',
      exp_step (validity_duration chain) (num_free_lists chain) usable s o r s' /\
      exp_rep chain usable t' (al_of s') (tm_of s')
  | (None, _) => ~ no_conflict t
  end.
Proof.
  pose (R := mem_steps (cells chain)). destruct s as [al tm].
  apply (wp_run R (run_op chain o) t (fun r t' => exists s', exp_step
    (validity_duration chain) (num_free_lists chain) usable (ExpState al tm) o r s' /\
    exp_rep chain usable t' (al_of s') (tm_of s'))).
  destruct o as [c now|i now|c now]; simpl in Ho |- *; apply (wp_bind R).
  - eapply (wp_exp_allocate chain usable R HN); [exact Hr|done| |]; intros; apply (wp_ret R).
    + eexists. split; [by apply step_alloc|done].
    + eexists. split; [by apply step_full|done].
  - eapply (wp_rejuvenate chain usable R HN); [exact Hr|done| |]; intros; apply (wp_ret R).
    + eexists. split; [by eapply step_rejuvenate|done].
    + eexists. split; [by apply step_free|done].
  - eapply (wp_expire_one chain usable R HN); [exact Hr|done| |]; intros; apply (wp_ret R).
    + eexists. split; [by apply step_expire|done].
    + eexists. split; [by apply step_none|done].
Qed.

(** C36: expiry takes the oldest index and misses none: after any run of
    operations on a clock that never goes back and whose expiry times fit
    int64_t, when nfos_dchain_exp_expire_one_index returns an index of ring [c] it had
    expired and no index of that ring expires earlier, and when it returns 0
    no index of that ring has expired. *)
Theorem exp_expire_one_oldest {T} `{RluTxn T} (chain : NfosDoubleChainExp T)
    `{!RluLaws (cells chain)} (usable clock now c : Z) (s : exp_state) (t : T)
    (HN : 0 < num_free_lists chain) (Hc : 0 <= c < num_free_lists chain)
    (Hrun : exp_run (validity_duration chain) (num_free_lists chain) usable clock s)
    (Hnow : clock <= now) (Hr : exp_rep chain usable t (al_of s) (tm_of s)) :
  match nfos_dchain_exp_expire_one_index_t chain c now t with
  | (Some (Expired (Some i) c' d), _) =>
      i ∈ al_of s c /\ tm_of s i < now /\ (forall j, j ∈ al_of s c -> tm_of s i <= tm_of s j) /\
      c' = c /\ d = false
  | (Some (Expired None c' d), _) =>
      (forall j, j ∈ al_of s c -> now <= tm_of s j) /\
      c' = (if d then 0 else c + 1) /\ (d = true <-> c = num_free_lists chain - 1)
  | (None, _) => ~ no_conflict t
  end.
Proof.
  pose (R := mem_steps (cells chain)). apply exp_run_sorted in Hrun as [Hs _ _ _].
  assert (forall i l, al_of s c = i :: l -> forall j, j ∈ al_of s c -> tm_of s i <= tm_of s j) as Ho.
  { intros i l E j. specialize (Hs c). rewrite E in Hs |- *. inversion Hs as [|? ? _ Hf]; subst.
    intros [->|Hj]%elem_of_cons; [lia|]. rewrite Forall_forall in Hf. apply Hf.
    by apply list_elem_of_fmap_2. }
  pose (Q := fun (r : expire_result) (_ : T) => match r with
    | Expired (Some i) c' d => i ∈ al_of s c /\ tm_of s i < now /\
        (forall j, j ∈ al_of s c -> tm_of s i <= tm_of s j) /\ c' = c /\ d = false
    | Expired None c' d => (forall j, j ∈ al_of s c -> now <= tm_of s j) /\
        c' = (if d then 0 else c + 1) /\ (d = true <-> c = num_free_lists chain - 1)
    end).
  assert (wp R (nfos_dchain_exp_expire_one_index_t chain c now) t Q) as Hwp.
  { eapply (wp_expire_one chain usable R HN); [exact Hr|done| |]; unfold Q.
    - intros i l t' E Ht _. rewrite E at 1. split; [left|]. split; [done|].
      split; [by eapply Ho|done].
    - intros Hall. unfold next_free_list.
      assert (forall j, j ∈ al_of s c -> now <= tm_of s j) as Hno.
      { intros j Hj. destruct (al_of s c) as [|i l] eqn:E; [set_solver|].
        specialize (Hall i l eq_refl). specialize (Ho i l eq_refl j Hj). lia. }
      destruct (Z.geb_spec (c + 1) (num_free_lists chain)); (split; [done|]; split; [done|lia]). }
  apply wp_run in Hwp. destruct (nfos_dchain_exp_expire_one_index_t chain c now t) as [[r|] t'];
    [|done]. destruct r as [[i|] c' d]; exact Hwp.
Qed.

(** Is_index_allocated answers whether some core has the index
    allocated, reads only and never aborts. *)
Theorem exp_is_index_allocated_spec {T} `{RluTxn T} (chain : NfosDoubleChainExp T)
    `{!RluLaws (cells chain)} (usable i : Z) (al : Z -> list Z) (tm : Z -> Z) (t : T)
    (HN : 0 < num_free_lists chain) (Hi : 0 <= i < usable)
    (Hr : exp_rep chain usable t al tm) :
  exists b, nfos_dchain_exp_is_index_allocated_t chain i t = (Some b, t) /\
    (b = true <-> is_allocated al i).
Proof.
  eexists. split; [reflexivity|].
  pose proof (wp_is_index_allocated chain usable (mem_steps (cells chain)) HN i t al tm
    (fun b _ => b = true <-> is_allocated al i) Hr Hi ltac:(done) ltac:(done)) as Hwp.
  apply wp_run in Hwp. exact Hwp.
Qed.

(** Nfos_dchain_exp_allocate terminates with an allocator in which no
    index is allocated, every core owns index_range / num_cores indexes, and
    expiry starts with the first core's ring. *)
Theorem exp_allocate_fresh (malloc_ok rte_ok : bool) (fuel : nat)
    (rlu_alloc : Z -> nfos_dchain_exp_cell) (usec_to_tsc : Z -> Z)
    (lcores index_range validity : Z)
    (Hcores : 1 < lcores) (Hrange : lcores - 1 <= index_range)
    (Hfuel : index_range <= Z.of_nat fuel) :
  match nfos_dchain_exp_allocate_t malloc_ok rte_ok fuel rlu_alloc usec_to_tsc
          lcores index_range validity with
  | Some (Some m) => malloc_ok && rte_ok = true /\
      (forall tm, exp_chain_rep (em_num_free_lists m)
         (em_num_free_lists m * (index_range / em_num_free_lists m)) (em_cells m)
         (fun _ => []) tm) /\
      em_num_free_lists m = lcores - 1 /\ em_curr_free_list m = 0 /\
      em_validity_duration m = usec_to_tsc validity
  | Some None => malloc_ok && rte_ok = false
  | None => False
  end.
Proof.
  unfold nfos_dchain_exp_allocate_t. destruct malloc_ok, rte_ok; simpl; try done.
  destruct (chain_init_rep (set_time INT64_MAX) (set_time INT64_MAX) (fun _ f => f)
    index_range (lcores - 1) fuel rlu_alloc) as (f & -> & Hr); [done|lia|lia|].
  split; [done|]. split; [|done]. intros tm. split; [exact Hr|].
  intros i [c Hc]. set_solver.
Qed.

(** Expired indexes are not reused: once all indexes are allocated, allocation
    finds none, whatever the time is and however long they have expired. *)
Lemma expired_not_reused {T} `{RluTxn T} (chain : NfosDoubleChainExp T) `{!RluLaws (cells chain)}
    (usable c now : Z) (al : Z -> list Z) (tm : Z -> Z) (t : T) :
  0 < num_free_lists chain -> 0 <= c < num_free_lists chain ->
  (forall i, 0 <= i < usable -> is_allocated al i) -> exp_rep chain usable t al tm ->
  match nfos_dchain_exp_allocate_new_index_t chain c now t with
  | (Some r, _) => r = None
  | (None, _) => ~ no_conflict t
  end.
Proof.
  intros HN Hc Hall Hr.
  apply (wp_run (mem_steps (cells chain)) _ t (fun r _ => r = None)), (wp_exp_allocate chain usable _ HN c now t al tm); try done.
  intros t' i Hi []. by apply Hall.
Qed.

(** ** Witnesses: two cores with two indexes each, valid for 10 cycles *)

Definition ex_chain : NfosDoubleChainExp (snap_txn nfos_dchain_exp_cell) :=
  {| cells := snap_mem; num_free_lists := 2; validity_duration := 10 |}.
Definition ex_exp_cells : Z -> nfos_dchain_exp_cell :=
  match nfos_dchain_exp_allocate_t true true 4 (fun _ => ExpCell 0 0 0 0) (fun x => x) 3 4 10 with
  | Some (Some m) => em_cells m
  | _ => fun _ => ExpCell 0 0 0 0
  end.
Definition ex_exp_txn : snap_txn nfos_dchain_exp_cell :=
  SnapTxn ex_exp_cells ∅ (fun _ => false).
(** Index 0 allocated by core 0 at time 5. *)
Definition ex_exp_txn1 : snap_txn nfos_dchain_exp_cell :=
  snd (nfos_dchain_exp_allocate_new_index_t ex_chain 0 5 ex_exp_txn).
Definition ex_state1 : exp_state :=
  ExpState (<[0 := [0]]> (fun _ => [])) (<[0 := 15]> (fun _ => 0)).

Lemma ex_exp_rep tm : exp_rep ex_chain 4 ex_exp_txn (fun _ => []) tm.
Proof.
  destruct (chain_init_rep (set_time INT64_MAX) (set_time INT64_MAX) (fun _ f => f)
    4 2 4 (fun _ => ExpCell 0 0 0 0)) as (f & E & Hr); [done|lia|done|].
  split; [|intros i [c Hc]; set_solver].
  unfold ex_exp_txn, ex_exp_cells, nfos_dchain_exp_allocate_t.
  cbn [negb]. replace (3 - 1) with 2 by lia. rewrite E.
  apply (rep_ext 2 4 ltac:(lia) f); [|exact Hr]. by intros x.
Qed.

Lemma ex_exp_rep1 : exp_rep ex_chain 4 ex_exp_txn1 (al_of ex_state1) (tm_of ex_state1).
Proof.
  assert (0 < num_free_lists ex_chain) as HN by (simpl; lia).
  pose proof (wp_exp_allocate ex_chain 4 (mem_steps (cells ex_chain)) HN 0 5 ex_exp_txn
    (fun _ => []) (fun _ => 0)
    (fun r t' => r = Some 0 -> exp_rep ex_chain 4 t' (al_of ex_state1) (tm_of ex_state1))
    (ex_exp_rep _) ltac:(simpl; lia)) as Hwp.
  apply wp_run in Hwp; [|intros t' i _ _ Hr [= ->]; exact Hr|done].
  unfold ex_exp_txn1.
  assert (fst (nfos_dchain_exp_allocate_new_index_t ex_chain 0 5 ex_exp_txn) = Some (Some 0)) as E
    by (vm_compute; reflexivity).
  destruct (nfos_dchain_exp_allocate_new_index_t _ _ _ _) as [r t']. simpl in E |- *.
  rewrite E in Hwp. by apply Hwp.
Qed.

Lemma ex_run1 : exp_run 10 2 4 5 ex_state1.
Proof.
  apply (run_step 10 2 4 5 (ExpState (fun _ => []) (fun _ => 0)) (OpAllocate 0 5)
    (OutIndex (Some 0))); [constructor|simpl; lia|simpl; lia|].
  apply (step_alloc 10 2 4 (fun _ => []) (fun _ => 0) 0 5 0); [lia|].
  intros [c Hc]. set_solver.
Qed.

Lemma exp_ops_refine_witness :
  fst (run_op ex_chain (OpRejuvenate 0 7) ex_exp_txn1) = Some (OutDone true) /\
  match run_op ex_chain (OpRejuvenate 0 7) ex_exp_txn1 with
  | (Some r, t') => exists s',
      exp_step 10 2 4 ex_state1 (OpRejuvenate 0 7) r s' /\
      exp_rep ex_chain 4 t' (al_of s') (tm_of s')
  | (None, _) => ~ no_conflict ex_exp_txn1
  end.
Proof.
  split; [vm_compute; reflexivity|].
  apply (exp_ops_refine ex_chain 4 (OpRejuvenate 0 7) ex_state1 ex_exp_txn1);
    [simpl; lia|simpl; lia|exact ex_exp_rep1].
Defined.

Lemma exp_expire_one_oldest_witness :
  fst (nfos_dchain_exp_expire_one_index_t ex_chain 0 16 ex_exp_txn1) =
    Some (Expired (Some 0) 0 false) /\
  match nfos_dchain_exp_expire_one_index_t ex_chain 0 16 ex_exp_txn1 with
  | (Some (Expired (Some i) c' d), _) =>
      i ∈ al_of ex_state1 0 /\ tm_of ex_state1 i < 16 /\
      (forall j, j ∈ al_of ex_state1 0 -> tm_of ex_state1 i <= tm_of ex_state1 j) /\
      c' = 0 /\ d = false
  | (Some (Expired None c' d), _) =>
      (forall j, j ∈ al_of ex_state1 0 -> 16 <= tm_of ex_state1 j) /\
      c' = (if d then 0 else 0 + 1) /\ (d = true <-> 0 = 2 - 1)
  | (None, _) => ~ no_conflict ex_exp_txn1
  end.
Proof.
  split; [vm_compute; reflexivity|].
  apply (exp_expire_one_oldest ex_chain 4 5 16 0 ex_state1 ex_exp_txn1);
    [simpl; lia|simpl; lia|exact ex_run1|lia|exact ex_exp_rep1].
Defined.

Lemma exp_is_index_allocated_spec_witness :
  exists b, nfos_dchain_exp_is_index_allocated_t ex_chain 0 ex_exp_txn1 = (Some b, ex_exp_txn1) /\
    (b = true <-> is_allocated (al_of ex_state1) 0).
Proof.
  apply (exp_is_index_allocated_spec ex_chain 4 0 _ (tm_of ex_state1) ex_exp_txn1);
    [simpl; lia|lia|exact ex_exp_rep1].
Defined.

Lemma exp_allocate_fresh_witness :
  match nfos_dchain_exp_allocate_t true true 4 (fun _ => ExpCell 0 0 0 0) (fun x => x) 3 4 10 with
  | Some (Some m) => true && true = true /\
      (forall tm, exp_chain_rep (em_num_free_lists m)
         (em_num_free_lists m * (4 / em_num_free_lists m)) (em_cells m) (fun _ => []) tm) /\
      em_num_free_lists m = 3 - 1 /\ em_curr_free_list m = 0 /\
      em_validity_duration m = 10
  | Some None => true && true = false
  | None => False
  end.
Proof. apply exp_allocate_fresh; lia. Defined.
