(* ===== verification/Cht.v ===== *)
(** * The consistent-hashing table

    src/src/cht.c.  nfos_cht_fill_cht gives every backend a permutation of
    the table's rows and lets the backends take turns at appending themselves
    to the priority list of the next row of their permutation;
    nfos_cht_find_preferred_available_backend walks the priority list of the
    row a hash selects and returns the first backend that is alive. *)

From Stdlib Require Import Znumtheory.
From S2P Require Import Prelude Rlu Vector Links Dchain DchainExp.
Open Scope Z_scope.

Definition MAX_CHT_HEIGHT : Z := 40000.

Definition loop (k capacity : Z) : Z := k mod capacity.

(** ** Filling the table *)

(** permutations[i * cht_height + j] *)
Definition permutation_at (cht_height i j : Z) : Z :=
  let offset_absolut := u32 (i * 31) in
  let offset := loop offset_absolut cht_height in
  let base_shift := loop i (cht_height - 1) in
  let shift := base_shift + 1 in
  i32 (loop (u64 (offset + u64 (shift * j))) cht_height).

Definition fill_permutations (cht_height backend_capacity : Z) (uninit : Z -> Z) : Z -> Z :=
  loop_range 0 (Z.to_nat backend_capacity) (fun i perms =>
    loop_range 0 (Z.to_nat cht_height) (fun j perms =>
      <[u32 (i * cht_height + j) := permutation_at cht_height i j]> perms) perms) uninit.

(** The state of the second pair of loops: next and the vector's elements. *)
Definition fill_step (permutations : Z -> Z) (cht_height backend_capacity i j : Z)
    (s : (Z -> Z) * (Z -> Z)) : (Z -> Z) * (Z -> Z) :=
  let (next, cht) := s in
  let index := u32 (j * cht_height + i) in
  let bucket_id := permutations index in
  let priority := next bucket_id in
  let next := <[bucket_id := i32 (next bucket_id + 1)]> next in
  (next, <[i32 (u32 (backend_capacity * bucket_id + priority)) := j]> cht).

(** [cht]: the elements of the vector; the result is [None] when a malloc
    fails (return 0). *)
Definition nfos_cht_fill_cht (malloc1_ok malloc2_ok : bool) (uninit : Z -> Z)
    (cht : Z -> Z) (cht_height backend_capacity : Z) : option (Z -> Z) :=
  if negb malloc1_ok then None
  else
    let permutations := fill_permutations cht_height backend_capacity uninit in
    if negb malloc2_ok then None
    else
      let next := loop_range 0 (Z.to_nat cht_height) (fun i next => <[i := 0]> next) uninit in
      let (_, cht) :=
        loop_range 0 (Z.to_nat cht_height) (fun i s =>
          loop_range 0 (Z.to_nat backend_capacity) (fun j s =>
            fill_step permutations cht_height backend_capacity i j s) s) (next, cht) in
      Some cht.

(** ** Looking a backend up *)

Section lookup.
Context {T : Type} (cht : NfosVector T Z) (active_backends : NfosDoubleChainExp T).

Fixpoint find_loop (start backend_capacity : Z) (n : nat) (i : Z) : M T (option Z) :=
  match n with
  | O => ret None
  | S n' =>
      let candidate_idx := u64 (start * backend_capacity + i) in
      let! candidate := nfos_vector_borrow_t cht (i32 candidate_idx) in
      let! alive := nfos_dchain_exp_is_index_allocated_t active_backends (i32 candidate) in
      if (alive : bool) then ret (Some (i32 candidate))
      else find_loop start backend_capacity n' (i + 1)
  end.

(** [Some b]: return 1 with *chosen_backend = b. *)
Definition nfos_cht_find_preferred_available_backend (hash cht_height backend_capacity : Z)
    : M T (option Z) :=
  let start := loop hash cht_height in
  find_loop start backend_capacity (Z.to_nat backend_capacity) 0.
End lookup.

(** ** The rows are permutations of the backends *)

Section fill.
Variables (h cap : Z).
(** The sizes the code asserts: the height is a prime within MAX_CHT_HEIGHT
    and the table has fewer than 2^31 cells. *)
Hypotheses (Hprime : Z.prime h) (Hmax : h <= MAX_CHT_HEIGHT) (Hcap : 0 <= cap)
  (Hsize : h * cap < 2 ^ 31).

Definition row (i j : Z) : Z := (u32 (i * 31) mod h + (i mod (h - 1) + 1) * j) mod h.

Lemma h_pos : 2 <= h.
Proof. destruct Hprime. lia. Qed.

Lemma permutation_row i j : 0 <= j < h -> permutation_at h i j = row i j.
Proof.
  intros Hj. pose proof h_pos. unfold MAX_CHT_HEIGHT in Hmax.
  pose proof (Z.mod_pos_bound (u32 (i * 31)) h). pose proof (Z.mod_pos_bound i (h - 1)).
  unfold permutation_at, row, loop.
  assert (0 <= (i mod (h - 1) + 1) * j <= h * h) by nia.
  assert (h * h <= 40000 * 40000) by nia.
  rewrite (u64_id ((i mod (h - 1) + 1) * j)) by lia. rewrite u64_id by lia.
  set (x := _ + _). pose proof (Z.mod_pos_bound x h). apply i32_id. lia.
Qed.

Lemma row_range i j : 0 <= row i j < h.
Proof. pose proof h_pos. apply Z.mod_pos_bound. lia. Qed.

(** A backend visits every row once: its step is prime to the height. *)
Lemma row_inj i j j' : 0 <= j < h -> 0 <= j' < h -> row i j = row i j' -> j = j'.
Proof.
  pose proof h_pos. intros Hj Hj' E. unfold row in E.
  set (a := u32 (i * 31) mod h) in E. set (s := i mod (h - 1) + 1) in E.
  assert (0 < s < h) as Hs by (pose proof (Z.mod_pos_bound i (h - 1)); lia).
  assert (h | s * (j - j')) as Hd.
  { apply Z.mod_divide; [lia|]. replace (s * (j - j')) with ((a + s * j) - (a + s * j')) by lia.
    by rewrite Zminus_mod, E, Z.sub_diag, Z.mod_0_l by lia. }
  apply Z.divide_prime_mul in Hd as [Hd|Hd]; [| |done].
  - apply Z.divide_pos_le in Hd; lia.
  - destruct (decide (j = j')) as [|Hne]; [done|].
    destruct (Z.lt_total j j') as [|[|]]; [|done|].
    + apply Z.divide_opp_r in Hd. apply Z.divide_pos_le in Hd; lia.
    + apply Z.divide_pos_le in Hd; lia.
Qed.

Lemma row_surj i b : 0 <= b < h -> exists j, 0 <= j < h /\ row i j = b.
Proof.
  intros Hb. apply (inj_surj (row i) h); [|apply row_inj|done].
  intros. apply row_range.
Qed.

Lemma cell_index i j : 0 <= i < cap -> 0 <= j < h -> u32 (i * h + j) = i * h + j.
Proof. intros. apply u32_id. nia. Qed.

Lemma fill_permutations_spec uninit i j :
  0 <= i < cap -> 0 <= j < h -> fill_permutations h cap uninit (i * h + j) = row i j.
Proof.
  pose proof h_pos. revert i j. unfold fill_permutations.
  apply (loop_range_spec (fun n perms => forall i j, 0 <= i < n -> 0 <= j < h ->
    perms (i * h + j) = row i j)); [lia|lia|].
  intros k perms Hk IH.
  assert (forall m perms', (forall i j, 0 <= i < k -> 0 <= j < h -> perms' (i * h + j) = row i j) /\
    (forall j, 0 <= j < m -> perms' (k * h + j) = row k j) ->
    m = h -> forall i j, 0 <= i < k + 1 -> 0 <= j < h -> perms' (i * h + j) = row i j) as Hend.
  { intros m perms' [Hlt Hk'] -> i j Hi Hj.
    destruct (decide (i = k)) as [->|]; [auto|apply Hlt; lia]. }
  eapply Hend; [|done].
  apply (loop_range_spec (fun m perms' => (forall i j, 0 <= i < k -> 0 <= j < h ->
    perms' (i * h + j) = row i j) /\ (forall j, 0 <= j < m -> perms' (k * h + j) = row k j)));
    [lia|split; [done|lia]|].
  intros m perms' Hm [Hlt Heq]. rewrite cell_index by lia. split.
  - intros i j Hi Hj. rewrite fn_lookup_insert_ne by nia. auto.
  - intros j Hj. rewrite fn_insert_dec. case_decide as E.
    + assert (j = m) as -> by lia. apply permutation_row. lia.
    + apply Heq. lia.
Qed.

(** The backends that have been appended to row [b] after the rounds [D]. *)
Definition hist (D : list (Z * Z)) (b : Z) : list Z :=
  snd <$> filter (fun d => row d.2 d.1 = b) D.

Lemma hist_snoc D i j b :
  hist (D ++ [(i, j)]) b = hist D b ++ (if decide (row j i = b) then [j] else []).
Proof.
  unfold hist. rewrite filter_app, fmap_app. f_equal.
  by case_decide; [rewrite filter_cons_True|rewrite filter_cons_False].
Qed.

Definition rounds_ok (D : list (Z * Z)) : Prop :=
  NoDup D /\ forall d, d ∈ D -> 0 <= d.1 < h /\ 0 <= d.2 < cap.

Lemma hist_nodup D b : rounds_ok D -> NoDup (hist D b) /\ Z.of_nat (length (hist D b)) <= cap.
Proof.
  intros [Hnd HD].
  assert (NoDup (hist D b)) as Hn.
  { apply NoDup_fmap_2_strong; [|by apply NoDup_filter].
    intros [i j] [i' j'] [Hb Hd]%list_elem_of_filter [Hb' Hd']%list_elem_of_filter. simpl in *.
    intros <-. f_equal. destruct (HD _ Hd), (HD _ Hd'). simpl in *.
    apply (row_inj j); [done|done|congruence]. }
  split; [done|].
  assert (hist D b ⊆ seqZ 0 cap) as Hsub.
  { intros j (d & -> & [_ Hd]%list_elem_of_filter)%list_elem_of_fmap. apply elem_of_seqZ.
    specialize (HD d Hd). lia. }
  pose proof (submseteq_length _ _ (NoDup_submseteq _ _ Hn Hsub)) as Hl.
  rewrite length_seqZ in Hl. lia.
Qed.

(** The loops' invariant. *)
Record filled (D : list (Z * Z)) (s : (Z -> Z) * (Z -> Z)) : Prop := {
  filled_next b : 0 <= b < h -> s.1 b = Z.of_nat (length (hist D b));
  filled_cht b p j : 0 <= b < h -> hist D b !! p = Some j -> s.2 (cap * b + Z.of_nat p) = j
}.

Lemma fill_step_ok perms D i j s :
  (forall i j, 0 <= i < cap -> 0 <= j < h -> perms (i * h + j) = row i j) ->
  rounds_ok (D ++ [(i, j)]) -> filled D s ->
  filled (D ++ [(i, j)]) (fill_step perms h cap i j s).
Proof.
  intros Hp HD [Hn Hc]. pose proof h_pos. destruct s as [next cht]. simpl in Hn, Hc.
  assert (0 <= i < h /\ 0 <= j < cap) as [Hi Hj].
  { destruct HD as [_ HD]. specialize (HD (i, j)). simpl in HD. apply HD. set_solver. }
  unfold fill_step. rewrite cell_index by done. rewrite Hp by done.
  set (b0 := row j i). assert (0 <= b0 < h) as Hb0 by apply row_range.
  assert (forall b, hist (D ++ [(i, j)]) b = hist D b ++ if decide (b0 = b) then [j] else []) as Eh.
  { intros b. by rewrite hist_snoc. }
  pose proof (hist_nodup _ b0 HD) as [_ Hlen]. rewrite Eh, decide_True, length_app in Hlen by done.
  simpl in Hlen. rewrite (Hn b0) by done. set (p0 := length (hist D b0)) in *.
  assert (forall b p, 0 <= b < h -> 0 <= p < cap -> 0 <= cap * b + p < 2 ^ 31) as Hslot by (intros; nia).
  pose proof (Hslot b0 (Z.of_nat p0) Hb0 ltac:(lia)).
  rewrite u32_id, !i32_id by nia. split; cbn [fst snd].
  - intros b Hb. rewrite fn_insert_dec, Eh, length_app. case_decide as E.
    + subst. simpl. lia.
    + simpl. rewrite Hn by done. lia.
  - intros b p j' Hb Hpj. rewrite Eh in Hpj.
    assert (rounds_ok D) as HD'.
    { destruct HD as [Hnd HD]. split; [by apply NoDup_app in Hnd as [? _]|].
      intros d Hd. apply HD. set_solver. }
    apply lookup_app_Some in Hpj as [Hpj|[Hge Hpj]].
    + pose proof (lookup_lt_Some _ _ _ Hpj) as Hlt.
      pose proof (hist_nodup D b HD') as [_ Hlb].
      rewrite fn_lookup_insert_ne; [by apply Hc|]. intros E.
      assert (b = b0) as -> by nia. fold p0 in Hlt. lia.
    + case_decide as E; [subst b|done].
      apply list_lookup_singleton_Some in Hpj as [Hp0 <-]. fold p0 in Hp0, Hge.
      assert (p = p0) as -> by lia. by rewrite fn_lookup_insert.
Qed.

(** All rounds of the two loops, in their order. *)
Definition rounds (n m : Z) : list (Z * Z) :=
  (seqZ 0 n ≫= fun i => (fun j => (i, j)) <$> seqZ 0 cap) ++ ((fun j => (n, j)) <$> seqZ 0 m).

Lemma seqZ_snoc n : 0 <= n -> seqZ 0 (n + 1) = seqZ 0 n ++ [n].
Proof. intros. by rewrite seqZ_app by lia. Qed.

Lemma rounds_snoc n m : 0 <= m -> rounds n (m + 1) = rounds n m ++ [(n, m)].
Proof. intros. unfold rounds. by rewrite seqZ_snoc, fmap_app, app_assoc. Qed.

Lemma rounds_next n : 0 <= n -> rounds (n + 1) 0 = rounds n cap.
Proof.
  intros. unfold rounds. rewrite seqZ_snoc, bind_app by done. simpl. by rewrite !app_nil_r.
Qed.

Lemma rounds_elem n m d :
  d ∈ rounds n m <-> 0 <= d.1 < n /\ 0 <= d.2 < cap \/ d.1 = n /\ 0 <= d.2 < m.
Proof.
  destruct d as [i j]. unfold rounds. rewrite elem_of_app, list_elem_of_bind. simpl. split.
  - intros [(i' & (j' & E & Hj%elem_of_seqZ)%list_elem_of_fmap & Hi%elem_of_seqZ)
           |(j' & E & Hj%elem_of_seqZ)%list_elem_of_fmap]; simplify_eq; lia.
  - intros [[Hi Hj]|[-> Hj]].
    + left. exists i. split; [apply list_elem_of_fmap_2|]; apply elem_of_seqZ; lia.
    + right. apply list_elem_of_fmap_2, elem_of_seqZ. lia.
Qed.

Lemma rounds_nodup n m : 0 <= n -> NoDup (rounds n m).
Proof.
  intros Hn. unfold rounds. apply NoDup_app. split; [|split].
  - apply NoDup_bind; [| |apply NoDup_seqZ].
    + intros i i' d _ _ (j & -> & _)%list_elem_of_fmap (j' & [= ->] & _)%list_elem_of_fmap. done.
    + intros i _. apply NoDup_fmap_2; [|apply NoDup_seqZ]. by intros j j' [= ->].
  - intros d (i & (j & -> & _)%list_elem_of_fmap & Hi%elem_of_seqZ)%list_elem_of_bind
      (j' & [= -> ->] & _)%list_elem_of_fmap. lia.
  - apply NoDup_fmap_2; [|apply NoDup_seqZ]. by intros j j' [= ->].
Qed.

Lemma rounds_are_ok n m : 0 <= n -> n < h \/ n = h /\ m = 0 -> m <= cap -> rounds_ok (rounds n m).
Proof.
  intros Hn Hor Hm. split; [by apply rounds_nodup|]. intros d. rewrite rounds_elem. lia.
Qed.

Lemma fill_all perms cht next :
  (forall i j, 0 <= i < cap -> 0 <= j < h -> perms (i * h + j) = row i j) ->
  (forall b, 0 <= b < h -> next b = 0) ->
  filled (rounds h 0)
    (loop_range 0 (Z.to_nat h) (fun i s =>
       loop_range 0 (Z.to_nat cap) (fun j s => fill_step perms h cap i j s) s) (next, cht)).
Proof.
  intros Hp Hn. pose proof h_pos.
  apply (loop_range_spec (fun n s => filled (rounds n 0) s)); [lia| |].
  - split; simpl; [intros; by rewrite Hn|done].
  - intros n s Hnh Hf. rewrite rounds_next by lia.
    apply (loop_range_spec (fun m s => filled (rounds n m) s)); [done|done|].
    intros m s' Hm Hf'. rewrite rounds_snoc by lia.
    apply fill_step_ok; [done| |done]. rewrite <- rounds_snoc by lia.
    apply rounds_are_ok; lia.
Qed.

(** In the end every row lists every backend once. *)
Lemma hist_perm b : 0 <= b < h -> Permutation (hist (rounds h 0) b) (seqZ 0 cap).
Proof.
  intros Hb. pose proof h_pos.
  assert (rounds_ok (rounds h 0)) as Hok by (apply rounds_are_ok; lia).
  destruct (hist_nodup _ b Hok) as [Hnd _].
  apply NoDup_Permutation; [done|apply NoDup_seqZ|]. intros j. rewrite elem_of_seqZ. split.
  - intros (d & -> & [_ Hd]%list_elem_of_filter)%list_elem_of_fmap. apply Hok in Hd. lia.
  - intros Hj. destruct (row_surj j b Hb) as (i & Hi & E). apply list_elem_of_fmap.
    exists (i, j). split; [done|]. apply list_elem_of_filter. split; [done|].
    apply rounds_elem. simpl. lia.
Qed.
End fill.

(** ** The lookup as a search in a list *)

Definition alive {T} (chain : NfosDoubleChainExp T) (t : T) (i : Z) : bool :=
  negb (list_ind (view (cells chain) t (i + INDEX_SHIFT (num_free_lists chain))) =? -1).

Lemma alive_spec {T} (chain : NfosDoubleChainExp T) usable t al tm i :
  0 < num_free_lists chain -> exp_rep chain usable t al tm -> 0 <= i < usable ->
  alive chain t i = true <-> is_allocated al i.
Proof.
  intros HN [Hr _] Hi. unfold alive. rewrite Z.add_comm, negb_true_iff, Z.eqb_neq. split.
  - by apply (rep_ind_alloc _ usable HN _ al i Hr Hi).
  - intros Ha E. by apply (rep_ind _ usable HN _ al i Hr Hi) in E.
Qed.

Lemma find_loop_reads {T} (cht : NfosVector T Z) (chain : NfosDoubleChainExp T) start cap t n :
  forall i,
  0 <= i -> 0 <= start -> start * cap + i + Z.of_nat n < 2 ^ 31 -> 0 <= start * cap ->
  (forall p, start * cap + i <= p < start * cap + i + Z.of_nat n ->
     0 <= view (elems cht) t p < 2 ^ 31) ->
  find_loop cht chain start cap n i t =
  (Some (find (alive chain t)
     ((fun p => view (elems cht) t (start * cap + p)) <$> seqZ i (Z.of_nat n))), t).
Proof.
  induction n as [|n IH]; intros i Hi Hs Hb H0 Hv; [done|].
  rewrite seqZ_cons by lia. cbn [find_loop fmap list_fmap find].
  unfold bind, nfos_vector_borrow_t, deref, nfos_dchain_exp_is_index_allocated_t.
  rewrite (u64_id (start * cap + i)), (i32_id (start * cap + i)) by lia. set (x := view (elems cht) t (start * cap + i)).
  assert (0 <= x < 2 ^ 31) by (apply Hv; lia). rewrite i32_id by lia.
  cbn [ret]. unfold bind, deref, ret. fold (alive chain t x).
  destruct (alive chain t x); [done|].
  replace (Z.pred (Z.of_nat (S n))) with (Z.of_nat n) by lia. apply IH; try lia.
  intros p Hp. apply Hv. lia.
Qed.

(** The priority list of the row selected by a hash. *)
Definition priority_list {T} (cht : NfosVector T Z) (t : T) (hash h cap : Z) : list Z :=
  (fun p => view (elems cht) t (hash mod h * cap + p)) <$> seqZ 0 cap.

Lemma find_preferred_reads {T} (cht : NfosVector T Z) (chain : NfosDoubleChainExp T) t hash h cap :
  0 < h -> 0 <= cap -> h * cap < 2 ^ 31 ->
  (forall p, 0 <= p < h * cap -> 0 <= view (elems cht) t p < 2 ^ 31) ->
  nfos_cht_find_preferred_available_backend cht chain hash h cap t =
  (Some (find (alive chain t) (priority_list cht t hash h cap)), t).
Proof.
  intros Hh Hc Hb Hv. unfold nfos_cht_find_preferred_available_backend, priority_list, loop.
  pose proof (Z.mod_pos_bound hash h Hh). set (s := hash mod h) in *.
  rewrite find_loop_reads; [|lia|lia|nia|nia|].
  - by rewrite Z2Nat.id by lia.
  - intros p Hp. apply Hv. nia.
Qed.

Lemma find_first (P : Z -> bool) l :
  match find P l with
  | Some b => exists l1 l2, l = l1 ++ b :: l2 /\ P b = true /\ forall j, j ∈ l1 -> P j = false
  | None => forall j, j ∈ l -> P j = false
  end.
Proof.
  induction l as [|x l IH]; simpl; [set_solver|]. destruct (P x) eqn:E.
  - exists [], l. split; [done|]. split; [done|set_solver].
  - destruct (find P l) as [b|].
    + destruct IH as (l1 & l2 & -> & Hb & Hl1). exists (x :: l1), l2.
      split; [done|]. split; [done|]. intros j [->|Hj]%elem_of_cons; auto.
    + intros j [->|Hj]%elem_of_cons; auto.
Qed.

Lemma fill_cht_rows (malloc1_ok malloc2_ok : bool) (uninit cht : Z -> Z)
    (h cap : Z) (Hprime : Z.prime h) (Hmax : h <= MAX_CHT_HEIGHT) (Hcap : 0 <= cap)
    (Hsize : h * cap < 2 ^ 31) :
  match nfos_cht_fill_cht malloc1_ok malloc2_ok uninit cht h cap with
  | Some cht' => malloc1_ok && malloc2_ok = true /\
      forall row, 0 <= row < h ->
        Permutation ((fun p => cht' (cap * row + p)) <$> seqZ 0 cap) (seqZ 0 cap)
  | None => malloc1_ok && malloc2_ok = false
  end.
Proof.
  pose proof (h_pos h Hprime). unfold nfos_cht_fill_cht.
  destruct malloc1_ok, malloc2_ok; cbn [negb andb]; try done.
  set (next := loop_range 0 (Z.to_nat h) (fun i next => <[i := 0]> next) uninit).
  assert (forall b, 0 <= b < h -> next b = 0) as Hnext.
  { apply (loop_range_spec (fun n next => forall b, 0 <= b < n -> next b = 0)); [lia|lia|].
    intros k s Hk IH b Hb. rewrite fn_insert_dec. case_decide; [done|apply IH; lia]. }
  pose proof (fill_all h cap Hprime Hmax Hcap Hsize (fill_permutations h cap uninit) cht next
    (fill_permutations_spec h cap Hprime Hmax Hcap Hsize uninit) Hnext) as [_ Hf].
  destruct (loop_range _ _ _ (next, cht)) as [next' cht']. split; [done|]. intros b Hb. simpl in Hf.
  pose proof (hist_perm h cap Hprime Hcap b Hb) as Hp.
  enough (((fun p => cht' (cap * b + p)) <$> seqZ 0 cap) = hist h (rounds cap h 0) b) as -> by done.
  assert (length (hist h (rounds cap h 0) b) = Z.to_nat cap) as Hlen.
  { by rewrite (Permutation_length Hp), length_seqZ. }
  apply list_eq. intros p. rewrite list_lookup_fmap.
  destruct (decide (p < Z.to_nat cap)%nat) as [Hlt|Hge].
  - rewrite lookup_seqZ_lt by lia. simpl.
    destruct (lookup_lt_is_Some_2 (hist h (rounds cap h 0) b) p) as [j Hj]; [lia|].
    rewrite Hj. f_equal. rewrite Z.add_0_l. by apply Hf.
  - rewrite lookup_seqZ_ge by lia. simpl. symmetry. apply lookup_ge_None_2. lia.
Qed.

(** ** Properties *)

(** C24: when the table's height is a prime, nfos_cht_fill_cht writes into every
    row a permutation of all backends, so that a lookup tries every backend
    exactly once; it fails exactly when one of its allocations fails. *)
Theorem nfos_cht_fill_cht_rows (malloc1_ok malloc2_ok : bool) (uninit cht : Z -> Z)
    (h cap : Z) (Hprime : Z.prime h) (Hmax : h <= MAX_CHT_HEIGHT) (Hcap : 0 <= cap)
    (Hsize : h * cap < 2 ^ 31) :
  match nfos_cht_fill_cht malloc1_ok malloc2_ok uninit cht h cap with
  | Some cht' => malloc1_ok && malloc2_ok = true /\
      forall row, 0 <= row < h ->
        Permutation ((fun p => cht' (cap * row + p)) <$> seqZ 0 cap) (seqZ 0 cap)
  | None => malloc1_ok && malloc2_ok = false
  end.
Proof. by apply fill_cht_rows. Qed.

(** Nfos_cht_find_preferred_available_backend returns the first backend of
    the priority list of the hash's row that is allocated (alive), and returns
    0 only when none of them is; it reads only and never aborts. *)
Theorem nfos_cht_find_preferred_spec {T} `{RluTxn T} (cht : NfosVector T Z)
    (active : NfosDoubleChainExp T) (usable : Z) (al : Z -> list Z) (tm : Z -> Z)
    (t : T) (hash h cap : Z)
    (HN : 0 < num_free_lists active) (Hr : exp_rep active usable t al tm)
    (Hh : 0 < h) (Hcap : 0 <= cap <= usable) (Hsize : h * cap < 2 ^ 31)
    (Hmax : usable <= 2 ^ 31)
    (Hcht : forall p, 0 <= p < h * cap -> 0 <= view (elems cht) t p < usable) :
  exists r,
    nfos_cht_find_preferred_available_backend cht active hash h cap t = (Some r, t) /\
    match r with
    | Some b => exists l1 l2, priority_list cht t hash h cap = l1 ++ b :: l2 /\
        is_allocated al b /\ forall j, j ∈ l1 -> ~ is_allocated al j
    | None => forall j, j ∈ priority_list cht t hash h cap -> ~ is_allocated al j
    end.
Proof.
  eexists. split; [apply find_preferred_reads; [lia|lia|lia|]|].
  { intros p Hp. specialize (Hcht p Hp). lia. }
  pose proof (Z.mod_pos_bound hash h Hh).
  assert (forall j, j ∈ priority_list cht t hash h cap -> 0 <= j < usable) as Hin.
  { intros j (p & -> & Hp%elem_of_seqZ)%list_elem_of_fmap. apply Hcht. nia. }
  pose proof (find_first (alive active t) (priority_list cht t hash h cap)) as Hf.
  destruct (find _ _) as [b|].
  - destruct Hf as (l1 & l2 & E & Hb & Hl1). rewrite E in Hin. exists l1, l2. split; [done|].
    split; [apply (alive_spec active usable t al tm b HN Hr); [apply Hin; set_solver|done]|].
    intros j Hj Ha. apply (alive_spec active usable t al tm j HN Hr) in Ha; [|apply Hin; set_solver].
    by rewrite Hl1 in Ha.
  - intros j Hj Ha. apply (alive_spec active usable t al tm j HN Hr) in Ha; [|by apply Hin].
    by rewrite Hf in Ha.
Qed.

(** C23: minimal disruption: however the set of live backends changes, as long
    as the table stays the same, a flow whose backend is still alive keeps it,
    or goes to a backend that was not alive before; so it keeps it when no
    backend has joined. *)
Theorem nfos_cht_minimal_disruption {T} `{RluTxn T} (cht : NfosVector T Z)
    (active : NfosDoubleChainExp T) (usable : Z) (al al' : Z -> list Z) (tm tm' : Z -> Z)
    (t t' : T) (hash h cap b : Z)
    (HN : 0 < num_free_lists active)
    (Hr : exp_rep active usable t al tm) (Hr' : exp_rep active usable t' al' tm')
    (Hh : 0 < h) (Hcap : 0 <= cap <= usable) (Hsize : h * cap < 2 ^ 31)
    (Hmax : usable <= 2 ^ 31)
    (Hcht : forall p, 0 <= p < h * cap -> 0 <= view (elems cht) t p < usable)
    (Hsame : forall p, view (elems cht) t' p = view (elems cht) t p)
    (Hb : fst (nfos_cht_find_preferred_available_backend cht active hash h cap t) = Some (Some b))
    (Hlive : is_allocated al' b) :
  exists b', fst (nfos_cht_find_preferred_available_backend cht active hash h cap t') = Some (Some b') /\
    (b' = b \/ (~ is_allocated al b' /\ is_allocated al' b')).
Proof.
  assert (forall p, 0 <= p < h * cap -> 0 <= view (elems cht) t p < 2 ^ 31) as Hcht'.
  { intros p Hp. specialize (Hcht p Hp). lia. }
  rewrite find_preferred_reads in Hb by (done || lia). injection Hb as Hb.
  rewrite find_preferred_reads; [|lia|lia|lia|intros p; rewrite Hsame; apply Hcht'].
  assert (priority_list cht t' hash h cap = priority_list cht t hash h cap) as ->.
  { unfold priority_list. apply list_fmap_ext. intros. apply Hsame. }
  pose proof (Z.mod_pos_bound hash h Hh).
  assert (forall j, j ∈ priority_list cht t hash h cap -> 0 <= j < usable) as Hin.
  { intros j (p & -> & Hp%elem_of_seqZ)%list_elem_of_fmap. apply Hcht. nia. }
  cbn. revert Hb Hin. generalize (priority_list cht t hash h cap).
  induction l as [|y l IH]; cbn; [done|]. intros Hb Hin.
  assert (0 <= y < usable) as Hy by (apply Hin; left).
  pose proof (alive_spec active usable t al tm y HN Hr Hy) as Ha.
  pose proof (alive_spec active usable t' al' tm' y HN Hr' Hy) as Ha'.
  destruct (alive active t y).
  - injection Hb as ->. rewrite (proj2 Ha' Hlive). eauto.
  - destruct (alive active t' y); [|apply IH; [done|]; intros j Hj; apply Hin; by right].
    exists y. split; [done|]. right. split; [by intros E%Ha|by apply Ha'].
Qed.

(** ** Witnesses *)

Lemma nfos_cht_fill_cht_rows_witness :
  match nfos_cht_fill_cht true true (fun _ => 0) (fun _ => 0) 5 3 with
  | Some cht' => true && true = true /\
      forall row, 0 <= row < 5 ->
        Permutation ((fun p => cht' (3 * row + p)) <$> seqZ 0 3) (seqZ 0 3)
  | None => true && true = false
  end.
Proof.
  apply (nfos_cht_fill_cht_rows true true (fun _ => 0) (fun _ => 0) 5 3);
    [|unfold MAX_CHT_HEIGHT; lia|lia|lia].
  split; [lia|]. intros n Hn [k Hk]. assert (n = 2 \/ n = 3 \/ n = 4) by lia. lia.
Defined.

(** The transaction of the lookups' witnesses: the table and the allocator. *)
Definition ex_cht_vec : NfosVector (snap_txn Z * snap_txn nfos_dchain_exp_cell) Z :=
  {| elems := lens_mem (fst_lens self_lens); elem_size := 4; capacity := 8 |}.
Definition ex_active : NfosDoubleChainExp (snap_txn Z * snap_txn nfos_dchain_exp_cell) :=
  {| cells := lens_mem (snd_lens self_lens); num_free_lists := 2; validity_duration := 10 |}.
(** Two rows: backends 0, 1 and 1, 0. *)
Definition ex_cht_txn : snap_txn Z :=
  SnapTxn (fun p => if (p =? 0) || (p =? 3) then 0 else 1) ∅ (fun _ => false).

Lemma ex_cht_view t p :
  view (elems ex_cht_vec) (ex_cht_txn, t) p = if (p =? 0) || (p =? 3) then 0 else 1.
Proof. reflexivity. Qed.

Lemma ex_active_rep tab t al tm :
  exp_rep ex_chain 4 t al tm -> exp_rep ex_active 4 (tab, t) al tm.
Proof. done. Qed.

Lemma nfos_cht_find_preferred_spec_witness :
  nfos_cht_find_preferred_available_backend ex_cht_vec ex_active 7 2 2
    (ex_cht_txn, ex_exp_txn1) = (Some (Some 0), (ex_cht_txn, ex_exp_txn1)) /\
  exists r,
    nfos_cht_find_preferred_available_backend ex_cht_vec ex_active 7 2 2
      (ex_cht_txn, ex_exp_txn1) = (Some r, (ex_cht_txn, ex_exp_txn1)) /\
    match r with
    | Some b => exists l1 l2,
        priority_list ex_cht_vec (ex_cht_txn, ex_exp_txn1) 7 2 2 = l1 ++ b :: l2 /\
        is_allocated (al_of ex_state1) b /\ forall j, j ∈ l1 -> ~ is_allocated (al_of ex_state1) j
    | None => forall j, j ∈ priority_list ex_cht_vec (ex_cht_txn, ex_exp_txn1) 7 2 2 ->
        ~ is_allocated (al_of ex_state1) j
    end.
Proof.
  split; [reflexivity|].
  apply (nfos_cht_find_preferred_spec ex_cht_vec ex_active 4 _ (tm_of ex_state1)
    (ex_cht_txn, ex_exp_txn1) 7 2 2); try (simpl; lia).
  - apply ex_active_rep, ex_exp_rep1.
  - intros p Hp. rewrite ex_cht_view. destruct ((p =? 0) || (p =? 3)); lia.
Defined.

(** Backend 1 joins. *)
Definition ex_exp_txn2 : snap_txn nfos_dchain_exp_cell :=
  snd (nfos_dchain_exp_allocate_new_index_t ex_chain 0 6 ex_exp_txn1).
Definition ex_state2 : exp_state :=
  ExpState (<[0 := [0; 1]]> (al_of ex_state1)) (<[1 := 16]> (tm_of ex_state1)).

Lemma ex_exp_rep2 : exp_rep ex_chain 4 ex_exp_txn2 (al_of ex_state2) (tm_of ex_state2).
Proof.
  pose proof (wp_exp_allocate ex_chain 4 (mem_steps (cells ex_chain)) ltac:(simpl; lia) 0 6 ex_exp_txn1
    (al_of ex_state1) (tm_of ex_state1)
    (fun r t' => r = Some 1 -> exp_rep ex_chain 4 t' (al_of ex_state2) (tm_of ex_state2))
    ex_exp_rep1 ltac:(simpl; lia)) as Hwp.
  apply wp_run in Hwp; [|intros t' i _ _ Hr [= ->]; exact Hr|done].
  unfold ex_exp_txn2.
  assert (fst (nfos_dchain_exp_allocate_new_index_t ex_chain 0 6 ex_exp_txn1) = Some (Some 1)) as E
    by (vm_compute; reflexivity).
  destruct (nfos_dchain_exp_allocate_new_index_t _ _ _ _) as [r t']. simpl in E |- *.
  rewrite E in Hwp. by apply Hwp.
Qed.

(** The flow with the hash 7 moves to the backend that has joined, the one
    with the hash 6 stays. *)
Lemma nfos_cht_minimal_disruption_witness :
  (exists b', fst (nfos_cht_find_preferred_available_backend ex_cht_vec ex_active 7 2 2 (ex_cht_txn, ex_exp_txn2)) = Some (Some b') /\
    (b' = 0 \/ (~ is_allocated (al_of ex_state1) b' /\ is_allocated (al_of ex_state2) b'))) /\
  fst (nfos_cht_find_preferred_available_backend ex_cht_vec ex_active 7 2 2 (ex_cht_txn, ex_exp_txn2)) = Some (Some 1) /\
  fst (nfos_cht_find_preferred_available_backend ex_cht_vec ex_active 6 2 2 (ex_cht_txn, ex_exp_txn2)) = Some (Some 0).
Proof.
  split; [|by vm_compute].
  apply (nfos_cht_minimal_disruption ex_cht_vec ex_active 4 (al_of ex_state1) (al_of ex_state2)
    (tm_of ex_state1) (tm_of ex_state2) (ex_cht_txn, ex_exp_txn1) (ex_cht_txn, ex_exp_txn2)
    7 2 2 0); try (simpl; lia); try done.
  - apply ex_active_rep, ex_exp_rep1.
  - apply ex_active_rep, ex_exp_rep2.
  - intros p Hp. rewrite ex_cht_view. destruct ((p =? 0) || (p =? 3)); lia.
  - exists 0. cbn. set_solver.
Defined.
