(* ===== verification/MeObj.v ===== *)
(** * Mergeable objects

    src/src/mergeable-obj.c.  An object has one RLU-protected replica per
    worker core.  An update locks and changes the caller's replica only; a
    read merges all replicas into the caller's private cache when the cached
    value is older than the allowed staleness, and returns the cache. *)

From stdpp Require Import strings.
From S2P Require Import Prelude Rlu Profiler.
Open Scope Z_scope.

(** The private cache of one thread. *)
Record obj_merged_val_t (O : Type) := Merged { ts : Z; val : O }.
Arguments Merged {O} _ _.
Arguments ts {O} _.
Arguments val {O} _.

Record NfosMeObj (T O : Type) := {
  replicas : RluMem T O;
  obj_size : Z;
  staleness : Z;
  num_replicas : Z
}.
Arguments replicas {T O} _.
Arguments obj_size {T O} _.
Arguments staleness {T O} _.
Arguments num_replicas {T O} _.

(** ** Allocation *)

Record me_obj_masters (O : Type) := MeObjMasters {
  mo_replicas : Z -> O;
  mo_caches : Z -> obj_merged_val_t O;
  mo_obj_size : Z;
  mo_staleness : Z
}.
Arguments MeObjMasters {O} _ _ _ _.
Arguments mo_replicas {O} _ _.
Arguments mo_caches {O} _ _.
Arguments mo_obj_size {O} _.
Arguments mo_staleness {O} _.

(** [rlu_alloc] and [memalign] give the contents of the memory the two
    allocators return for core [i]. *)
Definition nfos_me_obj_allocate_t {O} (malloc1_ok malloc2_ok malloc3_ok : bool)
    (rlu_alloc memalign : Z -> O) (uninit : (Z -> O) * (Z -> obj_merged_val_t O))
    (usec_to_tsc : Z -> Z) (lcores size staleness_usec : Z) (init_obj : O -> O)
    : option (me_obj_masters O) :=
  if negb malloc1_ok then None
  else if negb malloc2_ok then None
  else if negb malloc3_ok then None
  else
    let (reps, caches) :=
      loop_range 0 (Z.to_nat (lcores - 1)) (fun i s =>
        (<[i := init_obj (rlu_alloc i)]> s.1,
         <[i := Merged 0 (init_obj (memalign i))]> s.2)) uninit in
    Some (MeObjMasters reps caches size (usec_to_tsc staleness_usec)).

(** ** Operations *)

Section operations.
Context {T O : Type} (me_obj : NfosMeObj T O).

(** 1 after the update ([tt]), or ABORT_HANDLER. *)
Definition nfos_me_obj_update_t (thread_id : Z) (update_obj : O -> O) : M T unit :=
  lock (replicas me_obj) thread_id ;;
  modify (replicas me_obj) thread_id update_obj.

Fixpoint merge_loop (merge_obj : O -> O -> O) (n : nat) (i : Z) (obj : O) : M T O :=
  match n with
  | Datatypes.O => ret obj
  | S n' =>
      let! replica := deref (replicas me_obj) i in
      merge_loop merge_obj n' (i + 1) (merge_obj obj replica)
  end.

(** The caches are not part of the transaction: a read returns them with the
    object, and they survive an abort of the caller. *)
Definition nfos_me_obj_read_t (caches : Z -> obj_merged_val_t O) (thread_id curr_ts : Z)
    (init_obj : O -> O) (merge_obj : O -> O -> O) : M T (O * (Z -> obj_merged_val_t O)) :=
  let c := caches thread_id in
  if curr_ts - ts c >=? staleness me_obj then
    let! obj := merge_loop merge_obj (Z.to_nat (num_replicas me_obj)) 0 (init_obj (val c)) in
    ret (obj, <[thread_id := Merged curr_ts obj]> caches)
  else ret (val c, caches).

Context {P : Type} `{MvrluProfiler P}.

Definition nfos_me_obj_read_debug_t (addr : Z) (bytes : list Z)
    (caches : Z -> obj_merged_val_t O) (thread_id curr_ts : Z)
    (init_obj : O -> O) (merge_obj : O -> O -> O)
    : M ((P * ds_op_cache) * T) (O * (Z -> obj_merged_val_t O)) :=
  debug_op thread_id addr 1 0 bytes
    (nfos_me_obj_read_t caches thread_id curr_ts init_obj merge_obj).
Definition nfos_me_obj_update_debug_t (addr thread_id : Z) (update_obj : O -> O)
    : M ((P * ds_op_cache) * T) unit :=
  debug_op thread_id addr 1 1 [] (nfos_me_obj_update_t thread_id update_obj).
End operations.

Definition nfos_me_obj_allocate_debug_t {O} (malloc1_ok malloc2_ok malloc3_ok : bool)
    (rlu_alloc memalign : Z -> O) (uninit : (Z -> O) * (Z -> obj_merged_val_t O))
    (usec_to_tsc : Z -> Z) (lcores size staleness_usec : Z) (init_obj : O -> O)
    (di_map : ds_inst_map) (me_obj_out : Z) (filename : string) (lineno : Z)
    : option (me_obj_masters O) * option ds_inst_map :=
  (nfos_me_obj_allocate_t malloc1_ok malloc2_ok malloc3_ok rlu_alloc memalign uninit
     usec_to_tsc lcores size staleness_usec init_obj,
   profiler_add_ds_inst di_map me_obj_out filename lineno).

(** ** Lemmas *)

(** The merge of the first [n] replicas into [o]. *)
Definition merged_from {O} (merge_obj : O -> O -> O) (o : O) (f : Z -> O) (n : Z) : O :=
  foldl merge_obj o (f <$> seqZ 0 n).

Lemma merge_loop_reads {T O} (me : NfosMeObj T O) merge t n : forall i o,
  merge_loop me merge n i o t =
  (Some (foldl merge o (view (replicas me) t <$> seqZ i (Z.of_nat n))), t).
Proof.
  induction n as [|n IH]; intros i o; [done|].
  rewrite seqZ_cons by lia. cbn [merge_loop fmap list_fmap foldl].
  unfold bind at 1, deref at 1. rewrite IH. do 3 f_equal. f_equal. f_equal; lia.
Qed.

Lemma me_obj_read_reads {T O} (me : NfosMeObj T O) caches tid curr init merge t :
  0 <= num_replicas me ->
  nfos_me_obj_read_t me caches tid curr init merge t =
  if curr - ts (caches tid) >=? staleness me then
    let o := merged_from merge (init (val (caches tid))) (view (replicas me) t)
               (num_replicas me) in
    (Some (o, <[tid := Merged curr o]> caches), t)
  else (Some (val (caches tid), caches), t).
Proof.
  intros Hn. unfold nfos_me_obj_read_t. destruct (_ >=? _); [|done].
  unfold bind. rewrite merge_loop_reads, Z2Nat.id by done. done.
Qed.

Lemma wp_me_obj_update {T O} `{RluTxn T} (me : NfosMeObj T O) `{!RluLaws (replicas me)}
    (R : T -> T -> Prop) `{!TxnRel R, !MemRel (replicas me) R} tid upd t f ls
    (Q : unit -> T -> Prop) :
  holds (replicas me) t f ls ->
  (forall t', holds (replicas me) t' (<[tid := upd (f tid)]> f) (tid :: ls) -> Q tt t') ->
  wp R (nfos_me_obj_update_t me tid upd) t Q.
Proof. intros Hh HQ. unfold nfos_me_obj_update_t. do 3 wstep. by apply HQ. Qed.

(** ** A thread's reads over time *)

(** One thread's reads, oldest first: what it saw and when. *)
Fixpoint read_all {T O} (me : NfosMeObj T O) (tid : Z) (init : O -> O) (merge : O -> O -> O)
    (reads : list (T * Z)) (caches : Z -> obj_merged_val_t O) : Z -> obj_merged_val_t O :=
  match reads with
  | [] => caches
  | (t, now) :: l =>
      match nfos_me_obj_read_t me caches tid now init merge t with
      | (Some (_, caches'), _) => read_all me tid init merge l caches'
      | (None, _) => read_all me tid init merge l caches
      end
  end.

Lemma read_all_app {T O} (me : NfosMeObj T O) tid init merge l1 l2 : forall caches,
  read_all me tid init merge (l1 ++ l2) caches =
  read_all me tid init merge l2 (read_all me tid init merge l1 caches).
Proof.
  induction l1 as [|[t now] l1 IH]; intros caches; cbn [read_all app]; [done|].
  destruct (nfos_me_obj_read_t me caches tid now init merge t) as [[[o c]|] t']; apply IH.
Qed.

(** The cache is what one of the reads merged, at the time it carries. *)
Definition cache_origin {T O} (me : NfosMeObj T O) (o0 : O) (merge : O -> O -> O)
    (reads : list (T * Z)) (c : obj_merged_val_t O) : Prop :=
  ts c = 0 /\ val c = o0 \/
  exists t, (t, ts c) ∈ reads /\
    val c = merged_from merge o0 (view (replicas me) t) (num_replicas me).

Lemma read_all_origin {T O} (me : NfosMeObj T O) tid init merge o0 caches reads :
  0 <= num_replicas me -> (forall o, init o = o0) -> caches tid = Merged 0 o0 ->
  cache_origin me o0 merge reads (read_all me tid init merge reads caches tid).
Proof.
  intros Hn Hi Hc. induction reads as [|[t now] reads IH] using rev_ind.
  - left. simpl. by rewrite Hc.
  - rewrite read_all_app. cbn [read_all]. set (cs := read_all me tid init merge reads caches) in *.
    rewrite me_obj_read_reads by done. destruct (_ >=? _); cbv zeta iota; cbn [read_all].
    + right. exists t. rewrite fn_lookup_insert. simpl. split; [set_solver|by rewrite Hi].
    + destruct IH as [IH|(t' & Hin & IH)]; [by left|right]. exists t'. split; [set_solver|done].
Qed.

(** ** Properties *)

(** C40: reads have bounded staleness: whatever a thread has read before, the
    value a read at time [now] returns is the merge of all replicas as one of
    the thread's reads, made less than the allowed staleness ago (or this very
    one), saw them; only a thread that has never merged may, within the
    staleness of time 0, get the initial object. *)
Theorem me_obj_read_staleness {T O} (me : NfosMeObj T O) (tid : Z) (init : O -> O)
    (merge : O -> O -> O) (o0 : O) (caches : Z -> obj_merged_val_t O)
    (reads : list (T * Z)) (t : T) (now : Z)
    (Hn : 0 <= num_replicas me) (Hs : 0 < staleness me)
    (Hinit : forall o, init o = o0) (Hfresh : caches tid = Merged 0 o0) :
  exists o caches',
    nfos_me_obj_read_t me (read_all me tid init merge reads caches) tid now init merge t =
      (Some (o, caches'), t) /\
    (o = o0 /\ now < staleness me \/
     exists t' before, (t', before) ∈ reads ++ [(t, now)] /\ now - before < staleness me /\
       o = merged_from merge o0 (view (replicas me) t') (num_replicas me)).
Proof.
  pose proof (read_all_origin me tid init merge o0 caches reads Hn Hinit Hfresh) as Horig.
  rewrite me_obj_read_reads by done. set (cs := read_all me tid init merge reads caches) in *.
  destruct (Z.geb_spec (now - ts (cs tid)) (staleness me)) as [Hge|Hlt].
  - do 2 eexists. split; [reflexivity|]. right. exists t, now. split; [set_solver|].
    split; [lia|]. by rewrite Hinit.
  - do 2 eexists. split; [reflexivity|]. destruct Horig as [[E ->]|(t' & Hin & ->)].
    + left. split; [done|lia].
    + right. exists t', (ts (cs tid)). split; [set_solver|]. split; [lia|done].
Qed.

Lemma foldl_add_zsum (f : Z -> Z) l : forall o, foldl Z.add o (f <$> l) = o + zsum f l.
Proof.
  induction l as [|x l IH]; intros o; cbn [fmap list_fmap foldl zsum]; [lia|].
  rewrite IH. lia.
Qed.

(** A counter loses no update: when the replicas are merged by addition,
    an update that adds [d] to the caller's replica raises the merged value by
    [d] (no other replica changes), or aborts because of another thread. *)
Theorem me_obj_counter {T} `{RluTxn T} (me : NfosMeObj T Z) `{!RluLaws (replicas me)}
    (tid d : Z) (t : T) (Htid : 0 <= tid < num_replicas me) :
  match nfos_me_obj_update_t me tid (Z.add d) t with
  | (Some _, t') =>
      merged_from Z.add 0 (view (replicas me) t') (num_replicas me) =
      merged_from Z.add 0 (view (replicas me) t) (num_replicas me) + d
  | (None, _) => ~ no_conflict t
  end.
Proof.
  pose (Q := fun (_ : unit) t' =>
    merged_from Z.add 0 (view (replicas me) t') (num_replicas me) =
    merged_from Z.add 0 (view (replicas me) t) (num_replicas me) + d).
  assert (wp (mem_steps (replicas me)) (nfos_me_obj_update_t me tid (Z.add d)) t Q) as Hwp.
  { eapply wp_me_obj_update; wp_tc; [by apply holds_view|]. intros t' [Hv _]. unfold Q, merged_from.
    rewrite !foldl_add_zsum. rewrite (zsum_change (view (replicas me) t) (view (replicas me) t')
      (seqZ 0 (num_replicas me)) tid).
    - rewrite !Hv, fn_lookup_insert. lia.
    - apply NoDup_seqZ.
    - apply elem_of_seqZ. lia.
    - intros y _ Hy. rewrite Hv. by rewrite fn_lookup_insert_ne by done. }
  apply wp_run in Hwp. by destruct (nfos_me_obj_update_t me tid (Z.add d) t) as [[[]|] t'].
Qed.

(** Nfos_me_obj_allocate initialises one replica and one cache per worker
    core, with cache time 0, or fails because an allocation did. *)
Theorem me_obj_allocate_spec {O} (ok1 ok2 ok3 : bool) (rlu_alloc memalign : Z -> O)
    (uninit : (Z -> O) * (Z -> obj_merged_val_t O)) (usec_to_tsc : Z -> Z)
    (lcores size staleness_usec : Z) (init : O -> O) :
  match nfos_me_obj_allocate_t ok1 ok2 ok3 rlu_alloc memalign uninit usec_to_tsc lcores
          size staleness_usec init with
  | Some m => ok1 && ok2 && ok3 = true /\ mo_staleness m = usec_to_tsc staleness_usec /\
      mo_obj_size m = size /\
      forall i, 0 <= i < lcores - 1 -> mo_replicas m i = init (rlu_alloc i) /\
        mo_caches m i = Merged 0 (init (memalign i))
  | None => ok1 && ok2 && ok3 = false
  end.
Proof.
  unfold nfos_me_obj_allocate_t. destruct ok1, ok2, ok3; cbn [negb andb]; try done.
  destruct (decide (0 <= lcores - 1)) as [Hl|Hl].
  2: { destruct (loop_range _ _ _ _). repeat split; simpl; lia. }
  pose proof (loop_range_spec (fun n (s : (Z -> O) * (Z -> obj_merged_val_t O)) =>
    forall i, 0 <= i < n -> s.1 i = init (rlu_alloc i) /\ s.2 i = Merged 0 (init (memalign i)))
    (fun i s => (<[i := init (rlu_alloc i)]> s.1, <[i := Merged 0 (init (memalign i))]> s.2))
    (lcores - 1) uninit Hl ltac:(intros i Hi; exfalso; lia)) as Hloop.
  destruct (loop_range _ _ _ _) as [reps caches]. do 3 (split; [done|]). apply Hloop.
  intros k s Hk IH i Hi. simpl. rewrite !fn_insert_dec. case_decide; [by subst|]. apply IH. lia.
Qed.

(** ** Witnesses *)

Definition ex_me_obj : NfosMeObj (snap_txn Z) Z :=
  {| replicas := snap_mem; obj_size := 8; staleness := 100; num_replicas := 3 |}.
Definition ex_me_txn : snap_txn Z := SnapTxn (fun i => i + 1) ∅ (fun _ => false).

Lemma me_obj_read_staleness_witness :
  fst (nfos_me_obj_read_t ex_me_obj (fun _ => Merged 0 0) 1 150 (fun _ => 0) Z.add ex_me_txn)
    ≫= (fun r => Some (fst r)) = Some 6 /\
  exists o caches',
    nfos_me_obj_read_t ex_me_obj
      (read_all ex_me_obj 1 (fun _ => 0) Z.add [(ex_me_txn, 120)] (fun _ => Merged 0 0))
      1 150 (fun _ => 0) Z.add ex_me_txn = (Some (o, caches'), ex_me_txn) /\
    (o = 0 /\ 150 < 100 \/
     exists t' before, (t', before) ∈ [(ex_me_txn, 120)] ++ [(ex_me_txn, 150)] /\
       150 - before < 100 /\ o = merged_from Z.add 0 (view (replicas ex_me_obj) t') 3).
Proof.
  split; [vm_compute; reflexivity|].
  apply (me_obj_read_staleness ex_me_obj 1 (fun _ => 0) Z.add 0 (fun _ => Merged 0 0)
    [(ex_me_txn, 120)] ex_me_txn 150); simpl; (lia || done).
Defined.

Lemma me_obj_counter_witness :
  match nfos_me_obj_update_t ex_me_obj 2 (Z.add 5) ex_me_txn with
  | (Some _, t') =>
      merged_from Z.add 0 (view (replicas ex_me_obj) t') 3 =
      merged_from Z.add 0 (view (replicas ex_me_obj) ex_me_txn) 3 + 5
  | (None, _) => ~ no_conflict ex_me_txn
  end.
Proof. apply (me_obj_counter ex_me_obj 2 5 ex_me_txn). simpl. lia. Defined.
