(* ===== verification/ConcDchain.v ===== *)
(** * The packet sets' index allocator

    src/src/concurrent-double-chain-impl.c and concurrent-double-chain.c.  The
    allocator has the same lists as the one of Links.v, but its cells are
    shared memory protected by one lock per local free list and one for the
    global free list; a ring of allocated indexes belongs to its core.  The
    code is split at its lock and unlock calls into atomic sections
    ([take_local], [take_global], [unlink_free], ...), of which the
    operations are composed and which a schedule interleaves ([sched_step]). *)

From S2P Require Import Prelude Links.
Open Scope Z_scope.

(** ** Cells *)

(** [K]: pkt_set_id_t, which the NF declares. *)
Record concurrent_dchain_cell (K : Type) := ConcCell {
  cc_prev : Z;
  cc_next : Z;
  cc_list_ind : Z;
  time : Z;
  id : K;
  map_chain_next : Z
}.
Arguments ConcCell {K} _ _ _ _ _ _.
Arguments cc_prev {K} _.
Arguments cc_next {K} _.
Arguments cc_list_ind {K} _.
Arguments time {K} _.
Arguments id {K} _.
Arguments map_chain_next {K} _.

#[export] Instance conc_cell K : ChainCell (concurrent_dchain_cell K) := {|
  prev := cc_prev; next := cc_next; list_ind := cc_list_ind;
  set_prev v c := ConcCell v (cc_next c) (cc_list_ind c) (time c) (id c) (map_chain_next c);
  set_next v c := ConcCell (cc_prev c) v (cc_list_ind c) (time c) (id c) (map_chain_next c);
  set_list_ind v c := ConcCell (cc_prev c) (cc_next c) v (time c) (id c) (map_chain_next c)
|}.
#[export] Instance conc_cell_laws K : ChainCellLaws (concurrent_dchain_cell K).
Proof. by split. Qed.
#[export] Instance payload_time K : Payload (@time K).
Proof. by split. Qed.
#[export] Instance payload_id K : Payload (@id K).
Proof. by split. Qed.
#[export] Instance payload_chain K : Payload (@map_chain_next K).
Proof. by split. Qed.

Definition set_time {K} (v : Z) (c : concurrent_dchain_cell K) : concurrent_dchain_cell K :=
  ConcCell (cc_prev c) (cc_next c) (cc_list_ind c) v (id c) (map_chain_next c).
Definition set_map_chain_next {K} (v : Z) (c : concurrent_dchain_cell K)
    : concurrent_dchain_cell K :=
  ConcCell (cc_prev c) (cc_next c) (cc_list_ind c) (time c) (id c) v.
Definition set_id {K} (v : K) (c : concurrent_dchain_cell K) : concurrent_dchain_cell K :=
  ConcCell (cc_prev c) (cc_next c) (cc_list_ind c) (time c) v (map_chain_next c).

Definition INT64_MAX : Z := 2 ^ 63 - 1.

(** ** Operations *)

Section operations.
Context {K : Type} (NUM_FREE_LISTS : Z).
Implicit Types cells : Z -> concurrent_dchain_cell K.

Definition ALLOC_LIST_HEAD : Z := 0.
Let FL : Z := FREE_LIST_HEAD NUM_FREE_LISTS.
Let GL : Z := GLOBAL_FREE_LIST_HEAD NUM_FREE_LISTS.
Let SHIFT : Z := INDEX_SHIFT NUM_FREE_LISTS.

(** "temp hack to support related packet sets": the cell [size] further. *)
Definition init_related (size i : Z) cells : Z -> concurrent_dchain_cell K :=
  <[i + size := set_map_chain_next (-1) (cells (i + size))]> cells.

Definition concurrent_dchain_impl_init (fuel : nat) cells (size num_cores : Z)
    : option (Z -> concurrent_dchain_cell K) :=
  chain_init (fun c => c) (fun c => set_map_chain_next (-1) (set_time INT64_MAX c))
    (init_related size) fuel size num_cores cells.

Definition concurrent_dchain_impl_has_free_indexes cells (core_id : Z) : bool :=
  let al_head_ind := Z.shiftl core_id LIST_HEAD_PADDING in
  let allocated := next (cells (FL + al_head_ind)) in
  negb (allocated =? FL + al_head_ind).

(** What allocation does under the core's lock. *)
Definition take_local cells (core_id : Z) : option (Z * (Z -> concurrent_dchain_cell K)) :=
  let al_head_ind := Z.shiftl core_id LIST_HEAD_PADDING in
  let allocated := next (cells (FL + al_head_ind)) in
  if allocated =? FL + al_head_ind then None
  else Some (allocated, pop cells (FL + al_head_ind)).

(** "Add the link to the new-end alloc chain", after the unlock. *)
Definition add_link cells (core_id allocated time : Z) : Z -> concurrent_dchain_cell K :=
  let al_head_ind := Z.shiftl core_id LIST_HEAD_PADDING in
  append (set_time time) cells (ALLOC_LIST_HEAD + al_head_ind) al_head_ind allocated.

(** [Some i]: return 1 with *index = i; [None]: return 0. *)
Definition concurrent_dchain_impl_allocate_new_index cells (core_id time : Z)
    : option Z * (Z -> concurrent_dchain_cell K) :=
  match take_local cells core_id with
  | None => (None, cells)
  | Some (allocated, cells) =>
      (Some (allocated - SHIFT), add_link cells core_id allocated time)
  end.

Definition concurrent_dchain_impl_fill_global_free_list cells (core_id : Z)
    : bool * (Z -> concurrent_dchain_cell K) :=
  let fl_head_ind := Z.shiftl core_id LIST_HEAD_PADDING in
  let allocated := next (cells (FL + fl_head_ind)) in
  if allocated =? FL + fl_head_ind then (false, cells)
  else
    let cells := pop cells (FL + fl_head_ind) in
    (true, push (set_time INT64_MAX) cells GL allocated).

Definition fill_all cells : Z -> concurrent_dchain_cell K :=
  loop_range 0 (Z.to_nat NUM_FREE_LISTS) (fun i cells =>
    (concurrent_dchain_impl_fill_global_free_list cells i).2) cells.

(** What global allocation does under the global lock; the refill holds all
    the cores' locks too. *)
Definition take_global cells : option Z * (Z -> concurrent_dchain_cell K) :=
  let allocated := next (cells GL) in
  if allocated =? GL then
    let cells := fill_all cells in
    let allocated := next (cells GL) in
    if negb (allocated =? GL) then (Some allocated, pop cells GL) else (None, cells)
  else (Some allocated, pop cells GL).

Definition concurrent_dchain_impl_allocate_new_index_global cells (core_id time : Z)
    : option Z * (Z -> concurrent_dchain_cell K) :=
  match take_global cells with
  | (None, cells) => (None, cells)
  | (Some allocated, cells) =>
      (Some (allocated - SHIFT), add_link cells core_id allocated time)
  end.

(** Freeing up to its lock; [None]: return 0. *)
Definition unlink_free cells (index core_id : Z) : option (Z -> concurrent_dchain_cell K) :=
  let al_head_ind := Z.shiftl core_id LIST_HEAD_PADDING in
  let freed := index + SHIFT in
  if negb (list_ind (cells freed) =? al_head_ind) then None
  else
    let freed_prev := prev (cells freed) in
    let freed_next := next (cells freed) in
    if (freed_next =? freed_prev) && negb (freed_prev =? ALLOC_LIST_HEAD + al_head_ind)
    then None
    else Some (remove cells freed).

(** "Add the link to the free chain". *)
Definition put_free cells (core_id freed : Z) : Z -> concurrent_dchain_cell K :=
  let al_head_ind := Z.shiftl core_id LIST_HEAD_PADDING in
  push (fun c => c) cells (FL + al_head_ind) freed.

Definition concurrent_dchain_impl_free_index cells (index core_id : Z)
    : bool * (Z -> concurrent_dchain_cell K) :=
  match unlink_free cells index core_id with
  | None => (false, cells)
  | Some cells => (true, put_free cells core_id (index + SHIFT))
  end.

Definition concurrent_dchain_impl_get_oldest_index cells (core_id : Z) : option Z :=
  let al_head_ind := Z.shiftl core_id LIST_HEAD_PADDING in
  let al_head := cells (ALLOC_LIST_HEAD + al_head_ind) in
  if (next al_head =? prev al_head) && (next al_head =? ALLOC_LIST_HEAD + al_head_ind)
  then None else Some (next al_head - SHIFT).

Definition concurrent_dchain_impl_rejuvenate_index cells (index core_id time : Z)
    : bool * (Z -> concurrent_dchain_cell K) :=
  let al_head_ind := Z.shiftl core_id LIST_HEAD_PADDING in
  let lifted := index + SHIFT in
  let lifted_next := next (cells lifted) in
  let lifted_prev := prev (cells lifted) in
  if negb (list_ind (cells lifted) =? al_head_ind) then (false, cells)
  else if lifted_next =? lifted_prev then
    (lifted_next =? ALLOC_LIST_HEAD + al_head_ind, cells)
  else
    let cells := <[lifted_prev := set_next lifted_next (cells lifted_prev)]> cells in
    let cells := <[lifted_next := set_prev lifted_prev (cells lifted_next)]> cells in
    let al_head_prev := prev (cells (ALLOC_LIST_HEAD + al_head_ind)) in
    let cells := <[lifted := set_time time (set_prev al_head_prev
                     (set_next (ALLOC_LIST_HEAD + al_head_ind) (cells lifted)))]> cells in
    let cells := <[al_head_prev := set_next lifted (cells al_head_prev)]> cells in
    (true, <[ALLOC_LIST_HEAD + al_head_ind :=
               set_prev lifted (cells (ALLOC_LIST_HEAD + al_head_ind))]> cells).

Definition concurrent_dchain_impl_is_index_allocated cells (index core_id : Z) : bool :=
  let al_head_ind := Z.shiftl core_id LIST_HEAD_PADDING in
  let lifted := index + SHIFT in
  let lifted_next := next (cells lifted) in
  let lifted_prev := prev (cells lifted) in
  if negb (list_ind (cells lifted) =? al_head_ind) then false
  else if lifted_next =? lifted_prev then lifted_next =? ALLOC_LIST_HEAD + al_head_ind
  else true.

(** The position of the cell in the array. *)
Definition concurrent_dchain_impl_cell_out (index : Z) : Z := index + SHIFT.

(** *** concurrent-double-chain.c *)

(** The outer option is fuel, the inner one the failure of an allocation. *)
Definition concurrent_dchain_allocate (malloc_ok rte_malloc_ok : bool) (fuel : nat)
    (rte_memory : Z -> concurrent_dchain_cell K) (lcores index_range : Z)
    : option (option (Z -> concurrent_dchain_cell K)) :=
  let num_cores := lcores - 1 in
  if negb malloc_ok then Some None
  else if negb rte_malloc_ok then Some None
  else match concurrent_dchain_impl_init fuel rte_memory index_range num_cores with
       | Some cells => Some (Some cells)
       | None => None
       end.

Definition concurrent_dchain_has_free_indexes cells (partition : Z) : bool :=
  concurrent_dchain_impl_has_free_indexes cells partition.

Definition concurrent_dchain_allocate_new_index cells (time partition : Z)
    : option Z * (Z -> concurrent_dchain_cell K) :=
  match concurrent_dchain_impl_allocate_new_index cells partition time with
  | (None, cells) => concurrent_dchain_impl_allocate_new_index_global cells partition time
  | r => r
  end.

Definition concurrent_dchain_rejuvenate_index cells (index time partition : Z)
    : bool * (Z -> concurrent_dchain_cell K) :=
  concurrent_dchain_impl_rejuvenate_index cells index partition time.

(** The index written to *index_out is returned even when the result is 0. *)
Definition concurrent_dchain_has_expired_index cells (t partition : Z) : option Z * bool :=
  match concurrent_dchain_impl_get_oldest_index cells partition with
  | Some index => (Some index, time (cells (concurrent_dchain_impl_cell_out index)) <? t)
  | None => (None, false)
  end.

Definition concurrent_dchain_expire_one_index cells (t partition : Z)
    : (option Z * bool) * (Z -> concurrent_dchain_cell K) :=
  match concurrent_dchain_impl_get_oldest_index cells partition with
  | Some index =>
      if time (cells (concurrent_dchain_impl_cell_out index)) <? t then
        let (rez, cells) := concurrent_dchain_impl_free_index cells index partition in
        ((Some index, rez), cells)
      else ((Some index, false), cells)
  | None => ((None, false), cells)
  end.

Definition concurrent_dchain_is_index_allocated cells (index partition : Z) : bool :=
  concurrent_dchain_impl_is_index_allocated cells index partition.

Definition concurrent_dchain_free_index cells (index partition : Z)
    : bool * (Z -> concurrent_dchain_cell K) :=
  concurrent_dchain_impl_free_index cells index partition.

Definition concurrent_dchain_cell_out (index : Z) : Z := concurrent_dchain_impl_cell_out index.
End operations.

(** ** Interleaved calls *)

Inductive call :=
| CAllocate (time : Z)
| CFree (index : Z)
| CRejuvenate (index time : Z).

Inductive result :=
| RAllocated (index : Z)
| RNoSpace
| RFreed (index : Z) (ok : bool)
| RRejuvenated (index : Z) (ok : bool).

(** Where a core is in its current call. *)
Inductive pc :=
| Idle
| Taken (cell time : Z)      (* a cell is off the free list, not on the ring *)
| TryGlobal (time : Z)       (* the local list was empty *)
| Unlinked (cell : Z).       (* a cell is off the ring, not on the free list *)

Record conc (K : Type) := Conc { cells : Z -> concurrent_dchain_cell K; pcs : Z -> pc }.
Arguments Conc {K} _ _.
Arguments cells {K} _.
Arguments pcs {K} _.

Section interleaving.
Context {K : Type} (N : Z).
Let SHIFT : Z := INDEX_SHIFT N.

(** Core [c] executes its next atomic section; [op] is the call it makes if
    it is not in one. *)
Definition sched_step (s : conc K) (c : Z) (op : call) : conc K * option result :=
  let f := cells s in
  match pcs s c with
  | Idle =>
      match op with
      | CAllocate time =>
          match take_local N f c with
          | Some (x, f) => (Conc f (<[c := Taken x time]> (pcs s)), None)
          | None => (Conc f (<[c := TryGlobal time]> (pcs s)), None)
          end
      | CFree index =>
          match unlink_free N f index c with
          | Some f => (Conc f (<[c := Unlinked (index + SHIFT)]> (pcs s)), None)
          | None => (s, Some (RFreed index false))
          end
      | CRejuvenate index time =>
          let (ok, f) := concurrent_dchain_rejuvenate_index N f index time c in
          (Conc f (pcs s), Some (RRejuvenated index ok))
      end
  | TryGlobal time =>
      match take_global N f with
      | (Some x, f) => (Conc f (<[c := Taken x time]> (pcs s)), None)
      | (None, f) => (Conc f (<[c := Idle]> (pcs s)), Some RNoSpace)
      end
  | Taken x time =>
      (Conc (add_link f c x time) (<[c := Idle]> (pcs s)), Some (RAllocated (x - SHIFT)))
  | Unlinked x =>
      (Conc (put_free N f c x) (<[c := Idle]> (pcs s)), Some (RFreed (x - SHIFT) true))
  end.

(** A schedule and the results it produces, with the core they are for. *)
Fixpoint sched_run (s : conc K) (sched : list (Z * call)) : conc K * list (Z * result) :=
  match sched with
  | [] => (s, [])
  | (c, op) :: sched =>
      let (s, r) := sched_step s c op in
      let (s, rs) := sched_run s sched in
      (s, match r with Some r => (c, r) :: rs | None => rs end)
  end.
End interleaving.

(** ** The atomic sections move one cell *)

Lemma id_set_time {K} t (c : concurrent_dchain_cell K) : id (set_time t c) = id c.
Proof. done. Qed.
Lemma chain_set_time {K} t (c : concurrent_dchain_cell K) :
  map_chain_next (set_time t c) = map_chain_next c.
Proof. done. Qed.
Lemma time_set_time {K} t (c : concurrent_dchain_cell K) : time (set_time t c) = t.
Proof. done. Qed.

(** A field that the stamping of the time does not change either. *)
Ltac paysolve := unfold set_both;
  rewrite ?id_set_time, ?chain_set_time, ?time_set_time; autorewrite with links.

Section lemmas.
Context {K : Type} (N usable : Z).
Hypothesis (HN : 0 < N).
Implicit Types f : Z -> concurrent_dchain_cell K.
Let SHIFT : Z := INDEX_SHIFT N.

#[export] Instance keeps_time t : KeepsLinks (set_time (K := K) t).
Proof. by split. Qed.

Lemma ind_pop f h y : list_ind (pop f h y) = list_ind (f y).
Proof. unfold pop, set_both. fcases; by autorewrite with links. Qed.

(** A cell in the hands of a core is marked as free or as the core's own. *)
Definition hands_ok f (L : place -> list Z) : Prop :=
  forall d x, x ∈ L (PH d) ->
  list_ind (f x) = -1 \/ list_ind (f x) = Z.shiftl d LIST_HEAD_PADDING.

Record conc_linked f (L : place -> list Z) : Prop := {
  cl_linked : linked N usable f L;
  cl_hands : hands_ok f L
}.

Lemma take_local_spec f L c :
  conc_linked f L -> 0 <= c < N -> L (PH c) = [] ->
  match take_local N f c with
  | Some (x, f') => exists l, L (PF c) = x :: l /\ f' = pop f (head N (PF c)) /\
      conc_linked f' (move (PF c) (PH c) l [x] L)
  | None => L (PF c) = []
  end.
Proof.
  intros [HL Hh] Hc Hp. unfold take_local. cbv zeta.
  change (FREE_LIST_HEAD N + Z.shiftl c LIST_HEAD_PADDING) with (head N (PF c)).
  rewrite (free_head N usable f L (PF c)) by done. destruct (L (PF c)) as [|x l] eqn:E.
  { by rewrite Z.eqb_refl. }
  assert (x ∈ L (PF c)) as Hx by (rewrite E; left).
  pose proof (cell_not_head N usable HN f L (PF c) (PF c) x HL Hx Hc) as Hne.
  rewrite (proj2 (Z.eqb_neq _ _)) by congruence. exists l. split; [done|]. split; [done|].
  split; [rewrite <- Hp; by apply linked_pop|].
  intros d y. unfold move. rewrite !fn_insert_dec, ind_pop.
  case_decide as Ed; [|case_decide; [done|apply Hh]]. simplify_eq.
  intros ->%list_elem_of_singleton. left. by apply (linked_ok _ _ _ _ HL (PF d) Hc).
Qed.

(** One refill step hands over the front of core [i]'s free list. *)
Lemma fill_spec f L i c :
  conc_linked f L -> 0 <= i < N -> 0 <= c < N -> L (PH c) = [] ->
  let f' := (concurrent_dchain_impl_fill_global_free_list N f i).2 in
  L (PF i) = [] /\ f' = f \/
  exists x l, L (PF i) = x :: l /\
    f' = push (set_time INT64_MAX) (pop f (head N (PF i))) (head N PG) x /\
    conc_linked f' (move (PF i) PG l (x :: L PG) L).
Proof.
  intros [HL Hh] Hi Hc Hp. unfold concurrent_dchain_impl_fill_global_free_list. cbv zeta.
  change (FREE_LIST_HEAD N + Z.shiftl i LIST_HEAD_PADDING) with (head N (PF i)).
  rewrite (free_head N usable f L (PF i)) by done. destruct (L (PF i)) as [|x l] eqn:E.
  { rewrite Z.eqb_refl. by left. }
  right. assert (x ∈ L (PF i)) as Hx by (rewrite E; left).
  pose proof (cell_not_head N usable HN f L (PF i) (PF i) x HL Hx Hi) as Hne.
  pose proof (cell_not_head N usable HN f L (PF i) PG x HL Hx I) as Hg.
  rewrite (proj2 (Z.eqb_neq _ _)) by congruence. exists x, l. do 2 (split; [done|]).
  cbn [snd]. pose proof (linked_pop N usable HN f L (PF i) c x l HL Hi I Hc E) as HL1.
  pose proof (linked_push N usable HN (set_time INT64_MAX) _ _ PG c x [] HL1 I I Hc) as HL2.
  unfold move in HL2 at 1. rewrite fn_lookup_insert, Hp in HL2. specialize (HL2 eq_refl).
  split.
  - eapply (linked_ext N usable HN); [done| |exact HL2]. intros p. unfold move. rewrite !fn_insert_dec.
    repeat (case_decide; simplify_eq); congruence.
  - intros d y Hy. rewrite ind_push by done. unfold move in Hy. rewrite !fn_insert_dec in Hy.
    rewrite !decide_False in Hy by done. case_decide; [by left|]. rewrite ind_pop. by apply Hh.
Qed.

(** What a move between free lists keeps. *)
Record same_owned f f' (L L' : place -> list Z) : Prop := {
  so_al d : L' (PA d) = L (PA d);
  so_hand d : L' (PH d) = L (PH d);
  so_id y : id (f' y) = id (f y);
  so_chain y : map_chain_next (f' y) = map_chain_next (f y);
  so_time y d : y ∈ L (PA d) -> time (f' y) = time (f y)
}.

Lemma same_owned_refl f L : same_owned f f L L.
Proof. by split. Qed.

Lemma same_owned_trans f1 f2 f3 L1 L2 L3 :
  same_owned f1 f2 L1 L2 -> same_owned f2 f3 L2 L3 -> same_owned f1 f3 L1 L3.
Proof.
  intros [A1 H1 I1 C1 T1] [A2 H2 I2 C2 T2]. split; intros.
  - by rewrite A2.
  - by rewrite H2.
  - by rewrite I2.
  - by rewrite C2.
  - rewrite (T2 y d); [by apply (T1 y d)|by rewrite A1].
Qed.

Lemma fill_owned f L i x l :
  linked N usable f L -> 0 <= i < N -> L (PF i) = x :: l ->
  same_owned f (push (set_time INT64_MAX) (pop f (head N (PF i))) (head N PG) x) L
    (move (PF i) PG l (x :: L PG) L).
Proof.
  intros HL Hi E. assert (x ∈ L (PF i)) as Hx by (rewrite E; left).
  pose proof (cell_not_head N usable HN f L (PF i) PG x HL Hx I) as Hg.
  split; intros; unfold move; rewrite ?fn_insert_dec; try done.
  - destruct (decide (x = y)) as [<-|].
    + rewrite (pay_push_at id) by done. paysolve. by apply (pay_pop id).
    + rewrite (pay_push id) by done. by apply (pay_pop id).
  - destruct (decide (x = y)) as [<-|].
    + rewrite (pay_push_at map_chain_next) by done. paysolve. by apply (pay_pop map_chain_next).
    + rewrite (pay_push map_chain_next) by done. by apply (pay_pop map_chain_next).
  - rewrite (pay_push time), (pay_pop time); [done|].
    intros ->. pose proof (part_disj _ _ _ (linked_part _ _ _ _ HL) _ _ _ Hx H). done.
Qed.

Lemma fill_all_spec f L c :
  conc_linked f L -> 0 <= c < N -> L (PH c) = [] -> L PG = [] ->
  exists L', conc_linked (fill_all N f) L' /\ same_owned f (fill_all N f) L L' /\
    (L' PG = [] -> fill_all N f = f /\ forall d, 0 <= d < N -> L (PF d) = []).
Proof.
  intros HL Hc Hp HG. unfold fill_all.
  pose (Inv := fun (i : Z) f1 => exists L1, conc_linked f1 L1 /\ same_owned f f1 L L1 /\
    (L1 PG = [] -> f1 = f /\ L1 = L /\ forall d, 0 <= d < i -> L (PF d) = [])).
  assert (Inv N (loop_range 0 (Z.to_nat N) (fun i f1 =>
    (concurrent_dchain_impl_fill_global_free_list N f1 i).2) f)) as (L1 & H1 & H2 & H3).
  2: { exists L1. split; [done|]. split; [done|]. intros E. by destruct (H3 E) as (-> & _ & ?). }
  apply loop_range_spec; [lia| |].
  - exists L. split; [done|]. split; [apply same_owned_refl|]. intros _. do 2 (split; [done|]). lia.
  - intros i f1 Hi (L1 & H1 & H2 & H3).
    assert (L1 (PH c) = []) as Hp1 by (by rewrite (so_hand _ _ _ _ H2)).
    destruct (fill_spec f1 L1 i c H1 ltac:(lia) Hc Hp1) as [[E ->]|(x & l & E & Ef & H4)].
    + exists L1. do 2 (split; [done|]). intros EG. destruct (H3 EG) as (-> & -> & Hd).
      do 2 (split; [done|]). intros d Hd'. destruct (decide (d = i)) as [->|]; [done|apply Hd; lia].
    + rewrite Ef in *. eexists. split; [exact H4|]. split.
      * eapply same_owned_trans; [exact H2|]. apply fill_owned; [apply H1|lia|done].
      * unfold move. rewrite fn_lookup_insert. done.
Qed.

(** A cell comes off the global free list, or every free list is empty. *)
Lemma take_global_spec f L c :
  conc_linked f L -> 0 <= c < N -> L (PH c) = [] ->
  match take_global N f with
  | (Some x, f') => exists f1 L1 l, conc_linked f1 L1 /\ same_owned f f1 L L1 /\
      L1 PG = x :: l /\ f' = pop f1 (head N PG) /\ conc_linked f' (move PG (PH c) l [x] L1)
  | (None, f') => f' = f /\ forall p, free_place p -> L p = []
  end.
Proof.
  intros HL Hc Hp. unfold take_global. cbv zeta.
  change (GLOBAL_FREE_LIST_HEAD N) with (head N PG).
  assert (forall f1 L1 x l, conc_linked f1 L1 -> same_owned f f1 L L1 -> L1 PG = x :: l ->
    exists f2 L2 l', conc_linked f2 L2 /\ same_owned f f2 L L2 /\
      L2 PG = x :: l' /\ pop f1 (head N PG) = pop f2 (head N PG) /\
      conc_linked (pop f1 (head N PG)) (move PG (PH c) l' [x] L2)) as Htake.
  { intros f1 L1 x l H1 H2 E. exists f1, L1, l. do 4 (split; [done|]). destruct H1 as [H1 H1h].
    assert (L1 (PH c) = []) as Hp1 by (by rewrite (so_hand _ _ _ _ H2)).
    split; [rewrite <- Hp1; by apply linked_pop|].
    intros d y. unfold move. rewrite !fn_insert_dec, ind_pop.
    case_decide as Ed; [|case_decide; [done|apply H1h]]. simplify_eq.
    intros ->%list_elem_of_singleton. left. apply (linked_ok _ _ _ _ H1 PG I).
    rewrite E. left. }
  assert (forall f1 L1, conc_linked f1 L1 -> next (f1 (head N PG)) =
    match L1 PG with [] => head N PG | x :: _ => x end) as Hhd.
  { intros f1 L1 [H1 _]. by apply (free_head N usable f1 L1 PG). }
  assert (forall f1 L1 x l, conc_linked f1 L1 -> L1 PG = x :: l ->
    (x =? head N PG) = false) as Hx.
  { intros f1 L1 x l [H1 _] E. apply Z.eqb_neq, not_eq_sym.
    apply (cell_not_head N usable HN f1 L1 PG PG); [done|rewrite E; left|done]. }
  rewrite (Hhd f L HL). destruct (L PG) as [|x l] eqn:E.
  - rewrite Z.eqb_refl. destruct (fill_all_spec f L c HL Hc Hp E) as (L1 & H1 & H2 & H3).
    rewrite (Hhd _ _ H1). destruct (L1 PG) as [|x l] eqn:E1.
    + rewrite Z.eqb_refl. cbn [negb]. destruct (H3 eq_refl) as [Ef Hd]. split; [done|].
      intros [d|d| |d] Hfp; try done. destruct (decide (0 <= d < N)); [auto|].
      by apply (part_valid N usable L (linked_part _ _ _ _ (cl_linked _ _ HL)) (PF d)).
    + rewrite (Hx _ _ _ _ H1 E1). cbn [negb]. by apply (Htake _ L1 x l).
  - rewrite (Hx _ _ _ _ HL E). apply (Htake _ L x l); [done|apply same_owned_refl|done].
Qed.

Lemma add_link_spec f L c x now :
  conc_linked f L -> 0 <= c < N -> L (PH c) = [x] ->
  conc_linked (add_link f c x now) (move (PH c) (PA c) [] (L (PA c) ++ [x]) L).
Proof.
  intros [HL Hh] Hc E. unfold add_link. cbv zeta. unfold ALLOC_LIST_HEAD. rewrite Z.add_0_l.
  change (Z.shiftl c LIST_HEAD_PADDING) with (head N (PA c)) at 1.
  pose proof (in_flight N usable HN f L c x [] (PA c) HL E Hc ltac:(done)) as [Hx Hne].
  assert (prev (f (head N (PA c))) <> x) as Hl.
  { rewrite (ring_last N f c (L (PA c))) by apply (linked_ok _ _ _ _ HL (PA c) Hc).
    pose proof (lastof_in (head N (PA c)) (L (PA c))) as [->|Hi]%elem_of_cons; [done|].
    intros Ex. by rewrite Ex in Hi. }
  split; [by apply linked_append|].
  intros d y. unfold move. rewrite !fn_insert_dec. rewrite ind_append by done.
  case_decide; [done|]. case_decide; [by intros ?%not_elem_of_nil|]. intros Hy.
  rewrite decide_False; [by apply Hh|]. intros ->. simplify_eq.
  assert (y ∈ L (PH c)) as Hyc by (rewrite E; left).
  pose proof (part_disj _ _ _ (linked_part _ _ _ _ HL) _ _ _ Hy Hyc). congruence.
Qed.

(** *** Rings *)

Lemma lastof_head (h : Z) l : h ∉ l -> lastof h l = h -> l = [].
Proof.
  unfold lastof. destruct (last l) as [y|] eqn:E; cbn.
  - intros Hh ->. by apply last_Some_elem_of in E.
  - by apply last_None in E.
Qed.

(** The neighbours of a cell of a ring: they are the same cell exactly when
    the ring has no other cell, and then it is the head. *)
Lemma ring_around f L c l1 x l2 :
  linked N usable f L -> 0 <= c < N -> L (PA c) = l1 ++ x :: l2 ->
  let h := Z.shiftl c LIST_HEAD_PADDING in
  h <> x /\ prev (f x) <> x /\ next (f x) <> x /\
  (next (f x) = prev (f x) <-> l1 = [] /\ l2 = []) /\
  (l1 = [] -> prev (f x) = h) /\
  prev (remove f x h) = lastof h (l1 ++ l2) /\ lastof h (l1 ++ l2) <> x.
Proof.
  intros HL Hc E h. pose proof (cells_nodup N usable HN L (PA c) (linked_part _ _ _ _ HL) Hc) as Hnd.
  rewrite E in Hnd. change (head N (PA c)) with h in Hnd.
  pose proof (linked_ok _ _ _ _ HL (PA c) Hc) as Hok. rewrite E in Hok.
  destruct (ring_remove N HN f c l1 x l2 Hnd Hok) as (Hrm & Ep & En).
  apply (ring_last N) in Hrm. change (head N (PA c)) with h in *.
  pose proof (lastof_in h l1) as Hl1. pose proof (lastof_in h (reverse l2)) as Hl2.
  pose proof (lastof_in h (l1 ++ l2)) as Hl. setoid_rewrite elem_of_cons in Hl2.
  setoid_rewrite elem_of_reverse in Hl2.
  apply NoDup_cons in Hnd as [Hh Hnd].
  rewrite elem_of_app, elem_of_cons in Hh. apply NoDup_app in Hnd as (Hn1 & Hdisj & Hn2).
  apply NoDup_cons in Hn2 as [Hx2 Hn2].
  assert (x ∉ l1) as Hx1 by (intros Hx; by apply (Hdisj x Hx); left).
  split; [naive_solver|]. rewrite Ep, En. split.
  { intros Ex. rewrite Ex in Hl1. apply elem_of_cons in Hl1. naive_solver. }
  split; [intros Ex; rewrite Ex in Hl2; naive_solver|]. split.
  { split; [|by intros [-> ->]]. intros Eq. apply elem_of_cons in Hl1.
    assert (lastof h l1 = h) as E1.
    { destruct Hl1 as [|Hl1]; [done|]. rewrite Eq in Hl2. destruct Hl2 as [|Hl2]; [done|].
      exfalso. apply (Hdisj _ Hl1). by right. }
    split; [apply (lastof_head h); naive_solver|]. rewrite E1 in Eq.
    apply (lastof_head h) in Eq; [|rewrite elem_of_reverse; naive_solver].
    by rewrite <- (reverse_involutive l2), Eq. }
  split; [by intros ->|]. split; [done|].
  intros Ex. rewrite Ex in Hl. apply elem_of_cons in Hl. rewrite elem_of_app in Hl. naive_solver.
Qed.

(** The mark that the operations test tells whether the core owns the cell. *)
Lemma owned_mark f L c x :
  conc_linked f L -> 0 <= c < N -> L (PH c) = [] ->
  INDEX_SHIFT N <= x < INDEX_SHIFT N + usable ->
  list_ind (f x) = Z.shiftl c LIST_HEAD_PADDING <-> x ∈ L (PA c).
Proof.
  intros [HL Hh] Hc Hp Hx. rewrite shift3. split.
  - intros Ei. apply (part_range _ _ L (linked_part _ _ _ _ HL)) in Hx as [p Hxp].
    pose proof (part_elem_valid N usable HN L p x (linked_part _ _ _ _ HL) Hxp) as Hv.
    destruct p as [d|d| |d].
    + rewrite (linked_allocated N usable f L x d HL Hv Hxp), shift3 in Ei.
      by replace c with d by lia.
    + pose proof (proj2 (proj2 (linked_ok _ _ _ _ HL (PF d) Hv)) x Hxp). lia.
    + pose proof (proj2 (proj2 (linked_ok _ _ _ _ HL PG Hv)) x Hxp). lia.
    + destruct (Hh d x Hxp) as [|Ed]; [lia|]. rewrite shift3 in Ed.
      replace d with c in Hxp by lia. rewrite Hp in Hxp. by apply not_elem_of_nil in Hxp.
  - intros Hxa. rewrite (linked_allocated N usable f L x c HL Hc Hxa). apply shift3.
Qed.

Lemma unlink_free_spec f L c i :
  conc_linked f L -> 0 <= c < N -> L (PH c) = [] -> 0 <= i < usable ->
  let x := i + SHIFT in
  match unlink_free N f i c with
  | Some f' => exists l1 l2, L (PA c) = l1 ++ x :: l2 /\ f' = remove f x /\
      conc_linked f' (move (PA c) (PH c) (l1 ++ l2) [x] L)
  | None => x ∉ L (PA c)
  end.
Proof.
  intros HL Hc Hp Hi x. unfold unlink_free. cbv zeta. fold SHIFT x.
  unfold ALLOC_LIST_HEAD. rewrite Z.add_0_l.
  pose proof (owned_mark f L c x HL Hc Hp ltac:(unfold x, SHIFT; lia)) as Hm.
  destruct (Z.eqb_spec (list_ind (f x)) (Z.shiftl c LIST_HEAD_PADDING)) as [Em|Em]; cbn [negb].
  2: { tauto. }
  apply Hm in Em as Hin. apply list_elem_of_split in Hin as (l1 & l2 & E).
  destruct HL as [HL Hh].
  pose proof (ring_around f L c l1 x l2 HL Hc E) as (Hhx & _ & _ & Hsame & Hhead & _).
  replace ((next (f x) =? prev (f x)) && _) with false.
  2: { destruct (Z.eqb_spec (next (f x)) (prev (f x))) as [Es|]; [|done].
       apply Hsame in Es as [E1 _]. rewrite (Hhead E1), Z.eqb_refl. done. }
  exists l1, l2. do 2 (split; [done|]). split; [rewrite <- Hp; by apply linked_remove|].
  intros d y. unfold move. rewrite !fn_insert_dec, ind_remove.
  case_decide as Ed; [|case_decide; [done|apply Hh]]. simplify_eq.
  intros ->%list_elem_of_singleton. by right.
Qed.

Lemma put_free_spec f L c x :
  conc_linked f L -> 0 <= c < N -> L (PH c) = [x] ->
  conc_linked (put_free N f c x) (move (PH c) (PF c) [] (x :: L (PF c)) L).
Proof.
  intros [HL Hh] Hc E. unfold put_free. cbv zeta.
  change (FREE_LIST_HEAD N + Z.shiftl c LIST_HEAD_PADDING) with (head N (PF c)).
  pose proof (in_flight N usable HN f L c x [] (PF c) HL E Hc ltac:(done)) as [Hx Hne].
  split; [by apply linked_push|].
  intros d y. unfold move. rewrite !fn_insert_dec, ind_push by done.
  case_decide; [done|]. case_decide; [by intros ?%not_elem_of_nil|]. intros Hy.
  rewrite decide_False; [by apply Hh|]. intros ->. simplify_eq.
  assert (y ∈ L (PH c)) as Hyc by (rewrite E; left).
  pose proof (part_disj _ _ _ (linked_part _ _ _ _ HL) _ _ _ Hy Hyc). congruence.
Qed.

(** What rejuvenating the cell [x] on the ring of [c] does: nothing if it is
    the only cell, not even to its time. *)
Definition rejuvenated f L c x now (l1 l2 : list Z) f' : Prop :=
  l1 ++ l2 = [] /\ f' = f \/
  l1 ++ l2 <> [] /\ conc_linked f' (<[PA c := l1 ++ l2 ++ [x]]> L) /\ time (f' x) = now /\
  (forall y, y <> x -> time (f' y) = time (f y)) /\
  (forall y, id (f' y) = id (f y)) /\ forall y, map_chain_next (f' y) = map_chain_next (f y).

Lemma rejuvenate_spec f L c i now :
  conc_linked f L -> 0 <= c < N -> L (PH c) = [] -> 0 <= i < usable ->
  let x := i + SHIFT in
  let (b, f') := concurrent_dchain_impl_rejuvenate_index N f i c now in
  if b then exists l1 l2, L (PA c) = l1 ++ x :: l2 /\ rejuvenated f L c x now l1 l2 f'
  else f' = f /\ x ∉ L (PA c).
Proof.
  intros HL Hc Hp Hi x. unfold concurrent_dchain_impl_rejuvenate_index. cbv zeta. fold SHIFT x.
  unfold ALLOC_LIST_HEAD. rewrite Z.add_0_l.
  pose proof (owned_mark f L c x HL Hc Hp ltac:(unfold x, SHIFT; lia)) as Hm.
  destruct (Z.eqb_spec (list_ind (f x)) (Z.shiftl c LIST_HEAD_PADDING)) as [Em|Em]; cbn [negb].
  2: { split; [done|]. tauto. }
  apply Hm in Em as Hin. apply list_elem_of_split in Hin as (l1 & l2 & E).
  destruct HL as [HL Hh].
  pose proof (ring_around f L c l1 x l2 HL Hc E) as (Hhx & Hpx & Hnx & Hsame & Hhead & Hl & Hlx).
  set (h := Z.shiftl c LIST_HEAD_PADDING) in *.
  destruct (Z.eqb_spec (next (f x)) (prev (f x))) as [Es|Es].
  { pose proof (proj1 Hsame Es) as [-> ->]. rewrite Es, (Hhead eq_refl), Z.eqb_refl.
    exists [], []. split; [done|]. by left. }
  exists l1, l2. split; [done|]. right. split.
  { intros [-> ->]%app_nil. by apply Es, Hsame. }
  set (f1 := <[prev (f x) := _]> f). set (f2 := <[next (f x) := _]> f1).
  assert (f2 = remove f x) as -> by done.
  pose proof (linked_rejuvenate N usable HN (set_time now) f L c l1 x l2 HL Hc E) as HL2.
  change (head N (PA c)) with h in HL2. set (r := remove f x) in *.
  assert (prev (r h) <> x) as Hrx by (by rewrite Hl).
  assert (list_ind (r x) = h) as Hir by (unfold r; by rewrite ind_remove).
  set (f3 := <[x := _]> r). set (f4 := <[prev (r h) := _]> f3).
  assert (forall y, <[h := set_prev x (f4 h)]> f4 y = append (set_time now) r h h x y) as Ef.
  { intros y. unfold append, f4, f3. cbv zeta.
    assert (forall p, set_time now (set_list_ind h (set_prev p (set_next h (r x)))) =
      set_time now (set_prev p (set_next h (r x)))) as Eq.
    { intros p. cbn in Hir. unfold set_time; cbn. by rewrite Hir. }
    by rewrite Eq. }
  split; [split|].
  - eapply (linked_ext N usable HN); [| |exact HL2]; [|done]. intros y. by rewrite Ef.
  - intros d y. rewrite fn_lookup_insert_ne by done. rewrite Ef, ind_append by done.
    intros Hy. case_decide as Ey; [subst y; right|unfold r; rewrite ind_remove; by apply Hh].
    assert (x ∈ L (PA c)) as Hxa by (rewrite E, elem_of_app; right; left).
    by pose proof (part_disj _ _ _ (linked_part _ _ _ _ HL) _ _ _ Hy Hxa).
  - split; [|split; [|split]]; intros; rewrite Ef.
    + rewrite (pay_append_at time) by done. by paysolve.
    + rewrite (pay_append time) by congruence. unfold r. apply (pay_remove time).
    + destruct (decide (x = y)) as [<-|].
      * rewrite (pay_append_at id) by done. paysolve. unfold r. apply (pay_remove id).
      * rewrite (pay_append id) by congruence. unfold r. apply (pay_remove id).
    + destruct (decide (x = y)) as [<-|].
      * rewrite (pay_append_at map_chain_next) by done. paysolve. unfold r.
        apply (pay_remove map_chain_next).
      * rewrite (pay_append map_chain_next) by congruence. unfold r.
        apply (pay_remove map_chain_next).
Qed.

Lemma is_index_allocated_owned f L c i :
  conc_linked f L -> 0 <= c < N -> L (PH c) = [] -> 0 <= i < usable ->
  concurrent_dchain_impl_is_index_allocated N f i c = true <-> i + SHIFT ∈ L (PA c).
Proof.
  intros HL Hc Hp Hi. unfold concurrent_dchain_impl_is_index_allocated. cbv zeta. fold SHIFT.
  unfold ALLOC_LIST_HEAD. rewrite Z.add_0_l. set (x := i + SHIFT).
  pose proof (owned_mark f L c x HL Hc Hp ltac:(unfold x, SHIFT; lia)) as Hm.
  destruct (Z.eqb_spec (list_ind (f x)) (Z.shiftl c LIST_HEAD_PADDING)) as [Em|Em]; cbn [negb].
  2: { split; [done|]. tauto. }
  apply Hm in Em as Hin. split; [done|]. intros _.
  apply list_elem_of_split in Hin as (l1 & l2 & E).
  pose proof (ring_around f L c l1 x l2 (cl_linked _ _ HL) Hc E) as (_ & _ & _ & Hs & Hhead & _).
  destruct (Z.eqb_spec (next (f x)) (prev (f x))) as [Es|]; [|done].
  pose proof (proj1 Hs Es) as [E1 _]. by rewrite Es, (Hhead E1), Z.eqb_refl.
Qed.

Lemma get_oldest_spec f L c :
  conc_linked f L -> 0 <= c < N ->
  concurrent_dchain_impl_get_oldest_index N f c =
  match L (PA c) with [] => None | x :: _ => Some (x - SHIFT) end.
Proof.
  intros [HL _] Hc. unfold concurrent_dchain_impl_get_oldest_index. cbv zeta. fold SHIFT.
  unfold ALLOC_LIST_HEAD. rewrite Z.add_0_l.
  pose proof (linked_ok _ _ _ _ HL (PA c) Hc) as (Hn & Hp & _).
  change (head N (PA c)) with (Z.shiftl c LIST_HEAD_PADDING) in *.
  set (h := Z.shiftl c LIST_HEAD_PADDING) in *.
  destruct (L (PA c)) as [|x l] eqn:E.
  - cbn in Hn, Hp. cbv beta in Hn, Hp. cbn. rewrite Hn, Hp, Z.eqb_refl. done.
  - destruct Hn as [Hn _]. change (next (f h)) with (cc_next (f h)) in Hn. cbn. rewrite Hn.
    assert (h <> x) as Hne.
    { apply (cell_not_head N usable HN f L (PA c) (PA c)); [done|rewrite E; left|done]. }
    by rewrite (proj2 (Z.eqb_neq x h)), andb_false_r by congruence.
Qed.
End lemmas.

(** ** The specification of interleaved calls *)

(** [owned c]: the indexes allocated on core [c], oldest first; [hand c]: the
    index core [c] is moving. *)
Record alloc_state := AllocState { owned : Z -> list Z; hand : Z -> list Z }.

Inductive alloc_step (usable c : Z) : alloc_state -> option result -> alloc_state -> Prop :=
| as_take ow hd i :
    0 <= i < usable -> (forall d, i ∉ ow d) -> (forall d, i ∉ hd d) -> hd c = [] ->
    alloc_step usable c (AllocState ow hd) None (AllocState ow (<[c := [i]]> hd))
| as_local_empty s : alloc_step usable c s None s
| as_full ow hd :
    (forall i, 0 <= i < usable -> exists d, i ∈ ow d \/ i ∈ hd d) ->
    alloc_step usable c (AllocState ow hd) (Some RNoSpace) (AllocState ow hd)
| as_install ow hd i :
    hd c = [i] ->
    alloc_step usable c (AllocState ow hd) (Some (RAllocated i))
      (AllocState (<[c := ow c ++ [i]]> ow) (<[c := []]> hd))
| as_unlink ow hd l1 i l2 :
    ow c = l1 ++ i :: l2 -> hd c = [] ->
    alloc_step usable c (AllocState ow hd) None
      (AllocState (<[c := l1 ++ l2]> ow) (<[c := [i]]> hd))
| as_release ow hd i :
    hd c = [i] ->
    alloc_step usable c (AllocState ow hd) (Some (RFreed i true)) (AllocState ow (<[c := []]> hd))
| as_free_refused ow hd i :
    i ∉ ow c ->
    alloc_step usable c (AllocState ow hd) (Some (RFreed i false)) (AllocState ow hd)
| as_touch ow hd l1 i l2 :
    ow c = l1 ++ i :: l2 ->
    alloc_step usable c (AllocState ow hd) (Some (RRejuvenated i true))
      (AllocState (<[c := l1 ++ l2 ++ [i]]> ow) hd)
| as_touch_refused ow hd i :
    i ∉ ow c ->
    alloc_step usable c (AllocState ow hd) (Some (RRejuvenated i false)) (AllocState ow hd).

(** A run of the specification and its results, by core. *)
Inductive alloc_run (N usable : Z) : alloc_state -> list (Z * result) -> alloc_state -> Prop :=
| ar_nil s : alloc_run N usable s [] s
| ar_step c s r s' rs s'' :
    0 <= c < N -> alloc_step usable c s r s' -> alloc_run N usable s' rs s'' ->
    alloc_run N usable s (match r with Some r => (c, r) :: rs | None => rs end) s''.

Definition call_ok (usable : Z) (op : call) : Prop :=
  match op with CAllocate _ => True | CFree i | CRejuvenate i _ => 0 <= i < usable end.

(** No index is in two places: it is owned by one core, once, or in the
    hands of one core. *)
Record exclusive (s : alloc_state) : Prop := {
  ex_owned c d i : i ∈ owned s c -> i ∈ owned s d -> c = d;
  ex_hand c d i : i ∈ hand s c -> i ∈ hand s d -> c = d;
  ex_apart c d i : i ∈ owned s c -> i ∉ hand s d;
  ex_nodup c : NoDup (owned s c)
}.

Section simulation.
Context {K : Type} (N usable : Z).
Hypothesis (HN : 0 < N).
Let SHIFT : Z := INDEX_SHIFT N.

Definition pc_ok (p : pc) (l : list Z) : Prop :=
  match p with
  | Idle | TryGlobal _ => l = []
  | Taken x _ | Unlinked x => l = [x]
  end.

(** The lists of [L] are those of [a]. *)
Definition shows (L : place -> list Z) (a : alloc_state) : Prop :=
  (forall d, L (PA d) = Z.add SHIFT <$> owned a d) /\
  forall d, L (PH d) = Z.add SHIFT <$> hand a d.

(** The state [s] of the cells and cores implements [a]. *)
Definition implements (s : conc K) (a : alloc_state) : Prop :=
  exists L, conc_linked N usable (cells s) L /\ shows L a /\
    forall d, 0 <= d < N -> pc_ok (pcs s d) (L (PH d)).

Lemma shift_in i (l : list Z) : SHIFT + i ∈ Z.add SHIFT <$> l <-> i ∈ l.
Proof. apply list_elem_of_fmap_inj. intros ???. lia. Qed.

Lemma shift_split l1 x l2 (l : list Z) :
  Z.add SHIFT <$> l = l1 ++ x :: l2 ->
  exists k1 k2, l = k1 ++ (x - SHIFT) :: k2 /\ l1 = Z.add SHIFT <$> k1 /\ l2 = Z.add SHIFT <$> k2.
Proof.
  intros (k1 & k2' & -> & E & ->)%fmap_app_inv.
  destruct k2' as [|i k2]; [done|]. injection E as -> ->. exists k1, k2.
  by replace (SHIFT + i - SHIFT) with i by lia.
Qed.

Lemma shift_one (l : list Z) x : Z.add SHIFT <$> l = [x] -> l = [x - SHIFT].
Proof.
  intros E. destruct (shift_split [] x [] l E) as (k1 & k2 & -> & E1 & E2).
  symmetry in E1, E2. apply fmap_nil_inv in E1 as ->. by apply fmap_nil_inv in E2 as ->.
Qed.

Lemma hand_nil (l : list Z) : Z.add SHIFT <$> l = [] -> l = [].
Proof. apply fmap_nil_inv. Qed.

(** Pointwise reasoning on moved lists. *)
Lemma fmap_insert_at (g : Z -> list Z) c l d :
  Z.add SHIFT <$> (<[c := l]> g) d = if decide (c = d) then Z.add SHIFT <$> l else Z.add SHIFT <$> g d.
Proof. rewrite fn_insert_dec. by case_decide. Qed.

(** Reads of moved lists. *)
Ltac moved d := intros d; cbn [owned hand]; unfold move;
  rewrite ?fmap_insert_at, ?fn_insert_dec; repeat (case_decide; simplify_eq); try done.

(** A free cell comes into the hands of an idle core. *)
Lemma taken (f : Z -> concurrent_dchain_cell K) p L a c x l :
  conc_linked N usable f L -> free_place p -> L p = x :: l -> shows L a -> L (PH c) = [] ->
  exists a', alloc_step usable c a None a' /\ shows (move p (PH c) l [x] L) a'.
Proof.
  intros [HL _] Hp E [HA HH] Hhc. destruct a as [ow hd]. cbn in HA, HH.
  assert (x ∈ L p) as Hx by (rewrite E; left).
  pose proof (part_elem N usable L p x (linked_part _ _ _ _ HL) Hx) as Hr. fold SHIFT in Hr.
  assert ((forall d, p <> PA d) /\ forall d, p <> PH d) as [HpA HpH] by (by destruct p).
  assert (forall q, x ∈ L q -> q = p) as Hon.
  { intros q Hq. by apply (part_disj _ _ _ (linked_part _ _ _ _ HL) _ _ _ Hq Hx). }
  assert (SHIFT + (x - SHIFT) = x) as Ex by lia.
  exists (AllocState ow (<[c := [x - SHIFT]]> hd)). split; [constructor; [lia| | |]|split].
  - intros d Hd. apply shift_in in Hd. rewrite <- HA, Ex in Hd. by apply (HpA d), eq_sym, Hon.
  - intros d Hd. apply shift_in in Hd. rewrite <- HH, Ex in Hd. by apply (HpH d), eq_sym, Hon.
  - apply hand_nil. by rewrite <- HH.
  - moved d; by destruct (HpA d).
  - moved d; first [cbn; by rewrite Ex | by destruct (HpH d) | apply HH].
Qed.

(** Every place of an unmoved index is a ring, a hand, or free. *)
Lemma all_taken (f : Z -> concurrent_dchain_cell K) L a :
  conc_linked N usable f L -> shows L a -> (forall p, free_place p -> L p = []) ->
  forall i, 0 <= i < usable -> exists d, i ∈ owned a d \/ i ∈ hand a d.
Proof.
  intros [HL _] [HA HH] Hf. destruct a as [ow hd]. intros i Hi. cbn in *.
  assert (INDEX_SHIFT N <= SHIFT + i < INDEX_SHIFT N + usable) as Hr by (unfold SHIFT; lia).
  apply (part_range _ _ L (linked_part _ _ _ _ HL)) in Hr as [p Hp].
  destruct p as [d|d| |d]; try (rewrite Hf in Hp by done; by apply not_elem_of_nil in Hp).
  - exists d. left. apply shift_in. by rewrite <- HA.
  - exists d. right. apply shift_in. by rewrite <- HH.
Qed.

Lemma unlinked L a c x l1 l2 :
  L (PA c) = l1 ++ x :: l2 -> shows L a -> L (PH c) = [] ->
  exists a', alloc_step usable c a None a' /\ shows (move (PA c) (PH c) (l1 ++ l2) [x] L) a'.
Proof.
  intros E [HA HH] Hhc. destruct a as [ow hd]. cbn in HA, HH. rewrite HA in E.
  apply shift_split in E as (k1 & k2 & Eo & -> & ->). rewrite HH in Hhc.
  eexists. split; [eapply as_unlink; [exact Eo|by apply hand_nil]|]. split.
  - moved d. by rewrite fmap_app.
  - moved d. cbn. f_equal. lia.
Qed.

Lemma installed L a c x :
  L (PH c) = [x] -> shows L a ->
  exists a', alloc_step usable c a (Some (RAllocated (x - SHIFT))) a' /\
    shows (move (PH c) (PA c) [] (L (PA c) ++ [x]) L) a'.
Proof.
  intros E [HA HH]. destruct a as [ow hd]. cbn in HA, HH. rewrite HH in E.
  eexists. split; [apply as_install; by apply shift_one|]. split; moved d.
  rewrite fmap_app, HA. do 2 f_equal. cbn. f_equal. lia.
Qed.

Lemma released L a c x l :
  L (PH c) = [x] -> shows L a ->
  exists a', alloc_step usable c a (Some (RFreed (x - SHIFT) true)) a' /\
    shows (move (PH c) (PF c) [] l L) a'.
Proof.
  intros E [HA HH]. destruct a as [ow hd]. cbn in HA, HH. rewrite HH in E.
  eexists. split; [apply as_release; by apply shift_one|]. split; moved d.
Qed.

Lemma touched L a c i l1 l2 :
  L (PA c) = l1 ++ (i + SHIFT) :: l2 -> shows L a ->
  exists a', alloc_step usable c a (Some (RRejuvenated i true)) a' /\
    shows (<[PA c := l1 ++ l2 ++ [i + SHIFT]]> L) a'.
Proof.
  intros E [HA HH]. destruct a as [ow hd]. cbn in HA, HH. rewrite HA in E.
  apply shift_split in E as (k1 & k2 & Eo & -> & ->).
  replace (i + SHIFT - SHIFT) with i in Eo by lia.
  eexists. split; [by eapply as_touch|]. split; moved d.
  rewrite !fmap_app. do 2 f_equal. cbn. f_equal. lia.
Qed.

Lemma not_owned L a c i : shows L a -> i + SHIFT ∉ L (PA c) -> i ∉ owned a c.
Proof. intros [HA _] Hn Hi. apply Hn. rewrite HA, Z.add_comm. by apply shift_in. Qed.

(** The other cores' positions stay as they are. *)
Lemma implements_intro (s : conc K) f L L' a c p :
  conc_linked N usable f L' -> shows L' a ->
  (forall d, 0 <= d < N -> pc_ok (pcs s d) (L (PH d))) ->
  (forall d, d <> c -> L' (PH d) = L (PH d)) -> pc_ok p (L' (PH c)) ->
  implements (Conc f (<[c := p]> (pcs s))) a.
Proof.
  intros HL Hs Hpc Hl Hp. exists L'. split; [done|]. split; [done|]. intros d Hd. cbn [pcs].
  rewrite fn_insert_dec. case_decide as E; [by subst|]. rewrite Hl by congruence. by apply Hpc.
Qed.

Ltac other_hands := intros; unfold move; rewrite ?fn_insert_dec; repeat (case_decide; simplify_eq);
  congruence.
Ltac own_hand := unfold move; rewrite ?fn_insert_dec; repeat (case_decide; simplify_eq); done.

(** The first section of a call. *)
Lemma sched_call_implements s a c op :
  implements s a -> 0 <= c < N -> call_ok usable op -> pcs s c = Idle ->
  let (s', r) := sched_step N s c op in
  exists a', alloc_step usable c a r a' /\ implements s' a'.
Proof.
  intros (L & HL & Hs & Hpc) Hc Hop Epc. pose proof (Hpc c Hc) as Hh. unfold sched_step.
  rewrite Epc in *. cbn in Hh. destruct op as [now|i|i now].
  - pose proof (take_local_spec N usable HN _ L c HL Hc Hh) as Ht.
    destruct (take_local N (cells s) c) as [[x f']|].
    + destruct Ht as (l & E & _ & HL').
      destruct (taken (cells s) (PF c) L a c x l HL I E Hs Hh) as (a' & Hst & Hs').
      exists a'. split; [done|]. eapply implements_intro; [eassumption..|other_hands|own_hand].
    + eexists. split; [apply as_local_empty|]. by eapply implements_intro.
  - pose proof (unlink_free_spec N usable HN _ L c i HL Hc Hh Hop) as Hu. cbv zeta in Hu.
    destruct (unlink_free N (cells s) i c) as [f'|].
    + destruct Hu as (l1 & l2 & E & _ & HL').
      destruct (unlinked L a c _ l1 l2 E Hs Hh) as (a' & Hst & Hs').
      exists a'. split; [done|]. eapply implements_intro; [eassumption..|other_hands|own_hand].
    + pose proof (not_owned L a c i Hs Hu). exists a. split; [|by exists L].
      destruct a. by apply as_free_refused.
  - unfold concurrent_dchain_rejuvenate_index.
    pose proof (rejuvenate_spec N usable HN _ L c i now HL Hc Hh Hop) as Hr. cbv zeta in Hr.
    destruct (concurrent_dchain_impl_rejuvenate_index N (cells s) i c now) as [[] f'].
    + destruct Hr as (l1 & l2 & E & Hr). destruct (touched L a c i l1 l2 E Hs) as (a' & Hst & Hs').
      exists a'. split; [done|]. eexists. split; [|split; [exact Hs'|]].
      * destruct Hr as [[[-> ->]%app_nil ->]|(_ & HL' & _)]; [|exact HL']. destruct HL as [HL Hhd].
        split; [|intros d y; rewrite fn_lookup_insert_ne by done; apply Hhd].
        eapply (linked_ext N usable HN); [| |exact HL]; [done|]. intros p.
        rewrite fn_insert_dec. case_decide; [by subst|done].
      * intros d Hd. rewrite fn_lookup_insert_ne by done. by apply Hpc.
    + destruct Hr as [-> Hn]. pose proof (not_owned L a c i Hs Hn).
      exists a. split; [|by exists L]. destruct a. by apply as_touch_refused.
Qed.

(** Each atomic section does a step of the specification. *)
Lemma sched_step_implements s a c op :
  implements s a -> 0 <= c < N -> call_ok usable op ->
  let (s', r) := sched_step N s c op in
  exists a', alloc_step usable c a r a' /\ implements s' a'.
Proof.
  intros Hi Hc Hop. destruct (pcs s c) as [|x now|now|x] eqn:Epc.
  { by apply sched_call_implements. }
  all: destruct Hi as (L & HL & Hs & Hpc); pose proof (Hpc c Hc) as Hh; unfold sched_step;
    rewrite Epc in *; cbn in Hh.
  - pose proof (add_link_spec N usable HN _ L c x now HL Hc Hh) as HL'.
    destruct (installed L a c x Hh Hs) as (a' & Hst & Hs').
    exists a'. split; [done|]. eapply implements_intro; [eassumption..|other_hands|own_hand].
  - pose proof (take_global_spec N usable HN _ L c HL Hc Hh) as Ht.
    destruct (take_global N (cells s)) as [[x|] f'].
    + destruct Ht as (f1 & L1 & l & HL1 & [HA1 HH1 _ _ _] & E & _ & HL').
      assert (shows L1 a) as Hs1 by (split; intros d; rewrite ?HA1, ?HH1; apply Hs).
      destruct (taken f1 PG L1 a c x l HL1 I E Hs1 ltac:(by rewrite HH1)) as (a' & Hst & Hs').
      exists a'. split; [done|].
      eapply implements_intro; [eassumption..| |own_hand]. intros d Hd. rewrite <- HH1. other_hands.
    + destruct Ht as [-> Hf]. exists a. split; [|by eapply implements_intro].
      pose proof (all_taken _ L a HL Hs Hf). destruct a. by apply as_full.
  - pose proof (put_free_spec N usable HN _ L c x HL Hc Hh) as HL'.
    destruct (released L a c x (x :: L (PF c)) Hh Hs) as (a' & Hst & Hs').
    exists a'. split; [done|]. eapply implements_intro; [eassumption..|other_hands|own_hand].
Qed.

Lemma sched_run_implements sched : forall s a,
  implements s a -> Forall (fun co => 0 <= co.1 < N /\ call_ok usable co.2) sched ->
  let (s', rs) := sched_run N s sched in
  exists a', alloc_run N usable a rs a' /\ implements s' a'.
Proof.
  induction sched as [|[c op] sched IH]; intros s a Hi Hok; cbn [sched_run].
  { exists a. split; [constructor|done]. }
  apply Forall_cons in Hok as [[Hc Hop] Hok]. cbn in Hc, Hop.
  pose proof (sched_step_implements s a c op Hi Hc Hop) as Hs.
  destruct (sched_step N s c op) as [s1 r]. destruct Hs as (a1 & Hst & Hi1).
  specialize (IH s1 a1 Hi1 Hok). destruct (sched_run N s1 sched) as [s2 rs].
  destruct IH as (a2 & Hr & Hi2). exists a2. split; [|done]. by eapply ar_step.
Qed.
End simulation.

(** ** Calls that are not interleaved *)

Section sequential.
Context {K : Type} (N usable : Z).
Hypothesis (HN : 0 < N).
Implicit Types f : Z -> concurrent_dchain_cell K.
Let SHIFT : Z := INDEX_SHIFT N.

Lemma rep_linked f al :
  chain_rep N usable f al -> exists L, conc_linked N usable f L /\
    (forall c, L (PH c) = []) /\ forall c, L (PA c) = Z.add SHIFT <$> al c.
Proof.
  intros (L & HL & Hs & HA). exists L. split; [|done]. split; [done|].
  intros d x. rewrite Hs. by intros ?%not_elem_of_nil.
Qed.

Lemma linked_rep f L al :
  conc_linked N usable f L -> (forall c, L (PH c) = []) ->
  (forall c, L (PA c) = Z.add SHIFT <$> al c) -> chain_rep N usable f al.
Proof. intros [HL _] Hp HA. by exists L. Qed.

(** What a call may change besides the lists: the time of the index [i]. *)
Record kept (P : Z -> Prop) f f' : Prop := {
  kept_id y : id (f' y) = id (f y);
  kept_chain y : map_chain_next (f' y) = map_chain_next (f y);
  kept_time j : P j -> time (f' (SHIFT + j)) = time (f (SHIFT + j))
}.

Lemma kept_refl P f : kept P f f.
Proof. by split. Qed.

Lemma seq_install f L c x l p al now :
  conc_linked N usable f L -> valid N p -> free_place p -> L p = x :: l -> 0 <= c < N ->
  (forall d, L (PH d) = []) -> (forall d, L (PA d) = Z.add SHIFT <$> al d) ->
  conc_linked N usable (pop f (head N p)) (move p (PH c) l [x] L) ->
  let f' := add_link (pop f (head N p)) c x now in
  let i := x - SHIFT in
  0 <= i < usable /\ ~ is_allocated al i /\ chain_rep N usable f' (<[c := al c ++ [i]]> al) /\
  time (f' (SHIFT + i)) = now /\ kept (fun j => j <> i) f f'.
Proof.
  intros HL Hv Hp E Hc Hh HA HL1 f' i. set (L1 := move p (PH c) l [x] L) in *.
  assert (SHIFT + i = x) as Ex by (unfold i; lia).
  assert (x ∈ L p) as Hx by (rewrite E; left).
  pose proof (linked_part _ _ _ _ (cl_linked _ _ _ _ HL)) as Hpart.
  pose proof (part_elem N usable L p x Hpart Hx) as Hr. fold SHIFT in Hr.
  assert (L1 (PH c) = [x]) as E1 by (unfold L1, move; by rewrite fn_lookup_insert).
  pose proof (add_link_spec N usable HN _ _ c x now HL1 Hc E1) as HL2. fold f' in HL2.
  assert (forall d, L1 (PA d) = L (PA d)) as EA.
  { intros d. unfold L1, move. rewrite !fn_insert_dec. by destruct p; repeat case_decide. }
  pose proof (in_flight N usable HN _ _ c x [] (PA c) (cl_linked _ _ _ _ HL1) E1 Hc ltac:(done))
    as [_ Hne].
  assert (prev (pop f (head N p) (head N (PA c))) <> x) as Hl.
  { rewrite (ring_last N _ c _ (linked_ok _ _ _ _ (cl_linked _ _ _ _ HL1) (PA c) Hc)).
    rewrite EA. pose proof (lastof_in (head N (PA c)) (L (PA c))) as [->|Hi]%elem_of_cons; [done|].
    intros El. rewrite El in Hi. pose proof (part_disj _ _ _ Hpart _ _ _ Hx Hi). by subst p. }
  split; [unfold i; lia|]. split.
  { intros [d Hd]. apply (rep_in N L al d i HA) in Hd. fold SHIFT in Hd. rewrite Ex in Hd.
    pose proof (part_disj _ _ _ Hpart _ _ _ Hx Hd). by subst p. }
  split; [|split].
  - eapply linked_rep; [exact HL2| |].
    + intros d. unfold L1, move. rewrite !fn_insert_dec. by destruct p; repeat (case_decide; simplify_eq).
    + intros d. unfold move. rewrite !fn_insert_dec, !EA.
      destruct (decide (c = d)) as [<-|].
      * rewrite decide_True by done. rewrite fmap_app, HA. do 2 f_equal. cbn. by rewrite Ex.
      * rewrite !decide_False by congruence. apply HA.
  - rewrite Ex. unfold f', add_link, ALLOC_LIST_HEAD. cbv zeta. rewrite Z.add_0_l.
    change (Z.shiftl c LIST_HEAD_PADDING) with (head N (PA c)).
    rewrite (pay_append_at time) by done. by rewrite time_set_time.
  - unfold f', add_link, ALLOC_LIST_HEAD. cbv zeta. rewrite Z.add_0_l.
    change (Z.shiftl c LIST_HEAD_PADDING) with (head N (PA c)). split; intros y.
    + destruct (decide (x = y)) as [<-|].
      * rewrite (pay_append_at id) by done. rewrite id_set_time. autorewrite with links.
        apply (pay_pop id).
      * rewrite (pay_append id) by done. apply (pay_pop id).
    + destruct (decide (x = y)) as [<-|].
      * rewrite (pay_append_at map_chain_next) by done. rewrite chain_set_time.
        autorewrite with links. apply (pay_pop map_chain_next).
      * rewrite (pay_append map_chain_next) by done. apply (pay_pop map_chain_next).
    + intros Hy. rewrite (pay_append time) by (done || unfold i in Hy; lia).
      apply (pay_pop time).
Qed.

(** Allocation returns a fresh index or there is none. *)
Lemma seq_allocate f al c now :
  chain_rep N usable f al -> 0 <= c < N ->
  match concurrent_dchain_allocate_new_index N f now c with
  | (Some i, f') => 0 <= i < usable /\ ~ is_allocated al i /\
      chain_rep N usable f' (<[c := al c ++ [i]]> al) /\
      time (f' (SHIFT + i)) = now /\ kept (is_allocated al) f f'
  | (None, f') => f' = f /\ forall i, 0 <= i < usable -> is_allocated al i
  end.
Proof.
  intros Hrep Hc. destruct (rep_linked f al Hrep) as (L & HL & Hh & HA).
  unfold concurrent_dchain_allocate_new_index, concurrent_dchain_impl_allocate_new_index,
    concurrent_dchain_impl_allocate_new_index_global.
  pose proof (take_local_spec N usable HN f L c HL Hc (Hh c)) as Ht.
  destruct (take_local N f c) as [[x f1]|].
  - destruct Ht as (l & E & -> & HL1).
    pose proof (seq_install f L c x l (PF c) al now HL Hc I E Hc Hh HA HL1)
      as (H1 & H2 & H3 & H4 & [H5 H6 H7]). fold SHIFT. do 4 (split; [done|]). split; [done|done|].
    intros j Hj. apply H7. congruence.
  - pose proof (take_global_spec N usable HN f L c HL Hc (Hh c)) as Hg.
    destruct (take_global N f) as [[x|] f1].
    + destruct Hg as (f2 & L2 & l & HL2 & [HA2 HH2 Hid Hch Htm] & E & -> & HL1).
      destruct (seq_install f2 L2 c x l PG al now HL2 I I E Hc) as (H1 & H2 & H3 & H4 & [H5 H6 H7]).
      { intros d. by rewrite HH2. }
      { intros d. by rewrite HA2. }
      { done. }
      fold SHIFT. do 4 (split; [done|]). split; intros.
      * by rewrite H5.
      * by rewrite H6.
      * rewrite H7 by congruence. destruct H as [d Hd]. apply (Htm _ d).
        by apply (rep_in N L al d j HA).
    + destruct Hg as [-> Hf]. split; [done|]. intros i Hi.
      destruct (all_taken N usable f L (AllocState al (fun _ => [])) HL ltac:(by split) Hf i Hi)
        as [d [Hd|Hd]]; [by exists d|by apply not_elem_of_nil in Hd].
Qed.

(** A core that sees a free index of its own gets one. *)
Lemma has_free_allocates f now c :
  concurrent_dchain_has_free_indexes N f c = true ->
  (concurrent_dchain_allocate_new_index N f now c).1 <> None.
Proof.
  unfold concurrent_dchain_has_free_indexes, concurrent_dchain_impl_has_free_indexes,
    concurrent_dchain_allocate_new_index, concurrent_dchain_impl_allocate_new_index, take_local.
  cbv zeta. by destruct (_ =? _).
Qed.

Lemma rep_split (L : place -> list Z) (al : Z -> list Z) c l1 i l2 :
  (forall d, L (PA d) = Z.add SHIFT <$> al d) -> al c = l1 ++ i :: l2 ->
  L (PA c) = (Z.add SHIFT <$> l1) ++ (i + SHIFT) :: (Z.add SHIFT <$> l2).
Proof. intros HA E. rewrite HA, E, fmap_app. cbn. by rewrite (Z.add_comm i). Qed.

(** An index on a ring stands at one place in it. *)
Lemma split_unique (l1 l2 k1 k2 : list Z) x :
  NoDup (l1 ++ x :: l2) -> l1 ++ x :: l2 = k1 ++ x :: k2 -> l1 = k1 /\ l2 = k2.
Proof.
  revert k1. induction l1 as [|y l1 IH]; intros [|z k1] Hnd E; cbn in *.
  - by simplify_eq.
  - simplify_eq. apply NoDup_cons in Hnd as [Hx _]. set_solver.
  - simplify_eq. apply NoDup_cons in Hnd as [Hx _]. set_solver.
  - injection E as -> E. apply NoDup_cons in Hnd as [_ Hnd]. by destruct (IH k1 Hnd E) as [-> ->].
Qed.

(** Freeing an index of the core. *)
Lemma seq_free f al c l1 i l2 :
  chain_rep N usable f al -> al c = l1 ++ i :: l2 ->
  let (b, f') := concurrent_dchain_free_index N f i c in
  b = true /\ chain_rep N usable f' (<[c := l1 ++ l2]> al) /\ kept (fun _ => True) f f'.
Proof.
  intros Hrep Eo. assert (i ∈ al c) as Hi by (rewrite Eo, elem_of_app; right; left).
  pose proof (rep_core N usable HN f al c i Hrep Hi) as Hc.
  pose proof (rep_range N usable f al i Hrep ltac:(by exists c)) as Hr.
  destruct (rep_linked f al Hrep) as (L & HL & Hh & HA).
  unfold concurrent_dchain_free_index, concurrent_dchain_impl_free_index.
  pose proof (unlink_free_spec N usable HN f L c i HL Hc (Hh c) Hr) as Hu. cbv zeta in Hu.
  pose proof (rep_split L al c l1 i l2 HA Eo) as E. fold SHIFT in Hu |- *. set (x := i + SHIFT) in *.
  pose proof (linked_part _ _ _ _ (cl_linked _ _ _ _ HL)) as Hpart.
  destruct (unlink_free N f i c) as [f1|].
  2: { exfalso. apply Hu. rewrite E, elem_of_app. right. left. }
  destruct Hu as (m1 & m2 & E' & -> & HL1).
  pose proof (part_nodup _ _ _ Hpart (PA c)) as Hnd. rewrite E in Hnd.
  destruct (split_unique _ _ m1 m2 x Hnd) as [<- <-]; [congruence|].
  set (L1 := move _ _ _ _ L) in *.
  assert (L1 (PH c) = [x]) as E1 by (unfold L1, move; by rewrite fn_lookup_insert).
  pose proof (put_free_spec N usable HN _ L1 c x HL1 Hc E1) as HL2.
  pose proof (in_flight N usable HN _ _ c x [] (PF c) (cl_linked _ _ _ _ HL1) E1 Hc ltac:(done))
    as [_ Hne].
  split; [done|]. split; [|unfold put_free; cbv zeta; split; intros y].
  - eapply linked_rep; [exact HL2| |]; intros d; unfold L1, move; rewrite ?fn_insert_dec;
      repeat (case_decide; simplify_eq); try done.
    by rewrite fmap_app.
  - change (FREE_LIST_HEAD N + Z.shiftl c LIST_HEAD_PADDING) with (head N (PF c)).
    destruct (decide (x = y)) as [<-|].
    + rewrite (pay_push_at id) by done. paysolve. apply (pay_remove id).
    + rewrite (pay_push id) by done. apply (pay_remove id).
  - change (FREE_LIST_HEAD N + Z.shiftl c LIST_HEAD_PADDING) with (head N (PF c)).
    destruct (decide (x = y)) as [<-|].
    + rewrite (pay_push_at map_chain_next) by done. paysolve. apply (pay_remove map_chain_next).
    + rewrite (pay_push map_chain_next) by done. apply (pay_remove map_chain_next).
  - intros _. change (FREE_LIST_HEAD N + Z.shiftl c LIST_HEAD_PADDING) with (head N (PF c)).
    set (z := SHIFT + y). destruct (decide (x = z)) as [<-|].
    + rewrite (pay_push_at time) by done. paysolve. apply (pay_remove time).
    + rewrite (pay_push time) by done. apply (pay_remove time).
Qed.

(** Rejuvenating an index of the core: the only one of its ring keeps its
    time. *)
Lemma seq_rejuvenate f al c l1 i l2 now :
  chain_rep N usable f al -> al c = l1 ++ i :: l2 ->
  let (b, f') := concurrent_dchain_rejuvenate_index N f i now c in
  b = true /\ chain_rep N usable f' (<[c := l1 ++ l2 ++ [i]]> al) /\
  kept (fun j => j <> i) f f' /\
  time (f' (SHIFT + i)) = (if decide (l1 ++ l2 = []) then time (f (SHIFT + i)) else now).
Proof.
  intros Hrep Eo. assert (i ∈ al c) as Hi by (rewrite Eo, elem_of_app; right; left).
  pose proof (rep_core N usable HN f al c i Hrep Hi) as Hc.
  pose proof (rep_range N usable f al i Hrep ltac:(by exists c)) as Hr.
  destruct (rep_linked f al Hrep) as (L & HL & Hh & HA).
  unfold concurrent_dchain_rejuvenate_index.
  pose proof (rejuvenate_spec N usable HN f L c i now HL Hc (Hh c) Hr) as Hu. cbv zeta in Hu.
  pose proof (rep_split L al c l1 i l2 HA Eo) as E. fold SHIFT in Hu |- *.
  rewrite (Z.add_comm SHIFT i). set (x := i + SHIFT) in *.
  pose proof (linked_part _ _ _ _ (cl_linked _ _ _ _ HL)) as Hpart.
  destruct (concurrent_dchain_impl_rejuvenate_index N f i c now) as [[] f1].
  2: { destruct Hu as [_ Hu]. exfalso. apply Hu. rewrite E, elem_of_app. right. left. }
  destruct Hu as (m1 & m2 & E' & Hu). pose proof (part_nodup _ _ _ Hpart (PA c)) as Hnd.
  rewrite E in Hnd. destruct (split_unique _ _ m1 m2 x Hnd) as [<- <-]; [congruence|].
  assert ((Z.add SHIFT <$> l1) ++ (Z.add SHIFT <$> l2) = [] <-> l1 ++ l2 = []) as Hnil.
  { rewrite <- fmap_app. split; [apply fmap_nil_inv|by intros ->]. }
  split; [done|]. destruct Hu as [[Hn ->]|(Hn & HL1 & Ht & Ht' & Hid & Hch)]; rewrite Hnil in Hn.
  - rewrite decide_True by done. apply app_nil in Hn as [-> ->]. split; [|split; [apply kept_refl|done]].
    eapply chain_rep_al; [|exact Hrep]. intros d. rewrite fn_insert_dec.
    case_decide; [by subst|done].
  - rewrite decide_False by done. split; [|split; [|done]].
    + eapply linked_rep; [exact HL1| |]; intros d; rewrite !fn_insert_dec.
      * by rewrite decide_False.
      * destruct (decide (c = d)) as [<-|].
        -- rewrite decide_True by done. rewrite !fmap_app. do 2 f_equal. cbn. f_equal. unfold x. lia.
        -- rewrite decide_False by congruence. apply HA.
    + split; [done|done|]. intros j Hj. apply Ht'. unfold x. lia.
Qed.

Lemma seq_oldest f al c :
  chain_rep N usable f al -> 0 <= c < N ->
  concurrent_dchain_impl_get_oldest_index N f c = hd_error (al c).
Proof.
  intros Hrep Hc. destruct (rep_linked f al Hrep) as (L & HL & Hh & HA).
  rewrite (get_oldest_spec N usable HN f L c HL Hc), HA. destruct (al c) as [|i l]; [done|].
  cbn. f_equal. fold SHIFT. lia.
Qed.

Lemma seq_is_allocated f al c i :
  chain_rep N usable f al -> 0 <= c < N -> 0 <= i < usable ->
  concurrent_dchain_is_index_allocated N f i c = true <-> i ∈ al c.
Proof.
  intros Hrep Hc Hi. destruct (rep_linked f al Hrep) as (L & HL & Hh & HA).
  unfold concurrent_dchain_is_index_allocated.
  rewrite (is_index_allocated_owned N usable HN f L c i HL Hc (Hh c) Hi), Z.add_comm.
  apply (rep_in N L al c i HA).
Qed.

Lemma seq_init fuel (rte_memory : Z -> concurrent_dchain_cell K) size :
  N <= size -> size <= Z.of_nat fuel ->
  exists f, concurrent_dchain_allocate true true fuel rte_memory (N + 1) size = Some (Some f) /\
    chain_rep N (N * (size / N)) f (fun _ => []) /\
    forall x, SHIFT <= x < SHIFT + size ->
      map_chain_next (f x) = -1 /\ map_chain_next (f (x + size)) = -1.
Proof.
  intros Hs Hf. unfold concurrent_dchain_allocate, concurrent_dchain_impl_init. cbn [negb].
  replace (N + 1 - 1) with N by lia. cbv zeta.
  assert (KeepsLinks (fun c : concurrent_dchain_cell K =>
    set_map_chain_next (-1) (set_time INT64_MAX c))) as Hk by (by split).
  destruct (chain_init_rep (fun c : concurrent_dchain_cell K => c) _ (init_related size) size N
    fuel rte_memory) as (f & E & Hr); [|lia|done|].
  { intros i f x Hi Hx. unfold init_related. by fsolve. }
  rewrite E. exists f. do 2 (split; [done|]).
  eapply (chain_init_all _ _ _ _ _ (fun f x =>
    map_chain_next (f x) = -1 /\ map_chain_next (f (x + size)) = -1)); [| |exact E].
  - intros i v g. unfold init_index, init_related. split; fcases; done.
  - intros i v g x [H1 H2]. unfold init_index, init_related. split; fcases; done.
Qed.
End sequential.

Lemma implements_exclusive {K} N usable (s : conc K) a :
  implements N usable s a -> exclusive a.
Proof.
  intros (L & [HL _] & [HA HH] & _). pose proof (linked_part _ _ _ _ HL) as Hpart.
  assert (forall c i, i ∈ owned a c -> INDEX_SHIFT N + i ∈ L (PA c)) as Ho.
  { intros c i Hi. rewrite HA. by apply shift_in. }
  assert (forall c i, i ∈ hand a c -> INDEX_SHIFT N + i ∈ L (PH c)) as Hh.
  { intros c i Hi. rewrite HH. by apply shift_in. }
  split.
  - intros c d i Hc%Ho Hd%Ho. pose proof (part_disj _ _ _ Hpart _ _ _ Hc Hd). by simplify_eq.
  - intros c d i Hc%Hh Hd%Hh. pose proof (part_disj _ _ _ Hpart _ _ _ Hc Hd). by simplify_eq.
  - intros c d i Hc%Ho Hd%Hh. pose proof (part_disj _ _ _ Hpart _ _ _ Hc Hd). by simplify_eq.
  - intros c. apply (NoDup_fmap_1 (Z.add (INDEX_SHIFT N))). rewrite <- HA.
    apply (part_nodup _ _ _ Hpart).
Qed.

(** When no core is in a call, nothing is in flight. *)
Lemma implements_idle {K} N usable (s : conc K) a :
  implements N usable s a -> (forall c, pcs s c = Idle) -> chain_rep N usable (cells s) (owned a).
Proof.
  intros (L & [HL _] & [HA HH] & Hpc) Hidle. exists L. split; [done|]. split; [|done].
  intros c. destruct (decide (0 <= c < N)) as [Hc|Hc].
  - specialize (Hpc c Hc). by rewrite Hidle in Hpc.
  - by apply (part_valid _ _ _ (linked_part _ _ _ _ HL) (PH c)).
Qed.

Lemma rep_implements {K} N usable (f : Z -> concurrent_dchain_cell K) al :
  chain_rep N usable f al ->
  implements N usable (Conc f (fun _ => Idle)) (AllocState al (fun _ => [])).
Proof.
  intros Hr. destruct (rep_linked N usable f al Hr) as (L & HL & Hh & HA).
  exists L. split; [done|]. split; [by split|]. intros d _. apply Hh.
Qed.

(** ** Order of the rings *)

(** The allocated indexes of a core stand in the order of their times, none
    of which lies after [now]. *)
Definition ring_sorted {K} (N : Z) (f : Z -> concurrent_dchain_cell K) (l : list Z) (now : Z)
    : Prop :=
  StronglySorted Z.le ((fun i => time (f (INDEX_SHIFT N + i))) <$> l) /\
  forall i, i ∈ l -> time (f (INDEX_SHIFT N + i)) <= now.

Lemma ring_sorted_snoc {K} N (f f' : Z -> concurrent_dchain_cell K) l i now now' :
  (forall j, j ∈ l -> time (f' (INDEX_SHIFT N + j)) = time (f (INDEX_SHIFT N + j))) ->
  time (f' (INDEX_SHIFT N + i)) = now' -> now <= now' ->
  ring_sorted N f l now -> ring_sorted N f' (l ++ [i]) now'.
Proof.
  intros Hk Hi Hn [Hs Hle]. split.
  - rewrite fmap_app. cbn [fmap list_fmap]. rewrite Hi.
    rewrite (list_fmap_ext _ (fun i => time (f (INDEX_SHIFT N + i))) l).
    2: { intros k j Hj. apply Hk. by eapply list_elem_of_lookup_2. }
    apply sorted_snoc; [done|]. intros y (j & -> & Hj)%list_elem_of_fmap.
    specialize (Hle j Hj). lia.
  - intros j [Hj| ->%list_elem_of_singleton]%elem_of_app; [|lia].
    rewrite Hk by done. specialize (Hle j Hj). lia.
Qed.

Lemma ring_sorted_drop {K} N (f f' : Z -> concurrent_dchain_cell K) l1 i l2 now :
  (forall j, j ∈ l1 ++ l2 -> time (f' (INDEX_SHIFT N + j)) = time (f (INDEX_SHIFT N + j))) ->
  ring_sorted N f (l1 ++ i :: l2) now -> ring_sorted N f' (l1 ++ l2) now.
Proof.
  intros Hk [Hs Hle]. split.
  - rewrite (list_fmap_ext _ (fun i => time (f (INDEX_SHIFT N + i))) (l1 ++ l2)).
    2: { intros k j Hj. apply Hk. by eapply list_elem_of_lookup_2. }
    rewrite !fmap_app in *. by eapply sorted_remove.
  - intros j Hj. rewrite Hk by done. apply Hle. rewrite elem_of_app, elem_of_cons in *. tauto.
Qed.

(** ** Properties *)

(** C4: the concurrent allocator is linearizable at its critical sections:
    initialisation terminates, and whatever way the cores' allocations, frees
    and rejuvenations interleave between their lock acquisitions, their
    results are those of an abstract allocator in which an index is taken
    only when no core owns or moves it, "no space" is answered only when
    every index is owned or being moved, and only the owner frees an index;
    no index is ever in two places, and when all calls are finished the cells
    hold exactly the abstract lists. *)
Theorem conc_dchain_linearizable {K} (N size : Z) (fuel : nat)
    (rte_memory : Z -> concurrent_dchain_cell K) (sched : list (Z * call))
    (HN : 0 < N <= size) (Hfuel : size <= Z.of_nat fuel)
    (Hok : Forall (fun co => 0 <= co.1 < N /\ call_ok (N * (size / N)) co.2) sched) :
  exists f, concurrent_dchain_allocate true true fuel rte_memory (N + 1) size = Some (Some f) /\
  let (s, rs) := sched_run N (Conc f (fun _ => Idle)) sched in
  exists a, alloc_run N (N * (size / N)) (AllocState (fun _ => []) (fun _ => [])) rs a /\
    exclusive a /\
    ((forall c, pcs s c = Idle) -> chain_rep N (N * (size / N)) (cells s) (owned a)).
Proof.
  destruct (seq_init N ltac:(lia) fuel rte_memory size) as (f & E & Hr & _); [lia..|].
  exists f. split; [done|].
  pose proof (sched_run_implements N _ ltac:(lia) sched _ _ (rep_implements N _ f _ Hr) Hok) as Hs.
  destruct (sched_run N _ sched) as [s rs]. destruct Hs as (a & Hrun & Hi).
  exists a. split; [done|]. split; [by eapply implements_exclusive|].
  intros Hidle. by apply implements_idle.
Qed.

(** Expiry frees the oldest index of the core's ring exactly when its
    time lies before [t]; otherwise it changes nothing, and then no index of
    the core has expired. *)
Theorem conc_expire_one_oldest {K} (N usable c t now : Z) (f : Z -> concurrent_dchain_cell K)
    (al : Z -> list Z) (Hc : 0 <= c < N) (Hr : chain_rep N usable f al)
    (Hs : ring_sorted N f (al c) now) :
  match concurrent_dchain_expire_one_index N f t c with
  | ((Some i, true), f') => exists l, al c = i :: l /\ time (f (INDEX_SHIFT N + i)) < t /\
      chain_rep N usable f' (<[c := l]> al) /\ ring_sorted N f' l now
  | ((_, false), f') => f' = f /\ forall i, i ∈ al c -> t <= time (f (INDEX_SHIFT N + i))
  | ((None, true), _) => False
  end.
Proof.
  assert (0 < N) as HN by lia. unfold concurrent_dchain_expire_one_index.
  rewrite (seq_oldest N usable HN f al c Hr Hc). destruct (al c) as [|i l] eqn:E; cbn [hd_error].
  { split; [done|]. by intros i ?%not_elem_of_nil. }
  unfold concurrent_dchain_impl_cell_out. rewrite (Z.add_comm i).
  destruct (Z.ltb_spec (time (f (INDEX_SHIFT N + i))) t) as [Hlt|Hge].
  - pose proof (seq_free N usable HN f al c [] i l Hr E) as Hf. unfold concurrent_dchain_free_index in Hf.
    destruct (concurrent_dchain_impl_free_index N f i c) as [b f'].
    destruct Hf as (-> & Hr' & [_ _ Ht]). exists l. do 3 (split; [done|]).
    apply (ring_sorted_drop N f f' [] i l now); [|done]. intros j _. by apply Ht.
  - split; [done|]. destruct Hs as [Hs _]. cbn in Hs. apply StronglySorted_inv in Hs as [_ Hs].
    intros j [->|Hj]%elem_of_cons; [done|]. rewrite Forall_forall in Hs.
    specialize (Hs (time (f (INDEX_SHIFT N + j)))). rewrite list_elem_of_fmap in Hs.
    specialize (Hs ltac:(by exists j)). lia.
Qed.

(** Rejuvenation succeeds exactly on the indexes of the core's ring; the
    index becomes the newest of the ring, the ring stays ordered, and its time
    becomes [now] unless it is the only one of the ring, in which case 1 is
    returned although the time is left as it was. *)
Theorem conc_rejuvenate_spec {K} (N usable c i before now : Z)
    (f : Z -> concurrent_dchain_cell K) (al : Z -> list Z) (Hc : 0 <= c < N)
    (Hi : 0 <= i < usable) (Hnow : before <= now) (Hr : chain_rep N usable f al)
    (Hs : ring_sorted N f (al c) before) :
  match concurrent_dchain_rejuvenate_index N f i now c with
  | (true, f') => exists l1 l2, al c = l1 ++ i :: l2 /\
      chain_rep N usable f' (<[c := l1 ++ l2 ++ [i]]> al) /\
      ring_sorted N f' (l1 ++ l2 ++ [i]) now /\
      time (f' (INDEX_SHIFT N + i)) =
        (if decide (al c = [i]) then time (f (INDEX_SHIFT N + i)) else now)
  | (false, f') => (i ∉ al c) /\ f' = f
  end.
Proof.
  assert (0 < N) as HN by lia.
  destruct (decide (i ∈ al c)) as [Hin|Hin].
  - apply list_elem_of_split in Hin as (l1 & l2 & E).
    pose proof (seq_rejuvenate N usable HN f al c l1 i l2 now Hr E) as Hj.
    destruct (concurrent_dchain_rejuvenate_index N f i now c) as [b f'].
    destruct Hj as (-> & Hr' & [_ _ Ht] & Hti). exists l1, l2.
    assert (al c = [i] <-> l1 ++ l2 = []) as Hone.
    { rewrite E. split; [|by intros [-> ->]%app_nil].
      intros E1%(f_equal length). rewrite length_app in E1. cbn in E1.
      apply nil_length_inv. rewrite length_app. lia. }
    do 2 (split; [done|]). pose proof (rep_nodup N usable f al c Hr) as Hnd. rewrite E in Hnd.
    split; [|rewrite Hti; repeat case_decide; tauto]. rewrite E in Hs.
    assert (ring_sorted N f (l1 ++ l2) before) as Hs' by (by eapply ring_sorted_drop).
    assert (forall j, j ∈ l1 ++ l2 -> time (f' (INDEX_SHIFT N + j)) = time (f (INDEX_SHIFT N + j)))
      as Hk.
    { intros j Hj. apply Ht. intros ->. apply NoDup_app in Hnd as (_ & Hd & Hnd).
      apply NoDup_cons in Hnd as [Hnd _]. apply elem_of_app in Hj as [Hj|Hj]; [|done].
      apply (Hd i Hj). left. }
    rewrite app_assoc. case_decide as Enil.
    + rewrite Enil in *. destruct Hs as [_ Hs]. split; [repeat constructor|].
      intros j ->%list_elem_of_singleton. rewrite Hti.
      specialize (Hs i ltac:(rewrite elem_of_app; right; left)). lia.
    + by eapply ring_sorted_snoc.
  - destruct (rep_linked N usable f al Hr) as (L & HL & Hh & HA).
    pose proof (rejuvenate_spec N usable HN f L c i now HL Hc (Hh c) Hi) as Hj. cbv zeta in Hj.
    unfold concurrent_dchain_rejuvenate_index.
    destruct (concurrent_dchain_impl_rejuvenate_index N f i c now) as [[] f'].
    + exfalso. destruct Hj as (l1 & l2 & E & _). apply Hin. apply (rep_in N L al c i HA).
      rewrite E, Z.add_comm, elem_of_app. right. left.
    + by destruct Hj as [-> _].
Qed.

(** ** Witnesses: two cores with two indexes each *)

Definition ex_memory : Z -> concurrent_dchain_cell unit := fun _ => ConcCell 0 0 0 0 tt 0.
Definition ex_cells : Z -> concurrent_dchain_cell unit :=
  match concurrent_dchain_allocate true true 4 ex_memory 3 4 with
  | Some (Some f) => f
  | _ => ex_memory
  end.
(** Core 0 takes both its indexes and one of core 1's, while core 1 allocates
    and frees. *)
Definition ex_sched : list (Z * call) :=
  [(0, CAllocate 1); (1, CAllocate 1); (0, CAllocate 1); (0, CAllocate 2); (1, CFree 3);
   (0, CAllocate 2); (0, CAllocate 3); (1, CFree 2); (0, CAllocate 3); (0, CAllocate 3);
   (1, CFree 2); (0, CRejuvenate 0 4); (1, CFree 0)].
Definition ex_cells2 : Z -> concurrent_dchain_cell unit :=
  snd (concurrent_dchain_allocate_new_index 2
    (snd (concurrent_dchain_allocate_new_index 2 ex_cells 1 0)) 2 0).

Lemma ex_conc_rep : chain_rep 2 4 ex_cells (fun _ => []).
Proof.
  destruct (seq_init (K := unit) 2 ltac:(lia) 4 ex_memory 4) as (f & E & Hr & _); [lia..|].
  unfold ex_cells. change (2 + 1) with 3 in E. by rewrite E.
Qed.

Lemma ex_conc_rep2 : chain_rep 2 4 ex_cells2 (<[0 := [0; 1]]> (fun _ => [])).
Proof.
  pose proof (seq_allocate 2 4 ltac:(lia) ex_cells (fun _ => []) 0 1 ex_conc_rep ltac:(lia)) as H1.
  assert (fst (concurrent_dchain_allocate_new_index 2 ex_cells 1 0) = Some 0) as E1
    by (vm_compute; reflexivity).
  unfold ex_cells2. destruct (concurrent_dchain_allocate_new_index 2 ex_cells 1 0) as [r1 f1] eqn:Ef.
  cbn [fst snd] in *. rewrite E1 in H1. destruct H1 as (_ & _ & Hr1 & _).
  pose proof (seq_allocate 2 4 ltac:(lia) f1 _ 0 2 Hr1 ltac:(lia)) as H2.
  assert (fst (concurrent_dchain_allocate_new_index 2 f1 2 0) = Some 1) as E2.
  { replace f1 with (snd (concurrent_dchain_allocate_new_index 2 ex_cells 1 0)) by (by rewrite Ef).
    vm_compute. reflexivity. }
  destruct (concurrent_dchain_allocate_new_index 2 f1 2 0) as [r2 f2].
  cbn [fst snd] in *. rewrite E2 in H2. destruct H2 as (_ & _ & Hr2 & _).
  eapply (chain_rep_al 2 4); [|exact Hr2]. intros c. fcases; done.
Qed.

Lemma ex_sorted2 : ring_sorted 2 ex_cells2 ((<[0 := [0; 1]]> (fun _ => [])) 0) 2.
Proof.
  split.
  - vm_compute. repeat constructor; discriminate.
  - intros i Hi. change ((<[0 := [0; 1]]> (fun _ : Z => [] : list Z)) 0) with [0; 1] in Hi.
    apply elem_of_cons in Hi as [->|[->|Hi%not_elem_of_nil]%elem_of_cons]; [| |done];
      vm_compute; discriminate.
Qed.

Lemma conc_dchain_linearizable_witness :
  (sched_run 2 (Conc ex_cells (fun _ => Idle)) ex_sched).2 =
    [(0, RAllocated 0); (1, RAllocated 2); (0, RAllocated 1); (0, RAllocated 3);
     (1, RFreed 2 true); (0, RRejuvenated 0 true); (1, RFreed 0 false)] /\
  exists f, concurrent_dchain_allocate true true 4 ex_memory (2 + 1) 4 = Some (Some f) /\
  let (s, rs) := sched_run 2 (Conc f (fun _ => Idle)) ex_sched in
  exists a, alloc_run 2 (2 * (4 / 2)) (AllocState (fun _ => []) (fun _ => [])) rs a /\
    exclusive a /\ ((forall c, pcs s c = Idle) -> chain_rep 2 (2 * (4 / 2)) (cells s) (owned a)).
Proof.
  split; [vm_compute; reflexivity|].
  apply (conc_dchain_linearizable 2 4 4 ex_memory ex_sched); [lia|lia|].
  change (2 * (4 / 2)) with 4. unfold ex_sched.
  repeat (apply Forall_cons_2; [cbn; lia|]). apply Forall_nil_2.
Defined.

Lemma conc_expire_one_oldest_witness :
  fst (concurrent_dchain_expire_one_index 2 ex_cells2 2 0) = (Some 0, true) /\
  match concurrent_dchain_expire_one_index 2 ex_cells2 2 0 with
  | ((Some i, true), f') => exists l, (<[0 := [0; 1]]> (fun _ => [])) 0 = i :: l /\
      time (ex_cells2 (INDEX_SHIFT 2 + i)) < 2 /\
      chain_rep 2 4 f' (<[0 := l]> (<[0 := [0; 1]]> (fun _ => []))) /\ ring_sorted 2 f' l 2
  | ((_, false), f') => f' = ex_cells2 /\
      forall i, i ∈ (<[0 := [0; 1]]> (fun _ => [])) 0 -> 2 <= time (ex_cells2 (INDEX_SHIFT 2 + i))
  | ((None, true), _) => False
  end.
Proof.
  split; [vm_compute; reflexivity|].
  apply (conc_expire_one_oldest 2 4 0 2 2 ex_cells2 (<[0 := [0; 1]]> (fun _ => [])));
    [lia|exact ex_conc_rep2|exact ex_sorted2].
Defined.

Lemma conc_rejuvenate_spec_witness :
  fst (concurrent_dchain_rejuvenate_index 2 ex_cells2 0 7 0) = true /\
  match concurrent_dchain_rejuvenate_index 2 ex_cells2 0 7 0 with
  | (true, f') => exists l1 l2, (<[0 := [0; 1]]> (fun _ => [])) 0 = l1 ++ 0 :: l2 /\
      chain_rep 2 4 f' (<[0 := l1 ++ l2 ++ [0]]> (<[0 := [0; 1]]> (fun _ => []))) /\
      ring_sorted 2 f' (l1 ++ l2 ++ [0]) 7 /\
      time (f' (INDEX_SHIFT 2 + 0)) =
        (if decide ((<[0 := [0; 1]]> (fun _ => [])) 0 = [0])
         then time (ex_cells2 (INDEX_SHIFT 2 + 0)) else 7)
  | (false, f') => (0 ∉ (<[0 := [0; 1]]> (fun _ => [])) 0) /\ f' = ex_cells2
  end.
Proof.
  split; [vm_compute; reflexivity|].
  apply (conc_rejuvenate_spec 2 4 0 0 2 7 ex_cells2 (<[0 := [0; 1]]> (fun _ => [])));
    [lia|lia|lia|exact ex_conc_rep2|exact ex_sorted2].
Defined.
