(* ===== verification/ConcMap.v ===== *)
(** * The packet-set map

    src/src/concurrent-map.c.  A hash table with chaining whose entries are
    the cells of the index allocator: [id] is the key, the cell's index the
    value and [map_chain_next] the link of the bucket's chain.  Every
    partition (core) has its own run of buckets.  A chain is walked without
    bound in the code; [fuel] bounds the walks here, and the number of cells
    is enough. *)

From stdpp Require Import gmap.
From S2P Require Import Prelude Links ConcDchain.
Open Scope Z_scope.

(** The fields that operations use; the callbacks and the cells are
    parameters of the operations. *)
Record ConcurrentMap := CMap {
  buckets : Z -> Z;
  num_buckets_per_partition_log_two : Z;
  num_buckets_per_partition : Z
}.

Definition set_buckets (b : Z -> Z) (map : ConcurrentMap) : ConcurrentMap :=
  CMap b (num_buckets_per_partition_log_two map) (num_buckets_per_partition map).

(** The compiler's count of trailing zeros. *)
Definition builtin_ctz (x : Z) : Z := Z.log2 (Z.land x (- x)).

(** ** Operations *)

Definition rehash (x : Z) : Z := x.

Definition concurrent_map_allocate (malloc_ok rte_malloc_ok : bool) (rte_memory : Z -> Z)
    (num_pkt_set_partitions num_buckets_per_partition : Z) : option ConcurrentMap :=
  if negb malloc_ok then None
  else
    let num_buckets := i32 (num_buckets_per_partition * num_pkt_set_partitions) in
    if negb rte_malloc_ok then None
    else
      let buckets :=
        loop_range 0 (Z.to_nat (u32 num_buckets)) (fun i buckets => <[i := -1]> buckets)
          rte_memory in
      Some (CMap buckets (builtin_ctz num_buckets_per_partition) num_buckets_per_partition).

Section operations.
Context {K : Type} (NUM_FREE_LISTS : Z) (keys_eq : K -> K -> bool) (khash : K -> Z).
Implicit Types cells : Z -> concurrent_dchain_cell K.
Let cell_out : Z -> Z := concurrent_dchain_cell_out NUM_FREE_LISTS.

Definition bucket_of (map : ConcurrentMap) (key : K) (pkt_set_partition : Z) : Z :=
  let hash := rehash (khash key) in
  u32 (Z.land hash (u32 (num_buckets_per_partition map - 1)) +
       u32 (Z.shiftl pkt_set_partition (num_buckets_per_partition_log_two map))).

(** [Some (Some i)]: return 1 with *index_out = i. *)
Fixpoint get_loop (fuel : nat) cells (key : K) (index : Z) : option (option Z) :=
  if index =? -1 then Some None
  else match fuel with
  | O => None
  | S fuel =>
      let map_entry := cells (cell_out index) in
      if keys_eq key (id map_entry) then Some (Some index)
      else get_loop fuel cells key (map_chain_next map_entry)
  end.

Definition concurrent_map_get (fuel : nat) cells (map : ConcurrentMap) (key : K)
    (pkt_set_partition : Z) : option (option Z) :=
  get_loop fuel cells key (buckets map (bucket_of map key pkt_set_partition)).

(** while (map_entry->map_chain_next != -1) ...; the last entry. *)
Fixpoint tail_loop (fuel : nat) cells (map_entry : Z) : option Z :=
  if map_chain_next (cells map_entry) =? -1 then Some map_entry
  else match fuel with
  | O => None
  | S fuel => tail_loop fuel cells (cell_out (map_chain_next (cells map_entry)))
  end.

Definition concurrent_map_put (fuel : nat) cells (map : ConcurrentMap) (key : K)
    (pkt_set_partition index : Z)
    : option (ConcurrentMap * (Z -> concurrent_dchain_cell K)) :=
  let bucket_id := bucket_of map key pkt_set_partition in
  let new_map_entry := cell_out index in
  if buckets map bucket_id =? -1 then
    Some (set_buckets (<[bucket_id := index]> (buckets map)) map,
          <[new_map_entry := set_id key (cells new_map_entry)]> cells)
  else match tail_loop fuel cells (cell_out (buckets map bucket_id)) with
  | None => None
  | Some map_entry =>
      let cells := <[map_entry := set_map_chain_next index (cells map_entry)]> cells in
      Some (map, <[new_map_entry := set_id key (cells new_map_entry)]> cells)
  end.

(** The do-while loop: the entry with the key and the one before it. *)
Fixpoint erase_loop (fuel : nat) cells (key : K) (map_entry : Z) : option (Z * Z) :=
  match fuel with
  | O => None
  | S fuel =>
      let prev_map_entry := map_entry in
      let map_entry := cell_out (map_chain_next (cells prev_map_entry)) in
      if keys_eq key (id (cells map_entry)) then Some (prev_map_entry, map_entry)
      else erase_loop fuel cells key map_entry
  end.

Definition concurrent_map_erase (fuel : nat) cells (map : ConcurrentMap) (key : K)
    (pkt_set_partition : Z) : option (ConcurrentMap * (Z -> concurrent_dchain_cell K)) :=
  let bucket_id := bucket_of map key pkt_set_partition in
  let map_entry := cell_out (buckets map bucket_id) in
  if keys_eq key (id (cells map_entry)) then
    Some (set_buckets (<[bucket_id := map_chain_next (cells map_entry)]> (buckets map)) map,
          <[map_entry := set_map_chain_next (-1) (cells map_entry)]> cells)
  else match erase_loop fuel cells key map_entry with
  | None => None
  | Some (prev_map_entry, map_entry) =>
      let cells := <[prev_map_entry :=
        set_map_chain_next (map_chain_next (cells map_entry)) (cells prev_map_entry)]> cells in
      Some (map, <[map_entry := set_map_chain_next (-1) (cells map_entry)]> cells)
  end.
End operations.

(** ** Chains *)

Section chains.
Context {K : Type} (N : Z).
Implicit Types f : Z -> concurrent_dchain_cell K.
Let out : Z -> Z := concurrent_dchain_cell_out N.

Lemma out_inj x y : out x = out y -> x = y.
Proof. unfold out, concurrent_dchain_cell_out, concurrent_dchain_impl_cell_out. lia. Qed.

(** From index [a] the links visit [l] and then stop at [b]. *)
Fixpoint seg f (a : Z) (l : list Z) (b : Z) : Prop :=
  match l with
  | [] => a = b
  | x :: l' => a = x /\ 0 <= x /\ seg f (map_chain_next (f (out x))) l' b
  end.

Lemma seg_ext f f' l b : forall a,
  (forall x, x ∈ l -> map_chain_next (f' (out x)) = map_chain_next (f (out x))) ->
  seg f a l b -> seg f' a l b.
Proof.
  induction l as [|x l IH]; intros a E; [done|]. intros (-> & Hx & Hc). split; [done|].
  split; [done|]. rewrite E by left. apply IH; [|done]. intros y Hy. apply E. by right.
Qed.

Lemma seg_app f l1 l2 b : forall a,
  seg f a (l1 ++ l2) b <-> exists c, seg f a l1 c /\ seg f c l2 b.
Proof.
  induction l1 as [|x l1 IH]; intros a; cbn [seg app].
  - split; [by exists a|by intros (c & -> & ?)].
  - rewrite IH. naive_solver.
Qed.

Lemma seg_one f x b : seg f x [x] b <-> 0 <= x /\ map_chain_next (f (out x)) = b.
Proof. cbn. tauto. Qed.

Lemma tail_loop_spec f l x : forall fuel a,
  seg f a (l ++ [x]) (-1) -> (length l <= fuel)%nat ->
  tail_loop N fuel f (out a) = Some (out x).
Proof.
  induction l as [|y l IH]; intros fuel a Hs Hf.
  - destruct Hs as (-> & Hx & Hs). cbn in Hs. destruct fuel; cbn; by rewrite Hs.
  - destruct Hs as (-> & Hy & Hs). destruct fuel as [|fuel]; cbn in Hf; [lia|].
    cbn [tail_loop]. fold out. pose proof Hs as Hs'.
    rewrite (proj2 (Z.eqb_neq _ _)); [apply IH; [done|lia]|].
    destruct l; cbn in Hs'; lia.
Qed.

(** Linking a new entry behind the last one. *)
Lemma seg_extend f a l x i :
  NoDup (l ++ [x]) -> i ∉ l ++ [x] -> 0 <= i -> map_chain_next (f (out i)) = -1 ->
  seg f a (l ++ [x]) (-1) ->
  seg (<[out x := set_map_chain_next i (f (out x))]> f) a ((l ++ [x]) ++ [i]) (-1).
Proof.
  intros Hnd Hi Hi0 Hmi Hs. apply seg_app. exists i. split.
  - apply seg_app in Hs as (c & Hs & Hc). apply seg_app. exists c. split.
    + eapply seg_ext; [|exact Hs]. intros y Hy. rewrite fn_lookup_insert_ne; [done|].
      intros E%out_inj. subst. apply NoDup_app in Hnd as (_ & Hd & _). apply (Hd y Hy). left.
    + destruct Hc as (-> & Hx & _). cbn. rewrite fn_lookup_insert. done.
  - cbn. split; [done|]. split; [done|]. rewrite fn_lookup_insert_ne; [done|].
    intros E%out_inj. subst. apply Hi. rewrite elem_of_app. right. left.
Qed.

(** Unlinking the entry [x] behind [lastof y l1]. *)
Lemma seg_unlink f a y l1 x l2 :
  NoDup (y :: l1 ++ x :: l2) -> seg f a (y :: l1 ++ x :: l2) (-1) ->
  seg (<[out (lastof y l1) := set_map_chain_next (map_chain_next (f (out x)))
          (f (out (lastof y l1)))]> f) a (y :: l1 ++ l2) (-1).
Proof.
  intros Hnd Hs. rewrite app_comm_cons in Hs, Hnd |- *.
  apply seg_app in Hs as (c & Hs1 & -> & Hx & Hs2). set (p := lastof y l1).
  assert (y :: l1 = removelast (y :: l1) ++ [p]) as El.
  { unfold p, lastof. destruct l1 as [|z l1 _] using rev_ind; [done|].
    rewrite last_snoc, app_comm_cons, removelast_last. done. }
  apply NoDup_app in Hnd as (Hn1 & Hd & Hn2).
  assert (p ∈ y :: l1) as Hp by apply lastof_in.
  apply seg_app. exists (map_chain_next (f (out x))). split.
  - rewrite El in Hs1, Hn1 |- *. apply seg_app in Hs1 as (d & Hs & -> & Hp0 & _).
    apply seg_app. exists p. split.
    + eapply seg_ext; [|exact Hs]. intros z Hz. rewrite fn_lookup_insert_ne; [done|].
      intros E%out_inj. subst z. apply NoDup_app in Hn1 as (_ & Hd1 & _). apply (Hd1 p Hz). left.
    + cbn. rewrite fn_lookup_insert. done.
  - eapply seg_ext; [|exact Hs2]. intros z Hz. rewrite fn_lookup_insert_ne; [done|].
    intros E%out_inj. subst z. apply (Hd p Hp). by right.
Qed.

(** Clearing the link of an entry that is on no chain any more. *)
Lemma seg_clear f a l b x v :
  x ∉ l -> seg f a l b -> seg (<[out x := set_map_chain_next v (f (out x))]> f) a l b.
Proof.
  intros Hx. apply seg_ext. intros y Hy. rewrite fn_lookup_insert_ne; [done|].
  intros E%out_inj. congruence.
Qed.
End chains.

Section walks.
Context {K : Type} (N : Z) (keys_eq : K -> K -> bool).
Hypothesis (Heq : forall k k', keys_eq k k' = true <-> k = k').
Implicit Types f : Z -> concurrent_dchain_cell K.
Let out : Z -> Z := concurrent_dchain_cell_out N.

Lemma keys_eq_false k k' : k <> k' -> keys_eq k k' = false.
Proof. intros Hk. destruct (keys_eq k k') eqn:E; [by apply Heq in E|done]. Qed.

Lemma keys_eq_true k : keys_eq k k = true.
Proof. by apply Heq. Qed.

(** A walk finds the first entry with the key. *)
Lemma get_loop_spec f key l : forall fuel a,
  seg N f a l (-1) -> (length l <= fuel)%nat ->
  exists r, get_loop N keys_eq fuel f key a = Some r /\
    match r with
    | Some x => x ∈ l /\ id (f (out x)) = key
    | None => forall x, x ∈ l -> id (f (out x)) <> key
    end.
Proof.
  induction l as [|x l IH]; intros fuel a Hs Hf.
  - exists None. cbn in Hs. subst. destruct fuel; (split; [done|]); by intros x ?%not_elem_of_nil.
  - destruct Hs as (-> & Hx & Hs). fold out in Hs. destruct fuel as [|fuel]; cbn in Hf; [lia|].
    cbn [get_loop]. rewrite (proj2 (Z.eqb_neq _ _)) by lia. fold out.
    destruct (keys_eq key (id (f (out x)))) eqn:E.
    + exists (Some x). split; [done|]. split; [left|]. by apply Heq in E.
    + destruct (IH fuel _ Hs ltac:(lia)) as (r & -> & Hr). exists r. split; [done|].
      destruct r as [y|]; [split; [right|]; by apply Hr|].
      intros y [->|Hy]%elem_of_cons; [|by apply Hr]. intros <-.
      by rewrite keys_eq_true in E.
Qed.

Lemma erase_loop_spec f key l1 x l2 : forall fuel y,
  seg N f y (y :: l1 ++ x :: l2) (-1) -> (length l1 < fuel)%nat ->
  (forall z, z ∈ l1 -> id (f (out z)) <> key) -> id (f (out x)) = key ->
  erase_loop N keys_eq fuel f key (out y) = Some (out (lastof y l1), out x).
Proof.
  induction l1 as [|z l1 IH]; intros fuel y (_ & Hy & Hs) Hf Hn Hx;
    (destruct fuel as [|fuel]; [cbn in Hf; lia|]); cbn [erase_loop]; fold out in Hs |- *.
  - destruct Hs as (-> & _ & _). rewrite Hx, keys_eq_true. done.
  - pose proof Hs as Hs'. destruct Hs as (E & Hz & Hs). rewrite E in *.
    rewrite keys_eq_false by (apply not_eq_sym, Hn; left).
    rewrite (IH fuel z); [| |cbn in Hf; lia|intros; apply Hn; by right|done].
    + do 3 f_equal. unfold lastof. rewrite last_cons. by destruct (last l1).
    + exact Hs'.
Qed.

End walks.

(** ** The represented map *)

Section map.
Context {K : Type} `{Countable K} (N : Z) (keys_eq : K -> K -> bool) (khash : K -> Z).
(** [parts] partitions of 2^[lg] buckets, and the cells [0, cap). *)
Variables (parts lg cap : Z).
Hypotheses (Heq : forall k k', keys_eq k k' = true <-> k = k')
  (Hlg : 0 <= lg) (Hsize : parts * 2 ^ lg < 2 ^ 31).
Implicit Types f : Z -> concurrent_dchain_cell K.
Let out : Z -> Z := concurrent_dchain_cell_out N.

Definition bucket (p : Z) (k : K) : Z := khash k mod 2 ^ lg + p * 2 ^ lg.

(** [ch b]: the indexes on the chain of bucket [b]. *)
Record cmap_chains f (map : ConcurrentMap) (ch : Z -> list Z) (m : gmap (Z * K) Z) : Prop := {
  cm_log : num_buckets_per_partition_log_two map = lg;
  cm_num : num_buckets_per_partition map = 2 ^ lg;
  cm_seg b : 0 <= b < parts * 2 ^ lg -> seg N f (buckets map b) (ch b) (-1);
  cm_range b x : x ∈ ch b -> 0 <= x < cap;
  cm_disj b b' x : x ∈ ch b -> x ∈ ch b' -> b = b';
  cm_nodup b : NoDup (ch b);
  cm_home b x : x ∈ ch b -> exists p, 0 <= p < parts /\ bucket p (id (f (out x))) = b;
  cm_unused x : 0 <= x < cap -> (forall b, x ∉ ch b) -> map_chain_next (f (out x)) = -1;
  cm_lookup p k x : m !! (p, k) = Some x <->
    0 <= p < parts /\ x ∈ ch (bucket p k) /\ id (f (out x)) = k
}.

(** The cells and buckets hold the finite map [m] from partitions and keys
    to indexes. *)
Definition cmap_rep f (map : ConcurrentMap) (m : gmap (Z * K) Z) : Prop :=
  exists ch, cmap_chains f map ch m.

Lemma bucket_of_eq f map ch m p k :
  cmap_chains f map ch m -> 0 <= p < parts -> bucket_of khash map k p = bucket p k.
Proof.
  intros Hm Hp. assert (0 < 2 ^ lg) as Hb by (apply Z.pow_pos_nonneg; lia).
  unfold bucket_of, rehash. rewrite (cm_log _ _ _ _ Hm), (cm_num _ _ _ _ Hm).
  assert (2 ^ lg <= 2 ^ 31) by nia.
  pose proof (Z.mod_pos_bound (khash k) (2 ^ lg) Hb). rewrite Z.shiftl_mul_pow2 by done.
  rewrite (u32_id (2 ^ lg - 1)) by lia. rewrite land_mask by done.
  assert (0 <= p * 2 ^ lg <= (parts - 1) * 2 ^ lg) by nia.
  rewrite (u32_id (p * 2 ^ lg)) by lia. apply u32_id. unfold bucket. lia.
Qed.

Lemma bucket_range p k : 0 <= p < parts -> 0 <= bucket p k < parts * 2 ^ lg.
Proof.
  intros Hp. assert (0 < 2 ^ lg) as Hb by (apply Z.pow_pos_nonneg; lia).
  pose proof (Z.mod_pos_bound (khash k) (2 ^ lg) Hb). unfold bucket. nia.
Qed.

(** The buckets of different partitions are different. *)
Lemma bucket_part p p' k k' : bucket p k = bucket p' k' -> p = p'.
Proof.
  intros E. assert (0 < 2 ^ lg) as Hb by (apply Z.pow_pos_nonneg; lia). unfold bucket in E.
  pose proof (Z.mod_pos_bound (khash k) (2 ^ lg) Hb).
  pose proof (Z.mod_pos_bound (khash k') (2 ^ lg) Hb). nia.
Qed.

Lemma chain_length f map ch m b fuel :
  cmap_chains f map ch m -> cap <= Z.of_nat fuel -> (length (ch b) <= fuel)%nat.
Proof.
  intros Hm Hf. assert (length (ch b) <= length (seqZ 0 cap))%nat as Hl.
  { apply submseteq_length, NoDup_submseteq; [apply (cm_nodup _ _ _ _ Hm)|].
    intros x Hx. apply elem_of_seqZ. pose proof (cm_range _ _ _ _ Hm b x Hx). lia. }
  rewrite length_seqZ in Hl. lia.
Qed.

Lemma cmap_get f map m p k fuel :
  cmap_rep f map m -> 0 <= p < parts -> cap <= Z.of_nat fuel ->
  concurrent_map_get N keys_eq khash fuel f map k p = Some (m !! (p, k)).
Proof.
  intros [ch Hm] Hp Hf. unfold concurrent_map_get. rewrite (bucket_of_eq f map ch m) by done.
  pose proof (bucket_range p k Hp) as Hb.
  destruct (get_loop_spec N keys_eq Heq f k (ch (bucket p k)) fuel (buckets map (bucket p k)))
    as (r & -> & Hr); [by apply (cm_seg _ _ _ _ Hm)|by eapply chain_length|].
  f_equal. destruct r as [x|].
  - symmetry. apply (cm_lookup _ _ _ _ Hm). destruct Hr. by split.
  - destruct (m !! (p, k)) as [x|] eqn:E; [|done]. apply (cm_lookup _ _ _ _ Hm) in E.
    exfalso. by apply (Hr x); apply E.
Qed.

(** Rewriting the id of a cell that is on no chain, or a link, keeps what the
    other cells hold. *)
Lemma out_ne x y : x <> y -> out x <> out y.
Proof. intros Hn E. by apply Hn, (out_inj N). Qed.

Lemma bucket_nil f map ch m b :
  cmap_chains f map ch m -> 0 <= b < parts * 2 ^ lg -> buckets map b = -1 <-> ch b = [].
Proof.
  intros Hm Hb. pose proof (cm_seg _ _ _ _ Hm b Hb) as Hs. destruct (ch b) as [|x l]; cbn in Hs.
  - tauto.
  - split; [lia|done].
Qed.

(** How the chains change when the entry [x] joins the bucket [b] with the
    key [k]: the rest of the invariant follows. *)
Lemma chains_put f f' map map' ch m p k x :
  cmap_chains f map ch m -> 0 <= p < parts -> 0 <= x < cap -> (forall b, x ∉ ch b) ->
  m !! (p, k) = None ->
  num_buckets_per_partition_log_two map' = lg -> num_buckets_per_partition map' = 2 ^ lg ->
  (forall b, b <> bucket p k -> buckets map' b = buckets map b) ->
  (forall y, id (f' (out y)) = if decide (y = x) then k else id (f (out y))) ->
  (forall y, y ∉ ch (bucket p k) -> map_chain_next (f' (out y)) = map_chain_next (f (out y))) ->
  seg N f' (buckets map' (bucket p k)) (ch (bucket p k) ++ [x]) (-1) ->
  cmap_chains f' map' (<[bucket p k := ch (bucket p k) ++ [x]]> ch) (<[(p, k) := x]> m).
Proof.
  intros Hm Hp Hx Hfree Hnone Hlog Hnum Hbk Hid Hch Hseg. set (b0 := bucket p k) in *.
  assert (forall b y, y ∈ (<[b0 := ch b0 ++ [x]]> ch) b <-> y ∈ ch b \/ b = b0 /\ y = x) as Hin.
  { intros b y. rewrite fn_insert_dec. case_decide; [subst|naive_solver].
    rewrite elem_of_app, list_elem_of_singleton. naive_solver. }
  split; [done|done| | | | | | |].
  - intros b Hb. rewrite fn_insert_dec. case_decide as Eb; [by subst|]. rewrite Hbk by done.
    eapply seg_ext; [|by apply (cm_seg _ _ _ _ Hm)]. intros y Hy. apply Hch.
    intros Hy'. by apply Eb, (cm_disj _ _ _ _ Hm _ _ y).
  - intros b y [Hy|[-> ->]]%Hin; [by apply (cm_range _ _ _ _ Hm b)|done].
  - intros b b' y [Hy|[-> ->]]%Hin [Hy'|[-> E]]%Hin; subst; try done.
    + by apply (cm_disj _ _ _ _ Hm _ _ y).
    + by apply Hfree in Hy.
    + by apply Hfree in Hy'.
  - intros b. rewrite fn_insert_dec. case_decide; [|apply (cm_nodup _ _ _ _ Hm)].
    apply NoDup_app. split; [apply (cm_nodup _ _ _ _ Hm)|]. split; [|apply NoDup_singleton].
    intros y Hy ->%list_elem_of_singleton. by apply Hfree in Hy.
  - intros b y [Hy|[-> ->]]%Hin; rewrite Hid.
    + rewrite decide_False by (intros ->; by apply Hfree in Hy). by apply (cm_home _ _ _ _ Hm).
    + rewrite decide_True by done. by exists p.
  - intros y Hy Hn. rewrite Hch; [apply (cm_unused _ _ _ _ Hm); [done|]|];
      intros; intros Hyb; eapply Hn, Hin; eauto.
  - intros p' k' y. rewrite Hin, Hid. destruct (decide ((p, k) = (p', k'))) as [[= <- <-]|Hne].
    + rewrite lookup_insert_eq. fold b0. split; [intros [= <-]; rewrite decide_True by done; auto|].
      intros (_ & [Hy|[_ ->]] & Hk); [|done]. exfalso.
      rewrite decide_False in Hk by (intros ->; by apply Hfree in Hy).
      by rewrite (proj2 (cm_lookup _ _ _ _ Hm p k y)) in Hnone.
    + rewrite lookup_insert_ne by done. rewrite (cm_lookup _ _ _ _ Hm). split.
      * intros (? & Hy & ?). rewrite decide_False by (intros ->; by apply Hfree in Hy). auto.
      * intros (? & [Hy|[Eb ->]] & Hk).
        -- rewrite decide_False in Hk by (intros ->; by apply Hfree in Hy). auto.
        -- rewrite decide_True in Hk by done. subst k'. by apply bucket_part in Eb as ->.
Qed.

(** What an operation of the map leaves of a cell. *)
Record links_kept f f' : Prop := {
  lk_links y : same_links (f y) (f' y);
  lk_time y : time (f' y) = time (f y)
}.

Lemma links_kept_insert f a c :
  same_links (f a) c -> time c = time (f a) -> links_kept f (<[a := c]> f).
Proof. intros Hl Ht. split; intros y; rewrite fn_insert_dec; by case_decide; subst. Qed.

Lemma links_kept_trans f1 f2 f3 : links_kept f1 f2 -> links_kept f2 f3 -> links_kept f1 f3.
Proof.
  intros [H1 T1] [H2 T2]. split; intros y; [|by rewrite T2].
  destruct (H1 y) as (? & ? & ?), (H2 y) as (? & ? & ?). repeat split; congruence.
Qed.

Lemma cmap_put f map m p k x fuel :
  cmap_rep f map m -> 0 <= p < parts -> 0 <= x < cap -> (forall q k', m !! (q, k') <> Some x) ->
  m !! (p, k) = None -> cap <= Z.of_nat fuel ->
  exists map' f', concurrent_map_put N khash fuel f map k p x = Some (map', f') /\
    cmap_rep f' map' (<[(p, k) := x]> m) /\ links_kept f f' /\
    forall y, y <> out x -> id (f' y) = id (f y).
Proof.
  intros [ch Hm] Hp Hx Hfree Hnone Hf. unfold concurrent_map_put.
  rewrite (bucket_of_eq f map ch m) by done. fold out. set (b := bucket p k).
  pose proof (bucket_range p k Hp) as Hb. fold b in Hb.
  assert (forall b', x ∉ ch b') as Hfree'.
  { intros b' Hxb. destruct (cm_home _ _ _ _ Hm b' x Hxb) as (q & Hq & <-).
    apply (Hfree q (id (f (out x)))). by apply (cm_lookup _ _ _ _ Hm). }
  pose proof (cm_unused _ _ _ _ Hm x Hx Hfree') as Hmx.
  pose proof (cm_seg _ _ _ _ Hm b Hb) as Hs.
  destruct (Z.eqb_spec (buckets map b) (-1)) as [E|E].
  - do 2 eexists. split; [done|]. apply (bucket_nil f map ch m b Hm Hb) in E. split; [|split].
    + eexists. apply (chains_put f _ map); try done; try apply Hm.
      * intros b' Hb'. cbn. by rewrite fn_lookup_insert_ne by done.
      * intros y. rewrite fn_insert_dec. destruct (decide (y = x)) as [->|].
        -- by rewrite decide_True.
        -- by rewrite decide_False by (by apply out_ne, not_eq_sym).
      * intros y _. rewrite fn_insert_dec. by case_decide as Ey; [apply (out_inj N) in Ey; subst|].
      * fold b. rewrite E. cbn. fold out. rewrite !fn_lookup_insert. split; [done|].
        split; [lia|exact Hmx].
    + by apply links_kept_insert.
    + intros y Hy. by rewrite fn_lookup_insert_ne by done.
  - rewrite (bucket_nil f map ch m b Hm Hb) in E.
    destruct (ch b) as [|w l' _] eqn:Ech using rev_ind; [done|]. clear E.
    rewrite (tail_loop_spec N f l' w fuel) by
      (first [done | pose proof (chain_length f map ch m b fuel Hm Hf) as Hl;
                     rewrite Ech, length_app in Hl; cbn in Hl; lia]).
    fold out. pose proof (cm_nodup _ _ _ _ Hm b) as Hnd. pose proof (Hfree' b) as Hxb.
    rewrite Ech in Hnd, Hxb.
    assert (w <> x) as Hwx by (intros ->; apply Hxb; rewrite elem_of_app; right; left).
    set (f1 := <[out w := set_map_chain_next x (f (out w))]> f).
    assert (f1 (out x) = f (out x)) as Ex by (unfold f1; by rewrite fn_lookup_insert_ne by (by apply out_ne)).
    do 2 eexists. split; [done|]. split; [|split].
    + eexists. apply (chains_put f _ map); try done; try apply Hm; fold b; rewrite ?Ech.
      * intros y. rewrite fn_insert_dec. destruct (decide (y = x)) as [->|].
        -- by rewrite decide_True.
        -- rewrite decide_False by (by apply out_ne, not_eq_sym). unfold f1.
           rewrite fn_insert_dec. by case_decide as Ey; [rewrite <- Ey|].
      * intros y Hy. rewrite fn_insert_dec. case_decide as Ey.
        -- apply (out_inj N) in Ey. subst y. cbn. by rewrite Ex.
        -- unfold f1. rewrite fn_insert_dec. case_decide as Ew; [|done].
           apply (out_inj N) in Ew. subst y. exfalso. apply Hy. rewrite elem_of_app. right. left.
      * pose proof (seg_extend N f (buckets map b) l' w x Hnd Hxb ltac:(lia) Hmx Hs) as Hs'.
        fold out f1 in Hs'. eapply seg_ext; [|exact Hs']. intros y _. fold out.
        rewrite fn_insert_dec. by case_decide as Ey; [rewrite <- Ey|].
    + apply (links_kept_trans f f1); by apply links_kept_insert.
    + intros y Hy. rewrite fn_lookup_insert_ne by done. unfold f1. rewrite fn_insert_dec.
      by case_decide as Ey; [rewrite <- Ey|].
Qed.

Lemma id_relink f a v y : id (<[a := set_map_chain_next v (f a)]> f y) = id (f y).
Proof. rewrite fn_insert_dec. case_decide as E; [by rewrite <- E|done]. Qed.

(** How the chains change when the entry [x] with the key [k] leaves. *)
Lemma chains_erase f f' map map' ch m p k x l1 l2 :
  cmap_chains f map ch m -> ch (bucket p k) = l1 ++ x :: l2 -> id (f (out x)) = k ->
  0 <= p < parts ->
  num_buckets_per_partition_log_two map' = lg -> num_buckets_per_partition map' = 2 ^ lg ->
  (forall b, b <> bucket p k -> buckets map' b = buckets map b) ->
  (forall y, id (f' y) = id (f y)) -> map_chain_next (f' (out x)) = -1 ->
  (forall y, y ∉ l1 ++ x :: l2 -> map_chain_next (f' (out y)) = map_chain_next (f (out y))) ->
  seg N f' (buckets map' (bucket p k)) (l1 ++ l2) (-1) ->
  cmap_chains f' map' (<[bucket p k := l1 ++ l2]> ch) (delete (p, k) m).
Proof.
  intros Hm E Hk Hp Hlog Hnum Hbk Hid Hx Hch Hseg. set (b0 := bucket p k) in *.
  pose proof (cm_nodup _ _ _ _ Hm b0) as Hnd. rewrite E in Hnd.
  assert (x ∈ ch b0) as Hxb by (rewrite E, elem_of_app; right; left).
  assert (forall b y, y ∈ (<[b0 := l1 ++ l2]> ch) b <-> y ∈ ch b /\ y <> x) as Hin.
  { intros b y. rewrite fn_insert_dec. case_decide as Eb.
    - subst b. rewrite E, !elem_of_app, elem_of_cons. apply NoDup_app in Hnd as (_ & Hd & Hnd).
      apply NoDup_cons in Hnd as [Hx2 _]. specialize (Hd x). rewrite elem_of_cons in Hd.
      split; [|naive_solver]. intros [Hy|Hy]; (split; [tauto|intros ->]); [by apply Hd; auto|done].
    - split; [|tauto]. intros Hy. split; [done|]. intros ->.
      by apply Eb, (cm_disj _ _ _ _ Hm _ _ x). }
  split; [done|done| | | | | | |].
  - intros b Hb. rewrite fn_insert_dec. case_decide as Eb; [by subst|]. rewrite Hbk by done.
    eapply seg_ext; [|by apply (cm_seg _ _ _ _ Hm)]. intros y Hy. apply Hch. rewrite <- E.
    intros Hy'. by apply Eb, (cm_disj _ _ _ _ Hm _ _ y).
  - intros b y [Hy _]%Hin. by apply (cm_range _ _ _ _ Hm b).
  - intros b b' y [Hy _]%Hin [Hy' _]%Hin. by apply (cm_disj _ _ _ _ Hm _ _ y).
  - intros b. rewrite fn_insert_dec. case_decide; [|apply (cm_nodup _ _ _ _ Hm)].
    rewrite NoDup_app, NoDup_cons in Hnd. apply NoDup_app. set_solver.
  - intros b y [Hy _]%Hin. rewrite Hid. by apply (cm_home _ _ _ _ Hm).
  - intros y Hy Hn. destruct (decide (y = x)) as [->|Hyx]; [done|].
    assert (forall b, y ∉ ch b) as Hn' by (intros b Hyb; by apply (Hn b), Hin).
    rewrite Hch by (rewrite <- E; apply Hn'). by apply (cm_unused _ _ _ _ Hm).
  - intros p' k' y. rewrite Hin, Hid. destruct (decide ((p, k) = (p', k'))) as [[= <- <-]|Hne].
    + rewrite lookup_delete_eq. split; [done|]. intros (_ & [Hy Hyx] & Hky). exfalso.
      apply Hyx. assert (m !! (p, k) = Some y) as E1 by (by apply (cm_lookup _ _ _ _ Hm)).
      assert (m !! (p, k) = Some x) as E2 by (by apply (cm_lookup _ _ _ _ Hm)). congruence.
    + rewrite lookup_delete_ne by done. rewrite (cm_lookup _ _ _ _ Hm).
      split; [|tauto]. intros (? & Hy & Hky). split; [done|]. split; [|done]. split; [done|].
      intros ->. subst k'. rewrite Hk in Hy. apply Hne.
      pose proof (cm_disj _ _ _ _ Hm _ _ x Hxb Hy) as Eb. unfold b0 in Eb.
      apply bucket_part in Eb as ->. congruence.
Qed.

(** Entries in front of the one with the key have other keys. *)
Lemma before_other f map ch m p k x l1 l2 y :
  cmap_chains f map ch m -> 0 <= p < parts -> ch (bucket p k) = l1 ++ x :: l2 ->
  id (f (out x)) = k -> y ∈ l1 -> id (f (out y)) <> k.
Proof.
  intros Hm Hp E Hk Hy Hky. pose proof (cm_nodup _ _ _ _ Hm (bucket p k)) as Hnd.
  assert (m !! (p, k) = Some y) as E1.
  { apply (cm_lookup _ _ _ _ Hm). split; [done|]. rewrite E, elem_of_app. auto. }
  assert (m !! (p, k) = Some x) as E2.
  { apply (cm_lookup _ _ _ _ Hm). split; [done|]. rewrite E, elem_of_app. split; [right; left|done]. }
  assert (y = x) as -> by congruence. rewrite E in Hnd. apply NoDup_app in Hnd as (_ & Hd & _).
  apply (Hd x Hy). left.
Qed.

Lemma cmap_erase f map m p k x fuel :
  cmap_rep f map m -> m !! (p, k) = Some x -> cap <= Z.of_nat fuel ->
  exists map' f', concurrent_map_erase N keys_eq khash fuel f map k p = Some (map', f') /\
    cmap_rep f' map' (delete (p, k) m) /\ links_kept f f' /\
    forall y, id (f' y) = id (f y).
Proof.
  intros [ch Hm] Hx Hf. pose proof Hx as Hx'.
  apply (cm_lookup _ _ _ _ Hm) in Hx' as (Hp & Hxb & Hk). unfold concurrent_map_erase.
  rewrite (bucket_of_eq f map ch m) by done. fold out. set (b := bucket p k) in *.
  pose proof (cm_seg _ _ _ _ Hm b (bucket_range p k Hp)) as Hs.
  pose proof (cm_nodup _ _ _ _ Hm b) as Hnd.
  apply list_elem_of_split in Hxb as (l1 & l2 & E). rewrite E in Hs, Hnd.
  destruct l1 as [|y l1].
  - destruct Hs as (Eb & _ & Hs). rewrite Eb, Hk, (keys_eq_true _ Heq).
    do 2 eexists. split; [done|]. split; [|split; [by apply links_kept_insert|]].
    + eexists. apply (chains_erase f _ map _ ch m p k x [] l2); try done; try apply Hm.
      * intros b' Hb'. cbn. by rewrite fn_lookup_insert_ne by done.
      * intros y. apply id_relink.
      * by rewrite fn_lookup_insert.
      * intros y Hy. rewrite fn_lookup_insert_ne; [done|]. apply out_ne. intros ->. apply Hy. left.
      * cbn. fold b. rewrite fn_lookup_insert. apply seg_clear; [|done]. by apply NoDup_cons in Hnd as [? _].
    + intros y. apply id_relink.
  - assert (forall z, z ∈ y :: l1 -> id (f (out z)) <> k) as Hne.
    { intros z. by apply (before_other f map ch m p k x (y :: l1) l2). }
    assert (buckets map b = y) as Eb by apply Hs.
    rewrite Eb, (keys_eq_false _ Heq) by (apply not_eq_sym, Hne; left).
    pose proof (chain_length f map ch m b fuel Hm Hf) as Hl. rewrite E in Hl. cbn in Hl.
    rewrite length_app in Hl. cbn in Hl. rewrite Eb in Hs.
    pose proof (erase_loop_spec N keys_eq Heq f k l1 x l2 fuel y Hs ltac:(lia)
      (fun z Hz => Hne z (list_elem_of_further _ _ _ Hz)) Hk) as El. fold out in El.
    rewrite El. set (w := lastof y l1).
    assert (w ∈ y :: l1) as Hw by apply lastof_in.
    assert (w <> x) as Hwx by (intros ->; by apply (Hne x)).
    set (f1 := <[out w := set_map_chain_next (map_chain_next (f (out x))) (f (out w))]> f).
    do 2 eexists. split; [done|]. split; [|split].
    + eexists. apply (chains_erase f _ map _ ch m p k x (y :: l1) l2); try done; try apply Hm.
      * intros z. rewrite id_relink. apply id_relink.
      * by rewrite fn_lookup_insert.
      * intros z Hz. rewrite fn_lookup_insert_ne.
        -- unfold f1. rewrite fn_lookup_insert_ne; [done|]. apply out_ne. intros <-.
           apply Hz, elem_of_app. by left.
        -- apply out_ne. intros ->. apply Hz, elem_of_app. right. left.
      * fold b. rewrite Eb. apply seg_clear; [|by apply seg_unlink].
        rewrite elem_of_app. apply NoDup_app in Hnd as (_ & Hd & Hn2).
        apply NoDup_cons in Hn2 as [Hx2 _]. intros [Hx1|Hx1]; [|done]. apply (Hd x Hx1). left.
    + apply (links_kept_trans f f1); by apply links_kept_insert.
    + intros z. rewrite id_relink. apply id_relink.
Qed.

(** The map reads only the ids and the links of the cells. *)
Lemma cmap_ext f f' map m :
  (forall y, id (f' y) = id (f y)) -> (forall y, map_chain_next (f' y) = map_chain_next (f y)) ->
  cmap_rep f map m -> cmap_rep f' map m.
Proof.
  intros Hid Hch [ch [H1 H2 H3 H4 H5 H6 H7 H8 H9]]. exists ch. split; try done.
  - intros b Hb. eapply seg_ext; [|by apply H3]. intros x _. apply Hch.
  - intros b x Hx. rewrite Hid. by apply H7.
  - intros x Hx Hn. rewrite Hch. by apply H8.
  - intros p k x. rewrite Hid. apply H9.
Qed.

Lemma cmap_id f map m p k x :
  cmap_rep f map m -> m !! (p, k) = Some x -> id (f (out x)) = k.
Proof. intros [ch Hm] E. by apply (cm_lookup _ _ _ _ Hm) in E as (_ & _ & ?). Qed.

(** ** A fresh map *)

Lemma ctz_pow2 : builtin_ctz (2 ^ lg) = lg.
Proof.
  unfold builtin_ctz. assert (0 < 2 ^ lg) as Hb by (apply Z.pow_pos_nonneg; lia).
  replace (- 2 ^ lg) with (Z.lnot (Z.ones lg)) by (rewrite Z.ones_equiv; unfold Z.lnot; lia).
  rewrite <- Z.ldiff_land, Z.ldiff_ones_r, Z.shiftr_div_pow2, Z.div_same by lia.
  rewrite Z.shiftl_mul_pow2, Z.mul_1_l by lia. by apply Z.log2_pow2.
Qed.

Lemma cmap_allocate f rte_memory :
  0 < parts -> (forall x, 0 <= x < cap -> map_chain_next (f (out x)) = -1) ->
  exists map, concurrent_map_allocate true true rte_memory parts (2 ^ lg) = Some map /\
    cmap_rep f map ∅.
Proof.
  intros Hp Hcl. assert (0 < 2 ^ lg) as Hb by (apply Z.pow_pos_nonneg; lia).
  unfold concurrent_map_allocate. cbn [negb]. rewrite i32_id by lia. rewrite u32_id by lia.
  rewrite ctz_pow2. eexists. split; [done|]. exists (fun _ => []).
  split; try done; try (by intros ? ? ?%not_elem_of_nil).
  - intros b. cbn [seg buckets]. revert b. rewrite (Z.mul_comm (2 ^ lg)).
    apply (loop_range_spec (fun n bs => forall b, 0 <= b < n -> bs b = -1)); [lia|lia|].
    intros k bs Hk IH b Hb'. rewrite fn_insert_dec. case_decide; [done|]. apply IH. lia.
  - by intros b b' x ?%not_elem_of_nil.
  - intros b. constructor.
  - intros x Hx _. by apply Hcl.
  - intros p k x. rewrite lookup_empty. split; [done|]. by intros (_ & ?%not_elem_of_nil & _).
Qed.
End map.

(** ** Sequences of operations *)

Inductive map_op (K : Type) :=
| MGet (p : Z) (k : K)
| MPut (p : Z) (k : K) (index : Z)
| MErase (p : Z) (k : K).
Arguments MGet {K} _ _.
Arguments MPut {K} _ _ _.
Arguments MErase {K} _ _.

(** The results of the gets, from a finite map. *)
Fixpoint spec_run {K} `{Countable K} (ops : list (map_op K)) (m : gmap (Z * K) Z)
    : list (option Z) :=
  match ops with
  | [] => []
  | MGet p k :: ops => m !! (p, k) :: spec_run ops m
  | MPut p k x :: ops => spec_run ops (<[(p, k) := x]> m)
  | MErase p k :: ops => spec_run ops (delete (p, k) m)
  end.

(** What the code requires of its callers: a key that is put is absent and
    its index is not in use; a key that is erased is present. *)
Fixpoint ops_ok {K} `{Countable K} (parts cap : Z) (ops : list (map_op K))
    (m : gmap (Z * K) Z) : Prop :=
  match ops with
  | [] => True
  | MGet p k :: ops => 0 <= p < parts /\ ops_ok parts cap ops m
  | MPut p k x :: ops =>
      0 <= p < parts /\ 0 <= x < cap /\ m !! (p, k) = None /\
      map_Forall (fun _ y => y <> x) m /\ ops_ok parts cap ops (<[(p, k) := x]> m)
  | MErase p k :: ops => is_Some (m !! (p, k)) /\ ops_ok parts cap ops (delete (p, k) m)
  end.

Section runs.
Context {K : Type} (N : Z) (keys_eq : K -> K -> bool) (khash : K -> Z) (fuel : nat).

Fixpoint map_run (ops : list (map_op K)) (f : Z -> concurrent_dchain_cell K)
    (map : ConcurrentMap) : option (list (option Z)) :=
  match ops with
  | [] => Some []
  | MGet p k :: ops =>
      match concurrent_map_get N keys_eq khash fuel f map k p, map_run ops f map with
      | Some r, Some rs => Some (r :: rs)
      | _, _ => None
      end
  | MPut p k x :: ops =>
      match concurrent_map_put N khash fuel f map k p x with
      | Some (map, f) => map_run ops f map
      | None => None
      end
  | MErase p k :: ops =>
      match concurrent_map_erase N keys_eq khash fuel f map k p with
      | Some (map, f) => map_run ops f map
      | None => None
      end
  end.
End runs.

(** ** Properties *)

(** C11: the packet-set map behaves as a finite map from partitions and keys
    to indexes: after an allocation over cells whose links are reset, every
    sequence of gets, puts of unused indexes under absent keys and erasures
    of present keys terminates, within as many steps per walk as there are
    cells, and its gets answer as the finite map does. *)
Theorem conc_map_refines {K} `{Countable K} (N parts lg cap : Z) (fuel : nat)
    (keys_eq : K -> K -> bool) (khash : K -> Z) (rte_memory : Z -> Z)
    (f : Z -> concurrent_dchain_cell K) (ops : list (map_op K))
    (Heq : forall k k', keys_eq k k' = true <-> k = k')
    (Hlg : 0 <= lg) (Hparts : 0 < parts) (Hsize : parts * 2 ^ lg < 2 ^ 31)
    (Hreset : forall x, 0 <= x < cap ->
       map_chain_next (f (concurrent_dchain_cell_out N x)) = -1)
    (Hfuel : cap <= Z.of_nat fuel) (Hok : ops_ok parts cap ops ∅) :
  exists map, concurrent_map_allocate true true rte_memory parts (2 ^ lg) = Some map /\
    map_run N keys_eq khash fuel ops f map = Some (spec_run ops ∅).
Proof.
  destruct (cmap_allocate N khash parts lg cap Hlg Hsize f rte_memory Hparts Hreset)
    as (map & E & Hm).
  exists map. split; [done|]. clear E Hreset. revert f map Hm Hok. generalize (∅ : gmap (Z * K) Z).
  induction ops as [|[p k|p k x|p k] ops IH]; intros m f map Hm Hok; cbn; [done| | |].
  - destruct Hok as [Hp Hok]. rewrite (cmap_get N keys_eq khash parts lg cap Heq Hlg Hsize f map m) by done.
    by rewrite (IH m f map Hm Hok).
  - destruct Hok as (Hp & Hx & Hn & Hfr & Hok).
    destruct (cmap_put N keys_eq khash parts lg cap Heq Hlg Hsize f map m p k x fuel Hm Hp Hx)
      as (map' & f' & -> & Hm' & _); [|done|done|by apply IH].
    intros q k' E. by apply (Hfr (q, k') x).
  - destruct Hok as ([x Hx] & Hok).
    destruct (cmap_erase N keys_eq khash parts lg cap Heq Hlg Hsize f map m p k x fuel Hm Hx Hfuel)
      as (map' & f' & -> & Hm' & _). by apply IH.
Qed.

(** ** Witness: two partitions of two buckets whose keys collide *)

Definition ex_map_ops : list (map_op Z) :=
  [MPut 0 4 0; MPut 0 6 1; MPut 0 8 2; MPut 1 6 3; MGet 0 6; MGet 1 6; MErase 0 6; MGet 0 8;
   MGet 0 6; MErase 0 4; MPut 0 6 1; MGet 0 8; MGet 0 6; MGet 1 4].

Lemma conc_map_refines_witness :
  spec_run ex_map_ops ∅ = [Some 1; Some 3; Some 2; None; Some 2; Some 1; None] /\
  exists map, concurrent_map_allocate true true (fun _ => 0) 2 (2 ^ 1) = Some map /\
    map_run 2 Z.eqb (fun k => k) 5 ex_map_ops (fun _ => ConcCell 0 0 0 0 0 (-1)) map =
      Some (spec_run ex_map_ops ∅).
Proof.
  split; [vm_compute; reflexivity|].
  apply (conc_map_refines 2 2 1 5 5 Z.eqb (fun k => k) (fun _ => 0)
    (fun _ => ConcCell 0 0 0 0 0 (-1)) ex_map_ops);
    [intros k k'; apply Z.eqb_eq|lia|lia|lia|done|lia|].
  cbn [ops_ok ex_map_ops]. repeat (split; [first [lia | by eexists | vm_compute; reflexivity
    | apply (bool_decide_eq_true_1 _); vm_compute; reflexivity] |]).
  done.
Defined.
