(* ===== verification/Txn.v ===== *)
(** * Critical sections and their restarts

    Packet processing and expiry run NF code between RLU_READER_LOCK and
    RLU_READER_UNLOCK and jump back to a label when the code returns
    ABORT_HANDLER or the unlock fails its read validation, after
    nfos_abort_txn (src/src/include/rlu-wrapper.h).  [RluRuntime] is what
    MV-RLU provides for that, a parameter like the memory of Rlu.v; [run_txn]
    is the restart loop shared by data-plane.c and pkt-set-manager.c, and
    [txn_outcome] its meaning without fuel. *)

From stdpp Require Import relations.
From S2P Require Import Prelude Rlu.
Open Scope Z_scope.

(** [W]: the state MV-RLU shares between the threads, [T]: a transaction. *)
Class RluRuntime (W T : Type) := {
  reader_lock : W -> T * W;             (* RLU_READER_LOCK *)
  reader_unlock : T -> W -> bool * W;   (* RLU_READER_UNLOCK: read validation *)
  rlu_abort : T -> W -> W               (* RLU_ABORT *)
}.

(** Without the profiler's sampling, which Profiler.v models. *)
Definition nfos_abort_txn {W T} `{RluRuntime W T} (t : T) (w : W) : W := rlu_abort t w.

(** A transaction as RLU_READER_LOCK hands it out. *)
Definition from_lock (W : Type) {T} `{RluRuntime W T} (t : T) : Prop := exists w : W, (reader_lock w).1 = t.

(** ** Code that uses the memory [L] of its thread besides the transaction *)

Definition on_txn {L T A} (c : M T A) : M (L * T) A :=
  fun '(l, t) => let (r, t) := c t in (r, (l, t)).
Definition on_local {L T A} (f : L -> A * L) : M (L * T) A :=
  fun '(l, t) => let (a, l) := f l in (Some a, (l, t)).

(** As [wp], with the memory: an abort leaves it in [E]. *)
Definition wpm {L T A} `{RluTxn T} (R : T -> T -> Prop) (c : M (L * T) A) (l : L) (t : T)
    (E : L -> Prop) (Q : A -> L -> T -> Prop) : Prop :=
  match c (l, t) with
  | (Some a, (l', t')) => R t t' /\ Q a l' t'
  | (None, (l', _)) => E l' /\ ~ no_conflict t
  end.

Section wpm.
Context {L T : Type} `{RluTxn T} (R : T -> T -> Prop) `{!TxnRel R} (E : L -> Prop).

Lemma wpm_ret {A} (a : A) l t (Q : A -> L -> T -> Prop) : Q a l t -> wpm R (ret a) l t E Q.
Proof. split; [reflexivity|done]. Qed.

Lemma wpm_bind {A B} (c : M (L * T) A) (k : A -> M (L * T) B) l t Q :
  wpm R c l t E (fun a l' t' => wpm R (k a) l' t' E Q) -> wpm R (bind c k) l t E Q.
Proof.
  unfold wpm, bind. destruct (c (l, t)) as [[a|] [l' t']]; [|done].
  intros [HR Hk]. destruct (k a (l', t')) as [[b|] [l2 t2]].
  - destruct Hk. split; [by transitivity t'|done].
  - destruct Hk as [HE Hf]. split; [done|]. intros Hn. by apply Hf, (txn_free t t').
Qed.

Lemma wpm_txn {A} (c : M T A) l t (Q : A -> L -> T -> Prop) :
  E l -> wp R c t (fun a t' => Q a l t') -> wpm R (on_txn c) l t E Q.
Proof. unfold wpm, wp, on_txn. destruct (c t) as [[a|] t']; auto. Qed.

Lemma wpm_local {A} (f : L -> A * L) l t (Q : A -> L -> T -> Prop) :
  Q (f l).1 (f l).2 t -> wpm R (on_local f) l t E Q.
Proof. unfold wpm, on_local. destruct (f l) as [a l']. by split. Qed.

Lemma wpm_mono {A} (c : M (L * T) A) l t (Q Q' : A -> L -> T -> Prop) :
  (forall a l' t', R t t' -> Q a l' t' -> Q' a l' t') -> wpm R c l t E Q -> wpm R c l t E Q'.
Proof. unfold wpm. destruct (c (l, t)) as [[a|] [l' t']]; [|done]. intros HQ []. auto. Qed.
End wpm.

Section run_txn.
Context {W T L A : Type} `{RluRuntime W T}.
(** [L] is the memory of the thread outside the transaction: an abort does
    not restore it.  [pre] is what follows the label, [undo] what the code
    does between an abort and the jump back. *)
Variables (pre undo : L -> L) (body : M (L * T) A).

Fixpoint run_txn (fuel : nat) (l : L) (w : W) : option (A * (L * W)) :=
  match fuel with
  | O => None
  | S fuel =>
      let (t, w) := reader_lock w in
      match body (pre l, t) with
      | (None, (l, t)) => run_txn fuel (undo l) (nfos_abort_txn t w)
      | (Some a, (l, t)) =>
          let (valid, w) := reader_unlock t w in
          if (valid : bool) then Some (a, (l, w))
          else run_txn fuel (undo l) (nfos_abort_txn t w)
      end
  end.

(** One attempt: it commits, or the thread goes back to the label. *)
Inductive attempt (l : L) (w : W) : option A -> L -> W -> Prop :=
| attempt_abort t w1 l' t' :
    reader_lock w = (t, w1) -> body (pre l, t) = (None, (l', t')) ->
    attempt l w None (undo l') (nfos_abort_txn t' w1)
| attempt_invalid t w1 a l' t' w2 :
    reader_lock w = (t, w1) -> body (pre l, t) = (Some a, (l', t')) ->
    reader_unlock t' w1 = (false, w2) ->
    attempt l w None (undo l') (nfos_abort_txn t' w2)
| attempt_commit t w1 a l' t' w2 :
    reader_lock w = (t, w1) -> body (pre l, t) = (Some a, (l', t')) ->
    reader_unlock t' w1 = (true, w2) ->
    attempt l w (Some a) l' w2.

(** Failed attempts followed by one that commits. *)
Inductive txn_outcome : L -> W -> A -> L -> W -> Prop :=
| outcome_commit l w a l' w' :
    attempt l w (Some a) l' w' -> txn_outcome l w a l' w'
| outcome_retry l w l1 w1 a l' w' :
    attempt l w None l1 w1 -> txn_outcome l1 w1 a l' w' -> txn_outcome l w a l' w'.

Lemma run_txn_sound fuel : forall l w a l' w',
  run_txn fuel l w = Some (a, (l', w')) -> txn_outcome l w a l' w'.
Proof.
  induction fuel as [|fuel IH]; intros l w a l' w'; cbn [run_txn]; [done|].
  destruct (reader_lock w) as [t w1] eqn:El. destruct (body (pre l, t)) as [[b|] [l1 t1]] eqn:Eb.
  - destruct (reader_unlock t1 w1) as [[] w2] eqn:Eu.
    + intros [= -> -> ->]. by eapply outcome_commit, attempt_commit.
    + intros Hr. eapply outcome_retry; [by eapply attempt_invalid|]. by apply IH.
  - intros Hr. eapply outcome_retry; [by eapply attempt_abort|]. by apply IH.
Qed.

(** Whenever some attempt commits, enough fuel reaches it. *)
Lemma run_txn_complete l w a l' w' :
  txn_outcome l w a l' w' -> exists n, forall fuel, (n <= fuel)%nat ->
  run_txn fuel l w = Some (a, (l', w')).
Proof.
  induction 1 as [l w a l' w' Ha|l w l1 w1 a l' w' Ha _ [n IH]].
  - exists 1%nat. intros [|fuel] Hf; [lia|]. cbn [run_txn].
    inversion Ha as [| |t w1 b l1 t1 w2 El Eb Eu]; subst. rewrite El, Eb, Eu. done.
  - exists (S n). intros [|fuel] Hf; [lia|]. cbn [run_txn].
    inversion Ha as [t w2 l2 t2 El Eb|t w2 b l2 t2 w3 El Eb Eu|]; subst; rewrite El, Eb;
      rewrite ?Eu; apply IH; lia.
Qed.

(** Attempts that fail one after the other. *)
Definition failed (x y : L * W) : Prop := attempt x.1 x.2 None y.1 y.2.

Lemma txn_outcome_trace l w a l' w' : txn_outcome l w a l' w' ->
  exists l0 w0, rtc failed (l, w) (l0, w0) /\ attempt l0 w0 (Some a) l' w'.
Proof.
  induction 1 as [l w a l' w' Ha|l w l1 w1 a l' w' Ha _ (l0 & w0 & Hs & Hc)].
  - by exists l, w.
  - exists l0, w0. split; [|done]. by apply rtc_l with (l1, w1).
Qed.

(** What failed attempts keep holds of the memory that the committing attempt
    starts from. *)
Lemma txn_outcome_once (I : L -> Prop) l w a l' w' :
  (forall l w l1 w1, I l -> attempt l w None l1 w1 -> I l1) -> I l ->
  txn_outcome l w a l' w' -> exists l0 w0, I l0 /\ attempt l0 w0 (Some a) l' w'.
Proof.
  intros Hkeep HI Ho. induction Ho as [l w a l' w' Ha|l w l1 w1 a l' w' Ha _ IH].
  - by exists l, w.
  - apply IH. by eapply Hkeep.
Qed.

(** A critical section ends with a run of its body from memory that the
    failed attempts have left as they found it. *)
Lemma run_txn_commits (I : L -> Prop) fuel l w a l' w' :
  (forall l t r l1 t1, I l -> from_lock W t -> body (pre l, t) = (r, (l1, t1)) -> I (undo l1)) -> I l ->
  run_txn fuel l w = Some (a, (l', w')) ->
  exists l0 t t1, I l0 /\ from_lock W t /\ body (pre l0, t) = (Some a, (l', t1)).
Proof.
  assert (forall w t w1, reader_lock w = (t, w1) -> from_lock W t) as Hl by (intros w0 t w1 E; exists w0; by rewrite E).
  intros Hkeep HI Hrun. apply run_txn_sound, (txn_outcome_once I) in Hrun as (l0 & w0 & HI0 & Ha).
  - inversion Ha; subst. eauto 8.
  - intros l1 w1 l2 w2 HI1 Ha. inversion Ha; subst; eauto.
  - done.
Qed.

(** When [retries] bounds how often an attempt fails, so does it the fuel. *)
Lemma run_txn_returns (retries : W -> nat) :
  (forall l w l1 w1, attempt l w None l1 w1 -> (retries w1 < retries w)%nat) ->
  forall fuel l w, (retries w < fuel)%nat -> exists a l' w', run_txn fuel l w = Some (a, (l', w')).
Proof.
  intros Hr. induction fuel as [|fuel IH]; intros l w Hf; [lia|]. cbn [run_txn].
  destruct (reader_lock w) as [t w1] eqn:El. destruct (body (pre l, t)) as [[b|] [l1 t1]] eqn:Eb.
  - destruct (reader_unlock t1 w1) as [[] w2] eqn:Eu; [eauto|]. apply IH.
    pose proof (Hr _ _ _ _ (attempt_invalid _ _ _ _ _ _ _ _ El Eb Eu)). lia.
  - apply IH. pose proof (Hr _ _ _ _ (attempt_abort _ _ _ _ _ _ El Eb)). lia.
Qed.
End run_txn.
