(* ===== verification/PktSet.v ===== *)
(** * The packet-set manager

    src/src/pkt-set-manager.c.  A packet set is an index of the concurrent
    allocator: its cell holds the set's id and the time it was last used, the
    map finds the index by partition and id, and the vector holds its state.
    A partition belongs to one core.  NF code asks for a new packet set
    through a per-core log, which is executed after the NF's transaction has
    committed. *)

From stdpp Require Import gmap.
From S2P Require Import Prelude Rlu Txn NfosMap Links ConcDchain ConcMap.
Open Scope Z_scope.

Record add_pkt_set_log_entry_t (K S : Type) := LogEntry {
  add_pkt_set : bool;
  related_pkt_set_id : K;
  log_state : S
}.
Arguments LogEntry {K S} _ _ _.
Arguments add_pkt_set {K S} _.
Arguments related_pkt_set_id {K S} _.
Arguments log_state {K S} _.

(** The static variables of the file, and the per-core log entries. *)
Record pkt_set_manager (K S : Type) := Manager {
  pkt_set_chain : Z -> concurrent_dchain_cell K;
  pkt_set_id_to_state : ConcurrentMap;
  pkt_set_state : Z -> S;
  pkt_set_validity_duration : Z;
  has_related_pkt_sets : bool;
  log_entry : Z -> add_pkt_set_log_entry_t K S
}.
Arguments Manager {K S} _ _ _ _ _ _.
Arguments pkt_set_chain {K S} _.
Arguments pkt_set_id_to_state {K S} _.
Arguments pkt_set_state {K S} _.
Arguments pkt_set_validity_duration {K S} _.
Arguments has_related_pkt_sets {K S} _.
Arguments log_entry {K S} _.

Section operations.
Context {K S : Type} (keys_eq : K -> K -> bool) (khash : K -> Z).
(** The number of data-plane cores, rte_lcore_count() - 1. *)
Variable (num_cores : Z).
(** The macro, which the build may define. *)
Variable (MAX_NUM_PKT_SETS : Z).
Implicit Types g : pkt_set_manager K S.

Definition set_cells (f : Z -> concurrent_dchain_cell K) g : pkt_set_manager K S :=
  Manager f (pkt_set_id_to_state g) (pkt_set_state g) (pkt_set_validity_duration g)
    (has_related_pkt_sets g) (log_entry g).
Definition set_map (map : ConcurrentMap) (f : Z -> concurrent_dchain_cell K) g
    : pkt_set_manager K S :=
  Manager f map (pkt_set_state g) (pkt_set_validity_duration g)
    (has_related_pkt_sets g) (log_entry g).
Definition set_states (st : Z -> S) g : pkt_set_manager K S :=
  Manager (pkt_set_chain g) (pkt_set_id_to_state g) st (pkt_set_validity_duration g)
    (has_related_pkt_sets g) (log_entry g).
Definition set_log (core : Z) (e : add_pkt_set_log_entry_t K S) g : pkt_set_manager K S :=
  Manager (pkt_set_chain g) (pkt_set_id_to_state g) (pkt_set_state g)
    (pkt_set_validity_duration g) (has_related_pkt_sets g) (<[core := e]> (log_entry g)).

(** The sizes of the map: all of it, and a partition's share. *)
Definition map_size (related : bool) : Z :=
  let map_size := u32 MAX_NUM_PKT_SETS in
  let map_size := if related then u32 (map_size * 2) else map_size in
  next_pow2 map_size.
Definition map_size_per_partition (related : bool) : Z :=
  i32 (next_pow2 (map_size related / num_cores)).

(** [memory]: the cells, buckets and states rte_malloc returns; the flags are
    the allocations that succeed.  The outer option is fuel. *)
Definition init_pkt_set_manager (fuel : nat) (dchain_ok map_ok vector_ok : bool)
    (memory : (Z -> concurrent_dchain_cell K) * (Z -> Z) * (Z -> S))
    (log0 : Z -> add_pkt_set_log_entry_t K S)
    (_pkt_set_validity_duration : Z) (_has_related_pkt_sets : bool)
    : option (option (pkt_set_manager K S)) :=
  match concurrent_dchain_allocate dchain_ok true fuel memory.1.1 (num_cores + 1)
          MAX_NUM_PKT_SETS with
  | None => None
  | Some None => Some None
  | Some (Some cells) =>
      match concurrent_map_allocate map_ok true memory.1.2 num_cores
              (map_size_per_partition _has_related_pkt_sets) with
      | None => Some None
      | Some map =>
          if negb vector_ok then Some None
          else Some (Some (Manager cells map memory.2 _pkt_set_validity_duration
                             _has_related_pkt_sets log0))
      end
  end.

Definition add_pkt_set_log_clear (core : Z) g : pkt_set_manager K S :=
  let e := log_entry g core in
  set_log core (LogEntry false (related_pkt_set_id e) (log_state e)) g.

(** [related]: the id related_pkt_set_id points to, if it is not NULL. *)
Definition add_pkt_set_log (core : Z) (_state : S) (pkt_set_partition : Z) (related : option K) g
    : bool * pkt_set_manager K S :=
  if negb (concurrent_dchain_has_free_indexes num_cores (pkt_set_chain g) pkt_set_partition)
  then (false, g)
  else
    let e := log_entry g core in
    (true, set_log core (LogEntry true
             (match related with Some k => k | None => related_pkt_set_id e end) _state) g).

(** [uninit]: what the variable index holds when no index is allocated. *)
Definition add_pkt_set_commit (fuel : nat) (uninit core : Z) (pkt_set_id : K)
    (pkt_set_partition time : Z) g : option (pkt_set_manager K S) :=
  let e := log_entry g core in
  if add_pkt_set e then
    let (r, f) := concurrent_dchain_allocate_new_index num_cores (pkt_set_chain g) time
                    pkt_set_partition in
    let index := match r with Some index => index | None => uninit end in
    match concurrent_map_put num_cores khash fuel f (pkt_set_id_to_state g) pkt_set_id
            pkt_set_partition index with
    | None => None
    | Some (map, f) =>
        match (if has_related_pkt_sets g then
                 concurrent_map_put num_cores khash fuel f map (related_pkt_set_id e)
                   pkt_set_partition (index + MAX_NUM_PKT_SETS)
               else Some (map, f)) with
        | None => None
        | Some (map, f) =>
            Some (set_states (<[index := log_state e]> (pkt_set_state g)) (set_map map f g))
        end
    end
  else Some g.

(** [Some (Some i)]: true, with *_state pointing to the state of index [i]. *)
Definition get_pkt_set_state (fuel : nat) (pkt_set_id : K) (pkt_set_partition time : Z) g
    : option (option Z * pkt_set_manager K S) :=
  match concurrent_map_get num_cores keys_eq khash fuel (pkt_set_chain g)
          (pkt_set_id_to_state g) pkt_set_id pkt_set_partition with
  | None => None
  | Some None => Some (None, g)
  | Some (Some index) =>
      let index := if index >=? MAX_NUM_PKT_SETS then index - MAX_NUM_PKT_SETS else index in
      let (_, f) := concurrent_dchain_rejuvenate_index num_cores (pkt_set_chain g) index time
                      pkt_set_partition in
      Some (Some index, set_cells f g)
  end.

(** *** Expiry *)

Context {W T : Type} `{RluRuntime W T}.
(** The NF's handler, on the packet-set state and its transaction. *)
Variable (nf_expired_pkt_set_handler : M (S * T) unit).

(** "Make sure map/vector entry of the packet set map is invalidated before
    returning the index to the free list". *)
Definition delete_pkt_set (fuel : nat) (index pkt_set_partition : Z) g
    : option (pkt_set_manager K S) :=
  let key := id (pkt_set_chain g (concurrent_dchain_cell_out num_cores index)) in
  match concurrent_map_erase num_cores keys_eq khash fuel (pkt_set_chain g)
          (pkt_set_id_to_state g) key pkt_set_partition with
  | None => None
  | Some (map, f) =>
      match (if has_related_pkt_sets g then
               let key := id (f (concurrent_dchain_cell_out num_cores (index + MAX_NUM_PKT_SETS))) in
               concurrent_map_erase num_cores keys_eq khash fuel f map key pkt_set_partition
             else Some (map, f)) with
      | None => None
      | Some (map, f) =>
          let (_, f) := concurrent_dchain_free_index num_cores f index pkt_set_partition in
          Some (set_map map f g)
      end
  end.

Fixpoint expire_loop (n fuel : nat) (last_time pkt_set_partition count : Z) g (w : W)
    : option (Z * (pkt_set_manager K S * W)) :=
  match concurrent_dchain_has_expired_index num_cores (pkt_set_chain g) last_time
          pkt_set_partition with
  | (Some index, true) =>
      match n with
      | O => None
      | Datatypes.S n =>
          match run_txn (fun l => l) (fun l => l) nf_expired_pkt_set_handler fuel
                  (pkt_set_state g index) w with
          | None => None
          | Some (_, (st, w)) =>
              let g := set_states (<[index := st]> (pkt_set_state g)) g in
              match delete_pkt_set fuel index pkt_set_partition g with
              | None => None
              | Some g => expire_loop n fuel last_time pkt_set_partition (count + 1) g w
              end
          end
      end
  | _ => Some (count, (g, w))
  end.

Definition delete_expired_pkt_sets (n fuel : nat) (time pkt_set_partition : Z) g (w : W)
    : option (Z * (pkt_set_manager K S * W)) :=
  let time_u := u64 time in
  let last_time := i64 (u64 (time_u - pkt_set_validity_duration g)) in
  expire_loop n fuel last_time pkt_set_partition 0 g w.
End operations.

(** ** The specification: a table of sessions *)

(** A packet set of a core; a core's packet sets stand in the order of their
    last use. *)
Record session (K S : Type) := Session {
  s_index : Z;
  s_id : K;
  s_related : K;
  s_state : S;
  s_time : Z
}.
Arguments Session {K S} _ _ _ _ _.
Arguments s_index {K S} _.
Arguments s_id {K S} _.
Arguments s_related {K S} _.
Arguments s_state {K S} _.
Arguments s_time {K S} _.

Section spec.
Context {K S : Type} `{Countable K} (keys_eq : K -> K -> bool) (khash : K -> Z).
Variables (N MAX : Z).
Hypotheses (Heq : forall k k', keys_eq k k' = true <-> k = k') (HN : 0 < N <= MAX).
Implicit Types (g : pkt_set_manager K S) (abs : Z -> list (session K S)).
Let usable : Z := N * (MAX / N).
Let SHIFT : Z := INDEX_SHIFT N.

(** The ids under which the session [s] is found. *)
Definition named (related : bool) (s : session K S) (k : K) : Prop :=
  k = s_id s \/ related = true /\ k = s_related s.

(** Where the map sends them. *)
Definition entry (related : bool) (s : session K S) (k : K) (x : Z) : Prop :=
  k = s_id s /\ x = s_index s \/ related = true /\ k = s_related s /\ x = s_index s + MAX.

Record pkt_rep g abs : Prop := {
  pr_chain : chain_rep N usable (pkt_set_chain g) (fun c => s_index <$> abs c);
  pr_map : exists lg m, 0 <= lg /\ N * 2 ^ lg < 2 ^ 31 /\
    cmap_rep N khash N lg (2 * MAX) (pkt_set_chain g) (pkt_set_id_to_state g) m /\
    forall p k x, m !! (p, k) = Some x <->
      exists s, s ∈ abs p /\ entry (has_related_pkt_sets g) s k x;
  pr_state c s : s ∈ abs c -> pkt_set_state g (s_index s) = s_state s;
  pr_time c s : s ∈ abs c -> time (pkt_set_chain g (SHIFT + s_index s)) = s_time s
}.

Lemma usable_max : 0 < usable <= MAX.
Proof.
  unfold usable. assert (0 < MAX / N) by (apply Z.div_str_pos; lia).
  pose proof (Z.mul_div_le MAX N). nia.
Qed.

Lemma session_range g abs c s : pkt_rep g abs -> s ∈ abs c -> 0 <= s_index s < usable.
Proof.
  intros Hr Hs. apply (rep_range N usable _ _ _ (pr_chain _ _ Hr)). exists c.
  apply list_elem_of_fmap. by exists s.
Qed.

Lemma session_core g abs c s : pkt_rep g abs -> s ∈ abs c -> 0 <= c < N.
Proof.
  intros Hr Hs. apply (rep_core N usable ltac:(lia) _ _ c (s_index s) (pr_chain _ _ Hr)).
  apply list_elem_of_fmap. by exists s.
Qed.

(** Sessions have indexes of their own. *)
Lemma session_unique g abs c d s s' :
  pkt_rep g abs -> s ∈ abs c -> s' ∈ abs d -> s_index s = s_index s' -> c = d /\ s = s'.
Proof.
  intros Hr Hs Hs' E.
  assert (c = d) as ->.
  { apply (rep_unique N usable _ _ c d (s_index s) (pr_chain _ _ Hr)).
    - apply list_elem_of_fmap. by exists s.
    - apply list_elem_of_fmap. by exists s'. }
  split; [done|]. pose proof (rep_nodup N usable _ _ d (pr_chain _ _ Hr)) as Hnd.
  apply list_elem_of_lookup in Hs as [i Hi], Hs' as [j Hj].
  assert (i = j) as ->; [|congruence].
  apply (NoDup_lookup (s_index <$> abs d) i j (s_index s)); [done| |];
    rewrite list_lookup_fmap, ?Hi, ?Hj; cbn; congruence.
Qed.

Lemma session_others g abs p l1 s l2 :
  pkt_rep g abs -> abs p = l1 ++ s :: l2 ->
  forall s', s' ∈ l1 \/ s' ∈ l2 -> s_index s' <> s_index s.
Proof.
  intros Hr E s' Hs' Es. pose proof (rep_nodup N usable _ _ p (pr_chain _ _ Hr)) as Hnd.
  cbv beta in Hnd. rewrite E, fmap_app, fmap_cons in Hnd.
  apply NoDup_app in Hnd as (_ & Hd & Hnd). apply NoDup_cons in Hnd as [Hnd _].
  destruct Hs' as [Hs'|Hs']; apply (list_elem_of_fmap_2 s_index) in Hs'; rewrite Es in Hs'.
  - apply (Hd _ Hs'). left.
  - done.
Qed.

(** The sessions that are left without [s]. *)
Lemma sessions_without g abs p l1 s l2 :
  pkt_rep g abs -> abs p = l1 ++ s :: l2 -> forall c s',
  s' ∈ (<[p := l1 ++ l2]> abs) c <-> s' ∈ abs c /\ s_index s' <> s_index s.
Proof.
  intros Hr E c s'. assert (s ∈ abs p) as Hs by (rewrite E, elem_of_app; right; left).
  pose proof (session_others g abs p l1 s l2 Hr E) as Hne.
  rewrite fn_insert_dec. destruct (decide (p = c)) as [<-|Hc].
  - rewrite E, !elem_of_app, elem_of_cons. split; [naive_solver|].
    intros [[?|[->|?]] Hn]; [by left|done|by right].
  - split; [|tauto]. intros Hs'. split; [done|]. intros Es. apply Hc. symmetry.
    by apply (session_unique g abs c p s' s).
Qed.

Lemma pkt_rep_ext g abs abs' :
  (forall c, abs' c = abs c) -> pkt_rep g abs -> pkt_rep g abs'.
Proof.
  intros Ea [Hc (lg & m & Hlg & Hsz & Hm & Hl) Hst Hti]. split.
  - eapply (chain_rep_al N usable); [|exact Hc]. intros c. cbv beta. by rewrite Ea.
  - exists lg, m. do 3 (split; [done|]). intros q k x. by rewrite Hl, Ea.
  - intros c s. rewrite Ea. apply Hst.
  - intros c s. rewrite Ea. apply Hti.
Qed.

Lemma pkt_rep_log g abs core e : pkt_rep g abs -> pkt_rep (set_log core e g) abs.
Proof. by intros [H1 H2 H3 H4]. Qed.

(** *** Initialisation *)

Lemma map_size_per_partition_pow related :
  MAX <= 2 ^ 27 -> exists lg, 0 <= lg /\ map_size_per_partition N MAX related = 2 ^ lg /\
    N * 2 ^ lg < 2 ^ 31.
Proof using HN.
  intros Hmax. unfold map_size_per_partition, map_size.
  assert (exists v, (if related then u32 (u32 MAX * 2) else u32 MAX) = v /\ MAX <= v <= 2 * MAX)
    as (v & -> & Hv).
  { eexists. split; [done|]. rewrite !(u32_id MAX) by lia. destruct related; [rewrite u32_id|]; lia. }
  destruct (next_pow2_pow v) as (q & Hq & Eq & Hvq); [lia|]. rewrite Eq.
  assert (1 <= 2 ^ q / N) by (apply Z.div_le_lower_bound; lia).
  assert (2 ^ q / N <= 2 ^ q) by (apply Z.div_le_upper_bound; nia).
  destruct (next_pow2_pow (2 ^ q / N)) as (lg & Hlg & El & Hvl); [lia|]. rewrite El.
  exists lg. pose proof (Z.mul_div_le (2 ^ q) N ltac:(lia)).
  rewrite i32_id by lia. repeat split; nia.
Qed.

Lemma init_spec fuel memory log0 validity related :
  MAX <= 2 ^ 27 -> MAX <= Z.of_nat fuel ->
  exists g, init_pkt_set_manager N MAX fuel true true true memory log0 validity related =
      Some (Some g) /\
    pkt_rep g (fun _ => []) /\ has_related_pkt_sets g = related /\
    pkt_set_validity_duration g = validity /\ log_entry g = log0.
Proof.
  intros Hmax Hf. unfold init_pkt_set_manager.
  destruct (seq_init N ltac:(lia) fuel memory.1.1 MAX) as (f & -> & Hc & Hreset); [lia..|].
  destruct (map_size_per_partition_pow related Hmax) as (lg & Hlg & -> & Hsz).
  destruct (cmap_allocate N khash N lg (2 * MAX) Hlg Hsz f memory.1.2) as (map & -> & Hm); [lia| |].
  { intros x Hx. unfold concurrent_dchain_cell_out, concurrent_dchain_impl_cell_out. fold SHIFT.
    destruct (decide (x < MAX)); [apply (Hreset (x + SHIFT)); unfold SHIFT; lia|].
    replace (x + SHIFT) with ((x + SHIFT - MAX) + MAX) by lia. apply Hreset. unfold SHIFT. lia. }
  cbn [negb]. eexists. split; [done|]. split; [|done]. split; cbn.
  - exact Hc.
  - exists lg, ∅. do 3 (split; [done|]). intros q k x. rewrite lookup_empty.
    split; [done|]. by intros (s & ?%not_elem_of_nil & _).
  - by intros c s ?%not_elem_of_nil.
  - by intros c s ?%not_elem_of_nil.
Qed.

(** *** Looking a packet set up *)

Definition touch (now : Z) (alone : bool) (s : session K S) : session K S :=
  if alone then s else Session (s_index s) (s_id s) (s_related s) (s_state s) now.

(** And names of their own. *)
Lemma session_named_once g abs c s s' :
  pkt_rep g abs -> s ∈ abs c -> s' ∈ abs c -> s_id s = s_id s' -> s = s'.
Proof.
  intros Hr Hs Hs' E. destruct (pr_map _ _ Hr) as (lg & m & _ & _ & _ & Hl).
  apply (session_unique g abs c c s s' Hr Hs Hs').
  assert (m !! (c, s_id s) = Some (s_index s)) as H1 by (apply Hl; exists s; split; [done|by left]).
  assert (m !! (c, s_id s) = Some (s_index s')) as H2 by (apply Hl; exists s'; split; [done|by left]).
  congruence.
Qed.

Lemma entry_index related s k x :
  0 <= s_index s < MAX -> entry related s k x ->
  (if x >=? MAX then x - MAX else x) = s_index s.
Proof.
  intros Hi He. destruct (Z.geb_spec x MAX); destruct He as [[_ ->]|(_ & _ & ->)]; lia.
Qed.

Lemma touch_spec g abs p l1 s l2 now :
  pkt_rep g abs -> abs p = l1 ++ s :: l2 ->
  let f := (concurrent_dchain_rejuvenate_index N (pkt_set_chain g) (s_index s) now p).2 in
  pkt_rep (set_cells f g)
    (<[p := l1 ++ l2 ++ [touch now (bool_decide (l1 ++ l2 = [])) s]]> abs).
Proof.
  intros Hr E f. assert (s ∈ abs p) as Hs by (rewrite E, elem_of_app; right; left).
  assert (forall now' b, s_index (touch now' b s) = s_index s) as Hti by (by intros ? []).
  assert (forall now' b k x r, entry r (touch now' b s) k x <-> entry r s k x) as Hte by (by intros ? []).
  pose proof (seq_rejuvenate N usable ltac:(lia) (pkt_set_chain g)
    (fun c => s_index <$> abs c) p (s_index <$> l1) (s_index s) (s_index <$> l2) now
    (pr_chain _ _ Hr) ltac:(cbv beta; by rewrite E, fmap_app)) as Hj.
  unfold f. destruct (concurrent_dchain_rejuvenate_index N _ _ now p) as [b f']. cbn [snd].
  destruct Hj as (_ & Hc & [Hid Hch Ht] & Hti').
  assert (forall c s', s' ∈ (<[p := l1 ++ l2 ++ [touch now (bool_decide (l1 ++ l2 = [])) s]]> abs) c
    <-> s' ∈ abs c /\ s_index s' <> s_index s \/
        c = p /\ s' = touch now (bool_decide (l1 ++ l2 = [])) s) as Hin.
  { intros c s'. pose proof (sessions_without g abs p l1 s l2 Hr E c s') as Hw. revert Hw.
    rewrite !fn_insert_dec. destruct (decide (p = c)) as [<-|Ec]; [|naive_solver].
    rewrite app_assoc, (elem_of_app (l1 ++ l2)), list_elem_of_singleton. naive_solver. }
  split; cbn [pkt_set_chain pkt_set_id_to_state pkt_set_state has_related_pkt_sets set_cells].
  - eapply chain_rep_al; [|exact Hc]. intros c. rewrite !fn_insert_dec.
    destruct (decide (p = c)); [|done]. rewrite !fmap_app. cbn. by rewrite Hti.
  - destruct (pr_map _ _ Hr) as (lg & m & Hlg & Hsz & Hm & Hl). exists lg, m. do 2 (split; [done|]).
    split; [by eapply cmap_ext|]. intros q k x. rewrite Hl. split.
    + intros (s' & Hs' & He). destruct (decide (s_index s' = s_index s)) as [Ei|Ei].
      * destruct (session_unique g abs q p s' s Hr Hs' Hs Ei) as [-> ->].
        eexists. split; [apply Hin; right; by split|]. by apply Hte.
      * exists s'. split; [apply Hin; by left|done].
    + intros (s' & [[Hs' _]|[-> ->]]%Hin & He); [by exists s'|]. exists s. by apply Hte in He.
  - intros c s' [[Hs' _]|[-> ->]]%Hin; [by apply (pr_state _ _ Hr c)|].
    rewrite Hti, (pr_state _ _ Hr p s Hs). by destruct (bool_decide _).
  - intros c s' [[Hs' Hne]|[-> ->]]%Hin.
    + rewrite Ht by done. by apply (pr_time _ _ Hr c).
    + rewrite Hti. unfold SHIFT. rewrite Hti'. unfold touch. case_decide as Enil.
      * rewrite (bool_decide_eq_true_2 (l1 ++ l2 = [])).
        -- by apply (pr_time _ _ Hr p).
        -- apply (fmap_nil_inv s_index). by rewrite fmap_app.
      * rewrite (bool_decide_eq_false_2 (l1 ++ l2 = [])); [done|]. intros E0. apply Enil.
        by rewrite <- fmap_app, E0.
Qed.

Lemma named_entry related s k :
  named related s k <-> exists x, entry related s k x.
Proof. unfold named, entry. naive_solver. Qed.

Lemma get_spec g abs p k now fuel :
  pkt_rep g abs -> 0 <= p < N -> 2 * MAX <= Z.of_nat fuel ->
  exists r g', get_pkt_set_state keys_eq khash N MAX fuel k p now g = Some (r, g') /\
  match r with
  | Some i => exists l1 s l2, abs p = l1 ++ s :: l2 /\ named (has_related_pkt_sets g) s k /\
      i = s_index s /\ pkt_set_state g' i = s_state s /\
      pkt_rep g' (<[p := l1 ++ l2 ++ [touch now (bool_decide (l1 ++ l2 = [])) s]]> abs)
  | None => g' = g /\ forall s, s ∈ abs p -> ~ named (has_related_pkt_sets g) s k
  end.
Proof.
  intros Hr Hp Hf. unfold get_pkt_set_state.
  destruct (pr_map _ _ Hr) as (lg & m & Hlg & Hsz & Hm & Hl).
  rewrite (cmap_get N keys_eq khash N lg (2 * MAX) Heq Hlg Hsz _ _ m p k fuel) by done.
  destruct (m !! (p, k)) as [x|] eqn:E.
  - apply Hl in E as (s & Hs & He). pose proof usable_max as Hu.
    pose proof (session_range g abs p s Hr Hs) as Hsr.
    rewrite (entry_index (has_related_pkt_sets g) s k x) by (done || lia).
    apply list_elem_of_split in Hs as (l1 & l2 & Es).
    pose proof (touch_spec g abs p l1 s l2 now Hr Es) as Ht. cbv zeta in Ht.
    destruct (concurrent_dchain_rejuvenate_index N _ _ now p) as [b f]. cbn [snd] in Ht.
    do 2 eexists. split; [done|]. exists l1, s, l2. split; [done|].
    split; [apply named_entry; eauto|]. split; [done|]. split; [|done].
    cbn. apply (pr_state _ _ Hr p). rewrite Es, elem_of_app. right. left.
  - do 2 eexists. split; [done|]. split; [done|]. intros s Hs [x He]%named_entry.
    assert (m !! (p, k) = Some x) by (apply Hl; eauto). congruence.
Qed.

(** *** Adding a packet set *)

Lemma entry_fresh g abs i :
  pkt_rep g abs -> 0 <= i < usable -> ~ is_allocated (fun c => s_index <$> abs c) i ->
  forall c s k x, s ∈ abs c -> entry (has_related_pkt_sets g) s k x -> x <> i /\ x <> i + MAX.
Proof.
  intros Hr Hi Hn c s k x Hs He. pose proof usable_max.
  pose proof (session_range g abs c s Hr Hs).
  assert (s_index s <> i) as Hne.
  { intros <-. apply Hn. exists c. apply list_elem_of_fmap. by exists s. }
  destruct He as [[_ ->]|(_ & _ & ->)]; lia.
Qed.

(** The map after both puts. *)
Lemma put_entries (related : bool) (m : gmap (Z * K) Z) abs p k k2 i st now :
  (forall q k x, m !! (q, k) = Some x <-> exists s, s ∈ abs q /\ entry related s k x) ->
  m !! (p, k) = None -> (related = true -> m !! (p, k2) = None /\ k2 <> k) ->
  let s := Session i k k2 st now in
  forall q k' x,
    (if related then <[(p, k2) := i + MAX]> (<[(p, k) := i]> m) else <[(p, k) := i]> m)
      !! (q, k') = Some x <->
    exists s', s' ∈ (<[p := abs p ++ [s]]> abs) q /\ entry related s' k' x.
Proof.
  intros Hl Hk Hk2 s q k' x.
  assert ((exists s', s' ∈ (<[p := abs p ++ [s]]> abs) q /\ entry related s' k' x) <->
    m !! (q, k') = Some x \/ q = p /\ entry related s k' x) as ->.
  { rewrite Hl, fn_insert_dec. destruct (decide (p = q)) as [<-|Hq]; [|naive_solver].
    setoid_rewrite elem_of_app. setoid_rewrite list_elem_of_singleton. naive_solver. }
  unfold entry, s. cbn [s_id s_index s_related].
  destruct related; [destruct (Hk2 eq_refl) as [Hk2n Hne]|]; rewrite !lookup_insert_Some; split.
  - intros [[[= <- <-] <-]|[_ [[[= <- <-] <-]|[_ Hm]]]]; auto 10.
  - intros [Hm|[-> [[-> ->]|(_ & -> & ->)]]]; [|right; split; [congruence|auto]|auto].
    right. split; [congruence|]. right. split; [congruence|done].
  - intros [[[= <- <-] <-]|[_ Hm]]; auto 10.
  - intros [Hm|[-> [[-> ->]|(? & _)]]]; [|auto|done]. right. split; [congruence|done].
Qed.

(** Both puts of a commit, over cells whose new index is on no chain. *)
Lemma commit_puts g abs f p k k2 i st now fuel :
  pkt_rep g abs -> (forall y, id (f y) = id (pkt_set_chain g y)) ->
  (forall y, map_chain_next (f y) = map_chain_next (pkt_set_chain g y)) ->
  0 <= p < N -> 2 * MAX <= Z.of_nat fuel -> 0 <= i < usable ->
  ~ is_allocated (fun c => s_index <$> abs c) i ->
  (forall s, s ∈ abs p -> ~ named (has_related_pkt_sets g) s k) ->
  (has_related_pkt_sets g = true -> k2 <> k /\
     forall s, s ∈ abs p -> ~ named (has_related_pkt_sets g) s k2) ->
  exists map1 f1 map2 f2,
    concurrent_map_put N khash fuel f (pkt_set_id_to_state g) k p i = Some (map1, f1) /\
    (if has_related_pkt_sets g then concurrent_map_put N khash fuel f1 map1 k2 p (i + MAX)
     else Some (map1, f1)) = Some (map2, f2) /\ links_kept f f2 /\
    exists lg m2, 0 <= lg /\ N * 2 ^ lg < 2 ^ 31 /\ cmap_rep N khash N lg (2 * MAX) f2 map2 m2 /\
    forall q k' x, m2 !! (q, k') = Some x <-> exists s',
      s' ∈ (<[p := abs p ++ [Session i k k2 st now]]> abs) q /\
      entry (has_related_pkt_sets g) s' k' x.
Proof.
  intros Hr Hid Hch Hp Hf Hi Hn Hk Hk2. destruct (pr_map _ _ Hr) as (lg & m & Hlg & Hsz & Hm & Hl).
  assert (forall k', (forall s, s ∈ abs p -> ~ named (has_related_pkt_sets g) s k') ->
    m !! (p, k') = None) as Hnone.
  { intros k' Hno. destruct (m !! (p, k')) as [x|] eqn:E; [|done].
    apply Hl in E as (s & Hs & He). exfalso. apply (Hno s Hs), named_entry. eauto. }
  pose proof usable_max as Hu. pose proof (entry_fresh g abs i Hr Hi Hn) as Hef.
  assert (cmap_rep N khash N lg (2 * MAX) f (pkt_set_id_to_state g) m) as Hm1 by (by eapply cmap_ext).
  pose proof (Hnone k Hk) as Hkn.
  destruct (cmap_put N keys_eq khash N lg (2 * MAX) Heq Hlg Hsz f _ m p k i fuel Hm1 Hp)
    as (map1 & f1 & E1 & Hm2 & Hlk1 & _); [lia| |done|done|].
  { intros q k' (s & Hs & He)%Hl. by destruct (Hef q s k' i Hs He). }
  exists map1, f1. pose proof (put_entries (has_related_pkt_sets g) m abs p k k2 i st now Hl Hkn) as Hpe.
  cbv zeta in Hpe. destruct (has_related_pkt_sets g) eqn:Erel.
  2: { exists map1, f1. do 3 (split; [done|]). exists lg, (<[(p, k) := i]> m).
       do 3 (split; [done|]). by apply Hpe. }
  destruct (Hk2 eq_refl) as [Hne Hk2n]. pose proof (Hnone k2 Hk2n) as Hk2n'.
  destruct (cmap_put N keys_eq khash N lg (2 * MAX) Heq Hlg Hsz f1 map1 (<[(p, k) := i]> m) p k2
    (i + MAX) fuel Hm2 Hp) as (map2 & f2 & E2 & Hm3 & Hlk2 & _); [lia| | |done|].
  { intros q k'. rewrite lookup_insert_Some. intros [[_ ?]|[_ (s & Hs & He)%Hl]]; [lia|].
    by destruct (Hef q s k' _ Hs He). }
  { rewrite lookup_insert_ne by congruence. done. }
  exists map2, f2. do 2 (split; [done|]). split; [by eapply links_kept_trans|].
  exists lg, (<[(p, k2) := i + MAX]> (<[(p, k) := i]> m)). do 3 (split; [done|]).
  apply Hpe. auto.
Qed.

Lemma commit_spec g abs p k k2 st now core uninit fuel :
  pkt_rep g abs -> 0 <= p < N -> 2 * MAX <= Z.of_nat fuel ->
  log_entry g core = LogEntry true k2 st ->
  concurrent_dchain_has_free_indexes N (pkt_set_chain g) p = true ->
  (forall s, s ∈ abs p -> ~ named (has_related_pkt_sets g) s k) ->
  (has_related_pkt_sets g = true -> k2 <> k /\
     forall s, s ∈ abs p -> ~ named (has_related_pkt_sets g) s k2) ->
  exists g' i, add_pkt_set_commit khash N MAX fuel uninit core k p now g = Some g' /\
    (forall c s, s ∈ abs c -> s_index s <> i) /\
    has_related_pkt_sets g' = has_related_pkt_sets g /\
    pkt_rep g' (<[p := abs p ++ [Session i k k2 st now]]> abs).
Proof.
  intros Hr Hp Hf Hlog Hfree Hk Hk2. unfold add_pkt_set_commit. rewrite Hlog.
  cbn [add_pkt_set related_pkt_set_id log_state].
  pose proof (has_free_allocates N (pkt_set_chain g) now p Hfree) as Hsome.
  pose proof (seq_allocate N usable ltac:(lia) (pkt_set_chain g) _ p now (pr_chain _ _ Hr) Hp) as Ha.
  destruct (concurrent_dchain_allocate_new_index N (pkt_set_chain g) now p) as [[i|] f]; [|done].
  destruct Ha as (Hi & Hn & Hc & Hti & [Hid Hch Ht]). clear Hsome.
  destruct (commit_puts g abs f p k k2 i st now fuel Hr Hid Hch Hp Hf Hi Hn Hk Hk2)
    as (map1 & f1 & map2 & f2 & -> & -> & [Hlk Htk] & Hmap).
  assert (forall c s, s ∈ abs c -> s_index s <> i) as Hfr.
  { intros c s Hs <-. apply Hn. exists c. apply list_elem_of_fmap. by exists s. }
  assert (forall c s, s ∈ (<[p := abs p ++ [Session i k k2 st now]]> abs) c ->
    s ∈ abs c \/ s = Session i k k2 st now) as Hin.
  { intros c s. rewrite fn_insert_dec. destruct (decide (p = c)) as [<-|]; [|by left].
    rewrite elem_of_app, list_elem_of_singleton. done. }
  eexists _, i. split; [done|]. split; [done|]. split; [done|].
  split; cbn [pkt_set_chain pkt_set_id_to_state pkt_set_state has_related_pkt_sets set_map set_states].
  - apply (rep_ext N usable ltac:(lia) f); [done|]. eapply (chain_rep_al N usable); [|exact Hc].
    intros c. rewrite !fn_insert_dec. destruct (decide (p = c)); [|done]. by rewrite fmap_app.
  - done.
  - intros c s [Hs| ->]%Hin.
    + rewrite fn_lookup_insert_ne by (apply not_eq_sym; eauto). by apply (pr_state _ _ Hr c).
    + cbn. by rewrite fn_lookup_insert.
  - intros c s [Hs| ->]%Hin; rewrite Htk; [|exact Hti]. unfold SHIFT. rewrite Ht.
    + by apply (pr_time _ _ Hr c).
    + exists c. apply list_elem_of_fmap. by exists s.
Qed.

(** *** Expiring packet sets *)

Lemma set_state_rep g abs p l1 s l2 st :
  pkt_rep g abs -> abs p = l1 ++ s :: l2 ->
  let s' := Session (s_index s) (s_id s) (s_related s) st (s_time s) in
  pkt_rep (set_states (<[s_index s := st]> (pkt_set_state g)) g) (<[p := l1 ++ s' :: l2]> abs).
Proof.
  intros Hr E s'. assert (s ∈ abs p) as Hs by (rewrite E, elem_of_app; right; left).
  assert (forall c s0, s0 ∈ (<[p := l1 ++ s' :: l2]> abs) c <->
    (s0 ∈ abs c /\ s_index s0 <> s_index s) \/ c = p /\ s0 = s') as Hin.
  { intros c s0. pose proof (sessions_without g abs p l1 s l2 Hr E c s0) as Hw. revert Hw.
    rewrite !fn_insert_dec. destruct (decide (p = c)) as [<-|Ec]; [|naive_solver].
    rewrite !elem_of_app, elem_of_cons. naive_solver. }
  split; cbn [pkt_set_chain pkt_set_id_to_state pkt_set_state has_related_pkt_sets set_states].
  - eapply (chain_rep_al N usable); [|exact (pr_chain _ _ Hr)]. intros c. rewrite fn_insert_dec.
    destruct (decide (p = c)) as [<-|]; [|done]. by rewrite E, !fmap_app.
  - destruct (pr_map _ _ Hr) as (lg & m & Hlg & Hsz & Hm & Hl). exists lg, m. do 3 (split; [done|]).
    intros q k x. rewrite Hl. split.
    + intros (s0 & Hs0 & He). destruct (decide (s_index s0 = s_index s)) as [Ei|Ei].
      * destruct (session_unique g abs q p s0 s Hr Hs0 Hs Ei) as [-> ->].
        exists s'. split; [apply Hin; by right|done].
      * exists s0. split; [apply Hin; by left|done].
    + intros (s0 & [[Hs0 _]|[-> ->]]%Hin & He); [by exists s0|by exists s].
  - intros c s0 [[Hs0 Hne]|[-> ->]]%Hin; [|cbn; by rewrite fn_lookup_insert].
    rewrite fn_lookup_insert_ne by congruence. by apply (pr_state _ _ Hr c).
  - intros c s0 [[Hs0 _]|[-> ->]]%Hin; [by apply (pr_time _ _ Hr c)|].
    exact (pr_time _ _ Hr p s Hs).
Qed.

(** The map after both erasures. *)
Lemma erase_entries g abs (p : Z) (l1 : list (session K S)) (s : session K S) (l2 : list (session K S)) (m : gmap (Z * K) Z) :
  pkt_rep g abs -> abs p = l1 ++ s :: l2 ->
  (forall q k x, m !! (q, k) = Some x <->
     exists s' : session K S, s' ∈ abs q /\ entry (has_related_pkt_sets g) s' k x) ->
  let m1 := delete (p, s_id s) m in
  forall q k x, (if has_related_pkt_sets g then delete (p, s_related s) m1 else m1) !! (q, k) = Some x
    <-> exists s', s' ∈ (<[p := l1 ++ l2]> abs) q /\ entry (has_related_pkt_sets g) s' k x.
Proof.
  intros Hr E Hl m1 q k x. assert (s ∈ abs p) as Hs by (rewrite E, elem_of_app; right; left).
  assert ((if has_related_pkt_sets g then delete (p, s_related s) m1 else m1) !! (q, k) = Some x <->
    m !! (q, k) = Some x /\ ~ (q = p /\ named (has_related_pkt_sets g) s k)) as ->.
  { unfold m1, named. destruct (has_related_pkt_sets g); rewrite !lookup_delete_Some; naive_solver. }
  rewrite Hl. setoid_rewrite (sessions_without g abs p l1 s l2 Hr E). split.
  - intros [(s' & Hs' & He) Hn]. exists s'. split; [|done]. split; [done|]. intros Ei. apply Hn.
    destruct (session_unique g abs q p s' s Hr Hs' Hs Ei) as [-> ->].
    split; [done|]. apply named_entry. by exists x.
  - intros (s' & [Hs' Hne] & He). split; [by exists s'|]. intros [-> [y Hy]%named_entry].
    assert (m !! (p, k) = Some x) as E1 by (apply Hl; eauto).
    assert (m !! (p, k) = Some y) as E2 by (apply Hl; eauto). assert (x = y) as -> by congruence.
    pose proof usable_max. pose proof (session_range g abs p s Hr Hs).
    pose proof (session_range g abs p s' Hr Hs').
    destruct He as [[_ ->]|(_ & _ & ->)], Hy as [[_ ?]|(_ & _ & ?)]; lia.
Qed.

Lemma delete_spec g abs p l1 s l2 fuel :
  pkt_rep g abs -> abs p = l1 ++ s :: l2 -> 2 * MAX <= Z.of_nat fuel ->
  exists g', delete_pkt_set keys_eq khash N MAX fuel (s_index s) p g = Some g' /\
    pkt_rep g' (<[p := l1 ++ l2]> abs).
Proof.
  intros Hr E Hf. assert (s ∈ abs p) as Hs by (rewrite E, elem_of_app; right; left).
  destruct (pr_map _ _ Hr) as (lg & m & Hlg & Hsz & Hm & Hl).
  assert (m !! (p, s_id s) = Some (s_index s)) as E1 by (apply Hl; exists s; by split; [|left]).
  unfold delete_pkt_set. pose proof (cmap_id N khash N lg (2 * MAX) _ _ m p _ _ Hm E1) as ->.
  destruct (cmap_erase N keys_eq khash N lg (2 * MAX) Heq Hlg Hsz _ _ m p _ _ fuel Hm E1 Hf)
    as (map1 & f1 & -> & Hm1 & Hlk1 & Hid1).
  pose proof (erase_entries g abs p l1 s l2 m Hr E Hl) as Hee. cbv zeta in Hee.
  assert (exists map2 f2, (if has_related_pkt_sets g then
      concurrent_map_erase N keys_eq khash fuel f1 map1
        (id (f1 (concurrent_dchain_cell_out N (s_index s + MAX)))) p
    else Some (map1, f1)) = Some (map2, f2) /\ links_kept f1 f2 /\
    cmap_rep N khash N lg (2 * MAX) f2 map2
      (if has_related_pkt_sets g then delete (p, s_related s) (delete (p, s_id s) m)
       else delete (p, s_id s) m)) as (map2 & f2 & E2 & Hlk2 & Hm2).
  { destruct (has_related_pkt_sets g) eqn:Erel; [|by exists map1, f1].
    assert (m !! (p, s_related s) = Some (s_index s + MAX)) as E3 by (apply Hl; exists s; by split; [|right]).
    assert (delete (p, s_id s) m !! (p, s_related s) = Some (s_index s + MAX)) as E4.
    { rewrite lookup_delete_ne; [done|]. intros [= Ek]. rewrite Ek in E1.
      assert (s_index s = s_index s + MAX) by congruence. lia. }
    pose proof (cmap_id N khash N lg (2 * MAX) _ _ _ p _ _ Hm1 E4) as ->.
    destruct (cmap_erase N keys_eq khash N lg (2 * MAX) Heq Hlg Hsz _ _ _ p _ _ fuel Hm1 E4 Hf)
      as (map2 & f2 & -> & Hm2 & Hlk2 & _). by exists map2, f2. }
  rewrite E2. destruct (links_kept_trans _ _ _ Hlk1 Hlk2) as [Hlk Htk].
  assert (chain_rep N usable f2 (fun c => s_index <$> abs c)) as Hc.
  { apply (rep_ext N usable ltac:(lia) (pkt_set_chain g)); [done|apply Hr]. }
  pose proof (seq_free N usable ltac:(lia) f2 (fun c => s_index <$> abs c) p (s_index <$> l1)
    (s_index s) (s_index <$> l2) Hc ltac:(cbv beta; by rewrite E, fmap_app)) as Hfree.
  destruct (concurrent_dchain_free_index N f2 (s_index s) p) as [b f3].
  destruct Hfree as (_ & Hc3 & [Hid3 Hch3 Ht3]). eexists. split; [done|].
  split; cbn [pkt_set_chain pkt_set_id_to_state pkt_set_state has_related_pkt_sets set_map].
  - eapply (chain_rep_al N usable); [|exact Hc3]. intros c. rewrite !fn_insert_dec.
    destruct (decide (p = c)); [by rewrite fmap_app|done].
  - do 2 eexists. do 2 (split; [done|]). split; [by eapply cmap_ext|exact Hee].
  - intros c s' [Hs' _]%(sessions_without g abs p l1 s l2 Hr E). by apply (pr_state _ _ Hr c).
  - intros c s' [Hs' _]%(sessions_without g abs p l1 s l2 Hr E). unfold SHIFT.
    rewrite Ht3 by done. rewrite Htk. by apply (pr_time _ _ Hr c).
Qed.

Context {W T : Type} `{RluRuntime W T} (nf_expired_pkt_set_handler : M (S * T) unit).

(** The oldest sessions are handed to the NF until one is in time; each call
    is repeated until it commits. *)
Inductive expires (last_time : Z) : list (session K S) -> W -> list (session K S) -> W -> Prop :=
| expires_stop l w :
    (forall s, hd_error l = Some s -> last_time <= s_time s) -> expires last_time l w l w
| expires_next s l w st w1 l' w' :
    s_time s < last_time ->
    txn_outcome (fun l => l) (fun l => l) nf_expired_pkt_set_handler (s_state s) w tt st w1 ->
    expires last_time l w1 l' w' -> expires last_time (s :: l) w l' w'.

(** In the order of their last use, those are all that are out of date. *)
Lemma expires_filter last_time l w l' w' :
  expires last_time l w l' w' -> StronglySorted Z.le (s_time <$> l) ->
  l' = filter (fun s => last_time <= s_time s) l.
Proof.
  induction 1 as [l w Hstop|s l w st w1 l' w' Ht _ _ IH]; intros Hs.
  - destruct l as [|s l]; [done|]. specialize (Hstop s eq_refl).
    cbn in Hs. apply StronglySorted_inv in Hs as [_ Hs]. rewrite Forall_fmap in Hs.
    rewrite filter_cons_True by done. f_equal.
    induction l as [|s' l IH]; [done|]. apply Forall_cons in Hs as [Hs' Hs]. cbn in Hs'.
    rewrite filter_cons_True by lia. f_equal. auto.
  - cbn in Hs. apply StronglySorted_inv in Hs as [Hs _]. rewrite filter_cons_False by lia. auto.
Qed.

Lemma has_expired_spec g abs p t :
  pkt_rep g abs -> 0 <= p < N ->
  concurrent_dchain_has_expired_index N (pkt_set_chain g) t p =
    match abs p with
    | [] => (None, false)
    | s :: _ => (Some (s_index s), s_time s <? t)
    end.
Proof.
  intros Hr Hp. unfold concurrent_dchain_has_expired_index.
  rewrite (seq_oldest N usable ltac:(lia) _ _ p (pr_chain _ _ Hr) Hp).
  destruct (abs p) as [|s l] eqn:E; [done|]. cbn [fmap list_fmap hd_error].
  unfold concurrent_dchain_impl_cell_out. rewrite (Z.add_comm (s_index s)). fold SHIFT.
  by rewrite (pr_time _ _ Hr p s) by (rewrite E; left).
Qed.

Lemma expire_loop_spec last_time l w l' w' :
  expires last_time l w l' w' -> forall abs p, 0 <= p < N -> l = abs p ->
  exists n0 fuel0, forall n fuel, (n0 <= n)%nat -> (fuel0 <= fuel)%nat ->
  forall g count, pkt_rep g abs -> 2 * MAX <= Z.of_nat fuel ->
  exists g', expire_loop keys_eq khash N MAX nf_expired_pkt_set_handler n fuel last_time p count g w =
      Some (count + (Z.of_nat (length l) - Z.of_nat (length l')), (g', w')) /\
    pkt_rep g' (<[p := l']> abs).
Proof.
  induction 1 as [l w Hstop|s l w st w1 l' w' Ht Ho _ IH]; intros abs p Hp E.
  - exists 0%nat, 0%nat. intros n fuel _ _ g count Hr _. exists g.
    split.
    + rewrite Z.sub_diag, Z.add_0_r. destruct n; cbn [expire_loop];
        rewrite (has_expired_spec g abs p last_time Hr Hp), <- E; (destruct l as [|s l]; [done|]);
        specialize (Hstop s eq_refl); destruct (Z.ltb_spec (s_time s) last_time); by first [lia|done].
    + eapply pkt_rep_ext; [|exact Hr]. intros c. fcases; done.
  - destruct (run_txn_complete _ _ _ _ _ _ _ _ Ho) as [f1 Hrun].
    destruct (IH (<[p := l]> abs) p Hp) as (n0 & f0 & HI).
    { by rewrite fn_lookup_insert. }
    exists (Datatypes.S n0), (f1 `max` f0)%nat. intros n fuel Hn Hf g count Hr Hfuel.
    destruct n as [|n]; [lia|]. cbn [expire_loop].
    rewrite (has_expired_spec g abs p last_time Hr Hp), <- E.
    assert (s ∈ abs p) as Hs by (rewrite <- E; left).
    destruct (Z.ltb_spec (s_time s) last_time); [|lia].
    rewrite (pr_state _ _ Hr p s Hs), (Hrun fuel) by lia.
    pose proof (set_state_rep g abs p [] s l st Hr ltac:(by rewrite <- E)) as Hr1. cbv zeta in Hr1.
    destruct (delete_spec _ _ p [] (Session (s_index s) (s_id s) (s_related s) st (s_time s)) l fuel Hr1)
      as (g2 & Hdel & Hr2); [by rewrite fn_lookup_insert|done|].
    cbn [s_index] in Hdel. rewrite Hdel.
    assert (pkt_rep g2 (<[p := l]> abs)) as Hr3.
    { eapply pkt_rep_ext; [|exact Hr2]. intros c. fcases; done. }
    destruct (HI n fuel ltac:(lia) ltac:(lia) g2 (count + 1) Hr3 Hfuel) as (g' & -> & Hr').
    exists g'. split; [do 2 f_equal; cbn [length]; lia|].
    eapply pkt_rep_ext; [|exact Hr']. intros c. fcases; done.
Qed.
Lemma delete_keeps fuel i p g g' :
  delete_pkt_set keys_eq khash N MAX fuel i p g = Some g' ->
  has_related_pkt_sets g' = has_related_pkt_sets g /\ pkt_set_validity_duration g' = pkt_set_validity_duration g.
Proof.
  unfold delete_pkt_set. destruct (concurrent_map_erase _ _ _ _ _ _ _ _) as [[m f]|]; [|done].
  destruct (if has_related_pkt_sets g then _ else _) as [[m1 f1]|]; [|done].
  destruct (concurrent_dchain_free_index _ _ _ _) as [b f2]. by intros [= <-].
Qed.

(** Expiry that returns has removed the oldest packet sets of the core, some
    number of them. *)
Lemma expire_loop_kept last_time n fuel : forall g count w count' g' w' abs p,
  0 <= p < N -> 2 * MAX <= Z.of_nat fuel -> pkt_rep g abs ->
  expire_loop keys_eq khash N MAX nf_expired_pkt_set_handler n fuel last_time p count g w =
    Some (count', (g', w')) ->
  exists gone kept, abs p = gone ++ kept /\ pkt_rep g' (<[p := kept]> abs) /\
    has_related_pkt_sets g' = has_related_pkt_sets g /\
    pkt_set_validity_duration g' = pkt_set_validity_duration g.
Proof.
  assert (forall g abs p, pkt_rep g abs -> exists gone kept, abs p = gone ++ kept /\ pkt_rep g (<[p := kept]> abs) /\
    has_related_pkt_sets g = has_related_pkt_sets g /\
    pkt_set_validity_duration g = pkt_set_validity_duration g) as Hsame.
  { intros g abs p Hr. exists [], (abs p). split; [done|]. split; [|done].
    eapply pkt_rep_ext; [|exact Hr]. intros c. clear. fcases; done. }
  induction n as [|n IH]; intros g count w count' g' w' abs p Hp Hf Hr; cbn [expire_loop];
    rewrite (has_expired_spec g abs p last_time Hr Hp);
    destruct (abs p) as [|s l] eqn:E; try (intros [= <- <- <-]; rewrite <- E; by apply Hsame);
    destruct (s_time s <? last_time); try (intros [= <- <- <-]; rewrite <- E; by apply Hsame).
  destruct (run_txn _ _ _ _ _ _) as [[u [st w1]]|]; [|done].
  pose proof (set_state_rep g abs p [] s l st Hr E) as Hr1. cbv zeta in Hr1.
  destruct (delete_spec _ _ p [] (Session (s_index s) (s_id s) (s_related s) st (s_time s)) l fuel Hr1)
    as (g2 & Hdel & Hr2); [by rewrite fn_lookup_insert|done|].
  cbn [s_index] in Hdel. rewrite Hdel. apply delete_keeps in Hdel as [Hrel Hv]. cbn in Hrel, Hv.
  intros (gone & kept & El & Hr' & Hrel' & Hv')%(IH _ _ _ _ _ _ _ p Hp Hf Hr2).
  rewrite fn_lookup_insert in El. cbn [app] in El. exists (s :: gone), kept. split; [by rewrite El|].
  split; [|by rewrite Hrel', Hv'].
  eapply pkt_rep_ext; [|exact Hr']. intros c. clear. fcases; done.
Qed.

(** A core has no more packet sets than there are indexes. *)
Lemma sessions_few g abs p : pkt_rep g abs -> Z.of_nat (length (abs p)) <= MAX.
Proof.
  intros Hr. pose proof usable_max as Hu. pose proof (rep_nodup N usable _ _ p (pr_chain _ _ Hr)) as Hnd.
  assert (s_index <$> abs p ⊆+ seqZ 0 usable) as Hle%submseteq_length.
  { apply NoDup_submseteq; [done|]. intros i (s & -> & Hs)%list_elem_of_fmap. apply elem_of_seqZ.
    pose proof (session_range g abs p s Hr Hs). lia. }
  rewrite length_fmap, length_seqZ in Hle. lia.
Qed.

(** When [retries] bounds how often the NF's expiry handler fails, expiry
    returns, with fuel for that and for the packet sets there are. *)
Lemma expire_loop_returns (retries : W -> nat) last_time fuel p :
  (forall l w l1 w1, attempt (fun l => l) (fun l => l) nf_expired_pkt_set_handler l w None l1 w1 ->
     (retries w1 < retries w)%nat) ->
  (forall w, (retries w < fuel)%nat) -> 0 <= p < N -> 2 * MAX <= Z.of_nat fuel ->
  forall n g count w abs, (length (abs p) <= n)%nat -> pkt_rep g abs ->
  exists kept g' w' count', expire_loop keys_eq khash N MAX nf_expired_pkt_set_handler n fuel last_time p count g w =
      Some (count', (g', w')) /\
    expires last_time (abs p) w kept w' /\ pkt_rep g' (<[p := kept]> abs) /\
    has_related_pkt_sets g' = has_related_pkt_sets g.
Proof.
  intros Hretry Hw Hp Hf.
  assert (forall g abs, pkt_rep g abs -> pkt_rep g (<[p := abs p]> abs)) as Hsame.
  { intros g abs Hr. eapply pkt_rep_ext; [|exact Hr]. intros c. clear. fcases; done. }
  induction n as [|n IH]; intros g count w abs Hn Hr; cbn [expire_loop]; rewrite (has_expired_spec g abs p last_time Hr Hp).
  - pose proof (Hsame g abs Hr) as Hr'. destruct (abs p) as [|s l]; [|cbn in Hn; lia].
    exists [], g, w, count. split; [done|]. split; [by apply expires_stop|done].
  - pose proof (Hsame g abs Hr) as Hr'. destruct (abs p) as [|s l] eqn:E.
    { exists [], g, w, count. split; [done|]. split; [by apply expires_stop|done]. }
    destruct (Z.ltb_spec (s_time s) last_time) as [Ht|Ht].
    2: { exists (s :: l), g, w, count. split; [done|]. split; [|done]. apply expires_stop. by intros s' [= <-]. }
    destruct (run_txn_returns (fun l => l) (fun l => l) nf_expired_pkt_set_handler retries Hretry fuel
      (pkt_set_state g (s_index s)) w (Hw w)) as ([] & st & w1 & Erun). rewrite Erun.
    apply run_txn_sound in Erun. rewrite (pr_state _ _ Hr p s) in Erun by (rewrite E; left).
    pose proof (set_state_rep g abs p [] s l st Hr E) as Hr1. cbv zeta in Hr1.
    destruct (delete_spec _ _ p [] (Session (s_index s) (s_id s) (s_related s) st (s_time s)) l fuel Hr1)
      as (g2 & Hdel & Hr2); [by rewrite fn_lookup_insert|done|].
    cbn [s_index] in Hdel. rewrite Hdel. apply delete_keeps in Hdel as [Hrel _].
    destruct (IH g2 (count + 1) w1 (<[p := l]> abs)) as (kept & g' & w' & count' & -> & He & Hr3 & Hrel').
    + rewrite fn_lookup_insert. cbn in Hn. lia.
    + eapply pkt_rep_ext; [|exact Hr2]. intros c. clear. fcases; done.
    + rewrite fn_lookup_insert in He. exists kept, g', w', count'. split; [done|].
      split; [by eapply expires_next|]. split; [|by rewrite Hrel'].
      eapply pkt_rep_ext; [|exact Hr3]. intros c. clear. fcases; done.
Qed.

(** The time before which a packet set is out of date. *)
Lemma last_time_id now validity : 0 <= now < 2 ^ 63 -> 0 <= validity < 2 ^ 63 ->
  i64 (u64 (u64 now - validity)) = now - validity.
Proof.
  intros Hn Hv. rewrite (u64_id now) by lia. unfold i64, swrap, u64, wrap. rewrite Zplus_mod_idemp_l, Z.mod_small; lia.
Qed.
End spec.

(** ** Properties *)

Section properties.
Context {K S : Type} `{Countable K} (keys_eq : K -> K -> bool) (khash : K -> Z) (N MAX : Z).
Implicit Types (g : pkt_set_manager K S) (abs : Z -> list (session K S)).

(** Initialisation succeeds when its memory is allocated, for any number
    of cores the packet sets suffice for, and represents the empty table. *)
Theorem pkt_init_spec (fuel : nat)
    (memory : (Z -> concurrent_dchain_cell K) * (Z -> Z) * (Z -> S))
    (log0 : Z -> add_pkt_set_log_entry_t K S) (validity : Z) (related : bool)
    (HN : 0 < N <= MAX) (Hmax : MAX <= 2 ^ 27) (Hfuel : MAX <= Z.of_nat fuel) :
  exists g, init_pkt_set_manager N MAX fuel true true true memory log0 validity related =
      Some (Some g) /\
    pkt_rep khash N MAX g (fun _ => []) /\ has_related_pkt_sets g = related /\
    pkt_set_validity_duration g = validity /\ log_entry g = log0.
Proof. by apply init_spec. Qed.

(** Get_pkt_set_state terminates and finds a packet set by its id or, if
    the NF has related packet sets, by its related id, in its own partition
    only; it hands out the packet set's state and moves it to the end of the
    order of use, with the new time unless it is the core's only packet set.
    It fails exactly when no packet set of the partition has the id. *)
Theorem pkt_get_spec g abs (p now : Z) (k : K) (fuel : nat)
    (Heq : forall k k', keys_eq k k' = true <-> k = k') (HN : 0 < N <= MAX)
    (Hr : pkt_rep khash N MAX g abs) (Hp : 0 <= p < N) (Hfuel : 2 * MAX <= Z.of_nat fuel) :
  exists r g', get_pkt_set_state keys_eq khash N MAX fuel k p now g = Some (r, g') /\
  match r with
  | Some i => exists l1 s l2, abs p = l1 ++ s :: l2 /\ named (has_related_pkt_sets g) s k /\
      i = s_index s /\ pkt_set_state g' i = s_state s /\
      pkt_rep khash N MAX g'
        (<[p := l1 ++ l2 ++ [touch now (bool_decide (l1 ++ l2 = [])) s]]> abs)
  | None => g' = g /\ forall s, s ∈ abs p -> ~ named (has_related_pkt_sets g) s k
  end.
Proof. by apply get_spec. Qed.

(** A packet set that an NF logs for a new id is added when the log is
    executed after the NF's transaction: the commit terminates and appends it
    to its core's packet sets under an index no packet set has, in a state
    and with a related id as logged.  If the log is refused, executing it
    changes nothing. *)
Theorem pkt_add_spec g abs (core p now uninit : Z) (k k2 : K) (st : S) (fuel : nat)
    (Heq : forall k k', keys_eq k k' = true <-> k = k') (HN : 0 < N <= MAX)
    (Hr : pkt_rep khash N MAX g abs) (Hp : 0 <= p < N) (Hfuel : 2 * MAX <= Z.of_nat fuel)
    (Hk : forall s, s ∈ abs p -> ~ named (has_related_pkt_sets g) s k)
    (Hk2 : has_related_pkt_sets g = true ->
       k2 <> k /\ forall s, s ∈ abs p -> ~ named (has_related_pkt_sets g) s k2) :
  match add_pkt_set_log N core st p (Some k2) (add_pkt_set_log_clear core g) with
  | (true, g1) => exists g' i,
      add_pkt_set_commit khash N MAX fuel uninit core k p now g1 = Some g' /\
      (forall c s, s ∈ abs c -> s_index s <> i) /\
      has_related_pkt_sets g' = has_related_pkt_sets g /\
      pkt_rep khash N MAX g' (<[p := abs p ++ [Session i k k2 st now]]> abs)
  | (false, g1) => add_pkt_set_commit khash N MAX fuel uninit core k p now g1 = Some g1 /\
      pkt_rep khash N MAX g1 abs
  end.
Proof.
  unfold add_pkt_set_log, add_pkt_set_log_clear. cbn [pkt_set_chain set_log].
  destruct (concurrent_dchain_has_free_indexes N (pkt_set_chain g) p) eqn:Efree; cbn [negb].
  - apply (commit_spec keys_eq khash N MAX Heq HN (set_log core _ (set_log core _ g))); try done.
    + by do 2 apply pkt_rep_log.
    + cbn. by rewrite fn_lookup_insert.
  - split; [|by apply pkt_rep_log]. unfold add_pkt_set_commit. cbn. by rewrite fn_lookup_insert.
Qed.

(** C12: when the NF's expiry handler eventually commits, expiry terminates;
    it hands the core's packet sets that were last used before the validity
    duration, and no others, to the NF, oldest first and each until its
    transaction commits, removes them and counts them. *)
Theorem pkt_expire_spec {W T} `{RluRuntime W T} (handler : M (S * T) unit)
    g abs (p now : Z) (l' : list (session K S)) (w w' : W)
    (Heq : forall k k', keys_eq k k' = true <-> k = k') (HN : 0 < N <= MAX)
    (Hr : pkt_rep khash N MAX g abs) (Hp : 0 <= p < N)
    (Hnow : 0 <= now < 2 ^ 63) (Hv : 0 <= pkt_set_validity_duration g < 2 ^ 63)
    (Hsorted : StronglySorted Z.le (s_time <$> abs p))
    (Hexp : expires handler (now - pkt_set_validity_duration g) (abs p) w l' w') :
  l' = filter (fun s => now - pkt_set_validity_duration g <= s_time s) (abs p) /\
  exists n0, forall n fuel, (n0 <= n)%nat -> (n0 <= fuel)%nat -> exists g',
    delete_expired_pkt_sets keys_eq khash N MAX handler n fuel now p g w =
      Some (Z.of_nat (length (abs p)) - Z.of_nat (length l'), (g', w')) /\
    pkt_rep khash N MAX g' (<[p := l']> abs).
Proof.
  split; [by eapply expires_filter|]. unfold delete_expired_pkt_sets.
  destruct (expire_loop_spec keys_eq khash N MAX Heq HN handler _ _ _ _ _ Hexp abs p Hp eq_refl)
    as (n0 & f0 & Hloop).
  exists (n0 `max` (f0 `max` Z.to_nat (2 * MAX)))%nat. intros n fuel Hn Hf.
  rewrite last_time_id by done.
  destruct (Hloop n fuel ltac:(lia) ltac:(lia) g 0 Hr ltac:(lia)) as (g' & -> & Hr').
  exists g'. by rewrite Z.add_0_l.
Qed.
End properties.

(** ** Witnesses: two cores with room for two packet sets each *)

Definition ex_pkt_memory : (Z -> concurrent_dchain_cell Z) * (Z -> Z) * (Z -> Z) :=
  (fun _ => ConcCell 0 0 0 0 0 0, fun _ => 0, fun _ => 0).

Definition ex_pkt0 : pkt_set_manager Z Z :=
  match init_pkt_set_manager 2 4 4 true true true ex_pkt_memory (fun _ => LogEntry false 0 0) 5 true with
  | Some (Some g) => g
  | _ => Manager (fun _ => ConcCell 0 0 0 0 0 0) (CMap (fun _ => 0) 0 0) (fun _ => 0) 0 true
           (fun _ => LogEntry false 0 0)
  end.

(** Core 0 adds the packet set of [k] at time [now]. *)
Definition ex_add (k now : Z) (g : pkt_set_manager Z Z) : pkt_set_manager Z Z :=
  let (_, g1) := add_pkt_set_log 2 0 (k + 5) 0 (Some (k + 100)) (add_pkt_set_log_clear 0 g) in
  match add_pkt_set_commit (fun k => k) 2 4 8 9 0 k 0 now g1 with
  | Some g' => g'
  | None => g
  end.
Definition ex_pkt2 : pkt_set_manager Z Z := ex_add 12 7 (ex_add 10 1 ex_pkt0).

Lemma ex_pkt_rep0 : pkt_rep (fun k => k) 2 4 ex_pkt0 (fun _ => []).
Proof.
  destruct (init_spec (fun k : Z => k) 2 4 ltac:(lia) 4 ex_pkt_memory (fun _ => LogEntry false 0 0)
    5 true) as (g & E & Hr & _); [lia..|]. unfold ex_pkt0. by rewrite E.
Qed.

Lemma ex_add_rep g abs k now :
  pkt_rep (fun k => k) 2 4 g abs -> has_related_pkt_sets g = true ->
  concurrent_dchain_has_free_indexes 2 (pkt_set_chain g) 0 = true ->
  (forall s, s ∈ abs 0 -> ~ named true s k /\ ~ named true s (k + 100)) ->
  exists i, (forall c s, s ∈ abs c -> s_index s <> i) /\ has_related_pkt_sets (ex_add k now g) = true /\
    pkt_rep (fun k => k) 2 4 (ex_add k now g)
      (<[0 := abs 0 ++ [Session i k (k + 100) (k + 5) now]]> abs).
Proof.
  intros Hr Hrel Hfree Hk. unfold ex_add, add_pkt_set_log.
  cbn [pkt_set_chain set_log add_pkt_set_log_clear]. unfold add_pkt_set_log_clear at 1.
  cbn [pkt_set_chain set_log]. rewrite Hfree. cbn [negb].
  destruct (commit_spec Z.eqb (fun k => k) 2 4 ltac:(intros; apply Z.eqb_eq) ltac:(lia)
    (set_log 0 (LogEntry true (k + 100) (k + 5)) (add_pkt_set_log_clear 0 g)) abs 0 k (k + 100)
    (k + 5) now 0 9 8) as (g' & i & E & Hi & Hrel' & Hr').
  - by do 2 apply pkt_rep_log.
  - lia.
  - lia.
  - cbn. by rewrite fn_lookup_insert.
  - done.
  - cbn. rewrite Hrel. intros s Hs. by apply Hk.
  - intros _. split; [lia|]. cbn. rewrite Hrel. intros s Hs. by apply Hk.
  - rewrite E. exists i. split; [done|]. split; [|done]. by rewrite Hrel'.
Qed.

Lemma ex_pkt_rep2 : exists i j, pkt_rep (fun k => k) 2 4 ex_pkt2
  (<[0 := [Session i 10 110 15 1; Session j 12 112 17 7]]> (fun _ => [])).
Proof.
  destruct (ex_add_rep ex_pkt0 (fun _ => []) 10 1 ex_pkt_rep0) as (i & _ & Hrel & Hr);
    [vm_compute; reflexivity|vm_compute; reflexivity|by intros s ?%not_elem_of_nil|].
  destruct (ex_add_rep (ex_add 10 1 ex_pkt0) _ 12 7 Hr Hrel) as (j & _ & _ & Hr2).
  - vm_compute. reflexivity.
  - rewrite fn_lookup_insert. cbn. intros s ->%list_elem_of_singleton. unfold named. cbn. lia.
  - exists i, j. eapply pkt_rep_ext; [|exact Hr2]. clear. intros c. fcases; done.
Qed.

Lemma pkt_init_spec_witness :
  exists g, init_pkt_set_manager 2 4 4 true true true ex_pkt_memory (fun _ => LogEntry false 0 0) 5 true =
      Some (Some g) /\
    pkt_rep (fun k => k) 2 4 g (fun _ => []) /\ has_related_pkt_sets g = true /\
    pkt_set_validity_duration g = 5 /\ log_entry g = (fun _ => LogEntry false 0 0).
Proof. apply (pkt_init_spec (fun k => k) 2 4 4); lia. Defined.

Lemma pkt_get_spec_witness :
  fst <$> get_pkt_set_state Z.eqb (fun k => k) 2 4 8 112 0 9 ex_pkt2 = Some (Some 1) /\
  exists abs, pkt_rep (fun k => k) 2 4 ex_pkt2 abs /\
  exists r g', get_pkt_set_state Z.eqb (fun k => k) 2 4 8 112 0 9 ex_pkt2 = Some (r, g') /\
  match r with
  | Some i => exists l1 s l2, abs 0 = l1 ++ s :: l2 /\ named (has_related_pkt_sets ex_pkt2) s 112 /\
      i = s_index s /\ pkt_set_state g' i = s_state s /\
      pkt_rep (fun k => k) 2 4 g'
        (<[0 := l1 ++ l2 ++ [touch 9 (bool_decide (l1 ++ l2 = [])) s]]> abs)
  | None => g' = ex_pkt2 /\ forall s, s ∈ abs 0 -> ~ named (has_related_pkt_sets ex_pkt2) s 112
  end.
Proof.
  split; [vm_compute; reflexivity|]. destruct ex_pkt_rep2 as (i & j & Hr).
  eexists. split; [exact Hr|].
  apply (pkt_get_spec Z.eqb (fun k => k) 2 4 ex_pkt2 _ 0 9 112 8);
    [intros; apply Z.eqb_eq|lia|exact Hr|lia|lia].
Defined.

Lemma pkt_add_spec_witness :
  fst (add_pkt_set_log 2 0 19 0 (Some 113) (add_pkt_set_log_clear 0 ex_pkt0)) = true /\
  match add_pkt_set_log 2 0 19 0 (Some 113) (add_pkt_set_log_clear 0 ex_pkt0) with
  | (true, g1) => exists g' i,
      add_pkt_set_commit (fun k => k) 2 4 8 77 0 13 0 6 g1 = Some g' /\
      (forall c s, s ∈ (fun _ : Z => [] : list (session Z Z)) c -> s_index s <> i) /\
      has_related_pkt_sets g' = has_related_pkt_sets ex_pkt0 /\
      pkt_rep (fun k => k) 2 4 g'
        (<[0 := (fun _ : Z => []) 0 ++ [Session i 13 113 19 6]]> (fun _ => []))
  | (false, g1) => add_pkt_set_commit (fun k => k) 2 4 8 77 0 13 0 6 g1 = Some g1 /\
      pkt_rep (fun k => k) 2 4 g1 (fun _ => [])
  end.
Proof.
  split; [vm_compute; reflexivity|].
  apply (pkt_add_spec Z.eqb (fun k => k) 2 4 ex_pkt0 (fun _ => []) 0 0 6 77 13 113 19 8);
    [intros; apply Z.eqb_eq|lia|exact ex_pkt_rep0|lia|lia|by intros s ?%not_elem_of_nil|].
  intros _. split; [lia|]. by intros s ?%not_elem_of_nil.
Defined.

(** Every other read validation fails. *)
Definition ex_runtime : RluRuntime Z Z :=
  {| reader_lock := fun w => (w, w);
     reader_unlock := fun t w => (Z.odd t, w);
     rlu_abort := fun _ w => w + 1 |}.
Definition ex_handler : M (Z * Z) unit := fun st => (Some tt, (st.1 + 1, st.2)).

Lemma pkt_expire_spec_witness :
  fmap (fun r : Z * (pkt_set_manager Z Z * Z) => (r.1, r.2.2))
    (@delete_expired_pkt_sets Z Z Z.eqb (fun k => k) 2 4 Z Z ex_runtime ex_handler 8 8 10 0 ex_pkt2 4) =
    Some (1, 5) /\
  exists i j, let abs := <[0 := [Session i 10 110 15 1; Session j 12 112 17 7]]> (fun _ => []) in
  let l' := [Session j 12 112 17 7] in
  l' = filter (fun s => 10 - pkt_set_validity_duration ex_pkt2 <= s_time s) (abs 0) /\
  exists n0, forall n fuel, (n0 <= n)%nat -> (n0 <= fuel)%nat -> exists g',
    @delete_expired_pkt_sets Z Z Z.eqb (fun k => k) 2 4 Z Z ex_runtime ex_handler n fuel 10 0 ex_pkt2 4 =
      Some (Z.of_nat (length (abs 0)) - Z.of_nat (length l'), (g', 5)) /\
    pkt_rep (fun k => k) 2 4 g' (<[0 := l']> abs).
Proof.
  split; [vm_compute; reflexivity|]. destruct ex_pkt_rep2 as (i & j & Hr). exists i, j.
  cbv zeta.
  apply (@pkt_expire_spec Z Z _ _ Z.eqb (fun k => k) 2 4 Z Z ex_runtime ex_handler ex_pkt2 _ 0 10
    _ 4 5 ltac:(intros; apply Z.eqb_eq) ltac:(lia) Hr ltac:(lia) ltac:(lia)).
  - vm_compute. split; [discriminate|reflexivity].
  - rewrite fn_lookup_insert. repeat constructor; cbn; lia.
  - rewrite fn_lookup_insert. assert (pkt_set_validity_duration ex_pkt2 = 5) as -> by (vm_compute; reflexivity).
    apply expires_next with (st := 17) (w1 := 5); [cbn; lia| |].
    + eapply outcome_retry; [by eapply attempt_invalid|]. by eapply outcome_commit, attempt_commit.
    + apply expires_stop. intros s [= <-]. cbn. lia.
Defined.
