(* ===== verification/DataPlane.v ===== *)
(** * Packet processing

    src/src/data-plane.c: parsing and classifying a packet, the NF's handlers
    as critical sections with their restarts, and the roll-back of packet-set
    state that a handler changed in place.  [process_pkt] is the build without
    PKT_PROCESS_BATCHING, [process_pkt_batch] the one with it; the flag
    [mutable] is MUTABLE_PKT_SET_STATE.  The NF's functions are parameters. *)

From stdpp Require Import gmap.
From S2P Require Import Prelude Rlu Txn NfosMap Links ConcDchain ConcMap PktSet.
Open Scope Z_scope.

Definition FLOOD_PORT : Z := 65535.

(** What a handler can reach on its core, apart from its transaction: the
    packet, the core's dst_device, and the packet-set manager, through the
    pointer to a packet set's state and through add_pkt_set. *)
Record nf_mem (P K S : Type) := NfMem {
  nf_packet : P;
  nf_dst_device : Z;
  nf_manager : pkt_set_manager K S
}.
Arguments NfMem {P K S} _ _ _.
Arguments nf_packet {P K S} _.
Arguments nf_dst_device {P K S} _.
Arguments nf_manager {P K S} _.

(** Incoming device, the index whose state pkt_set_state points to ([None]
    for NULL), packet-set id. *)
Definition pkt_handler_t (P K S T : Type) : Type :=
  Z -> option Z -> K -> M (nf_mem P K S * T) unit.

(** The functions an NF defines (include/nf.h).  [B]: received buffers.  The
    parser is given the length declared with packet_state_total_length; the
    dispatcher returns the packet class, the id and has_pkt_set_state. *)
Class NfHandlers (B P K S T : Type) := {
  set_len : Z -> P -> P;
  nf_pkt_parser : B -> Z -> P -> bool * P;
  nf_pkt_dispatcher : P -> Z -> Z * K * bool;
  nf_unknown_pkt_set_handler : Z -> K -> M (nf_mem P K S * T) unit
}.

(** The static pointer the data plane keeps. *)
Definition _register_pkt_handlers {H : Type} (handlers : Z -> H) (_ : Z -> H) : bool * (Z -> H) :=
  (true, handlers).

Section handler_api.
Context {P K S T : Type}.
Implicit Types m : nf_mem P K S.

Definition send_pkt (dev : Z) : M (nf_mem P K S * T) unit :=
  fun '(m, t) => (Some tt, (NfMem (nf_packet m) dev (nf_manager m), t)).
Definition flood_pkt : M (nf_mem P K S * T) unit :=
  fun '(m, t) => (Some tt, (NfMem (nf_packet m) FLOOD_PORT (nf_manager m), t)).
Definition drop_pkt : M (nf_mem P K S * T) unit := fun s => (Some tt, s).

(** add_pkt_set of nf.c, for the core's partition. *)
Definition add_pkt_set (num_cores core pkt_set_partition : Z) (_ : K) (pkt_set_state : S)
    (related_pkt_set_id : option K) : M (nf_mem P K S * T) bool :=
  fun '(m, t) =>
    let (r, g) := add_pkt_set_log num_cores core pkt_set_state pkt_set_partition related_pkt_set_id
                    (nf_manager m) in
    (Some r, (NfMem (nf_packet m) (nf_dst_device m) g, t)).

(** Code that only uses the memory of the core. *)
Definition on_nf_mem {A} (f : nf_mem P K S -> A * nf_mem P K S) : M (nf_mem P K S * T) A :=
  fun '(m, t) => let (a, m) := f m in (Some a, (m, t)).

Definition set_manager (g : pkt_set_manager K S) m : nf_mem P K S :=
  NfMem (nf_packet m) (nf_dst_device m) g.
Definition set_dst_device (dev : Z) m : nf_mem P K S :=
  NfMem (nf_packet m) dev (nf_manager m).
Definition set_packet (p : P) m : nf_mem P K S :=
  NfMem p (nf_dst_device m) (nf_manager m).

(** A handler's write through the pointer to a packet set's state. *)
Definition write_state (index : Z) (st : S) (g : pkt_set_manager K S) : pkt_set_manager K S :=
  set_states (<[index := st]> (pkt_set_state g)) g.
End handler_api.

(** *** One packet at a time *)

(** The core's memory: with the copy log_pkt_set_state makes. *)
Record core_mem (P K S : Type) := Core {
  nf : nf_mem P K S;
  pkt_set_state_log : S
}.
Arguments Core {P K S} _ _.
Arguments nf {P K S} _.
Arguments pkt_set_state_log {P K S} _.

Section process_pkt.
Context {B P K S W T : Type} `{RluRuntime W T} `{NfHandlers B P K S T}.
Context (keys_eq : K -> K -> bool) (khash : K -> Z) (num_cores MAX_NUM_PKT_SETS : Z).
Variables (mutable : bool) (pkt_handlers : Z -> pkt_handler_t P K S T).
Implicit Types l : core_mem P K S.

Definition on_core (h : M (nf_mem P K S * T) unit) : M (core_mem P K S * T) unit :=
  fun '(l, t) => let '(r, (m, t)) := h (nf l, t) in (r, (Core m (pkt_set_state_log l), t)).

Definition log_pkt_set_state (state : Z) l : core_mem P K S :=
  if mutable then Core (nf l) (pkt_set_state (nf_manager (nf l)) state) else l.

Definition rollback_pkt_set_state (state : Z) l : core_mem P K S :=
  if mutable then
    Core (set_manager (write_state state (pkt_set_state_log l) (nf_manager (nf l))) (nf l))
      (pkt_set_state_log l)
  else l.

Definition clear_log (core : Z) l : core_mem P K S :=
  Core (set_manager (add_pkt_set_log_clear core (nf_manager (nf l))) (nf l)) (pkt_set_state_log l).

(** [uninit]: see [add_pkt_set_commit].  Returns the destination device. *)
Definition process_pkt (fuel : nat) (uninit core device : Z) (buffer : B) (buffer_length now : Z)
    (pkt_set_partition : Z) l (w : W) : option (Z * (core_mem P K S * W)) :=
  let m := set_dst_device device (nf l) in
  let (parse_res, packet) := nf_pkt_parser buffer (u32 buffer_length)
                               (set_len buffer_length (nf_packet m)) in
  let l := Core (set_packet packet m) (pkt_set_state_log l) in
  if parse_res then
    let '(pkt_class, pkt_set_id, has_pkt_set_state) := nf_pkt_dispatcher packet device in
    let pkt_handler := pkt_handlers pkt_class in
    if negb has_pkt_set_state then
      match run_txn (fun l => l) (fun l => l) (on_core (pkt_handler device None pkt_set_id)) fuel l w with
      | None => None
      | Some (_, (l, w)) => Some (nf_dst_device (nf l), (l, w))
      end
    else
      match get_pkt_set_state keys_eq khash num_cores MAX_NUM_PKT_SETS fuel pkt_set_id
              pkt_set_partition now (nf_manager (nf l)) with
      | None => None
      | Some (Some pkt_set_state, g) =>
          let l := Core (set_manager g (nf l)) (pkt_set_state_log l) in
          match run_txn (log_pkt_set_state pkt_set_state) (rollback_pkt_set_state pkt_set_state)
                  (on_core (pkt_handler device (Some pkt_set_state) pkt_set_id)) fuel l w with
          | None => None
          | Some (_, (l, w)) => Some (nf_dst_device (nf l), (l, w))
          end
      | Some (None, g) =>
          let l := Core (set_manager g (nf l)) (pkt_set_state_log l) in
          match run_txn (clear_log core) (fun l => l)
                  (on_core (nf_unknown_pkt_set_handler device pkt_set_id)) fuel l w with
          | None => None
          | Some (_, (l, w)) =>
              match add_pkt_set_commit khash num_cores MAX_NUM_PKT_SETS fuel uninit core pkt_set_id
                      pkt_set_partition now (nf_manager (nf l)) with
              | None => None
              | Some g =>
                  let l := Core (set_manager g (nf l)) (pkt_set_state_log l) in
                  Some (nf_dst_device (nf l), (l, w))
              end
          end
      end
  else Some (nf_dst_device (nf l), (l, w)).
End process_pkt.

(** *** Batches of packets *)

(** The length of the local arrays and of the log of packet-set states. *)
Definition MAX_BATCH : Z := 32.

(** The local arrays that describe a batch. *)
Record batch_class (P K : Type) := BatchClass {
  packet : Z -> P;
  pkt_set_id : Z -> K;
  parse_res : Z -> bool;
  has_pkt_set_state : Z -> bool;
  pkt_class : Z -> Z;
  class_dst_devices : Z -> Z
}.
Arguments BatchClass {P K} _ _ _ _ _ _.
Arguments packet {P K} _.
Arguments pkt_set_id {P K} _.
Arguments parse_res {P K} _.
Arguments has_pkt_set_state {P K} _.
Arguments pkt_class {P K} _.
Arguments class_dst_devices {P K} _.

(** pkt_set_state_log_t; pointers to packet-set states are indexes. *)
Record pkt_set_state_log_t (S : Type) := StateLog {
  num_logged : Z;
  states : Z -> S;
  states_main_copy : Z -> Z
}.
Arguments StateLog {S} _ _ _.
Arguments num_logged {S} _.
Arguments states {S} _.
Arguments states_main_copy {S} _.

Record batch_mem (P K S : Type) := Batch {
  b_packet : Z -> P;
  dst_devices : Z -> Z;
  b_dst_device : Z;
  b_manager : pkt_set_manager K S;
  b_log : pkt_set_state_log_t S
}.
Arguments Batch {P K S} _ _ _ _ _.
Arguments b_packet {P K S} _.
Arguments dst_devices {P K S} _.
Arguments b_dst_device {P K S} _.
Arguments b_manager {P K S} _.
Arguments b_log {P K S} _.

(** *** The log of packet-set states

    Its arrays have MAX_BATCH entries; a transaction resets it and logs at
    most one state per packet of the batch, and process_pkt_batch below has no
    result for a batch that is longer. *)

Section state_log.
Context {K S : Type}.
Implicit Types (log : pkt_set_state_log_t S) (g : pkt_set_manager K S).

Definition reset_log_pkt_set_state log : pkt_set_state_log_t S :=
  StateLog 0 (states log) (states_main_copy log).

Definition log_one_pkt_set_state (state : Z) g log : pkt_set_state_log_t S :=
  let num_logged := num_logged log in
  StateLog (u16 (num_logged + 1)) (<[num_logged := pkt_set_state g state]> (states log))
    (<[num_logged := state]> (states_main_copy log)).

Definition rollback_pkt_set_states log g : pkt_set_manager K S :=
  loop_range 0 (Z.to_nat (num_logged log))
    (fun i g => write_state (states_main_copy log i) (states log i) g) g.
End state_log.

Section process_batch.
Context {B P K S W T : Type} `{RluRuntime W T} `{NfHandlers B P K S T}.
Context (keys_eq : K -> K -> bool) (khash : K -> Z) (num_cores MAX_NUM_PKT_SETS : Z).
Variables (mutable : bool) (pkt_handlers : Z -> pkt_handler_t P K S T).
Implicit Types (l : batch_mem P K S) (g : pkt_set_manager K S).

Definition set_b_dst_device (dev : Z) l : batch_mem P K S :=
  Batch (b_packet l) (dst_devices l) dev (b_manager l) (b_log l).
Definition set_b_manager g l : batch_mem P K S :=
  Batch (b_packet l) (dst_devices l) (b_dst_device l) g (b_log l).
Definition set_b_log (log : pkt_set_state_log_t S) l : batch_mem P K S :=
  Batch (b_packet l) (dst_devices l) (b_dst_device l) (b_manager l) log.

(** The stateless part; [mbufs]: the buffers and their data_len. *)
Definition classify_batch (mbufs : Z -> B * Z) (device batch_size : Z) (c0 : batch_class P K)
    : batch_class P K :=
  loop_range 0 (Z.to_nat batch_size)
    (fun i c =>
       let (buffer, data_len) := mbufs i in
       let (res, p) := nf_pkt_parser buffer (u32 data_len) (set_len (u16 data_len) (packet c i)) in
       let '(class, id, has) := nf_pkt_dispatcher p device in
       BatchClass (<[i := p]> (packet c)) (<[i := id]> (pkt_set_id c)) (<[i := res]> (parse_res c))
         (<[i := has]> (has_pkt_set_state c)) (<[i := class]> (pkt_class c))
         (<[i := device]> (class_dst_devices c)))
    c0.

(** A handler for packet [n] of the batch. *)
Definition on_packet (n : Z) (h : M (nf_mem P K S * T) unit) : M (batch_mem P K S * T) unit :=
  fun '(l, t) =>
    let '(r, (m, t)) := h (NfMem (b_packet l n) (b_dst_device l) (b_manager l), t) in
    (r, (Batch (<[n := nf_packet m]> (b_packet l)) (dst_devices l) (nf_dst_device m) (nf_manager m)
           (b_log l), t)).

(** A statement that touches the core's own memory only. *)
Definition on_mem (f : batch_mem P K S -> batch_mem P K S) : M (batch_mem P K S * T) unit :=
  fun '(l, t) => (Some tt, (f l, t)).

(** dst_devices[n] = RTE_PER_LCORE(dst_device); *)
Definition store_dst_device (n : Z) l : batch_mem P K S :=
  Batch (b_packet l) (<[n := b_dst_device l]> (dst_devices l)) (b_dst_device l) (b_manager l) (b_log l).

Section batch.
Variables (c : batch_class P K) (device batch_size : Z).

(** while (n < batch_size && !parse_res[n]) n++; *)
Fixpoint skip_unparsed (k : nat) (n : Z) : Z :=
  match k with
  | O => n
  | Datatypes.S k =>
      if (n <? batch_size) && negb (parse_res c n) then skip_unparsed k (n + 1) else n
  end.
Definition next_parsed (n : Z) : Z := skip_unparsed (Z.to_nat (batch_size - (n + 1))) (n + 1).

(** The orphan packets of a batch: one transaction. *)
Definition orphan_body : M (batch_mem P K S * T) unit :=
  for_range 0 (Z.to_nat batch_size) (fun i =>
    if parse_res c i then
      on_mem (fun l => set_b_dst_device (dst_devices l i) l) ;;
      on_packet i (pkt_handlers (pkt_class c i) device None (pkt_set_id c i)) ;;
      on_mem (store_dst_device i)
    else ret tt).

Definition log_one (n : Z) (pkt_set_state : Z -> Z) l : batch_mem P K S :=
  if mutable then set_b_log (log_one_pkt_set_state (pkt_set_state n) (b_manager l) (b_log l)) l else l.
Definition reset_log l : batch_mem P K S :=
  if mutable then set_b_log (reset_log_pkt_set_state (b_log l)) l else l.
Definition rollback l : batch_mem P K S :=
  if mutable then set_b_manager (rollback_pkt_set_states (b_log l) (b_manager l)) l else l.

(** The packets [n], ... before [end_n] of registered packet sets: one
    transaction.  [k] bounds the packets that follow. *)
Fixpoint range_body (k : nat) (pkt_set_state : Z -> Z) (end_n n : Z) : M (batch_mem P K S * T) unit :=
  on_mem (log_one n pkt_set_state) ;;
  on_mem (set_b_dst_device device) ;;
  on_packet n (pkt_handlers (pkt_class c n) device (Some (pkt_set_state n)) (pkt_set_id c n)) ;;
  on_mem (store_dst_device n) ;;
  let n := next_parsed n in
  if n <? end_n then
    match k with
    | O => ret tt
    | Datatypes.S k => range_body k pkt_set_state end_n n
    end
  else ret tt.

Variables (now pkt_set_partition : Z).

Definition borrow_state (fuel : nat) (n : Z) (pkt_set_state : Z -> Z) g
    : option (bool * ((Z -> Z) * pkt_set_manager K S)) :=
  match get_pkt_set_state keys_eq khash num_cores MAX_NUM_PKT_SETS fuel (pkt_set_id c n)
          pkt_set_partition now g with
  | None => None
  | Some (Some index, g) => Some (true, (<[n := index]> pkt_set_state, g))
  | Some (None, g) => Some (false, (pkt_set_state, g))
  end.

(** The index range of the packets that belong to registered packet sets. *)
Fixpoint find_range (k fuel : nat) (n : Z) (pkt_set_state : Z -> Z) g
    : option (Z * ((Z -> Z) * pkt_set_manager K S)) :=
  let n := next_parsed n in
  if n <? batch_size then
    match borrow_state fuel n pkt_set_state g with
    | None => None
    | Some (reg_pkt_set, (pkt_set_state, g)) =>
        if (reg_pkt_set : bool) then
          match k with
          | O => None
          | Datatypes.S k => find_range k fuel n pkt_set_state g
          end
        else Some (n, (pkt_set_state, g))
    end
  else Some (n, (pkt_set_state, g)).

Fixpoint batch_loop (k fuel : nat) (uninit core n : Z) (reg_pkt_set : bool) (pkt_set_state : Z -> Z)
    l (w : W) : option (batch_mem P K S * W) :=
  if n <? batch_size then
    match k with
    | O => None
    | Datatypes.S k =>
        if negb reg_pkt_set then
          let l := set_b_dst_device device l in
          match run_txn (fun l => set_b_manager (add_pkt_set_log_clear core (b_manager l)) l)
                  (fun l => l) (on_packet n (nf_unknown_pkt_set_handler device (pkt_set_id c n)))
                  fuel l w with
          | None => None
          | Some (_, (l, w)) =>
              match add_pkt_set_commit khash num_cores MAX_NUM_PKT_SETS fuel uninit core
                      (pkt_set_id c n) pkt_set_partition now (b_manager l) with
              | None => None
              | Some g =>
                  let l := store_dst_device n (set_b_manager g l) in
                  let n := next_parsed n in
                  if n <? batch_size then
                    match borrow_state fuel n pkt_set_state (b_manager l) with
                    | None => None
                    | Some (reg_pkt_set, (pkt_set_state, g)) =>
                        batch_loop k fuel uninit core n reg_pkt_set pkt_set_state (set_b_manager g l) w
                    end
                  else batch_loop k fuel uninit core n reg_pkt_set pkt_set_state l w
              end
          end
        else
          let start_n := n in
          match find_range (Z.to_nat batch_size) fuel n pkt_set_state (b_manager l) with
          | None => None
          | Some (end_n, (pkt_set_state, g)) =>
              match run_txn reset_log rollback
                      (range_body (Z.to_nat batch_size) pkt_set_state end_n start_n)
                      fuel (set_b_manager g l) w with
              | None => None
              | Some (_, (l, w)) => batch_loop k fuel uninit core end_n false pkt_set_state l w
              end
          end
    end
  else Some (l, w).

(** What follows the classification.  [ptr0], [reg0]: what the local
    variables hold at first. *)
Definition stateful_processing (fuel : nat) (uninit core : Z) (ptr0 : Z -> Z) (reg0 : bool) l (w : W)
    : option (batch_mem P K S * W) :=
  if negb (has_pkt_set_state c 0) then
    match run_txn (fun l => l) (fun l => l) orphan_body fuel l w with
    | None => None
    | Some (_, (l, w)) => Some (l, w)
    end
  else
    let n := skip_unparsed (Z.to_nat batch_size) 0 in
    if n <? batch_size then
      match borrow_state fuel n ptr0 (b_manager l) with
      | None => None
      | Some (reg_pkt_set, (ptr, g)) =>
          batch_loop (Z.to_nat batch_size) fuel uninit core n reg_pkt_set ptr (set_b_manager g l) w
      end
    else batch_loop (Z.to_nat batch_size) fuel uninit core n reg0 ptr0 l w.
End batch.

(** [c0]: what the arrays of the classification hold at first; [device]: the
    port of the first packet.  A batch longer than the arrays overruns
    them: no result. *)
Definition process_pkt_batch (fuel : nat) (uninit core : Z) (c0 : batch_class P K) (ptr0 : Z -> Z)
    (reg0 : bool) (mbufs : Z -> B * Z) (device batch_size now pkt_set_partition dst_device : Z) g
    (log : pkt_set_state_log_t S) (w : W) : option (batch_mem P K S * W) :=
  if MAX_BATCH <? batch_size then None
  else
  let c := classify_batch mbufs device batch_size c0 in
  stateful_processing c device batch_size now pkt_set_partition fuel uninit core ptr0 reg0
    (Batch (packet c) (class_dst_devices c) dst_device g log) w.
End process_batch.

(** ** The specification *)

Section spec.
Context {B P K S W T : Type} `{RluRuntime W T} `{NfHandlers B P K S T} `{Countable K}.
Context (keys_eq : K -> K -> bool) (khash : K -> Z) (N MAX : Z).
Variables (mutable : bool) (pkt_handlers : Z -> pkt_handler_t P K S T).
Variables (core partition device now : Z).

(** What the NF interface asks of handlers: they change the state of the
    packet set they are given, and only if it is declared mutable; a handler
    of an unknown packet set may ask for it to be added. *)
Record nf_contract : Prop := {
  contract_orphan class dev k m t r m' t' :
    pkt_handlers class dev None k (m, t) = (r, (m', t')) -> nf_manager m' = nf_manager m;
  contract_registered class dev i k m t r m' t' :
    pkt_handlers class dev (Some i) k (m, t) = (r, (m', t')) ->
    nf_manager m' = nf_manager m \/ exists st,
    nf_manager m' = write_state i st (nf_manager m) /\
    (mutable = false -> st = pkt_set_state (nf_manager m) i);
  contract_unknown dev k m t r m' t' :
    nf_unknown_pkt_set_handler dev k (m, t) = (r, (m', t')) ->
    nf_manager m' = nf_manager m \/
    exists st k2, nf_manager m' = (add_pkt_set_log N core st partition k2 (nf_manager m)).2
}.

(** If packet sets have related ids, the NF chooses new ones. *)
Definition fresh_related (related : bool) (buffer : B) (len : Z) (p0 : P) (l : list (session K S))
    : Prop :=
  related = true -> forall p class k m (t : T) m' t',
  nf_pkt_parser buffer (u32 len) (set_len len p0) = (true, p) ->
  nf_pkt_dispatcher p device = (class, k, true) ->
  (forall s, s ∈ l -> ~ named true s k) ->
  PktSet.add_pkt_set (log_entry (nf_manager m) core) = false ->
  nf_unknown_pkt_set_handler device k (m, t) = (Some tt, (m', t')) ->
  let e := log_entry (nf_manager m') core in
  PktSet.add_pkt_set e = true ->
  related_pkt_set_id e <> k /\ forall s, s ∈ l -> ~ named true s (related_pkt_set_id e).

Definition with_state (st : S) (s : session K S) : session K S :=
  Session (s_index s) (s_id s) (s_related s) st (s_time s).

(** The packet and dst_device a run of the handler [h] starts from: those
    given, or what an earlier run has left of them, for no restart puts them
    back.  [from]: the transactions and the rest of the memory that runs start
    from. *)
Inductive left_by (from : nf_mem P K S -> T -> Prop) (h : M (nf_mem P K S * T) unit) (p : P) (d : Z)
    : P -> Z -> Prop :=
| left_start : left_by from h p d p d
| left_retry m t r m' t' :
    left_by from h p d (nf_packet m) (nf_dst_device m) -> from m t -> h (m, t) = (r, (m', t')) ->
    left_by from h p d (nf_packet m') (nf_dst_device m').

(** Every run starts from a transaction of its own; the state of the packet
    set, or the entry of the log of additions, is as before the first one. *)
Definition from_orphan (_ : nf_mem P K S) (t : T) : Prop := from_lock W t.
Definition from_registered (s : session K S) (m : nf_mem P K S) (t : T) : Prop :=
  from_lock W t /\ pkt_set_state (nf_manager m) (s_index s) = s_state s.
Definition from_unknown (m : nf_mem P K S) (t : T) : Prop :=
  from_lock W t /\ PktSet.add_pkt_set (log_entry (nf_manager m) core) = false.

(** What processing one packet does to the packet sets of the core, and
    where it sends the packet: an unsupported packet is dropped, and in the
    other cases one complete run of a handler decides, from what earlier runs
    have left. *)
Inductive processed (related : bool) (buffer : B) (len : Z) (p0 : P) (l : list (session K S))
    : Z -> list (session K S) -> Prop :=
| processed_unparsed p :
    nf_pkt_parser buffer (u32 len) (set_len len p0) = (false, p) ->
    processed related buffer len p0 l device l
| processed_orphan p class k m t m' t' :
    nf_pkt_parser buffer (u32 len) (set_len len p0) = (true, p) ->
    nf_pkt_dispatcher p device = (class, k, false) ->
    from_orphan m t -> left_by from_orphan (pkt_handlers class device None k) p device (nf_packet m) (nf_dst_device m) ->
    pkt_handlers class device None k (m, t) = (Some tt, (m', t')) ->
    processed related buffer len p0 l (nf_dst_device m') l
| processed_registered p class k l1 s l2 m t m' t' :
    nf_pkt_parser buffer (u32 len) (set_len len p0) = (true, p) ->
    nf_pkt_dispatcher p device = (class, k, true) ->
    l = l1 ++ s :: l2 -> named related s k ->
    from_registered s m t ->
    left_by (from_registered s) (pkt_handlers class device (Some (s_index s)) k) p device
      (nf_packet m) (nf_dst_device m) ->
    pkt_handlers class device (Some (s_index s)) k (m, t) = (Some tt, (m', t')) ->
    processed related buffer len p0 l (nf_dst_device m')
      (l1 ++ l2 ++ [with_state (pkt_set_state (nf_manager m') (s_index s))
                      (touch now (bool_decide (l1 ++ l2 = [])) s)])
| processed_unknown p class k m t m' t' i :
    nf_pkt_parser buffer (u32 len) (set_len len p0) = (true, p) ->
    nf_pkt_dispatcher p device = (class, k, true) ->
    (forall s, s ∈ l -> ~ named related s k) ->
    from_unknown m t ->
    left_by from_unknown (nf_unknown_pkt_set_handler device k) p device (nf_packet m) (nf_dst_device m) ->
    nf_unknown_pkt_set_handler device k (m, t) = (Some tt, (m', t')) ->
    let e := log_entry (nf_manager m') core in
    processed related buffer len p0 l (nf_dst_device m')
      (if PktSet.add_pkt_set e then l ++ [Session i k (related_pkt_set_id e) (log_state e) now] else l).

Hypotheses (Heq : forall k k', keys_eq k k' = true <-> k = k') (HN : 0 < N <= MAX)
  (Hpart : 0 <= partition < N) (Hnf : nf_contract).
Implicit Types (l : core_mem P K S) (abs : Z -> list (session K S)) (g : pkt_set_manager K S).
Abbreviation rep := (pkt_rep khash N MAX).
Abbreviation mgr l := (nf_manager (nf l)).

Lemma on_core_inv (h : M (nf_mem P K S * T) unit) l t r l' t' :
  on_core h (l, t) = (r, (l', t')) ->
  h (nf l, t) = (r, (nf l', t')) /\ pkt_set_state_log l' = pkt_set_state_log l.
Proof. cbn. destruct (h (nf l, t)) as [r' [m t1]]. by intros [= -> <- ->]. Qed.

Abbreviation came from l m h :=
  (left_by from h (nf_packet (nf l)) (nf_dst_device (nf l)) (nf_packet m) (nf_dst_device m)).

Lemma orphan_spec class k fuel l w u l' w' :
  run_txn (fun l => l) (fun l => l) (on_core (pkt_handlers class device None k)) fuel l w =
    Some (u, (l', w')) ->
  mgr l' = mgr l /\
  exists m t t', from_orphan m t /\ came from_orphan l m (pkt_handlers class device None k) /\
    pkt_handlers class device None k (m, t) = (Some u, (nf l', t')).
Proof.
  intros Hrun. apply (run_txn_commits _ _ _ (fun l1 => mgr l1 = mgr l /\
    came from_orphan l (nf l1) (pkt_handlers class device None k))) in Hrun
    as (l0 & t & t1 & [E0 Hc] & Hl & [Hb _]%on_core_inv); [| |by split; [|apply left_start]].
  - split; [|by exists (nf l0), t, t1]. rewrite <- E0. by apply Hnf in Hb.
  - intros l1 t r l2 t1 [<- Hc] Hl [Hb _]%on_core_inv. split; [by apply Hnf in Hb|].
    by apply (left_retry _ _ _ _ (nf l1) t r _ t1).
Qed.

(** A handler's run on the packet set [s]. *)
Lemma registered_frame class k m t r m' t' abs (ss1 : list (session K S)) s ss2 :
  pkt_handlers class device (Some (s_index s)) k (m, t) = (r, (m', t')) ->
  rep (nf_manager m) abs -> abs partition = ss1 ++ s :: ss2 ->
  let st := pkt_set_state (nf_manager m') (s_index s) in
  rep (nf_manager m') (<[partition := ss1 ++ with_state st s :: ss2]> abs) /\
  has_related_pkt_sets (nf_manager m') = has_related_pkt_sets (nf_manager m) /\
  (mutable = false -> st = s_state s).
Proof.
  intros Hh Hr E. assert (pkt_set_state (nf_manager m) (s_index s) = s_state s) as Hst.
  { apply (pr_state _ _ _ _ _ Hr partition). rewrite E, elem_of_app. right. left. }
  apply Hnf in Hh as [->|(st & -> & Hmut)]; cbn.
  - rewrite Hst. split; [|done]. eapply pkt_rep_ext; [|exact Hr]. intros c. rewrite fn_insert_dec.
    destruct (decide (partition = c)) as [<-|]; [|done]. rewrite E. by destruct s.
  - rewrite fn_lookup_insert. split; [by apply (set_state_rep keys_eq)|]. split; [done|]. intros. by rewrite Hmut.
Qed.

(** The copy and the roll-back around a registered packet set's handler. *)
Lemma registered_spec class k fuel l w u l' w' abs (ss1 : list (session K S)) s ss2 :
  run_txn (log_pkt_set_state mutable (s_index s)) (rollback_pkt_set_state mutable (s_index s))
    (on_core (pkt_handlers class device (Some (s_index s)) k)) fuel l w = Some (u, (l', w')) ->
  rep (mgr l) abs -> abs partition = ss1 ++ s :: ss2 ->
  exists m t t', pkt_handlers class device (Some (s_index s)) k (m, t) = (Some u, (nf l', t')) /\
    from_registered s m t /\
    came (from_registered s) l m (pkt_handlers class device (Some (s_index s)) k) /\
    rep (mgr l') (<[partition :=
      ss1 ++ with_state (pkt_set_state (mgr l') (s_index s)) s :: ss2]> abs) /\
    has_related_pkt_sets (mgr l') = has_related_pkt_sets (mgr l).
Proof.
  intros Hrun Hr E.
  assert (forall l0, nf (log_pkt_set_state mutable (s_index s) l0) = nf l0) as Hlog.
  { intros l0. unfold log_pkt_set_state. by destruct mutable. }
  assert (forall l0, rep (mgr l0) abs -> pkt_set_state (mgr l0) (s_index s) = s_state s) as Hst.
  { intros l0 Hr0. apply (pr_state _ _ _ _ _ Hr0 partition). rewrite E, elem_of_app. right. left. }
  apply (run_txn_commits _ _ _ (fun l0 => (rep (mgr l0) abs /\
    has_related_pkt_sets (mgr l0) = has_related_pkt_sets (mgr l)) /\
    came (from_registered s) l (nf l0) (pkt_handlers class device (Some (s_index s)) k))) in Hrun
    as (l0 & t & t1 & [[Hr0 Hh0] Hc] & Hl & [Hb _]%on_core_inv); [| |by split; [|apply left_start]].
  - rewrite Hlog in Hb. exists (nf l0), t, t1. split; [done|]. split; [by split; [|apply Hst]|]. split; [done|].
    destruct (registered_frame _ _ _ _ _ _ _ abs ss1 s ss2 Hb Hr0 E) as (Hr1 & Hh1 & _). split; [done|].
    by rewrite Hh1.
  - intros l0 t r l3 t1 [[Hr0 Hh0] Hc] Hlk [Hb Hl]%on_core_inv. rewrite Hlog in Hb.
    destruct (registered_frame _ _ _ _ _ _ _ abs ss1 s ss2 Hb Hr0 E) as (Hr1 & Hh1 & Hmut). cbv zeta in Hr1, Hmut.
    pose proof (left_retry _ _ _ _ (nf l0) t r (nf l3) t1 Hc (conj Hlk (Hst _ Hr0)) Hb) as Hc1.
    unfold rollback_pkt_set_state, log_pkt_set_state in *. destruct mutable.
    + cbn in Hl. cbn. split; [|done]. rewrite Hl, (Hst _ Hr0). split; [|by rewrite Hh1].
      pose proof (set_state_rep keys_eq khash N MAX Heq HN _ _ partition ss1
        (with_state (pkt_set_state (mgr l3) (s_index s)) s) ss2 (s_state s) Hr1 ltac:(by rewrite fn_lookup_insert)) as Hr2.
      cbn in Hr2. eapply pkt_rep_ext; [|exact Hr2]. intros c. rewrite !fn_insert_dec.
      destruct (decide (partition = c)) as [<-|]; [|done]. rewrite E. by destruct s.
    + split; [|done]. split; [|by rewrite Hh1]. rewrite Hmut in Hr1 by done.
      eapply pkt_rep_ext; [|exact Hr1]. intros c. rewrite fn_insert_dec.
      destruct (decide (partition = c)) as [<-|]; [|done]. rewrite E. by destruct s.
Qed.

(** What a handler of an unknown packet set leaves of the manager. *)
Lemma unknown_frame k m t r m' t' abs :
  nf_unknown_pkt_set_handler device k (m, t) = (r, (m', t')) -> rep (nf_manager m) abs ->
  PktSet.add_pkt_set (log_entry (nf_manager m) core) = false ->
  rep (nf_manager m') abs /\
  has_related_pkt_sets (nf_manager m') = has_related_pkt_sets (nf_manager m) /\
  (PktSet.add_pkt_set (log_entry (nf_manager m') core) = true ->
     concurrent_dchain_has_free_indexes N (pkt_set_chain (nf_manager m')) partition = true).
Proof.
  intros Hh Hr Hclear. apply Hnf in Hh as [->|(st & k2 & ->)].
  { split; [done|]. split; [done|]. by rewrite Hclear. }
  unfold add_pkt_set_log. destruct (concurrent_dchain_has_free_indexes _ _ _) eqn:Ef; cbn.
  - split; [by apply pkt_rep_log|]. by split.
  - split; [done|]. split; [done|]. by rewrite Hclear.
Qed.

Lemma unknown_spec k fuel l w u l' w' abs :
  run_txn (clear_log core) (fun l => l) (on_core (nf_unknown_pkt_set_handler device k)) fuel l w =
    Some (u, (l', w')) -> rep (mgr l) abs ->
  exists m t t', nf_unknown_pkt_set_handler device k (m, t) = (Some u, (nf l', t')) /\
    came from_unknown l m (nf_unknown_pkt_set_handler device k) /\
    from_unknown m t /\ rep (mgr l') abs /\
    has_related_pkt_sets (nf_manager m) = has_related_pkt_sets (mgr l) /\
    has_related_pkt_sets (mgr l') = has_related_pkt_sets (mgr l) /\
    (PktSet.add_pkt_set (log_entry (mgr l') core) = true ->
       concurrent_dchain_has_free_indexes N (pkt_set_chain (mgr l')) partition = true).
Proof.
  intros Hrun Hr.
  assert (forall l0, rep (mgr l0) abs -> rep (mgr (clear_log core l0)) abs /\
    PktSet.add_pkt_set (log_entry (mgr (clear_log core l0)) core) = false) as Hcl.
  { intros l0 Hr0. cbn. rewrite fn_lookup_insert. split; [by apply pkt_rep_log|done]. }
  apply (run_txn_commits _ _ _ (fun l0 => (rep (mgr l0) abs /\
    has_related_pkt_sets (mgr l0) = has_related_pkt_sets (mgr l)) /\
    came from_unknown l (nf l0) (nf_unknown_pkt_set_handler device k))) in Hrun
    as (l0 & t & t1 & [[Hr0 Hh0] Hcm] & Hlk & [Hb _]%on_core_inv); [| |by split; [|apply left_start]].
  - destruct (Hcl l0 Hr0) as [Hr1 Hc1].
    destruct (unknown_frame _ _ _ _ _ _ abs Hb Hr1 Hc1) as (Hr2 & Hh2 & Hf).
    exists (nf (clear_log core l0)), t, t1. do 4 (split; [done|]). split; [done|].
    split; [by rewrite Hh2|done].
  - intros l1 t r l2 t1 [[Hr1 Hh1] Hcm] Hlk [Hb _]%on_core_inv. destruct (Hcl l1 Hr1) as [Hr2 Hc2].
    split; [|by apply (left_retry _ _ _ _ (nf (clear_log core l1)) t r _ t1 Hcm (conj Hlk Hc2) Hb)].
    destruct (unknown_frame _ _ _ _ _ _ abs Hb Hr2 Hc2) as (Hr3 & Hh3 & _).
    split; [done|]. by rewrite Hh3.
Qed.

Lemma get_keeps_related fuel k g r g' :
  get_pkt_set_state keys_eq khash N MAX fuel k partition now g = Some (r, g') ->
  has_related_pkt_sets g' = has_related_pkt_sets g.
Proof.
  unfold get_pkt_set_state. destruct (concurrent_map_get _ _ _ _ _ _ _ _) as [[i|]|]; [|congruence|done].
  destruct (concurrent_dchain_rejuvenate_index _ _ _ _ _). by intros [= _ <-].
Qed.

(** The commit after an unknown packet set's handler. *)
Lemma unknown_commit k fuel uninit g (abs : Z -> list (session K S)) :
  rep g abs -> 2 * MAX <= Z.of_nat fuel ->
  (forall s, s ∈ abs partition -> ~ named (has_related_pkt_sets g) s k) ->
  let e := log_entry g core in
  (PktSet.add_pkt_set e = true -> concurrent_dchain_has_free_indexes N (pkt_set_chain g) partition = true) ->
  (has_related_pkt_sets g = true -> PktSet.add_pkt_set e = true -> related_pkt_set_id e <> k /\
     forall s, s ∈ abs partition -> ~ named (has_related_pkt_sets g) s (related_pkt_set_id e)) ->
  exists g' i, add_pkt_set_commit khash N MAX fuel uninit core k partition now g = Some g' /\
    rep g' (<[partition := if PktSet.add_pkt_set e
      then abs partition ++ [Session i k (related_pkt_set_id e) (log_state e) now]
      else abs partition]> abs).
Proof.
  intros Hr Hf Hk e Hfree Hrel. destruct e as [b k2 st] eqn:Ee. unfold e in Ee.
  cbn [PktSet.add_pkt_set related_pkt_set_id log_state] in *. destruct b.
  - destruct (commit_spec keys_eq khash N MAX Heq HN g abs partition k k2 st now core uninit fuel)
      as (g' & i & E & _ & _ & Hr'); try done; [by apply Hfree|by intros; apply Hrel|].
    by exists g', i.
  - exists g, 0. unfold add_pkt_set_commit. rewrite Ee. split; [done|].
    eapply pkt_rep_ext; [|exact Hr]. intros c. clear. fcases; done.
Qed.
Lemma commit_keeps_related fuel uninit k g g' :
  add_pkt_set_commit khash N MAX fuel uninit core k partition now g = Some g' ->
  has_related_pkt_sets g' = has_related_pkt_sets g.
Proof.
  unfold add_pkt_set_commit. destruct (PktSet.add_pkt_set _); [|congruence].
  destruct (concurrent_dchain_allocate_new_index _ _ _ _) as [r f].
  destruct (concurrent_map_put _ _ _ _ _ _ _ _) as [[map1 f1]|]; [|done].
  destruct (if has_related_pkt_sets g then _ else _) as [[map2 f2]|]; [|done]. by intros [= <-].
Qed.

(** One packet, for a run of process_pkt that returns. *)
Lemma process_pkt_spec fuel uninit len dst (buffer : B) l l' (w w' : W) (abs : Z -> list (session K S)) :
  2 * MAX <= Z.of_nat fuel ->
  fresh_related (has_related_pkt_sets (mgr l)) buffer len (nf_packet (nf l)) (abs partition) ->
  rep (mgr l) abs ->
  process_pkt keys_eq khash N MAX mutable pkt_handlers fuel uninit core device buffer len now
    partition l w = Some (dst, (l', w')) ->
  (exists sessions : list (session K S), rep (mgr l') (<[partition := sessions]> abs) /\
    processed (has_related_pkt_sets (mgr l)) buffer len (nf_packet (nf l)) (abs partition) dst sessions) /\
  has_related_pkt_sets (mgr l') = has_related_pkt_sets (mgr l).
Proof.
  intros Hfuel Hrel Hr.
  assert (forall g, pkt_rep khash N MAX g abs -> pkt_rep khash N MAX g (<[partition := abs partition]> abs))
    as Hsame.
  { intros g Hg. eapply pkt_rep_ext; [|exact Hg]. intros c. clear. fcases; done. }
  unfold process_pkt.
  destruct (nf_pkt_parser _ _ _) as [[] p] eqn:Ep; cbn in Ep.
  2: { intros [= <- <- <-]. split; [|done]. exists (abs partition). split; [by apply Hsame|].
       by eapply processed_unparsed. }
  destruct (nf_pkt_dispatcher p device) as [[class k] has] eqn:Ed. destruct has; cbn [negb].
  - cbn [nf nf_manager set_packet].
    destruct (get_spec keys_eq khash N MAX Heq HN _ abs partition k now fuel Hr Hpart Hfuel)
      as (r & g & Eg & Hg).
    pose proof (get_keeps_related _ _ _ _ _ Eg) as Hrg.
    cbn [nf_manager nf set_dst_device]. rewrite Eg. destruct r as [i|].
    + destruct Hg as (ss1 & s & ss2 & E & Hn & -> & _ & Hr1).
      destruct (run_txn _ _ _ _ _ _) as [[u [l1 w1]]|] eqn:Er; [|done]. intros [= <- <- <-].
      destruct u. set (s1 := touch now (bool_decide (ss1 ++ ss2 = [])) s) in *.
      assert (s_index s1 = s_index s) as Ei by (unfold s1; by destruct (bool_decide _)).
      assert (s_state s1 = s_state s) as Est by (unfold s1; by destruct (bool_decide _)).
      rewrite <- Ei in Er.
      destruct (registered_spec class k fuel _ w tt l1 w1 _ (ss1 ++ ss2) s1 [] Er Hr1 ltac:(by rewrite fn_lookup_insert, app_assoc))
        as (m & t & t' & Hh & Hst & Hcm & Hr2 & Hrel2). cbn in Hrel2. split; [|by rewrite Hrel2].
      exists (ss1 ++ ss2 ++ [with_state (pkt_set_state (nf_manager (nf l1)) (s_index s)) s1]).
      assert (from_registered s1 = from_registered s) as Ef by (unfold from_registered; by rewrite Ei, Est).
      rewrite Ei in Hh, Hcm, Hr2. rewrite Ef in Hst, Hcm. split.
      * eapply pkt_rep_ext; [|exact Hr2]. intros c. rewrite app_assoc. clear. fcases; done.
      * by apply (processed_registered _ buffer len _ _ p class k ss1 s ss2
          m t (nf l1) t').
    + destruct Hg as [-> Hk]. destruct (run_txn _ _ _ _ _ _) as [[u [l1 w1]]|] eqn:Er; [|done].
      destruct u. destruct (unknown_spec k fuel _ w tt l1 w1 abs Er Hr) as (m & t & t' & Hh & Hcm & Hcl & Hr1 & _ & Hr2 & Hfree). cbn in Hr2.
      destruct (unknown_commit k fuel uninit _ abs Hr1 Hfuel) as (g' & i & Ec & Hr'); [by rewrite Hr2|done| |].
      { rewrite Hr2. intros E Ha. rewrite E in Hk |- *. apply (Hrel E p class k m t _ t'); (done || apply Hcl). }
      rewrite Ec. intros [= <- <- <-]. split; [|cbn; by rewrite (commit_keeps_related _ _ _ _ _ Ec)].
      eexists. split; [exact Hr'|]. by eapply processed_unknown.
  - destruct (run_txn _ _ _ _ _ _) as [[[] [l1 w1]]|] eqn:Er; [|done]. intros [= <- <- <-].
    apply orphan_spec in Er
      as (E & m & t & t' & Hfr & Hcm & Hh). cbn in E. rewrite E. split; [|done]. exists (abs partition).
    split; [by apply Hsame|]. by eapply processed_orphan.
Qed.

(** It returns, when its attempts fail finitely often. *)
Lemma process_pkt_total fuel (retries : W -> nat) uninit len (buffer : B) l w abs :
  2 * MAX <= Z.of_nat fuel -> (retries w < fuel)%nat ->
  fresh_related (has_related_pkt_sets (mgr l)) buffer len (nf_packet (nf l)) (abs partition) ->
  (forall h pre undo l w l1 w1,
     (exists class i k, h = pkt_handlers class device i k) \/
     (exists k, h = nf_unknown_pkt_set_handler device k) ->
     attempt pre undo (on_core h) l w None l1 w1 -> (retries w1 < retries w)%nat) ->
  rep (mgr l) abs ->
  exists dst l' w', process_pkt keys_eq khash N MAX mutable pkt_handlers fuel uninit core device buffer
    len now partition l w = Some (dst, (l', w')).
Proof.
  intros Hfuel Hw Hrel Hretry Hr.
  unfold process_pkt. destruct (nf_pkt_parser _ _ _) as [[] p] eqn:Ep; cbn in Ep; [|eauto].
  destruct (nf_pkt_dispatcher p device) as [[class k] has] eqn:Ed. destruct has; cbn [negb].
  - cbn [nf nf_manager set_packet set_dst_device].
    destruct (get_spec keys_eq khash N MAX Heq HN _ abs partition k now fuel Hr Hpart Hfuel)
      as (r & g & -> & Hg). destruct r as [i|].
    + edestruct (run_txn_returns (log_pkt_set_state mutable i) (rollback_pkt_set_state mutable i)
        (on_core (pkt_handlers class device (Some i) k)) retries) as (u & l1 & w1 & ->); [|done|eauto].
      intros. eapply Hretry; [left; eauto|done].
    + destruct Hg as [-> Hk].
      edestruct (run_txn_returns (clear_log core) (fun l : core_mem P K S => l)
        (on_core (nf_unknown_pkt_set_handler device k)) retries) as (u & l1 & w1 & Er); [|done|].
      { intros. eapply Hretry; [right; eauto|done]. }
      rewrite Er. destruct u.
      destruct (unknown_spec k fuel _ w tt l1 w1 abs Er Hr) as (m & t & t' & Hh & Hcm & Hcl & Hr1 & _ & Hr2 & Hfree). cbn in Hr2.
      destruct (unknown_commit k fuel uninit _ abs Hr1 Hfuel) as (g' & i & -> & Hr'); [by rewrite Hr2|done| |eauto].
      rewrite Hr2. intros E Ha. rewrite E in Hk |- *. apply (Hrel E p class k m t _ t'); (done || apply Hcl).
  - edestruct (run_txn_returns (fun l : core_mem P K S => l) (fun l => l)
      (on_core (pkt_handlers class device None k)) retries) as (u & l1 & w1 & ->); [|done|eauto].
    intros. eapply Hretry; [left; eauto|done].
Qed.
End spec.

(** *** The log of a batch *)

Section rollback.
Context {K S : Type}.
Implicit Types g : pkt_set_manager K S.

(** The packets of a batch: each packet set's state is logged and then
    written. *)
Definition run_writes (log : pkt_set_state_log_t S) g (writes : list (Z * S))
    : pkt_set_state_log_t S * pkt_set_manager K S :=
  foldl (fun '(log, g) '(i, st) => (log_one_pkt_set_state i g log, write_state i st g))
    (log, g) writes.

(** The entries of a log and the manager before they were written. *)
Record logs (log : pkt_set_state_log_t S) g0 g (js : list Z) : Prop := {
  logs_count : num_logged log = Z.of_nat (length js);
  logs_entry n i : js !! n = Some i -> states_main_copy log (Z.of_nat n) = i /\
    states log (Z.of_nat n) = pkt_set_state g0 i;
  logs_other i : i ∉ js -> pkt_set_state g i = pkt_set_state g0 i
}.

Lemma logs_write log g0 g js i st :
  logs log g0 g js -> i ∉ js -> Z.of_nat (length js) + 1 < 2 ^ 16 ->
  logs (log_one_pkt_set_state i g log) g0 (write_state i st g) (js ++ [i]).
Proof.
  intros [Hc He Ho] Hi Hlen. split.
  - cbn. rewrite Hc, u16_id, length_app by lia. cbn. lia.
  - intros n j. rewrite lookup_app_Some. cbn. rewrite Hc.
    intros [Hn|[Hn Hj]].
    + pose proof (lookup_lt_Some _ _ _ Hn). rewrite !fn_lookup_insert_ne by lia. by apply He.
    + apply list_lookup_singleton_Some in Hj as [Hz <-].
      assert (n = length js) as -> by lia. rewrite !fn_lookup_insert. split; [done|]. by apply Ho.
  - intros j Hj. rewrite elem_of_app, list_elem_of_singleton in Hj. cbn.
    rewrite fn_lookup_insert_ne by (intros ->; auto). apply Ho. auto.
Qed.

Lemma run_writes_logs writes : forall log g0 g js,
  logs log g0 g js -> NoDup (js ++ writes.*1) -> Z.of_nat (length (js ++ writes.*1)) < 2 ^ 16 ->
  let '(log', g') := run_writes log g writes in logs log' g0 g' (js ++ writes.*1).
Proof.
  induction writes as [|[i st] writes IH]; intros log g0 g js Hl Hnd Hlen; cbn.
  - by rewrite app_nil_r.
  - assert (i ∉ js) as Hi.
    { apply NoDup_app in Hnd as (_ & Hd & _). intros Hi. apply (Hd i Hi). left. }
    cbn in Hnd, Hlen. rewrite length_app in Hlen. cbn in Hlen.
    pose proof (IH (log_one_pkt_set_state i g log) g0 (write_state i st g) (js ++ [i])) as Hw.
    rewrite <- app_assoc in Hw. apply Hw; [apply logs_write; [done..|lia]|done|].
    rewrite length_app. cbn. lia.
Qed.

Lemma rollback_logged log g0 g js :
  logs log g0 g js -> forall i, pkt_set_state (rollback_pkt_set_states log g) i = pkt_set_state g0 i.
Proof.
  intros [Hc He Ho]. unfold rollback_pkt_set_states. rewrite Hc.
  pose proof (loop_range_spec (fun n g' => forall i, pkt_set_state g' i =
    if decide (i ∈ take (Z.to_nat n) js) then pkt_set_state g0 i else pkt_set_state g i)
    (fun i g => write_state (states_main_copy log i) (states log i) g)
    (Z.of_nat (length js)) g ltac:(lia)) as Hl. cbv beta in Hl. intros i. rewrite Hl.
  - rewrite Nat2Z.id, firstn_all. case_decide; [done|]. by apply Ho.
  - intros j. rewrite Z2Nat.inj_0. cbn. rewrite decide_False; [done|]. apply not_elem_of_nil.
  - intros k g' Hk IH j. cbn. destruct (lookup_lt_is_Some_2 js (Z.to_nat k)) as [x Hx]; [lia|].
    destruct (He _ _ Hx) as [Ex Es]. rewrite Z2Nat.id in Ex, Es by lia. rewrite Ex, Es.
    rewrite Z2Nat.inj_add, Nat.add_1_r by lia. rewrite (take_S_r _ _ _ Hx).
    rewrite fn_insert_dec. destruct (decide (x = j)) as [<-|Hne].
    + rewrite decide_True; [done|]. rewrite elem_of_app, list_elem_of_singleton. auto.
    + rewrite IH. apply decide_ext. rewrite elem_of_app, list_elem_of_singleton.
      split; [auto|]. intros [?|?]; [done|congruence].
Qed.
End rollback.

(** ** Properties *)

(** C2: one packet: whatever the number of aborted and repeated runs of the
    NF's handler, process_pkt does to the core's table of packet sets what
    one complete run does: nothing for a packet that is not supported, which
    is dropped, or that belongs to no packet set; a new state of the packet
    set, computed from the state it had before any run, for a packet of a
    registered packet set; and the new packet set that the complete run asks
    for, if any, for a packet of an unknown one.  The packet goes where the
    complete run sends it. *)
Theorem process_pkt_refines {B P K S W T} `{RluRuntime W T} `{NfHandlers B P K S T} `{Countable K}
    (keys_eq : K -> K -> bool) (khash : K -> Z) (N MAX : Z) (mutable : bool)
    (pkt_handlers : Z -> pkt_handler_t P K S T) (fuel : nat)
    (uninit core device len now partition dst : Z) (buffer : B) (l l' : core_mem P K S) (w w' : W)
    (abs : Z -> list (session K S))
    (Heq : forall k k', keys_eq k k' = true <-> k = k') (HN : 0 < N <= MAX)
    (Hpart : 0 <= partition < N) (Hfuel : 2 * MAX <= Z.of_nat fuel)
    (Hnf : nf_contract N mutable pkt_handlers core partition)
    (Hrel : fresh_related core device (has_related_pkt_sets (nf_manager (nf l))) buffer len
       (nf_packet (nf l)) (abs partition))
    (Hr : pkt_rep khash N MAX (nf_manager (nf l)) abs)
    (Hrun : process_pkt keys_eq khash N MAX mutable pkt_handlers fuel uninit core device buffer len now
       partition l w = Some (dst, (l', w'))) :
  exists sessions, pkt_rep khash N MAX (nf_manager (nf l')) (<[partition := sessions]> abs) /\
    processed pkt_handlers core device now (has_related_pkt_sets (nf_manager (nf l))) buffer len
      (nf_packet (nf l)) (abs partition) dst sessions.
Proof.
  by apply (process_pkt_spec keys_eq khash N MAX mutable pkt_handlers core partition device now
    Heq HN Hpart Hnf fuel uninit len dst buffer l l' w w' abs).
Qed.

(** C8: process_pkt returns for every packet: when [retries] bounds how often
    the attempts of the NF's handlers can still fail, fuel for those and for
    a walk over the cells suffices, whatever the packet and the table. *)
Theorem process_pkt_returns {B P K S W T} `{RluRuntime W T} `{NfHandlers B P K S T} `{Countable K}
    (keys_eq : K -> K -> bool) (khash : K -> Z) (N MAX : Z) (mutable : bool)
    (pkt_handlers : Z -> pkt_handler_t P K S T) (fuel : nat) (retries : W -> nat)
    (uninit core device len now partition : Z) (buffer : B) (l : core_mem P K S) (w : W)
    (abs : Z -> list (session K S))
    (Heq : forall k k', keys_eq k k' = true <-> k = k') (HN : 0 < N <= MAX)
    (Hpart : 0 <= partition < N) (Hfuel : 2 * MAX <= Z.of_nat fuel) (Hw : (retries w < fuel)%nat)
    (Hnf : nf_contract N mutable pkt_handlers core partition)
    (Hrel : fresh_related core device (has_related_pkt_sets (nf_manager (nf l))) buffer len
       (nf_packet (nf l)) (abs partition))
    (Hretry : forall h pre undo l w l1 w1,
       (exists class i k, h = pkt_handlers class device i k) \/
       (exists k, h = nf_unknown_pkt_set_handler device k) ->
       attempt pre undo (on_core h) l w None l1 w1 -> (retries w1 < retries w)%nat)
    (Hr : pkt_rep khash N MAX (nf_manager (nf l)) abs) :
  exists dst l' w', process_pkt keys_eq khash N MAX mutable pkt_handlers fuel uninit core device buffer
    len now partition l w = Some (dst, (l', w')).
Proof.
  intros. by apply (process_pkt_total keys_eq khash N MAX mutable pkt_handlers core partition device now
    Heq HN Hpart Hnf fuel retries uninit len buffer l w abs).
Qed.

(** C9: the roll-back of a batch: when every packet set occurs once in it,
    whatever the handlers wrote, the states are those from before the batch;
    the bound on the batch is that of the 16-bit counter. *)
Theorem rollback_restores {K S} (log : pkt_set_state_log_t S) (g : pkt_set_manager K S)
    (writes : list (Z * S))
    (Hnodup : NoDup writes.*1) (Hlen : Z.of_nat (length writes) < 2 ^ 16) :
  let (log', g') := run_writes (reset_log_pkt_set_state log) g writes in
  forall i, pkt_set_state (rollback_pkt_set_states log' g') i = pkt_set_state g i.
Proof.
  pose proof (run_writes_logs writes (reset_log_pkt_set_state log) g g []) as Hw.
  destruct (run_writes _ g writes) as [log' g']. apply (rollback_logged log' g g' ([] ++ writes.*1)), Hw.
  - split; [done|by intros n i|done].
  - done.
  - cbn. by rewrite length_fmap.
Qed.

(** ** Witnesses: an NF that counts a packet set's packets *)

(** A buffer is the packet's id: 0 for unsupported packets, negative for
    packets of no packet set. *)
#[local] Instance ex_nf : NfHandlers Z Z Z Z Z :=
  {| set_len := fun _ p => p;
     nf_pkt_parser := fun b _ _ => (negb (b =? 0), b);
     nf_pkt_dispatcher := fun p _ => (0, p, 0 <? p);
     nf_unknown_pkt_set_handler := fun _ k '(m, t) =>
       (Some tt, (NfMem (nf_packet m) 1
         (add_pkt_set_log 2 0 1 0 (Some (k + 100)) (nf_manager m)).2, t)) |}.

#[local] Existing Instance ex_runtime.

Definition ex_count : Z -> pkt_handler_t Z Z Z Z :=
  fun _ _ state _ '(m, t) =>
    (Some tt, (NfMem (nf_packet m) 1
      (match state with
       | Some i => write_state i (pkt_set_state (nf_manager m) i + 1) (nf_manager m)
       | None => nf_manager m
       end), t)).

Lemma ex_nf_contract : nf_contract 2 true ex_count 0 0.
Proof.
  split.
  - by intros class dev k m t r m' t' [= <- <- <-].
  - intros class dev i k m t r m' t' [= <- <- <-]. right. eexists. by split.
  - intros dev k m t r m' t' [= <- <- <-]. right. eauto.
Qed.

Definition ex_retries (w : Z) : nat := if Z.odd w then 0 else 1.

(** The attempts of this runtime fail at most once. *)
Lemma ex_retry dev (h : M (nf_mem Z Z Z * Z) unit) pre undo l w l1 w1 :
  (exists class i k, h = ex_count class dev i k) \/ (exists k, h = nf_unknown_pkt_set_handler dev k) ->
  attempt pre undo (on_core h) l w None l1 w1 -> (ex_retries w1 < ex_retries w)%nat.
Proof.
  intros Hh Ha.
  assert (forall l0 t, exists l2, on_core h (l0, t) = (Some tt, (l2, t))) as Hb.
  { intros l0 t. destruct Hh as [(class & i & k & ->)|(k & ->)]; cbn; eauto. }
  inversion Ha as [t w2 l2 t2 El Eb|t w2 b l2 t2 w3 El Eb Eu|]; subst.
  + destruct (Hb (pre l) t) as [l3 E3]. congruence.
  + destruct (Hb (pre l) t) as [l3 E3]. cbn in El, Eu. assert (t2 = t) as -> by congruence.
    injection El as <- <-. injection Eu as Eu <-. unfold ex_retries. cbn. rewrite Z.add_1_r, Z.odd_succ, <- Z.negb_odd. rewrite Eu.
    cbn. lia.
Qed.

Definition ex_core (g : pkt_set_manager Z Z) : core_mem Z Z Z := Core (NfMem 0 0 g) 0.

Definition ex_process (g : pkt_set_manager Z Z) (buffer w : Z) :=
  @process_pkt Z Z Z Z Z Z ex_runtime ex_nf Z.eqb (fun k => k) 2 4 true ex_count 8 0 0 0 buffer 60 9 0
    (ex_core g) w.

(** The packet's first run fails its read validation. *)
Lemma process_pkt_refines_witness :
  fmap (fun r : Z * (core_mem Z Z Z * Z) => (r.1, map (pkt_set_state (nf_manager (nf r.2.1))) [0; 1], r.2.2))
    (ex_process ex_pkt2 112 4) = Some (1, [15; 18], 5) /\
  exists abs, pkt_rep (fun k => k) 2 4 ex_pkt2 abs /\
  forall dst l' w', ex_process ex_pkt2 112 4 = Some (dst, (l', w')) ->
  exists sessions, pkt_rep (fun k => k) 2 4 (nf_manager (nf l')) (<[0 := sessions]> abs) /\
    processed ex_count 0 0 9 (has_related_pkt_sets (nf_manager (nf (ex_core ex_pkt2)))) 112 60
      (nf_packet (nf (ex_core ex_pkt2))) (abs 0) dst sessions.
Proof.
  split; [vm_compute; reflexivity|]. destruct ex_pkt_rep2 as (i & j & Hr).
  eexists. split; [exact Hr|]. intros dst l' w'.
  apply (process_pkt_refines Z.eqb (fun k => k) 2 4 true ex_count 8 0 0 0 60 9 0 dst 112 (ex_core ex_pkt2)
    l' 4 w' _ ltac:(intros; apply Z.eqb_eq) ltac:(lia) ltac:(lia) ltac:(lia) ex_nf_contract); [|exact Hr].
  intros _ p class k m t m' t' [= <-] [= _ <-] Hk. exfalso.
  apply (Hk (Session j 12 112 17 7)); [rewrite fn_lookup_insert; right; left|by right].
Defined.

Lemma process_pkt_returns_witness :
  option_map fst (ex_process ex_pkt0 10 4) = Some 1 /\
  exists dst l' w', ex_process ex_pkt0 10 4 = Some (dst, (l', w')).
Proof.
  split; [vm_compute; reflexivity|].
  apply (process_pkt_returns Z.eqb (fun k => k) 2 4 true ex_count 8 ex_retries
    0 0 0 60 9 0 10 (ex_core ex_pkt0) 4 (fun _ => []) ltac:(intros; apply Z.eqb_eq) ltac:(lia) ltac:(lia)
    ltac:(lia) ltac:(cbn; lia) ex_nf_contract); [| |exact ex_pkt_rep0].
  - intros _ p class k m t m' t' [= <-] [= _ <-] _ Hcl [= <- _] e. unfold e. cbn [nf_manager].
    unfold add_pkt_set_log. destruct (negb _); cbn; [by rewrite Hcl|].
    rewrite fn_lookup_insert. intros _. split; [cbn; lia|]. by intros s ?%not_elem_of_nil.
  - intros h pre undo l w l1 w1 Hh Ha. by apply (ex_retry 0 h pre undo l w l1).
Defined.

Lemma rollback_restores_witness :
  let log := StateLog 5 (fun _ => 0) (fun _ => 0) in
  NoDup ([(0, 40); (1, 41)] : list (Z * Z)).*1 /\
  let (log', g') := run_writes (reset_log_pkt_set_state log) ex_pkt2 [(0, 40); (1, 41)] in
  forall i, pkt_set_state (rollback_pkt_set_states log' g') i = pkt_set_state ex_pkt2 i.
Proof.
  assert (NoDup ([(0, 40); (1, 41)] : list (Z * Z)).*1) as Hnd by (apply (bool_decide_eq_true_1 _); reflexivity).
  split; [exact Hnd|]. by apply (rollback_restores (StateLog 5 (fun _ => 0) (fun _ => 0)) ex_pkt2).
Defined.

(** *** Where the code does not do what it means to *)

(** A batch with two packets of one packet set: the states are logged before
    each packet and restored in the same order, so that the roll-back leaves
    what the first packet's handler wrote. *)
Lemma rollback_loses_state :
  pkt_set_state ex_pkt2 0 = 15 /\
  let (log', g') := run_writes (reset_log_pkt_set_state (StateLog 0 (fun _ => 0) (fun _ => 0))) ex_pkt2
                      [(0, 40); (0, 41)] in
  pkt_set_state (rollback_pkt_set_states log' g') 0 = 40.
Proof. split; vm_compute; reflexivity. Qed.

(** A handler whose first run sends the packet and fails its validation, and
    whose second run drops it: the packet is sent. *)
Definition ex_drop_later : Z -> pkt_handler_t Z Z Z Z :=
  fun _ _ _ _ '(m, t) => if Z.odd t then drop_pkt (m, t) else send_pkt 7 (m, t).

Lemma stale_dst_device :
  ex_drop_later 0 0 None (-1) (NfMem 0 0 ex_pkt0, 5) = (Some tt, (NfMem 0 0 ex_pkt0, 5)) /\
  option_map fst (@process_pkt Z Z Z Z Z Z ex_runtime ex_nf Z.eqb (fun k => k) 2 4 true ex_drop_later
    8 0 0 0 (-1) 60 9 0 (ex_core ex_pkt0) 4) = Some 7.
Proof. split; [reflexivity|vm_compute; reflexivity]. Qed.
