(* ===== verification/BatchPlane.v ===== *)
(** * What batches keep

    The build of data-plane.c with PKT_PROCESS_BATCHING and without
    MUTABLE_PKT_SET_STATE, which is that of most NFs here: a packet set's
    state is written in place and no restart takes it back, and the handlers
    of a batch run in a few transactions.  An NF says what each run of one of
    its handlers keeps ([nf_keeps]): of the transaction, of every packet set's
    state, and of every packet's destination.  [process_pkt_batch_keeps] is
    that a batch keeps it, whatever its transactions' restarts,
    [process_pkt_keeps] the same for a packet of the build without batches.
    A batch returns, and handles all its packets
    ([process_pkt_batch_returns]). *)

From stdpp Require Import gmap.
From S2P Require Import Prelude Rlu Txn NfosMap Links ConcDchain ConcMap PktSet DataPlane.
Open Scope Z_scope.

(** ** Code between a restart label and its commit *)

Section leads.
Context {L T : Type}.

(** From memory and a transaction in [Pre] the code goes on in [Post], or
    aborts with the memory in [I]. *)
Definition leads {A} (I : L -> Prop) (Pre : L -> T -> Prop) (c : M (L * T) A) (Post : L -> T -> Prop) : Prop :=
  forall l t r l' t', Pre l t -> c (l, t) = (r, (l', t')) ->
  match r with Some _ => Post l' t' | None => I l' end.

Lemma leads_ret {A} I (Pre : L -> T -> Prop) (a : A) : leads I Pre (ret a) Pre.
Proof. by intros l t r l' t' HP [= <- <- <-]. Qed.

Lemma leads_bind {A A'} I Pre Mid Post (c : M (L * T) A) (k : A -> M (L * T) A') :
  leads I Pre c Mid -> (forall a, leads I Mid (k a) Post) -> leads I Pre (bind c k) Post.
Proof.
  intros Hc Hk l t r l' t' HP. unfold bind. destruct (c (l, t)) as [[a|] [l1 t1]] eqn:E; apply Hc in E; try done.
  - intros Er. by apply (Hk a l1 t1 r l' t').
  - by intros [= <- <- _].
Qed.

Lemma leads_for_range I (P : L -> T -> Prop) (body : Z -> M (L * T) unit) n : forall i,
  (forall j, i <= j < i + Z.of_nat n -> leads I P (body j) P) -> leads I P (for_range i n body) P.
Proof.
  induction n as [|n IH]; intros i Hb; cbn [for_range]; [apply leads_ret|].
  eapply leads_bind; [apply Hb; lia|]. intros []. apply IH. intros j Hj. apply Hb. lia.
Qed.

Lemma leads_result {A} I (P : L -> T -> Prop) (c : M (L * T) A) l t r l' t' :
  leads I P c P -> (forall l t, P l t -> I l) -> P l t -> c (l, t) = (r, (l', t')) -> I l'.
Proof. intros Hc HI HP E. apply Hc in E; [|done]. destruct r; [by eapply HI|done]. Qed.
End leads.

(** ** The packet sets of a core *)

Section table.
Context {K S : Type} `{Countable K}.
Context (keys_eq : K -> K -> bool) (khash : K -> Z) (N MAX partition : Z).
Context (abs : Z -> list (session K S)) (J : K -> S -> Prop).
Implicit Types (g : pkt_set_manager K S) (ss : list (session K S)).

(** The indexes of the packet sets and their ids. *)
Definition names_of ss : list (Z * K) := (fun s => (s_index s, s_id s)) <$> ss.

(** The packet sets of the partition are [ss], named [names], and every
    state is as [J] says; the other partitions' are as in [abs]. *)
Record table g ss (names : list (Z * K)) : Prop := {
  tb_rep : pkt_rep khash N MAX g (<[partition := ss]> abs);
  tb_related : has_related_pkt_sets g = false;
  tb_names : names ≡ₚ names_of ss;
  tb_states s : s ∈ ss -> J (s_id s) (s_state s)
}.

Lemma table_named g ss names i k : table g ss names -> (i, k) ∈ names ->
  exists ss1 s ss2, ss = ss1 ++ s :: ss2 /\ s_index s = i /\ s_id s = k /\ pkt_set_state g i = s_state s /\
    J k (s_state s).
Proof.
  intros [Hr _ -> HJ] Hi. apply list_elem_of_fmap in Hi as (s & [= -> ->] & Hs).
  pose proof (HJ s Hs). assert (pkt_set_state g (s_index s) = s_state s) as Hst.
  { apply (pr_state _ _ _ _ _ Hr partition). by rewrite fn_lookup_insert. }
  apply list_elem_of_split in Hs as (ss1 & ss2 & ->). eauto 10.
Qed.

Lemma table_absent ss names k : names ≡ₚ names_of ss -> (forall s, s ∈ ss -> s_id s <> k) -> k ∉ names.*2.
Proof.
  intros -> Hk. intros ((i & ?) & -> & (s & [= -> ->] & Hs)%list_elem_of_fmap)%list_elem_of_fmap. by apply (Hk s).
Qed.

Lemma absent_named g ss names k : table g ss names -> k ∉ names.*2 -> forall s, s ∈ ss -> ~ named false s k.
Proof.
  intros [_ _ Hn _] Hk s Hs [->|[? _]]; [|done]. apply Hk. rewrite Hn. unfold names_of.
  rewrite <- list_fmap_compose. apply list_elem_of_fmap. by exists s.
Qed.

(** A handler's write to a packet set's state. *)
Lemma table_write g ss names i k st : 0 < N <= MAX -> (forall k k', keys_eq k k' = true <-> k = k') ->
  table g ss names -> (i, k) ∈ names -> J k st -> exists ss', table (write_state i st g) ss' names.
Proof.
  intros HN Heq Ht Hi HJ. destruct (table_named g ss names i k Ht Hi) as (ss1 & s & ss2 & -> & <- & <- & _).
  destruct Ht as [Hr Hrel Hn Hs]. exists (ss1 ++ with_state st s :: ss2). split; [|done| |].
  - eapply pkt_rep_ext; [|apply (set_state_rep keys_eq khash N MAX Heq HN g _ partition ss1 s ss2 st Hr)].
    + intros d. unfold with_state. clear. fcases; done.
    + by rewrite fn_lookup_insert.
  - rewrite Hn. unfold names_of. by rewrite !fmap_app.
  - intros s'. rewrite elem_of_app, elem_of_cons. intros [?|[->|?]]; [|done|]; apply Hs; rewrite elem_of_app, elem_of_cons; auto.
Qed.

Lemma table_log g ss names c e : table g ss names -> table (set_log c e g) ss names.
Proof. intros [Hr Hrel Hn Hs]. split; [by apply pkt_rep_log|done..]. Qed.

(** get_pkt_set_state. *)
Lemma table_get g ss names k now fuel : 0 < N <= MAX -> (forall k k', keys_eq k k' = true <-> k = k') ->
  0 <= partition < N -> 2 * MAX <= Z.of_nat fuel -> table g ss names ->
  exists r g', get_pkt_set_state keys_eq khash N MAX fuel k partition now g = Some (r, g') /\
    (exists ss', table g' ss' names) /\
    match r with Some i => (i, k) ∈ names | None => k ∉ names.*2 end.
Proof.
  intros HN Heq Hp Hf Ht. pose proof Ht as [Hr Hrel Hn Hs].
  destruct (get_spec keys_eq khash N MAX Heq HN g _ partition k now fuel Hr Hp Hf) as (r & g' & E & Hg).
  exists r, g'. split; [done|]. rewrite fn_lookup_insert, Hrel in Hg. destruct r as [i|].
  - destruct Hg as (l1 & s & l2 & -> & [->|[? _]] & -> & _ & Hr'); [|done]. split.
    + eexists. split; [eapply pkt_rep_ext; [|exact Hr']; intros d; clear; fcases; done| | |].
      * by rewrite (get_keeps_related _ _ _ _ _ _ _ _ _ _ _ E).
      * rewrite Hn. unfold names_of. rewrite !fmap_app. cbn. rewrite app_assoc, <- Permutation_cons_append.
        rewrite <- Permutation_middle. unfold touch. by destruct (bool_decide _).
      * intros s'. rewrite app_assoc, elem_of_app, list_elem_of_singleton. intros [Hs'| ->].
        -- apply Hs. rewrite !elem_of_app in *. rewrite elem_of_cons. tauto.
        -- assert (J (s_id s) (s_state s)) by (apply Hs; rewrite elem_of_app, elem_of_cons; auto).
           unfold touch. by destruct (bool_decide _).
    + rewrite Hn. apply list_elem_of_fmap. exists s. split; [done|]. rewrite elem_of_app, elem_of_cons. auto.
  - destruct Hg as [-> Hk]. split; [eauto|]. apply (table_absent ss); [done|]. intros s Hs' <-. by apply (Hk s Hs'); left.
Qed.

(** add_pkt_set_commit, after an unknown packet set's handler. *)
Lemma table_commit g ss names core k now uninit fuel : 0 < N <= MAX -> (forall k k', keys_eq k k' = true <-> k = k') ->
  0 <= partition < N -> 2 * MAX <= Z.of_nat fuel -> table g ss names -> k ∉ names.*2 ->
  let e := log_entry g core in
  (PktSet.add_pkt_set e = true ->
     concurrent_dchain_has_free_indexes N (pkt_set_chain g) partition = true /\ J k (log_state e)) ->
  exists g' ss' names', add_pkt_set_commit khash N MAX fuel uninit core k partition now g = Some g' /\
    table g' ss' names' /\ names ⊆ names'.
Proof.
  intros HN Heq Hp Hf Ht Hk e He. pose proof Ht as [Hr Hrel Hn Hs].
  destruct (unknown_commit keys_eq khash N MAX core partition now Heq HN Hp k fuel uninit g _ Hr Hf)
    as (g' & i & E & Hr').
  - rewrite fn_lookup_insert, Hrel. by apply (absent_named g ss names).
  - intros Ha. by apply He.
  - congruence.
  - exists g'. rewrite fn_lookup_insert in Hr'. fold e in Hr'.
    pose proof (commit_keeps_related _ _ _ _ _ _ _ _ _ _ _ E) as Hrel'.
    assert (pkt_rep khash N MAX g' (<[partition := if PktSet.add_pkt_set e
        then ss ++ [Session i k (related_pkt_set_id e) (log_state e) now] else ss]> abs)) as Hr2.
    { eapply pkt_rep_ext; [|exact Hr']. intros d. clear. fcases; done. }
    destruct (PktSet.add_pkt_set e).
    + destruct He as [_ HJ]; [done|]. eexists _, ((i, k) :: names). split; [done|]. split; [|set_solver].
      split; [exact Hr2|congruence| |].
      * rewrite Hn. unfold names_of. rewrite fmap_app. cbn. by rewrite <- Permutation_cons_append.
      * intros s. rewrite elem_of_app, list_elem_of_singleton. intros [?| ->]; [by apply Hs|done].
    + exists ss, names. split; [done|]. split; [|done]. split; [exact Hr2|congruence|done..].
Qed.
End table.

(** ** What an NF keeps *)

Section keeps.
Context {B P K S W T : Type} `{RluRuntime W T} `{NfHandlers B P K S T} `{Countable K}.
Context (keys_eq : K -> K -> bool) (khash : K -> Z) (N MAX : Z).
Variables (pkt_handlers : Z -> pkt_handler_t P K S T) (core partition device now : Z).
Variables (c : batch_class P K) (batch_size : Z).
(** The packet sets before the batch; what holds of transactions, of packet
    sets, by id, and of the packets' destinations. *)
Variables (before : list (session K S)) (TI : T -> Prop) (J : K -> S -> Prop) (D : Z -> Z -> Prop).
Implicit Types (l : batch_mem P K S) (g : pkt_set_manager K S).

Definition in_batch (n : Z) : Prop := 0 <= n < batch_size /\ parse_res c n = true.

(** Every run of a handler on a packet of the batch, from whatever earlier
    runs have left of the packet's headers: it writes no packet set's state
    but the one it is given, and keeps [TI], [J] and [D]. *)
Record nf_keeps : Prop := {
  keeps_device n : in_batch n -> D n device;
  keeps_lock t : from_lock W t -> TI t;
  keeps_orphan n m t r m' t' : has_pkt_set_state c 0 = false -> in_batch n -> TI t -> D n (nf_dst_device m) ->
    pkt_handlers (pkt_class c n) device None (pkt_set_id c n) (m, t) = (r, (m', t')) ->
    nf_manager m' = nf_manager m /\ TI t' /\ D n (nf_dst_device m');
  keeps_registered n i m t r m' t' : let k := pkt_set_id c n in
    has_pkt_set_state c 0 = true -> in_batch n -> TI t -> D n (nf_dst_device m) ->
    J k (pkt_set_state (nf_manager m) i) ->
    pkt_handlers (pkt_class c n) device (Some i) k (m, t) = (r, (m', t')) ->
    (nf_manager m' = nf_manager m \/ exists st, nf_manager m' = write_state i st (nf_manager m)) /\
    J k (pkt_set_state (nf_manager m') i) /\ TI t' /\ D n (nf_dst_device m');
  keeps_unknown n m t r m' t' : let k := pkt_set_id c n in
    has_pkt_set_state c 0 = true -> in_batch n -> TI t -> D n (nf_dst_device m) ->
    (forall s, s ∈ before -> s_id s <> k) ->
    nf_unknown_pkt_set_handler device k (m, t) = (r, (m', t')) ->
    (nf_manager m' = nf_manager m \/
     exists st k2, nf_manager m' = (add_pkt_set_log N core st partition k2 (nf_manager m)).2 /\ J k st) /\
    D n (nf_dst_device m')
}.

Hypotheses (Heq : forall k k', keys_eq k k' = true <-> k = k') (HN : 0 < N <= MAX)
  (Hpart : 0 <= partition < N) (Hnf : nf_keeps).
Context (abs : Z -> list (session K S)).
Abbreviation table g ss names := (BatchPlane.table khash N MAX partition abs J g ss names).

(** A registered packet set's handler, and an unknown one's. *)
Lemma registered_table n i (m : nf_mem P K S) t r m' t' ss names :
  has_pkt_set_state c 0 = true -> in_batch n -> TI t -> D n (nf_dst_device m) ->
  table (nf_manager m) ss names -> (i, pkt_set_id c n) ∈ names ->
  pkt_handlers (pkt_class c n) device (Some i) (pkt_set_id c n) (m, t) = (r, (m', t')) ->
  (exists ss', table (nf_manager m') ss' names) /\ TI t' /\ D n (nf_dst_device m').
Proof using Hnf HN Heq.
  intros Hhas Hn Ht Hd Htb Hi Hh. destruct (table_named _ _ _ _ _ _ _ _ _ _ _ Htb Hi) as (_ & s & _ & _ & _ & _ & Est & HJ).
  destruct (keeps_registered Hnf n i m t r m' t' Hhas Hn Ht Hd ltac:(by rewrite Est) Hh) as (Hm & HJ' & Ht' & Hd').
  split; [|done]. destruct Hm as [->|[st E]]; [by exists ss|]. rewrite E in HJ' |- *. cbn in HJ'.
  rewrite fn_lookup_insert in HJ'. by eapply (table_write keys_eq).
Qed.

Lemma unknown_table n (m : nf_mem P K S) t r m' t' ss names :
  has_pkt_set_state c 0 = true -> in_batch n -> TI t -> D n (nf_dst_device m) ->
  table (nf_manager m) ss names -> names_of before ⊆ names -> pkt_set_id c n ∉ names.*2 ->
  PktSet.add_pkt_set (log_entry (nf_manager m) core) = false ->
  nf_unknown_pkt_set_handler device (pkt_set_id c n) (m, t) = (r, (m', t')) ->
  D n (nf_dst_device m') /\ table (nf_manager m') ss names /\
  let e := log_entry (nf_manager m') core in
  (PktSet.add_pkt_set e = true ->
     concurrent_dchain_has_free_indexes N (pkt_set_chain (nf_manager m')) partition = true /\
     J (pkt_set_id c n) (log_state e)).
Proof using Hnf.
  intros Hhas Hn Ht Hd Htb Hbefore Hk Hlog Hh.
  destruct (keeps_unknown Hnf n m t r m' t' Hhas Hn Ht Hd) as [Hm Hd']; [|done|].
  { intros s Hs E. apply Hk. apply list_elem_of_fmap. exists (s_index s, s_id s). split; [done|].
    apply Hbefore, list_elem_of_fmap. by exists s. }
  split; [done|]. destruct Hm as [->|(st & k2 & E & HJ)]; [split; [done|]; cbv zeta; by rewrite Hlog|].
  revert E. unfold add_pkt_set_log. destruct (concurrent_dchain_has_free_indexes _ _ _) eqn:Ef; cbn.
  - intros ->. split; [by apply table_log|]. cbn. rewrite fn_lookup_insert. by split.
  - intros ->. split; [done|]. cbv zeta. by rewrite Hlog.
Qed.

(** ** A batch *)

(** The memory of a batch, while packet sets named [names] are registered. *)
Record batch_ok (names : list (Z * K)) l : Prop := {
  bo_table : exists ss, table (b_manager l) ss names;
  bo_dst n : 0 <= n < batch_size -> if parse_res c n then D n (dst_devices l n) else dst_devices l n = device
}.

Definition in_txn names l (t : T) : Prop := batch_ok names l /\ TI t.
Definition on_its_packet n names l (t : T) : Prop := in_txn names l t /\ D n (b_dst_device l).

Lemma set_dst_leads n d names : in_batch n -> D n d ->
  leads (T := T) (batch_ok names) (in_txn names) (on_mem (set_b_dst_device d)) (on_its_packet n names).
Proof. intros Hn Hd l t r l' t' [[Ht Hdst] HT] [= <- <- <-]. done. Qed.

Lemma store_dst_leads n names : in_batch n ->
  leads (T := T) (batch_ok names) (on_its_packet n names) (on_mem (store_dst_device n)) (in_txn names).
Proof.
  intros [Hn Hp] l t r l' t' [[[Ht Hdst] HT] Hd] [= <- <- <-]. split; [|done]. split; [done|].
  intros j Hj. cbn. rewrite fn_insert_dec. destruct (decide (n = j)) as [<-|]; [by rewrite Hp|by apply Hdst].
Qed.

(** A handler run on a packet of the batch. *)
Lemma on_packet_leads n names h : in_batch n ->
  (forall (m : nf_mem P K S) t r m' t' ss, TI t -> D n (nf_dst_device m) -> table (nf_manager m) ss names ->
     h (m, t) = (r, (m', t')) -> (exists ss', table (nf_manager m') ss' names) /\ TI t' /\ D n (nf_dst_device m')) ->
  leads (batch_ok names) (on_its_packet n names) (on_packet n h) (on_its_packet n names).
Proof.
  intros Hn Hh l t r l' t' [[[[ss Ht] Hdst] HT] Hd]. unfold on_packet.
  destruct (h _) as [r' [m' t1]] eqn:E. intros [= <- <- <-].
  destruct (Hh (NfMem (b_packet l n) (b_dst_device l) (b_manager l)) t r' m' t1 ss HT Hd Ht E) as (Ht' & HT' & Hd').
  destruct r'; done.
Qed.

Lemma orphan_leads names : has_pkt_set_state c 0 = false ->
  leads (batch_ok names) (in_txn names) (orphan_body pkt_handlers c device batch_size) (in_txn names).
Proof using Hnf.
  intros Hhas. apply leads_for_range. intros n Hn. destruct (parse_res c n) eqn:Hp; [|apply leads_ret].
  assert (in_batch n) as Hin by (split; [lia|done]).
  eapply leads_bind; [|intros []; eapply leads_bind; [apply (on_packet_leads n); [done|]|intros []; by apply store_dst_leads]].
  - intros l t r l' t' [[Ht Hdst] HT] [= <- <- <-]. pose proof (Hdst n ltac:(lia)) as Hd. rewrite Hp in Hd. done.
  - intros m t r m' t' ss HT Hd Ht Hh. destruct (keeps_orphan Hnf n m t r m' t' Hhas Hin HT Hd Hh) as (-> & ? & ?). eauto.
Qed.

(** *** Packets that are supported *)

Lemma skip_unparsed_spec k : forall n, batch_size - n <= Z.of_nat k ->
  let n' := skip_unparsed c batch_size k n in
  n <= n' /\ (n' <= batch_size \/ n' = n) /\ (forall j, n <= j < n' -> parse_res c j = false) /\
  (n' < batch_size -> parse_res c n' = true).
Proof.
  induction k as [|k IH]; intros n Hk; cbn [skip_unparsed].
  - split; [lia|]. split; [lia|]. split; lia.
  - destruct (Z.ltb_spec n batch_size) as [Hn|Hn]; cbn [andb]; [|split; [lia|]; split; [lia|]; split; lia].
    destruct (parse_res c n) eqn:Hp; cbn [negb].
    + split; [lia|]. split; [lia|]. split; [lia|done].
    + destruct (IH (n + 1)) as (H1' & H2 & H3 & H4); [lia|]. split; [lia|]. split; [lia|]. split; [|done].
      intros j Hj. destruct (decide (j = n)) as [->|]; [done|]. apply H3. lia.
Qed.

Lemma next_parsed_spec n : n < batch_size -> let n' := next_parsed c batch_size n in
  n < n' <= batch_size /\ (forall j, n < j < n' -> parse_res c j = false) /\
  (n' < batch_size -> parse_res c n' = true).
Proof.
  intros Hn n'. destruct (skip_unparsed_spec (Z.to_nat (batch_size - (n + 1))) (n + 1)) as (H1' & H2 & H3 & H4); [lia|].
  fold (next_parsed c batch_size n) in H1', H2, H3, H4. fold n' in H1', H2, H3, H4.
  split; [lia|]. split; [|done]. intros j Hj. apply H3. lia.
Qed.

(** The pointers of the packets from [lo] to [hi] are to their packet sets. *)
Definition points (names : list (Z * K)) (ptr : Z -> Z) (lo hi : Z) : Prop :=
  forall n, lo <= n < hi -> parse_res c n = true -> (ptr n, pkt_set_id c n) ∈ names.

Lemma points_next names ptr lo n : n < batch_size -> points names ptr lo n -> (ptr n, pkt_set_id c n) ∈ names ->
  points names ptr lo (next_parsed c batch_size n).
Proof.
  intros Hn Hp Hi j Hj Hpj. destruct (next_parsed_spec n Hn) as (_ & Hskip & _).
  destruct (decide (j = n)) as [->|]; [done|]. destruct (decide (j < n)); [apply Hp; [lia|done]|].
  rewrite Hskip in Hpj by lia. done.
Qed.

Lemma range_leads names ptr k : has_pkt_set_state c 0 = true -> forall end_n n, 0 <= n < end_n -> end_n <= batch_size -> parse_res c n = true ->
  points names ptr n end_n ->
  leads (batch_ok names) (in_txn names) (range_body false pkt_handlers c device batch_size k ptr end_n n) (in_txn names).
Proof using Hnf HN Heq.
  intros Hhas. induction k as [|k IH]; intros end_n n Hn Hend Hp Hpt; cbn [range_body];
    (assert (in_batch n) as Hin by (split; [lia|done]));
    (assert (in_batch n) as Hin' by done);
    (eapply (leads_bind _ _ (in_txn names)); [by intros l t r l' t' HP [= <- <- <-]|intros []]);
    (eapply leads_bind; [apply (set_dst_leads n); [done|by apply (keeps_device Hnf)]|intros []]);
    (eapply leads_bind; [apply (on_packet_leads n); [done|]|intros []]);
    try (intros m t r m' t' ss HT Hd Ht Hh; by apply (registered_table n (ptr n) m t r m' t' ss names Hhas Hin HT Hd Ht
           ltac:(apply Hpt; [lia|done]) Hh));
    (eapply leads_bind; [by apply (store_dst_leads n)|intros []]).
  - destruct (_ <? _); apply leads_ret.
  - destruct (Z.ltb_spec (next_parsed c batch_size n) end_n) as [Hlt|]; [|apply leads_ret].
    destruct (next_parsed_spec n ltac:(lia)) as (Hr & _ & Hnp). apply IH; [lia|done|apply Hnp; lia|].
    intros j Hj. apply Hpt. lia.
Qed.

(** borrow_state finds whether a packet's packet set is registered. *)
Definition borrowed (names : list (Z * K)) (ptr : Z -> Z) (n : Z) (reg_pkt_set : bool) : Prop :=
  if reg_pkt_set then (ptr n, pkt_set_id c n) ∈ names else pkt_set_id c n ∉ names.*2.

Lemma borrow_spec names fuel n ptr g ss : 2 * MAX <= Z.of_nat fuel -> table g ss names ->
  exists reg ptr' g', borrow_state keys_eq khash N MAX c now partition fuel n ptr g = Some (reg, (ptr', g')) /\
    (exists ss', table g' ss' names) /\ borrowed names ptr' n reg /\ forall j, j <> n -> ptr' j = ptr j.
Proof using HN Heq Hpart.
  intros Hf Ht. unfold borrow_state.
  destruct (table_get keys_eq khash N MAX partition abs J g ss names (pkt_set_id c n) now fuel HN Heq Hpart Hf Ht)
    as (r & g' & -> & Ht' & Hr). destruct r as [i|]; eexists _, _, g'; (split; [done|]); (split; [done|]).
  - split; [cbn; by rewrite fn_lookup_insert|]. intros j Hj. by rewrite fn_lookup_insert_ne.
  - by split.
Qed.

Lemma find_range_spec names fuel start k : forall n ptr g ss, 2 * MAX <= Z.of_nat fuel -> start <= n < batch_size ->
  batch_size - n <= Z.of_nat k ->
  table g ss names -> points names ptr start n -> (ptr n, pkt_set_id c n) ∈ names ->
  exists end_n ptr' g', find_range keys_eq khash N MAX c batch_size now partition k fuel n ptr g = Some (end_n, (ptr', g')) /\
    (exists ss', table g' ss' names) /\ n < end_n <= batch_size /\ points names ptr' start end_n /\
    (end_n < batch_size -> parse_res c end_n = true /\ pkt_set_id c end_n ∉ names.*2).
Proof using HN Heq Hpart.
  induction k as [|k IH]; intros n ptr g ss Hf Hn Hk Ht Hpt Hi; [lia|]. cbn [find_range].
  destruct (next_parsed_spec n ltac:(lia)) as (Hn' & _ & Hp').
  pose proof (points_next names ptr start n ltac:(lia) Hpt Hi) as Hpt'.
  destruct (Z.ltb_spec (next_parsed c batch_size n) batch_size) as [Hlt|Hge].
  2: { eexists _, ptr, g. split; [done|]. split; [eauto|]. split; [lia|]. split; [done|lia]. }
  destruct (borrow_spec names fuel (next_parsed c batch_size n) ptr g ss Hf Ht) as (reg & ptr' & g' & -> & [ss' Ht'] & Hb & Hsame).
  assert (points names ptr' start (next_parsed c batch_size n)) as Hpt2.
  { intros j Hj. rewrite Hsame by lia. by apply Hpt'. }
  destruct reg.
  - destruct (IH (next_parsed c batch_size n) ptr' g' ss' Hf ltac:(lia) ltac:(lia) Ht' Hpt2 Hb)
      as (end_n & ptr2 & g2 & E & Ht2 & Hr & Hpe & Hend). exists end_n, ptr2, g2. split; [done|]. split; [done|]. split; [lia|done].
  - eexists _, ptr', g'. split; [done|]. split; [eauto|]. split; [lia|]. split; [done|]. split; [by apply Hp'|done].
Qed.

(** An unknown packet set's handler with its restarts, and the commit. *)
Lemma unknown_packet_run names fuel n l (w : W) u l' w' :
  has_pkt_set_state c 0 = true -> in_batch n -> batch_ok names l -> D n (b_dst_device l) ->
  names_of before ⊆ names -> pkt_set_id c n ∉ names.*2 ->
  run_txn (fun l => set_b_manager (add_pkt_set_log_clear core (b_manager l)) l) (fun l => l)
    (on_packet n (nf_unknown_pkt_set_handler device (pkt_set_id c n))) fuel l w = Some (u, (l', w')) ->
  batch_ok names l' /\ D n (b_dst_device l') /\
  let e := log_entry (b_manager l') core in
  (PktSet.add_pkt_set e = true ->
     concurrent_dchain_has_free_indexes N (pkt_set_chain (b_manager l')) partition = true /\
     J (pkt_set_id c n) (log_state e)).
Proof using Hnf.
  intros Hhas Hn Hok Hd Hbefore Hk Hrun.
  assert (forall l0 t r l1 t1, batch_ok names l0 -> D n (b_dst_device l0) -> from_lock W t ->
    on_packet n (nf_unknown_pkt_set_handler device (pkt_set_id c n))
      (set_b_manager (add_pkt_set_log_clear core (b_manager l0)) l0, t) = (r, (l1, t1)) ->
    batch_ok names l1 /\ D n (b_dst_device l1) /\
    let e := log_entry (b_manager l1) core in
    (PktSet.add_pkt_set e = true ->
       concurrent_dchain_has_free_indexes N (pkt_set_chain (b_manager l1)) partition = true /\
       J (pkt_set_id c n) (log_state e))) as Hstep.
  { intros l0 t r l1 t1 [[ss Ht] Hdst] Hd0 Hl. unfold on_packet. destruct (nf_unknown_pkt_set_handler _ _ _) as [r' [m' t2]] eqn:E.
    intros [= _ <- _]. apply (unknown_table n _ t r' m' t2 ss names Hhas Hn) in E as (Hd' & Ht' & He);
      [|by apply (keeps_lock Hnf)|done|by apply table_log|done..|cbn; by rewrite fn_lookup_insert].
    by split; [split; [exists ss|]|]. }
  apply (run_txn_commits _ _ _ (fun l0 => batch_ok names l0 /\ D n (b_dst_device l0))) in Hrun
    as (l0 & t & t1 & [Hok0 Hd0] & Hl & Hb); [by apply Hstep in Hb| |by split].
  intros l0 t r l1 t1 [Hok0 Hd0] Hl Hb. apply Hstep in Hb as (? & ? & _); done.
Qed.

Lemma unknown_committed names fuel uninit n l : 2 * MAX <= Z.of_nat fuel -> in_batch n -> batch_ok names l ->
  D n (b_dst_device l) -> pkt_set_id c n ∉ names.*2 ->
  (let e := log_entry (b_manager l) core in PktSet.add_pkt_set e = true ->
     concurrent_dchain_has_free_indexes N (pkt_set_chain (b_manager l)) partition = true /\
     J (pkt_set_id c n) (log_state e)) ->
  exists g names', add_pkt_set_commit khash N MAX fuel uninit core (pkt_set_id c n) partition now (b_manager l) = Some g /\
    batch_ok names' (store_dst_device n (set_b_manager g l)) /\ names ⊆ names'.
Proof using HN Heq Hpart.
  intros Hf [Hn Hp] [[ss Ht] Hdst] Hd Hk He.
  destruct (table_commit keys_eq khash N MAX partition abs J (b_manager l) ss names core (pkt_set_id c n) now uninit fuel
    HN Heq Hpart Hf Ht Hk He) as (g & ss' & names' & E & Ht' & Hsub).
  exists g, names'. split; [done|]. split; [|done]. split; [by exists ss'|]. intros j Hj. cbn.
  rewrite fn_insert_dec. destruct (decide (n = j)) as [<-|]; [by rewrite Hp|by apply Hdst].
Qed.

(** A transaction of registered packet sets, with its restarts. *)
Lemma range_run names fuel ptr k end_n n l (w : W) u l' w' : has_pkt_set_state c 0 = true ->
  0 <= n < end_n -> end_n <= batch_size -> parse_res c n = true -> points names ptr n end_n -> batch_ok names l ->
  run_txn (reset_log false) (rollback false) (range_body false pkt_handlers c device batch_size k ptr end_n n) fuel l w =
    Some (u, (l', w')) -> batch_ok names l'.
Proof using Hnf HN Heq.
  intros Hhas Hn Hend Hp Hpt Hok Hrun.
  pose proof (range_leads names ptr k Hhas end_n n Hn Hend Hp Hpt) as Hl.
  assert (forall l0 (t : T), in_txn names l0 t -> batch_ok names l0) as Hin by (by intros l0 t []).
  assert (forall l0 t r l2 t2, batch_ok names l0 -> from_lock W t ->
    range_body false pkt_handlers c device batch_size k ptr end_n n (l0, t) = (r, (l2, t2)) -> batch_ok names l2) as Hstep.
  { intros l0 t r l2 t2 Hok0 Hlk Hb0. eapply (leads_result _ _ _ _ _ _ _ _ Hl Hin); [|exact Hb0].
    split; [done|by apply (keeps_lock Hnf)]. }
  apply (run_txn_commits _ _ _ (batch_ok names)) in Hrun as (l0 & t & t1 & Hok0 & Hlk & Hb0); [by eapply Hstep|exact Hstep|done].
Qed.

(** What is kept from the packet [n] on. *)
Lemma batch_loop_keeps fuel uninit k : has_pkt_set_state c 0 = true -> forall n reg ptr l (w : W) l' w' names,
  2 * MAX <= Z.of_nat fuel -> 0 <= n -> batch_ok names l -> names_of before ⊆ names ->
  (n < batch_size -> parse_res c n = true /\ borrowed names ptr n reg) ->
  batch_loop keys_eq khash N MAX false pkt_handlers c device batch_size now partition k fuel uninit core n reg ptr l w =
    Some (l', w') ->
  exists names', batch_ok names' l' /\ names_of before ⊆ names'.
Proof using Hnf HN Heq Hpart.
  intros Hhas. induction k as [|k IH]; intros n reg ptr l w l' w' names Hf Hn Hok Hbefore Hreg; cbn [batch_loop];
    (destruct (Z.ltb_spec n batch_size) as [Hlt|Hge]; [|by intros [= <- <-]; exists names]); [done|].
  destruct (Hreg Hlt) as [Hp Hb]. assert (in_batch n) as Hin by done. destruct reg; cbn [negb borrowed] in *.
  - pose proof Hok as [[ss Ht] Hdst].
    destruct (find_range_spec names fuel n (Z.to_nat batch_size) n ptr (b_manager l) ss Hf ltac:(lia) ltac:(lia) Ht
      ltac:(intros j; lia) Hb) as (end_n & ptr' & g' & -> & Ht' & Hr & Hpt & Hend).
    destruct (run_txn _ _ _ _ _ _) as [[u [l1 w1]]|] eqn:Er; [|done].
    apply (range_run names) in Er; [|done|lia|lia|done..].
    apply IH with names; [done|lia|done..|]. intros He. by apply Hend.
  - destruct (run_txn _ _ _ _ _ _) as [[u [l1 w1]]|] eqn:Er; [|done].
    apply (unknown_packet_run names) in Er as (Hok1 & Hd & He); [|done|done|by destruct Hok|by apply (keeps_device Hnf)|done..].
    destruct (unknown_committed names fuel uninit n l1 Hf Hin Hok1 Hd Hb He) as (g & names' & -> & Hok' & Hsub).
    destruct (next_parsed_spec n Hlt) as (Hn' & _ & Hp').
    destruct (Z.ltb_spec (next_parsed c batch_size n) batch_size) as [Hlt'|Hge'].
    + pose proof Hok' as [[ss' Ht'] Hdst'].
      destruct (borrow_spec names' fuel (next_parsed c batch_size n) ptr (b_manager (store_dst_device n (set_b_manager g l1))) ss' Hf Ht')
        as (reg & ptr' & g2 & -> & Ht2 & Hb2 & _).
      apply IH with names'; [done|lia|by split|by trans names|by split; [apply Hp'|]].
    + apply IH with names'; [done|lia|done|by trans names|lia].
Qed.

(** *** A batch returns *)

(** The critical sections of a batch. *)
Inductive batch_section : M (batch_mem P K S * T) unit -> Prop :=
| section_orphan : batch_section (orphan_body pkt_handlers c device batch_size)
| section_registered k ptr end_n n : batch_section (range_body false pkt_handlers c device batch_size k ptr end_n n)
| section_unknown n : batch_section (on_packet n (nf_unknown_pkt_set_handler device (pkt_set_id c n))).

(** [retries] bounds how often attempts of them can still fail. *)
Definition bounded_retries (retries : W -> nat) : Prop := forall body pre undo l w r l1 w1, batch_section body ->
  attempt pre undo body l w r l1 w1 ->
  match r with Some _ => retries w1 <= retries w | None => retries w1 < retries w end%nat.

Lemma section_returns retries body pre undo fuel l (w : W) : bounded_retries retries -> batch_section body ->
  (retries w < fuel)%nat ->
  exists l' w', run_txn pre undo body fuel l w = Some (tt, (l', w')) /\ (retries w' < fuel)%nat.
Proof.
  intros Hr Hs Hf. destruct (run_txn_returns pre undo body retries) with (fuel := fuel) (l := l) (w := w)
    as ([] & l' & w' & E); [intros l0 w0 l1 w1 Ha; by apply (Hr _ _ _ _ _ _ _ _ Hs Ha)|done|].
  exists l', w'. split; [done|]. apply run_txn_sound in E. clear -Hr Hs Hf E.
  induction E as [l w a l' w' Ha|l w l1 w1 a l' w' Ha _ IH].
  - pose proof (Hr _ _ _ _ _ _ _ _ Hs Ha) as Hle. cbn in Hle. lia.
  - apply IH. pose proof (Hr _ _ _ _ _ _ _ _ Hs Ha) as Hlt. cbn in Hlt. lia.
Qed.

Lemma batch_loop_returns retries fuel uninit k : has_pkt_set_state c 0 = true -> bounded_retries retries ->
  forall n reg ptr l (w : W) names, 2 * MAX <= Z.of_nat fuel -> (retries w < fuel)%nat -> 0 <= n ->
  batch_size - n <= Z.of_nat k -> batch_ok names l -> names_of before ⊆ names ->
  (n < batch_size -> parse_res c n = true /\ borrowed names ptr n reg) ->
  exists l' w', batch_loop keys_eq khash N MAX false pkt_handlers c device batch_size now partition k fuel uninit core
    n reg ptr l w = Some (l', w').
Proof using Hnf HN Heq Hpart.
  intros Hhas Hretry. induction k as [|k IH]; intros n reg ptr l w names Hf Hw Hn Hk Hok Hbefore Hreg; cbn [batch_loop];
    (destruct (Z.ltb_spec n batch_size) as [Hlt|Hge]; [|eauto]); [lia|].
  destruct (Hreg Hlt) as [Hp Hb]. assert (in_batch n) as Hin by done. destruct reg; cbn [negb borrowed] in *.
  - pose proof Hok as [[ss Ht] Hdst].
    destruct (find_range_spec names fuel n (Z.to_nat batch_size) n ptr (b_manager l) ss Hf ltac:(lia) ltac:(lia) Ht
      ltac:(intros j; lia) Hb) as (end_n & ptr' & g' & -> & Ht' & Hr & Hpt & Hend).
    destruct (section_returns retries _ (reset_log false) (rollback false) fuel (set_b_manager g' l) w Hretry
      (section_registered (Z.to_nat batch_size) ptr' end_n n) Hw) as (l1 & w1 & Er & Hw1). rewrite Er.
    apply (range_run names) in Er; [|done|lia|lia|done..].
    apply IH with names; [done|done|lia|lia|done..|]. intros He. by apply Hend.
  - destruct (section_returns retries _ (fun l => set_b_manager (add_pkt_set_log_clear core (b_manager l)) l) (fun l => l) fuel
      (set_b_dst_device device l) w Hretry (section_unknown n) Hw) as (l1 & w1 & Er & Hw1). rewrite Er.
    apply (unknown_packet_run names) in Er as (Hok1 & Hd & He); [|done|done|by destruct Hok|by apply (keeps_device Hnf)|done..].
    destruct (unknown_committed names fuel uninit n l1 Hf Hin Hok1 Hd Hb He) as (g & names' & -> & Hok' & Hsub).
    destruct (next_parsed_spec n Hlt) as (Hn' & _ & Hp').
    destruct (Z.ltb_spec (next_parsed c batch_size n) batch_size) as [Hlt'|Hge'].
    + pose proof Hok' as [[ss' Ht'] Hdst'].
      destruct (borrow_spec names' fuel (next_parsed c batch_size n) ptr (b_manager (store_dst_device n (set_b_manager g l1))) ss' Hf Ht')
        as (reg & ptr' & g2 & -> & Ht2 & Hb2 & _).
      apply IH with names'; [done|done|lia|lia|by split|by trans names|by split; [apply Hp'|]].
    + apply IH with names'; [done|done|lia|lia|done|by trans names|lia].
Qed.

(** What a batch keeps after its classification. *)
Lemma stateful_keeps fuel uninit ptr0 reg0 l (w : W) l' w' ss :
  2 * MAX <= Z.of_nat fuel -> table (b_manager l) ss (names_of before) ->
  (forall n, 0 <= n < batch_size -> dst_devices l n = device) ->
  stateful_processing keys_eq khash N MAX false pkt_handlers c device batch_size now partition fuel uninit core
    ptr0 reg0 l w = Some (l', w') ->
  exists names, batch_ok names l' /\ names_of before ⊆ names.
Proof using Hnf HN Heq Hpart.
  intros Hf Ht Hcd. unfold stateful_processing.
  assert (forall g1 ss1, table g1 ss1 (names_of before) -> batch_ok (names_of before) (set_b_manager g1 l)) as Hok.
  { intros g1 ss1 Ht1. split; [by exists ss1|]. intros n Hn. cbn. rewrite (Hcd n Hn).
    destruct (parse_res c n) eqn:Hp; [|done]. apply (keeps_device Hnf). by split. }
  destruct (has_pkt_set_state c 0) eqn:Hhas; cbn [negb].
  - cbv zeta. destruct (skip_unparsed_spec (Z.to_nat batch_size) 0 ltac:(lia)) as (Hn & _ & _ & Hp).
    destruct (Z.ltb_spec (skip_unparsed c batch_size (Z.to_nat batch_size) 0) batch_size) as [Hlt|Hge].
    + destruct (borrow_spec (names_of before) fuel (skip_unparsed c batch_size (Z.to_nat batch_size) 0) ptr0 (b_manager l) ss Hf Ht)
        as (reg & ptr' & g' & -> & [ss' Ht'] & Hb & _).
      intros Hrun. apply (batch_loop_keeps _ _ _ Hhas) with (names := names_of before) in Hrun; [done..| | |].
      * by apply (Hok _ ss').
      * done.
      * by split; [apply Hp|].
    + intros Hrun. apply (batch_loop_keeps _ _ _ Hhas) with (names := names_of before) in Hrun; [done..| |done|lia].
      by destruct l; apply (Hok _ ss).
  - destruct (run_txn _ _ _ _ _ _) as [[u [l1 w1]]|] eqn:Er; [|done]. intros [= <- <-].
    exists (names_of before). split; [|done]. pose proof (orphan_leads (names_of before) Hhas) as Hl.
    assert (forall l0 (t : T), in_txn (names_of before) l0 t -> batch_ok (names_of before) l0) as Hin by (by intros l0 t []).
    assert (forall l0 t r l2 t2, batch_ok (names_of before) l0 -> from_lock W t ->
      orphan_body pkt_handlers c device batch_size (l0, t) = (r, (l2, t2)) -> batch_ok (names_of before) l2) as Hstep.
    { intros l0 t r l2 t2 Hok0 Hlk Hb0. eapply (leads_result _ _ _ _ _ _ _ _ Hl Hin); [|exact Hb0].
      split; [done|by apply (keeps_lock Hnf)]. }
    apply (run_txn_commits _ _ _ (batch_ok (names_of before))) in Er as (l0 & t & t1 & Hok0 & Hlk & Hb0);
      [by eapply Hstep|done|by destruct l; apply (Hok _ ss)].
Qed.

Lemma stateful_returns retries fuel uninit ptr0 reg0 l (w : W) ss : bounded_retries retries ->
  2 * MAX <= Z.of_nat fuel -> (retries w < fuel)%nat -> table (b_manager l) ss (names_of before) ->
  (forall n, 0 <= n < batch_size -> dst_devices l n = device) ->
  exists l' w', stateful_processing keys_eq khash N MAX false pkt_handlers c device batch_size now partition fuel uninit core
    ptr0 reg0 l w = Some (l', w').
Proof using Hnf HN Heq Hpart.
  intros Hretry Hf Hw Ht Hcd. unfold stateful_processing.
  assert (forall g1 ss1, table g1 ss1 (names_of before) -> batch_ok (names_of before) (set_b_manager g1 l)) as Hok.
  { intros g1 ss1 Ht1. split; [by exists ss1|]. intros n Hn. cbn. rewrite (Hcd n Hn).
    destruct (parse_res c n) eqn:Hp; [|done]. apply (keeps_device Hnf). by split. }
  destruct (has_pkt_set_state c 0) eqn:Hhas; cbn [negb].
  - cbv zeta. destruct (skip_unparsed_spec (Z.to_nat batch_size) 0 ltac:(lia)) as (Hn & _ & _ & Hp).
    destruct (Z.ltb_spec (skip_unparsed c batch_size (Z.to_nat batch_size) 0) batch_size) as [Hlt|Hge].
    + destruct (borrow_spec (names_of before) fuel (skip_unparsed c batch_size (Z.to_nat batch_size) 0) ptr0 (b_manager l) ss Hf Ht)
        as (reg & ptr' & g' & -> & [ss' Ht'] & Hb & _).
      apply (batch_loop_returns retries) with (names := names_of before); try done; [lia|by apply (Hok _ ss')|by split; [apply Hp|]].
    + apply (batch_loop_returns retries) with (names := names_of before); try done; [lia|by destruct l; apply (Hok _ ss)|lia].
  - destruct (section_returns retries _ (fun l => l) (fun l => l) fuel l w Hretry section_orphan Hw) as (l1 & w1 & -> & _).
    eauto.
Qed.
End keeps.

(** ** The classification *)

Section classify.
Context {B P K S T : Type} `{NfHandlers B P K S T}.

(** The parser's answer for the packet [n] of a batch. *)
Definition parsed (mbufs : Z -> B * Z) (c0 : batch_class P K) (n : Z) : bool * P :=
  nf_pkt_parser (mbufs n).1 (u32 (mbufs n).2) (set_len (u16 (mbufs n).2) (packet c0 n)).

Lemma classify_spec mbufs device batch_size c0 n : 0 <= n < batch_size ->
  let c := classify_batch mbufs device batch_size c0 in
  let r := parsed mbufs c0 n in
  parse_res c n = r.1 /\ packet c n = r.2 /\
  (pkt_class c n, pkt_set_id c n, has_pkt_set_state c n) = nf_pkt_dispatcher r.2 device /\
  class_dst_devices c n = device.
Proof.
  intros Hn c r. subst c. unfold classify_batch.
  match goal with |- context [loop_range 0 _ ?body c0] => set (f := body) end.
  pose proof (loop_range_spec (fun k c => forall j, 0 <= j -> if decide (j < k) then
    let r := parsed mbufs c0 j in parse_res c j = r.1 /\ packet c j = r.2 /\
    (pkt_class c j, pkt_set_id c j, has_pkt_set_state c j) = nf_pkt_dispatcher r.2 device /\
    class_dst_devices c j = device else packet c j = packet c0 j) f batch_size c0 ltac:(lia)) as Hl.
  cbv beta in Hl. pose proof (fun A1 A2 => Hl A1 A2 n ltac:(lia)) as Hn'. rewrite decide_True in Hn' by lia. apply Hn'.
  - intros j Hj. by rewrite decide_False by lia.
  - intros k c Hk IH j Hj. unfold f. pose proof (IH k ltac:(lia)) as Hck. rewrite decide_False in Hck by lia.
    rewrite Hck. unfold parsed in *. specialize (IH j Hj).
    destruct (mbufs k) as [buffer len] eqn:Em.
    destruct (nf_pkt_parser buffer (u32 len) (set_len (u16 len) (packet c0 k))) as [res p] eqn:Ep.
    destruct (nf_pkt_dispatcher p device) as [[class id] has] eqn:Ed. cbn.
    rewrite !fn_insert_dec. destruct (decide (k = j)) as [<-|Hne].
    + rewrite decide_True by lia. rewrite Em. cbn [fst snd]. rewrite Ep. cbn [fst snd]. by rewrite Ed.
    + destruct (decide (j < k)); [rewrite decide_True by lia|rewrite decide_False by lia]; done.
Qed.
End classify.

(** ** What is kept *)

Section kept.
Context {B P K S W T : Type} `{RluRuntime W T} `{NfHandlers B P K S T} `{Countable K}.
Context (keys_eq : K -> K -> bool) (khash : K -> Z) (N MAX : Z).
Variables (pkt_handlers : Z -> pkt_handler_t P K S T) (core partition device now : Z).
Variables (TI : T -> Prop) (J : K -> S -> Prop) (D : Z -> Z -> Prop).
Hypotheses (Heq : forall k k', keys_eq k k' = true <-> k = k') (HN : 0 < N <= MAX) (Hpart : 0 <= partition < N).
Context (abs : Z -> list (session K S)).

(** The packet sets after packets were processed: those that there were are
    still there, with the same indexes. *)
Record kept (g : pkt_set_manager K S) (ss : list (session K S)) : Prop := {
  kp_rep : pkt_rep khash N MAX g (<[partition := ss]> abs);
  kp_related : has_related_pkt_sets g = false;
  kp_before s : s ∈ abs partition -> exists s', s' ∈ ss /\ s_index s' = s_index s /\ s_id s' = s_id s;
  kp_states s : s ∈ ss -> J (s_id s) (s_state s)
}.

Lemma table_kept g ss names : table khash N MAX partition abs J g ss names ->
  names_of (abs partition) ⊆ names -> kept g ss.
Proof.
  intros [Hr Hrel Hn Hs] Hsub. split; [done|done| |done]. intros s Hin.
  assert ((s_index s, s_id s) ∈ names_of ss) as (s' & [= E1 E2] & Hs')%list_elem_of_fmap.
  { rewrite <- Hn. apply Hsub, list_elem_of_fmap. by exists s. }
  by exists s'.
Qed.

Lemma table_before g : pkt_rep khash N MAX g abs -> has_related_pkt_sets g = false ->
  (forall s, s ∈ abs partition -> J (s_id s) (s_state s)) ->
  table khash N MAX partition abs J g (abs partition) (names_of (abs partition)).
Proof. intros Hr Hrel Hs. split; [|done..]. eapply pkt_rep_ext; [|exact Hr]. intros d. clear. fcases; done. Qed.

(** A batch. *)
Lemma process_pkt_batch_keeps fuel uninit c0 ptr0 reg0 mbufs batch_size dst_device g log (w : W) l' w' :
  let c := classify_batch mbufs device batch_size c0 in
  2 * MAX <= Z.of_nat fuel ->
  nf_keeps (W := W) N pkt_handlers core partition device c batch_size (abs partition) TI J D ->
  pkt_rep khash N MAX g abs -> has_related_pkt_sets g = false ->
  (forall s, s ∈ abs partition -> J (s_id s) (s_state s)) ->
  process_pkt_batch keys_eq khash N MAX false pkt_handlers fuel uninit core c0 ptr0 reg0 mbufs device batch_size now
    partition dst_device g log w = Some (l', w') ->
  (exists ss, kept (b_manager l') ss) /\
  forall n, 0 <= n < batch_size -> if parse_res c n then D n (dst_devices l' n) else dst_devices l' n = device.
Proof using Heq HN Hpart.
  intros c Hf Hnf Hr Hrel Hs. unfold process_pkt_batch. destruct (MAX_BATCH <? batch_size); [done|]. intros Hrun.
  apply (stateful_keeps keys_eq khash N MAX pkt_handlers core partition device now c batch_size (abs partition) TI J D
    Heq HN Hpart Hnf abs) with (ss := abs partition) in Hrun as (names & [[ss Ht] Hd] & Hsub); [|done| |].
  - split; [exists ss; by eapply table_kept|exact Hd].
  - by apply table_before.
  - intros n Hn. by apply (classify_spec mbufs device batch_size c0 n).
Qed.

(** A packet of the build without batches: the only one of its batch. *)
Definition one_packet (p : P) (k : K) (res has : bool) (class : Z) : batch_class P K :=
  BatchClass (fun _ => p) (fun _ => k) (fun _ => res) (fun _ => has) (fun _ => class) (fun _ => device).

(** What the runs of a handler keep and the last one leaves. *)
Lemma core_run_keeps (I Q : nf_mem P K S -> Prop) (pre : core_mem P K S -> core_mem P K S) h fuel l (w : W) u l' w' :
  (forall l t r m' t', I (nf l) -> from_lock W t -> h (nf (pre l), t) = (r, (m', t')) -> I m' /\ Q m') ->
  I (nf l) -> run_txn pre (fun l => l) (on_core h) fuel l w = Some (u, (l', w')) -> Q (nf l').
Proof.
  intros Hh HI Hrun. apply (run_txn_commits _ _ _ (fun l => I (nf l))) in Hrun as (l0 & t & t1 & HI0 & Hl & Hb); [| |done].
  - apply on_core_inv in Hb as [Hb _]. by eapply Hh.
  - intros l0 t r l1 t1 HI0 Hl Hb. apply on_core_inv in Hb as [Hb _]. by eapply Hh.
Qed.

Definition named_table (names : list (Z * K)) (m : nf_mem P K S) : Prop :=
  (exists ss, table khash N MAX partition abs J (nf_manager m) ss names) /\ D 0 (nf_dst_device m).
Definition same_manager (g : pkt_set_manager K S) (m : nf_mem P K S) : Prop :=
  nf_manager m = g /\ D 0 (nf_dst_device m).

Lemma process_pkt_keeps fuel uninit (buffer : B) len l (w : W) dst l' w' :
  let r := nf_pkt_parser buffer (u32 len) (set_len len (nf_packet (nf l))) in
  let '(class, k, has) := nf_pkt_dispatcher r.2 device in
  2 * MAX <= Z.of_nat fuel ->
  nf_keeps (W := W) N pkt_handlers core partition device (one_packet r.2 k r.1 has class) 1 (abs partition) TI J D ->
  pkt_rep khash N MAX (nf_manager (nf l)) abs -> has_related_pkt_sets (nf_manager (nf l)) = false ->
  (forall s, s ∈ abs partition -> J (s_id s) (s_state s)) ->
  process_pkt keys_eq khash N MAX false pkt_handlers fuel uninit core device buffer len now partition l w =
    Some (dst, (l', w')) ->
  (exists ss, kept (nf_manager (nf l')) ss) /\ if r.1 then D 0 dst else dst = device.
Proof using Heq HN Hpart.
  intros r. destruct (nf_pkt_dispatcher r.2 device) as [[class k] has] eqn:Ed. intros Hf Hnf Hr Hrel Hs.
  pose proof (table_before _ Hr Hrel Hs) as Ht. set (names := names_of (abs partition)) in *.
  unfold process_pkt. cbn [nf_packet set_dst_device]. fold r. destruct r as [[] p] eqn:Ep; cbn [fst snd] in *.
  2: { intros [= <- <- <-]. split; [|done]. eexists. by eapply table_kept. }
  assert (in_batch (one_packet p k true has class) 1 0) as Hin by done.
  pose proof (keeps_device N pkt_handlers core partition device _ _ _ TI J D Hnf 0 Hin) as Hdev.
  rewrite Ed. destruct has; cbn [negb].
  - cbn [nf nf_manager set_packet set_dst_device].
    destruct (table_get keys_eq khash N MAX partition abs J _ _ _ k now fuel HN Heq Hpart Hf Ht) as (ri & g & -> & [ss Ht'] & Hi).
    destruct ri as [i|].
    + destruct (run_txn _ _ _ _ _ _) as [[u [l1 w1]]|] eqn:Er; [|done]. intros [= <- <- <-].
      apply (core_run_keeps (named_table names) (named_table names)) in Er as [[ss1 Ht1] Hd]; [split; [eexists; by eapply table_kept|done]| |by split; [exists ss|]].
      intros l0 t rr m' t' [[ss0 Ht0] Hd0] Hl Hh.
      apply (registered_table keys_eq khash N MAX pkt_handlers core partition device (one_packet p k true true class) 1
        (abs partition) TI J D Heq HN Hnf abs 0 i (nf l0) t rr m' t' ss0 names) in Hh as (? & _ & ?); try done.
      by apply (keeps_lock N pkt_handlers core partition device _ _ _ TI J D Hnf).
    + destruct (run_txn _ _ _ _ _ _) as [[u [l1 w1]]|] eqn:Er; [|done].
      apply (core_run_keeps (named_table names) (fun m => named_table names m /\
        let e := log_entry (nf_manager m) core in (PktSet.add_pkt_set e = true ->
          concurrent_dchain_has_free_indexes N (pkt_set_chain (nf_manager m)) partition = true /\ J k (log_state e))))
        in Er as [[[ss1 Ht1] Hd] He]; [| |by split; [exists ss|]].
      * destruct u. destruct (table_commit keys_eq khash N MAX partition abs J (nf_manager (nf l1)) ss1 names core k now uninit fuel
          HN Heq Hpart Hf Ht1 Hi He) as (g' & ss2 & names' & -> & Ht2 & Hsub). intros [= <- <- <-].
        split; [exists ss2; by eapply table_kept|done].
      * intros l0 t rr m' t' [[ss0 Ht0] Hd0] Hl Hh.
        apply (unknown_table khash N MAX pkt_handlers core partition device (one_packet p k true true class) 1
          (abs partition) TI J D Hnf abs 0 _ t rr m' t' ss0 names) in Hh as (Hd' & Ht2 & He).
        -- assert (named_table names m') by (by split; [exists ss0|]). done.
        -- done.
        -- done.
        -- by apply (keeps_lock N pkt_handlers core partition device _ _ _ TI J D Hnf).
        -- done.
        -- by apply table_log.
        -- done.
        -- done.
        -- cbn. by rewrite fn_lookup_insert.
  - destruct (run_txn _ _ _ _ _ _) as [[u [l1 w1]]|] eqn:Er; [|done]. intros [= <- <- <-].
    apply (core_run_keeps (same_manager (nf_manager (nf l))) (same_manager (nf_manager (nf l)))) in Er as [-> Hd];
      [split; [eexists; by eapply table_kept|done]| |by split].
    intros l0 t rr m' t' [Hm Hd0] Hl Hh.
    pose proof (keeps_lock N pkt_handlers core partition device _ _ _ TI J D Hnf t Hl) as HT.
    destruct (keeps_orphan N pkt_handlers core partition device (one_packet p k true false class) 1
      (abs partition) TI J D Hnf 0 (nf l0) t rr m' t' eq_refl Hin HT Hd0 Hh) as (Em & _ & ?).
    unfold same_manager. by rewrite Em.
Qed.
End kept.

(** An NF whose handlers keep the interface of nf.h. *)
Lemma contract_keeps {B P K S W T} `{RluRuntime W T} `{NfHandlers B P K S T}
    (pkt_handlers : Z -> pkt_handler_t P K S T) (N core partition device batch_size : Z) (c : batch_class P K)
    (before : list (session K S)) :
  nf_contract N true pkt_handlers core partition ->
  nf_keeps (W := W) N pkt_handlers core partition device c batch_size before (fun _ => True) (fun _ _ => True) (fun _ _ => True).
Proof.
  intros [Ho Hr Hu]. split; try done.
  - intros n m t r m' t' _ _ _ _ E. by apply Ho in E.
  - intros n i m t r m' t' k _ _ _ _ _ E. apply Hr in E as [?|(st & ? & _)]; split; eauto.
  - intros n m t r m' t' k _ _ _ _ _ E. apply Hu in E as [?|(st & k2 & ?)]; split; eauto.
Qed.

(** ** Every packet is handled *)

Section handled.
Context {B P K S W T : Type} `{RluRuntime W T} `{NfHandlers B P K S T} `{Countable K}.
Context (keys_eq : K -> K -> bool) (khash : K -> Z) (N MAX : Z).
Variables (mutable : bool) (pkt_handlers : Z -> pkt_handler_t P K S T) (core partition device now : Z).
Variables (c : batch_class P K) (batch_size : Z).

(** Where a run of the packet's handler that does not abort sends it; the
    runs for registered packet sets start with a dropped packet. *)
Inductive handled (n : Z) : Z -> Prop :=
| handled_orphan m t m' t' : has_pkt_set_state c 0 = false ->
    pkt_handlers (pkt_class c n) device None (pkt_set_id c n) (m, t) = (Some tt, (m', t')) -> handled n (nf_dst_device m')
| handled_registered i m t m' t' : has_pkt_set_state c 0 = true -> nf_dst_device m = device ->
    pkt_handlers (pkt_class c n) device (Some i) (pkt_set_id c n) (m, t) = (Some tt, (m', t')) -> handled n (nf_dst_device m')
| handled_unknown m t m' t' : has_pkt_set_state c 0 = true ->
    nf_unknown_pkt_set_handler device (pkt_set_id c n) (m, t) = (Some tt, (m', t')) -> handled n (nf_dst_device m').

(** The packets before [n] are done. *)
Definition done_before (n : Z) (l : batch_mem P K S) : Prop :=
  forall j, 0 <= j < n -> parse_res c j = true -> handled j (dst_devices l j).

Lemma done_store n l : 0 <= n < batch_size -> done_before n l -> handled n (b_dst_device l) ->
  done_before (next_parsed c batch_size n) (store_dst_device n l).
Proof.
  intros Hn Hd Hh j Hj Hp. cbn. rewrite fn_insert_dec. destruct (decide (n = j)) as [<-|]; [done|].
  destruct (next_parsed_spec c batch_size n ltac:(lia)) as (_ & Hskip & _).
  destruct (decide (j < n)); [apply Hd; [lia|done]|]. rewrite Hskip in Hp by lia. done.
Qed.

Lemma done_earlier n n' l : n <= n' -> done_before n' l -> done_before n l.
Proof. intros Hn Hd j Hj. apply Hd. lia. Qed.

(** A handler: what it leaves in dst_device. *)
Lemma handler_leads n0 n h (Pre : batch_mem P K S -> Prop) : n0 <= n ->
  (forall l m t m' t', Pre l -> nf_dst_device m = b_dst_device l -> h (m, t) = (Some tt, (m', t')) ->
     handled n (nf_dst_device m')) ->
  leads (done_before n0) (fun l (_ : T) => done_before n l /\ Pre l) (on_packet n h)
    (fun l _ => done_before n l /\ handled n (b_dst_device l)).
Proof.
  intros Hn Hh l t r l' t' [Hd Hp]. unfold on_packet. destruct (h _) as [r' [m' t2]] eqn:E. intros [= <- <- _].
  destruct r' as [[]|]; [|by apply (done_earlier n0 n)]. split; [done|]. cbn. by eapply Hh; [exact Hp| |exact E].
Qed.

Lemma orphan_handled : has_pkt_set_state c 0 = false ->
  leads (fun _ => True) (fun _ (_ : T) => True) (orphan_body pkt_handlers c device batch_size) (fun l _ => done_before batch_size l).
Proof.
  intros Hhas.
  assert (forall k i, 0 <= i -> batch_size <= i + Z.of_nat k -> leads (fun _ => True) (fun l (_ : T) => done_before i l)
    (for_range i k (fun i => if parse_res c i then
      on_mem (fun l => set_b_dst_device (dst_devices l i) l) ;;
      on_packet i (pkt_handlers (pkt_class c i) device None (pkt_set_id c i)) ;;
      on_mem (store_dst_device i) else ret tt)) (fun l _ => done_before batch_size l)) as Hloop.
  { induction k as [|k IH]; intros i Hi Hk; cbn [for_range].
    { intros l t r l' t' Hd [= <- <- <-]. by apply (done_earlier _ i); [lia|]. }
    eapply (leads_bind _ _ (fun l _ => done_before (i + 1) l)); [|intros []; apply IH; lia].
    destruct (parse_res c i) eqn:Hp.
    - eapply (leads_bind _ _ (fun l _ => done_before i l /\ True)); [by intros l t r l' t' Hd [= <- <- <-]|intros []].
      eapply (leads_bind _ _ (fun l _ => done_before i l /\ handled i (b_dst_device l))); [|intros []].
      + intros l t r l' t' Hl E. pose proof (handler_leads i i _ (fun _ => True) ltac:(lia)
          (fun _ m t m' t' _ _ E => handled_orphan i m t m' t' Hhas E) l t r l' t' Hl E) as Hr. by destruct r.
      + intros l t r l' t' [Hd Hh] [= <- <- <-] j Hj Hpj. cbn. rewrite fn_insert_dec.
        destruct (decide (i = j)) as [<-|]; [done|]. apply Hd; [lia|done].
    - intros l t r l' t' Hd [= <- <- <-] j Hj Hpj. destruct (decide (j = i)) as [->|]; [congruence|].
      apply Hd; [lia|done]. }
  intros l t r l' t' _. apply (Hloop (Z.to_nat batch_size) 0); [lia|lia|]. intros j Hj. lia.
Qed.

Lemma range_handled n0 ptr k : has_pkt_set_state c 0 = true -> forall end_n n, n0 <= n -> 0 <= n < end_n ->
  end_n <= batch_size -> end_n - n <= Z.of_nat k + 1 ->
  leads (done_before n0) (fun l (_ : T) => done_before n l)
    (range_body mutable pkt_handlers c device batch_size k ptr end_n n) (fun l _ => done_before end_n l).
Proof.
  intros Hhas. induction k as [|k IH]; intros end_n n Hn0 Hn Hend Hk; cbn [range_body];
    (eapply (leads_bind _ _ (fun l _ => done_before n l));
      [intros l t r l' t' Hd [= <- <- <-]; unfold log_one; by destruct mutable|intros []]);
    (eapply (leads_bind _ _ (fun l _ => done_before n l /\ b_dst_device l = device));
      [by intros l t r l' t' Hd [= <- <- <-]|intros []]);
    (eapply leads_bind; [apply handler_leads; [done|];
      intros l m t m' t' Hl Hm E; rewrite Hl in Hm; exact (handled_registered n (ptr n) m t m' t' Hhas Hm E)|intros []]);
    (eapply (leads_bind _ _ (fun l _ => done_before (next_parsed c batch_size n) l));
      [intros l t r l' t' [Hd Hh] [= <- <- <-]; by apply done_store; [lia|..]|intros []]);
    destruct (Z.ltb_spec (next_parsed c batch_size n) end_n) as [Hlt|Hge];
    destruct (next_parsed_spec c batch_size n ltac:(lia)) as (Hr & _);
    try (intros l t r l' t' Hd [= <- <- <-]; by apply (done_earlier _ (next_parsed c batch_size n))).
  - lia.
  - apply IH; lia.
Qed.

Lemma find_range_after k fuel : forall n ptr (g : pkt_set_manager K S) end_n r, n < batch_size ->
  find_range keys_eq khash N MAX c batch_size now partition k fuel n ptr g = Some (end_n, r) -> n < end_n <= batch_size.
Proof.
  induction k as [|k IH]; intros n ptr g end_n r Hn; cbn [find_range];
    destruct (next_parsed_spec c batch_size n Hn) as (Hr & _);
    (destruct (Z.ltb_spec (next_parsed c batch_size n) batch_size); [|by intros [= <- _]]);
    destruct (borrow_state _ _ _ _ _ _ _ _ _ _ _) as [[reg [ptr' g']]|]; try done; destruct reg; try done;
    try (by intros [= <- _]).
  intros E. apply IH in E; lia.
Qed.

Lemma batch_loop_handled fuel uninit k : has_pkt_set_state c 0 = true -> forall n reg ptr l (w : W) l' w',
  0 <= n -> done_before n l ->
  batch_loop keys_eq khash N MAX mutable pkt_handlers c device batch_size now partition k fuel uninit core n reg ptr l w =
    Some (l', w') -> done_before batch_size l'.
Proof.
  intros Hhas. induction k as [|k IH]; intros n reg ptr l w l' w' Hn Hd; cbn [batch_loop];
    (destruct (Z.ltb_spec n batch_size) as [Hlt|Hge]; [|by intros [= <- <-]; apply (done_earlier _ n)]); [done|].
  destruct reg; cbn [negb].
  - destruct (find_range _ _ _ _ _ _ _ _ _ _ _ _ _) as [[end_n [ptr' g]]|] eqn:Ef; [|done].
    apply find_range_after in Ef; [|done]. destruct (run_txn _ _ _ _ _ _) as [[u [l1 w1]]|] eqn:Er; [|done].
    apply (run_txn_commits _ _ _ (done_before n)) in Er as (l0 & t & t1 & Hd0 & _ & Hb).
    + apply (range_handled n ptr' (Z.to_nat batch_size) Hhas end_n n) in Hb; [|lia..|].
      * apply IH; [lia|done].
      * unfold reset_log. by destruct mutable.
    + intros l0 t r l2 t2 Hd0 _ Hb. apply (range_handled n ptr' (Z.to_nat batch_size) Hhas end_n n) in Hb; [|lia..|].
      * assert (done_before n l2) by (destruct r; [by apply (done_earlier _ end_n); [lia|]|done]).
        unfold rollback. by destruct mutable.
      * unfold reset_log. by destruct mutable.
    + done.
  - destruct (run_txn _ _ _ _ _ _) as [[u [l1 w1]]|] eqn:Er; [|done].
    assert (leads (done_before n) (fun l (_ : T) => done_before n l /\ True)
      (on_packet n (nf_unknown_pkt_set_handler device (pkt_set_id c n))) (fun l _ => done_before n l /\ handled n (b_dst_device l))) as Hl.
    { apply handler_leads; [lia|]. intros _ m t m' t' _ _ E. by apply (handled_unknown n m t m' t'). }
    apply (run_txn_commits _ _ _ (done_before n)) in Er as (l0 & t & t1 & Hd0 & _ & Hb).
    + apply Hl in Hb as [Hd1 Hh]; [|done]. destruct u.
      destruct (add_pkt_set_commit _ _ _ _ _ _ _ _ _ _) as [g|]; [|done].
      pose proof (done_store n (set_b_manager g l1) ltac:(lia) Hd1 Hh) as Hd2.
      destruct (next_parsed_spec c batch_size n Hlt) as (Hn' & _).
      destruct (Z.ltb_spec (next_parsed c batch_size n) batch_size); [|apply IH; [lia|done]].
      destruct (borrow_state _ _ _ _ _ _ _ _ _ _ _) as [[reg [ptr' g']]|]; [|done]. apply IH; [lia|done].
    + intros l0 t r l2 t2 Hd0 _ Hb. apply Hl in Hb; [|done]. destruct r; [by destruct Hb|done].
    + done.
Qed.

(** The batch, after its classification. *)
Lemma stateful_handled fuel uninit ptr0 reg0 l (w : W) l' w' :
  stateful_processing keys_eq khash N MAX mutable pkt_handlers c device batch_size now partition fuel uninit core
    ptr0 reg0 l w = Some (l', w') -> done_before batch_size l'.
Proof.
  unfold stateful_processing. destruct (has_pkt_set_state c 0) eqn:Hhas; cbn [negb].
  - cbv zeta. destruct (skip_unparsed_spec c batch_size (Z.to_nat batch_size) 0 ltac:(lia)) as (Hn & _ & Hskip & _).
    assert (forall l, done_before (skip_unparsed c batch_size (Z.to_nat batch_size) 0) l) as Hd.
    { intros l0 j Hj Hp. by rewrite Hskip in Hp. }
    destruct (_ <? _); [|by apply batch_loop_handled].
    destruct (borrow_state _ _ _ _ _ _ _ _ _ _ _) as [[reg [ptr' g']]|]; [|done]. by apply batch_loop_handled.
  - destruct (run_txn _ _ _ _ _ _) as [[u [l1 w1]]|] eqn:Er; [|done]. intros [= <- <-].
    apply (run_txn_commits _ _ _ (fun _ => True)) in Er as (l0 & t & t1 & _ & _ & Hb); [|done|done].
    by apply orphan_handled in Hb.
Qed.
End handled.

(** ** Property *)

(** C38: process_pkt returns for every batch that fits its arrays, in the
    build with batches, and handles every packet: when [retries] bounds how often the attempts of the
    batch's critical sections can still fail, fuel for those and for a walk
    over the cells suffices, whatever the packets and the table.  Afterwards
    the manager represents a table in which every packet set of the core is
    still there, under its id and index, and no other core's has changed.
    Every supported packet goes where a complete run of its handler - the one
    of its class, or the one for unknown packet sets - has sent it; packets
    that are not supported are dropped.  The firewall and the balancer keep the
    contract (fw_contract of Firewall.v, maglev_contract of MaglevPlane.v). *)
Theorem process_pkt_batch_returns {B P K S W T} `{RluRuntime W T} `{NfHandlers B P K S T} `{Countable K}
    (keys_eq : K -> K -> bool) (khash : K -> Z) (N MAX : Z) (pkt_handlers : Z -> pkt_handler_t P K S T)
    (fuel : nat) (retries : W -> nat) (uninit core partition device now batch_size dst_device : Z)
    (c0 : batch_class P K) (ptr0 : Z -> Z) (reg0 : bool) (mbufs : Z -> B * Z) (g : pkt_set_manager K S)
    (log : pkt_set_state_log_t S) (w : W) (abs : Z -> list (session K S))
    (Heq : forall k k', keys_eq k k' = true <-> k = k') (HN : 0 < N <= MAX) (Hpart : 0 <= partition < N)
    (Hfuel : 2 * MAX <= Z.of_nat fuel) (Hw : (retries w < fuel)%nat) (Hsize : batch_size <= MAX_BATCH)
    (Hnf : nf_contract N true pkt_handlers core partition)
    (Hretry : bounded_retries pkt_handlers device (classify_batch mbufs device batch_size c0) batch_size retries)
    (Hrel : has_related_pkt_sets g = false) (Hr : pkt_rep khash N MAX g abs) :
  let c := classify_batch mbufs device batch_size c0 in
  exists l' w' sessions,
    process_pkt_batch keys_eq khash N MAX false pkt_handlers fuel uninit core c0 ptr0 reg0 mbufs device batch_size now
      partition dst_device g log w = Some (l', w') /\
    pkt_rep khash N MAX (b_manager l') (<[partition := sessions]> abs) /\
    (forall s, s ∈ abs partition -> exists s', s' ∈ sessions /\ s_index s' = s_index s /\ s_id s' = s_id s) /\
    (forall n, 0 <= n < batch_size ->
       if parse_res c n then handled pkt_handlers device c n (dst_devices l' n) else dst_devices l' n = device).
Proof.
  intros c. pose proof (contract_keeps (W := W) pkt_handlers N core partition device batch_size c (abs partition) Hnf) as Hk.
  destruct (stateful_returns keys_eq khash N MAX pkt_handlers core partition device now c batch_size (abs partition)
    _ _ _ Heq HN Hpart Hk abs retries fuel uninit ptr0 reg0
    (Batch (packet c) (class_dst_devices c) dst_device g log) w (abs partition) Hretry Hfuel Hw) as (l' & w' & E).
  - by apply table_before.
  - intros n Hn. by apply (classify_spec mbufs device batch_size c0 n).
  - assert (process_pkt_batch keys_eq khash N MAX false pkt_handlers fuel uninit core c0 ptr0 reg0 mbufs device batch_size now
      partition dst_device g log w = Some (l', w')) as Er.
    { unfold process_pkt_batch. by rewrite (proj2 (Z.ltb_ge _ _)) by lia. }
    destruct (process_pkt_batch_keeps keys_eq khash N MAX pkt_handlers core partition device now _ _ _ Heq HN Hpart abs
      fuel uninit c0 ptr0 reg0 mbufs batch_size dst_device g log w l' w' Hfuel Hk Hr Hrel ltac:(done) Er)
      as [(ss & [Hr' _ Hb _]) Hd].
    exists l', w', ss. split; [done|]. split; [done|]. split; [done|]. intros n Hn. specialize (Hd n Hn).
    fold c in Hd. destruct (parse_res c n) eqn:Hp; [|done].
    apply stateful_handled in E. by apply (E n).
Qed.

(** ** Witness: an NF that counts a packet set's packets *)

#[local] Existing Instance ex_nf.

(** The first [w] validations fail. *)
#[local] Instance ex_countdown : RluRuntime nat Z := {
  reader_lock w := (0, w);
  reader_unlock _ w := (Nat.eqb w 0, Nat.pred w);
  rlu_abort _ w := w
}.

Definition ex_batch_class : batch_class Z Z :=
  BatchClass (fun _ => 0) (fun _ => 0) (fun _ => false) (fun _ => false) (fun _ => 0) (fun _ => 0).
Definition ex_batch_manager : pkt_set_manager Z Z :=
  match init_pkt_set_manager 2 4 4 true true true ex_pkt_memory (fun _ => LogEntry false 0 0) 5 false with
  | Some (Some g) => g
  | _ => ex_pkt0
  end.
Definition ex_batch_log : pkt_set_state_log_t Z := StateLog 0 (fun _ => 0) (fun _ => 0).

(** A packet of an unknown packet set, one that is not supported, and another
    of the first one's. *)
Definition ex_mbufs (n : Z) : Z * Z := (if n =? 1 then 0 else 12, 60).

(** Its handlers never abort. *)
Abbreviation never body := (leads (fun _ => False) (fun _ _ => True) body (fun _ _ => True)).

Lemma ex_never_step (f : batch_mem Z Z Z -> batch_mem Z Z Z) : never (on_mem (T := Z) f).
Proof. by intros l t r l' t' _ [= <- <- <-]. Qed.

Lemma ex_never_handler n device i k : never (on_packet n (ex_count 0 device i k)).
Proof. by intros l t r l' t' _ [= <- <- <-]. Qed.

Lemma ex_never_class n device i k class : never (on_packet n (ex_count class device i k)).
Proof. exact (ex_never_handler n device i k). Qed.

Lemma ex_never device n k ptr end_n :
  never (range_body false ex_count (classify_batch ex_mbufs device 3 ex_batch_class) device 3 k ptr end_n n).
Proof.
  revert n. induction k as [|k IH]; intros n; cbn [range_body];
    (eapply leads_bind; [apply ex_never_step|intros []]); (eapply leads_bind; [apply ex_never_step|intros []]);
    (eapply leads_bind; [apply ex_never_class|intros []]); (eapply leads_bind; [apply ex_never_step|intros []]);
    destruct (_ <? _); first [apply leads_ret|apply IH].
Qed.

Lemma ex_bounded device :
  bounded_retries (W := nat) ex_count device (classify_batch ex_mbufs device 3 ex_batch_class) 3 (fun w => w).
Proof.
  intros body pre undo l w r l1 w1 Hs Ha.
  assert (leads (fun _ => False) (fun _ _ => True) body (fun _ _ => True)) as Hl.
  { destruct Hs as [|k ptr end_n n|n].
    - apply leads_for_range. intros j _. destruct (parse_res _ j); [|apply leads_ret].
      eapply leads_bind; [apply ex_never_step|intros []]. eapply leads_bind; [apply ex_never_class|intros []].
      apply ex_never_step.
    - apply ex_never.
    - by intros l0 t r0 l' t' _ [= <- <- <-]. }
  inversion Ha as [t w2 l2 t2 El Eb|t w2 b l2 t2 w3 El Eb Eu|t w2 b l2 t2 w3 El Eb Eu]; subst.
  - by apply Hl in Eb.
  - cbn in El, Eu |- *. injection El as _ <-. injection Eu as Eu <-. destruct w; [done|]. cbn. lia.
  - cbn in El, Eu |- *. injection El as _ <-. injection Eu as Eu <-. destruct w; [cbn; lia|done].
Qed.

Abbreviation ex_batch :=
  (process_pkt_batch (B := Z) Z.eqb (fun k => k) 2 4 false ex_count 8 0 0 ex_batch_class (fun _ => 0) false ex_mbufs 0 3 9 0 0
     ex_batch_manager ex_batch_log 2%nat).

(** Two runs of the first transaction fail; the packet set's only packet after
    its registration is counted once. *)
Lemma process_pkt_batch_returns_witness :
  option_map (fun r : batch_mem Z Z Z * nat => (map (dst_devices r.1) [0; 1; 2], pkt_set_state (b_manager r.1) 0, r.2)) ex_batch =
    Some ([1; 0; 1], 2, 0%nat) /\
  exists l' w' sessions, ex_batch = Some (l', w') /\
    pkt_rep (fun k => k) 2 4 (b_manager l') (<[0 := sessions]> (fun _ => [])) /\
    (forall s : session Z Z, s ∈ [] -> exists s', s' ∈ sessions /\ s_index s' = s_index s /\ s_id s' = s_id s) /\
    (forall n, 0 <= n < 3 -> if parse_res (classify_batch ex_mbufs 0 3 ex_batch_class) n
       then handled ex_count 0 (classify_batch ex_mbufs 0 3 ex_batch_class) n (dst_devices l' n) else dst_devices l' n = 0).
Proof.
  split; [vm_compute; reflexivity|].
  destruct (init_spec (fun k : Z => k) 2 4 ltac:(lia) 4 ex_pkt_memory (fun _ => LogEntry false 0 0)
    5 false ltac:(lia) ltac:(lia)) as (g & E & Hr & Hrel & _).
  assert (ex_batch_manager = g) as Eg by (unfold ex_batch_manager; by rewrite E).
  exact (process_pkt_batch_returns Z.eqb (fun k => k) 2 4 ex_count 8 (fun w => w) 0 0 0 0 9 3 0 ex_batch_class (fun _ => 0) false
    ex_mbufs ex_batch_manager ex_batch_log 2%nat (fun _ => []) ltac:(intros; apply Z.eqb_eq) ltac:(lia) ltac:(lia) ltac:(lia)
    ltac:(cbv beta; lia) ltac:(by vm_compute) ex_nf_contract (ex_bounded 0) ltac:(by rewrite Eg) ltac:(by rewrite Eg)).
Defined.
