(* ===== verification/Ether.v ===== *)
(** * Ethernet addresses

    struct rte_ether_addr and the functions on it of
    src/deps/vigor/libvig/verified/ether.c, with which the bridge's tables are
    set up.  The CRC32 instruction is a parameter. *)

From stdpp Require Import gmap.
From S2P Require Import Prelude.
Open Scope Z_scope.

(** addr_bytes[0] to addr_bytes[5]. *)
Record rte_ether_addr := Mac {
  addr_byte0 : Z;
  addr_byte1 : Z;
  addr_byte2 : Z;
  addr_byte3 : Z;
  addr_byte4 : Z;
  addr_byte5 : Z
}.
#[export] Instance ether_addr_eq_dec : EqDecision rte_ether_addr.
Proof. solve_decision. Defined.
#[export] Instance ether_addr_countable : Countable rte_ether_addr.
Proof.
  apply (inj_countable'
    (fun m => (addr_byte0 m, addr_byte1 m, addr_byte2 m, addr_byte3 m, addr_byte4 m, addr_byte5 m))
    (fun '(a, b, c, d, e, f) => Mac a b c d e f)). by intros [].
Defined.

(** All bytes zero. *)
Definition no_mac : rte_ether_addr := Mac 0 0 0 0 0 0.

Definition addr_bytes (m : rte_ether_addr) : list Z :=
  [addr_byte0 m; addr_byte1 m; addr_byte2 m; addr_byte3 m; addr_byte4 m; addr_byte5 m].
Definition set_addr_byte0 (x : Z) (m : rte_ether_addr) : rte_ether_addr :=
  Mac x (addr_byte1 m) (addr_byte2 m) (addr_byte3 m) (addr_byte4 m) (addr_byte5 m).

Definition ether_addr_eq (id1 id2 : rte_ether_addr) : bool :=
  (addr_byte0 id1 =? addr_byte0 id2) && (addr_byte1 id1 =? addr_byte1 id2) &&
  (addr_byte2 id1 =? addr_byte2 id2) && (addr_byte3 id1 =? addr_byte3 id2) &&
  (addr_byte4 id1 =? addr_byte4 id2) && (addr_byte5 id1 =? addr_byte5 id2).

(** [old]: what the memory held. *)
Definition ether_addr_allocate (old : rte_ether_addr) : rte_ether_addr := Mac 0 0 0 0 0 0.

Definition ether_addr_hash (crc32si : Z -> Z -> Z) (id : rte_ether_addr) : Z :=
  let hash := 0 in
  let hash := crc32si hash (addr_byte0 id) in
  let hash := crc32si hash (addr_byte1 id) in
  let hash := crc32si hash (addr_byte2 id) in
  let hash := crc32si hash (addr_byte3 id) in
  let hash := crc32si hash (addr_byte4 id) in
  crc32si hash (addr_byte5 id).

Lemma ether_addr_eq_spec a b : ether_addr_eq a b = true <-> a = b.
Proof.
  destruct a, b. unfold ether_addr_eq. cbn. rewrite !andb_true_iff, !Z.eqb_eq. naive_solver.
Qed.

Lemma length_addr_bytes m : length (addr_bytes m) = 6%nat.
Proof. done. Qed.
