(* ===== verification/NfUtil.v ===== *)
(** * Numbers and addresses as text

    src/deps/vigor/nf-util.c: nf_util_parse_int, nf_mac_to_str and
    nf_ipv4_to_str.  A character is its code; a C string is the list of its
    characters before the 0, a buffer the list of all its bytes. *)

From stdpp Require Import list numbers.
From S2P Require Import Prelude Ether.
Open Scope Z_scope.

(** ** The C library *)

Definition c_str (buffer : list Z) : list Z :=
  (fix go l := match l with [] => [] | c :: l => if c =? 0 then [] else c :: go l end) buffer.

(** *** Printing *)

Definition upper_digit (d : Z) : Z := if d <? 10 then 48 + d else 55 + d.

(** The digits of [x], the last first written; [fuel] is their greatest
    number. *)
Fixpoint digits (fuel : nat) (base x : Z) (acc : list Z) : list Z :=
  match fuel with
  | O => acc
  | S fuel =>
      let acc := upper_digit (x mod base) :: acc in
      if x <? base then acc else digits fuel base (x / base) acc
  end.

(** %u and %02X of an unsigned int *)
Definition fmt_u (x : Z) : list Z := digits 10 10 x [].
Definition fmt_02X (x : Z) : list Z :=
  let s := digits 8 16 x [] in if (length s <? 2)%nat then 48 :: s else s.

(** snprintf of [text] into a buffer of [size] bytes. *)
Definition snprintf (size : Z) (text buffer : list Z) : list Z :=
  let t := take (Z.to_nat (size - 1)) text in t ++ [0] ++ drop (length t + 1) buffer.

(** *** Parsing *)

Definition isspace (c : Z) : bool := (c =? 32) || ((9 <=? c) && (c <=? 13)).

Fixpoint skip_spaces (s : list Z) : list Z :=
  match s with
  | c :: s' => if isspace c then skip_spaces s' else s
  | [] => []
  end.

(** 36: not a digit in any base *)
Definition digit_val (c : Z) : Z :=
  if (48 <=? c) && (c <=? 57) then c - 48
  else if (65 <=? c) && (c <=? 90) then c - 55
  else if (97 <=? c) && (c <=? 122) then c - 87
  else 36.

Fixpoint read_digits (base acc : Z) (s : list Z) : Z * list Z :=
  match s with
  | c :: s' => if digit_val c <? base then read_digits base (acc * base + digit_val c) s' else (acc, s)
  | [] => (acc, [])
  end.

Definition INTMAX_MAX : Z := 2 ^ 63 - 1.
Definition INTMAX_MIN : Z := - 2 ^ 63.

Definition read_sign (s : list Z) : bool * list Z :=
  match s with
  | c :: s' => if c =? 45 then (true, s') else if c =? 43 then (false, s') else (false, s)
  | [] => (false, s)
  end.

(** The base, and the characters after a prefix 0x of a hexadecimal number. *)
Definition read_prefix (base : Z) (s : list Z) : Z * list Z :=
  match s with
  | z :: x :: d :: _ =>
      if ((base =? 0) || (base =? 16)) && (z =? 48) && ((x =? 88) || (x =? 120)) && (digit_val d <? 16)
      then (16, drop 2 s)
      else (if base =? 0 then if z =? 48 then 8 else 10 else base, s)
  | z :: _ => (if base =? 0 then if z =? 48 then 8 else 10 else base, s)
  | [] => (if base =? 0 then 10 else base, s)
  end.

(** The value, and the string from where the number ends; the whole string
    when there is no number. *)
Definition strtoimax (str : list Z) (base : Z) : Z * list Z :=
  let (neg, s) := read_sign (skip_spaces str) in
  let (base, s) := read_prefix base s in
  let (x, s') := read_digits base 0 s in
  if (length s' =? length s)%nat then (0, str)
  else ((if neg then Z.max INTMAX_MIN (- x) else Z.min INTMAX_MAX x), s').

(** ** nf-util.c; [None]: rte_exit *)

(** temp == str iff nothing of [str] was used. *)
Definition nf_util_parse_int (str : list Z) (base next : Z) : option Z :=
  let (result, temp) := strtoimax str base in
  if (length temp =? length str)%nat || negb (default 0 (head temp) =? next) then None else Some (u64 result).

(** [ok]: calloc succeeds *)
Definition nf_mac_to_str (ok : bool) (addr : rte_ether_addr) : option (list Z) :=
  let buffer_size := 6 * 2 + 5 + 1 in
  if negb ok then None
  else
    Some (snprintf buffer_size
      (fmt_02X (addr_byte0 addr) ++ [58] ++ fmt_02X (addr_byte1 addr) ++ [58] ++ fmt_02X (addr_byte2 addr) ++ [58] ++
       fmt_02X (addr_byte3 addr) ++ [58] ++ fmt_02X (addr_byte4 addr) ++ [58] ++ fmt_02X (addr_byte5 addr))
      (replicate (Z.to_nat buffer_size) 0)).

Definition nf_ipv4_to_str (ok : bool) (addr : Z) : option (list Z) :=
  let buffer_size := 4 * 3 + 3 + 1 in
  if negb ok then None
  else
    Some (snprintf buffer_size
      (fmt_u (Z.land addr 255) ++ [46] ++ fmt_u (Z.land (Z.shiftr addr 8) 255) ++ [46] ++
       fmt_u (Z.land (Z.shiftr addr 16) 255) ++ [46] ++ fmt_u (Z.land (Z.shiftr addr 24) 255))
      (replicate (Z.to_nat buffer_size) 0)).

(** ** Fields *)

(** What is left after the first [sep]. *)
Fixpoint after (sep : Z) (s : list Z) : list Z :=
  match s with
  | c :: s => if c =? sep then s else after sep s
  | [] => []
  end.

(** The [n] numbers of [str] between [sep]s, read by nf_util_parse_int. *)
Fixpoint parse_fields (base sep : Z) (n : nat) (str : list Z) : option (list Z) :=
  match n with
  | O => Some []
  | S n =>
      x ← nf_util_parse_int str base (match n with O => 0 | _ => sep end);
      xs ← parse_fields base sep n (after sep str);
      Some (x :: xs)
  end.

(** Characters of numbers: no space, no sign and no prefix. *)
Definition plain_digit (base c : Z) : bool := (48 <=? c) && (digit_val c <? base).

(** ** Lemmas *)

Lemma read_digits_app base ds : forall acc rest, forallb (plain_digit base) ds = true ->
  read_digits base acc (ds ++ rest) = read_digits base (read_digits base acc ds).1 rest.
Proof.
  induction ds as [|d ds IH]; intros acc rest Hd; [done|]. cbn in Hd |- *.
  apply andb_prop in Hd as [[_ ->]%andb_prop Hd]. by apply IH.
Qed.

Lemma read_digits_stop base acc c rest : base <= digit_val c -> read_digits base acc (c :: rest) = (acc, c :: rest).
Proof. intros Hc. cbn. by destruct (Z.ltb_spec (digit_val c) base); [lia|]. Qed.

Lemma read_digits_rest base acc c rest : (rest = [] \/ head rest = Some c) -> base <= digit_val c ->
  read_digits base acc rest = (acc, rest).
Proof. destruct rest as [|c' rest]; intros [?|[= ->]] Hc; try done. by apply read_digits_stop. Qed.

Lemma read_prefix_plain base s : base = 10 \/ base = 16 ->
  (forall c, s !! 1%nat = Some c -> c <> 88 /\ c <> 120) -> read_prefix base s = (base, s).
Proof.
  intros Hb Hs. destruct s as [|z [|x [|d s]]]; [by destruct Hb; subst..|].
  cbn. destruct (Hs x eq_refl) as [H1 H2]. apply Z.eqb_neq in H1, H2. rewrite H1, H2.
  rewrite andb_false_r. by destruct Hb; subst.
Qed.

(** A number in front of [next], or at the end. *)
Lemma parse_field base next x ds rest :
  base = 10 \/ base = 16 -> ds <> [] -> forallb (plain_digit base) ds = true ->
  (read_digits base 0 ds).1 = x -> 0 <= x < 2 ^ 63 -> base <= digit_val next -> next <> 88 /\ next <> 120 ->
  (next = 0 /\ rest = [] \/ head rest = Some next) ->
  nf_util_parse_int (ds ++ rest) base next = Some x.
Proof.
  intros Hb Hne Hd Hx Hr Hn Hnx Hrest. unfold nf_util_parse_int, strtoimax.
  assert (exists d ds', ds = d :: ds' /\ 48 <= d) as (d & ds' & E & Hd48).
  { destruct ds as [|d ds']; [done|]. exists d, ds'. split; [done|].
    cbn in Hd. apply andb_prop in Hd as [[Hd _]%andb_prop _]. lia. }
  assert (skip_spaces (ds ++ rest) = ds ++ rest) as ->.
  { rewrite E. cbn. unfold isspace.
    destruct (Z.eqb_spec d 32), (Z.leb_spec d 13); try lia. by rewrite andb_false_r. }
  assert (read_sign (ds ++ rest) = (false, ds ++ rest)) as ->.
  { rewrite E. cbn. destruct (Z.eqb_spec d 45), (Z.eqb_spec d 43); try lia. done. }
  rewrite read_prefix_plain; [|done|].
  2: { intros c Hc. destruct ds' as [|d2 ds'].
    - subst ds. cbn in Hc. destruct rest as [|c' rest]; [done|]. destruct Hrest as [[_ ?]|[= ->]]; [done|].
      by injection Hc as ->.
    - subst ds. cbn in Hc. injection Hc as ->. cbn in Hd. apply andb_prop in Hd as [_ [Hc _]%andb_prop]; apply andb_prop in Hc as [_ Hc].
      split; intros ->; cbn in Hc; destruct Hb; lia. }
  rewrite read_digits_app, Hx, (read_digits_rest _ _ next) by (done || tauto).
  assert (length (ds ++ rest) = S (length ds' + length rest)) as El by (subst ds; cbn; by rewrite length_app).
  rewrite El. destruct (Nat.eqb_spec (length rest) (S (length ds' + length rest))); [lia|].
  destruct (Nat.eqb_spec (length rest) (S (length ds' + length rest))); [lia|]. cbn [orb].
  assert (default 0 (head rest) = next) as -> by (destruct Hrest as [[-> ->] | ->]; done).
  rewrite Z.eqb_refl. cbn [negb]. f_equal. unfold INTMAX_MAX. rewrite Z.min_r by lia. apply u64_id. lia.
Qed.

Lemma after_field base sep ds rest : forallb (plain_digit base) ds = true -> base <= digit_val sep ->
  after sep (ds ++ sep :: rest) = rest.
Proof.
  intros Hd Hs. induction ds as [|d ds IH]; cbn.
  - by rewrite Z.eqb_refl.
  - cbn in Hd. apply andb_prop in Hd as [[_ Hd]%andb_prop Hds]. destruct (Z.eqb_spec d sep); [subst; lia|]. by apply IH.
Qed.

(** The printed bytes, and how many characters they have. *)
Definition byte_ok (base : Z) (lo hi : nat) (fmt : Z -> list Z) (x : Z) : bool :=
  forallb (plain_digit base) (fmt x) && (lo <=? length (fmt x))%nat && (length (fmt x) <=? hi)%nat &&
  ((read_digits base 0 (fmt x)).1 =? x).

Lemma below_256 (P : Z -> bool) : forallb P (seqZ 0 256) = true -> forall x, 0 <= x < 256 -> P x = true.
Proof. intros H x Hx. rewrite forallb_forall in H. apply H, list_elem_of_In, elem_of_seqZ. lia. Qed.

Lemma fmt_u_ok x : 0 <= x < 256 -> byte_ok 10 1 3 fmt_u x = true.
Proof. apply below_256. by vm_compute. Qed.

Lemma fmt_02X_ok x : 0 <= x < 256 -> byte_ok 16 2 2 fmt_02X x = true.
Proof. apply below_256. by vm_compute. Qed.

(** The fields of a text. *)
Fixpoint join (sep : Z) (fmt : Z -> list Z) (xs : list Z) : list Z :=
  match xs with
  | [] => []
  | [x] => fmt x
  | x :: xs => fmt x ++ sep :: join sep fmt xs
  end.

Section join.
Context (base sep : Z) (lo hi : nat) (fmt : Z -> list Z).
Hypothesis (Hb : base = 10 \/ base = 16) (Hlo : (0 < lo)%nat) (Hsep : base <= digit_val sep).
Hypothesis Hfmt : forall x, 0 <= x < 256 -> byte_ok base lo hi fmt x = true.

Lemma fmt_parts x : 0 <= x < 256 -> fmt x <> [] /\ forallb (plain_digit base) (fmt x) = true /\
  (length (fmt x) <= hi)%nat /\ (read_digits base 0 (fmt x)).1 = x.
Proof.
  intros Hx. specialize (Hfmt x Hx). unfold byte_ok in Hfmt. repeat (apply andb_prop in Hfmt as [Hfmt ?]).
  split; [|split; [done|split; [by apply Nat.leb_le|lia]]].
  destruct (fmt x); [|done]. cbn in *. destruct lo; [lia|done].
Qed.

Lemma join_digits xs : Forall (fun x => 0 <= x < 256) xs -> sep <> 0 ->
  Forall (fun c => c <> 0) (join sep fmt xs) /\ (length (join sep fmt xs) <= length xs * (hi + 1) - 1)%nat.
Proof.
  intros Hxs Hs. induction Hxs as [|x xs Hx Hxs [IH1 IH2]]; [split; [constructor|cbn; lia]|].
  destruct (fmt_parts x Hx) as (_ & Hd & Hl & _).
  assert (Forall (fun c => c <> 0) (fmt x)) as Hnz.
  { apply Forall_forall. intros c Hc%list_elem_of_In. rewrite forallb_forall in Hd. specialize (Hd c Hc).
    apply andb_prop in Hd as [Hd _]. lia. }
  destruct xs as [|y xs]; [split; [done|cbn; lia]|].
  change (join sep fmt (x :: y :: xs)) with (fmt x ++ sep :: join sep fmt (y :: xs)). split.
  - apply Forall_app. by split; [|constructor].
  - rewrite length_app. cbn [length] in *. lia.
Qed.

Lemma parse_join xs : Forall (fun x => 0 <= x < 256) xs -> sep <> 88 /\ sep <> 120 ->
  parse_fields base sep (length xs) (join sep fmt xs) = Some xs.
Proof.
  intros Hxs Hs. induction Hxs as [|x xs Hx Hxs IH]; [done|].
  destruct (fmt_parts x Hx) as (Hne & Hd & _ & Hv). destruct xs as [|y xs].
  - cbn. rewrite <- (app_nil_r (fmt x)). rewrite (parse_field base 0 x) by (auto with lia; cbn; destruct Hb; lia).
    done.
  - change (join sep fmt (x :: y :: xs)) with (fmt x ++ sep :: join sep fmt (y :: xs)).
    cbn [length parse_fields]. rewrite (parse_field base sep x) by (auto with lia). cbn [mbind option_bind].
    rewrite (after_field base) by done. cbn [length parse_fields] in IH. by rewrite IH.
Qed.
End join.

Lemma c_str_app t rest : Forall (fun c => c <> 0) t -> c_str (t ++ 0 :: rest) = t.
Proof.
  induction 1 as [|c t Hc _ IH]; [done|]. cbn. destruct (Z.eqb_spec c 0); [done|]. f_equal. exact IH.
Qed.

(** A text that fits its buffer is there in full. *)
Lemma snprintf_fits size text : Forall (fun c => c <> 0) text -> Z.of_nat (length text) < size ->
  c_str (snprintf size text (replicate (Z.to_nat size) 0)) = text /\
  Z.of_nat (length (snprintf size text (replicate (Z.to_nat size) 0))) = size.
Proof.
  intros Ht Hl. unfold snprintf. rewrite take_ge by lia. cbn [app]. split; [by apply c_str_app|].
  rewrite length_app. cbn [length]. rewrite length_drop, length_replicate. lia.
Qed.

(** ** Properties *)

Definition octets (addr : Z) : list Z :=
  [Z.land addr 255; Z.land (Z.shiftr addr 8) 255; Z.land (Z.shiftr addr 16) 255; Z.land (Z.shiftr addr 24) 255].

(** C39: the texts of addresses: nf_ipv4_to_str and nf_mac_to_str give up only
    when their buffer cannot be had; otherwise no character is cut off, the
    text ends inside its buffer, and nf_util_parse_int reads the bytes of the
    address back from its fields, in base 10 and 16. *)
Theorem address_texts_roundtrip (ok : bool) (addr : Z) (mac : rte_ether_addr)
    (Hmac : Forall (fun b => 0 <= b < 256) (addr_bytes mac)) :
  match nf_ipv4_to_str ok addr with
  | None => ok = false
  | Some buffer => length buffer = 16%nat /\ (length (c_str buffer) < 16)%nat /\
      parse_fields 10 46 4 (c_str buffer) = Some (octets addr)
  end /\
  match nf_mac_to_str ok mac with
  | None => ok = false
  | Some buffer => length buffer = 18%nat /\ (length (c_str buffer) < 18)%nat /\
      parse_fields 16 58 6 (c_str buffer) = Some (addr_bytes mac)
  end.
Proof.
  destruct ok; [|done]. unfold nf_ipv4_to_str, nf_mac_to_str. cbn [negb]. cbv zeta.
  change (4 * 3 + 3 + 1) with 16. change (6 * 2 + 5 + 1) with 18. split.
  - assert (Forall (fun x => 0 <= x < 256) (octets addr)) as Ho.
    { assert (forall x, 0 <= Z.land x 255 < 256) as H.
      { intros x. change 255 with (2 ^ 8 - 1). rewrite land_mask by done. by apply Z.mod_pos_bound. }
      repeat constructor; apply H. }
    destruct (join_digits 10 46 1 3 fmt_u ltac:(lia) fmt_u_ok (octets addr) Ho ltac:(done)) as [Hnz Hl].
    destruct (snprintf_fits 16 (join 46 fmt_u (octets addr)) Hnz ltac:(cbn [octets length] in Hl; lia)) as [E1 E2].
    change (fmt_u (Z.land addr 255) ++ _) with (join 46 fmt_u (octets addr)).
    rewrite E1. split; [lia|]. split; [cbn [octets length] in Hl; lia|].
    apply (parse_join 10 46 1 3 fmt_u ltac:(lia) ltac:(lia) ltac:(done) fmt_u_ok (octets addr) Ho ltac:(lia)).
  - destruct (join_digits 16 58 2 2 fmt_02X ltac:(lia) fmt_02X_ok (addr_bytes mac) Hmac ltac:(done)) as [Hnz Hl].
    destruct (snprintf_fits 18 (join 58 fmt_02X (addr_bytes mac)) Hnz ltac:(cbn [addr_bytes length] in Hl; lia))
      as [E1 E2].
    change (fmt_02X (addr_byte0 mac) ++ _) with (join 58 fmt_02X (addr_bytes mac)).
    rewrite E1. split; [lia|]. split; [cbn [addr_bytes length] in Hl; lia|].
    apply (parse_join 16 58 2 2 fmt_02X ltac:(lia) ltac:(lia) ltac:(done) fmt_02X_ok (addr_bytes mac) Hmac ltac:(lia)).
Qed.

(** ** Witness and examples *)

Lemma address_texts_roundtrip_witness :
  Forall (fun b => 0 <= b < 256) (addr_bytes (Mac 1 35 69 103 137 171)) /\
  parse_fields 16 58 6 (c_str (default [] (nf_mac_to_str true (Mac 1 35 69 103 137 171)))) =
    Some [1; 35; 69; 103; 137; 171].
Proof.
  assert (Forall (fun b => 0 <= b < 256) (addr_bytes (Mac 1 35 69 103 137 171))) as H
    by (repeat constructor; discriminate).
  split; [exact H|].
  destruct (address_texts_roundtrip true 0 (Mac 1 35 69 103 137 171) H) as [_ Hm]. exact (proj2 (proj2 Hm)).
Defined.

(** 192.168.1.10 *)
Example ipv4_text : option_map c_str (nf_ipv4_to_str true 167880896) =
  Some [49; 57; 50; 46; 49; 54; 56; 46; 49; 46; 49; 48].
Proof. by vm_compute. Qed.

(** *** Where the code does not do what it means to *)

(** A number that does not fit is not refused, as the comment admits, and
    neither is a negative one, although the result is unsigned. *)
Lemma parse_int_unchecked :
  nf_util_parse_int [57;57;57;57;57;57;57;57;57;57;57;57;57;57;57;57;57;57;57;57] 10 0 = Some (2 ^ 63 - 1) /\
  nf_util_parse_int [45; 49] 10 0 = Some (2 ^ 64 - 1).
Proof. by vm_compute. Qed.
