(* ===== verification/NfCommon.v ===== *)
(** * Packets, as the network functions see them

    pkt_t of src/src/include/nf.h with the headers it points to, the parser
    the firewall, the NAT and the load balancer share, and the interface to
    header extraction and checksums (Frame.v models the repository's, over
    bytes), to DPDK's byte swapping and to the CRC32 instruction. *)

From S2P Require Import Prelude Ether.
Open Scope Z_scope.

Record rte_ether_hdr := Ether { eth_d_addr : rte_ether_addr; eth_s_addr : rte_ether_addr }.
Record rte_ipv4_hdr := Ipv4 {
  type_of_service : Z;
  time_to_live : Z;
  next_proto_id : Z;
  src_addr : Z;
  dst_addr : Z
}.
Record tcpudp_hdr := TcpUdp { src_port : Z; dst_port : Z }.

(** The pointers of pkt_t all lead into the received buffer: the headers are
    written in place.  [None]: NULL.  [B]: raw buffers. *)
Record pkt_t (B : Type) := Pkt {
  len : Z;
  ether_header : rte_ether_hdr;
  ipv4_header : option rte_ipv4_hdr;
  tcpudp_header : option tcpudp_hdr;
  payload : option (Z -> Z);
  raw : B
}.
Arguments Pkt {B} _ _ _ _ _ _.
Arguments len {B} _.
Arguments ether_header {B} _.
Arguments ipv4_header {B} _.
Arguments tcpudp_header {B} _.
Arguments payload {B} _.
Arguments raw {B} _.

(** packet_state_total_length *)
Definition with_len {B} (n : Z) (p : pkt_t B) : pkt_t B :=
  Pkt n (ether_header p) (ipv4_header p) (tcpudp_header p) (payload p) (raw p).

(** The headers a parsed packet has; read through a NULL pointer otherwise,
    which no handler does after a successful parse. *)
Definition ipv4 {B} (p : pkt_t B) : rte_ipv4_hdr := default (Ipv4 0 0 0 0 0) (ipv4_header p).
Definition tcpudp {B} (p : pkt_t B) : tcpudp_hdr := default (TcpUdp 0 0) (tcpudp_header p).

Definition set_ether_header {B} (h : rte_ether_hdr) (p : pkt_t B) : pkt_t B :=
  Pkt (len p) h (ipv4_header p) (tcpudp_header p) (payload p) (raw p).
Definition set_ipv4_header {B} (h : rte_ipv4_hdr) (p : pkt_t B) : pkt_t B :=
  Pkt (len p) (ether_header p) (Some h) (tcpudp_header p) (payload p) (raw p).
Definition set_tcpudp_header {B} (h : tcpudp_hdr) (p : pkt_t B) : pkt_t B :=
  Pkt (len p) (ether_header p) (ipv4_header p) (Some h) (payload p) (raw p).
Definition set_src_addr (a : Z) (h : rte_ipv4_hdr) : rte_ipv4_hdr :=
  Ipv4 (type_of_service h) (time_to_live h) (next_proto_id h) a (dst_addr h).
Definition set_dst_addr (a : Z) (h : rte_ipv4_hdr) : rte_ipv4_hdr :=
  Ipv4 (type_of_service h) (time_to_live h) (next_proto_id h) (src_addr h) a.
Definition set_type_of_service (x : Z) (h : rte_ipv4_hdr) : rte_ipv4_hdr :=
  Ipv4 x (time_to_live h) (next_proto_id h) (src_addr h) (dst_addr h).

(** What the parser and the handlers use of packet-io, of DPDK and of the
    processor. *)
Class PacketIo (B : Type) := {
  nf_then_get_ether_header : B -> rte_ether_hdr;
  nf_then_get_ipv4_header : rte_ether_hdr -> B -> option rte_ipv4_hdr;
  nf_then_get_tcpudp_header : rte_ipv4_hdr -> B -> option tcpudp_hdr;
  nf_set_ipv4_udptcp_checksum : pkt_t B -> pkt_t B;
  bytes_at_tcpudp : B -> Z -> Z;   (* the bytes from the transport header on *)
  crc32si : Z -> Z -> Z;           (* __builtin_ia32_crc32si *)
  bswap16 : Z -> Z;                (* RTE_STATIC_BSWAP16 *)
  bswap32 : Z -> Z                 (* RTE_STATIC_BSWAP32 *)
}.

Class PacketIoLaws (B : Type) `{PacketIo B} := {
  crc32si_range c v : 0 <= crc32si c v < 2 ^ 32;
  bswap16_range x : 0 <= x < 2 ^ 16 -> 0 <= bswap16 x < 2 ^ 16;
  bswap32_range x : 0 <= x < 2 ^ 32 -> 0 <= bswap32 x < 2 ^ 32;
  bswap16_twice x : 0 <= x < 2 ^ 16 -> bswap16 (bswap16 x) = x;
  bswap32_twice x : 0 <= x < 2 ^ 32 -> bswap32 (bswap32 x) = x
}.

Section parser.
Context {B : Type} `{PacketIo B}.

(** nf_pkt_parser of the NFs that work on flows; [with_payload]: whether the
    NF keeps the transport header's address as the payload. *)
Definition nf_pkt_parser (with_payload : bool) (buffer : B) (pkt : pkt_t B) : bool * pkt_t B :=
  let eth := nf_then_get_ether_header buffer in
  let pkt := set_ether_header eth pkt in
  match nf_then_get_ipv4_header eth buffer with
  | None => (false, Pkt (len pkt) eth None (tcpudp_header pkt) (payload pkt) (raw pkt))
  | Some ip =>
      match nf_then_get_tcpudp_header ip buffer with
      | None => (false, Pkt (len pkt) eth (Some ip) None (payload pkt) (raw pkt))
      | Some l4 =>
          (true, Pkt (len pkt) eth (Some ip) (Some l4)
                   (if with_payload then Some (bytes_at_tcpudp buffer) else None) buffer)
      end
  end.
End parser.

(** A packet with its source replaced, as both NATs do. *)
Definition translated `{PacketIo B} (ip port : Z) (pkt : pkt_t B) : pkt_t B :=
  nf_set_ipv4_udptcp_checksum
    (set_ipv4_header (set_src_addr ip (ipv4 pkt))
       (set_tcpudp_header (TcpUdp port (dst_port (tcpudp pkt))) pkt)).

(** A flow: the id of a packet set in all three NFs, with their names for its
    fields. *)
Record pkt_set_id_t := FlowId {
  id_src_port : Z;     (* internal_port in the firewall *)
  id_dst_port : Z;     (* external_port *)
  id_src_ip : Z;       (* internal_ip *)
  id_dst_ip : Z;       (* external_ip *)
  id_protocol : Z
}.
#[export] Instance pkt_set_id_eq_dec : EqDecision pkt_set_id_t.
Proof. solve_decision. Defined.
#[export] Instance pkt_set_id_countable : Countable pkt_set_id_t.
Proof.
  apply (inj_countable' (fun k => (id_src_port k, id_dst_port k, id_src_ip k, id_dst_ip k, id_protocol k))
    (fun '(a, b, c, d, e) => FlowId a b c d e)). by intros [].
Defined.

Definition pkt_set_id_eq (id1 id2 : pkt_set_id_t) : bool :=
  (id_src_ip id1 =? id_src_ip id2) && (id_dst_ip id1 =? id_dst_ip id2) &&
  (id_src_port id1 =? id_src_port id2) && (id_dst_port id1 =? id_dst_port id2) &&
  (id_protocol id1 =? id_protocol id2).

Definition pkt_set_id_hash `{PacketIo B} (id : pkt_set_id_t) : Z :=
  let hash := 0 in
  let hash := crc32si hash (id_src_ip id) in
  let hash := crc32si hash (id_dst_ip id) in
  let hash := crc32si hash (id_src_port id) in
  let hash := crc32si hash (id_dst_port id) in
  crc32si hash (id_protocol id).

Lemma pkt_set_id_eq_spec k k' : pkt_set_id_eq k k' = true <-> k = k'.
Proof.
  destruct k, k'. unfold pkt_set_id_eq. cbn. rewrite !andb_true_iff, !Z.eqb_eq. naive_solver.
Qed.

(** ** Byte order on a little-endian machine *)

Definition swap16 (x : Z) : Z := (x mod 256) * 256 + x / 256.
Definition swap32 (x : Z) : Z :=
  ((x mod 256) * 256 + x / 256 mod 256) * 65536 + (x / 65536 mod 256) * 256 + x / 16777216.

(** The bytes of a 32-bit word. *)
Lemma word_bytes a b c d :
  0 <= a < 256 -> 0 <= b < 256 -> 0 <= c < 256 -> 0 <= d < 256 ->
  let x := ((d * 256 + c) * 256 + b) * 256 + a in
  x mod 256 = a /\ x / 256 mod 256 = b /\ x / 65536 mod 256 = c /\ x / 16777216 = d.
Proof.
  intros Ha Hb Hc Hd x.
  assert (x / 256 = (d * 256 + c) * 256 + b) as E1 by (symmetry; apply (Z.div_unique_pos _ _ _ a); lia).
  assert (x / 65536 = d * 256 + c) as E2.
  { symmetry. apply (Z.div_unique_pos _ _ _ (b * 256 + a)); lia. }
  assert (x / 16777216 = d) as E3.
  { symmetry. apply (Z.div_unique_pos _ _ _ ((c * 256 + b) * 256 + a)); lia. }
  rewrite E1, E2, E3. repeat split; symmetry;
    [apply (Z.mod_unique_pos _ _ ((d * 256 + c) * 256 + b))|apply (Z.mod_unique_pos _ _ (d * 256 + c))
    |apply (Z.mod_unique_pos _ _ d)]; lia.
Qed.

Lemma word_split x : 0 <= x < 2 ^ 32 -> exists a b c d,
  0 <= a < 256 /\ 0 <= b < 256 /\ 0 <= c < 256 /\ 0 <= d < 256 /\
  x = ((d * 256 + c) * 256 + b) * 256 + a.
Proof.
  intros Hx. exists (x mod 256), (x / 256 mod 256), (x / 256 / 256 mod 256), (x / 256 / 256 / 256).
  assert (0 <= x / 256 / 256 / 256 < 256).
  { rewrite !Z.div_div by lia. split; [apply Z.div_pos; lia|apply Z.div_lt_upper_bound; lia]. }
  pose proof (Z.div_mod x 256). pose proof (Z.div_mod (x / 256) 256).
  pose proof (Z.div_mod (x / 256 / 256) 256).
  repeat split; try apply Z.mod_pos_bound; lia.
Qed.

Lemma swap16_range x : 0 <= x < 2 ^ 16 -> 0 <= swap16 x < 2 ^ 16.
Proof. unfold swap16. intros. Z.div_mod_to_equations. lia. Qed.

Lemma swap32_range x : 0 <= x < 2 ^ 32 -> 0 <= swap32 x < 2 ^ 32.
Proof. unfold swap32. intros. Z.div_mod_to_equations. lia. Qed.

Lemma swap32_bytes a b c d :
  0 <= a < 256 -> 0 <= b < 256 -> 0 <= c < 256 -> 0 <= d < 256 ->
  swap32 (((d * 256 + c) * 256 + b) * 256 + a) = ((a * 256 + b) * 256 + c) * 256 + d.
Proof.
  intros Ha Hb Hc Hd. unfold swap32. destruct (word_bytes a b c d Ha Hb Hc Hd) as (-> & -> & -> & ->). lia.
Qed.

Lemma swap16_bytes a b : 0 <= a < 256 -> 0 <= b < 256 -> swap16 (b * 256 + a) = a * 256 + b.
Proof. unfold swap16. intros. Z.div_mod_to_equations. lia. Qed.

Lemma swap16_twice x : 0 <= x < 2 ^ 16 -> swap16 (swap16 x) = x.
Proof. unfold swap16. intros. Z.div_mod_to_equations. lia. Qed.

Lemma swap32_twice x : 0 <= x < 2 ^ 32 -> swap32 (swap32 x) = x.
Proof.
  intros Hx. destruct (word_split x) as (a & b & c & d & Ha & Hb & Hc & Hd & ->); [done|].
  by rewrite !swap32_bytes.
Qed.

(** ** An instance, for the witnesses *)

(** Buffers that hold their headers; bytes are swapped arithmetically. *)
Record ex_frame := ExFrame { f_eth : rte_ether_hdr; f_ip : option rte_ipv4_hdr; f_l4 : option tcpudp_hdr;
  f_bytes : Z -> Z }.
#[export] Instance ex_frame_io : PacketIo ex_frame := {|
  nf_then_get_ether_header b := f_eth b;
  nf_then_get_ipv4_header _ b := f_ip b;
  nf_then_get_tcpudp_header _ b := f_l4 b;
  nf_set_ipv4_udptcp_checksum p := p;
  bytes_at_tcpudp b := f_bytes b;
  crc32si c v := u32 (c * 31 + v);
  bswap16 := swap16;
  bswap32 := swap32
|}.
#[export] Instance ex_frame_io_laws : PacketIoLaws ex_frame.
Proof.
  split; [|apply swap16_range|apply swap32_range|apply swap16_twice|apply swap32_twice].
  intros. apply wrap_range. lia.
Qed.
