(* ===== verification/Frame.v ===== *)
(** * Packet buffers as bytes

    Vigor's packet input and output (src/deps/vigor/libvig/verified/packet-io.c,
    src/deps/vigor/nf-util.h and nf-util.c), which the NFs' parsers are written
    with: a core walks over the received bytes by borrowing chunks, and gives
    all of them back before the packet is handled.  The headers are pointers
    to chunks, here offsets into the buffer, and are written in place.  The
    DPDK functions that compute checksums are parameters; a machine word is
    loaded and stored little-endian.

    The header records of NfCommon.v are a view of the bytes: [frame_io] is
    the instance of its interface, and the NFs' theorems about the records
    become statements about the bytes that leave ([wire]). *)

From S2P Require Import Prelude Ether NfCommon.
Open Scope Z_scope.

(** ** Memory *)

Abbreviation bytes := (Z -> Z) (only parsing).

Definition le16 (m : bytes) (o : Z) : Z := m (o + 1) * 256 + m o.
Definition le32 (m : bytes) (o : Z) : Z := ((m (o + 3) * 256 + m (o + 2)) * 256 + m (o + 1)) * 256 + m o.

Fixpoint put_bytes (o : Z) (l : list Z) (m : bytes) : bytes :=
  match l with
  | [] => m
  | x :: l => put_bytes (o + 1) l (<[o := u8 x]> m)
  end.
Definition put16 (o v : Z) : bytes -> bytes := put_bytes o [v; v / 256].
Definition put32 (o v : Z) : bytes -> bytes := put_bytes o [v; v / 256; v / 65536; v / 16777216].

(** ** Chunks (packet-io.c, nf-util.h) *)

(** The variables of a core; a pointer to a chunk is its offset from the
    start of the packet. *)
Record io := Io {
  global_total_length : Z;
  global_read_length : Z;
  chunks_borrowed : Z -> Z;
  chunks_borrowed_num : Z
}.

Definition set_read_length (n : Z) (s : io) : io :=
  Io (global_total_length s) n (chunks_borrowed s) (chunks_borrowed_num s).

(** [None]: an assertion fails. *)
Definition ioM (A : Type) : Type := io -> option (A * io).
#[export] Instance ioM_ret : MRet ioM := fun A x s => Some (x, s).
#[export] Instance ioM_bind : MBind ioM := fun A B f c s =>
  match c s with Some (x, s) => f x s | None => None end.

Definition packet_state_total_length (len : Z) (s : io) : io :=
  Io len (global_read_length s) (chunks_borrowed s) (chunks_borrowed_num s).

Definition packet_borrow_next_chunk (length : Z) (s : io) : Z * io :=
  let chunk := global_read_length s in (chunk, set_read_length (u64 (global_read_length s + length)) s).

Definition packet_return_chunk (chunk : Z) (s : io) : io := set_read_length (u32 chunk) s.

Definition packet_get_unread_length (s : io) : Z := u32 (global_total_length s - global_read_length s).

Definition MAX_N_CHUNKS : Z := 100.

Definition nf_borrow_next_chunk (length : Z) : ioM Z := fun s =>
  if chunks_borrowed_num s <? MAX_N_CHUNKS then
    let (chunk, s) := packet_borrow_next_chunk length s in
    Some (chunk, Io (global_total_length s) (global_read_length s)
                   (<[chunks_borrowed_num s := chunk]> (chunks_borrowed s)) (chunks_borrowed_num s + 1))
  else None.

(** while (num != 0) \{ return the last chunk; num--; \} *)
Fixpoint return_chunks (num : nat) (s : io) : io :=
  match num with
  | O => s
  | S num' =>
      let s := packet_return_chunk (chunks_borrowed s (chunks_borrowed_num s - 1)) s in
      return_chunks num' (Io (global_total_length s) (global_read_length s) (chunks_borrowed s)
                            (chunks_borrowed_num s - 1))
  end.
Definition nf_return_all_chunks (s : io) : io := return_chunks (Z.to_nat (chunks_borrowed_num s)) s.

(** ** Headers (nf-util.h, nf-util.c) *)

Definition ETHER_HDR_SIZE : Z := 14.
Definition IPV4_HDR_SIZE : Z := 20.
Definition TCPUDP_HDR_SIZE : Z := 4.
Definition RTE_ETHER_TYPE_IPV4 : Z := 2048.
Definition IP_MIN_SIZE_WORDS : Z := 5.
Definition WORD_SIZE : Z := 4.
Definition IPPROTO_TCP : Z := 6.
Definition IPPROTO_UDP : Z := 17.

Section headers.
Context (m : bytes).

(** The fields of the structures of DPDK. *)
Definition ether_type (header : Z) : Z := le16 m (header + 12).
Definition version_ihl (hdr : Z) : Z := m hdr.
Definition total_length (hdr : Z) : Z := le16 m (hdr + 2).
Definition proto_of (hdr : Z) : Z := m (hdr + 9).

Definition ether_at (o : Z) : rte_ether_hdr :=
  Ether (Mac (m o) (m (o + 1)) (m (o + 2)) (m (o + 3)) (m (o + 4)) (m (o + 5)))
    (Mac (m (o + 6)) (m (o + 7)) (m (o + 8)) (m (o + 9)) (m (o + 10)) (m (o + 11))).
Definition ipv4_at (o : Z) : rte_ipv4_hdr :=
  Ipv4 (m (o + 1)) (m (o + 8)) (proto_of o) (le32 m (o + 12)) (le32 m (o + 16)).
Definition tcpudp_at (o : Z) : tcpudp_hdr := TcpUdp (le16 m o) (le16 m (o + 2)).

Definition nf_has_ipv4_header (header : Z) : bool := ether_type header =? swap16 RTE_ETHER_TYPE_IPV4.
Definition nf_has_tcpudp_header (header : Z) : bool :=
  (proto_of header =? IPPROTO_TCP) || (proto_of header =? IPPROTO_UDP).

Definition nf_then_get_ether_header : ioM Z := nf_borrow_next_chunk ETHER_HDR_SIZE.

(** The header and the options; [None]: NULL. *)
Definition nf_then_get_ipv4_header (ether_header : Z) : ioM (option Z * option Z) := fun s =>
  let unread_len := u16 (packet_get_unread_length s) in
  if negb (nf_has_ipv4_header ether_header) || (unread_len <? IPV4_HDR_SIZE) then Some ((None, None), s)
  else
    (hdr ← nf_borrow_next_chunk IPV4_HDR_SIZE;
     let ihl := Z.land (version_ihl hdr) 15 in
     if (ihl <? IP_MIN_SIZE_WORDS) || (unread_len <? swap16 (total_length hdr)) then mret (None, None)
     else
       let ip_options_length := u16 ((ihl - IP_MIN_SIZE_WORDS) * WORD_SIZE) in
       if negb (ip_options_length =? 0) && (u64 (unread_len - IPV4_HDR_SIZE) >=? ip_options_length) then
         opts ← nf_borrow_next_chunk ip_options_length; mret (Some hdr, Some opts)
       else mret (Some hdr, None)) s.

Definition nf_then_get_tcpudp_header (ip_header : Z) : ioM (option Z) := fun s =>
  if negb (nf_has_tcpudp_header ip_header) || (packet_get_unread_length s <? TCPUDP_HDR_SIZE) then
    Some (None, s)
  else (hdr ← nf_borrow_next_chunk TCPUDP_HDR_SIZE; mret (Some hdr)) s.

(** What a parser leaves in the pointers of pkt_t: the Ethernet header, the
    IPv4 header and the transport header. *)
Definition parse_headers : ioM (Z * option Z * option Z) :=
  eth ← nf_then_get_ether_header;
  ip ← nf_then_get_ipv4_header eth;
  match ip.1 with
  | None => mret (eth, None, None)
  | Some hdr => l4 ← nf_then_get_tcpudp_header hdr; mret (eth, Some hdr, l4)
  end.
End headers.

(** process_pkt around the parser: the length is declared, and all chunks are
    returned before the packet is dispatched. *)
Definition parse_frame (m : bytes) (len : Z) (s : io) : option ((Z * option Z * option Z) * io) :=
  match parse_headers m (packet_state_total_length len s) with
  | Some (ptrs, s) => Some (ptrs, nf_return_all_chunks s)
  | None => None
  end.

(** ** What the parser accepts *)

Definition be16 (m : bytes) (o : Z) : Z := m o * 256 + m (o + 1).
Definition ihl (m : bytes) : Z := Z.land (m 14) 15.

(** Options that end behind the frame are not skipped. *)
Definition options_length (m : bytes) (len : Z) : Z :=
  if 14 + 4 * ihl m <=? len then 4 * (ihl m - 5) else 0.
Definition l4_offset (m : bytes) (len : Z) : Z := 34 + options_length m len.

(** An IPv4 header: the type, the room for it, its two lengths. *)
Definition has_ipv4 (m : bytes) (len : Z) : bool :=
  (be16 m 12 =? 2048) && (34 <=? len) && (5 <=? ihl m) && (14 + be16 m 16 <=? len).
Definition has_tcpudp (m : bytes) (len : Z) : bool :=
  ((m 23 =? 6) || (m 23 =? 17)) && (l4_offset m len + 4 <=? len).

Definition headers_of (m : bytes) (len : Z) : Z * option Z * option Z :=
  if has_ipv4 m len then (0, Some 14, if has_tcpudp m len then Some (l4_offset m len) else None)
  else (0, None, None).

(** Between packets no chunk is borrowed. *)
Definition all_returned (s : io) : Prop := global_read_length s = 0 /\ chunks_borrowed_num s = 0.

(** The first chunk that was borrowed starts at the packet. *)
Definition walking (s : io) : Prop :=
  0 <= chunks_borrowed_num s /\
  (if decide (chunks_borrowed_num s = 0) then global_read_length s = 0 else chunks_borrowed s 0 = 0).

Lemma return_chunks_all n : forall s,
  walking s -> chunks_borrowed_num s = Z.of_nat n -> all_returned (return_chunks n s).
Proof.
  induction n as [|n IH]; intros s [H0 Hw] Hn; cbn [return_chunks].
  - rewrite Hn in Hw. by split.
  - apply IH; [|cbn; lia]. split; [cbn; lia|]. cbn. rewrite decide_False in Hw by lia.
    case_decide as E; [|done]. rewrite E, Hw. done.
Qed.

Lemma nf_return_all_chunks_spec s : walking s -> all_returned (nf_return_all_chunks s).
Proof. intros Hw. apply return_chunks_all; [done|]. destruct Hw. lia. Qed.

Lemma return_chunks_total n : forall s, global_total_length (return_chunks n s) = global_total_length s.
Proof. induction n as [|n IH]; intros s; cbn [return_chunks]; [done|]. by rewrite IH. Qed.

Lemma nf_borrow_next_chunk_run n tot read c num :
  0 <= read -> 0 <= n -> read + n < 2 ^ 64 -> 0 <= num < MAX_N_CHUNKS ->
  nf_borrow_next_chunk n (Io tot read c num) = Some (read, Io tot (read + n) (<[num := read]> c) (num + 1)).
Proof.
  intros. unfold nf_borrow_next_chunk. cbn. rewrite (proj2 (Z.ltb_lt _ _)) by lia. by rewrite u64_id by lia.
Qed.

Section parse.
Context (m : bytes) (Hm : forall i, 0 <= m i < 256).

Lemma le16_swap o : swap16 (le16 m o) = be16 m o.
Proof. apply swap16_bytes; apply Hm. Qed.

Lemma le16_range o : 0 <= le16 m o < 2 ^ 16.
Proof. unfold le16. pose proof (Hm o). pose proof (Hm (o + 1)). lia. Qed.

Lemma ihl_range : 0 <= ihl m < 16.
Proof. unfold ihl. change 15 with (2 ^ 4 - 1). rewrite land_mask by lia. by apply Z.mod_pos_bound. Qed.

Lemma has_ipv4_type : nf_has_ipv4_header m 0 = (be16 m 12 =? 2048).
Proof.
  unfold nf_has_ipv4_header, ether_type. rewrite Z.add_0_l, <- (le16_swap 12).
  pose proof (le16_range 12) as Hr. apply eq_true_iff_eq. rewrite !Z.eqb_eq. split.
  - by intros ->.
  - intros E. rewrite <- (swap16_twice _ Hr), E. done.
Qed.

Lemma ltb_shift a b c : (a - c <? b) = (a <? b + c).
Proof. apply eq_true_iff_eq. rewrite !Z.ltb_lt. lia. Qed.

Lemma leb_negb a b : (a <=? b) = negb (b <? a).
Proof. apply Z.leb_antisym. Qed.

(** A state after some chunks, the first of them at the packet. *)
Lemma walking_next tot read c num n :
  0 < num -> c 0 = 0 -> walking (Io tot n (<[num := read]> c) (num + 1)).
Proof. intros Hn Hc. split; cbn; [lia|]. rewrite decide_False by lia. by fsolve. Qed.

(** Whether the frame leaves room for the options. *)
Lemma options_room len :
  34 <= len < 2 ^ 16 -> 5 <= ihl m ->
  (if negb (u16 ((ihl m - 5) * 4) =? 0) && (u64 (len - 14 - 20) >=? u16 ((ihl m - 5) * 4)) then
     u16 ((ihl m - 5) * 4) = options_length m len /\ 0 < options_length m len
   else options_length m len = 0) /\
  34 + options_length m len <= len.
Proof.
  intros Hlen Hi5. pose proof ihl_range as Hi. rewrite u16_id, u64_id by lia. unfold options_length.
  rewrite Z.geb_leb. split; [|destruct (Z.leb_spec (14 + 4 * ihl m) len); lia].
  destruct (Z.eqb_spec ((ihl m - 5) * 4) 0); cbn [negb andb];
    [destruct (Z.leb_spec (14 + 4 * ihl m) len); lia|].
  destruct (Z.leb_spec ((ihl m - 5) * 4) (len - 14 - 20)), (Z.leb_spec (14 + 4 * ihl m) len); lia.
Qed.

(** After the Ethernet header: the IPv4 header and the options. *)
Lemma get_ipv4_run len c :
  14 <= len < 2 ^ 16 -> c 0 = 0 ->
  exists opts s, nf_then_get_ipv4_header m 0 (Io len 14 c 1) =
      Some ((if has_ipv4 m len then Some 14 else None, opts), s) /\ walking s /\
    (has_ipv4 m len = true -> exists c' num, s = Io len (l4_offset m len) c' num /\ c' 0 = 0 /\ 0 < num < 10).
Proof.
  intros Hlen Hc. unfold nf_then_get_ipv4_header, packet_get_unread_length. rewrite has_ipv4_type.
  cbn [global_total_length global_read_length]. rewrite u32_id, u16_id by (rewrite ?u32_id by lia; lia).
  unfold has_ipv4, IPV4_HDR_SIZE, IP_MIN_SIZE_WORDS, WORD_SIZE.
  assert (walking (Io len 14 c 1)) as Hw by (by split).
  rewrite ltb_shift, (leb_negb 34). change (20 + 14) with 34. destruct (be16 m 12 =? 2048); cbn [negb orb andb]; [|by exists None, (Io len 14 c 1)].
  destruct (Z.ltb_spec len 34) as [|Hl]; cbn [negb andb]; [by exists None, (Io len 14 c 1)|].
  unfold mbind, ioM_bind. rewrite nf_borrow_next_chunk_run by (unfold MAX_N_CHUNKS; lia).
  cbv beta iota. unfold version_ihl, total_length. fold (ihl m). rewrite (le16_swap (14 + 2)), ltb_shift, (Z.add_comm _ 14).
  rewrite (leb_negb 5), (leb_negb (14 + be16 m 16)), <- negb_orb. change (14 + 2) with 16.
  destruct ((ihl m <? 5) || _) eqn:Eb; cbn [negb].
  { do 2 eexists. split; [reflexivity|]. split; [apply walking_next; [lia|done]|done]. }
  apply orb_false_iff in Eb as [Hi5%Z.ltb_ge _].
  destruct (options_room len ltac:(lia) Hi5) as [Ho Hfit]. unfold l4_offset.
  destruct (negb _ && _); unfold mbind, ioM_bind.
  - destruct Ho as [-> Hpos]. rewrite nf_borrow_next_chunk_run by (unfold MAX_N_CHUNKS; lia).
    do 2 eexists. split; [reflexivity|]. split; [apply walking_next; [lia|by fsolve]|].
    intros _. do 2 eexists. split; [reflexivity|]. split; [by fsolve|lia].
  - rewrite Ho. do 2 eexists. split; [reflexivity|]. split; [apply walking_next; [lia|done]|].
    intros _. do 2 eexists. split; [reflexivity|]. split; [by fsolve|lia].
Qed.

Lemma l4_offset_range len : has_ipv4 m len = true -> 34 <= l4_offset m len <= len.
Proof.
  unfold has_ipv4. rewrite !andb_true_iff, !Z.leb_le. intros [[[_ Hl] Hi] _]. unfold l4_offset, options_length.
  destruct (Z.leb_spec (14 + 4 * ihl m) len); lia.
Qed.

(** A walk from the start finds the headers where they are. *)
Lemma parse_headers_run len c :
  14 <= len < 2 ^ 16 ->
  exists s, parse_headers m (Io len 0 c 0) = Some (headers_of m len, s) /\ walking s.
Proof.
  intros Hlen. unfold parse_headers, nf_then_get_ether_header, mbind, ioM_bind.
  rewrite nf_borrow_next_chunk_run by (unfold ETHER_HDR_SIZE, MAX_N_CHUNKS; lia). cbv beta iota.
  destruct (get_ipv4_run len (<[0 := 0]> c) Hlen) as (opts & s & E & Hw & Hs); [by fsolve|].
  unfold ETHER_HDR_SIZE. rewrite !Z.add_0_l, E. unfold headers_of. cbn [fst].
  destruct (has_ipv4 m len) eqn:Eip; [|by exists s].
  destruct (Hs eq_refl) as (c' & num & -> & Hc' & Hnum). pose proof (l4_offset_range len Eip) as Hl4.
  unfold nf_then_get_tcpudp_header, packet_get_unread_length, nf_has_tcpudp_header, has_tcpudp.
  cbn [global_total_length global_read_length]. rewrite u32_id by lia.
  unfold proto_of, IPPROTO_TCP, IPPROTO_UDP, TCPUDP_HDR_SIZE. change (14 + 9) with 23.
  rewrite ltb_shift, (leb_negb (l4_offset m len + 4)), (Z.add_comm _ 4).
  destruct ((m 23 =? 6) || (m 23 =? 17)); cbn [negb orb andb]; [|by eexists].
  destruct (Z.ltb_spec len (4 + l4_offset m len)); cbn [negb]; [by eexists|].
  unfold mbind, ioM_bind. rewrite nf_borrow_next_chunk_run by (unfold MAX_N_CHUNKS; lia).
  eexists. split; [reflexivity|]. apply walking_next; [lia|done].
Qed.

Lemma parse_frame_run len s :
  14 <= len < 2 ^ 16 -> all_returned s ->
  exists s', parse_frame m len s = Some (headers_of m len, s') /\ all_returned s'.
Proof.
  intros Hlen [Hr Hn]. unfold parse_frame, packet_state_total_length. rewrite Hr, Hn.
  destruct (parse_headers_run len (chunks_borrowed s) Hlen) as (s' & -> & Hw).
  exists (nf_return_all_chunks s'). split; [done|]. by apply nf_return_all_chunks_spec.
Qed.
End parse.

(** ** Frames as the buffers of the NFs *)

(** DPDK's checksums, of a memory and pointers to the headers. *)
Class Checksums := {
  rte_ipv4_cksum : bytes -> Z -> Z;
  rte_ipv4_udptcp_cksum : bytes -> Z -> Z -> Z
}.

(** The bytes a core received, and how many. *)
Record frame_t := Frame { fr_bytes : bytes; fr_len : Z }.

(** What the parser finds, with no chunk borrowed before. *)
Definition pointers (b : frame_t) : Z * option Z * option Z :=
  match parse_frame (fr_bytes b) (fr_len b) (Io 0 0 (fun _ => 0) 0) with
  | Some (ptrs, _) => ptrs
  | None => (0, None, None)
  end.

(** The headers written to their places in the buffer. *)
Definition put_ether (o : Z) (h : rte_ether_hdr) : bytes -> bytes :=
  put_bytes o (addr_bytes (eth_d_addr h) ++ addr_bytes (eth_s_addr h)).
Definition put_ipv4 (o : Z) (h : rte_ipv4_hdr) (m : bytes) : bytes :=
  put32 (o + 16) (dst_addr h) (put32 (o + 12) (src_addr h)
    (put_bytes (o + 9) [next_proto_id h] (put_bytes (o + 8) [time_to_live h]
       (put_bytes (o + 1) [type_of_service h] m)))).
Definition put_tcpudp (o : Z) (h : tcpudp_hdr) (m : bytes) : bytes :=
  put16 (o + 2) (dst_port h) (put16 o (src_port h) m).

Definition put_at {H} (put : Z -> H -> bytes -> bytes) (o : option Z) (h : option H) (m : bytes) : bytes :=
  match o, h with Some o, Some h => put o h m | _, _ => m end.

(** The NFs assign to the headers through pointers into the buffer; here the
    headers are values, and this is the buffer with their assignments done. *)
Definition wire (p : pkt_t frame_t) : bytes :=
  let '(eth, ip, l4) := pointers (raw p) in
  put_at put_tcpudp l4 (tcpudp_header p)
    (put_at put_ipv4 ip (ipv4_header p) (put_ether eth (ether_header p) (fr_bytes (raw p)))).

(** nf_set_ipv4_udptcp_checksum: [hdr_checksum] is at 10 in the IPv4 header,
    [cksum] at 16 in TCP's, [dgram_cksum] at 6 in UDP's. *)
Definition set_checksums `{Checksums} (ip_header l4_header : Z) (m : bytes) : bytes :=
  let m := put16 (ip_header + 10) 0 m in
  let m :=
    if proto_of m ip_header =? IPPROTO_TCP then
      let m := put16 (l4_header + 16) 0 m in
      put16 (l4_header + 16) (rte_ipv4_udptcp_cksum m ip_header l4_header) m
    else if proto_of m ip_header =? IPPROTO_UDP then
      let m := put16 (l4_header + 6) 0 m in
      put16 (l4_header + 6) (rte_ipv4_udptcp_cksum m ip_header l4_header) m
    else m in
  put16 (ip_header + 10) (rte_ipv4_cksum m ip_header) m.

Definition set_raw (b : frame_t) (p : pkt_t frame_t) : pkt_t frame_t :=
  Pkt (len p) (ether_header p) (ipv4_header p) (tcpudp_header p) (payload p) b.

Definition nf_set_ipv4_udptcp_checksum `{Checksums} (p : pkt_t frame_t) : pkt_t frame_t :=
  match pointers (raw p) with
  | (_, Some ip, Some l4) => set_raw (Frame (set_checksums ip l4 (wire p)) (fr_len (raw p))) p
  | _ => p
  end.

(** The crc32 instruction on a 32-bit operand: division by the reflected
    polynomial of CRC-32C. *)
Definition crc32c_bit (crc : Z) : Z :=
  if Z.testbit crc 0 then Z.lxor (Z.shiftr crc 1) 0x82F63B78 else Z.shiftr crc 1.
Definition crc32c (crc v : Z) : Z := Nat.iter 32 crc32c_bit (Z.lxor (u32 crc) (u32 v)).

#[export] Instance frame_io `{Checksums} : PacketIo frame_t := {|
  NfCommon.nf_then_get_ether_header b := ether_at (fr_bytes b) (pointers b).1.1;
  NfCommon.nf_then_get_ipv4_header _ b := option_map (ipv4_at (fr_bytes b)) (pointers b).1.2;
  NfCommon.nf_then_get_tcpudp_header _ b := option_map (tcpudp_at (fr_bytes b)) (pointers b).2;
  NfCommon.nf_set_ipv4_udptcp_checksum := nf_set_ipv4_udptcp_checksum;
  bytes_at_tcpudp b i := fr_bytes b (default 0 (pointers b).2 + i);
  crc32si := crc32c;
  bswap16 := swap16;
  bswap32 := swap32
|}.

Definition frame_ok (b : frame_t) : Prop :=
  (forall i, 0 <= fr_bytes b i < 256) /\ 14 <= fr_len b < 2 ^ 16.

Lemma pointers_eq b : frame_ok b -> pointers b = headers_of (fr_bytes b) (fr_len b).
Proof.
  intros [Hm Hlen]. unfold pointers.
  by destruct (parse_frame_run (fr_bytes b) Hm (fr_len b) (Io 0 0 (fun _ => 0) 0) Hlen) as (s' & -> & _).
Qed.

(** The standard's value for four zero bytes. *)
Lemma crc32c_zero : Z.lxor (crc32c 0xFFFFFFFF 0) 0xFFFFFFFF = 0x48674BC7.
Proof. by vm_compute. Qed.

Lemma lxor_range a b n : 0 <= n -> 0 <= a < 2 ^ n -> 0 <= b < 2 ^ n -> 0 <= Z.lxor a b < 2 ^ n.
Proof.
  intros Hn Ha Hb. assert (Z.lxor a b = Z.lxor a b mod 2 ^ n) as ->; [|apply Z.mod_pos_bound; lia].
  apply Z.bits_inj'. intros k Hk. destruct (Z.ltb_spec k n).
  - by rewrite Z.mod_pow2_bits_low by lia.
  - rewrite Z.mod_pow2_bits_high, Z.lxor_spec by lia.
    rewrite <- (Z.mod_small a (2 ^ n)), <- (Z.mod_small b (2 ^ n)) by done.
    by rewrite !Z.mod_pow2_bits_high by lia.
Qed.

Lemma crc32c_bit_range c : 0 <= c < 2 ^ 32 -> 0 <= crc32c_bit c < 2 ^ 32.
Proof.
  intros Hc. unfold crc32c_bit.
  assert (0 <= Z.shiftr c 1 < 2 ^ 32) as Hs.
  { rewrite Z.shiftr_div_pow2 by lia. change (2 ^ 1) with 2. split; [apply Z.div_pos; lia|].
    apply Z.div_lt_upper_bound; lia. }
  destruct (Z.testbit c 0); [|done]. apply lxor_range; [lia|done|lia].
Qed.

Lemma crc32c_range c v : 0 <= crc32c c v < 2 ^ 32.
Proof.
  unfold crc32c. apply (Nat.iter_invariant 32 Z crc32c_bit (fun c => 0 <= c < 2 ^ 32)).
  - apply crc32c_bit_range.
  - apply lxor_range; [lia|apply wrap_range; lia..].
Qed.

#[export] Instance frame_io_laws `{Checksums} : PacketIoLaws frame_t.
Proof.
  split; [apply crc32c_range|apply swap16_range|apply swap32_range|apply swap16_twice|apply swap32_twice].
Qed.

(** ** Writing the headers back *)

(** Memories are equal when they hold the same bytes. *)
Abbreviation same := (pointwise_relation Z (@eq Z)).

#[export] Instance put_bytes_proper o l : Proper (same ==> same) (put_bytes o l).
Proof.
  revert o. induction l as [|x l IH]; intros o m m' Hm; [done|]. cbn. apply IH. intros j.
  rewrite !fn_insert_dec. by case_decide.
Qed.
#[export] Instance put16_proper o v : Proper (same ==> same) (put16 o v).
Proof. apply put_bytes_proper. Qed.
#[export] Instance put32_proper o v : Proper (same ==> same) (put32 o v).
Proof. apply put_bytes_proper. Qed.
#[export] Instance put_ether_proper o h : Proper (same ==> same) (put_ether o h).
Proof. apply put_bytes_proper. Qed.
#[export] Instance put_ipv4_proper o h : Proper (same ==> same) (put_ipv4 o h).
Proof. intros m m' E. unfold put_ipv4. by rewrite E. Qed.
#[export] Instance put_tcpudp_proper o h : Proper (same ==> same) (put_tcpudp o h).
Proof. intros m m' E. unfold put_tcpudp. by rewrite E. Qed.

Lemma put_bytes_out l : forall o m j, j < o \/ o + Z.of_nat (length l) <= j -> put_bytes o l m j = m j.
Proof.
  induction l as [|x l IH]; intros o m j Hj; [done|]. cbn [put_bytes length] in *.
  rewrite IH by lia. by fsolve.
Qed.

Lemma put_bytes_in l : forall o m i,
  (i < length l)%nat -> put_bytes o l m (o + Z.of_nat i) = u8 (nth i l 0).
Proof.
  induction l as [|x l IH]; intros o m i Hi; cbn [put_bytes length nth] in *; [lia|].
  destruct i as [|i].
  - rewrite Z.add_0_r, put_bytes_out by lia. by fsolve.
  - replace (o + Z.of_nat (S i)) with (o + 1 + Z.of_nat i) by lia. apply IH. lia.
Qed.

(** Writing what is there already. *)
Lemma put_bytes_same l o m :
  (forall i, (i < length l)%nat -> u8 (nth i l 0) = m (o + Z.of_nat i)) -> same (put_bytes o l m) m.
Proof.
  intros Hl j. destruct (decide (o <= j < o + Z.of_nat (length l))).
  - replace j with (o + Z.of_nat (Z.to_nat (j - o))) by lia. rewrite put_bytes_in by lia. apply Hl. lia.
  - apply put_bytes_out. lia.
Qed.

(** What has been written is read back. *)
Lemma le16_put16 o v m : 0 <= v < 2 ^ 16 -> le16 (put16 o v m) o = v.
Proof.
  intros Hv. unfold le16, put16. cbn. fsolve. unfold u8, wrap. Z.div_mod_to_equations. lia.
Qed.

Lemma le32_put32 o v m : 0 <= v < 2 ^ 32 -> le32 (put32 o v m) o = v.
Proof.
  intros Hv. destruct (word_split v) as (a & b & c & d & Ha & Hb & Hc & Hd & ->); [done|].
  unfold le32, put32. cbn. fsolve. unfold u8, wrap. change (2 ^ 8) with 256.
  destruct (word_bytes a b c d Ha Hb Hc Hd) as (-> & -> & -> & ->). rewrite Z.mod_small by lia. lia.
Qed.

(** Several writes, the last first in effect. *)
Fixpoint patch (ws : list (Z * list Z)) (m : bytes) : bytes :=
  match ws with
  | [] => m
  | (o, l) :: ws => patch ws (put_bytes o l m)
  end.
Definition covered (ws : list (Z * list Z)) (j : Z) : Prop :=
  Exists (fun w => w.1 <= j < w.1 + Z.of_nat (length w.2)) ws.

Lemma patch_out ws : forall m j, ~ covered ws j -> patch ws m j = m j.
Proof.
  induction ws as [|[o l] ws IH]; intros m j Hc; [done|]. unfold covered in Hc. rewrite Exists_cons in Hc.
  cbn in *. rewrite IH by (intros H; apply Hc; by right). apply put_bytes_out.
  destruct (decide (o <= j < o + Z.of_nat (length l))); [|lia]. exfalso. apply Hc. by left.
Qed.

Lemma patch_covered ws : forall m m' j, covered ws j \/ m j = m' j -> patch ws m j = patch ws m' j.
Proof.
  induction ws as [|[o l] ws IH]; intros m m' j Hj; cbn.
  { destruct Hj as [Hj|?]; [by apply Exists_nil in Hj|done]. }
  apply IH. unfold covered in Hj. rewrite Exists_cons in Hj. cbn in Hj.
  destruct (decide (o <= j < o + Z.of_nat (length l))) as [Hin|Hout].
  - right. replace j with (o + Z.of_nat (Z.to_nat (j - o))) by lia. by rewrite !put_bytes_in by lia.
  - destruct Hj as [[?|Hc]|E]; [lia|by left|right]. by rewrite !put_bytes_out by lia.
Qed.

(** Writes whose effect is there already. *)
Lemma patch_idem ws m m' : (forall j, covered ws j -> m' j = patch ws m j) -> same (patch ws m') m'.
Proof.
  intros Hm j. destruct (decide (covered ws j)) as [Hc|Hc]; [|by apply patch_out].
  rewrite (Hm j Hc). apply patch_covered. by left.
Qed.

Definition bytes16 (v : Z) : list Z := [v; v / 256].
Definition bytes32 (v : Z) : list Z := [v; v / 256; v / 65536; v / 16777216].

(** The writes of the IPv4 and the transport header. *)
Definition header_writes (l4 : Z) (i : rte_ipv4_hdr) (h : tcpudp_hdr) : list (Z * list Z) :=
  [(15, [type_of_service i]); (22, [time_to_live i]); (23, [next_proto_id i]);
   (26, bytes32 (src_addr i)); (30, bytes32 (dst_addr i)); (l4, bytes16 (src_port h)); (l4 + 2, bytes16 (dst_port h))].

Lemma put_headers_patch l4 i h m : put_tcpudp l4 h (put_ipv4 14 i m) = patch (header_writes l4 i h) m.
Proof. done. Qed.

Lemma header_writes_covered l4 i h j :
  covered (header_writes l4 i h) j <-> j = 15 \/ j = 22 \/ j = 23 \/ 26 <= j < 34 \/ l4 <= j < l4 + 4.
Proof. unfold covered, header_writes. rewrite !Exists_cons, Exists_nil. cbn. lia. Qed.

Section parsed.
Context (m : bytes) (Hm : forall i, 0 <= m i < 256).

Lemma u8_id x : 0 <= x < 256 -> u8 x = x.
Proof. intros. by apply wrap_id. Qed.

Lemma put16_same o m' : (forall j, o <= j < o + 2 -> m' j = m j) -> same (put16 o (le16 m o) m') m'.
Proof.
  intros E. apply put_bytes_same. unfold le16. pose proof (Hm o). pose proof (Hm (o + 1)).
  intros i Hi. rewrite E by (cbn in Hi; lia). destruct i as [|[|i]]; [| |cbn in Hi; lia]; cbn [nth].
  - rewrite Z.add_0_r. unfold u8, wrap. Z.div_mod_to_equations. lia.
  - change (o + Z.of_nat 1) with (o + 1). unfold u8, wrap. Z.div_mod_to_equations. lia.
Qed.

Lemma put32_same o m' : (forall j, o <= j < o + 4 -> m' j = m j) -> same (put32 o (le32 m o) m') m'.
Proof.
  intros E. apply put_bytes_same. unfold le32.
  destruct (word_bytes (m o) (m (o + 1)) (m (o + 2)) (m (o + 3))) as (E0 & E1 & E2 & E3); [apply Hm..|].
  intros i Hi. rewrite E by (cbn in Hi; lia). unfold u8, wrap. change (2 ^ 8) with 256.
  destruct i as [|[|[|[|i]]]]; [..|cbn in Hi; lia]; cbn [nth].
  - by rewrite Z.add_0_r.
  - done.
  - done.
  - rewrite E3. by rewrite Z.mod_small by apply Hm.
Qed.

Lemma put_byte_same o m' : m' o = m o -> same (put_bytes o [m o] m') m'.
Proof.
  intros E. apply put_bytes_same. intros [|i] Hi; cbn in Hi |- *; [|lia].
  rewrite Z.add_0_r, E. by apply u8_id.
Qed.

(** Fields written over equal ones. *)
Lemma put16_keep o M : same M m -> same (put16 o (le16 m o) M) m.
Proof. intros E. rewrite put16_same; [done|]. intros. apply E. Qed.
Lemma put32_keep o M : same M m -> same (put32 o (le32 m o) M) m.
Proof. intros E. rewrite put32_same; [done|]. intros. apply E. Qed.
Lemma put_byte_keep o M : same M m -> same (put_bytes o [m o] M) m.
Proof. intros E. rewrite put_byte_same; [done|]. apply E. Qed.

Lemma put_ether_same : same (put_ether 0 (ether_at m 0) m) m.
Proof.
  apply put_bytes_same. intros i Hi. cbn in Hi.
  do 12 (destruct i as [|i]; [by apply u8_id|]). lia.
Qed.
End parsed.

(** ** The parser over frames *)

(** The packet as the parser leaves it: a view of the headers it found. *)
Definition view_of (with_payload : bool) (b : frame_t) (pkt : pkt_t frame_t)
    (ptrs : Z * option Z * option Z) : bool * pkt_t frame_t :=
  let m := fr_bytes b in
  match ptrs with
  | (eth, Some ip, Some l4) =>
      (true, Pkt (len pkt) (ether_at m eth) (Some (ipv4_at m ip)) (Some (tcpudp_at m l4))
               (if with_payload then Some (fun i => m (l4 + i)) else None) b)
  | (eth, Some ip, None) => (false, Pkt (len pkt) (ether_at m eth) (Some (ipv4_at m ip)) None (payload pkt) (raw pkt))
  | (eth, None, _) => (false, Pkt (len pkt) (ether_at m eth) None (tcpudp_header pkt) (payload pkt) (raw pkt))
  end.

Lemma nf_pkt_parser_view `{Checksums} wp b pkt :
  frame_ok b -> nf_pkt_parser wp b pkt = view_of wp b pkt (headers_of (fr_bytes b) (fr_len b)).
Proof.
  intros Hb. unfold nf_pkt_parser. cbn. rewrite !(pointers_eq b Hb). unfold headers_of.
  destruct (has_ipv4 _ _); [|done]. by destruct (has_tcpudp _ _).
Qed.

(** A packet that was parsed, and the frame it came from. *)
Definition parsed_from (b : frame_t) (p : pkt_t frame_t) : Prop :=
  has_ipv4 (fr_bytes b) (fr_len b) = true /\ has_tcpudp (fr_bytes b) (fr_len b) = true /\ raw p = b /\
  ether_header p = ether_at (fr_bytes b) 0 /\ ipv4_header p = Some (ipv4_at (fr_bytes b) 14) /\
  tcpudp_header p = Some (tcpudp_at (fr_bytes b) (l4_offset (fr_bytes b) (fr_len b))).

Lemma parsed_frame `{Checksums} wp b pkt p :
  frame_ok b -> nf_pkt_parser wp b pkt = (true, p) -> parsed_from b p.
Proof.
  intros Hb. rewrite (nf_pkt_parser_view wp b pkt Hb). unfold headers_of, parsed_from.
  destruct (has_ipv4 _ _); [|done]. destruct (has_tcpudp _ _); [|done]. by intros [= <-].
Qed.

(** The parser looks at the types, the version and the lengths only. *)
Lemma headers_of_ext m m' len :
  (forall j, 12 <= j < 15 \/ 16 <= j < 18 \/ j = 23 -> m j = m' j) -> headers_of m len = headers_of m' len.
Proof.
  intros E. unfold headers_of, has_ipv4, has_tcpudp, l4_offset, options_length, be16, ihl.
  by rewrite !(E 12), !(E (12 + 1)), !(E 14), !(E 16), !(E (16 + 1)), !(E 23) by lia.
Qed.

Lemma wire_eq b p l4 e i h :
  pointers b = (0, Some 14, Some l4) -> raw p = b -> ether_header p = e -> ipv4_header p = Some i ->
  tcpudp_header p = Some h -> wire p = patch (header_writes l4 i h) (put_ether 0 e (fr_bytes b)).
Proof. intros Hp <- <- Hi Hh. unfold wire. rewrite Hp, Hi, Hh. by rewrite <- put_headers_patch. Qed.

Section rewriting.
Context `{Checksums}.

(** The bytes the checksums are written to. *)
Definition checksum_byte (m : bytes) (l4 j : Z) : Prop :=
  24 <= j < 26 \/ (m 23 = 6 /\ l4 + 16 <= j < l4 + 18) \/ (m 23 = 17 /\ l4 + 6 <= j < l4 + 8).

Lemma put16_out o v m j : j < o \/ o + 2 <= j -> put16 o v m j = m j.
Proof. intros. by apply put_bytes_out. Qed.

Lemma set_checksums_out m l4 j : 34 <= l4 -> ~ checksum_byte m l4 j -> set_checksums 14 l4 m j = m j.
Proof.
  intros Hl Hj. unfold set_checksums, proto_of, checksum_byte, IPPROTO_TCP, IPPROTO_UDP in *. cbv zeta.
  change (14 + 9) with 23. change (14 + 10) with 24. rewrite !(put16_out 24 _ m 23) by lia.
  destruct (Z.eqb_spec (m 23) 6) as [E|E]; [by rewrite !put16_out by lia|].
  destruct (Z.eqb_spec (m 23) 17) as [E'|E']; by rewrite !put16_out by lia.
Qed.

(** Bytes stay bytes. *)
Definition all_bytes (m : bytes) : Prop := forall j, 0 <= m j < 256.

Lemma put_bytes_range l : forall o m, all_bytes m -> all_bytes (put_bytes o l m).
Proof.
  induction l as [|x l IH]; intros o m Hm; [done|]. cbn. apply IH. intros j.
  rewrite fn_insert_dec. case_decide; [|apply Hm]. by apply wrap_range.
Qed.

Lemma set_checksums_range l4 m : all_bytes m -> all_bytes (set_checksums 14 l4 m).
Proof.
  intros Hm. unfold set_checksums. cbv zeta. apply put_bytes_range.
  destruct (_ =? IPPROTO_TCP); [by do 3 apply put_bytes_range|].
  destruct (_ =? IPPROTO_UDP); [by do 3 apply put_bytes_range|by apply put_bytes_range].
Qed.

Lemma patch_range ws : forall m, all_bytes m -> all_bytes (patch ws m).
Proof. induction ws as [|[o l] ws IH]; intros m Hm; [done|]. by apply IH, put_bytes_range. Qed.

Lemma put_ether_out e m j : 12 <= j -> put_ether 0 e m j = m j.
Proof. intros Hj. apply put_bytes_out. cbn. lia. Qed.

(** The headers [i] and [h] are written, then the checksums, then another
    Ethernet header: the order in which they reach the buffer is the order in
    which they are assigned. *)
Lemma wire_checksummed b p e i h (m := fr_bytes b) (l4 := l4_offset m (fr_len b)) :
  frame_ok b -> has_ipv4 m (fr_len b) = true -> has_tcpudp m (fr_len b) = true ->
  raw p = b -> ipv4_header p = Some i -> tcpudp_header p = Some h -> next_proto_id i = m 23 ->
  wire p = patch (header_writes l4 i h) (put_ether 0 (ether_header p) m) /\
  same (wire (set_ether_header e (nf_set_ipv4_udptcp_checksum p)))
       (put_ether 0 e (set_checksums 14 l4 (wire p))).
Proof.
  intros Hb Hip Hl4 Hraw Hi Hh Hproto.
  pose proof Hb as [Hm Hlen]. change (all_bytes m) in Hm.
  pose proof (l4_offset_range m _ Hip) as Hr. fold l4 in Hr.
  assert (headers_of m (fr_len b) = (0, Some 14, Some l4)) as Hhs by (unfold headers_of; by rewrite Hip, Hl4).
  assert (pointers b = (0, Some 14, Some l4)) as Hp by (by rewrite pointers_eq by done).
  pose proof (wire_eq b p l4 _ i h Hp Hraw eq_refl Hi Hh) as Hw. fold m in Hw. split; [done|].
  set (W := wire p) in *. set (M := set_checksums 14 l4 W).
  assert (all_bytes W) as HW by (rewrite Hw; by apply patch_range, put_bytes_range).
  assert (forall j, 12 <= j < 15 \/ 16 <= j < 18 \/ j = 23 -> M j = m j) as HM.
  { intros j Hj. unfold M. rewrite set_checksums_out by (unfold checksum_byte; lia). rewrite Hw.
    destruct (decide (j = 23)) as [->|]; [|].
    - rewrite (patch_covered _ _ (fun _ => 0)) by (left; apply header_writes_covered; lia).
      cbn -[put_bytes]. repeat first [rewrite put_bytes_out by (cbn; lia)].
      cbn. rewrite fn_lookup_insert, Hproto. apply u8_id, Hm.
    - rewrite patch_out by (rewrite header_writes_covered; lia). apply put_ether_out. lia. }
  unfold nf_set_ipv4_udptcp_checksum. rewrite Hraw, Hp. fold W M.
  assert (pointers (Frame M (fr_len b)) = (0, Some 14, Some l4)) as Hp'.
  { rewrite pointers_eq by (split; [by apply set_checksums_range|done]). cbn.
    rewrite <- Hhs. by apply headers_of_ext. }
  erewrite (wire_eq (Frame M (fr_len b)) _ l4 e i h Hp') by done. cbn [fr_bytes].
  apply (patch_idem _ (put_ether 0 (ether_header p) m)). intros j Hj. rewrite <- Hw.
  apply header_writes_covered in Hj. rewrite put_ether_out by lia.
  apply set_checksums_out; [lia|]. unfold checksum_byte. lia.
Qed.

End rewriting.

(** ** Theorems *)

(** C37: for a frame of at least the length of an Ethernet header, the parser's
    walk over the chunks finds the IPv4 header exactly when type, room and
    lengths are right, and the transport header exactly when the protocol is
    TCP's or UDP's and the header lies in the frame, behind the options if
    those lie in the frame; it never runs out of chunks, and no chunk stays
    borrowed. *)
Theorem parse_frame_spec (m : Z -> Z) (len : Z) (s : io)
    (Hm : all_bytes m) (Hlen : 14 <= len < 2 ^ 16) (Hs : all_returned s) :
  exists eth ip l4 s', parse_frame m len s = Some ((eth, ip, l4), s') /\ all_returned s' /\ eth = 0 /\
    (ip = if has_ipv4 m len then Some 14 else None) /\
    (has_ipv4 m len = true <->
       be16 m 12 = 2048 /\ 34 <= len /\ 5 <= ihl m /\ 14 + be16 m 16 <= len) /\
    (forall o, l4 = Some o <->
       has_ipv4 m len = true /\ (m 23 = 6 \/ m 23 = 17) /\ o + 4 <= len /\
       o = if decide (14 + 4 * ihl m <= len) then 14 + 4 * ihl m else 34).
Proof.
  destruct (parse_frame_run m Hm len s Hlen Hs) as (s' & E & Hs').
  destruct (headers_of m len) as [[eth ip] l4] eqn:Eh. exists eth, ip, l4, s'. split; [done|]. split; [done|].
  assert (l4_offset m len = if decide (14 + 4 * ihl m <= len) then 14 + 4 * ihl m else 34) as El.
  { unfold l4_offset, options_length. destruct (Z.leb_spec (14 + 4 * ihl m) len); case_decide; lia. }
  unfold headers_of in Eh.
  split; [by destruct (has_ipv4 m len); simplify_eq|]. split; [by destruct (has_ipv4 m len); simplify_eq|].
  split; [unfold has_ipv4; rewrite !andb_true_iff, Z.eqb_eq, !Z.leb_le; tauto|].
  intros o. rewrite <- El. unfold has_tcpudp in Eh.
  destruct (has_ipv4 m len); [|simplify_eq; by split; [|intros []]].
  destruct ((m 23 =? 6) || (m 23 =? 17)) eqn:Ep.
  - apply orb_true_iff in Ep. rewrite !Z.eqb_eq in Ep. destruct (Z.leb_spec (l4_offset m len + 4) len); simplify_eq/=.
    + split; [by intros [= <-]|]. by intros (_ & _ & _ & ->).
    + split; [done|]. intros (_ & _ & Hl & ->). lia.
  - apply orb_false_iff in Ep as [Hn6%Z.eqb_neq Hn17%Z.eqb_neq]. simplify_eq/=. split; [done|]. by intros (_ & [] & _).
Qed.

(** ** Witnesses: a datagram from 10.0.0.1:8080 to 8.8.8.8:53 *)

Definition ex_ether : list Z := [2; 0; 0; 0; 0; 1; 2; 0; 0; 0; 0; 2; 8; 0].
Definition ex_ipv4 (ihl total proto : Z) : list Z :=
  [64 + ihl; 0; 0; total; 0; 0; 0; 0; 64; proto; 0; 0; 10; 0; 0; 1; 8; 8; 8; 8].
Definition ex_ports : list Z := [31; 144; 0; 53].
Definition of_list (l : list Z) : Z -> Z := fun i => nth (Z.to_nat i) l 0.
Definition ex_datagram : list Z := ex_ether ++ ex_ipv4 5 28 17 ++ ex_ports ++ [0; 8; 0; 0].

Lemma of_list_range l : Forall (fun x => 0 <= x < 256) l -> all_bytes (of_list l).
Proof.
  intros Hl j. unfold of_list. destruct (nth_in_or_default (Z.to_nat j) l 0) as [Hin| ->]; [|lia].
  rewrite Forall_forall in Hl. by apply Hl, list_elem_of_In.
Qed.

Lemma ex_datagram_bytes : all_bytes (of_list ex_datagram).
Proof. apply of_list_range. by repeat constructor. Qed.

(** The Internet checksum of the ten words of a header. *)
#[export] Instance ex_checksums : Checksums := {|
  rte_ipv4_cksum m o := 65535 - zsum (fun i => le16 m (o + 2 * i)) (seqZ 0 10) mod 65535;
  rte_ipv4_udptcp_cksum m o l4 := 65535 - zsum (fun i => le16 m (o + 12 + 2 * i)) (seqZ 0 6) mod 65535
|}.

Lemma parse_frame_spec_witness :
  exists eth ip l4 s',
    parse_frame (of_list ex_datagram) 42 (Io 60 0 (fun _ => 7) 0) = Some ((eth, ip, l4), s') /\
    all_returned s' /\ ip = Some 14 /\ l4 = Some 34.
Proof.
  destruct (parse_frame_spec (of_list ex_datagram) 42 (Io 60 0 (fun _ => 7) 0) ex_datagram_bytes ltac:(lia)
    (conj eq_refl eq_refl)) as (eth & ip & l4 & s' & E & Hs & _ & Hip & _ & Hl4).
  exists eth, ip, l4, s'. split; [exact E|]. split; [exact Hs|]. split.
  - rewrite Hip. reflexivity.
  - apply Hl4. repeat split; [by right|done].
Defined.

Definition ex_fresh : pkt_t frame_t := Pkt 42 (Ether no_mac no_mac) None None None (Frame (fun _ => 0) 0).

Lemma ex_frame_ok : frame_ok (Frame (of_list ex_datagram) 42).
Proof. split; [apply ex_datagram_bytes|cbn; lia]. Qed.

(** *** Where the code does not do what it means to *)

(** A frame shorter than an Ethernet header: the unread length wraps around,
    and the parser takes what lies behind the frame for its headers. *)
Lemma runt_frame_accepted :
  option_map fst (parse_frame (of_list ex_datagram) 10 (Io 0 0 (fun _ => 0) 0)) = Some (0, Some 14, Some 34).
Proof. by vm_compute. Qed.

(** An IPv4 header of 60 bytes in a frame of 38: the options are taken for
    the ports. *)
Lemma truncated_options_accepted :
  option_map fst (parse_frame (of_list (ex_ether ++ ex_ipv4 15 24 17 ++ ex_ports)) 38 (Io 0 0 (fun _ => 0) 0)) =
  Some (0, Some 14, Some 34).
Proof. by vm_compute. Qed.

(** A TCP segment that ends behind the ports is accepted; its checksum is
    written behind the frame. *)
Lemma short_segment_checksum :
  match nf_pkt_parser false (Frame (of_list (ex_ether ++ ex_ipv4 5 24 6 ++ ex_ports)) 38) ex_fresh with
  | (true, p) => fr_bytes (raw p) 50 = 0 /\ fr_bytes (raw (nf_set_ipv4_udptcp_checksum p)) 50 <> 0
  | _ => False
  end.
Proof. vm_compute. by split. Qed.
