(* ===== verification/Interfaces.v ===== *)
(** * What the data structures promise to network functions

    Handlers use several data structures in one critical section.  The
    classes of this file state what each kind promises to its clients, over
    the transaction [T] and the steps [steps] its operations take: a finite
    map, an allocator of indexes, a vector; [Frame] says that the steps of
    one structure leave another alone.  The instances discharge them for
    map.c, double-chain.c and vector.c. *)

From stdpp Require Import gmap.
From S2P Require Import Prelude Rlu Vector NfosMap Links Dchain.
Open Scope Z_scope.

Class Frame {T X} (steps : T -> T -> Prop) (rep : T -> X -> Prop) : Prop :=
  frame t t' x : steps t t' -> rep t x -> rep t' x.

(** The steps of one structure among those of a critical section. *)
Class SubRel {T} (steps R : T -> T -> Prop) : Prop := sub_rel t t' : steps t t' -> R t t'.

Lemma framed {T X} (steps : T -> T -> Prop) (rep : T -> X -> Prop) t t' x :
  steps t t' -> rep t x -> Frame steps rep -> rep t' x.
Proof. intros Hs Hr Hf. by eapply Hf. Qed.

(** Carry what is known of a structure along the step of another. *)
Ltac frame_step :=
  match goal with
  | Hs : mem_steps _ ?t ?t' |- _ => refine (framed _ _ t t' _ Hs _ _); eauto
  end.

(** [get], [put] and [erase] on a finite map of at most [capacity] keys. *)
Class MapSpec {T K} `{RluTxn T, Countable K} (steps : T -> T -> Prop) (rep : T -> gmap K Z -> Prop)
    (capacity : Z) (get : K -> M T (option Z)) (put : K -> Z -> M T bool) (erase : K -> M T bool)
    : Prop := {
  get_wp k m t (Q : option Z -> T -> Prop) : rep t m -> Q (m !! k) t -> wp steps (get k) t Q;
  put_wp k v m t (Q : bool -> T -> Prop) :
    rep t m -> m !! k = None ->
    (forall t', Z.of_nat (size m) < capacity -> rep t' (<[k := v]> m) -> Q true t') ->
    (capacity <= Z.of_nat (size m) -> Q false t) -> wp steps (put k v) t Q;
  erase_wp k m t (Q : bool -> T -> Prop) :
    rep t m -> (forall t', is_Some (m !! k) -> rep t' (delete k m) -> Q true t') ->
    (m !! k = None -> Q false t) -> wp steps (erase k) t Q
}.

(** Allocation from the indexes below [range]. *)
Class AllocatorSpec {T} `{RluTxn T} (steps : T -> T -> Prop) (rep : T -> gset Z -> Prop) (range : Z)
    (allocate : M T (option Z)) (free : Z -> M T bool) : Prop := {
  allocated_range t A i : rep t A -> i ∈ A -> 0 <= i < range;
  allocate_wp A t (Q : option Z -> T -> Prop) :
    rep t A ->
    (forall i t', 0 <= i < range -> i ∉ A -> rep t' ({[i]} ∪ A) -> Q (Some i) t') ->
    (forall t', (forall i, 0 <= i < range -> i ∈ A) -> rep t' A -> Q None t') ->
    wp steps allocate t Q;
  free_wp i A t (Q : bool -> T -> Prop) :
    rep t A -> i ∈ A -> (forall t', rep t' (A ∖ {[i]}) -> Q true t') -> wp steps (free i) t Q
}.

(** A vector of elements that can be locked and written. *)
Definition vec_rep {T O} (m : RluMem T O) (t : T) (f : Z -> O) : Prop := forall i, view m t i = f i.

Section wp_on.
Context {T : Type} `{RluTxn T} (steps R : T -> T -> Prop) `{!SubRel steps R, !TxnRel R}.

(** A step of one structure, for the others to be framed along. *)
Lemma wp_on {A} (c : M T A) t (Q : A -> T -> Prop) :
  wp steps c t (fun a t' => steps t t' -> Q a t') -> wp R c t Q.
Proof.
  intros Hc. eapply wp_rel; [exact sub_rel|]. eapply wp_mono; [|exact Hc]. auto.
Qed.
End wp_on.

(** ** Vectors *)

Section vector.
Context {T O : Type} `{RluTxn T} (v : NfosVector T O) `{!RluLaws (elems v)}.

Lemma borrow_wp i f t (Q : O -> T -> Prop) :
  vec_rep (elems v) t f -> Q (f i) t -> wp (mem_steps (elems v)) (nfos_vector_borrow_t v i) t Q.
Proof.
  intros Hf HQ. apply (wp_borrow v _ i t f []); [|done]. split; [done|]. by intros l ?%not_elem_of_nil.
Qed.

(** A mutable borrow followed by a write through the pointer. *)
Lemma borrow_mut_wp i f t (Q : Z -> T -> Prop) :
  vec_rep (elems v) t f ->
  (forall t', locked (elems v) t' i -> vec_rep (elems v) t' f -> Q i t') ->
  wp (mem_steps (elems v)) (nfos_vector_borrow_mut_t v i) t Q.
Proof.
  intros Hf HQ. apply (wp_borrow_mut v _ i t f []).
  - split; [done|]. by intros l ?%not_elem_of_nil.
  - intros t' [Hv Hl]. apply HQ; [apply Hl; left|done].
Qed.

Lemma modify_wp i g f t (Q : unit -> T -> Prop) :
  vec_rep (elems v) t f -> locked (elems v) t i ->
  (forall t', vec_rep (elems v) t' (<[i := g (f i)]> f) -> Q tt t') ->
  wp (mem_steps (elems v)) (modify (elems v) i g) t Q.
Proof.
  intros Hf Hl HQ. eapply (wp_modify (elems v) _ i g t f [i]); [|left|].
  - split; [done|]. by intros l ->%list_elem_of_singleton.
  - intros t' [Hv _]. by apply HQ.
Qed.
End vector.

(** ** map.c *)

#[export] Instance nfos_map_spec {T K} `{RluTxn T, Countable K} (map : NfosMap T K)
    `{!RluLaws (map_entries map), !MapConfig map} :
  MapSpec (mem_steps (map_entries map)) (map_rep map) (map_capacity map) (nfos_map_get_t map)
    (nfos_map_put_t map) (nfos_map_erase_t map).
Proof.
  split; intros.
  - by apply (wp_map_get map _ k m).
  - apply (wp_map_put map _ k m); auto.
  - apply (wp_map_erase map _ k m); auto.
Qed.

(** ** double-chain.c *)

(** The set of allocated indexes. *)
Definition dchain_set {T} (cells : RluMem T nfos_dchain_cell) (N usable : Z) (t : T) (A : gset Z)
    : Prop :=
  0 < N /\ exists al, dchain_rep cells N usable t al /\ forall i, i ∈ A <-> is_allocated al i.

Section dchain.
Context {T : Type} `{RluTxn T} (cells : RluMem T nfos_dchain_cell) `{!RluLaws cells}.
Context (N usable core : Z) (Hcore : 0 <= core < N).

Lemma allocated_append al c i j :
  is_allocated (<[c := al c ++ [i]]> al) j <-> is_allocated al j \/ j = i.
Proof.
  unfold is_allocated. split.
  - intros [d Hd]. rewrite fn_insert_dec in Hd. case_decide as E; [|eauto]. subst.
    rewrite elem_of_app, list_elem_of_singleton in Hd. destruct Hd; eauto.
  - intros [[d Hd]| ->].
    + exists d. rewrite fn_insert_dec. case_decide; subst; [|done]. rewrite elem_of_app. by left.
    + exists c. rewrite fn_lookup_insert, elem_of_app, list_elem_of_singleton. by right.
Qed.

Lemma allocated_remove (f : Z -> nfos_dchain_cell) al d l1 i l2 j :
  0 < N -> chain_rep N usable f al -> al d = l1 ++ i :: l2 ->
  is_allocated (<[d := l1 ++ l2]> al) j <-> is_allocated al j /\ j <> i.
Proof.
  intros HN Hr E. pose proof (rep_nodup N usable f al d Hr) as Hnd. rewrite E in Hnd.
  apply NoDup_app in Hnd as (_ & Hd & Hnd). apply NoDup_cons in Hnd as [Hn2 _].
  assert (i ∈ al d) as Hi by (rewrite E, elem_of_app; right; left).
  unfold is_allocated. split.
  - intros [c Hc]. rewrite fn_insert_dec in Hc. case_decide as Ec.
    + subst c. rewrite elem_of_app in Hc. split.
      * exists d. rewrite E, elem_of_app, elem_of_cons. destruct Hc; auto.
      * intros ->. destruct Hc as [Hc|Hc]; [apply (Hd i Hc); left|done].
    + split; [by exists c|]. intros ->. apply Ec. by apply (rep_unique N usable f al d c i).
  - intros [[c Hc] Hne]. exists c. rewrite fn_insert_dec. case_decide as Ec; [|done]. subst c.
    rewrite E, elem_of_app, elem_of_cons in Hc. rewrite elem_of_app. destruct Hc as [?|[?|?]]; auto.
    done.
Qed.

#[export] Instance dchain_spec :
  AllocatorSpec (mem_steps cells) (dchain_set cells N usable) usable
    (nfos_dchain_allocate_new_index_t cells N core) (nfos_dchain_free_index_t cells N core).
Proof.
  split.
  - intros t A i (_ & al & Hr & HA) Hi. apply (rep_range N usable _ al i Hr). by apply HA.
  - intros A t Q (HN & al & Hr & HA) HQ HQ'.
    pose proof (wp_chain_allocate cells N usable ltac:(lia) (mem_steps cells) (fun _ => tt)
      (fun c => c) core t (view cells t) al Q) as Hw.
    apply Hw; [by apply holds_view|done|done|]. clear Hw.
    intros [i|] t' (f' & Hm & Hp).
    + destruct Hp as (Hi & Hn & Hr' & _). apply HQ; [done|by rewrite HA|].
      split; [done|]. eexists. split; [by eapply mem_rep|]. intros j.
      rewrite allocated_append, elem_of_union, elem_of_singleton, HA. tauto.
    + destruct Hp as (Hall & Hr' & _). apply HQ'; [intros i Hi; by apply HA, Hall|].
      split; [done|]. eexists. split; [by eapply mem_rep|done].
  - intros i A t Q (HN & al & Hr & HA) Hi HQ. apply HA in Hi as Hal.
    pose proof (wp_free_index cells N usable ltac:(lia) (mem_steps cells) (fun _ => tt) i core t
      (view cells t) al Q) as Hw.
    apply Hw; [by apply holds_view|done|exact (rep_range N usable _ al i Hr Hal)|done| |done]. clear Hw.
    intros d l1 l2 t' f' E Hm Hr'. apply HQ. split; [done|]. eexists. split; [by eapply mem_rep|].
    intros j. rewrite (allocated_remove _ al d l1 i l2 j ltac:(lia) Hr E).
    rewrite elem_of_difference, elem_of_singleton, HA. done.
Qed.
End dchain.

(** ** Frames *)

Lemma steps_view {T O1 O2} (m1 : RluMem T O1) (m2 : RluMem T O2) `{!RluIndep m1 m2} t t' l :
  mem_steps m1 t t' -> view m2 t' l = view m2 t l.
Proof.
  induction 1 as [|t t1 t2 Hs _ IH]; [done|]. by rewrite IH, (indep_view _ _ l Hs).
Qed.

Section frames.
Context {T O : Type} (m : RluMem T O).

#[export] Instance map_frame {K} `{Countable K} (map : NfosMap T K)
  `{!RluIndep m (map_entries map)} : Frame (mem_steps m) (map_rep map).
Proof.
  intros t t' kv Hs Hr. eapply map_inv_ext; [|exact Hr]. intros l _. by apply (steps_view m).
Qed.

#[export] Instance vec_frame {O'} (v : RluMem T O') `{!RluIndep m v} : Frame (mem_steps m) (vec_rep v).
Proof. intros t t' f Hs Hf i. by rewrite (steps_view m v _ _ _ Hs). Qed.

#[export] Instance dchain_frame (cells : RluMem T nfos_dchain_cell) N usable `{!RluIndep m cells} :
  Frame (mem_steps m) (dchain_set cells N usable).
Proof.
  intros t t' A Hs (HN & al & Hr & HA). split; [done|]. exists al. split; [|done].
  apply (rep_ext N usable HN (view cells t)); [|exact Hr]. intros x.
  by rewrite (steps_view m cells _ _ _ Hs).
Qed.
End frames.
