(* ===== verification/Sessions.v ===== *)
(** * NAT sessions

    What src/nf/fw-nat/main.c and src/nf/ei-nat/main.c have in common: the
    configuration of a NAT, the keys of its sessions, the indexes the keys are
    given and the external addresses and ports the indexes stand for. *)

From stdpp Require Import gmap.
From S2P Require Import Prelude Ether NfCommon.
Open Scope Z_scope.

Definition PROTO_TCP : Z := 6.

Record nf_config := NatConfig {
  wan_device : Z;
  external_addr : Z;
  num_external_addrs : Z;
  flow_expiration_time : Z;
  device_macs : Z -> rte_ether_addr;
  endpoint_macs : Z -> rte_ether_addr;
  external_port_low : Z;
  external_port_high : Z;
  num_avail_ext_tuples : Z
}.

Record session := SessionKey { k_src_addr : Z; k_src_port : Z; k_proto : Z }.
#[export] Instance session_eq_dec : EqDecision session.
Proof. solve_decision. Defined.
#[export] Instance session_countable : Countable session.
Proof.
  apply (inj_countable' (fun k => (k_src_addr k, k_src_port k, k_proto k))
    (fun '(a, b, c) => SessionKey a b c)). by intros [].
Defined.

Definition session_equal (s_a s_b : session) : bool :=
  (k_src_addr s_a =? k_src_addr s_b) && (k_src_port s_a =? k_src_port s_b) &&
  (k_proto s_a =? k_proto s_b).

Definition session_hash `{PacketIo B} (s_a : session) : Z :=
  let hash := 0 in
  let hash := crc32si hash (k_src_addr s_a) in
  let hash := crc32si hash (k_src_port s_a) in
  crc32si hash (k_proto s_a).

Section tuples.
Context {B : Type} `{PacketIo B} (cfg : nf_config).

(** Sessions of other protocols than TCP have the second half of the indexes. *)
Definition index_base (proto : Z) : Z :=
  if proto =? PROTO_TCP then 0 else num_avail_ext_tuples cfg.

Definition port_space_size : Z :=
  external_port_high cfg - external_port_low cfg + 1.

(** In network byte order: the machine is little-endian. *)
Definition sess_id_to_ext_tuple (sess_id proto : Z) : Z * Z :=
  let sess_id := sess_id - index_base proto in
  let ext_port := u16 (Z.rem sess_id port_space_size + external_port_low cfg) in
  let ext_ip := u32 (Z.quot sess_id port_space_size + external_addr cfg) in
  (bswap32 ext_ip, bswap16 ext_port).

Definition ext_tuple_to_sess_id (ext_ip ext_port proto : Z) : Z :=
  let ext_port := bswap16 ext_port in
  let ext_ip := bswap32 ext_ip in
  let sess_id := i32 (u32 ((ext_port - external_port_low cfg) +
                           u32 (port_space_size * u32 (ext_ip - external_addr cfg)))) in
  i32 (sess_id + index_base proto).

End tuples.

(** ** External addresses and ports *)

(** What nat_config.h has to satisfy: a range of ports, and external
    addresses that fit a word, with as many sessions as there are pairs. *)
Record config_ok (c : nf_config) : Prop := {
  ok_ports : 0 <= external_port_low c <= external_port_high c /\ external_port_high c < 2 ^ 16;
  ok_addrs : 0 <= external_addr c /\ 0 < num_external_addrs c /\
    external_addr c + num_external_addrs c <= 2 ^ 32;
  ok_tuples : num_avail_ext_tuples c =
    (external_port_high c - external_port_low c + 1) * num_external_addrs c;
  ok_size : num_avail_ext_tuples c <= 2 ^ 30
}.

Section roundtrip.
Context {B : Type} `{!PacketIo B, !PacketIoLaws B} (c : nf_config) (Hok : config_ok c).

Lemma tuple_roundtrip p i :
  0 <= i - index_base c p < num_avail_ext_tuples c ->
  let (ip, port) := sess_id_to_ext_tuple (B := B) c i p in
  external_addr c <= bswap32 ip < external_addr c + num_external_addrs c /\
  external_port_low c <= bswap16 port <= external_port_high c /\
  ext_tuple_to_sess_id (B := B) c ip port p = i.
Proof.
  intros Hi. unfold sess_id_to_ext_tuple, ext_tuple_to_sess_id, port_space_size. cbv zeta.
  destruct Hok as [Hports Haddrs Htup Hsize].
  set (j := i - index_base c p) in *. set (n := external_port_high c - external_port_low c + 1).
  assert (0 < n) as Hn by (unfold n; lia).
  rewrite Z.rem_mod_nonneg, Z.quot_div_nonneg by lia.
  pose proof (Z.mod_pos_bound j n Hn) as Hm. pose proof (Z.div_pos j n ltac:(lia) Hn) as Hd.
  assert (j / n < num_external_addrs c) as Hd2 by (apply Z.div_lt_upper_bound; [lia|unfold n; lia]).
  pose proof (Z.div_mod j n ltac:(lia)) as Ej.
  assert (j mod n + external_port_low c <= external_port_high c) as Hport by (unfold n in *; lia).
  rewrite u16_id, u32_id by lia. rewrite bswap32_twice, bswap16_twice by lia.
  rewrite (u32_id (j / n + external_addr c - external_addr c)) by lia.
  rewrite (u32_id (n * _)) by nia.
  replace (j mod n + external_port_low c - external_port_low c +
    n * (j / n + external_addr c - external_addr c)) with j by lia.
  split; [lia|]. split; [lia|]. rewrite u32_id, (i32_id j) by lia.
  unfold j. rewrite Z.sub_add. apply i32_id.
  assert (0 <= index_base c p <= num_avail_ext_tuples c); [|lia].
  unfold index_base. destruct (p =? PROTO_TCP); lia.
Qed.
End roundtrip.

(** ** The indexes of the sessions *)

Section index_table.
Variables (c : nf_config) (usable : Z).

(** Sessions have indexes of their own, and an index is allocated ([A true]
    for TCP, [A false] for the others) exactly when a session has it. *)
Record index_table (S : gmap session Z) (A : bool -> gset Z) : Prop := {
  it_index p i : i ∈ A (p =? PROTO_TCP) <-> exists k,
    (k_proto k =? PROTO_TCP) = (p =? PROTO_TCP) /\ S !! k = Some (i + index_base c p);
  it_inj k k' i : S !! k = Some i -> S !! k' = Some i -> k = k'
}.

Lemma index_base_eq p q : (p =? PROTO_TCP) = (q =? PROTO_TCP) -> index_base c p = index_base c q.
Proof. unfold index_base. by intros ->. Qed.

Lemma index_table_empty : index_table ∅ (fun _ => ∅).
Proof. split; [|done]. intros p i. split; [by intros ?%not_elem_of_empty|]. by intros (k & _ & Hk). Qed.

(** The index of a session, seen from its allocator. *)
Lemma index_allocated S A k i :
  index_table S A -> S !! k = Some i -> i - index_base c (k_proto k) ∈ A (k_proto k =? PROTO_TCP).
Proof. intros Ht Hk. apply (it_index _ _ Ht). exists k. split; [done|]. by rewrite Z.sub_add. Qed.

Lemma index_table_ext S A A' :
  (forall p, A' (p =? PROTO_TCP) ≡ A (p =? PROTO_TCP)) -> index_table S A -> index_table S A'.
Proof. intros E [Hi Hj]. split; [|done]. intros p i. by rewrite E, Hi. Qed.

Section add.
Variables (S : gmap session Z) (A : bool -> gset Z) (key : session) (i : Z).
Hypotheses (Ht : index_table S A) (Hrange : forall p j, j ∈ A (p =? PROTO_TCP) -> 0 <= j < usable).
Hypotheses (Hu : usable <= num_avail_ext_tuples c) (Hk : S !! key = None) (Hi : 0 <= i < usable).
Hypothesis (Hn : i ∉ A (k_proto key =? PROTO_TCP)).
Let index : Z := i + index_base c (k_proto key).

(** The two classes of protocols have different indexes. *)
Lemma index_fresh k : S !! k <> Some index.
Proof.
  intros Hk'. pose proof (index_allocated _ _ _ _ Ht Hk') as Hin.
  pose proof (Hrange _ _ Hin) as Hr. unfold index in Hin, Hr.
  destruct (k_proto k =? PROTO_TCP) eqn:E1, (k_proto key =? PROTO_TCP) eqn:E2;
    unfold index_base in Hin, Hr; rewrite E1, E2 in Hin, Hr; rewrite ?Z.add_simpl_r in Hin; try done; lia.
Qed.

Lemma index_table_add :
  index_table (<[key := index]> S)
    (<[k_proto key =? PROTO_TCP := {[i]} ∪ A (k_proto key =? PROTO_TCP)]> A).
Proof.
  split.
  - intros p j. rewrite fn_insert_dec.
    destruct (decide ((k_proto key =? PROTO_TCP) = (p =? PROTO_TCP))) as [E|E].
    + rewrite elem_of_union, elem_of_singleton, E, (it_index _ _ Ht p j).
      rewrite <- (index_base_eq _ _ E). split.
      * intros [->|(k & Ek & Hk')].
        -- exists key. by rewrite lookup_insert_eq.
        -- exists k. split; [done|]. rewrite lookup_insert_ne; [done|]. congruence.
      * intros (k & Ek & Hk'). apply lookup_insert_Some in Hk' as [[-> Hj]|[Hne Hk']].
        -- left. unfold index in Hj. lia.
        -- right. eauto.
    + rewrite (it_index _ _ Ht p j). split; intros (k & Ek & Hk'); exists k; (split; [done|]).
      * rewrite lookup_insert_ne; [done|]. congruence.
      * apply lookup_insert_Some in Hk' as [[-> _]|[_ Hk']]; [congruence|done].
  - intros k k' j. rewrite !lookup_insert_Some.
    intros [[<- <-]|[Hne Hk1]] [[<- Hj]|[Hne' Hk2]]; try done.
    + by destruct (index_fresh k').
    + subst j. by destruct (index_fresh k).
    + by apply (it_inj _ _ Ht _ _ j).
Qed.
End add.

Lemma index_table_remove S A key i :
  index_table S A -> S !! key = Some i ->
  index_table (delete key S)
    (<[k_proto key =? PROTO_TCP := A (k_proto key =? PROTO_TCP) ∖ {[i - index_base c (k_proto key)]}]> A).
Proof.
  intros [Hti Htj] Hk. split.
  - intros p j. rewrite fn_insert_dec. destruct (decide _) as [E|E].
    + rewrite elem_of_difference, elem_of_singleton, E, (Hti p j), (index_base_eq _ _ E). split.
      * intros [(k & Ek & Hk2) Hne]. exists k. split; [done|]. rewrite lookup_delete_ne; [done|].
        intros <-. assert (j + index_base c p = i) by congruence. lia.
      * intros (k & Ek & Hk2). apply lookup_delete_Some in Hk2 as [Hne Hk2]. split; [by exists k|].
        intros ->. apply Hne. apply (Htj _ _ i); [done|]. by rewrite Z.sub_add in Hk2.
    + rewrite (Hti p j). split; intros (k & Ek & Hk2); exists k; (split; [done|]).
      * rewrite lookup_delete_ne; [done|]. congruence.
      * by apply lookup_delete_Some in Hk2 as [_ Hk2].
  - intros k k' j Hk1 Hk2. apply lookup_delete_Some in Hk1 as [_ Hk1], Hk2 as [_ Hk2].
    by apply (Htj _ _ j).
Qed.
End index_table.

(** The indexes a core's allocator hands out. *)
Lemma usable_num N num : 0 < N -> 0 <= num -> 0 <= N * (num / N) <= num.
Proof.
  intros HN Hn. pose proof (Z.mul_div_le num N ltac:(lia)). pose proof (Z.div_pos num N Hn ltac:(lia)). nia.
Qed.
