(* ===== verification/NatFw.v ===== *)
(** * The NAT

    src/nf/fw-nat/main.c.  Every connection from the private network has a
    session: its source address, port and protocol, kept in a map; the index
    of the session, taken from an allocator for TCP and one for the other
    protocols, stands for the external address and port that replace them.
    The map, the vector of the sessions' data and the allocators are shared
    by all cores and used in a handler's critical section. *)

From stdpp Require Import gmap.
From S2P Require Import Prelude Ether Rlu Txn Vector NfosMap Links Dchain Interfaces PktSet DataPlane NfCommon Sessions.
Open Scope Z_scope.

Definition EI_NAT_SECOND : Z := 3000000000.
Definition FLOW_SIZE_THRESHOLD : Z := 2 ^ 32 - 1.   (* UINT32_MAX *)

Record session_data_t := SessionData { last_used : Z; int_ip : Z; int_port : Z }.

Record nf_state (T : Type) := NatState {
  cfg : nf_config;
  session_map : NfosMap T session;
  session_data : NfosVector T session_data_t;
  sess_indexes_tcp : RluMem T nfos_dchain_cell;
  sess_indexes_udp : RluMem T nfos_dchain_cell
}.
Arguments cfg {T} _.
Arguments session_map {T} _.
Arguments session_data {T} _.
Arguments sess_indexes_tcp {T} _.
Arguments sess_indexes_udp {T} _.

(** The return values of alloc_session other than ABORT_HANDLER, and the
    failure of its assertion, which ends the program. *)
Inductive alloc_result :=
| Allocated (sess_index : Z)
| AllocFailed
| AssertFailed.

(** Whether a handler returns 0 or fails an assertion. *)
Inductive nat_result := Returned | AssertionFailed.

Section nat.
Context {T B : Type} `{PacketIo B} (st : nf_state T).
(** Cores, the core's number, and the time get_curr_time returns. *)
Variables (num_cores thread_id now : Z).

Definition sess_indexes (proto : Z) : RluMem T nfos_dchain_cell :=
  if proto =? PROTO_TCP then sess_indexes_tcp st else sess_indexes_udp st.
Definition alloc_session (sess_key : session) : M T alloc_result :=
  let! r := nfos_dchain_allocate_new_index_t (sess_indexes (k_proto sess_key)) num_cores thread_id in
  match r with
  | None => ret AssertFailed
  | Some index =>
      let index := i32 (index + index_base (cfg st) (k_proto sess_key)) in
      let! sess_data := nfos_vector_borrow_mut_t (session_data st) index in
      let! ret3 := nfos_map_put_t (session_map st) sess_key index in
      if (ret3 : bool) then
        modify (elems (session_data st)) sess_data
          (fun _ => SessionData now (k_src_addr sess_key) (k_src_port sess_key)) ;;
        ret (Allocated index)
      else
        let index := i32 (index - index_base (cfg st) (k_proto sess_key)) in
        let! _ := nfos_dchain_free_index_t (sess_indexes (k_proto sess_key)) num_cores thread_id index in
        ret AllocFailed
  end.

Definition dealloc_session (sess_key : session) (sess_index : Z) : M T bool :=
  let! _ := nfos_vector_borrow_t (session_data st) sess_index in
  let sess_index := i32 (sess_index - index_base (cfg st) (k_proto sess_key)) in
  let! ret3 := nfos_dchain_free_index_t (sess_indexes (k_proto sess_key)) num_cores thread_id sess_index in
  if (ret3 : bool) then nfos_map_erase_t (session_map st) sess_key else ret false.

(** The middle of pkt_handler: the session's index, with its time refreshed. *)
Definition get_session (key : session) : M T alloc_result :=
  let! found := nfos_map_get_t (session_map st) key in
  let! s := match found with
            | Some sess_index => ret (Allocated sess_index)
            | None => alloc_session key
            end in
  match s with
  | Allocated sess_index =>
      let! sess_data := nfos_vector_borrow_t (session_data st) sess_index in
      if now >? i64 (last_used sess_data + EI_NAT_SECOND) then
        let! p := nfos_vector_borrow_mut_t (session_data st) sess_index in
        modify (elems (session_data st)) p (fun d => SessionData now (int_ip d) (int_port d)) ;;
        ret s
      else ret s
  | s => ret s
  end.

Abbreviation mem := (nf_mem (pkt_t B) pkt_set_id_t Z).

Definition nat_pkt_action (ip port incoming_dev : Z) : M (mem * T) nat_result :=
  if incoming_dev =? wan_device (cfg st) then ret AssertionFailed
  else
    on_nf_mem (fun m =>
      let pkt := nf_packet m in
      let pkt := set_tcpudp_header (TcpUdp port (dst_port (tcpudp pkt))) pkt in
      let pkt := set_ipv4_header (set_src_addr ip (ipv4 pkt)) pkt in
      (tt, set_packet (nf_set_ipv4_udptcp_checksum pkt) m)) ;;
    let dst_dev := u16 (1 - incoming_dev) in
    send_pkt dst_dev ;;
    ret Returned.

Definition session_of (pkt : pkt_t B) : session :=
  SessionKey (src_addr (ipv4 pkt)) (src_port (tcpudp pkt)) (next_proto_id (ipv4 pkt)).

(** drop_pkt does not leave the handler. *)
Definition drop_expired_ttl : M (mem * T) unit :=
  let! ttl := on_nf_mem (fun m => (time_to_live (ipv4 (nf_packet m)), m)) in
  if ttl <=? 1 then drop_pkt else ret tt.

(** local_state->flow_size++, unless it is above the threshold. *)
Definition count_pkt (flow_size : Z) : Z :=
  if flow_size >? FLOW_SIZE_THRESHOLD then flow_size else u32 (flow_size + 1).

Definition translate (incoming_dev : Z) : M (mem * T) nat_result :=
  let! key := on_nf_mem (fun m => (session_of (nf_packet m), m)) in
  let! s := on_txn (get_session key) in
  match s with
  | Allocated sess_index =>
      let (ext_ip, ext_port) := sess_id_to_ext_tuple (cfg st) sess_index (k_proto key) in
      nat_pkt_action ext_ip ext_port incoming_dev
  | AllocFailed => drop_pkt ;; ret Returned
  | AssertFailed => ret AssertionFailed
  end.

(** [local_state]: the index of the packet set whose state is passed. *)
Definition pkt_handler (incoming_dev local_state : Z) : M (mem * T) nat_result :=
  drop_expired_ttl ;;
  on_nf_mem (fun m =>
    (tt, set_manager (write_state local_state
           (count_pkt (pkt_set_state (nf_manager m) local_state)) (nf_manager m)) m)) ;;
  translate incoming_dev.

(** The handler is given a local variable as the state; its counter is lost. *)
Definition nf_unknown_pkt_set_handler (pkt_set_partition incoming_dev : Z) (id : pkt_set_id_t)
    : M (mem * T) nat_result :=
  let local_state := 0 in
  let! _ := add_pkt_set num_cores thread_id pkt_set_partition id local_state None in
  drop_expired_ttl ;;
  translate incoming_dev.

Definition wan_handler (incoming_dev : Z) : M (mem * T) nat_result := ret AssertionFailed.

Definition nf_expired_pkt_set_handler : M (Z * T) unit := ret tt.

Definition nf_pkt_dispatcher (pkt : pkt_t B) (incoming_dev : Z) (uninit : pkt_set_id_t)
    : Z * pkt_set_id_t * bool :=
  if negb (incoming_dev =? wan_device (cfg st)) then
    (0, FlowId (src_port (tcpudp pkt)) (dst_port (tcpudp pkt)) (src_addr (ipv4 pkt))
          (dst_addr (ipv4 pkt)) (next_proto_id (ipv4 pkt)), true)
  else (1, uninit, false).
End nat.

(** ** The table of sessions *)

Section spec.
Context {T B : Type} `{RluTxn T} `{!PacketIo B} (st : nf_state T).
Context `{!RluLaws (map_entries (session_map st)), !MapConfig (session_map st)}.
Context `{!RluLaws (elems (session_data st))}.
Context `{!RluLaws (sess_indexes_tcp st), !RluLaws (sess_indexes_udp st)}.

(** The structures of the NAT are different objects. *)
Class NatDisjoint : Prop := {
  #[global] map_data :: RluIndep (map_entries (session_map st)) (elems (session_data st));
  #[global] map_tcp :: RluIndep (map_entries (session_map st)) (sess_indexes_tcp st);
  #[global] map_udp :: RluIndep (map_entries (session_map st)) (sess_indexes_udp st);
  #[global] data_map :: RluIndep (elems (session_data st)) (map_entries (session_map st));
  #[global] data_tcp :: RluIndep (elems (session_data st)) (sess_indexes_tcp st);
  #[global] data_udp :: RluIndep (elems (session_data st)) (sess_indexes_udp st);
  #[global] tcp_map :: RluIndep (sess_indexes_tcp st) (map_entries (session_map st));
  #[global] tcp_data :: RluIndep (sess_indexes_tcp st) (elems (session_data st));
  #[global] tcp_udp :: RluIndep (sess_indexes_tcp st) (sess_indexes_udp st);
  #[global] udp_map :: RluIndep (sess_indexes_udp st) (map_entries (session_map st));
  #[global] udp_data :: RluIndep (sess_indexes_udp st) (elems (session_data st));
  #[global] udp_tcp :: RluIndep (sess_indexes_udp st) (sess_indexes_tcp st)
}.
Context `{!NatDisjoint}.
Variables (N core now : Z).
Hypothesis (Hcore : 0 <= core < N).
Let num : Z := num_avail_ext_tuples (cfg st).
(** The indexes each allocator hands out. *)
Let usable : Z := N * (num / N).

Definition nat_step (t t' : T) : Prop :=
  mem_step (map_entries (session_map st)) t t' \/ mem_step (elems (session_data st)) t t' \/
  mem_step (sess_indexes_tcp st) t t' \/ mem_step (sess_indexes_udp st) t t'.
Abbreviation nat_steps := (rtc nat_step).

#[local] Instance nat_steps_rel : TxnRel nat_steps.
Proof.
  split; [apply rtc_po|]. induction 1 as [|t t1 t2 Hs _ IH]; [done|]. intros Hf. apply IH.
  destruct Hs as [Hs|[Hs|[Hs|Hs]]]; apply rtc_once in Hs; by apply (txn_free _ _ Hs).
Qed.
#[local] Instance map_sub : SubRel (mem_steps (map_entries (session_map st))) nat_steps.
Proof. intros t t'. apply rtc_subrel. unfold nat_step. auto. Qed.
#[local] Instance data_sub : SubRel (mem_steps (elems (session_data st))) nat_steps.
Proof. intros t t'. apply rtc_subrel. unfold nat_step. auto. Qed.
#[local] Instance sess_sub p : SubRel (mem_steps (sess_indexes st p)) nat_steps.
Proof.
  intros t t'. apply rtc_subrel. unfold sess_indexes, nat_step. destruct (p =? PROTO_TCP); auto.
Qed.
#[local] Instance sess_laws p : RluLaws (sess_indexes st p).
Proof. unfold sess_indexes. by destruct (p =? PROTO_TCP). Qed.
#[local] Instance map_sess p : RluIndep (map_entries (session_map st)) (sess_indexes st p).
Proof. unfold sess_indexes. destruct (p =? PROTO_TCP); apply _. Qed.
#[local] Instance data_sess p : RluIndep (elems (session_data st)) (sess_indexes st p).
Proof. unfold sess_indexes. destruct (p =? PROTO_TCP); apply _. Qed.
#[local] Instance sess_map p : RluIndep (sess_indexes st p) (map_entries (session_map st)).
Proof. unfold sess_indexes. destruct (p =? PROTO_TCP); apply _. Qed.
#[local] Instance sess_data p : RluIndep (sess_indexes st p) (elems (session_data st)).
Proof. unfold sess_indexes. destruct (p =? PROTO_TCP); apply _. Qed.

(** What the four structures hold: [A true] are the allocated indexes of TCP
    sessions, [A false] those of the others. *)
Record parts (t : T) (S : gmap session Z) (A : bool -> gset Z) (f : Z -> session_data_t) : Prop := {
  parts_map : map_rep (session_map st) t S;
  parts_data : vec_rep (elems (session_data st)) t f;
  parts_sess p : dchain_set (sess_indexes st p) N usable t (A (p =? PROTO_TCP))
}.

Lemma wp_parts_get k t S A f (Q : option Z -> T -> Prop) :
  parts t S A f -> Q (S !! k) t -> wp nat_steps (nfos_map_get_t (session_map st) k) t Q.
Proof. intros [Hm Hd Hs] HQ. apply (wp_on (mem_steps (map_entries (session_map st))) nat_steps). by eapply get_wp. Qed.

Lemma wp_parts_put k v t S A f (Q : bool -> T -> Prop) :
  parts t S A f -> S !! k = None ->
  (forall t', Z.of_nat (size S) < map_capacity (session_map st) -> parts t' (<[k := v]> S) A f ->
     Q true t') ->
  (map_capacity (session_map st) <= Z.of_nat (size S) -> Q false t) ->
  wp nat_steps (nfos_map_put_t (session_map st) k v) t Q.
Proof.
  intros [Hm Hd Hs] Hk HQ HQ'. apply (wp_on (mem_steps (map_entries (session_map st))) nat_steps). eapply put_wp; [done|done| |auto].
  intros t' Hsz Hm' Hst. apply HQ; [done|]. split; [done|frame_step|]. intros p. frame_step.
Qed.

Lemma wp_parts_erase k t S A f (Q : bool -> T -> Prop) :
  parts t S A f -> is_Some (S !! k) ->
  (forall t', parts t' (delete k S) A f -> Q true t') ->
  wp nat_steps (nfos_map_erase_t (session_map st) k) t Q.
Proof.
  intros [Hm Hd Hs] [v Hk] HQ. apply (wp_on (mem_steps (map_entries (session_map st))) nat_steps). eapply erase_wp; [done| |congruence].
  intros t' _ Hm' Hst. apply HQ. split; [done|frame_step|]. intros p. frame_step.
Qed.

Lemma wp_parts_borrow i t S A f (Q : session_data_t -> T -> Prop) :
  parts t S A f -> Q (f i) t -> wp nat_steps (nfos_vector_borrow_t (session_data st) i) t Q.
Proof. intros [Hm Hd Hs] HQ. apply (wp_on (mem_steps (elems (session_data st))) nat_steps). by eapply borrow_wp. Qed.

Lemma wp_parts_borrow_mut i t S A f (Q : Z -> T -> Prop) :
  parts t S A f ->
  (forall t', parts t' S A f -> locked (elems (session_data st)) t' i -> Q i t') ->
  wp nat_steps (nfos_vector_borrow_mut_t (session_data st) i) t Q.
Proof.
  intros [Hm Hd Hs] HQ. apply (wp_on (mem_steps (elems (session_data st))) nat_steps). eapply borrow_mut_wp; [apply _|done|].
  intros t' Hl Hd' Hst. apply HQ; [|done]. split; [frame_step|done|]. intros p. frame_step.
Qed.

Lemma wp_parts_modify i g t S A f (Q : unit -> T -> Prop) :
  parts t S A f -> locked (elems (session_data st)) t i ->
  (forall t', parts t' S A (<[i := g (f i)]> f) -> Q tt t') ->
  wp nat_steps (modify (elems (session_data st)) i g) t Q.
Proof.
  intros [Hm Hd Hs] Hl HQ. apply (wp_on (mem_steps (elems (session_data st))) nat_steps). eapply modify_wp; [apply _|done|done|].
  intros t' Hd' Hst. apply HQ. split; [frame_step|done|]. intros p. frame_step.
Qed.

(** The allocators of the two classes of protocols. *)
Lemma sess_other p q t t' A :
  (p =? PROTO_TCP) <> (q =? PROTO_TCP) -> mem_steps (sess_indexes st p) t t' ->
  dchain_set (sess_indexes st q) N usable t A -> dchain_set (sess_indexes st q) N usable t' A.
Proof.
  unfold sess_indexes. destruct (p =? PROTO_TCP), (q =? PROTO_TCP); try done; intros _ ? ?; frame_step.
Qed.

Lemma sess_update p t t' S A f A' :
  parts t S A f -> mem_steps (sess_indexes st p) t t' ->
  dchain_set (sess_indexes st p) N usable t' A' -> parts t' S (<[p =? PROTO_TCP := A']> A) f.
Proof.
  intros [Hm Hd Hs] Hst HA. split; [frame_step|frame_step|]. intros q.
  rewrite fn_insert_dec. destruct (decide ((p =? PROTO_TCP) = (q =? PROTO_TCP))) as [E|E].
  - unfold sess_indexes in *. by rewrite <- E.
  - by eapply sess_other.
Qed.

Lemma wp_parts_allocate p t S A f (Q : option Z -> T -> Prop) :
  parts t S A f ->
  (forall i t', 0 <= i < usable -> i ∉ A (p =? PROTO_TCP) ->
     parts t' S (<[p =? PROTO_TCP := {[i]} ∪ A (p =? PROTO_TCP)]> A) f -> Q (Some i) t') ->
  (forall t', (forall i, 0 <= i < usable -> i ∈ A (p =? PROTO_TCP)) ->
     parts t' S (<[p =? PROTO_TCP := A (p =? PROTO_TCP)]> A) f -> Q None t') ->
  wp nat_steps (nfos_dchain_allocate_new_index_t (sess_indexes st p) N core) t Q.
Proof.
  intros Hp HQ HQ'. apply (wp_on (mem_steps (sess_indexes st p)) nat_steps).
  eapply (allocate_wp (AllocatorSpec := dchain_spec (sess_indexes st p) N usable core Hcore));
    [apply (parts_sess _ _ _ _ Hp)| |].
  - intros i t' Hi Hn Hs Hst. apply HQ; [done|done|]. by eapply sess_update.
  - intros t' Hall Hs Hst. apply HQ'; [done|]. by eapply sess_update.
Qed.

Lemma wp_parts_free p i t S A f (Q : bool -> T -> Prop) :
  parts t S A f -> i ∈ A (p =? PROTO_TCP) ->
  (forall t', parts t' S (<[p =? PROTO_TCP := A (p =? PROTO_TCP) ∖ {[i]}]> A) f -> Q true t') ->
  wp nat_steps (nfos_dchain_free_index_t (sess_indexes st p) N core i) t Q.
Proof.
  intros Hp Hi HQ. apply (wp_on (mem_steps (sess_indexes st p)) nat_steps).
  eapply (free_wp (AllocatorSpec := dchain_spec (sess_indexes st p) N usable core Hcore));
    [apply (parts_sess _ _ _ _ Hp)|done|].
  intros t' Hs Hst. apply HQ. by eapply sess_update.
Qed.

(** In [t] the table of sessions is [S]: sessions have indexes of their own,
    an index is allocated exactly when a session has it, and the data of a
    session is its internal address. *)
Record nat_table (S : gmap session Z) (A : bool -> gset Z) (f : Z -> session_data_t) : Prop := {
  table_keys : index_table (cfg st) S A;
  table_data k i : S !! k = Some i -> int_ip (f i) = k_src_addr k /\ int_port (f i) = k_src_port k
}.
Definition nat_rep (t : T) (S : gmap session Z) : Prop :=
  exists A f, parts t S A f /\ nat_table S A f.

Lemma usable_range : 0 <= num -> 0 <= usable <= num.
Proof. intros Hn. apply usable_num; lia. Qed.

Lemma parts_range t S A f p j : parts t S A f -> j ∈ A (p =? PROTO_TCP) -> 0 <= j < usable.
Proof.
  intros Hp Hj. pose proof (dchain_spec (sess_indexes st p) N usable core Hcore) as Hspec.
  exact (allocated_range (AllocatorSpec := Hspec) _ _ _ (parts_sess _ _ _ _ Hp _) Hj).
Qed.

(** The index of a session, seen from its allocator. *)
Lemma table_range t S A f k i :
  parts t S A f -> nat_table S A f -> S !! k = Some i ->
  i - index_base (cfg st) (k_proto k) ∈ A (k_proto k =? PROTO_TCP) /\
  0 <= i - index_base (cfg st) (k_proto k) < usable.
Proof.
  intros Hp Ht Hk. pose proof (index_allocated _ _ _ _ _ (table_keys _ _ _ Ht) Hk) as Hi.
  split; [done|]. by eapply parts_range.
Qed.

Lemma table_add t S A f key i :
  0 <= num -> parts t S A f -> nat_table S A f -> S !! key = None -> 0 <= i < usable ->
  i ∉ A (k_proto key =? PROTO_TCP) ->
  let index := i + index_base (cfg st) (k_proto key) in
  nat_table (<[key := index]> S)
    (<[k_proto key =? PROTO_TCP := {[i]} ∪ A (k_proto key =? PROTO_TCP)]> A)
    (<[index := SessionData now (k_src_addr key) (k_src_port key)]> f).
Proof.
  intros Hnum Hp [Ht Hd] Hk Hi Hn index. pose proof (usable_range Hnum) as Hu.
  assert (forall p j, j ∈ A (p =? PROTO_TCP) -> 0 <= j < usable) as Hrange
    by (intros p j; by eapply parts_range).
  split; [by apply (index_table_add _ usable); try (fold num; lia)|].
  intros k j. rewrite lookup_insert_Some, fn_insert_dec. intros [[<- <-]|[Hne Hk1]].
  - by rewrite decide_True.
  - rewrite decide_False; [by apply Hd|]. intros <-.
    by apply (index_fresh (cfg st) usable S A key i Ht Hrange ltac:(fold num; lia) Hi Hn k).
Qed.

(** Writing the time of a session. *)
Lemma table_touch S A f i :
  nat_table S A f -> nat_table S A (<[i := SessionData now (int_ip (f i)) (int_port (f i))]> f).
Proof.
  intros [Hi Hd]. split; [done|]. intros k j Hk. rewrite fn_insert_dec.
  destruct (decide (i = j)) as [<-|]; by apply Hd.
Qed.

Lemma table_ext S A A' f :
  (forall p, A' (p =? PROTO_TCP) ≡ A (p =? PROTO_TCP)) -> nat_table S A f -> nat_table S A' f.
Proof. intros E [Hi Hd]. split; [by eapply index_table_ext|done]. Qed.

Hypothesis (Hnum : 0 <= num <= 2 ^ 30).

Lemma index_i32 p i : 0 <= i < usable -> i32 (i + index_base (cfg st) p) = i + index_base (cfg st) p.
Proof.
  intros Hi. pose proof (usable_range ltac:(lia)). apply i32_id. unfold index_base. fold num.
  destruct (p =? PROTO_TCP); lia.
Qed.

(** What the allocation or look-up of a session comes to. *)
Definition session_post (S : gmap session Z) (key : session) (r : alloc_result) (t' : T) : Prop :=
  match r with
  | Allocated i => exists S', nat_rep t' S' /\ S' !! key = Some i /\
      (S' = S \/ S !! key = None /\ S' = <[key := i]> S)
  | AllocFailed => nat_rep t' S /\ S !! key = None /\
      map_capacity (session_map st) <= Z.of_nat (size S)
  | AssertFailed => nat_rep t' S /\ S !! key = None /\
      forall i, 0 <= i < usable -> exists k, (k_proto k =? PROTO_TCP) = (k_proto key =? PROTO_TCP) /\
        S !! k = Some (i + index_base (cfg st) (k_proto key))
  end.

Lemma wp_alloc_session key t S :
  nat_rep t S -> S !! key = None ->
  wp nat_steps (alloc_session st N core now key) t (session_post S key).
Proof.
  intros (A & f & Hp & Ht) Hk. unfold alloc_session.
  apply wp_bind; [apply _|]. eapply wp_parts_allocate; [exact Hp| |].
  - intros i t1 Hi Hn Hp1. cbv zeta. rewrite index_i32 by done. set (index := i + _).
    apply wp_bind; [apply _|]. eapply wp_parts_borrow_mut; [exact Hp1|]. intros t2 Hp2 Hl.
    apply wp_bind; [apply _|]. eapply (wp_on (mem_steps (map_entries (session_map st))) nat_steps).
    pose proof Hp2 as [Hm2 Hd2 Hs2]. eapply put_wp; [exact Hm2|done| |].
    + intros t3 Hsz Hm3 Hst. cbn [negb].
      assert (parts t3 (<[key := index]> S)
        (<[k_proto key =? PROTO_TCP := {[i]} ∪ A (k_proto key =? PROTO_TCP)]> A) f) as Hp3.
      { split; [done|frame_step|]. intros p. frame_step. }
      assert (locked (elems (session_data st)) t3 index) as Hl3.
      { destruct (indep_holds (map_entries (session_map st)) (elems (session_data st)) t2 t3 f [index] Hst)
          as [_ Hl3]; [|apply Hl3; left]. split; [done|]. by intros l ->%list_elem_of_singleton. }
      apply wp_bind; [apply _|]. eapply wp_parts_modify; [exact Hp3|done|]. intros t4 Hp4.
      apply wp_ret; [apply _|]. exists (<[key := index]> S). split; [|rewrite lookup_insert_eq; auto].
      do 2 eexists. split; [exact Hp4|]. apply (table_add t); (lia || done).
    + intros Hfull Hst. cbn [negb].
      replace (i32 (index - index_base (cfg st) (k_proto key))) with i.
      2: { unfold index. rewrite Z.add_simpl_r, i32_id; [done|]. pose proof (usable_range ltac:(lia)). lia. }
      apply wp_bind; [apply _|]. eapply wp_parts_free; [exact Hp2|rewrite fn_lookup_insert; set_solver|].
      intros t3 Hp3. apply wp_ret; [apply _|]. split; [|done].
      do 2 eexists. split; [exact Hp3|]. eapply table_ext; [|exact Ht]. intros p.
      rewrite !fn_insert_dec. destruct (decide _) as [<-|]; [|done]. rewrite decide_True by done. set_solver.
  - intros t1 Hall Hp1. apply wp_ret; [apply _|]. split; [|split; [done|]].
    + do 2 eexists. split; [exact Hp1|]. eapply table_ext; [|exact Ht]. intros p.
      rewrite fn_insert_dec. by destruct (decide _) as [<-|].
    + intros i Hi. by apply (it_index _ _ _ (table_keys _ _ _ Ht)), Hall.
Qed.

Lemma wp_get_session key t S :
  nat_rep t S -> wp nat_steps (get_session st N core now key) t (session_post S key).
Proof.
  intros Hr. unfold get_session. pose proof Hr as (A & f & Hp & Ht).
  apply wp_bind; [apply _|]. eapply wp_parts_get; [exact Hp|].
  apply wp_bind; [apply _|].
  assert (wp nat_steps (match S !! key with
      | Some sess_index => ret (Allocated sess_index)
      | None => alloc_session st N core now key
      end) t (session_post S key)) as Hs.
  { destruct (S !! key) as [i|] eqn:E; [|by apply wp_alloc_session].
    apply wp_ret; [apply _|]. exists S. auto. }
  eapply wp_mono; [|exact Hs]. intros [i| |] t1 _ Hpost; [|by apply wp_ret; [apply _|]..].
  destruct Hpost as (S' & (A' & f' & Hp' & Ht') & Hk' & HS').
  apply wp_bind; [apply _|]. eapply wp_parts_borrow; [exact Hp'|].
  destruct (now >? _).
  - apply wp_bind; [apply _|]. eapply wp_parts_borrow_mut; [exact Hp'|]. intros t2 Hp2 Hl.
    apply wp_bind; [apply _|]. eapply wp_parts_modify; [exact Hp2|done|]. intros t3 Hp3.
    apply wp_ret; [apply _|]. exists S'. split; [|done].
    do 2 eexists. split; [exact Hp3|]. by apply table_touch.
  - apply wp_ret; [apply _|]. exists S'. split; [|done]. by exists A', f'.
Qed.

(** The end of a session: its index can be allocated again. *)
Lemma wp_dealloc_session key i t S :
  nat_rep t S -> S !! key = Some i ->
  wp nat_steps (dealloc_session st N core key i) t
    (fun r t' => r = true /\ nat_rep t' (delete key S)).
Proof.
  intros (A & f & Hp & Ht) Hk. unfold dealloc_session.
  destruct (table_range _ _ _ _ _ _ Hp Ht Hk) as [Hi Hr]. pose proof (usable_range ltac:(lia)).
  apply wp_bind; [apply _|]. eapply wp_parts_borrow; [exact Hp|]. cbv zeta.
  rewrite i32_id by lia. apply wp_bind; [apply _|]. eapply wp_parts_free; [exact Hp|done|].
  intros t1 Hp1. eapply wp_parts_erase; [exact Hp1|by eexists|]. intros t2 Hp2. split; [done|].
  do 2 eexists. split; [exact Hp2|]. destruct Ht as [Ht Hd]. split; [by apply index_table_remove|].
  intros k j Hk1. apply lookup_delete_Some in Hk1 as [_ Hk1]. by apply Hd.
Qed.
End spec.


(** The table after a packet of session [key] that got index [i]. *)
Definition session_added (S S' : gmap session Z) (key : session) (i : Z) : Prop :=
  S' !! key = Some i /\ (S' = S \/ S !! key = None /\ S' = <[key := i]> S).

(** What a run of the handler on [m] and the table [S] comes to. *)
Definition nat_handled `{RluTxn T, !PacketIo B} (st : nf_state T)
    `{!RluLaws (map_entries (session_map st)), !MapConfig (session_map st)}
    (N dev ls : Z) (m : nf_mem (pkt_t B) pkt_set_id_t Z) (t : T) (S : gmap session Z)
    (r : option nat_result * (nf_mem (pkt_t B) pkt_set_id_t Z * T)) : Prop :=
  let key := session_of (nf_packet m) in
  match r with
  | (Some Returned, (m', t')) =>
      pkt_set_state (nf_manager m') ls = count_pkt (pkt_set_state (nf_manager m) ls) /\
      ((exists S' i, nat_rep st N t' S' /\ session_added S S' key i /\
          let (ip, port) := sess_id_to_ext_tuple (B := B) (cfg st) i (k_proto key) in
          nf_packet m' = translated ip port (nf_packet m) /\ nf_dst_device m' = u16 (1 - dev) /\
          forall k' i', S' !! k' = Some i' -> (k_proto k' =? PROTO_TCP) = (k_proto key =? PROTO_TCP) ->
          sess_id_to_ext_tuple (B := B) (cfg st) i' (k_proto k') = (ip, port) -> k' = key)
       \/
       (nat_rep st N t' S /\ S !! key = None /\ map_capacity (session_map st) <= Z.of_nat (size S) /\
          nf_packet m' = nf_packet m /\ nf_dst_device m' = nf_dst_device m))
  | (Some AssertionFailed, _) => S !! key = None /\
      forall i, 0 <= i < N * (num_avail_ext_tuples (cfg st) / N) ->
      exists k, (k_proto k =? PROTO_TCP) = (k_proto key =? PROTO_TCP) /\
        S !! k = Some (i + index_base (cfg st) (k_proto key))
  | (None, _) => ~ no_conflict t
  end.

(** ** Properties *)

(** The external address and port of a session lie in the configured
    ranges and lead back to the session, for both classes of protocols. *)
Theorem ext_tuple_roundtrip {T B} `{!PacketIo B, !PacketIoLaws B} (st : nf_state T) (i proto : Z)
    (Hok : config_ok (cfg st)) (Hi : 0 <= i - index_base (cfg st) proto < num_avail_ext_tuples (cfg st)) :
  let (ip, port) := sess_id_to_ext_tuple (B := B) (cfg st) i proto in
  external_addr (cfg st) <= bswap32 ip < external_addr (cfg st) + num_external_addrs (cfg st) /\
  external_port_low (cfg st) <= bswap16 port <= external_port_high (cfg st) /\
  ext_tuple_to_sess_id (B := B) (cfg st) ip port proto = i.
Proof. by apply tuple_roundtrip. Qed.

(** C5: the NAT's handler of packets from the private network: the packet's
    session is looked up or added to the table, the packet leaves through the
    other device with its source replaced by the session's external address
    and port, and no other session of the table, TCP or not as this one, has
    the same pair.  A packet that finds the table full is not sent; the
    assertion fails only when every index of the protocol's class belongs to
    a session; an abort means that another thread holds a lock. *)
Theorem nat_pkt_handler_spec {T B} `{RluTxn T} `{!PacketIo B, !PacketIoLaws B} (st : nf_state T)
    `{!RluLaws (map_entries (session_map st)), !MapConfig (session_map st)}
    `{!RluLaws (elems (session_data st))}
    `{!RluLaws (sess_indexes_tcp st), !RluLaws (sess_indexes_udp st), !NatDisjoint st}
    (N core now dev ls : Z) (m : nf_mem (pkt_t B) pkt_set_id_t Z) (t : T) (S : gmap session Z)
    (Hcore : 0 <= core < N) (Hok : config_ok (cfg st)) (Hdev : dev <> wan_device (cfg st))
    (Hr : nat_rep st N t S) :
  nat_handled st N dev ls m t S (pkt_handler st N core now dev ls (m, t)).
Proof.
  pose proof (ok_tuples _ Hok) as Htup.
  assert (0 <= num_avail_ext_tuples (cfg st) <= 2 ^ 30) as Hnum.
  { pose proof (ok_size _ Hok). destruct (ok_ports _ Hok), (ok_addrs _ Hok) as (? & ? & ?). nia. }
  unfold nat_handled. set (key := session_of (nf_packet m)).
  set (m1 := set_manager (write_state ls (count_pkt (pkt_set_state (nf_manager m) ls)) (nf_manager m)) m).
  assert (pkt_handler st N core now dev ls (m, t) = translate st N core now dev (m1, t)) as ->.
  { unfold pkt_handler, drop_expired_ttl. unfold bind at 1 2. cbn. by destruct (_ <=? _). }
  pose proof (wp_get_session st N core now Hcore Hnum key t S Hr) as Hwp. apply wp_run in Hwp.
  unfold translate. unfold bind at 1. cbn [on_nf_mem]. fold key.
  change (session_of (nf_packet m1)) with key. clearbody key. unfold bind at 1, on_txn.
  destruct (get_session st N core now key t) as [[[i| |]|] t']; cbn [session_post] in Hwp.
  - destruct Hwp as (S' & Hr' & Hk & HS').
    destruct (sess_id_to_ext_tuple (cfg st) i (k_proto key)) as [ip port] eqn:Et.
    unfold nat_pkt_action. rewrite (proj2 (Z.eqb_neq _ _) Hdev). cbn -[sess_id_to_ext_tuple].
    split; [by rewrite fn_lookup_insert|]. left. exists S', i. split; [done|]. split; [by split|].
    rewrite Et. do 2 (split; [done|]). intros k' i' Hk' Ep Et'.
    destruct Hr' as (A & f & Hp & Ht).
    destruct (table_range st N core Hcore _ _ _ _ _ _ Hp Ht Hk) as [_ Hri].
    destruct (table_range st N core Hcore _ _ _ _ _ _ Hp Ht Hk') as [_ Hri'].
    pose proof (usable_range st N core Hcore ltac:(lia)) as Hu.
    pose proof (tuple_roundtrip (B := B) (cfg st) Hok (k_proto key) i ltac:(lia)) as H1.
    pose proof (tuple_roundtrip (B := B) (cfg st) Hok (k_proto k') i' ltac:(lia)) as H2.
    rewrite Et in H1. rewrite Et' in H2. destruct H1 as (_ & _ & H1), H2 as (_ & _ & H2).
    apply (it_inj _ _ _ (table_keys _ _ _ _ Ht) _ _ i); [|done].
    rewrite Hk'. f_equal. rewrite <- H1, <- H2. unfold ext_tuple_to_sess_id, index_base. by rewrite Ep.
  - cbn. split; [by rewrite fn_lookup_insert|]. right. by destruct Hwp as (? & ? & ?).
  - cbn. by destruct Hwp as (_ & ? & ?).
  - done.
Qed.

(** ** Witnesses: two cores, four external ports *)

Definition nat_txn : Type :=
  (snap_txn (nfos_map_entry session) * snap_txn session_data_t) *
  (snap_txn nfos_dchain_cell * snap_txn nfos_dchain_cell).

Definition ex_cfg : nf_config :=
  NatConfig 1 3735928559 1 1200000 (fun _ => no_mac) (fun _ => no_mac) 1024 1027 4.

Definition ex_nat : nf_state nat_txn := {|
  cfg := ex_cfg;
  session_map := {| map_entries := lens_mem (fst_lens (fst_lens self_lens)); map_key_size := 8;
                    map_capacity := 4; map_keys_eq := session_equal;
                    map_khash := session_hash (B := ex_frame) |};
  session_data := {| elems := lens_mem (fst_lens (snd_lens self_lens)); elem_size := 16; capacity := 8 |};
  sess_indexes_tcp := lens_mem (snd_lens (fst_lens self_lens));
  sess_indexes_udp := lens_mem (snd_lens (snd_lens self_lens))
|}.

#[local] Instance ex_nat_config : MapConfig (session_map ex_nat).
Proof.
  apply (Build_MapConfig _ _ _ (session_map ex_nat) 2); [lia|done| |].
  - intros k. apply (crc32si_range (B := ex_frame)).
  - intros [a b c] [a' b' c']. cbn. unfold session_equal. cbn.
    rewrite !andb_true_iff, !Z.eqb_eq. naive_solver.
Defined.
#[local] Instance ex_nat_disjoint : NatDisjoint ex_nat.
Proof. split; cbn; apply _. Qed.

Definition ex_nat_txn : nat_txn :=
  ((SnapTxn (fun _ => MapEntry 0 0 0 0 (SessionKey 0 0 0)) ∅ (fun _ => false),
    SnapTxn (fun _ => SessionData 0 0 0) ∅ (fun _ => false)), (ex_txn, ex_txn)).

Lemma ex_cfg_ok : config_ok ex_cfg.
Proof. split; cbn; lia. Qed.

Lemma ex_nat_rep : nat_rep ex_nat 2 ex_nat_txn ∅.
Proof.
  exists (fun _ => ∅), (fun _ => SessionData 0 0 0). split.
  - split.
    + by apply map_inv_empty.
    + by intros i.
    + intros p. split; [lia|]. exists (fun _ => []). split.
      2: { intros i. split; [by intros ?%not_elem_of_empty|by intros [c ?%not_elem_of_nil]]. }
      unfold sess_indexes. destruct (p =? PROTO_TCP); exact ex_rep.
  - split.
    + apply index_table_empty.
    + done.
Qed.

(** A TCP packet from 10.0.0.1:80, with the given time to live. *)
Definition ex_pkt (ttl : Z) : pkt_t ex_frame :=
  Pkt 60 (Ether no_mac no_mac) (Some (Ipv4 0 ttl 6 167772161 134744072)) (Some (TcpUdp 20480 13568)) None
    (ExFrame (Ether no_mac no_mac) None None (fun _ => 0)).

Definition ex_manager : pkt_set_manager pkt_set_id_t Z :=
  Manager (fun _ => ConcDchain.ConcCell 0 0 0 0 (FlowId 0 0 0 0 0) 0) (ConcMap.CMap (fun _ => 0) 0 0)
    (fun _ => 5) 0 false (fun _ => LogEntry false (FlowId 0 0 0 0 0) 0).

Definition ex_run (ttl : Z) :=
  pkt_handler ex_nat 2 0 7 0 3 (NfMem (ex_pkt ttl) 0 ex_manager, ex_nat_txn).

Lemma ext_tuple_roundtrip_witness :
  sess_id_to_ext_tuple (B := ex_frame) ex_cfg 6 17 = (4022250974, 516) /\
  let (ip, port) := sess_id_to_ext_tuple (B := ex_frame) ex_cfg 6 17 in
  external_addr ex_cfg <= bswap32 ip < external_addr ex_cfg + num_external_addrs ex_cfg /\
  external_port_low ex_cfg <= bswap16 port <= external_port_high ex_cfg /\
  ext_tuple_to_sess_id (B := ex_frame) ex_cfg ip port 17 = 6.
Proof.
  split; [vm_compute; reflexivity|].
  apply (ext_tuple_roundtrip (B := ex_frame) ex_nat 6 17 ex_cfg_ok). cbn. lia.
Defined.

Lemma nat_pkt_handler_spec_witness :
  match ex_run 64 with
  | (Some Returned, (m', _)) => (ipv4_header (nf_packet m'), nf_dst_device m') =
      (Some (Ipv4 0 64 6 4022250974 134744072), 1)
  | _ => False
  end /\
  nat_handled ex_nat 2 0 3 (NfMem (ex_pkt 64) 0 ex_manager) ex_nat_txn ∅ (ex_run 64).
Proof.
  split; [vm_compute; reflexivity|].
  apply (nat_pkt_handler_spec ex_nat 2 0 7 0 3 (NfMem (ex_pkt 64) 0 ex_manager) ex_nat_txn ∅
    ltac:(lia) ex_cfg_ok ltac:(discriminate) ex_nat_rep).
Defined.

(** *** Where the code does not do what it means to *)

(** A packet whose time to live has run out is logged as dropped and sent. *)
Lemma expired_ttl_sent :
  match ex_run 1 with
  | (Some Returned, (m', _)) => nf_dst_device m' = 1
  | _ => False
  end.
Proof. vm_compute. reflexivity. Qed.
