(* ===== verification/SessList.v ===== *)
(** * The lists of sessions of src/nf/ei-nat/main.c

    The sessions of a user are the nodes of a doubly linked list; the list's
    head is a node of the user's own data, which the others call
    SESS_LIST_HEAD.  A list is described here by the node each index names
    ([h]), with the head under the index SESS_LIST_HEAD. *)

From S2P Require Import Prelude Links.
Open Scope Z_scope.

Definition SESS_LIST_HEAD : Z := -1.

Record sess_list_node_t := SessNode { n_next : Z; n_prev : Z }.

Definition set_next (v : Z) (n : sess_list_node_t) : sess_list_node_t := SessNode v (n_prev n).
Definition set_prev (v : Z) (n : sess_list_node_t) : sess_list_node_t := SessNode (n_next n) v.

(** The nodes after the assignments that insert node [x] behind the head, and
    those that take it out. *)
Definition insert_front (x : Z) (h : Z -> sess_list_node_t) : Z -> sess_list_node_t :=
  let first := n_next (h SESS_LIST_HEAD) in
  let h := <[x := SessNode first SESS_LIST_HEAD]> h in
  let h := <[first := set_prev x (h first)]> h in
  <[SESS_LIST_HEAD := set_next x (h SESS_LIST_HEAD)]> h.

Definition extract (x : Z) (h : Z -> sess_list_node_t) : Z -> sess_list_node_t :=
  let (next, prev) := h x in
  let h := <[prev := set_next next (h prev)]> h in
  <[next := set_prev prev (h next)]> h.

(** The list of the nodes [l], from the head on, in both directions. *)
Record ring (h : Z -> sess_list_node_t) (l : list Z) : Prop := {
  ring_nodup : NoDup (SESS_LIST_HEAD :: l);
  ring_next : path (fun i => n_next (h i)) SESS_LIST_HEAD l SESS_LIST_HEAD;
  ring_prev : path (fun i => n_prev (h i)) SESS_LIST_HEAD (reverse l) SESS_LIST_HEAD
}.

Lemma ring_ext h h' l :
  (forall i, i ∈ SESS_LIST_HEAD :: l -> h' i = h i) -> ring h l -> ring h' l.
Proof.
  intros E [Hnd Hn Hp]. split; [done| |].
  - eapply path_ext; [|exact Hn]. intros i Hi. cbn. by rewrite E.
  - eapply path_ext; [|exact Hp]. intros i Hi. cbn. rewrite E; [done|].
    by rewrite elem_of_cons, <- elem_of_reverse, <- elem_of_cons.
Qed.

Lemma ring_empty h : h SESS_LIST_HEAD = SessNode SESS_LIST_HEAD SESS_LIST_HEAD -> ring h [].
Proof. intros E. split; cbn; [apply NoDup_singleton|by rewrite E|by rewrite E]. Qed.

(** The first node of a list. *)
Lemma sess_ring_first h l : ring h l -> n_next (h SESS_LIST_HEAD) = default SESS_LIST_HEAD (hd_error l).
Proof. intros [_ Hn _]. by apply path_first in Hn. Qed.

(** The neighbours of a node. *)
Lemma ring_neighbours h l1 x l2 :
  ring h (l1 ++ x :: l2) ->
  n_prev (h x) = lastof SESS_LIST_HEAD l1 /\ n_next (h x) = default SESS_LIST_HEAD (hd_error l2).
Proof.
  intros [_ Hn Hp]. split.
  - rewrite reverse_app, reverse_cons, <- app_assoc in Hp. apply path_app in Hp as [_ Hp].
    apply path_first in Hp. cbn in Hp. rewrite Hp. unfold lastof. by rewrite <- head_reverse.
  - apply path_app in Hn as [_ Hn]. by apply path_first in Hn.
Qed.

(** The node that has the head before it is the first. *)
Lemma ring_at_front h l1 x l2 :
  ring h (l1 ++ x :: l2) -> n_prev (h x) = SESS_LIST_HEAD <-> l1 = [].
Proof.
  intros Hr. destruct (ring_neighbours _ _ _ _ Hr) as [-> _]. split; [|by intros ->].
  intros Hl. destruct l1 as [|y l1]; [done|exfalso].
  pose proof (ring_nodup _ _ Hr) as [Hn _]%NoDup_cons. apply Hn.
  assert (lastof SESS_LIST_HEAD (y :: l1) ∈ y :: l1) as Hin.
  { unfold lastof. destruct (last (y :: l1)) as [z|] eqn:E; [|by apply last_None in E].
    by apply last_Some_elem_of in E. }
  rewrite Hl in Hin. apply elem_of_app. by left.
Qed.

Lemma ring_insert h l x : ring h l -> x ∉ SESS_LIST_HEAD :: l -> ring (insert_front x h) (x :: l).
Proof.
  intros Hr Hx. pose proof Hr as [Hnd Hn Hp]. pose proof (sess_ring_first _ _ Hr) as Ef.
  apply not_elem_of_cons in Hx as [Hxh Hxl]. pose proof Hnd as [Hhl Hndl]%NoDup_cons.
  assert (x <> n_next (h SESS_LIST_HEAD)) as Hxf.
  { rewrite Ef. destruct l; [done|]. intros ->. apply Hxl. by left. }
  split.
  - apply NoDup_cons. split; [|by apply NoDup_cons]. apply not_elem_of_cons. by split.
  - cbn [path]. unfold insert_front. rewrite fn_lookup_insert. split; [done|].
    apply (path_restart (fun i => n_next (h i)) _ SESS_LIST_HEAD); [| |done].
    + intros y Hy. assert (SESS_LIST_HEAD <> y) by (by intros <-). assert (x <> y) by (by intros <-).
      rewrite fn_lookup_insert_ne by done. rewrite fn_insert_dec. case_decide as E; [|by rewrite fn_lookup_insert_ne].
      subst y. unfold set_prev. cbn. by rewrite fn_lookup_insert_ne.
    + cbn. rewrite fn_lookup_insert_ne by done.
      rewrite fn_lookup_insert_ne by done. by rewrite fn_lookup_insert.
  - rewrite reverse_cons. apply path_snoc. unfold insert_front. split.
    + apply (path_redirect (fun i => n_prev (h i)) _ _ _ SESS_LIST_HEAD); [|done| |].
      * apply NoDup_cons. rewrite elem_of_reverse. split; [done|]. by rewrite reverse_Permutation.
      * intros y Hy Hl. assert (x <> y) as Hxy.
        { intros <-. apply elem_of_cons in Hy as [?|Hy]; [done|]. by rewrite elem_of_reverse in Hy. }
        assert (n_next (h SESS_LIST_HEAD) <> y) as Hne.
        { intros <-. apply Hl. rewrite Ef. unfold lastof. rewrite <- head_reverse, reverse_involutive. done. }
        rewrite fn_insert_dec. case_decide as E; [subst y; cbn [n_prev n_next set_next set_prev]|];
          by rewrite !fn_lookup_insert_ne by done.
      * assert (lastof SESS_LIST_HEAD (reverse l) = n_next (h SESS_LIST_HEAD)) as ->.
        { rewrite Ef. unfold lastof. by rewrite <- head_reverse, reverse_involutive. }
        rewrite fn_insert_dec. case_decide as E; [rewrite <- E; cbn [n_prev n_next set_next set_prev]|]; by rewrite fn_lookup_insert.
    + rewrite fn_lookup_insert_ne by done. rewrite fn_lookup_insert_ne by done.
      by rewrite fn_lookup_insert.
Qed.

Lemma ring_extract h l1 x l2 : ring h (l1 ++ x :: l2) -> ring (extract x h) (l1 ++ l2).
Proof.
  intros Hr. pose proof Hr as [Hnd Hn Hp]. destruct (ring_neighbours _ _ _ _ Hr) as [Ep En].
  unfold extract. destruct (h x) as [next prev] eqn:Eh. cbn in Ep, En.
  assert (NoDup (SESS_LIST_HEAD :: (l1 ++ l2))) as Hnd'.
  { apply NoDup_cons in Hnd as [Hh Hnd]. apply NoDup_cons. split.
    - rewrite elem_of_app in Hh |- *. rewrite elem_of_cons in Hh. tauto.
    - apply NoDup_app in Hnd as (H1 & H12 & [_ H2]%NoDup_cons). apply NoDup_app.
      split; [done|]. split; [|done]. intros y Hy1 Hy2. apply (H12 y Hy1). by right. }
  split; [done| |].
  - apply (path_remove (fun i => n_next (h i)) _ _ l1 x l2); [done|done| |].
    + rewrite <- Ep, fn_insert_dec. rewrite Eh. case_decide as E; [rewrite <- E; cbn [n_prev n_next set_next set_prev]|];
        by rewrite fn_lookup_insert.
    + intros y Hy Hl. rewrite <- Ep in Hl. rewrite fn_insert_dec.
      case_decide as E; [subst y; cbn [n_prev n_next set_next set_prev]|]; by rewrite fn_lookup_insert_ne.
  - rewrite reverse_app in Hp |- *. rewrite reverse_cons, <- app_assoc in Hp.
    apply (path_remove (fun i => n_prev (h i)) _ _ (reverse l2) x (reverse l1)); [|exact Hp| |].
    + apply NoDup_cons in Hnd as [Hh Hnd]. apply NoDup_cons.
      assert (reverse l2 ++ x :: reverse l1 = reverse (l1 ++ x :: l2)) as ->
        by (by rewrite reverse_app, reverse_cons, <- app_assoc).
      rewrite elem_of_reverse. split; [done|]. by rewrite reverse_Permutation.
    + rewrite Eh. assert (lastof SESS_LIST_HEAD (reverse l2) = next) as ->.
      { rewrite En. unfold lastof. by rewrite <- head_reverse, reverse_involutive. }
      by rewrite fn_lookup_insert.
    + intros y Hy Hl. assert (next <> y) as Hne.
      { intros <-. apply Hl. rewrite En. unfold lastof. by rewrite <- head_reverse, reverse_involutive. }
      rewrite fn_lookup_insert_ne by done. rewrite fn_insert_dec.
      case_decide as E; [by subst y|done].
Qed.

(** Taking a node out leaves the node itself alone. *)
Lemma extract_self h l1 x l2 : ring h (l1 ++ x :: l2) -> extract x h x = h x.
Proof.
  intros Hr. pose proof (ring_nodup _ _ Hr) as Hnd. destruct (ring_neighbours _ _ _ _ Hr) as [Ep En].
  unfold extract. destruct (h x) as [next prev] eqn:Eh. cbn in Ep, En.
  assert (x ∉ SESS_LIST_HEAD :: l1 ++ l2) as Hx.
  { apply NoDup_cons in Hnd as [Hh Hnd]. apply NoDup_app in Hnd as (_ & H12 & [H2 _]%NoDup_cons).
    rewrite elem_of_cons, elem_of_app. intros [->|[H1|?]]; [|apply (H12 x H1); by left|done].
    apply Hh, elem_of_app. right. by left. }
  rewrite fn_lookup_insert_ne, fn_lookup_insert_ne; [done| |].
  - intros <-. apply Hx. rewrite Ep. pose proof (lastof_in SESS_LIST_HEAD l1) as Hin.
    rewrite elem_of_cons in Hin |- *. rewrite elem_of_app. tauto.
  - intros <-. apply Hx. rewrite En. destruct l2; cbn; [by left|]. right. apply elem_of_app. right. by left.
Qed.

(** Nodes that are not on the list do not change. *)
Lemma first_in h l : ring h l -> n_next (h SESS_LIST_HEAD) ∈ SESS_LIST_HEAD :: l.
Proof. intros Hr. rewrite (sess_ring_first _ _ Hr). destruct l; cbn; [by left|right; by left]. Qed.

Lemma insert_front_other h l x y :
  ring h l -> y ∉ SESS_LIST_HEAD :: l -> y <> x -> insert_front x h y = h y.
Proof.
  intros Hr Hy Hne. unfold insert_front.
  assert (n_next (h SESS_LIST_HEAD) <> y) by (intros <-; by apply Hy, first_in).
  assert (SESS_LIST_HEAD <> y) by (intros <-; apply Hy; by left).
  by rewrite !fn_lookup_insert_ne by done.
Qed.

Lemma neighbours_in h l1 x l2 :
  ring h (l1 ++ x :: l2) ->
  n_next (h x) ∈ SESS_LIST_HEAD :: l1 ++ l2 /\ n_prev (h x) ∈ SESS_LIST_HEAD :: l1 ++ l2.
Proof.
  intros Hr. destruct (ring_neighbours _ _ _ _ Hr) as [-> ->]. split.
  - destruct l2; cbn; [by left|]. right. apply elem_of_app. right. by left.
  - pose proof (lastof_in SESS_LIST_HEAD l1) as Hin. rewrite elem_of_cons in Hin |- *.
    rewrite elem_of_app. tauto.
Qed.

Lemma extract_other h l1 x l2 y :
  ring h (l1 ++ x :: l2) -> y ∉ SESS_LIST_HEAD :: l1 ++ l2 -> extract x h y = h y.
Proof.
  intros Hr Hy. destruct (neighbours_in _ _ _ _ Hr) as [Hn Hp]. unfold extract.
  destruct (h x) as [next prev]. cbn in Hn, Hp.
  assert (next <> y) by (by intros <-). assert (prev <> y) by (by intros <-).
  by rewrite !fn_lookup_insert_ne by done.
Qed.
