(* ===== verification/StaticMapping.v ===== *)
(** * Static mappings of the NAT

    src/nf/ei-nat/static_mapping.c and static_mapping.h (src/nf/fw-nat has
    the same files and does not use them).  A static mapping replaces the
    source of the packets of one internal address, port and protocol.  The
    mappings are elements of a vector; Vigor's map (file VigMap) leads from a
    64-bit key to the mapping's index. *)

From S2P Require Import Prelude Rlu Vector VigMap.
Open Scope Z_scope.

Record nat_static_mapping_t := StaticMapping {
  fib_index : Z;
  local_address : Z;
  is_addr_only_static_mapping : bool;
  local_port : Z
}.

Definition init_nat_k (ip4_addr port fib_index proto : Z) : Z :=
  Z.lor (Z.lor (Z.lor (u64 (Z.shiftl ip4_addr 32)) (u64 (Z.shiftl port 16)))
           (u32 (Z.shiftl fib_index 3)))
    (Z.land proto 7).

Definition static_mapping_null_init (_ : nat_static_mapping_t) : nat_static_mapping_t :=
  StaticMapping 0 0 false 0.

Definition key_equal (k1 k2 : Z) : bool := k1 =? k2.

Definition key_hash (a : Z) : Z := Z.land (u64 (Z.shiftr a 32 + a)) 4294967295.

(** [None]: 0, no mapping. *)
Definition nat_static_mapping_match {T} (mapping_hash : Vig.Map Z)
    (static_mappings : NfosVector T nat_static_mapping_t)
    (match_addr match_port match_fib_index match_protocol : Z) : M T (option (Z * Z * Z)) :=
  let key := init_nat_k match_addr match_port match_fib_index match_protocol in
  match Vig.map_get mapping_hash key with
  | None => ret None
  | Some index =>
      let! one_mapping := nfos_vector_borrow_t static_mappings index in
      ret (Some (local_address one_mapping,
                 if is_addr_only_static_mapping one_mapping then match_port else local_port one_mapping,
                 fib_index one_mapping))
  end.

(** The mappings and the map; [ok]: whether the allocations succeed, the
    first two are the vector's; [gm]: the contents of the map's fresh
    arrays.  [None]: 0. *)
Definition nat_static_mapping_init (ok : nat -> bool) (alloc uninit : Z -> nat_static_mapping_t)
    (gm : Vig.Map Z) (num : Z) : option ((Z -> nat_static_mapping_t) * Vig.Map Z) :=
  match nfos_vector_allocate_t (ok 0%nat) (ok 1%nat) alloc uninit 12 num static_mapping_null_init with
  | None => None
  | Some v =>
      match Vig.map_allocate (fun i => ok (2 + i)%nat) (Vig.busybits gm) (Vig.khs gm) (Vig.chns gm)
              (Vig.vals gm) (Vig.keyps gm) key_equal key_hash num with
      | None => None
      | Some map => Some (m_elems v, map)
      end
  end.

(** ** Keys *)

Lemma lor_shift a b k : 0 <= k -> 0 <= b < 2 ^ k -> Z.lor (Z.shiftl a k) b = a * 2 ^ k + b.
Proof.
  intros Hk Hb. rewrite <- Z.shiftl_mul_pow2 by lia.
  pose proof (Z.add_lor_land (Z.shiftl a k) b) as E.
  assert (Z.land (Z.shiftl a k) b = 0) as E0; [|lia].
  apply Z.bits_inj'. intros n Hn. rewrite Z.land_spec, Z.bits_0, Z.shiftl_spec by done.
  destruct (Z.ltb_spec n k) as [Hlt|Hge]; [by rewrite Z.testbit_neg_r by lia|].
  apply andb_false_intro2. destruct (decide (b = 0)) as [->|]; [apply Z.bits_0|].
  apply Z.bits_above_log2; [lia|]. apply Z.log2_lt_pow2; [lia|].
  assert (2 ^ k <= 2 ^ n) by (apply Z.pow_le_mono_r; lia). lia.
Qed.

(** The fields of a key lie side by side. *)
Lemma init_nat_k_eq ip port fib proto :
  0 <= ip < 2 ^ 32 -> 0 <= port < 2 ^ 16 -> 0 <= fib < 2 ^ 13 ->
  init_nat_k ip port fib proto = ip * 2 ^ 32 + (port * 2 ^ 16 + (fib * 2 ^ 3 + proto mod 8)).
Proof.
  intros Hip Hport Hfib. unfold init_nat_k. change 7 with (2 ^ 3 - 1). rewrite land_mask by lia.
  change (2 ^ 3) with 8 at 1. pose proof (Z.mod_pos_bound proto 8 ltac:(lia)) as Hp.
  rewrite u64_id, u64_id, u32_id by (rewrite Z.shiftl_mul_pow2 by lia; lia).
  rewrite <- !Z.lor_assoc, (lor_shift fib), (lor_shift port), (lor_shift ip) by lia. done.
Qed.

(** The keys of static mappings tell apart internal addresses, ports and
    (up to 2^13) forwarding tables, and of the protocol its last three bits:
    two flows share a key exactly when they agree on these. *)
Theorem init_nat_k_inj (ip port fib proto ip' port' fib' proto' : Z)
    (Hip : 0 <= ip < 2 ^ 32) (Hip' : 0 <= ip' < 2 ^ 32) (Hport : 0 <= port < 2 ^ 16)
    (Hport' : 0 <= port' < 2 ^ 16) (Hfib : 0 <= fib < 2 ^ 13) (Hfib' : 0 <= fib' < 2 ^ 13) :
  init_nat_k ip port fib proto = init_nat_k ip' port' fib' proto' <->
  ip = ip' /\ port = port' /\ fib = fib' /\ proto mod 8 = proto' mod 8.
Proof.
  rewrite !init_nat_k_eq by done.
  pose proof (Z.mod_pos_bound proto 8 ltac:(lia)). pose proof (Z.mod_pos_bound proto' 8 ltac:(lia)). lia.
Qed.

Lemma init_nat_k_inj_witness :
  init_nat_k 167772161 80 0 6 <> init_nat_k 167772161 81 0 6.
Proof.
  rewrite (init_nat_k_inj 167772161 80 0 6 167772161 81 0 6); lia.
Defined.

(** *** Where the code does not do what it means to *)

(** UDP and ICMP flows share their mappings. *)
Lemma udp_is_icmp ip port fib : init_nat_k ip port fib 17 = init_nat_k ip port fib 1.
Proof. reflexivity. Qed.

(** ** The map of the mappings *)

Lemma key_hash_range a : 0 <= key_hash a < 2 ^ 32.
Proof.
  unfold key_hash. change 4294967295 with (2 ^ 32 - 1). rewrite land_mask by lia.
  apply Z.mod_pos_bound. lia.
Qed.

Lemma key_equal_spec k k' : key_equal k k' = true <-> k = k'.
Proof. apply Z.eqb_eq. Qed.

(** Initialisation for [2 ^ lg] mappings fails for want of memory only, and
    leaves the map empty. *)
Lemma static_mapping_init_ok lg ok alloc uninit gm (Hlg : 0 <= lg <= 31) :
  match nat_static_mapping_init ok alloc uninit gm (2 ^ lg) with
  | Some (_, h) => vmap_rep key_hash key_equal lg h ∅ /\ forall i, (i < 8)%nat -> ok i = true
  | None => exists i, (i < 8)%nat /\ ok i = false
  end.
Proof.
  unfold nat_static_mapping_init, nfos_vector_allocate_t.
  destruct (ok 0%nat) eqn:E0; simpl; [|exists 0%nat; split; [lia|done]].
  destruct (ok 1%nat) eqn:E1; simpl; [|exists 1%nat; split; [lia|done]].
  pose proof (vmap_allocate key_hash key_equal lg Hlg (fun i => ok (2 + i)%nat) (Vig.busybits gm)
    (Vig.khs gm) (Vig.chns gm) (Vig.vals gm) (Vig.keyps gm)) as Ha.
  cbn [Nat.add] in Ha. destruct (Vig.map_allocate _ _ _ _ _ _ _ _ _) as [h|].
  - destruct Ha as [Hh Hok]. split; [done|]. intros [|[|i]] Hi; [done..|]. apply Hok. lia.
  - destruct Ha as (i & Hi & E). exists (S (S i)). split; [lia|done].
Qed.

(** A mapping that was put into the map replaces the source of the packets of
    its address, port, table and protocol, and of no others. *)
Lemma static_mapping_put {T} lg h kv (v : NfosVector T nat_static_mapping_t) ip port fib proto index t
    ip' port' fib' proto' (Hlg : 0 <= lg <= 31) (Hh : vmap_rep key_hash key_equal lg h kv)
    (Hk : kv !! init_nat_k ip port fib proto = None) (Hroom : Z.of_nat (size kv) < 2 ^ lg) :
  let one := view (elems v) t index in
  nat_static_mapping_match (Vig.map_put h (init_nat_k ip port fib proto) index) v
    ip' port' fib' proto' t =
  if decide (init_nat_k ip port fib proto = init_nat_k ip' port' fib' proto') then
    (Some (Some (local_address one,
       if is_addr_only_static_mapping one then port' else local_port one, fib_index one)), t)
  else nat_static_mapping_match h v ip' port' fib' proto' t.
Proof.
  assert (forall k, Vig.map_get (Vig.map_put h (init_nat_k ip port fib proto) index) k =
    (<[init_nat_k ip port fib proto := index]> kv : gmap Z Z) !! k) as Hget.
  { intros k. apply (vmap_get key_hash key_equal lg Hlg key_equal_spec).
    apply (vmap_put key_hash key_equal lg Hlg); done. }
  unfold nat_static_mapping_match. rewrite Hget. case_decide as E.
  - rewrite <- E, lookup_insert_eq. done.
  - rewrite lookup_insert_ne by done. by rewrite (vmap_get key_hash key_equal lg Hlg key_equal_spec h kv).
Qed.

(** No function of the NATs puts a mapping into the map: after the
    initialisation no packet finds one. *)
Lemma no_static_mapping {T} lg ok alloc uninit gm v h (vec : NfosVector T nat_static_mapping_t)
    ip port fib proto (Hlg : 0 <= lg <= 31) :
  nat_static_mapping_init ok alloc uninit gm (2 ^ lg) = Some (v, h) ->
  nat_static_mapping_match h vec ip port fib proto = ret None.
Proof.
  intros E. pose proof (static_mapping_init_ok lg ok alloc uninit gm Hlg) as Hi. rewrite E in Hi.
  destruct Hi as [Hh _]. unfold nat_static_mapping_match.
  by rewrite (vmap_get key_hash key_equal lg Hlg key_equal_spec h ∅ _ Hh), lookup_empty.
Qed.
