(* ===== verification/ExpTable.v ===== *)
(** * Tables whose entries expire

    The bridge's table of MAC addresses and the load balancer's table of
    backends are built the same way: a map from keys to indexes, an allocator
    with expiration for the indexes, and two vectors that hold an entry's key
    and its value.  This file says what such a table holds, over the
    transaction, and gives the rules for the operations on it. *)

From stdpp Require Import gmap sorting relations.
From S2P Require Import Prelude Rlu Txn Vector NfosMap Links Dchain DchainExp Interfaces.
Open Scope Z_scope.

Section table.
Context {T K V : Type} `{RluTxn T, Countable K}.
Context (map : NfosMap T K) (keys : NfosVector T K) (vals : NfosVector T V) (heap : NfosDoubleChainExp T).
Context `{!RluLaws (map_entries map), !MapConfig map, !RluLaws (elems keys), !RluLaws (elems vals)}.
Context `{!RluLaws (cells heap)}.

Class TableDisjoint : Prop := {
  #[global] tm_keys :: RluIndep (map_entries map) (elems keys);
  #[global] tm_vals :: RluIndep (map_entries map) (elems vals);
  #[global] tm_heap :: RluIndep (map_entries map) (cells heap);
  #[global] tk_map :: RluIndep (elems keys) (map_entries map);
  #[global] tk_vals :: RluIndep (elems keys) (elems vals);
  #[global] tk_heap :: RluIndep (elems keys) (cells heap);
  #[global] tv_map :: RluIndep (elems vals) (map_entries map);
  #[global] tv_keys :: RluIndep (elems vals) (elems keys);
  #[global] tv_heap :: RluIndep (elems vals) (cells heap);
  #[global] th_map :: RluIndep (cells heap) (map_entries map);
  #[global] th_keys :: RluIndep (cells heap) (elems keys);
  #[global] th_vals :: RluIndep (cells heap) (elems vals)
}.
Context `{!TableDisjoint}.
Variable (usable : Z).
Let N : Z := num_free_lists heap.
Hypothesis (HN : 0 < N).

Definition table_step (t t' : T) : Prop :=
  mem_step (map_entries map) t t' \/ mem_step (elems keys) t t' \/ mem_step (elems vals) t t' \/
  mem_step (cells heap) t t'.
Definition table_steps : T -> T -> Prop := rtc table_step.

#[export] Instance table_steps_rel : TxnRel table_steps.
Proof.
  split; [apply rtc_po|]. induction 1 as [|t t1 t2 Hs _ IH]; [done|]. intros Hf. apply IH.
  destruct Hs as [Hs|[Hs|[Hs|Hs]]]; apply rtc_once in Hs; by apply (txn_free _ _ Hs).
Qed.
#[export] Instance tmap_sub : SubRel (mem_steps (map_entries map)) table_steps.
Proof. intros t t'. apply rtc_subrel. unfold table_step. auto. Qed.
#[export] Instance tkeys_sub : SubRel (mem_steps (elems keys)) table_steps.
Proof. intros t t'. apply rtc_subrel. unfold table_step. auto. Qed.
#[export] Instance tvals_sub : SubRel (mem_steps (elems vals)) table_steps.
Proof. intros t t'. apply rtc_subrel. unfold table_step. auto. Qed.
#[export] Instance theap_sub : SubRel (mem_steps (cells heap)) table_steps.
Proof. intros t t'. apply rtc_subrel. unfold table_step. auto. Qed.

(** Other memory does not change. *)
Lemma table_steps_view {O} (m : RluMem T O) `{!RluIndep (map_entries map) m, !RluIndep (elems keys) m}
    `{!RluIndep (elems vals) m, !RluIndep (cells heap) m} t t' l :
  table_steps t t' -> view m t' l = view m t l.
Proof using Type.
  induction 1 as [|t t1 t2 Hs _ IH]; [done|]. rewrite IH.
  destruct Hs as [Hs|[Hs|[Hs|Hs]]]; revert Hs; apply indep_view.
Qed.

(** What the four structures hold, and which keys and values are locked. *)
Record tparts (t : T) (I : gmap K Z) (ks : Z -> K) (lk : list Z) (vs : Z -> V) (lv : list Z)
    (al : Z -> list Z) (tm : Z -> Z) : Prop := {
  tp_map : map_rep map t I;
  tp_keys : holds (elems keys) t ks lk;
  tp_vals : holds (elems vals) t vs lv;
  tp_heap : exp_rep heap usable t al tm
}.

Lemma exp_framed {O} (m : RluMem T O) `{!RluIndep m (cells heap)} t t' al tm :
  mem_steps m t t' -> exp_rep heap usable t al tm -> exp_rep heap usable t' al tm.
Proof.
  intros Hs [Hr Ht]. pose proof (fun l => steps_view m (cells heap) t t' l Hs) as Hv. split.
  - apply (rep_ext _ usable HN (view (cells heap) t)); [|exact Hr]. intros x. by rewrite Hv.
  - intros i Hi. rewrite Hv. by apply Ht.
Qed.

Ltac tframe :=
  split; try done;
  match goal with
  | Hs : mem_steps ?m ?t ?t', Hh : exp_rep _ _ ?t _ _ |- exp_rep _ _ ?t' _ _ =>
      exact (exp_framed m t t' _ _ Hs Hh)
  | Hs : mem_steps ?m ?t ?t', Hh : holds ?m2 ?t _ _ |- holds ?m2 ?t' _ _ =>
      exact (indep_holds m m2 t t' _ _ Hs Hh)
  | _ => frame_step
  end.

Section rules.
Context (t : T) (I : gmap K Z) (ks : Z -> K) (lk : list Z) (vs : Z -> V) (lv : list Z).
Context (al : Z -> list Z) (tm : Z -> Z) (Hp : tparts t I ks lk vs lv al tm).

Lemma wp_tget k (Q : option Z -> T -> Prop) :
  Q (I !! k) t -> wp table_steps (nfos_map_get_t map k) t Q.
Proof. pose proof Hp as [Hm _ _ _]. intros HQ. apply (wp_on (mem_steps (map_entries map)) _). by eapply get_wp. Qed.

Lemma wp_tput k v (Q : bool -> T -> Prop) :
  I !! k = None -> Z.of_nat (size I) < map_capacity map ->
  (forall t', tparts t' (<[k := v]> I) ks lk vs lv al tm -> Q true t') ->
  wp table_steps (nfos_map_put_t map k v) t Q.
Proof.
  pose proof Hp as [Hm Hk Hv Hh]. intros HI Hsz HQ. apply (wp_on (mem_steps (map_entries map)) _).
  eapply put_wp; [done|done| |lia]. intros t' _ Hm' Hst. apply HQ. tframe.
Qed.

Lemma wp_terase k (Q : bool -> T -> Prop) :
  is_Some (I !! k) -> (forall t', tparts t' (delete k I) ks lk vs lv al tm -> Q true t') ->
  wp table_steps (nfos_map_erase_t map k) t Q.
Proof.
  pose proof Hp as [Hm Hk Hv Hh]. intros [v HI] HQ. apply (wp_on (mem_steps (map_entries map)) _).
  eapply erase_wp; [done| |congruence]. intros t' _ Hm' Hst. apply HQ. tframe.
Qed.

Lemma wp_tborrow i (Q : V -> T -> Prop) :
  Q (vs i) t -> wp table_steps (nfos_vector_borrow_t vals i) t Q.
Proof.
  pose proof Hp as [_ _ Hv _]. intros HQ. apply (wp_on (mem_steps (elems vals)) _). by apply (wp_borrow vals (mem_steps (elems vals)) _ _ _ _ _ Hv).
Qed.

Lemma wp_tborrow_key i (Q : K -> T -> Prop) :
  Q (ks i) t -> wp table_steps (nfos_vector_borrow_t keys i) t Q.
Proof.
  pose proof Hp as [_ Hk _ _]. intros HQ. apply (wp_on (mem_steps (elems keys)) _). by apply (wp_borrow keys (mem_steps (elems keys)) _ _ _ _ _ Hk).
Qed.

Lemma wp_tborrow_mut i (Q : Z -> T -> Prop) :
  (forall t', tparts t' I ks lk vs (i :: lv) al tm -> Q i t') ->
  wp table_steps (nfos_vector_borrow_mut_t vals i) t Q.
Proof.
  pose proof Hp as [Hm Hk Hv Hh]. intros HQ. apply (wp_on (mem_steps (elems vals)) _).
  eapply (wp_borrow_mut vals (mem_steps (elems vals))); [exact Hv|]. intros t' Hv' Hst. apply HQ. tframe.
Qed.

Lemma wp_tborrow_mut_key i (Q : Z -> T -> Prop) :
  (forall t', tparts t' I ks (i :: lk) vs lv al tm -> Q i t') ->
  wp table_steps (nfos_vector_borrow_mut_t keys i) t Q.
Proof.
  pose proof Hp as [Hm Hk Hv Hh]. intros HQ. apply (wp_on (mem_steps (elems keys)) _).
  eapply (wp_borrow_mut keys (mem_steps (elems keys))); [exact Hk|]. intros t' Hk' Hst. apply HQ. tframe.
Qed.

Lemma wp_tmodify i g (Q : unit -> T -> Prop) :
  i ∈ lv -> (forall t', tparts t' I ks lk (<[i := g (vs i)]> vs) lv al tm -> Q tt t') ->
  wp table_steps (modify (elems vals) i g) t Q.
Proof.
  pose proof Hp as [Hm Hk Hv Hh]. intros Hi HQ. apply (wp_on (mem_steps (elems vals)) _).
  eapply (wp_modify (elems vals) (mem_steps (elems vals))); [exact Hv|done|]. intros t' Hv' Hst. apply HQ. tframe.
Qed.

Lemma wp_tmodify_key i g (Q : unit -> T -> Prop) :
  i ∈ lk -> (forall t', tparts t' I (<[i := g (ks i)]> ks) lk vs lv al tm -> Q tt t') ->
  wp table_steps (modify (elems keys) i g) t Q.
Proof.
  pose proof Hp as [Hm Hk Hv Hh]. intros Hi HQ. apply (wp_on (mem_steps (elems keys)) _).
  eapply (wp_modify (elems keys) (mem_steps (elems keys))); [exact Hk|done|]. intros t' Hk' Hst. apply HQ. tframe.
Qed.

Lemma wp_tallocate c now (Q : option Z -> T -> Prop) :
  0 <= c < N ->
  (forall t' i, 0 <= i < usable -> ~ is_allocated al i ->
     tparts t' I ks lk vs lv (<[c := al c ++ [i]]> al) (<[i := expiry_time now (validity_duration heap)]> tm) ->
     Q (Some i) t') ->
  (forall t', (forall i, 0 <= i < usable -> is_allocated al i) -> tparts t' I ks lk vs lv al tm ->
     Q None t') ->
  wp table_steps (nfos_dchain_exp_allocate_new_index_t heap c now) t Q.
Proof.
  pose proof Hp as [Hm Hk Hv Hh]. intros Hc HQ HQ'. apply (wp_on (mem_steps (cells heap)) _).
  eapply (wp_exp_allocate heap usable (mem_steps (cells heap))); [done|done|done| |].
  - intros t' i Hi Hn Hh' Hst. apply HQ; [done|done|]. tframe.
  - intros t' Hall Hh' Hst. apply HQ'; [done|]. tframe.
Qed.

Lemma wp_trejuvenate i now (Q : bool -> T -> Prop) :
  0 <= i < usable -> is_allocated al i ->
  (forall d l1 l2 t', al d = l1 ++ i :: l2 ->
     tparts t' I ks lk vs lv (<[d := l1 ++ l2 ++ [i]]> al) (<[i := expiry_time now (validity_duration heap)]> tm) ->
     Q true t') ->
  wp table_steps (nfos_dchain_exp_rejuvenate_index_t heap i now) t Q.
Proof.
  pose proof Hp as [Hm Hk Hv Hh]. intros Hi Ha HQ. apply (wp_on (mem_steps (cells heap)) _).
  eapply (wp_rejuvenate heap usable (mem_steps (cells heap))); [done|done|done| |done].
  intros d l1 l2 t' E Hh' Hst. eapply HQ; [done|]. tframe.
Qed.

Lemma wp_texpire c now (Q : expire_result -> T -> Prop) :
  0 <= c < N ->
  (forall i l t', al c = i :: l -> tm i < now -> tparts t' I ks lk vs lv (<[c := l]> al) tm ->
     Q (Expired (Some i) c false) t') ->
  ((forall i l, al c = i :: l -> now <= tm i) -> Q (next_free_list heap c) t) ->
  wp table_steps (nfos_dchain_exp_expire_one_index_t heap c now) t Q.
Proof.
  pose proof Hp as [Hm Hk Hv Hh]. intros Hc HQ HQ'. apply (wp_on (mem_steps (cells heap)) _).
  eapply (wp_expire_one heap usable (mem_steps (cells heap))); [done|done|done| |by intros ? _; apply HQ'].
  intros i l t' E Hlt Hh' Hst. eapply HQ; [done|done|]. tframe.
Qed.

Lemma wp_tallocated i (Q : bool -> T -> Prop) :
  0 <= i < usable -> (is_allocated al i -> Q true t) -> (~ is_allocated al i -> Q false t) ->
  wp table_steps (nfos_dchain_exp_is_index_allocated_t heap i) t Q.
Proof.
  pose proof Hp as [Hm Hk Hv Hh]. intros Hi HQ HQ'. apply (wp_on (mem_steps (cells heap)) _).
  eapply (wp_is_index_allocated heap usable (mem_steps (cells heap))); [done|done|done|by intros ? _; apply HQ|by intros ? _; apply HQ'].
Qed.
End rules.

(** ** The table as a finite map *)

Let dur : Z := validity_duration heap.

(** Up to time [now] the table holds [S]: every key with its value and the
    time at which it expires.  Its rings are in the order of expiry as long as
    expiry times fit into int64_t. *)
Record table_ok (now : Z) (I : gmap K Z) (ks : Z -> K) (vs : Z -> V) (al : Z -> list Z) (tm : Z -> Z)
    (S : gmap K (V * Z)) : Prop := {
  tb_index i : is_allocated al i <-> exists k, I !! k = Some i;
  tb_key k i : I !! k = Some i -> ks i = k;
  tb_entry k : S !! k = (fun i => (vs i, tm i)) <$> I !! k;
  tb_clock : - 2 ^ 63 <= now + dur;
  tb_sorted : now + dur < 2 ^ 63 -> exp_sorted dur now (ExpState al tm)
}.

Definition table_rep (now : Z) (t : T) (S : gmap K (V * Z)) : Prop :=
  exists I ks lk vs lv al tm, tparts t I ks lk vs lv al tm /\ table_ok now I ks vs al tm S.

Lemma tb_inj now I ks vs al tm S k k' i :
  table_ok now I ks vs al tm S -> I !! k = Some i -> I !! k' = Some i -> k = k'.
Proof. intros Ht Hk Hk'. by rewrite <- (tb_key _ _ _ _ _ _ _ Ht _ _ Hk), (tb_key _ _ _ _ _ _ _ Ht _ _ Hk'). Qed.

Lemma tb_some now I ks vs al tm S k x :
  table_ok now I ks vs al tm S -> S !! k = Some x -> exists i, I !! k = Some i /\ x = (vs i, tm i).
Proof. intros Ht. rewrite (tb_entry _ _ _ _ _ _ _ Ht). destruct (I !! k); naive_solver. Qed.

Lemma tb_none now I ks vs al tm S k :
  table_ok now I ks vs al tm S -> S !! k = None <-> I !! k = None.
Proof. intros Ht. rewrite (tb_entry _ _ _ _ _ _ _ Ht). by rewrite fmap_None. Qed.

Lemma tb_later now now' I ks vs al tm S :
  now <= now' -> table_ok now I ks vs al tm S -> table_ok now' I ks vs al tm S.
Proof.
  intros Hle [Hi Hk He Hc Hs]. split; [done..|lia|]. intros Ht. eapply exp_sorted_later; [apply Hs; lia|done].
Qed.

Lemma tb_ext now I ks vs vs' al tm S :
  (forall i, vs' i = vs i) -> table_ok now I ks vs al tm S -> table_ok now I ks vs' al tm S.
Proof.
  intros E [Hi Hk He Hc Hs]. split; [done|done| |done..]. intros k. rewrite He.
  destruct (I !! k); [|done]. cbn. by rewrite E.
Qed.

Lemma tb_size now I ks vs al tm S : table_ok now I ks vs al tm S -> size S = size I.
Proof.
  intros Ht. assert (S = (fun i => (vs i, tm i)) <$> I) as ->; [|apply map_size_fmap].
  apply map_eq. intros k. rewrite lookup_fmap. apply (tb_entry _ _ _ _ _ _ _ Ht).
Qed.

(** The indexes in use. *)
Lemma tb_indexes now I ks vs al tm S :
  table_ok now I ks vs al tm S -> exists l,
  NoDup l /\ length l = size S /\ forall i, i ∈ l <-> is_allocated al i.
Proof.
  intros Ht. exists ((map_to_list I).*2). split; [|split].
  - apply NoDup_fmap_2_strong; [|apply NoDup_map_to_list].
    intros [k i] [k' i'] Hx Hx' E. cbn in E. subst i'.
    apply elem_of_map_to_list in Hx, Hx'. f_equal. by eapply tb_inj.
  - rewrite length_fmap, (tb_size _ _ _ _ _ _ _ Ht). apply length_map_to_list.
  - intros i. rewrite (tb_index _ _ _ _ _ _ _ Ht), list_elem_of_fmap. split.
    + intros ([k j] & -> & Hx%elem_of_map_to_list). by exists k.
    + intros [k Hk]. exists (k, i). by rewrite elem_of_map_to_list.
Qed.

Lemma tb_full now I ks vs al tm S :
  table_ok now I ks vs al tm S -> 0 <= usable -> (forall i, 0 <= i < usable -> is_allocated al i) ->
  usable <= Z.of_nat (size S).
Proof.
  intros Ht Hu Hall. destruct (tb_indexes _ _ _ _ _ _ _ Ht) as (l & Hnd & Hlen & Hl).
  assert (length (seqZ 0 usable) <= length l)%nat as Hle; [|rewrite length_seqZ, Hlen in Hle; lia].
  apply submseteq_length, NoDup_submseteq; [apply NoDup_seqZ|].
  intros i Hi%elem_of_seqZ. apply Hl, Hall. lia.
Qed.

Lemma tb_subset t I ks lk vs lv now al tm S l :
  tparts t I ks lk vs lv al tm -> table_ok now I ks vs al tm S -> (forall i, i ∈ l -> is_allocated al i) ->
  l ⊆ seqZ 0 usable.
Proof.
  intros Hp Ht Hl j Hj. destruct (tp_heap _ _ _ _ _ _ _ _ Hp) as [Hr _].
  pose proof (rep_range N usable _ al j Hr (Hl j Hj)). apply elem_of_seqZ. lia.
Qed.

Lemma tb_bound t I ks lk vs lv now al tm S :
  tparts t I ks lk vs lv al tm -> table_ok now I ks vs al tm S -> (size S <= Z.to_nat usable)%nat.
Proof.
  intros Hp Ht. destruct (tb_indexes _ _ _ _ _ _ _ Ht) as (l & Hnd & Hlen & Hl).
  assert (length l <= length (seqZ 0 usable))%nat as Hle; [|by rewrite length_seqZ, Hlen in Hle].
  apply submseteq_length, NoDup_submseteq; [done|].
  eapply tb_subset; [exact Hp|exact Ht|]. intros i. by apply Hl.
Qed.

Lemma tb_room t I ks lk vs lv now al tm S i :
  tparts t I ks lk vs lv al tm -> table_ok now I ks vs al tm S -> 0 <= i < usable ->
  ~ is_allocated al i -> Z.of_nat (size S) < usable.
Proof.
  intros Hp Ht Hi Hn. destruct (tb_indexes _ _ _ _ _ _ _ Ht) as (l & Hnd & Hlen & Hl).
  assert (length (i :: l) <= length (seqZ 0 usable))%nat as Hle; [|rewrite length_seqZ in Hle; cbn in Hle; lia].
  apply submseteq_length, NoDup_submseteq; [constructor; [|done]; by rewrite Hl|].
  intros j [->|Hj]%elem_of_cons; [apply elem_of_seqZ; lia|].
  eapply tb_subset; [exact Hp|exact Ht| |exact Hj]. intros x. by apply Hl.
Qed.

(** The table of structures that hold nothing. *)
Lemma table_empty t now tm : - 2 ^ 63 <= now + dur ->
  map_rep map t ∅ -> exp_rep heap usable t (fun _ => []) tm -> table_rep now t ∅.
Proof using Type.
  intros Hclock Hm He. exists ∅, (view (elems keys) t), [], (view (elems vals) t), [], (fun _ => []), tm.
  split; split.
  - done.
  - split; [done|by intros l ?%not_elem_of_nil].
  - split; [done|by intros l ?%not_elem_of_nil].
  - done.
  - intros i. split; [by intros [c ?%not_elem_of_nil]|]. by intros (k & Hk).
  - done.
  - done.
  - done.
  - intros _. split; cbn.
    + intros c. apply SSorted_nil.
    + by intros c i ?%not_elem_of_nil.
    + intros c. apply NoDup_nil_2.
    + by intros c d i ?%not_elem_of_nil.
Qed.

(** A new key, with index [i] from core [c]'s list. *)
Lemma tb_add c k v i now now' I ks vs al tm S :
  table_ok now I ks vs al tm S -> now <= now' -> S !! k = None -> 0 <= i < usable ->
  ~ is_allocated al i ->
  table_ok now' (<[k := i]> I) (<[i := k]> ks) (<[i := v]> vs) (<[c := al c ++ [i]]> al)
    (<[i := expiry_time now' dur]> tm) (<[k := (v, expiry_time now' dur)]> S).
Proof.
  intros Ht Hle Hk Hi Hn. pose proof Ht as [Hti Htk Hte Htc Hts].
  apply (tb_none _ _ _ _ _ _ _ _ Ht) in Hk as HI.
  assert (forall k', I !! k' <> Some i) as Hf.
  { intros k' Hk'. apply Hn, Hti. by exists k'. }
  split.
  - intros j. rewrite allocated_append, Hti. split.
    + intros [[k' Hk']| ->]; [exists k'; rewrite lookup_insert_ne; [done|congruence]|].
      exists k. by rewrite lookup_insert_eq.
    + intros [k' Hk']. apply lookup_insert_Some in Hk' as [[_ <-]|[_ Hk']]; eauto.
  - intros k' j. rewrite lookup_insert_Some, fn_insert_dec. intros [[<- <-]|[Hne Hk']].
    + by rewrite decide_True.
    + rewrite decide_False; [by apply Htk|]. intros <-. by apply (Hf k').
  - intros k'. destruct (decide (k = k')) as [<-|Hne].
    + rewrite !lookup_insert_eq. cbn. by rewrite !fn_lookup_insert.
    + rewrite !lookup_insert_ne by done. rewrite Hte. destruct (I !! k') as [j|] eqn:E; [|done].
      cbn. rewrite !fn_lookup_insert_ne; [done|..]; intros <-; by apply (Hf k').
  - lia.
  - intros Ht'. apply (exp_sorted_step dur N usable now (ExpState al tm) (OpAllocate c now') (OutIndex (Some i)));
      [apply Hts; lia|done|cbn; lia|by constructor].
Qed.

(** The key's index moves to the end of its ring; its value may be written. *)
Lemma tb_refresh d l1 l2 k v i now now' I ks vs al tm S :
  table_ok now I ks vs al tm S -> now <= now' -> I !! k = Some i -> al d = l1 ++ i :: l2 ->
  table_ok now' I ks (<[i := v]> vs) (<[d := l1 ++ l2 ++ [i]]> al)
    (<[i := expiry_time now' dur]> tm) (<[k := (v, expiry_time now' dur)]> S).
Proof.
  intros Ht Hle HI Hd. pose proof Ht as [Hti Htk Hte Htc Hts]. split.
  - intros j. rewrite <- Hti. by apply (allocated_move al d l1 i l2 j).
  - done.
  - intros k'. destruct (decide (k = k')) as [<-|Hne].
    + rewrite lookup_insert_eq, HI. cbn. by rewrite !fn_lookup_insert.
    + rewrite lookup_insert_ne by done. rewrite Hte. destruct (I !! k') as [j|] eqn:E; [|done].
      cbn. rewrite !fn_lookup_insert_ne; [done|..]; intros <-; by apply Hne, (tb_inj _ _ _ _ _ _ _ _ _ _ Ht HI).
  - lia.
  - intros Ht'. apply (exp_sorted_step dur N usable now (ExpState al tm) (OpRejuvenate i now') (OutDone true));
      [apply Hts; lia|done|cbn; lia|by constructor].
Qed.

(** The oldest index of a ring is given up. *)
Lemma tb_expire c i l now I ks vs al tm S :
  table_ok now I ks vs al tm S -> now + dur < 2 ^ 63 -> al c = i :: l -> tm i < now ->
  I !! ks i = Some i /\ S !! ks i = Some (vs i, tm i) /\
  table_ok now (delete (ks i) I) ks vs (<[c := l]> al) tm (delete (ks i) S).
Proof.
  intros Ht Htime Hc Hlt. pose proof Ht as [Hti Htk Hte Htc Hts']. pose proof (Hts' Htime) as Hts.
  assert (is_allocated al i) as Hi by (exists c; rewrite Hc; left).
  apply Hti in Hi as Hk. destruct Hk as [k Hk]. pose proof (Htk _ _ Hk) as E.
  rewrite E. split; [done|]. split; [by rewrite Hte, Hk|]. split.
  - intros j. pose proof (es_nodup _ _ _ Hts) as Hnd. pose proof (es_unique _ _ _ Hts) as Hu. cbn in Hnd, Hu.
    assert (is_allocated (<[c := l]> al) j <-> is_allocated al j /\ j <> i) as ->.
    { specialize (Hnd c). rewrite Hc in Hnd. apply NoDup_cons in Hnd as [Hil Hnl]. split.
      - intros [d Hd]. rewrite fn_insert_dec in Hd. case_decide as Ed.
        + subst d. split; [exists c; rewrite Hc; by right|by intros ->].
        + split; [by exists d|]. intros ->. apply Ed, (Hu c d i); [rewrite Hc; left|done].
      - intros [[d Hd] Hne]. exists d. rewrite fn_insert_dec. case_decide as Ed; [|done]. subst d.
        rewrite Hc in Hd. by apply elem_of_cons in Hd as [|]. }
    rewrite Hti. split.
    + intros [[k' Hk'] Hne]. exists k'. rewrite lookup_delete_ne; [done|]. congruence.
    + intros [k' Hk']. apply lookup_delete_Some in Hk' as [Hne Hk']. split; [by exists k'|].
      intros ->. by apply Hne, (tb_inj _ _ _ _ _ _ _ _ _ _ Ht Hk).
  - intros k' j. rewrite lookup_delete_Some. intros [_ ?]. by apply Htk.
  - intros k'. rewrite !lookup_delete. case_decide; [done|]. apply Hte.
  - done.
  - intros _. apply (exp_sorted_expire dur N usable now (ExpState al tm) c now
      (OutExpired (Expired (Some i) c false))); [done|done|by constructor].
Qed.
End table.

(** Apply a rule for an operation on the table described by a hypothesis. *)
Ltac trule rule := eapply rule; try typeclasses eauto; try eassumption.

(** ** The periodic expiry of the bridge and the load balancer *)

(** Memory the loop uses outside the transaction: curr_free_list of the
    allocator and the local variable expiration_done. *)
Record exp_mem := ExpMem { curr_free_list : Z; exp_done : bool }.

Section expiry.
Context {T K V : Type} `{RluTxn T, Countable K}.
Context (map : NfosMap T K) (keys : NfosVector T K) (heap : NfosDoubleChainExp T) (now : Z).

(** What a call of expire_one_index that returns leaves in the memory. *)
Definition exp_returned (r : expire_result) (m : exp_mem) : exp_mem :=
  ExpMem (curr_out r) (expiration_done r || exp_done m).

(** One iteration: the expired index, if any, loses its key. *)
Definition expire_iteration : M (exp_mem * T) unit :=
  let! curr := on_local (fun m => (curr_free_list m, m)) in
  let! r := on_txn (nfos_dchain_exp_expire_one_index_t heap curr now) in
  on_local (fun m => (tt, exp_returned r m)) ;;
  match index_out r with
  | Some index =>
      let! key := on_txn (nfos_vector_borrow_t keys index) in
      let! _ := on_txn (nfos_map_erase_t map key) in
      ret tt
  | None => ret tt
  end.

(** while (!expiration_done) { ... }; [false]: out of fuel. *)
Fixpoint expire_indexes (fuel : nat) : M (exp_mem * T) bool :=
  let! done := on_local (fun m => (exp_done m, m)) in
  if (done : bool) then ret true
  else match fuel with
       | O => ret false
       | S fuel => expire_iteration ;; expire_indexes fuel
       end.

(** From the label retry_exp on. *)
Definition exp_reset (m : exp_mem) : exp_mem :=
  ExpMem (nfos_dchain_exp_reset_curr_free_list (curr_free_list m)) (exp_done m).

Definition expire_txn {W} `{RluRuntime W T} (loop_fuel fuel : nat) (curr : Z) (w : W)
    : option (bool * (exp_mem * W)) :=
  run_txn exp_reset (fun m => m) (expire_indexes loop_fuel) fuel (ExpMem curr false) w.
End expiry.

Section expiry_spec.
Context {T K V : Type} `{RluTxn T, Countable K}.
Context (map : NfosMap T K) (keys : NfosVector T K) (vals : NfosVector T V) (heap : NfosDoubleChainExp T).
Context `{!RluLaws (map_entries map), !MapConfig map, !RluLaws (elems keys), !RluLaws (elems vals)}.
Context `{!RluLaws (cells heap), !TableDisjoint map keys vals heap}.
Variables (usable now : Z).
Hypothesis (HN : 0 < num_free_lists heap) (Htime : now + validity_duration heap < 2 ^ 63).
Abbreviation R := (table_steps map keys vals heap).
Abbreviation tp := (tparts map keys vals heap usable).
Abbreviation tok := (table_ok heap).

(** The entries that have not expired. *)
Definition live (S : gmap K (V * Z)) : gmap K (V * Z) := filter (fun kx => now <= kx.2.2) S.

Lemma live_delete S k x : S !! k = Some x -> x.2 < now -> live (delete k S) = live S.
Proof.
  intros Hk Hx. apply map_eq. intros k'. apply option_eq. intros y. unfold live.
  rewrite !map_lookup_filter_Some, lookup_delete_Some. cbn. split; [tauto|].
  intros [Hy Hle]. split; [|done]. split; [|done]. intros <-. simplify_eq. lia.
Qed.

Lemma live_all S : (forall k x, S !! k = Some x -> now <= x.2) -> live S = S.
Proof. intros Hall. apply map_filter_id. intros k x Hk. by apply (Hall k). Qed.

Lemma sorted_first v al tm c i l :
  exp_sorted v now (ExpState al tm) -> al c = i :: l -> now <= tm i -> forall j, j ∈ al c -> now <= tm j.
Proof.
  intros Hs E Hle j Hj. pose proof (es_sorted _ _ _ Hs c) as Hsc. cbn in Hsc. rewrite E in Hj, Hsc.
  apply elem_of_cons in Hj as [->|Hj]; [done|]. cbn in Hsc. inversion Hsc as [|? ? ? Hall]; subst.
  rewrite Forall_forall in Hall. specialize (Hall (tm j) (list_elem_of_fmap_2 _ _ _ Hj)). lia.
Qed.

(** The rings before [c] have nothing left to expire. *)
Definition swept (c : Z) (al : Z -> list Z) (tm : Z -> Z) : Prop :=
  forall d j, d < c -> j ∈ al d -> now <= tm j.

Lemma swept_all t I ks lk vs lv al tm S :
  tp t I ks lk vs lv al tm -> tok now I ks vs al tm S -> swept (num_free_lists heap) al tm -> live S = S.
Proof.
  intros Hp Ht Hsw. apply live_all. intros k x Hk.
  destruct (tb_some heap _ _ _ _ _ _ _ _ _ Ht Hk) as (i & Hi & ->). cbn.
  destruct (proj2 (tb_index _ _ _ _ _ _ _ _ Ht i) (ex_intro _ k Hi)) as [d Hd]. apply (Hsw d); [|done].
  destruct (tp_heap _ _ _ _ _ _ _ _ _ _ _ _ _ Hp) as [(L & Hl & _ & HA) _].
  assert (0 <= d < num_free_lists heap); [|lia].
  apply (part_elem_valid _ usable HN L (PA d) (INDEX_SHIFT (num_free_lists heap) + i)).
  - apply Hl.
  - rewrite HA. by apply list_elem_of_fmap_2.
Qed.

Lemma swept_next c al tm v :
  exp_sorted v now (ExpState al tm) -> swept c al tm ->
  (forall i l, al c = i :: l -> now <= tm i) -> swept (c + 1) al tm.
Proof.
  intros Hs Hsw Hfirst d j Hd Hj. destruct (decide (d = c)) as [->|]; [|apply (Hsw d); [lia|done]].
  destruct (al c) as [|i l] eqn:E; [by apply not_elem_of_nil in Hj|].
  apply (sorted_first v al tm c i l); [done|done|by eapply Hfirst|by rewrite E].
Qed.

Definition expired_post (S : gmap K (V * Z)) (b : bool) (m : exp_mem) (t : T) : Prop :=
  b = true /\ exp_done m = true /\ table_rep map keys vals heap usable now t (live S).

Lemma wpm_expire_indexes n : forall c t I ks lk vs lv al tm S,
  tp t I ks lk vs lv al tm -> tok now I ks vs al tm S -> 0 <= c < num_free_lists heap ->
  swept c al tm -> (size S + Z.to_nat (num_free_lists heap - c) <= n)%nat ->
  wpm R (expire_indexes map keys heap now n) (ExpMem c false) t (fun m => exp_done m = false)
    (expired_post S).
Proof.
  induction n as [|n IH]; intros c t I ks lk vs lv al tm S Hp Ht Hc Hsw Hfuel; [lia|].
  cbn [expire_indexes]. apply wpm_bind; [apply _|]. apply wpm_local; [apply _|]. cbn [fst snd exp_done].
  unfold expire_iteration. do 2 (apply wpm_bind; [apply _|]). apply wpm_local; [apply _|].
  cbn [fst snd curr_free_list]. apply wpm_bind; [apply _|]. apply wpm_txn; [done|].
  eapply (wp_texpire map keys vals heap usable HN); [exact Hp|done| |].
  - intros i l t' E Hlt Hp'.
    destruct (tb_expire heap usable c i l now I ks vs al tm S Ht Htime E Hlt) as (HI & HS & Ht').
    apply wpm_bind; [apply _|]. apply wpm_local; [apply _|]. unfold exp_returned.
    cbn [fst snd curr_out expiration_done index_out exp_done orb].
    apply wpm_bind; [apply _|]. apply wpm_txn; [done|]. eapply (wp_tborrow_key map keys vals heap usable); [exact Hp'|].
    apply wpm_bind; [apply _|]. apply wpm_txn; [done|].
    eapply (wp_terase map keys vals heap usable HN); [exact Hp'|by eexists|]. intros t2 Hp2.
    apply wpm_ret; [apply _|].
    apply wpm_mono with (Q := expired_post (delete (ks i) S)).
    { intros b m t3 _ (? & ? & Hr). unfold expired_post. by rewrite <- (live_delete S _ _ HS). }
    eapply IH; [exact Hp2|exact Ht'|done| |].
    + intros d j Hd Hj. rewrite fn_insert_dec in Hj. case_decide; [lia|]. by apply (Hsw d).
    + pose proof (map_size_delete_Some (ks i) S ltac:(by eexists)). 
      assert (size S <> 0)%nat; [|lia]. intros Hz%map_size_empty_iff. by rewrite Hz in HS.
  - intros Hfirst. pose proof (swept_next c al tm _ (tb_sorted _ _ _ _ _ _ _ _ Ht Htime) Hsw Hfirst) as Hsw'.
    apply wpm_bind; [apply _|]. apply wpm_local; [apply _|]. unfold exp_returned, next_free_list.
    destruct (Z.geb_spec (c + 1) (num_free_lists heap)) as [Hlast|Hmore];
      cbn [fst snd curr_out expiration_done index_out exp_done orb];
      (apply wpm_ret; [apply _|]).
    + replace (c + 1) with (num_free_lists heap) in Hsw' by lia.
      destruct n; (apply wpm_bind; [apply _|]; apply wpm_local; [apply _|]; apply wpm_ret; [apply _|]);
        (split; [done|]; split; [done|]);
        rewrite (swept_all _ _ _ _ _ _ _ _ _ Hp Ht Hsw'); by do 7 eexists.
    + eapply IH; [exact Hp|exact Ht|lia|done|lia].
Qed.

(** ** The expiry with its restarts *)

Context {W : Type} `{!RluRuntime W T}.
(** Enough for the loop: one iteration per index and per ring. *)
Variables (table : W -> gmap K (V * Z)) (loop_fuel : nat).
Hypothesis (Htable : forall w t w1, reader_lock w = (t, w1) ->
  table_rep map keys vals heap usable now t (table w)).
Hypothesis (Hloop : (Z.to_nat usable + Z.to_nat (num_free_lists heap) <= loop_fuel)%nat).
Abbreviation body := (expire_indexes map keys heap now loop_fuel).

Lemma expire_body w t w1 m :
  reader_lock w = (t, w1) -> exp_done m = false ->
  wpm R body (exp_reset m) t (fun m => exp_done m = false) (expired_post (table w)).
Proof.
  intros (I & ks & lk & vs & lv & al & tm & Hp & Ht)%Htable Hm.
  assert (exp_reset m = ExpMem 0 false) as -> by (unfold exp_reset; by rewrite Hm).
  pose proof (tb_bound map keys vals heap usable _ _ _ _ _ _ _ _ _ _ Hp Ht).
  eapply wpm_expire_indexes; [exact Hp|exact Ht|lia| |rewrite Z.sub_0_r; lia].
  intros d j Hd Hj. exfalso.
  destruct (tp_heap _ _ _ _ _ _ _ _ _ _ _ _ _ Hp) as [(L & Hl & _ & HA) _].
  assert (0 <= d < num_free_lists heap); [|lia].
  apply (part_elem_valid _ usable HN L (PA d) (INDEX_SHIFT (num_free_lists heap) + j)); [apply Hl|].
  rewrite HA. by apply list_elem_of_fmap_2.
Qed.

(** A call that begins with expiration_done set does nothing. *)
Lemma expire_body_done m t : exp_done m = true -> body (exp_reset m, t) = (Some true, (exp_reset m, t)).
Proof. intros Hm. case loop_fuel; cbn; unfold bind; cbn; by rewrite Hm. Qed.

(** A run of this call, between the memory and world [x] it starts from and
    [y], was complete but failed its read validation: it had removed what has
    expired. *)
Definition rejected (x y : exp_mem * W) : Prop :=
  exists m1 w1 t1 w2 m2 t2 w3, rtc (failed exp_reset (fun m => m) body) x (m1, w1) /\
    reader_lock w1 = (t1, w2) /\ body (exp_reset m1, t1) = (Some true, (m2, t2)) /\
    reader_unlock t2 w2 = (false, w3) /\ table_rep map keys vals heap usable now t2 (live (table w1)) /\
    rtc (failed exp_reset (fun m => m) body) (m2, nfos_abort_txn t2 w3) y.

(** After runs that failed, one commits.  It removes exactly the entries that
    have expired; but if an earlier run of this call was rejected, it does
    nothing. *)
Definition expired_txn (curr : Z) (w : W) (r : bool * (exp_mem * W)) : Prop :=
  let '(b, (m, w')) := r in let start := (ExpMem curr false, w) in
  b = true /\ exp_done m = true /\
  exists m0 w0 t w1 t1, rtc (failed exp_reset (fun m => m) body) start (m0, w0) /\
    reader_lock w0 = (t, w1) /\ body (exp_reset m0, t) = (Some true, (m, t1)) /\ reader_unlock t1 w1 = (true, w') /\
    (table_rep map keys vals heap usable now t1 (live (table w0)) \/ rejected start (m0, w0) /\ t1 = t).

(** What failed runs leave. *)
Lemma failed_done curr w y : rtc (failed exp_reset (fun m => m) body) (ExpMem curr false, w) y ->
  exp_done y.1 = false \/ rejected (ExpMem curr false, w) y.
Proof.
  revert y. apply rtc_ind_r; [by left|]. intros [m1 w1] [m2 w2] Hs Ha IH.
  assert (rejected (ExpMem curr false, w) (m1, w1) -> rejected (ExpMem curr false, w) (m2, w2)) as Hmore.
  { intros (a & b & c & d & e & f & g & ? & ? & ? & ? & ? & Hr). exists a, b, c, d, e, f, g.
    do 5 (split; [done|]). by eapply rtc_r. }
  cbn in IH. destruct IH as [Ed|Hrej]; [|right; by apply Hmore].
  inversion Ha as [t w3 l' t' El Eb|t w3 a l' t' w4 El Eb Eu|]; subst.
  - left. pose proof (expire_body _ _ _ _ El Ed) as Hw. unfold wpm in Hw. cbn in Eb. rewrite Eb in Hw. by destruct Hw.
  - right. pose proof (expire_body _ _ _ _ El Ed) as Hw. unfold wpm in Hw. cbn in Eb. rewrite Eb in Hw.
    destruct Hw as (_ & -> & _ & Hr). exists m1, w1, t, w3, m2, t', w4.
    do 5 (split; [done|]). cbn in H3. by rewrite H3.
Qed.

Lemma expire_txn_spec fuel curr w r :
  expire_txn map keys heap now loop_fuel fuel curr w = Some r -> expired_txn curr w r.
Proof.
  destruct r as [b [m w']]. intros Hrun. unfold expire_txn in Hrun.
  apply run_txn_sound, txn_outcome_trace in Hrun as (m0 & w0 & Hs & Ha).
  pose proof (failed_done curr w _ Hs) as Hd. cbn in Hd.
  inversion Ha as [| |t w1 a m1 t1 w2 El Eb Eu]; subst. destruct (exp_done m0) eqn:Ed.
  - destruct Hd as [Hd|Hd]; [done|]. pose proof Eb as Eb'. rewrite expire_body_done in Eb' by done. injection Eb' as <- <- <-.
    split; [done|]. split; [done|]. exists m0, w0, t, w1, t. do 4 (split; [done|]). by right.
  - pose proof (expire_body _ _ _ _ El Ed) as Hw. unfold wpm in Hw. rewrite Eb in Hw.
    destruct Hw as (_ & -> & ? & Hr). split; [done|]. split; [done|]. exists m0, w0, t, w1, t1. auto 10.
Qed.

(** It returns when [retries] bounds how often a critical section fails. *)
Lemma expire_txn_returns (retries : W -> nat) fuel curr w :
  (forall m w m1 w1, attempt exp_reset (fun m => m) body m w None m1 w1 -> (retries w1 < retries w)%nat) ->
  (retries w < fuel)%nat -> exists r, expire_txn map keys heap now loop_fuel fuel curr w = Some r.
Proof.
  intros Hr Hf. destruct (run_txn_returns exp_reset (fun m => m) body retries Hr fuel (ExpMem curr false) w Hf)
    as (a & m & w' & E). by exists (a, (m, w')).
Qed.
End expiry_spec.
