(* ===== verification/Bridge.v ===== *)
(** * The bridge

    src/nf/bridge/main.c: a learning bridge.  The table of MAC addresses (a
    table of ExpTable.v) maps a source address to the device it was seen on;
    packets go to the device of their destination, or to all of them; the
    periodic handler removes the addresses that have not been seen for long. *)

From stdpp Require Import gmap relations.
From S2P Require Import Prelude Ether Rlu Txn Vector NfosMap Links Dchain.
From S2P Require Import DchainExp Interfaces ExpTable PktSet DataPlane NfCommon.
Open Scope Z_scope.

(** bridge_config.h *)
Definition MAC_TABLE_SIZE : Z := 65536.
Definition EXPIRATION_TIME : Z := 1200000.
Definition REFRESH_INTERVAL : Z := 180000000000.

Record nf_config := BridgeConfig { expiration_time : Z; dyn_capacity : Z }.

Record mac_entry := MacEntry { dev : Z; last_seen : Z (* time *) }.

(** [old]: what the memory held. *)
Definition dev_allocate (_ : mac_entry) : mac_entry := MacEntry 0 INT64_MAX.

Record nf_state (T : Type) := BridgeState {
  dyn_heap : NfosDoubleChainExp T;
  dyn_map : NfosMap T rte_ether_addr;
  dyn_vals : NfosVector T mac_entry;
  dyn_macs : NfosVector T rte_ether_addr;
  cfg : nf_config
}.
Arguments BridgeState {T} _ _ _ _ _.
Arguments dyn_heap {T} _.
Arguments dyn_map {T} _.
Arguments dyn_vals {T} _.
Arguments dyn_macs {T} _.
Arguments cfg {T} _.

(** ** Initialisation *)

(** What nf_init returns through its pointers, and the fresh structures. *)
Record nf_flags := NfFlags {
  has_related_pkt_sets : bool;
  do_expiration : bool;
  has_pkt_sets : bool
}.
Record bridge_masters := BridgeMasters {
  bm_map : map_masters rte_ether_addr;
  bm_macs : vector_masters rte_ether_addr;
  bm_vals : vector_masters mac_entry;
  bm_heap : exp_masters;
  bm_cfg : nf_config
}.
(** After a failed allocation ret is NULL; the statement that follows reads
    ret->cfg, if there is one. *)
Inductive init_result :=
| InitCrash
| InitNull
| InitState (flags : nf_flags) (m : bridge_masters).

(** [ok n]: whether the memory of the n-th structure can be had; the outer
    [option] is the fuel of the allocator's loop. *)
Definition alloc_state (cfg : nf_config) (ok : Z -> bool) (fuel : nat) (map_alloc : Z -> nfos_map_entry rte_ether_addr)
    (mac_alloc mac_uninit : Z -> rte_ether_addr) (val_alloc val_uninit : Z -> mac_entry)
    (cell_alloc : Z -> nfos_dchain_exp_cell)
    (usec_to_tsc : Z -> Z) (lcores : Z) : option init_result :=
  let flags := NfFlags false false false in
  match nfos_map_allocate_t (ok 0) (ok 1) map_alloc 6 (dyn_capacity cfg) with
  | None => Some InitCrash
  | Some map =>
      match nfos_vector_allocate_t (ok 2) (ok 3) mac_alloc mac_uninit 6 (dyn_capacity cfg)
              ether_addr_allocate with
      | None => Some InitCrash
      | Some macs =>
          match nfos_vector_allocate_t (ok 4) (ok 5) val_alloc val_uninit 16 (dyn_capacity cfg)
                  dev_allocate with
          | None => Some InitCrash
          | Some vals =>
              match nfos_dchain_exp_allocate_t (ok 6) (ok 7) fuel cell_alloc usec_to_tsc lcores
                      (dyn_capacity cfg) (expiration_time cfg) with
              | None => None
              | Some None => Some InitNull
              | Some (Some heap) => Some (InitState flags (BridgeMasters map macs vals heap cfg))
              end
          end
      end
  end.

Definition nf_init : (Z -> bool) -> nat -> (Z -> nfos_map_entry rte_ether_addr) -> (Z -> rte_ether_addr) ->
    (Z -> rte_ether_addr) -> (Z -> mac_entry) -> (Z -> mac_entry) -> (Z -> nfos_dchain_exp_cell) ->
    (Z -> Z) -> Z -> option init_result :=
  alloc_state (BridgeConfig EXPIRATION_TIME MAC_TABLE_SIZE).

(** The structures as the handlers use them: [mm], [mk], [mv], [mc] are their
    arrays, [crc] the CRC32 instruction. *)
Definition bridge_state {T} (m : bridge_masters) (mm : RluMem T (nfos_map_entry rte_ether_addr))
    (mk : RluMem T rte_ether_addr) (mv : RluMem T mac_entry) (mc : RluMem T nfos_dchain_exp_cell)
    (crc : Z -> Z -> Z) : nf_state T := {|
  dyn_heap := {| cells := mc; num_free_lists := em_num_free_lists (bm_heap m);
                 validity_duration := em_validity_duration (bm_heap m) |};
  dyn_map := {| map_entries := mm; map_key_size := mm_key_size (bm_map m);
                map_capacity := mm_capacity (bm_map m); map_keys_eq := ether_addr_eq;
                map_khash := ether_addr_hash crc |};
  dyn_vals := {| elems := mv; elem_size := m_elem_size (bm_vals m); capacity := m_capacity (bm_vals m) |};
  dyn_macs := {| elems := mk; elem_size := m_elem_size (bm_macs m); capacity := m_capacity (bm_macs m) |};
  cfg := bm_cfg m
|}.

(** Vigor's functions on addresses are what a map needs of its keys. *)
Lemma bridge_map_config {T} (m : bridge_masters) (mm : RluMem T (nfos_map_entry rte_ether_addr))
    (mk : RluMem T rte_ether_addr) (mv : RluMem T mac_entry) (mc : RluMem T nfos_dchain_exp_cell)
    (crc : Z -> Z -> Z) (k : Z) :
  0 <= k <= 31 -> mm_capacity (bm_map m) = 2 ^ k -> (forall c v, 0 <= crc c v < 2 ^ 32) ->
  MapConfig (dyn_map (bridge_state m mm mk mv mc crc)).
Proof.
  intros Hk Hcap Hcrc. apply (Build_MapConfig _ _ _ _ k); [done|done|intros; apply Hcrc|apply ether_addr_eq_spec].
Qed.

(** A transaction that reads what the allocation functions wrote. *)
Definition reads_fresh {T} (m : bridge_masters) (mm : RluMem T (nfos_map_entry rte_ether_addr))
    (mc : RluMem T nfos_dchain_exp_cell) (t : T) : Prop :=
  (forall l, view mm t l = mm_entries (bm_map m) l) /\
  (forall l, view mc t l = em_cells (bm_heap m) l).

(** ** Packets *)

Section bridge.
Context {T B K S : Type} `{PacketIo B} (st : nf_state T).
(** The core's number and the time get_curr_time returns. *)
Variables (thread_id now : Z).
Abbreviation mem := (nf_mem (pkt_t B) K S).

Definition nf_pkt_parser (buffer : B) (pkt : pkt_t B) : bool * pkt_t B :=
  (true, Pkt (len pkt) (nf_then_get_ether_header buffer) (ipv4_header pkt) (tcpudp_header pkt)
           (payload pkt) buffer).

Definition nf_pkt_dispatcher (pkt : pkt_t B) (incoming_dev : Z) (uninit : K) : Z * K * bool :=
  (0, uninit, false).

(** The first part of pkt_handler; [false]: the table is full and the handler
    returns. *)
Definition learn (src_mac : rte_ether_addr) (incoming_dev : Z) : M T bool :=
  let! present := nfos_map_get_t (dyn_map st) src_mac in
  match present with
  | Some index =>
      let! value := nfos_vector_borrow_t (dyn_vals st) index in
      if now >? i64 (last_seen value + REFRESH_INTERVAL) then
        let! _ := nfos_dchain_exp_rejuvenate_index_t (dyn_heap st) index now in
        let! value := nfos_vector_borrow_mut_t (dyn_vals st) index in
        modify (elems (dyn_vals st)) value (fun v => MacEntry (dev v) now) ;;
        ret true
      else ret true
  | None =>
      let! allocated := nfos_dchain_exp_allocate_new_index_t (dyn_heap st) thread_id now in
      match allocated with
      | None => ret false
      | Some index =>
          let! key := nfos_vector_borrow_mut_t (dyn_macs st) index in
          let! value := nfos_vector_borrow_mut_t (dyn_vals st) index in
          modify (elems (dyn_macs st)) key (fun _ => src_mac) ;;
          modify (elems (dyn_vals st)) value (fun v => MacEntry incoming_dev (last_seen v)) ;;
          modify (elems (dyn_vals st)) value (fun v => MacEntry (dev v) now) ;;
          let! _ := nfos_map_put_t (dyn_map st) src_mac index in
          ret true
      end
  end.

(** The second part: where the destination was seen. *)
Definition forward (dst_mac : rte_ether_addr) : M (mem * T) unit :=
  let! found := on_txn (nfos_map_get_t (dyn_map st) dst_mac) in
  match found with
  | Some out_index =>
      let! value := on_txn (nfos_vector_borrow_t (dyn_vals st) out_index) in
      send_pkt (dev value)
  | None => flood_pkt
  end.

Definition pkt_handler (incoming_dev : Z) : M (mem * T) unit :=
  let! ether := on_local (fun m => (ether_header (nf_packet m), m)) in
  let! go_on := on_txn (learn (eth_s_addr ether) incoming_dev) in
  if (go_on : bool) then forward (eth_d_addr ether) else ret tt.

(** ** The periodic handler *)

(** [curr]: the allocator's curr_free_list. *)
Definition exp_mac {W} `{RluRuntime W T} (loop_fuel fuel : nat) (curr : Z) (w : W)
    : option (bool * (exp_mem * W)) :=
  expire_txn (dyn_map st) (dyn_macs st) (dyn_heap st) now loop_fuel fuel curr w.
End bridge.

(** ** The table of addresses *)

Section spec.
Context {T B K S : Type} `{RluTxn T} `{!PacketIo B} (st : nf_state T).
Context `{!RluLaws (map_entries (dyn_map st)), !MapConfig (dyn_map st)}.
Context `{!RluLaws (elems (dyn_macs st)), !RluLaws (elems (dyn_vals st))}.
Context `{!RluLaws (cells (dyn_heap st))}.
Context `{!TableDisjoint (dyn_map st) (dyn_macs st) (dyn_vals st) (dyn_heap st)}.
Variables (usable : Z).
Hypothesis (HN : 0 < num_free_lists (dyn_heap st)).
Implicit Types M : gmap rte_ether_addr mac_entry.
Abbreviation R := (table_steps (dyn_map st) (dyn_macs st) (dyn_vals st) (dyn_heap st)).

(** An entry expires when it has not been seen for the validity duration. *)
Definition timed (e : mac_entry) : mac_entry * Z := (e, expiry_time (last_seen e) (validity_duration (dyn_heap st))).
Definition bridge_rep (now : Z) (t : T) M : Prop :=
  table_rep (dyn_map st) (dyn_macs st) (dyn_vals st) (dyn_heap st) usable now t (timed <$> M).

(** What a packet from [src] on device [d] teaches: whether there was room,
    and the new table. *)
Definition bridge_learn (now d : Z) (src : rte_ether_addr) M : bool * gmap rte_ether_addr mac_entry :=
  match M !! src with
  | Some e => (true, if now >? i64 (last_seen e + REFRESH_INTERVAL)
                     then <[src := MacEntry (dev e) now]> M else M)
  | None => if Z.of_nat (size M) <? usable then (true, <[src := MacEntry d now]> M) else (false, M)
  end.
Definition bridge_out (dst : rte_ether_addr) M : Z :=
  match M !! dst with Some e => dev e | None => FLOOD_PORT end.

Variables (core now0 now : Z).
Hypothesis (Hcore : 0 <= core < num_free_lists (dyn_heap st)).
Hypothesis (Hnow : now0 <= now).
Hypothesis (Hcap : 0 <= usable <= map_capacity (dyn_map st)).

Lemma wp_learn src d t M :
  bridge_rep now0 t M ->
  wp R (learn st core now src d) t
    (fun b t' => b = (bridge_learn now d src M).1 /\ bridge_rep now t' (bridge_learn now d src M).2).
Proof.
  intros (I & ks & lk & vs & lv & al & tm & Hp & Ht). unfold learn, bridge_learn.
  apply wp_bind; [apply _|]. trule @wp_tget.
  assert (size M = size (timed <$> M)) as Hsize by (by rewrite map_size_fmap).
  destruct (I !! src) as [i|] eqn:HI.
  - assert (exists e, M !! src = Some e /\ vs i = e) as (e & He & Hv).
    { pose proof (tb_entry _ _ _ _ _ _ _ _ Ht src) as E. rewrite HI, lookup_fmap in E.
      destruct (M !! src); [|done]. cbn in E. injection E as -> _. eauto. }
    rewrite He. apply wp_bind; [apply _|]. trule @wp_tborrow.
    rewrite Hv. destruct (now >? _); cbn [fst snd].
    + apply wp_bind; [apply _|].
      assert (is_allocated al i) as Hal by (apply (tb_index _ _ _ _ _ _ _ _ Ht); by exists src).
      trule @wp_trejuvenate; [ |].
      { destruct (tp_heap _ _ _ _ _ _ _ _ _ _ _ _ _ Hp) as [Hr _]. by apply (rep_range _ _ _ al i Hr). }
      intros l c1 c2 t1 E Hp1. apply wp_bind; [apply _|].
      trule @wp_tborrow_mut. intros t2 Hp2.
      apply wp_bind; [apply _|]. trule @wp_tmodify; [left|].
      intros t3 Hp3. apply wp_ret; [apply _|]. split; [done|].
      unfold bridge_rep. rewrite fmap_insert. do 7 eexists. split; [exact Hp3|]. rewrite Hv.
      by apply (tb_refresh _ usable l c1 c2 src _ i now0 now).
    + apply wp_ret; [apply _|]. split; [done|]. do 7 eexists. split; [exact Hp|].
      by apply (tb_later _ now0).
  - apply (tb_none _ _ _ _ _ _ _ _ _ Ht) in HI as HM. rewrite lookup_fmap, fmap_None in HM. rewrite HM.
    apply wp_bind; [apply _|]. trule @wp_tallocate; [ |].
    + intros t1 i Hi Hn Hp1.
      pose proof (tb_room _ _ _ _ usable _ _ _ _ _ _ _ _ _ _ _ Hp Ht Hi Hn) as Hroom.
      rewrite (proj2 (Z.ltb_lt _ _)) by (by rewrite Hsize).
      apply wp_bind; [apply _|]. trule @wp_tborrow_mut_key. intros t2 Hp2.
      apply wp_bind; [apply _|]. trule @wp_tborrow_mut. intros t3 Hp3.
      apply wp_bind; [apply _|]. trule @wp_tmodify_key; [left|]. intros t4 Hp4.
      apply wp_bind; [apply _|]. trule @wp_tmodify; [left|]. intros t5 Hp5.
      apply wp_bind; [apply _|]. trule @wp_tmodify; [left|]. intros t6 Hp6.
      apply wp_bind; [apply _|]. trule @wp_tput; [ |].
      { rewrite <- (tb_size _ _ _ _ _ _ _ _ Ht). lia. }
      intros t7 Hp7. apply wp_ret; [apply _|]. split; [done|]. cbn [snd].
      unfold bridge_rep. rewrite fmap_insert. do 7 eexists. split; [exact Hp7|].
      eapply tb_ext; [intros j|apply (tb_add _ usable core src _ i now0 now); try done; by rewrite lookup_fmap, HM].
      rewrite !fn_insert_dec. by destruct (decide (i = j)) as [<-|]; rewrite ?decide_True by done.
    + intros t1 Hall Hp1.
      pose proof (tb_full _ usable _ _ _ _ _ _ _ Ht ltac:(lia) Hall) as Hfull.
      rewrite (proj2 (Z.ltb_ge _ _)) by (by rewrite Hsize).
      apply wp_ret; [apply _|]. split; [done|]. do 7 eexists. split; [exact Hp1|].
      by apply (tb_later _ now0).
Qed.

Lemma wp_forward dst (m : nf_mem (pkt_t B) K S) t M (E : _ -> Prop) :
  bridge_rep now t M -> E m ->
  wpm R (forward st dst) m t E
    (fun _ m' t' => bridge_rep now t' M /\ m' = set_dst_device (bridge_out dst M) m).
Proof.
  intros (I & ks & lk & vs & lv & al & tm & Hp & Ht) HE. unfold forward, bridge_out.
  apply wpm_bind; [apply _|]. apply wpm_txn; [done|]. trule @wp_tget.
  pose proof (tb_entry _ _ _ _ _ _ _ _ Ht dst) as Hd. rewrite lookup_fmap in Hd.
  assert (bridge_rep now t M) as Hr by (do 7 eexists; by split).
  destruct (I !! dst) as [i|], (M !! dst) as [e|]; try done.
  cbn in Hd. injection Hd as -> _.
  apply wpm_bind; [apply _|]. apply wpm_txn; [done|]. trule @wp_tborrow. by split; [reflexivity|].
Qed.

Lemma wp_bridge_handler d (m : nf_mem (pkt_t B) K S) t M :
  bridge_rep now0 t M ->
  let eth := ether_header (nf_packet m) in
  let learned := bridge_learn now d (eth_s_addr eth) M in
  wpm R (pkt_handler st core now d) m t (fun m' => m' = m)
    (fun _ m' t' => bridge_rep now t' learned.2 /\
       m' = if learned.1 then set_dst_device (bridge_out (eth_d_addr eth) learned.2) m else m).
Proof.
  intros Hr eth learned. unfold pkt_handler. apply wpm_bind; [apply _|]. apply wpm_local; [apply _|].
  cbn [fst snd]. apply wpm_bind; [apply _|]. apply wpm_txn; [done|].
  eapply wp_mono; [|by apply wp_learn]. intros b t' _ [-> Hr']. fold eth learned in Hr' |- *.
  destruct learned.1; [by apply wp_forward|]. apply wpm_ret; [apply _|]. by split.
Qed.
End spec.

(** The entries that have been seen recently enough. *)
Definition seen_since {T} (st : nf_state T) (now : Z) (M : gmap rte_ether_addr mac_entry)
    : gmap rte_ether_addr mac_entry :=
  filter (fun ke => now <= expiry_time (last_seen ke.2) (validity_duration (dyn_heap st))) M.

Lemma live_timed {T} (st : nf_state T) now M :
  live now (timed st <$> M) = timed st <$> seen_since st now M.
Proof.
  apply map_eq. intros k. apply option_eq. intros x. unfold live, seen_since.
  rewrite map_lookup_filter_Some, !lookup_fmap_Some. split.
  - intros [(e & <- & He) Hle]. exists e. split; [done|]. by apply map_lookup_filter_Some.
  - intros (e & <- & [He Hle]%map_lookup_filter_Some). split; [by exists e|done].
Qed.

Lemma alloc_state_spec (c : nf_config) (ok : Z -> bool) (fuel : nat) (map_alloc : Z -> nfos_map_entry rte_ether_addr)
    (mac_alloc mac_uninit : Z -> rte_ether_addr) (val_alloc val_uninit : Z -> mac_entry)
    (cell_alloc : Z -> nfos_dchain_exp_cell)
    (usec_to_tsc : Z -> Z) (lcores : Z)
    (Hcores : 1 < lcores) (Hrange : lcores - 1 <= dyn_capacity c) (Hfuel : dyn_capacity c <= Z.of_nat fuel) :
  match alloc_state c ok fuel map_alloc mac_alloc mac_uninit val_alloc val_uninit cell_alloc
          usec_to_tsc lcores with
  | Some (InitState f m) =>
      f = NfFlags false false false /\ (forall i, 0 <= i < 8 -> ok i = true) /\
      forall T mm mk mv mc crc (t : T) now, reads_fresh m mm mc t ->
      - 2 ^ 63 <= now + em_validity_duration (bm_heap m) ->
      bridge_rep (bridge_state m mm mk mv mc crc)
        ((lcores - 1) * (dyn_capacity c / (lcores - 1))) now t ∅
  | Some InitNull => (forall i, 0 <= i < 6 -> ok i = true) /\ (ok 6 = false \/ ok 7 = false)
  | Some InitCrash => exists i, 0 <= i < 6 /\ ok i = false
  | None => False
  end.
Proof.
  assert (forall (Q : Z -> Prop), (Q 0 /\ Q 1 /\ Q 2 /\ Q 3 /\ Q 4 /\ Q 5) -> forall i, 0 <= i < 6 -> Q i) as H6.
  { intros Q HQ i Hi. assert (i = 0 \/ i = 1 \/ i = 2 \/ i = 3 \/ i = 4 \/ i = 5) by lia.
    naive_solver. }
  unfold alloc_state, nfos_map_allocate_t, nfos_vector_allocate_t, nfos_dchain_exp_allocate_t.
  destruct (ok 0) eqn:E0, (ok 1) eqn:E1; cbn [negb];
    try by (first [exists 0; by split; [lia|] | exists 1; by split; [lia|]]).
  destruct (ok 2) eqn:E2, (ok 3) eqn:E3; cbn [negb];
    try by (first [exists 2; by split; [lia|] | exists 3; by split; [lia|]]).
  destruct (ok 4) eqn:E4, (ok 5) eqn:E5; cbn [negb];
    try by (first [exists 4; by split; [lia|] | exists 5; by split; [lia|]]).
  destruct (ok 6) eqn:E6, (ok 7) eqn:E7; cbn [negb];
    try by (split; [apply H6|]; auto 10).
  destruct (chain_init_rep (set_time INT64_MAX) (set_time INT64_MAX) (fun _ f => f)
    (dyn_capacity c) (lcores - 1) fuel cell_alloc) as (f & E & Hr); [done|lia|lia|].
  rewrite E. split; [done|]. split.
  { intros i Hi. destruct (decide (i < 6)); [apply (H6 (fun i => ok i = true)); [auto 10|lia]|].
    assert (i = 6 \/ i = 7) as [-> | ->] by lia; done. }
  intros T mm mk mv mc crc t now [Hmap Hcells] Hclock. cbn in Hmap, Hcells.
  unfold bridge_rep. rewrite fmap_empty. apply (table_empty _ _ _ _ _ t now (fun _ => 0)); cbn; [done|..].
  - apply map_inv_empty. intros i Hi. cbn in Hi. rewrite Hmap, map_reset_loop_spec, decide_True by lia. done.
  - split; [|by intros i [d ?%not_elem_of_nil]]. apply (rep_ext (lcores - 1) _ ltac:(lia) f); [|exact Hr].
    intros x. cbn. by rewrite Hcells.
Qed.

(** ** Properties *)

(** C32: the bridge's packet handler implements a learning bridge over the
    table of addresses: the packet's source is learned or refreshed, and the
    packet is sent to the device its destination was seen on, or flooded when
    the table does not have it.  When the table is full a new source is not
    learned and the handler returns without choosing a device.  An abort
    leaves the core's memory as it was and means that another thread holds a
    lock. *)
Theorem bridge_pkt_handler_spec {T B K S} `{RluTxn T} `{!PacketIo B} (st : nf_state T)
    `{!RluLaws (map_entries (dyn_map st)), !MapConfig (dyn_map st)}
    `{!RluLaws (elems (dyn_macs st)), !RluLaws (elems (dyn_vals st)), !RluLaws (cells (dyn_heap st))}
    `{!TableDisjoint (dyn_map st) (dyn_macs st) (dyn_vals st) (dyn_heap st)}
    (usable core now0 now d : Z) (m : nf_mem (pkt_t B) K S) (t : T) (M : gmap rte_ether_addr mac_entry)
    (Hcore : 0 <= core < num_free_lists (dyn_heap st)) (Hnow : now0 <= now)
    (Hcap : 0 <= usable <= map_capacity (dyn_map st)) (Hr : bridge_rep st usable now0 t M) :
  let src := eth_s_addr (ether_header (nf_packet m)) in
  let dst := eth_d_addr (ether_header (nf_packet m)) in
  let (room, M') := bridge_learn usable now d src M in
  match pkt_handler st core now d (m, t) with
  | (Some tt, (m', t')) => bridge_rep st usable now t' M' /\
      m' = if room then set_dst_device (bridge_out dst M') m else m
  | (None, (m', _)) => m' = m /\ ~ no_conflict t
  end.
Proof.
  intros src dst. pose proof (wp_bridge_handler st usable ltac:(lia) core now0 now Hcore Hnow Hcap d m t M Hr) as Hw.
  cbv zeta in Hw. fold src dst in Hw. destruct (bridge_learn usable now d src M) as [room M'].
  unfold wpm in Hw. destruct (pkt_handler st core now d (m, t)) as [[[]|] [m' t']]; [|done].
  by destruct Hw.
Qed.

(** C33: the periodic handler of the bridge returns when restarts are bounded.
    Its critical section runs until a run commits: that run removes exactly
    the addresses not seen for the validity duration, unless an earlier run of
    this call had removed them in its transaction and was then rejected by its
    read validation, after which the handler does nothing more. *)
Theorem exp_mac_spec {T W} `{RluTxn T} `{!RluRuntime W T} (st : nf_state T)
    `{!RluLaws (map_entries (dyn_map st)), !MapConfig (dyn_map st)}
    `{!RluLaws (elems (dyn_macs st)), !RluLaws (elems (dyn_vals st)), !RluLaws (cells (dyn_heap st))}
    `{!TableDisjoint (dyn_map st) (dyn_macs st) (dyn_vals st) (dyn_heap st)}
    (usable now curr : Z) (loop_fuel fuel : nat) (retries : W -> nat) (w : W)
    (table : W -> gmap rte_ether_addr mac_entry)
    (HN : 0 < num_free_lists (dyn_heap st)) (Htime : now + validity_duration (dyn_heap st) < 2 ^ 63)
    (Htable : forall w t w1, reader_lock w = (t, w1) -> bridge_rep st usable now t (table w))
    (Hloop : (Z.to_nat usable + Z.to_nat (num_free_lists (dyn_heap st)) <= loop_fuel)%nat)
    (Hretry : forall m w m1 w1,
       attempt exp_reset (fun m => m) (expire_indexes (dyn_map st) (dyn_macs st) (dyn_heap st) now loop_fuel)
         m w None m1 w1 -> (retries w1 < retries w)%nat)
    (Hfuel : (retries w < fuel)%nat) :
  let run := expire_indexes (dyn_map st) (dyn_macs st) (dyn_heap st) now loop_fuel in
  let failed_runs := rtc (failed exp_reset (fun m => m) run) in
  let removes w0 t1 := bridge_rep st usable now t1 (seen_since st now (table w0)) in
  exists m w', exp_mac st now loop_fuel fuel curr w = Some (true, (m, w')) /\
  exists m0 w0 t w1 t1, failed_runs (ExpMem curr false, w) (m0, w0) /\
    reader_lock w0 = (t, w1) /\ run (exp_reset m0, t) = (Some true, (m, t1)) /\ reader_unlock t1 w1 = (true, w') /\
    (removes w0 t1 \/
     t1 = t /\ exists ma wa ta wb mb tb wc, failed_runs (ExpMem curr false, w) (ma, wa) /\
       reader_lock wa = (ta, wb) /\ run (exp_reset ma, ta) = (Some true, (mb, tb)) /\ removes wa tb /\
       reader_unlock tb wb = (false, wc) /\ failed_runs (mb, nfos_abort_txn tb wc) (m0, w0)).
Proof.
  intros run failed_runs removes.
  destruct (expire_txn_returns (dyn_map st) (dyn_macs st) (dyn_heap st) now loop_fuel retries fuel curr w
    Hretry Hfuel) as [[b [m w']] E].
  pose proof (expire_txn_spec _ _ (dyn_vals st) _ usable now HN Htime (fun w => timed st <$> table w) loop_fuel
    Htable Hloop fuel curr w _ E) as (-> & _ & m0 & w0 & t & w1 & t1 & Hs & Hl & Hb & Hu & Hd).
  exists m, w'. split; [exact E|]. exists m0, w0, t, w1, t1. do 4 (split; [done|]).
  unfold removes, bridge_rep. rewrite <- live_timed. destruct Hd as [Hd|[Hd ->]]; [by left|]. right. split; [done|].
  destruct Hd as (ma & wa & ta & wb & mb & tb & wc & ? & ? & ? & ? & ? & ?).
  exists ma, wa, ta, wb, mb, tb, wc. do 3 (split; [done|]). rewrite <- live_timed. done.
Qed.

(** Nf_init of the bridge: it returns, and when every structure can be
    allocated the table is empty in every transaction that reads the fresh
    structures; when the memory for one of the first three cannot be had, it
    reads through the NULL pointer it has just assigned. *)
Theorem bridge_nf_init_spec (ok : Z -> bool) (fuel : nat) (map_alloc : Z -> nfos_map_entry rte_ether_addr)
    (mac_alloc mac_uninit : Z -> rte_ether_addr) (val_alloc val_uninit : Z -> mac_entry)
    (cell_alloc : Z -> nfos_dchain_exp_cell)
    (usec_to_tsc : Z -> Z) (lcores : Z)
    (Hcores : 1 < lcores <= MAC_TABLE_SIZE) (Hfuel : MAC_TABLE_SIZE <= Z.of_nat fuel) :
  match nf_init ok fuel map_alloc mac_alloc mac_uninit val_alloc val_uninit cell_alloc
          usec_to_tsc lcores with
  | Some (InitState f m) =>
      f = NfFlags false false false /\ (forall i, 0 <= i < 8 -> ok i = true) /\
      forall T mm mk mv mc crc (t : T) now, reads_fresh m mm mc t ->
      - 2 ^ 63 <= now + em_validity_duration (bm_heap m) ->
      bridge_rep (bridge_state m mm mk mv mc crc)
        ((lcores - 1) * (MAC_TABLE_SIZE / (lcores - 1))) now t ∅
  | Some InitNull => (forall i, 0 <= i < 6 -> ok i = true) /\ (ok 6 = false \/ ok 7 = false)
  | Some InitCrash => exists i, 0 <= i < 6 /\ ok i = false
  | None => False
  end.
Proof.
  by apply (alloc_state_spec (BridgeConfig EXPIRATION_TIME MAC_TABLE_SIZE)); cbn; unfold MAC_TABLE_SIZE in *; lia.
Qed.

(** ** Witnesses: two cores, four addresses, valid for 10 cycles *)

Definition bridge_txn : Type :=
  (snap_txn (nfos_map_entry rte_ether_addr) * snap_txn rte_ether_addr) *
  (snap_txn mac_entry * snap_txn nfos_dchain_exp_cell).

Definition ex_alloc : option init_result :=
  alloc_state (BridgeConfig 10 4) (fun _ => true) 4 (fun _ => MapEntry 0 0 0 0 no_mac) (fun _ => no_mac) (fun _ => no_mac)
    (fun _ => MacEntry 0 0) (fun _ => MacEntry 0 0) (fun _ => ExpCell 0 0 0 0) (fun x => x) 3.
Definition ex_masters : bridge_masters :=
  match ex_alloc with
  | Some (InitState _ m) => m
  | _ => BridgeMasters (MapMasters (fun _ => MapEntry 0 0 0 0 no_mac) 0 0) (VectorMasters (fun _ => no_mac) 0 0)
           (VectorMasters (fun _ => MacEntry 0 0) 0 0) (ExpMasters (fun _ => ExpCell 0 0 0 0) 0 0 0)
           (BridgeConfig 0 0)
  end.

(** Addresses are hashed by their last byte. *)
Definition ex_bridge : nf_state bridge_txn :=
  bridge_state ex_masters (lens_mem (fst_lens (fst_lens self_lens))) (lens_mem (fst_lens (snd_lens self_lens)))
    (lens_mem (snd_lens (fst_lens self_lens))) (lens_mem (snd_lens (snd_lens self_lens)))
    (fun _ v => u32 v).

#[local] Instance ex_bridge_config : MapConfig (dyn_map ex_bridge).
Proof.
  apply (bridge_map_config _ _ _ _ _ _ 2); [lia|done|]. intros. apply wrap_range. lia.
Defined.
#[local] Instance ex_bridge_disjoint :
  TableDisjoint (dyn_map ex_bridge) (dyn_macs ex_bridge) (dyn_vals ex_bridge) (dyn_heap ex_bridge).
Proof. split; cbn; apply _. Qed.

Definition ex_bridge_txn : bridge_txn :=
  ((SnapTxn (mm_entries (bm_map ex_masters)) ∅ (fun _ => false),
    SnapTxn (m_elems (bm_macs ex_masters)) ∅ (fun _ => false)),
   (SnapTxn (m_elems (bm_vals ex_masters)) ∅ (fun _ => false),
    SnapTxn (em_cells (bm_heap ex_masters)) ∅ (fun _ => false))).

Lemma ex_bridge_rep now : 0 <= now -> bridge_rep ex_bridge 4 now ex_bridge_txn ∅.
Proof.
  intros Hnow. assert (em_validity_duration (bm_heap ex_masters) = 10) as Hv by (vm_compute; reflexivity).
  pose proof (alloc_state_spec (BridgeConfig 10 4) (fun _ => true) 4 (fun _ => MapEntry 0 0 0 0 no_mac)
    (fun _ => no_mac) (fun _ => no_mac) (fun _ => MacEntry 0 0) (fun _ => MacEntry 0 0) (fun _ => ExpCell 0 0 0 0)
    (fun x => x) 3 ltac:(lia) ltac:(cbn; lia) ltac:(cbn; lia)) as H.
  fold ex_alloc in H. unfold ex_bridge, ex_bridge_txn, ex_masters in *.
  destruct ex_alloc as [[| |f m]|] eqn:E; [by destruct H as (? & _ & ?)|by destruct H as [_ [?|?]]| |done].
  destruct H as (_ & _ & H). apply (H bridge_txn); [by split|lia].
Qed.

(** A packet from aa:..:01 to aa:..:02 or back. *)
Definition ex_mac (x : Z) : rte_ether_addr := (Mac 170 0 0 0 0 x).
Definition ex_bridge_mem (src dst : Z) : nf_mem (pkt_t ex_frame) Z Z :=
  NfMem (Pkt 60 (Ether (ex_mac dst) (ex_mac src)) None None None
           (ExFrame (Ether no_mac no_mac) None None (fun _ => 0))) 9 ex_pkt0.
Definition ex_learned : bridge_txn := snd (snd (pkt_handler ex_bridge 0 7 3 (ex_bridge_mem 1 2, ex_bridge_txn))).
Definition ex_table : gmap rte_ether_addr mac_entry := {[ex_mac 1 := MacEntry 3 7]}.

Lemma ex_learned_rep : bridge_rep ex_bridge 4 7 ex_learned ex_table.
Proof.
  pose proof (wp_bridge_handler ex_bridge 4 ltac:(done) 0 7 7 ltac:(done) ltac:(lia) ltac:(cbn; done) 3
    (ex_bridge_mem 1 2) ex_bridge_txn ∅ (ex_bridge_rep 7 ltac:(lia))) as H. cbv zeta in H.
  unfold wpm, ex_learned in *.
  destruct (pkt_handler ex_bridge 0 7 3 (ex_bridge_mem 1 2, ex_bridge_txn)) as [[[]|] [m t]].
  - by destruct H as (_ & H & _).
  - destruct H as [_ []]. by vm_compute.
Qed.

(** A runtime whose critical sections all start from [ex_learned]; every
    other read validation fails. *)
#[local] Instance ex_bridge_runtime : RluRuntime Z bridge_txn := {
  reader_lock w := (ex_learned, w);
  reader_unlock _ w := (Z.odd w, w + 1);
  rlu_abort _ w := w
}.

Lemma ex_lock w (t : bridge_txn) (w1 : Z) : reader_lock w = (t, w1) -> t = ex_learned /\ w1 = w.
Proof. intros E. split; [apply (f_equal fst) in E|apply (f_equal snd) in E]; by symmetry. Qed.

Lemma ex_later now w t w1 :
  7 <= now -> reader_lock w = (t, w1) -> bridge_rep ex_bridge 4 now t ex_table.
Proof.
  intros Hnow [-> _]%ex_lock. destruct ex_learned_rep as (I & ks & lk & vs & lv & al & tm & Hp & Ht).
  do 7 eexists. split; [exact Hp|]. by apply (tb_later _ 7).
Qed.

Lemma ex_learned_free : no_conflict ex_learned.
Proof. by vm_compute. Qed.

Lemma ex_bridge_retry now m w m1 w1 :
  7 <= now -> now + validity_duration (dyn_heap ex_bridge) < 2 ^ 63 ->
  attempt exp_reset (fun m => m)
    (expire_indexes (dyn_map ex_bridge) (dyn_macs ex_bridge) (dyn_heap ex_bridge) now 6) m w None m1 w1 ->
  (ex_retries w1 < ex_retries w)%nat.
Proof.
  intros Hnow Htime Ha. inversion Ha as [t w2 l2 t2 El Eb|t w2 b l2 t2 w3 El Eb Eu|]; subst.
  - exfalso. destruct (exp_done m) eqn:Ed; [by rewrite expire_body_done in Eb|].
    pose proof (expire_body (dyn_map ex_bridge) (dyn_macs ex_bridge) (dyn_vals ex_bridge) (dyn_heap ex_bridge)
      4 now ltac:(done) Htime (fun _ => timed ex_bridge <$> ex_table) 6 (fun w t w1 => ex_later now w t w1 Hnow)
      ltac:(vm_compute; lia) w t w2 m El Ed) as Hb.
    unfold wpm in Hb. rewrite Eb in Hb. destruct Hb as [_ []]. apply ex_lock in El as [-> _].
    exact ex_learned_free.
  - apply ex_lock in El as [_ ->]. injection Eu as Eu <-. unfold ex_retries. cbn.
    rewrite Z.add_1_r, Z.odd_succ, <- Z.negb_odd, Eu. cbn. lia.
Qed.

Lemma bridge_pkt_handler_spec_witness :
  nf_dst_device (fst (snd (pkt_handler ex_bridge 1 9 5 (ex_bridge_mem 2 1, ex_learned)))) = 3 /\
  let (room, M') := bridge_learn 4 9 5 (ex_mac 2) ex_table in
  match pkt_handler ex_bridge 1 9 5 (ex_bridge_mem 2 1, ex_learned) with
  | (Some tt, (m', t')) => bridge_rep ex_bridge 4 9 t' M' /\
      m' = if room then set_dst_device (bridge_out (ex_mac 1) M') (ex_bridge_mem 2 1) else ex_bridge_mem 2 1
  | (None, (m', _)) => m' = ex_bridge_mem 2 1 /\ ~ no_conflict ex_learned
  end.
Proof.
  split; [vm_compute; reflexivity|].
  apply (bridge_pkt_handler_spec ex_bridge 4 1 7 9 5 (ex_bridge_mem 2 1) ex_learned ex_table
    ltac:(done) ltac:(lia) ltac:(done) ex_learned_rep).
Defined.

(** A run at time 100 removes the address seen at time 7. *)
Abbreviation ex_run100 := (expire_indexes (dyn_map ex_bridge) (dyn_macs ex_bridge) (dyn_heap ex_bridge) 100 6).
Abbreviation ex_failed100 := (rtc (failed (W := Z) exp_reset (fun m => m) ex_run100)).
Lemma exp_mac_spec_witness :
  exists m w', exp_mac ex_bridge 100 6 2 0 1 = Some (true, (m, w')) /\
  exists m0 w0 t w1 t1, ex_failed100 (ExpMem 0 false, 1) (m0, w0) /\
    reader_lock w0 = (t, w1) /\ ex_run100 (exp_reset m0, t) = (Some true, (m, t1)) /\ reader_unlock t1 w1 = (true, w') /\
    (bridge_rep ex_bridge 4 100 t1 (seen_since ex_bridge 100 ex_table) \/
     t1 = t /\ exists ma wa ta wb mb tb wc, ex_failed100 (ExpMem 0 false, 1) (ma, wa) /\
       reader_lock wa = (ta, wb) /\ ex_run100 (exp_reset ma, ta) = (Some true, (mb, tb)) /\
       bridge_rep ex_bridge 4 100 tb (seen_since ex_bridge 100 ex_table) /\
       reader_unlock tb wb = (false, wc) /\ ex_failed100 (mb, nfos_abort_txn tb wc) (m0, w0)).
Proof.
  exact (exp_mac_spec ex_bridge 4 100 0 6 2 ex_retries 1 (fun _ => ex_table) ltac:(done) ltac:(by vm_compute)
    (fun w t w1 => ex_later 100 w t w1 ltac:(lia)) ltac:(vm_compute; lia)
    (fun m w m1 w1 => ex_bridge_retry 100 m w m1 w1 ltac:(lia) ltac:(by vm_compute)) ltac:(cbn; lia)).
Defined.

Lemma bridge_nf_init_spec_witness :
  (exists f m, alloc_state (BridgeConfig 10 4) (fun _ => true) 4 (fun _ => MapEntry 0 0 0 0 no_mac) (fun _ => no_mac)
     (fun _ => no_mac) (fun _ => MacEntry 0 0) (fun _ => MacEntry 0 0) (fun _ => ExpCell 0 0 0 0)
     (fun x => x) 3 = Some (InitState f m)) /\
  match nf_init (fun i => negb (i =? 2)) (Z.to_nat MAC_TABLE_SIZE) (fun _ => MapEntry 0 0 0 0 no_mac) (fun _ => no_mac)
     (fun _ => no_mac) (fun _ => MacEntry 0 0) (fun _ => MacEntry 0 0) (fun _ => ExpCell 0 0 0 0)
     (fun x => x) 3 with
  | Some (InitState f m) =>
      f = NfFlags false false false /\ (forall i, 0 <= i < 8 -> negb (i =? 2) = true) /\
      forall T mm mk mv mc crc (t : T) now, reads_fresh m mm mc t ->
      - 2 ^ 63 <= now + em_validity_duration (bm_heap m) ->
      bridge_rep (bridge_state m mm mk mv mc crc) (2 * (MAC_TABLE_SIZE / 2)) now t ∅
  | Some InitNull => (forall i, 0 <= i < 6 -> negb (i =? 2) = true) /\
      (negb (6 =? 2) = false \/ negb (7 =? 2) = false)
  | Some InitCrash => exists i, 0 <= i < 6 /\ negb (i =? 2) = false
  | None => False
  end.
Proof.
  split; [do 2 eexists; vm_compute; reflexivity|].
  apply (bridge_nf_init_spec (fun i => negb (i =? 2)) (Z.to_nat MAC_TABLE_SIZE) (fun _ => MapEntry 0 0 0 0 no_mac)
    (fun _ => no_mac) (fun _ => no_mac) (fun _ => MacEntry 0 0) (fun _ => MacEntry 0 0) (fun _ => ExpCell 0 0 0 0)
    (fun x => x) 3 ltac:(unfold MAC_TABLE_SIZE; lia) ltac:(rewrite Z2Nat.id; [apply Z.le_refl|done])).
Defined.

(** *** Where the code does not do what it means to *)

(** expiration_done is still set when the section restarts after a failed
    read validation: with a runtime that keeps what commits, the address seen
    at time 7 outlives a run at time 100. *)
Definition ex_committing : RluRuntime (Z * bridge_txn) bridge_txn := {|
  reader_lock w := (w.2, w);
  reader_unlock t w := if Z.odd w.1 then (true, (w.1 + 1, t)) else (false, (w.1 + 1, w.2));
  rlu_abort _ w := w
|}.
Definition ex_expired (n : Z) : option (option Z) :=
  match @exp_mac bridge_txn ex_bridge 100 _ ex_committing 6 2 0 (n, ex_learned) with
  | Some (_, (_, (_, t))) => fst (nfos_map_get_t (dyn_map ex_bridge) (ex_mac 1) t)
  | None => None
  end.
Lemma exp_mac_skipped : ex_expired 1 = Some None /\ ex_expired 0 = Some (Some 0).
Proof. vm_compute. auto. Qed.

(** A packet whose source cannot be learned is not forwarded, though its
    destination is in the table. *)
Definition ex_full : bridge_txn :=
  foldl (fun t x => snd (snd (pkt_handler ex_bridge 0 8 5 (ex_bridge_mem x 9, t)))) ex_learned [2; 3; 4].
Lemma full_table_drops :
  fst (nfos_map_get_t (dyn_map ex_bridge) (ex_mac 1) ex_full) = Some (Some 0) /\
  nf_dst_device (fst (snd (pkt_handler ex_bridge 0 9 5 (ex_bridge_mem 8 1, ex_full)))) = 9.
Proof. vm_compute. auto. Qed.
