(* ===== verification/NfMain.v ===== *)
(** * The cores' main loops

    src/src/nf.c, without its build options LOAD_BALANCING, FLOW_PERF_BENCH
    and DEBUG_REAL_NOP: a data-plane core expires packet sets, receives a
    burst, processes it and sends or frees every buffer; the last core runs
    the NF's periodic handler.  DPDK's queues are a parameter. *)

From stdpp Require Import gmap.
From S2P Require Import Prelude Rlu Txn NfosMap Links ConcDchain ConcMap PktSet DataPlane.
Open Scope Z_scope.

Definition VIGOR_BATCH_SIZE : Z := 32.

(** ** Timers (include/timer.h) *)

(** [tsc]: what rte_get_tsc_cycles returns; the core's curr_time is state. *)
Definition nfos_timer_tick (tsc : Z) : Z := i64 tsc.
Definition nfos_get_time (curr_time : Z) : Z := curr_time.
Definition get_curr_time (curr_time : Z) : Z := nfos_get_time curr_time.
Definition nfos_usec_to_tsc_cycles (tsc_hz usecs : Z) : Z := i64 (u64 (tsc_hz / 1000000 * u64 usecs)).

(** ** Registration and configuration *)

Record nf_globals (H S : Type) := Globals {
  periodic_handler : option H;
  periodic_handler_period : Z;
  non_pkt_set_state : option S;
  do_expiration : bool
}.
Arguments Globals {H S} _ _ _ _.
Arguments periodic_handler {H S} _.
Arguments periodic_handler_period {H S} _.
Arguments non_pkt_set_state {H S} _.
Arguments do_expiration {H S} _.

Definition register_periodic_handler {H S} (period_len : Z) (handler : H) (g : nf_globals H S)
    : bool * nf_globals H S :=
  (true, Globals (Some handler) period_len (non_pkt_set_state g) (do_expiration g)).

Definition register_pkt_handlers {H : Type} (handlers old : Z -> H) : bool * (Z -> H) :=
  _register_pkt_handlers handlers old.

(** The functions the cores run: all but the last process packets. *)
Inductive lcore_function := ProcessMain | PeriodicHandlerMain.
Definition lcore_funcs (num_lcores lcore : Z) : lcore_function :=
  if lcore <? num_lcores - 1 then ProcessMain else PeriodicHandlerMain.
(** The core's number for RLU and the function it calls. *)
Definition lcore_entry (num_lcores lcore_ind : Z) : Z * lcore_function :=
  (lcore_ind, lcore_funcs num_lcores lcore_ind).

(** ** Bursts *)

(** [D]: the state of the devices, [Mb]: buffers, [B]: what they hold. *)
Class Dpdk (D Mb B : Type) := {
  rte_eth_rx_burst : Z -> Z -> Z -> D -> list Mb * D;          (* device, queue, at most *)
  rte_eth_tx_burst : Z -> Z -> list Mb -> D -> Z * D;          (* device, queue: sent *)
  rte_pktmbuf_mtod : Mb -> B;
  data_len : Mb -> Z;
  port : Mb -> Z
}.

(** A received buffer names its device; a burst that is sent is accepted from
    its front, and not more than it is given. *)
Class DpdkLaws (D Mb B : Type) `{Dpdk D Mb B} := {
  rx_port dev q n d m : m ∈ fst (rte_eth_rx_burst dev q n d) -> port m = dev;
  tx_sent dev q ms d : 0 <= fst (rte_eth_tx_burst dev q ms d) <= Z.of_nat (length ms)
}.

(** mbufs_to_send, mbuf_send_index and the buffers given back so far. *)
Record send_queues (Mb : Type) := SendQueues {
  mbufs_to_send : Z -> Z -> Mb;
  mbuf_send_index : Z -> Z;
  freed : list Mb
}.
Arguments SendQueues {Mb} _ _ _.
Arguments mbufs_to_send {Mb} _.
Arguments mbuf_send_index {Mb} _.
Arguments freed {Mb} _.

Section bursts.
Context {Mb : Type} (VIGOR_DEVICES_COUNT VIGOR_DEVICE : Z).
Implicit Types q : send_queues Mb.

Definition rte_pktmbuf_free (m : Mb) q : send_queues Mb :=
  SendQueues (mbufs_to_send q) (mbuf_send_index q) (freed q ++ [m]).

(** mbufs_to_send[dst][mbuf_send_index[dst]++] = mbuf; *)
Definition enqueue (dst : Z) (m : Mb) q : send_queues Mb :=
  let n := mbuf_send_index q dst in
  SendQueues (<[dst := <[n := m]> (mbufs_to_send q dst)]> (mbufs_to_send q))
    (<[dst := n + 1]> (mbuf_send_index q)) (freed q).

(** [None]: the assertion on the number of devices fails. *)
Definition dispatch (m : Mb) (dst_device : Z) q : option (send_queues Mb) :=
  if dst_device =? VIGOR_DEVICE then Some (rte_pktmbuf_free m q)
  else if dst_device =? FLOOD_PORT then
    if VIGOR_DEVICES_COUNT =? 2 then Some (enqueue (u16 (1 - VIGOR_DEVICE)) m q) else None
  else Some (enqueue dst_device m q).

Fixpoint dispatch_all (l : list (Mb * Z)) q : option (send_queues Mb) :=
  match l with
  | [] => Some q
  | (m, dst) :: l => match dispatch m dst q with Some q => dispatch_all l q | None => None end
  end.

(** The buffers queued for a device. *)
Definition queued q (dev : Z) : list Mb := mbufs_to_send q dev <$> seqZ 0 (mbuf_send_index q dev).

Context {D B : Type} `{Dpdk D Mb B}.

(** Send what is queued; what is not accepted is freed.  The buffers that are
    transmitted are returned with their device. *)
Definition tx_device (lcore i : Z) (q : send_queues Mb) (d : D) : list (Z * Mb) * (send_queues Mb * D) :=
  if mbuf_send_index q i >? 0 then
    let (sent_count, d) := rte_eth_tx_burst i lcore (queued q i) d in
    (pair i <$> take (Z.to_nat sent_count) (queued q i),
     (SendQueues (mbufs_to_send q) (mbuf_send_index q)
        (freed q ++ drop (Z.to_nat sent_count) (queued q i)), d))
  else ([], (q, d)).

Fixpoint tx_all (n : nat) (lcore i : Z) (q : send_queues Mb) (d : D)
    : list (Z * Mb) * (send_queues Mb * D) :=
  match n with
  | O => ([], (q, d))
  | Datatypes.S n =>
      let '(out, (q, d)) := tx_device lcore i q d in
      let '(out', (q, d)) := tx_all n lcore (i + 1) q d in
      (out ++ out', (q, d))
  end.
End bursts.

(** flood(): every device but one is offered the frame. *)
Definition flood {D Mb B} `{Dpdk D Mb B} (frame : Mb) (skip_device nb_devices txq : Z) (d : D)
    : bool * (Z * D) :=
  let '(total_sent, d) :=
    loop_range 0 (Z.to_nat nb_devices) (fun device '(total_sent, d) =>
      if device =? skip_device then (total_sent, d)
      else let (n, d) := rte_eth_tx_burst device txq [frame] d in (total_sent + n, d)) (0, d) in
  (negb (total_sent =? nb_devices - 1), (total_sent, d)).

(** ** One round of a data-plane core for a device *)

Section process_main.
Context {D Mb B P K S W T : Type} `{Dpdk D Mb B} `{RluRuntime W T} `{NfHandlers B P K S T}.
Context (keys_eq : K -> K -> bool) (khash : K -> Z) (num_cores MAX_NUM_PKT_SETS : Z).
Variables (mutable do_expiration : bool) (pkt_handlers : Z -> pkt_handler_t P K S T).
Variables (nf_expired_pkt_set_handler : M (S * T) unit) (fuel : nat) (uninit lcore now : Z).
Variables (VIGOR_DEVICES_COUNT VIGOR_DEVICE : Z).

Definition expire_round (g : pkt_set_manager K S) (w : W) : option (pkt_set_manager K S * W) :=
  if do_expiration then
    match delete_expired_pkt_sets keys_eq khash num_cores MAX_NUM_PKT_SETS nf_expired_pkt_set_handler
            fuel fuel now lcore g w with
    | None => None
    | Some (_, (g, w)) => Some (g, w)
    end
  else Some (g, w).

(** The build without PKT_PROCESS_BATCHING. *)
Fixpoint process_burst (mbufs : list Mb) (q : send_queues Mb) (l : core_mem P K S) (w : W)
    : option (send_queues Mb * (core_mem P K S * W)) :=
  match mbufs with
  | [] => Some (q, (l, w))
  | m :: mbufs =>
      match process_pkt keys_eq khash num_cores MAX_NUM_PKT_SETS mutable pkt_handlers fuel uninit lcore
              (port m) (rte_pktmbuf_mtod m) (data_len m) now lcore l w with
      | None => None
      | Some (dst_device, (l, w)) =>
          match dispatch VIGOR_DEVICES_COUNT VIGOR_DEVICE m dst_device q with
          | None => None
          | Some q => process_burst mbufs q l w
          end
      end
  end.

(** What is left on the stack in mbufs_to_send is [uninit_mbufs]. *)
Definition main_round (uninit_mbufs : Z -> Z -> Mb) (d : D) (l : core_mem P K S) (w : W)
    : option ((list Mb * (list (Z * Mb) * send_queues Mb)) * (D * (core_mem P K S * W))) :=
  match expire_round (nf_manager (nf l)) w with
  | None => None
  | Some (g, w) =>
      let l := Core (set_manager g (nf l)) (pkt_set_state_log l) in
      let q := SendQueues uninit_mbufs (fun _ => 0) [] in
      let (mbufs, d) := rte_eth_rx_burst VIGOR_DEVICE lcore VIGOR_BATCH_SIZE d in
      match process_burst mbufs q l w with
      | None => None
      | Some (q, (l, w)) =>
          let '(out, (q, d)) := tx_all (Z.to_nat VIGOR_DEVICES_COUNT) lcore 0 q d in
          Some ((mbufs, (out, q)), (d, (l, w)))
      end
  end.

(** The build with PKT_PROCESS_BATCHING, after process_pkt. *)
Definition batch_round (mbufs : list Mb) (dst_devices : Z -> Z) (uninit_mbufs : Z -> Z -> Mb) (d : D)
    : option (list (Z * Mb) * (send_queues Mb * D)) :=
  match dispatch_all VIGOR_DEVICES_COUNT VIGOR_DEVICE
          (zip mbufs (dst_devices <$> seqZ 0 (Z.of_nat (length mbufs))))
          (SendQueues uninit_mbufs (fun _ => 0) []) with
  | None => None
  | Some q => Some (tx_all (Z.to_nat VIGOR_DEVICES_COUNT) lcore 0 q d)
  end.
End process_main.

(** ** The last core *)

(** Rounds of periodic_handler_main; [tsc]: the clock at each round. *)
Fixpoint periodic_rounds {X : Type} (handler : Z -> X -> X) (tsc : list Z) (x : X) : X :=
  match tsc with
  | [] => x
  | t :: tsc => periodic_rounds handler tsc (handler (nfos_get_time (nfos_timer_tick t)) x)
  end.
(** The counters of the NICs, as rte_eth_stats_get leaves them. *)
Definition update_dev_stats {St : Type} (rte_eth_stats_get : Z -> St -> St) (nb_devices : Z)
    (dev_stats : Z -> St) : Z -> St :=
  loop_range 0 (Z.to_nat nb_devices) (fun port s => <[port := rte_eth_stats_get port (s port)]> s) dev_stats.
Definition periodic_handler_main {X S St : Type} (rte_eth_stats_get : Z -> St -> St) (nb_devices : Z)
    (g : nf_globals (Z -> X -> X) S) (tsc : list Z) (dev_stats : Z -> St) (x : X) : (Z -> St) * X :=
  (update_dev_stats rte_eth_stats_get nb_devices dev_stats,
   match periodic_handler g with
   | Some handler => periodic_rounds handler tsc x
   | None => x
   end).

(** ** Every buffer goes somewhere, once *)

Lemma bind_append {A B} `{EqDecision A} (f f' : A -> list B) l a b :
  NoDup l -> a ∈ l -> f' a = f a ++ [b] -> (forall a', a' <> a -> f' a' = f a') ->
  l ≫= f' ≡ₚ b :: (l ≫= f).
Proof.
  intros Hnd Ha E Hne. induction l as [|a' l IH]; [by apply not_elem_of_nil in Ha|].
  apply NoDup_cons in Hnd as [Hn Hnd]. cbn. destruct (decide (a' = a)) as [->|Ha'].
  - assert (l ≫= f' = l ≫= f) as ->.
    { clear - Hn Hne. induction l as [|x l IH]; [done|]. cbn.
      rewrite IH by (intros ?; apply Hn; by right). rewrite Hne; [done|]. intros ->. apply Hn. left. }
    rewrite E. by rewrite <- app_assoc, Permutation_middle.
  - apply elem_of_cons in Ha as [?|Ha]; [congruence|]. rewrite Hne, (IH Hnd Ha) by done.
    by rewrite Permutation_middle.
Qed.

Section conserved.
Context {Mb D B : Type} `{Dpdk D Mb B, !DpdkLaws D Mb B}.
Variables (devs dev : Z).
Hypothesis (Hdev : 0 <= dev < devs).
Implicit Types q : send_queues Mb.

(** Where a handler may send a packet. *)
Definition dst_ok (dst : Z) : Prop := dst = FLOOD_PORT \/ 0 <= dst < devs.

(** The buffers [done] have all been freed or queued, and for another device. *)
Record accounted (q : send_queues Mb) (handled : list Mb) : Prop := {
  acc_index i : 0 <= mbuf_send_index q i;
  acc_all : freed q ++ (seqZ 0 devs ≫= queued q) ≡ₚ handled;
  acc_other : mbuf_send_index q dev = 0
}.

Lemma accounted_enqueue q handled dst m :
  accounted q handled -> 0 <= dst < devs -> dst <> dev -> accounted (enqueue dst m q) (m :: handled).
Proof.
  intros [Hi Ha Ho] Hd Hne. split.
  - intros i. cbn. fcases; [pose proof (Hi i); lia|apply Hi].
  - rewrite <- Ha. cbn [freed enqueue]. rewrite Permutation_middle. apply Permutation_app_head.
    apply (bind_append _ _ _ dst); [apply NoDup_seqZ|apply elem_of_seqZ; lia| |].
    + unfold queued. cbn. rewrite !fn_lookup_insert, seqZ_app by (try apply Hi; lia).
      rewrite fmap_app, Z.add_0_l. f_equal.
      * apply list_fmap_ext. intros n x Hx%lookup_seqZ. rewrite fn_lookup_insert_ne; [done|lia].
      * by rewrite (seqZ_cons _ 1), fmap_cons, fn_lookup_insert by lia.
    + intros i Hni. unfold queued. cbn. by rewrite !fn_lookup_insert_ne by done.
  - cbn. by rewrite fn_lookup_insert_ne.
Qed.

Lemma accounted_dispatch q handled m dst q' :
  accounted q handled -> dst_ok dst -> dispatch devs dev m dst q = Some q' ->
  accounted q' (m :: handled).
Proof.
  intros Hq Hdst. unfold dispatch. destruct (Z.eqb_spec dst dev) as [->|Hne].
  - intros [= <-]. destruct Hq as [Hi Ha Ho]. split; [done| |done]. cbn.
    rewrite <- app_assoc. cbn. rewrite <- Permutation_middle. by constructor.
  - destruct (Z.eqb_spec dst FLOOD_PORT) as [->|Hf].
    + destruct (Z.eqb_spec devs 2) as [E|]; [|done]. intros [= <-].
      rewrite u16_id by lia. apply accounted_enqueue; [done|lia|lia].
    + intros [= <-]. destruct Hdst as [?|?]; [done|]. by apply accounted_enqueue.
Qed.

Lemma accounted_dispatch_all l : forall q handled q',
  accounted q handled -> (forall m dst, (m, dst) ∈ l -> dst_ok dst) ->
  dispatch_all devs dev l q = Some q' -> accounted q' (rev l.*1 ++ handled).
Proof.
  induction l as [|[m dst] l IH]; intros q handled q' Hq Hl; cbn; [by intros [= <-]|].
  destruct (dispatch devs dev m dst q) as [q1|] eqn:E; [|done]. intros E'.
  rewrite <- app_assoc. apply (IH q1); [|by intros; apply (Hl m0); right|done].
  apply (accounted_dispatch q handled m dst); [done| |done]. apply (Hl m). left.
Qed.

Lemma tx_all_spec lcore n : forall i q d out q' d',
  tx_all n lcore i q d = (out, (q', d')) -> (forall j, 0 <= mbuf_send_index q j) ->
  out.*2 ++ freed q' ≡ₚ freed q ++ (seqZ i (Z.of_nat n) ≫= queued q) /\
  forall j m, (j, m) ∈ out -> 0 < mbuf_send_index q j /\ i <= j < i + Z.of_nat n.
Proof.
  induction n as [|n IH]; intros i q d out q' d'; cbn [tx_all].
  { intros [= <- <- <-] _. split; [|by intros j m ?%not_elem_of_nil].
    cbn. by rewrite app_nil_r. }
  destruct (tx_device lcore i q d) as [out1 [q1 d1]] eqn:E1.
  destruct (tx_all n lcore (i + 1) q1 d1) as [out2 [q2 d2]] eqn:E2. intros [= <- <- <-] Hi.
  assert (mbuf_send_index q1 = mbuf_send_index q /\ mbufs_to_send q1 = mbufs_to_send q /\
    out1.*2 ++ freed q1 ≡ₚ freed q ++ queued q i /\
    forall j m, (j, m) ∈ out1 -> 0 < mbuf_send_index q j /\ j = i) as (Hidx & Hmb & Hp1 & Ho1).
  { revert E1. unfold tx_device. destruct (Z.gtb_spec (mbuf_send_index q i) 0) as [Hpos|Hz].
    - destruct (rte_eth_tx_burst i lcore (queued q i) d) as [sent d3]. intros [= <- <- <-].
      do 2 (split; [done|]). split.
      + cbn. rewrite <- list_fmap_compose. cbn. rewrite list_fmap_id.
        rewrite (Permutation_app_comm (freed q) (drop _ _)), app_assoc, take_drop.
        apply Permutation_app_comm.
      + intros j m (m' & [= -> ->] & _)%list_elem_of_fmap. by split.
    - intros [= <- <- <-]. do 2 (split; [done|]). split; [|by intros j m ?%not_elem_of_nil].
      unfold queued. replace (mbuf_send_index q i) with 0 by (pose proof (Hi i); lia).
      cbn. by rewrite app_nil_r. }
  destruct (IH _ _ _ _ _ _ E2) as [Hp2 Ho2]; [by rewrite Hidx|]. split.
  - rewrite fmap_app, <- app_assoc, Hp2.
    replace (Z.of_nat (S n)) with (Z.succ (Z.of_nat n)) by lia.
    rewrite (seqZ_cons i) by lia. replace (Z.succ i) with (i + 1) by lia.
    replace (Z.pred (Z.succ (Z.of_nat n))) with (Z.of_nat n) by lia. cbn.
    rewrite app_assoc, Hp1, <- app_assoc.
    assert (forall l, l ≫= queued q1 = l ≫= queued q) as ->; [|done].
    intros l. induction l as [|x l IHl]; [done|]. cbn. rewrite IHl. unfold queued. by rewrite Hidx, Hmb.
  - intros j m [Hin|Hin]%elem_of_app.
    + destruct (Ho1 j m Hin) as [Hpos ->]. split; [done|lia].
    + destruct (Ho2 j m Hin) as [Hpos Hr]. rewrite Hidx in Hpos. split; [done|lia].
Qed.

(** What leaves a round, for the buffers it has handled. *)
Lemma round_conserves lcore q handled d out q' d' :
  accounted q handled -> tx_all (Z.to_nat devs) lcore 0 q d = (out, (q', d')) ->
  out.*2 ++ freed q' ≡ₚ handled /\ forall j m, (j, m) ∈ out -> 0 <= j < devs /\ j <> dev.
Proof.
  intros [Hi Ha Ho] E. destruct (tx_all_spec _ _ _ _ _ _ _ _ E Hi) as [Hp Hj].
  rewrite Z2Nat.id in Hp, Hj by lia. split; [by rewrite Hp|].
  intros j m Hin. destruct (Hj j m Hin) as [Hpos Hr]. split; [lia|]. intros ->. lia.
Qed.

Lemma accounted_init (uninit_mbufs : Z -> Z -> Mb) :
  accounted (SendQueues uninit_mbufs (fun _ => 0) []) [].
Proof.
  split; [done| |done]. cbn. induction (seqZ 0 devs) as [|x l IH]; [done|]. by cbn.
Qed.
End conserved.

(** ** A round of a data-plane core *)

Section round.
Context {D Mb B P K S W T : Type} `{Dpdk D Mb B, !DpdkLaws D Mb B} `{RluRuntime W T}.
Context `{NfHandlers B P K S T} `{Countable K}.
Context (keys_eq : K -> K -> bool) (khash : K -> Z) (N MAX : Z).
Variables (mutable do_expiration : bool) (pkt_handlers : Z -> pkt_handler_t P K S T).
Variables (nf_expired : M (S * T) unit) (fuel : nat) (retries : W -> nat).
Variables (uninit lcore now devs dev : Z).

(** Handlers leave dst_device what it is or send to [Q]. *)
Definition nf_sends (Q : Z -> Prop) : Prop :=
  forall (h : M (nf_mem P K S * T) unit),
  (exists class i k, h = pkt_handlers class dev i k) \/ (exists k, h = nf_unknown_pkt_set_handler dev k) ->
  forall m t r m' t', h (m, t) = (r, (m', t')) -> Q (nf_dst_device m) -> Q (nf_dst_device m').

(** [retries] bounds how often the handlers' attempts still fail. *)
Definition nf_retries : Prop :=
  forall (h : M (nf_mem P K S * T) unit) pre undo l w l1 w1,
  (exists class i k, h = pkt_handlers class dev i k) \/ (exists k, h = nf_unknown_pkt_set_handler dev k) ->
  attempt pre undo (on_core h) l w None l1 w1 -> (retries w1 < retries w)%nat.

Lemma run_txn_dst (Q : Z -> Prop) h pre undo l w u (l' : core_mem P K S) w' :
  nf_sends Q ->
  (exists class i k, h = pkt_handlers class dev i k) \/ (exists k, h = nf_unknown_pkt_set_handler dev k) ->
  (forall l, nf_dst_device (nf (pre l)) = nf_dst_device (nf l)) ->
  (forall l, nf_dst_device (nf (undo l)) = nf_dst_device (nf l)) ->
  run_txn pre undo (on_core h) fuel l w = Some (u, (l', w')) ->
  Q (nf_dst_device (nf l)) -> Q (nf_dst_device (nf l')).
Proof.
  intros HQ Hh Hpre Hundo Hrun Hl.
  apply (run_txn_commits _ _ _ (fun l => Q (nf_dst_device (nf l)))) in Hrun
    as (l0 & t & t1 & Hl0 & _ & [Hb _]%on_core_inv); [| |done].
  - apply (HQ h Hh _ _ _ _ _ Hb). by rewrite Hpre.
  - intros l0 t r l1 t1 Hl0 _ [Hb _]%on_core_inv. rewrite Hundo.
    apply (HQ h Hh _ _ _ _ _ Hb). by rewrite Hpre.
Qed.

Lemma process_pkt_dst (Q : Z -> Prop) buffer len l w dst l' w' :
  nf_sends Q -> Q dev ->
  process_pkt keys_eq khash N MAX mutable pkt_handlers fuel uninit lcore dev buffer len now lcore l w =
    Some (dst, (l', w')) -> Q dst.
Proof.
  intros HQ Hdev. unfold process_pkt. destruct (nf_pkt_parser _ _ _) as [[] p]; [|by intros [= <- _ _]].
  destruct (nf_pkt_dispatcher p dev) as [[class k] has]. destruct has; cbn [negb].
  - destruct (get_pkt_set_state _ _ _ _ _ _ _ _ _) as [[[i|] g]|]; [| |done].
    + destruct (run_txn _ _ _ _ _ _) as [[u [l1 w1]]|] eqn:Er; [|done]. intros [= <- _ _].
      apply (run_txn_dst Q) in Er; [done|done|by eauto| | |done];
        intros l0; unfold log_pkt_set_state, rollback_pkt_set_state; by destruct mutable.
    + destruct (run_txn _ _ _ _ _ _) as [[u [l1 w1]]|] eqn:Er; [|done].
      destruct (add_pkt_set_commit _ _ _ _ _ _ _ _ _ _); [|done]. intros [= <- _ _].
      by apply (run_txn_dst Q) in Er; [|done|by eauto| | |].
  - destruct (run_txn _ _ _ _ _ _) as [[u [l1 w1]]|] eqn:Er; [|done]. intros [= <- _ _].
    by apply (run_txn_dst Q) in Er; [|done|by eauto| | |].
Qed.

Hypotheses (Heq : forall k k', keys_eq k k' = true <-> k = k') (HN : 0 < N <= MAX).
Hypotheses (Hpart : 0 <= lcore < N) (Hfuel : 2 * MAX <= Z.of_nat fuel).
Hypotheses (Hdev : 0 <= dev < devs /\ devs <= FLOOD_PORT) (Hnf : nf_contract N mutable pkt_handlers lcore lcore).
Hypotheses (Hw : forall w, (retries w < fuel)%nat) (Hretry : nf_retries).

(** The table of packet sets between two packets. *)
Definition table_ok (abs : Z -> list (session K S)) (l : core_mem P K S) : Prop :=
  has_related_pkt_sets (nf_manager (nf l)) = false /\
  exists sessions, pkt_rep khash N MAX (nf_manager (nf l)) (<[lcore := sessions]> abs).

Lemma process_pkt_ok (Q : Z -> Prop) buffer len l w abs :
  nf_sends Q -> Q dev -> table_ok abs l ->
  exists dst l' w', process_pkt keys_eq khash N MAX mutable pkt_handlers fuel uninit lcore dev buffer len
    now lcore l w = Some (dst, (l', w')) /\ Q dst /\ table_ok abs l'.
Proof.
  intros HQ Hdst [Hrel [ss Hr]].
  assert (fresh_related lcore dev (has_related_pkt_sets (nf_manager (nf l))) buffer len (nf_packet (nf l))
    ((<[lcore := ss]> abs : Z -> list (session K S)) lcore)) as Hf by (by rewrite Hrel).
  destruct (process_pkt_total keys_eq khash N MAX mutable pkt_handlers lcore lcore dev now Heq HN Hpart
    Hnf fuel retries uninit len buffer l w _ Hfuel (Hw w) Hf Hretry Hr) as (dst & l' & w' & E).
  exists dst, l', w'. split; [done|]. split; [by eapply process_pkt_dst|].
  destruct (process_pkt_spec keys_eq khash N MAX mutable pkt_handlers lcore lcore dev now Heq HN Hpart
    Hnf fuel uninit len dst buffer l l' w w' _ Hfuel Hf Hr E) as [(ss' & Hr' & _) Hk].
  split; [by rewrite Hk|]. exists ss'. eapply pkt_rep_ext; [|exact Hr']. intros c. clear. fcases; done.
Qed.

Lemma process_burst_ok mbufs : forall q handled l w abs,
  nf_sends (fun dst => 0 <= dst < devs \/ dst = FLOOD_PORT /\ devs = 2) ->
  (forall m, m ∈ mbufs -> port m = dev) -> table_ok abs l -> accounted devs dev q handled ->
  exists q' l' w', process_burst keys_eq khash N MAX mutable pkt_handlers fuel uninit lcore now devs dev
    mbufs q l w = Some (q', (l', w')) /\ table_ok abs l' /\ accounted devs dev q' (rev mbufs ++ handled).
Proof.
  induction mbufs as [|m mbufs IH]; intros q handled l w abs HQ Hp Hl Hq; cbn [process_burst].
  { by exists q, l, w. }
  rewrite (Hp m) by left.
  destruct (process_pkt_ok _ (rte_pktmbuf_mtod m) (data_len m) l w abs HQ ltac:(cbv beta; left; lia) Hl)
    as (dst & l1 & w1 & -> & Hd & Hl1).
  assert (exists q1, dispatch devs dev m dst q = Some q1) as [q1 Eq1].
  { unfold dispatch. destruct (dst =? dev); [eauto|]. destruct (Z.eqb_spec dst FLOOD_PORT) as [->|]; [|eauto].
    destruct Hd as [[_ ?]|[_ ->]]; [lia|cbn; eauto]. }
  rewrite Eq1. apply (accounted_dispatch devs dev ltac:(lia) _ handled) in Eq1; [|done|unfold dst_ok; tauto].
  destruct (IH q1 (m :: handled) l1 w1 abs HQ) as (q' & l' & w' & -> & Hl' & Hq');
    [by intros; apply Hp; right|done|done|].
  exists q', l', w'. split; [done|]. split; [done|]. cbn. by rewrite <- app_assoc.
Qed.

(** [nf_expired] fails finitely often, too. *)
Definition expiry_retries : Prop := forall st w st1 w1,
  attempt (fun st => st) (fun st => st) nf_expired st w None st1 w1 -> (retries w1 < retries w)%nat.

(** What expiry leaves of a core's packet sets, in the order of their last
    use: if it is done, those that are not out of date, after the NF has
    been told of the others. *)
Definition unexpired (validity : Z) (before : list (session K S)) (w : W)
    (kept : list (session K S)) (w' : W) : Prop :=
  if do_expiration then
    expires nf_expired (now - validity) before w kept w' /\
    (StronglySorted Z.le (s_time <$> before) -> kept = filter (fun s => now - validity <= s_time s) before)
  else kept = before /\ w' = w.

Lemma expire_round_ok g w abs : expiry_retries ->
  0 <= now < 2 ^ 63 -> 0 <= pkt_set_validity_duration g < 2 ^ 63 ->
  pkt_rep khash N MAX g abs -> exists kept g' w',
  expire_round keys_eq khash N MAX do_expiration nf_expired fuel lcore now g w = Some (g', w') /\
  unexpired (pkt_set_validity_duration g) (abs lcore) w kept w' /\
  pkt_rep khash N MAX g' (<[lcore := kept]> abs) /\ has_related_pkt_sets g' = has_related_pkt_sets g.
Proof using Heq HN Hpart Hfuel Hw.
  clear uninit devs mutable Hdev Hnf Hretry pkt_handlers dev. intros Hre Hnow Hv Hr. unfold expire_round, unexpired, delete_expired_pkt_sets. destruct do_expiration.
  - rewrite last_time_id by done. pose proof (sessions_few khash N MAX HN g abs lcore Hr) as Hfew.
    destruct (expire_loop_returns keys_eq khash N MAX Heq HN nf_expired retries (now - pkt_set_validity_duration g) fuel lcore
      Hre Hw Hpart Hfuel fuel g 0 w abs ltac:(lia) Hr) as (kept & g' & w' & count & -> & He & Hr' & Hrel).
    exists kept, g', w'. split; [done|]. split; [|done]. split; [done|]. by eapply expires_filter.
  - exists (abs lcore), g, w. split; [done|]. split; [done|]. split; [|done].
    eapply pkt_rep_ext; [|exact Hr]. intros c. clear. fcases; done.
Qed.
End round.

(** ** Properties *)

(** C14: a round of a data-plane core: when the NF keeps its contract, sends
    to existing devices (or floods, with two devices) and its critical
    sections, that of its expiry handler included, fail finitely often, the
    round returns; expiry, if the NF asks for it, removes the core's packet
    sets that are out of date, after the NF's handler has committed for each;
    the round changes the table of packet sets of this core only, and every
    buffer that was received is freed or transmitted, exactly once and never
    to the device it came from. *)
Theorem main_round_spec {D Mb B P K S W T} `{Dpdk D Mb B, !DpdkLaws D Mb B, RluRuntime W T}
    `{NfHandlers B P K S T, Countable K} (keys_eq : K -> K -> bool) (khash : K -> Z) (N MAX : Z)
    (mutable do_expiration : bool) (pkt_handlers : Z -> pkt_handler_t P K S T)
    (nf_expired : M (S * T) unit) (fuel : nat) (retries : W -> nat) (uninit lcore now devs dev : Z)
    (uninit_mbufs : Z -> Z -> Mb) (d : D) (l : core_mem P K S) (w : W) (abs : Z -> list (session K S))
    (Heq : forall k k', keys_eq k k' = true <-> k = k') (HN : 0 < N <= MAX)
    (Hpart : 0 <= lcore < N) (Hfuel : 2 * MAX <= Z.of_nat fuel) (Hdev : 0 <= dev < devs /\ devs <= FLOOD_PORT)
    (Hnf : nf_contract N mutable pkt_handlers lcore lcore)
    (Hw : forall w, (retries w < fuel)%nat) (Hretry : nf_retries pkt_handlers retries dev)
    (Hexpiry : expiry_retries nf_expired retries)
    (Hsend : nf_sends pkt_handlers dev (fun dst => 0 <= dst < devs \/ dst = FLOOD_PORT /\ devs = 2))
    (Hnow : 0 <= now < 2 ^ 63) (Hv : 0 <= pkt_set_validity_duration (nf_manager (nf l)) < 2 ^ 63)
    (Hrel : has_related_pkt_sets (nf_manager (nf l)) = false) (Hr : pkt_rep khash N MAX (nf_manager (nf l)) abs) :
  exists kept g w1 received out q d' l' w',
    expire_round keys_eq khash N MAX do_expiration nf_expired fuel lcore now (nf_manager (nf l)) w = Some (g, w1) /\
    unexpired do_expiration nf_expired now (pkt_set_validity_duration (nf_manager (nf l))) (abs lcore) w kept w1 /\
    pkt_rep khash N MAX g (<[lcore := kept]> abs) /\
    main_round keys_eq khash N MAX mutable do_expiration pkt_handlers nf_expired fuel uninit lcore now
      devs dev uninit_mbufs d l w = Some ((received, (out, q)), (d', (l', w'))) /\
    received = fst (rte_eth_rx_burst dev lcore VIGOR_BATCH_SIZE d) /\
    out.*2 ++ freed q ≡ₚ received /\
    (forall j m, (j, m) ∈ out -> 0 <= j < devs /\ j <> dev) /\
    exists sessions, pkt_rep khash N MAX (nf_manager (nf l')) (<[lcore := sessions]> abs).
Proof.
  destruct (expire_round_ok keys_eq khash N MAX do_expiration nf_expired fuel retries lcore now Heq HN Hpart Hfuel Hw
    (nf_manager (nf l)) w abs Hexpiry Hnow Hv Hr) as (kept & g & w1 & Hexp & Hun & Hr1 & Hrel1). rewrite Hrel in Hrel1.
  unfold main_round. rewrite Hexp. pose proof (rx_port dev lcore VIGOR_BATCH_SIZE d) as Hrx.
  destruct (rte_eth_rx_burst dev lcore VIGOR_BATCH_SIZE d) as [received d1]. cbn in Hrx.
  destruct (process_burst_ok keys_eq khash N MAX mutable pkt_handlers fuel retries uninit lcore now devs
    dev Heq HN Hpart Hfuel Hdev Hnf Hw Hretry received (SendQueues uninit_mbufs (fun _ => 0) []) [] (Core (set_manager g (nf l)) (pkt_set_state_log l))
    w1 abs Hsend Hrx) as (q & l1 & w2 & -> & [_ [ss Hr2]] & Hq);
    [by split; [|exists kept]|apply (accounted_init devs dev uninit_mbufs)|].
  destruct (tx_all _ lcore 0 q d1) as [out [q1 d2]] eqn:Et.
  apply (round_conserves devs dev ltac:(lia) lcore q _ d1 _ _ _ Hq) in Et as [Hp Hj].
  exists kept, g, w1, received, out, q1, d2, l1, w2. do 5 (split; [done|]). split; [|by split; [|exists ss]].
  by rewrite Hp, app_nil_r, <- Permutation_rev.
Qed.

(** ** A witness: two devices, the second of which takes one packet of a burst *)

#[local] Existing Instances ex_runtime ex_nf.

#[local] Instance ex_dpdk : Dpdk (list Z) Z Z :=
  {| rte_eth_rx_burst := fun dev _ n d =>
       if dev =? 0 then (take (Z.to_nat n) d, drop (Z.to_nat n) d) else ([], d);
     rte_eth_tx_burst := fun _ _ ms d => (Z.min 1 (Z.of_nat (length ms)), d);
     rte_pktmbuf_mtod := fun m => m;
     data_len := fun _ => 60;
     port := fun _ => 0 |}.
#[local] Instance ex_dpdk_laws : DpdkLaws (list Z) Z Z.
Proof.
  split.
  - intros dev q n d m. cbn. destruct (Z.eqb_spec dev 0) as [->|]; [done|]. by intros ?%not_elem_of_nil.
  - intros. cbn. lia.
Qed.

Definition ex_manager : pkt_set_manager Z Z :=
  match init_pkt_set_manager 2 4 4 true true true ex_pkt_memory (fun _ => LogEntry false 0 0) 5 false with
  | Some (Some g) => g
  | _ => ex_pkt0
  end.

Lemma ex_manager_ok : pkt_rep (fun k => k) 2 4 ex_manager (fun _ => []) /\
  has_related_pkt_sets ex_manager = false.
Proof.
  destruct (init_spec (fun k : Z => k) 2 4 ltac:(lia) 4 ex_pkt_memory (fun _ => LogEntry false 0 0)
    5 false) as (g & E & Hr & Hrel & _); [lia..|]. unfold ex_manager. by rewrite E.
Qed.

(** A packet set of core 0 that was last used at time 1. *)
Definition ex_old : pkt_set_manager Z Z :=
  match add_pkt_set_commit (fun k => k) 2 4 8 9 0 10 0 1 (set_log 0 (LogEntry true 110 15) ex_manager) with
  | Some g => g
  | None => ex_manager
  end.

Lemma ex_old_ok : exists i, pkt_rep (fun k => k) 2 4 ex_old (<[0 := [Session i 10 110 15 1]]> (fun _ => [])) /\
  has_related_pkt_sets ex_old = false.
Proof.
  destruct ex_manager_ok as [Hr Hrel]. set (g := set_log 0 (LogEntry true 110 15) ex_manager).
  destruct (commit_spec Z.eqb (fun k => k) 2 4 ltac:(intros; apply Z.eqb_eq) ltac:(lia) g (fun _ => []) 0 10 110 15 1 0 9 8)
    as (g' & i & E & _ & Hrel' & Hr'); [by apply pkt_rep_log|lia|lia|done|by vm_compute|..].
  - by intros s ?%not_elem_of_nil.
  - intros Hc. change (has_related_pkt_sets ex_manager = true) in Hc. congruence.
  - exists i. unfold ex_old. fold g. rewrite E. split; [done|]. by rewrite Hrel'.
Qed.

Lemma ex_expiry_retries : expiry_retries (S := Z) (T := Z) (fun s => (Some tt, s)) ex_retries.
Proof.
  intros st w st1 w1 Ha. inversion Ha as [t w2 l2 t2 El Eb|t w2 b l2 t2 w3 El Eb Eu|]; subst; [done|].
  cbn in El, Eb, Eu. injection El as <- <-. injection Eb as _ <- <-. injection Eu as Eu <-. unfold ex_retries. cbn.
  rewrite Z.add_1_r, Z.odd_succ, <- Z.negb_odd, Eu. cbn. lia.
Qed.

Lemma ex_enough w : (ex_retries w < 8)%nat.
Proof. unfold ex_retries. destruct (Z.odd w); lia. Qed.

Lemma ex_sends : nf_sends ex_count 0 (fun dst => 0 <= dst < 2 \/ dst = FLOOD_PORT /\ 2 = 2).
Proof. intros h [(class & i0 & k & ->)|(k & ->)] m t r m' t' [= <- <- <-] _; left; cbn; lia. Qed.

Lemma ex_old_validity : 0 <= pkt_set_validity_duration (nf_manager (nf (ex_core ex_old))) < 2 ^ 63.
Proof. by vm_compute. Qed.

Abbreviation ex_round :=
  (main_round Z.eqb (fun k => k) 2 4 true true ex_count (fun s => (Some tt, s)) 8 0 0 9 2 0
     (fun _ _ => 0) [0; 12; 12; 13] (ex_core ex_old) 4).

(** Expiry removes the old packet set, after a run of the NF's handler that
    fails; then come an unsupported packet, two packets of a new packet set
    and one of another. *)
Lemma main_round_spec_witness :
  fst <$> get_pkt_set_state Z.eqb (fun k => k) 2 4 8 10 0 9 ex_old = Some (Some 0) /\
  option_map (fun r => fst <$> get_pkt_set_state Z.eqb (fun k => k) 2 4 8 10 0 9 r.1)
    (expire_round Z.eqb (fun k => k) 2 4 true (fun s => (Some tt, s)) 8 0 9 ex_old 4) = Some (Some None) /\
  option_map (fun r => (fst (snd (fst r)), freed (snd (snd (fst r))))) ex_round = Some ([(1, 12)], [0; 12; 13]) /\
  exists i, let abs := <[0 := [Session i 10 110 15 1]]> (fun _ => []) in
  exists kept g w1 received out q d' l' w',
    expire_round Z.eqb (fun k => k) 2 4 true (fun s => (Some tt, s)) 8 0 9 (nf_manager (nf (ex_core ex_old))) 4 = Some (g, w1) /\
    unexpired true (fun s => (Some tt, s)) 9 (pkt_set_validity_duration (nf_manager (nf (ex_core ex_old)))) (abs 0) 4 kept w1 /\
    pkt_rep (fun k => k) 2 4 g (<[0 := kept]> abs) /\
    ex_round = Some ((received, (out, q)), (d', (l', w'))) /\
    received = fst (rte_eth_rx_burst 0 0 VIGOR_BATCH_SIZE [0; 12; 12; 13]) /\
    out.*2 ++ freed q ≡ₚ received /\
    (forall j m, (j, m) ∈ out -> 0 <= j < 2 /\ j <> 0) /\
    exists sessions, pkt_rep (fun k => k) 2 4 (nf_manager (nf l')) (<[0 := sessions]> abs).
Proof.
  do 3 (split; [vm_compute; reflexivity|]). destruct ex_old_ok as (i & Hr & Hrel). exists i. intros abs.
  exact (main_round_spec Z.eqb (fun k => k) 2 4 true true ex_count (fun s => (Some tt, s)) 8 ex_retries
    0 0 9 2 0 (fun _ _ => 0) [0; 12; 12; 13] (ex_core ex_old) 4 abs
    ltac:(intros; apply Z.eqb_eq) ltac:(lia) ltac:(lia) ltac:(lia) ltac:(unfold FLOOD_PORT; lia)
    ex_nf_contract ex_enough (ex_retry 0) ex_expiry_retries ex_sends ltac:(lia) ex_old_validity Hrel Hr).
Defined.
