(* ===== verification/Rss.v ===== *)
(** * Distributing packets over the cores

    src/deps/vigor/nf-lb/rss.c, which nf_init_device calls (NfStart.v): the
    configuration of receive-side scaling and the redirection table, that
    says which receive queue, and so which core, a hash leads to.  DPDK's
    constants and its functions on the device's table are parameters. *)

From S2P Require Import Prelude.
Open Scope Z_scope.

Definition OTHER_NF : Z := 0.
Definition POL : Z := 1.
Definition FW : Z := 2.
Definition RSS_HASH_KEY_LENGTH : Z := 40.
(** DPDK's. *)
Definition RTE_RETA_GROUP_SIZE : Z := 64.

Definition hash_key_lan : list Z := [
  0; 0; 0; 0; 0; 0; 0; 0;
  65; 103; 37; 61; 67; 163; 143; 176;
  208; 202; 43; 203; 174; 123; 48; 180;
  119; 203; 45; 163; 128; 48; 242; 12;
  106; 66; 183; 59; 190; 172; 1; 250].

Definition hash_key_symmetric : list Z := [
  109; 90; 109; 90; 109; 90; 109; 90;
  109; 90; 109; 90; 109; 90; 109; 90;
  109; 90; 109; 90; 109; 90; 109; 90;
  109; 90; 109; 90; 109; 90; 109; 90;
  109; 90; 109; 90; 109; 90; 109; 90].

(** The fields of struct rte_eth_conf that are set; [None]: NULL. *)
Record rte_eth_conf := EthConf {
  mq_mode : Z;
  rss_key : option (list Z);
  rss_hf : Z;
  rss_key_len : Z
}.

#[export] Instance rte_eth_conf_eq_dec : EqDecision rte_eth_conf.
Proof. solve_decision. Defined.

(** ETH_MQ_RX_RSS, ETH_RSS_IP, ETH_RSS_TCP and ETH_RSS_UDP of DPDK, and what
    each device supports. *)
Record rss_env := RssEnv {
  ETH_MQ_RX_RSS : Z;
  ETH_RSS_IP : Z;
  ETH_RSS_TCP : Z;
  ETH_RSS_UDP : Z;
  flow_type_rss_offloads : Z -> Z
}.

(** [lcores]: rte_lcore_count(). *)
Definition rss_init (e : rss_env) (lcores : Z) (dev_conf : rte_eth_conf) (port nf_name : Z) : Z * rte_eth_conf :=
  let num_rxqueues := u32 (lcores - 1) in
  if num_rxqueues >? 1 then
    let '(key, hf) :=
      if (nf_name =? POL) && (0 =? port) then
        (Some hash_key_lan, Z.land (ETH_RSS_IP e) (flow_type_rss_offloads e port))
      else
        (if nf_name =? FW then Some hash_key_symmetric else None,
         Z.land (Z.lor (Z.lor (ETH_RSS_IP e) (ETH_RSS_TCP e)) (ETH_RSS_UDP e)) (flow_type_rss_offloads e port)) in
    (0, EthConf (ETH_MQ_RX_RSS e) key hf RSS_HASH_KEY_LENGTH)
  else (0, dev_conf).

(** ** The redirection table *)

(** struct rte_eth_rss_reta_entry64 *)
Record reta_entry64 := RetaEntry { mask : Z; reta : Z -> Z }.

(** [D]: the devices. *)
Class RetaDevice (D : Type) := {
  reta_size : D -> Z -> Z;
  rte_eth_dev_rss_reta_update : Z -> (Z -> reta_entry64) -> Z -> D -> Z * D;
  rte_eth_dev_rss_reta_query : Z -> (Z -> reta_entry64) -> Z -> D -> Z * (Z -> reta_entry64)
}.

Section reta.
Context {D : Type} `{RetaDevice D}.

Definition get_rss_reta_size (port : Z) (d : D) : Z := u16 (reta_size d port).

Definition UINT64_MAX : Z := 2 ^ 64 - 1.

Definition set_mask (m : Z) (e : reta_entry64) : reta_entry64 := RetaEntry m (reta e).
Definition set_entry (j x : Z) (e : reta_entry64) : reta_entry64 := RetaEntry (mask e) (<[j := x]> (reta e)).

(** [garbage]: the local array, before it is filled. *)
Definition fill_masks (num_reta_grps : Z) (garbage : Z -> reta_entry64) : Z -> reta_entry64 :=
  loop_range 0 (Z.to_nat num_reta_grps)
    (fun i reta_conf => <[i := set_mask UINT64_MAX (reta_conf i)]> reta_conf) garbage.

Definition copy_out (num_reta_grps : Z) (reta_conf : Z -> reta_entry64) (table : Z -> Z) : Z -> Z :=
  loop_range 0 (Z.to_nat num_reta_grps)
    (fun i table =>
       let base := u16 (i * RTE_RETA_GROUP_SIZE) in
       loop_range 0 (Z.to_nat RTE_RETA_GROUP_SIZE)
         (fun j table => <[base + j := reta (reta_conf i) j]> table) table) table.

Definition get_rss_reta (port : Z) (garbage : Z -> reta_entry64) (table : Z -> Z) (d : D) : Z * (Z -> Z) :=
  let reta_sz := get_rss_reta_size port d in
  let num_reta_grps := u16 (reta_sz / RTE_RETA_GROUP_SIZE) in
  let reta_conf := fill_masks num_reta_grps garbage in
  let (status, reta_conf) := rte_eth_dev_rss_reta_query port reta_conf reta_sz d in
  if negb (status =? 0) then (status, table)
  else (0, copy_out num_reta_grps reta_conf table).

Definition copy_in (num_reta_grps : Z) (table : Z -> Z) (garbage : Z -> reta_entry64) : Z -> reta_entry64 :=
  loop_range 0 (Z.to_nat num_reta_grps)
    (fun i reta_conf =>
       let reta_conf := <[i := set_mask UINT64_MAX (reta_conf i)]> reta_conf in
       let base := u16 (i * RTE_RETA_GROUP_SIZE) in
       loop_range 0 (Z.to_nat RTE_RETA_GROUP_SIZE)
         (fun j reta_conf => <[i := set_entry j (table (base + j)) (reta_conf i)]> reta_conf) reta_conf) garbage.

Definition set_rss_reta (port : Z) (garbage : Z -> reta_entry64) (table : Z -> Z) (reta_sz : Z) (d : D) : Z * D :=
  let num_reta_grps := u16 (reta_sz / RTE_RETA_GROUP_SIZE) in
  rte_eth_dev_rss_reta_update port (copy_in num_reta_grps table garbage) reta_sz d.

(** The table read back is only logged. *)
Definition set_default_rss_reta (port num_queues : Z) (garbage : Z -> reta_entry64) (uninit : Z -> Z) (d : D) : D :=
  if num_queues >? 1 then
    let reta_sz := get_rss_reta_size port d in
    let table := loop_range 0 (Z.to_nat reta_sz)
                   (fun i table => <[i := u16 (Z.rem i num_queues)]> table) uninit in
    (set_rss_reta port garbage table reta_sz d).2
  else d.

(** ** What is documented of the device *)

(** rte_eth_dev_rss_reta_update and _query work on the first [reta_size]
    entries of the table, in groups of 64 of which a mask selects some; they
    read and write ceil(reta_size / 64) groups. *)
Class RetaLaws (table : D -> Z -> Z -> Z) := {
  update_size port conf sz d p : reta_size (rte_eth_dev_rss_reta_update port conf sz d).2 p = reta_size d p;
  update_other port conf sz d p i : p <> port ->
    table (rte_eth_dev_rss_reta_update port conf sz d).2 p i = table d p i;
  update_table port conf sz d i :
    let (status, d') := rte_eth_dev_rss_reta_update port conf sz d in
    status = 0 -> sz = reta_size d port -> 0 <= i < sz ->
    table d' port i =
      if Z.testbit (mask (conf (i / 64))) (i mod 64) then reta (conf (i / 64)) (i mod 64) else table d port i;
  query_table port conf sz d i :
    let (status, conf') := rte_eth_dev_rss_reta_query port conf sz d in
    status = 0 -> sz = reta_size d port -> 0 <= i < sz ->
    Z.testbit (mask (conf (i / 64))) (i mod 64) = true -> reta (conf' (i / 64)) (i mod 64) = table d port i
}.
End reta.

(** The hash a device computes of a packet's header fields, Microsoft's
    Toeplitz hash: the windows of 32 bits of the key that begin where the
    input has a bit, added up modulo 2.  [off]: where the input begins. *)
Definition key_bit (key : list Z) (i : Z) : bool :=
  Z.testbit (default 0 (key !! Z.to_nat (i / 8))) (7 - i mod 8).
Definition window (key : list Z) (i : Z) : Z :=
  foldl (fun acc k => 2 * acc + Z.b2z (key_bit key (i + k))) 0 (seqZ 0 32).
Fixpoint toeplitz (key : list Z) (off : Z) (input : list bool) : Z :=
  match input with
  | [] => 0
  | b :: input => Z.lxor (if b then window key off else 0) (toeplitz key (off + 1) input)
  end.

(** The most significant bit is the first. *)
Definition bits (w x : Z) : list bool := (fun i => Z.testbit x (w - 1 - i)) <$> seqZ 0 w.
Definition ip_input (src dst : Z) : list bool := bits 32 src ++ bits 32 dst.
Definition flow_input (src dst src_port dst_port : Z) : list bool :=
  ip_input src dst ++ bits 16 src_port ++ bits 16 dst_port.

(** ** Lemmas *)

Lemma length_bits w x : 0 <= w -> Z.of_nat (length (bits w x)) = w.
Proof. intros. unfold bits. rewrite length_fmap, length_seqZ. lia. Qed.

Lemma toeplitz_app key a b : forall off,
  toeplitz key off (a ++ b) = Z.lxor (toeplitz key off a) (toeplitz key (off + Z.of_nat (length a)) b).
Proof.
  induction a as [|x a IH]; intros off; cbn [toeplitz app length].
  - by rewrite Z.lxor_0_l, Z.add_0_r.
  - rewrite IH, Z.lxor_assoc. do 3 f_equal. lia.
Qed.

(** A period of the windows is one of the hash. *)
Lemma toeplitz_shift key p n a : forall off,
  (forall i, 0 <= i < n -> window key (i + p) = window key i) -> 0 <= off -> off + Z.of_nat (length a) <= n ->
  toeplitz key (off + p) a = toeplitz key off a.
Proof.
  induction a as [|x a IH]; intros off Hp H0 Hn; cbn [toeplitz length] in *; [done|].
  rewrite Hp by lia. f_equal. replace (off + p + 1) with (off + 1 + p) by lia. apply IH; [done|lia|lia].
Qed.

Lemma toeplitz_zero key n a : forall off,
  (forall i, 0 <= i < n -> window key i = 0) -> 0 <= off -> off + Z.of_nat (length a) <= n -> toeplitz key off a = 0.
Proof.
  induction a as [|x a IH]; intros off Hp H0 Hn; cbn [toeplitz length] in *; [done|].
  rewrite Hp by lia. rewrite IH by (done || lia). by destruct x.
Qed.

Lemma below_96 (P : Z -> bool) : forallb P (seqZ 0 96) = true -> forall i, 0 <= i < 96 -> P i = true.
Proof. intros Hf i Hi. rewrite forallb_forall in Hf. apply Hf, list_elem_of_In, elem_of_seqZ. lia. Qed.

Lemma symmetric_period i : 0 <= i < 96 -> window hash_key_symmetric (i + 16) = window hash_key_symmetric i.
Proof.
  intros Hi. apply Z.eqb_eq. revert i Hi.
  apply (below_96 (fun i => window hash_key_symmetric (i + 16) =? window hash_key_symmetric i)).
  vm_compute. reflexivity.
Qed.

Lemma symmetric_period_32 i : 0 <= i < 80 -> window hash_key_symmetric (i + 32) = window hash_key_symmetric i.
Proof. intros Hi. replace (i + 32) with (i + 16 + 16) by lia. rewrite (symmetric_period (i + 16)) by lia. apply symmetric_period. lia. Qed.

Lemma lan_windows i : 0 <= i < 33 -> window hash_key_lan i = 0.
Proof.
  intros Hi. apply Z.eqb_eq. assert (0 <= i < 96) as H by lia.
  assert (forallb (fun i => (33 <=? i) || (window hash_key_lan i =? 0)) (seqZ 0 96) = true) as Hf
    by (vm_compute; reflexivity).
  pose proof (below_96 _ Hf i H) as Hb. cbv beta in Hb. clear Hf. apply orb_true_iff in Hb as [Hb%Z.leb_le|Hb]; [lia|exact Hb].
Qed.

Lemma hash_parts key a b c d :
  toeplitz key 0 (flow_input a b c d) =
  Z.lxor (Z.lxor (toeplitz key 0 (bits 32 a)) (toeplitz key 32 (bits 32 b)))
    (Z.lxor (toeplitz key 64 (bits 16 c)) (toeplitz key 80 (bits 16 d))).
Proof.
  unfold flow_input, ip_input. rewrite !toeplitz_app, !length_app, Nat2Z.inj_add, !length_bits by lia. done.
Qed.

(** Every field at the start of the input. *)
Lemma symmetric_parts a b c d :
  toeplitz hash_key_symmetric 0 (flow_input a b c d) =
  Z.lxor (Z.lxor (toeplitz hash_key_symmetric 0 (bits 32 a)) (toeplitz hash_key_symmetric 0 (bits 32 b)))
    (Z.lxor (toeplitz hash_key_symmetric 0 (bits 16 c)) (toeplitz hash_key_symmetric 0 (bits 16 d))).
Proof.
  assert (forall n x, (n <= 5)%nat -> toeplitz hash_key_symmetric (16 * Z.of_nat n) (bits 16 x) =
    toeplitz hash_key_symmetric 0 (bits 16 x)) as Hs.
  { intros n x. induction n as [|n IH]; intros Hn; [done|]. rewrite <- IH by lia.
    replace (16 * Z.of_nat (S n)) with (16 * Z.of_nat n + 16) by lia.
    apply (toeplitz_shift _ _ 96); [apply symmetric_period|lia|rewrite length_bits; lia]. }
  rewrite hash_parts, (toeplitz_shift _ 32 80 (bits 32 b) 0);
    [|apply symmetric_period_32|lia|rewrite length_bits; lia].
  change 64 with (16 * Z.of_nat 4). change 80 with (16 * Z.of_nat 5). by rewrite !Hs by lia.
Qed.

Lemma symmetric_swap a b c d :
  toeplitz hash_key_symmetric 0 (flow_input a b c d) = toeplitz hash_key_symmetric 0 (flow_input b a d c).
Proof.
  rewrite !symmetric_parts.
  by rewrite (Z.lxor_comm (toeplitz _ 0 (bits 32 a))), (Z.lxor_comm (toeplitz _ 0 (bits 16 c))).
Qed.

(** *** Tables *)

Section tables.
Context {D : Type} `{RetaDevice D}.

Lemma copy_in_spec n table garbage i j :
  0 <= n <= 1024 -> 0 <= i < n -> 0 <= j < 64 ->
  mask (copy_in n table garbage i) = UINT64_MAX /\ reta (copy_in n table garbage i) j = table (64 * i + j).
Proof.
  intros Hn Hi Hj. revert i Hi. unfold copy_in.
  apply (loop_range_spec (fun n (c : Z -> reta_entry64) => forall i, 0 <= i < n ->
    mask (c i) = UINT64_MAX /\ reta (c i) j = table (64 * i + j))); [lia|intros i Hi; lia|].
  intros k c Hk IH i Hi. unfold RTE_RETA_GROUP_SIZE. rewrite u16_id by lia.
  set (c1 := <[k := set_mask UINT64_MAX (c k)]> c).
  pose proof (loop_range_spec (fun m (c2 : Z -> reta_entry64) =>
    (forall i, i <> k -> c2 i = c i) /\ mask (c2 k) = UINT64_MAX /\
    (forall j, 0 <= j < m -> reta (c2 k) j = table (64 * k + j)))
    (fun j c => <[k := set_entry j (table (k * 64 + j)) (c k)]> c) 64 c1) as Hl. cbv beta in Hl.
  destruct Hl as (Hne & Hm & Hr).
  - done.
  - unfold c1. split; [intros; by rewrite fn_lookup_insert_ne|]. rewrite fn_lookup_insert. split; [done|]. intros; lia.
  - intros m c2 Hm (Hne & Hmk & Hr). split; [intros; rewrite fn_lookup_insert_ne by done; auto|].
    rewrite fn_lookup_insert. split; [done|]. intros j' Hj'. cbn. rewrite fn_insert_dec. case_decide; [subst; f_equal; lia|].
    apply Hr. lia.
  - destruct (decide (i = k)) as [->|Hik]; [split; [exact Hm|by apply Hr]|].
    change (Z.to_nat 64) with (Z.to_nat RTE_RETA_GROUP_SIZE) in Hne. unfold RTE_RETA_GROUP_SIZE in Hne.
    rewrite Hne by done. apply IH. lia.
Qed.

Lemma copy_out_spec n conf table k :
  0 <= n <= 1024 ->
  copy_out n conf table k = if decide (0 <= k < 64 * n) then reta (conf (k / 64)) (k mod 64) else table k.
Proof.
  intros Hn. revert k. unfold copy_out.
  refine (loop_range_spec (fun n (t : Z -> Z) => forall k, t k =
    if decide (0 <= k < 64 * n) then reta (conf (k / 64)) (k mod 64) else table k) _ n _ _ _ _); [lia| |].
  - intros k. by rewrite decide_False by lia.
  - intros i t Hi IH k. unfold RTE_RETA_GROUP_SIZE. rewrite u16_id by lia.
    pose proof (loop_range_spec (fun m (t2 : Z -> Z) => forall k, t2 k =
      if decide (64 * i <= k < 64 * i + m) then reta (conf i) (k - 64 * i) else t k)
      (fun j t => <[i * 64 + j := reta (conf i) j]> t) 64 t) as Hl. cbv beta in Hl. rewrite Hl.
    + rewrite IH. destruct (decide (64 * i <= k < 64 * i + 64)) as [Hk|Hk].
      * rewrite decide_True by lia. assert (k / 64 = i) as -> by (symmetry; apply (Z.div_unique_pos _ _ _ (k - 64 * i)); lia).
        f_equal. apply (Z.mod_unique_pos _ _ i); lia.
      * apply decide_ext. lia.
    + done.
    + intros k'. by rewrite decide_False by lia.
    + intros j t2 Hj IH2 k'. rewrite fn_insert_dec. destruct (decide (i * 64 + j = k')) as [<-|Hne].
      * rewrite decide_True by lia. f_equal. lia.
      * rewrite IH2. apply decide_ext. lia.
Qed.

Lemma fill_masks_spec n garbage i : 0 <= i < n -> mask (fill_masks n garbage i) = UINT64_MAX.
Proof.
  intros Hi. assert (0 <= n) as Hn by lia. revert i Hi. unfold fill_masks.
  apply (loop_range_spec (fun n (c : Z -> reta_entry64) => forall i, 0 <= i < n -> mask (c i) = UINT64_MAX));
    [done|intros; lia|].
  intros k c Hk IH i Hi. fcase; [done|]. apply IH. lia.
Qed.

Lemma all_ones i : 0 <= i -> Z.testbit UINT64_MAX (i mod 64) = true.
Proof.
  intros. change (Z.testbit (Z.ones 64) (i mod 64) = true). apply Z.ones_spec_low. by apply Z.mod_pos_bound.
Qed.

Context (table : D -> Z -> Z -> Z) `{!RetaLaws table}.

Lemma set_rss_reta_run port garbage (r : Z -> Z) d i :
  0 <= reta_size d port < 2 ^ 16 -> reta_size d port mod 64 = 0 -> 0 <= i < reta_size d port ->
  let (status, d') := set_rss_reta port garbage r (reta_size d port) d in
  reta_size d' port = reta_size d port /\ (status = 0 -> table d' port i = r i).
Proof.
  intros Hs Hm Hi. unfold set_rss_reta, RTE_RETA_GROUP_SIZE. set (sz := reta_size d port) in *.
  assert (sz / 64 <= 1024) as Hn by (apply Z.div_le_upper_bound; lia).
  assert (0 <= sz / 64) as H0 by (apply Z.div_pos; lia). rewrite u16_id by lia.
  set (conf := copy_in _ _ _). pose proof (update_table port conf sz d i) as Hu.
  pose proof (update_size port conf sz d port) as Hz.
  destruct (rte_eth_dev_rss_reta_update _ _ _ _) as [status d']. cbn in Hz. split; [done|]. intros E.
  rewrite Hu by done. assert (i / 64 < sz / 64) as Hb.
  { apply Z.div_lt_upper_bound; [lia|]. pose proof (Z.div_mod sz 64). lia. }
  destruct (copy_in_spec (sz / 64) r garbage (i / 64) (i mod 64)) as [Em Er];
    [lia|split; [apply Z.div_pos; lia|done]|by apply Z.mod_pos_bound|].
  fold conf in Em, Er. rewrite Em, all_ones by lia. rewrite Er. f_equal. symmetry. apply Z.div_mod. lia.
Qed.

Lemma get_rss_reta_run port garbage (r : Z -> Z) d i :
  0 <= reta_size d port < 2 ^ 16 -> reta_size d port mod 64 = 0 ->
  let (status, r') := get_rss_reta port garbage r d in
  status = 0 -> r' i = if decide (0 <= i < reta_size d port) then table d port i else r i.
Proof.
  intros Hs Hm. unfold get_rss_reta, get_rss_reta_size, RTE_RETA_GROUP_SIZE. rewrite (u16_id _ Hs).
  set (sz := reta_size d port) in *.
  assert (sz / 64 <= 1024) as Hn by (apply Z.div_le_upper_bound; lia).
  assert (0 <= sz / 64) as H0 by (apply Z.div_pos; lia). rewrite u16_id by lia.
  pose proof (query_table port (fill_masks (sz / 64) garbage) sz d i) as Hq.
  destruct (rte_eth_dev_rss_reta_query _ _ _ _) as [status conf]. destruct (Z.eqb_spec status 0) as [->|Hne]; cbn [negb].
  - intros _. rewrite copy_out_spec by lia. replace (64 * (sz / 64)) with sz by (pose proof (Z.div_mod sz 64); lia).
    case_decide as Hd; [|done]. apply Hq; [done|done|done|].
    rewrite fill_masks_spec; [apply all_ones; lia|]. split; [apply Z.div_pos; lia|].
    apply Z.div_lt_upper_bound; [lia|]. pose proof (Z.div_mod sz 64). lia.
  - by intros ->.
Qed.
Lemma set_default_size port n garbage uninit d p :
  reta_size (set_default_rss_reta port n garbage uninit d) p = reta_size d p.
Proof. unfold set_default_rss_reta. destruct (n >? 1); [|done]. by apply update_size. Qed.

Lemma set_default_other port n garbage uninit d p i :
  p <> port -> table (set_default_rss_reta port n garbage uninit d) p i = table d p i.
Proof. intros Hp. unfold set_default_rss_reta. destruct (n >? 1); [|done]. by apply update_other. Qed.

Lemma set_default_table port n garbage uninit d i :
  0 <= reta_size d port < 2 ^ 16 -> reta_size d port mod 64 = 0 -> 1 < n <= reta_size d port ->
  (forall conf sz, (rte_eth_dev_rss_reta_update port conf sz d).1 = 0) -> 0 <= i < reta_size d port ->
  table (set_default_rss_reta port n garbage uninit d) port i = i mod n.
Proof.
  intros Hsize Hgroups Hn Haccept Hi. unfold set_default_rss_reta, get_rss_reta_size.
  destruct (Z.gtb_spec n 1); [|lia]. rewrite (u16_id _ Hsize). set (r := loop_range _ _ _ _).
  pose proof (set_rss_reta_run port garbage r d i Hsize Hgroups Hi) as Hs.
  pose proof (Haccept (copy_in (u16 (reta_size d port / RTE_RETA_GROUP_SIZE)) r garbage) (reta_size d port)) as Ha.
  fold (set_rss_reta port garbage r (reta_size d port) d) in Ha.
  destruct (set_rss_reta _ _ _ _ _) as [status d1]. cbn [fst snd] in *. destruct Hs as [_ Hr].
  rewrite Hr by done. assert (forall i, 0 <= i < reta_size d port -> r i = i mod n) as Hfill; [|by apply Hfill].
  unfold r. refine (loop_range_spec (fun m (t : Z -> Z) => forall i, 0 <= i < m -> t i = i mod n)
    _ (reta_size d port) _ _ _ _); [lia|intros; lia|].
  intros k t Hk IH j Hj. fcase; [|apply IH; lia]. rewrite Z.rem_mod_nonneg by lia. apply u16_id.
  pose proof (Z.mod_pos_bound j n). lia.
Qed.
End tables.

(** ** Properties *)

(** The keys that rss_init configures: with the key of the firewall's build a
    device hashes the two directions of a flow alike, and with the key of the
    policer's build device 0 hashes by the destination address alone; other
    devices and builds keep the device's key, and with at most one receive
    queue nothing is configured. *)
Theorem rss_init_keys (e : rss_env) (lcores : Z) (conf : rte_eth_conf) (port nf_name : Z)
    (Hcores : 0 < lcores <= 2 ^ 32) :
  let c := (rss_init e lcores conf port nf_name).2 in
  if decide (lcores <= 2) then c = conf
  else mq_mode c = ETH_MQ_RX_RSS e /\
    match rss_key c with
    | Some key => Z.of_nat (length key) = rss_key_len c /\
        if decide (nf_name = POL) then
          port = 0 /\ forall src src' dst, toeplitz key 0 (ip_input src dst) = toeplitz key 0 (ip_input src' dst)
        else nf_name = FW /\ forall src dst src_port dst_port,
          toeplitz key 0 (flow_input src dst src_port dst_port) = toeplitz key 0 (flow_input dst src dst_port src_port)
    | None => nf_name <> FW /\ (nf_name = POL -> port <> 0)
    end.
Proof.
  intros c. unfold c, rss_init. rewrite u32_id by lia.
  case_decide as Hl; [by destruct (Z.gtb_spec (lcores - 1) 1); [lia|]|].
  destruct (Z.gtb_spec (lcores - 1) 1); [|lia].
  destruct (Z.eqb_spec nf_name POL) as [->|Hp]; cbn [andb].
  - destruct (Z.eqb_spec 0 port) as [<-|Hne]; cbn [snd mq_mode rss_key rss_key_len]; split; try done.
    split; [done|]. rewrite decide_True by done. split; [done|]. intros src src' dst.
    unfold ip_input. rewrite !toeplitz_app, !length_bits by lia.
    assert (forall x, toeplitz hash_key_lan 0 (bits 32 x) = 0) as Hz; [|by rewrite !Hz].
    intros x. apply (toeplitz_zero _ 33); [apply lan_windows|lia|rewrite length_bits; lia].
  - cbn [snd mq_mode rss_key rss_key_len]. split; [done|]. destruct (Z.eqb_spec nf_name FW) as [->|Hf]; [|done].
    split; [done|]. rewrite decide_False by done. split; [done|]. intros. apply symmetric_swap.
Qed.

(** The redirection table: what set_rss_reta has written is what get_rss_reta
    reads back, within the table's size, when the device takes both and its
    size is a multiple of 64. *)
Theorem rss_reta_roundtrip {D} `{RetaDevice D} (table : D -> Z -> Z -> Z) `{!RetaLaws table}
    (port : Z) (garbage garbage' : Z -> reta_entry64) (r r0 : Z -> Z) (d : D)
    (Hsize : 0 <= reta_size d port < 2 ^ 16) (Hgroups : reta_size d port mod 64 = 0) :
  let (status, d') := set_rss_reta port garbage r (get_rss_reta_size port d) d in
  let (status', r') := get_rss_reta port garbage' r0 d' in
  status = 0 -> status' = 0 ->
  forall i, r' i = if decide (0 <= i < reta_size d port) then r i else r0 i.
Proof.
  unfold get_rss_reta_size. rewrite (u16_id _ Hsize).
  destruct (set_rss_reta _ _ _ _ _) as [status d'] eqn:Es. destruct (get_rss_reta _ _ _ _) as [status' r'] eqn:Eg.
  intros E E' i.
  assert (reta_size d' port = reta_size d port) as Hd.
  { unfold set_rss_reta in Es. pose proof (update_size port (copy_in (u16 (reta_size d port / RTE_RETA_GROUP_SIZE)) r garbage)
      (reta_size d port) d port) as Hu. by rewrite Es in Hu. }
  pose proof (get_rss_reta_run table port garbage' r0 d' i) as Hg. rewrite Hd, Eg in Hg. rewrite Hg by done.
  case_decide as Hi; [|done].
  pose proof (set_rss_reta_run table port garbage r d i Hsize Hgroups Hi) as Hs. rewrite Es in Hs. by apply Hs.
Qed.

(** After set_default_rss_reta, entry [i] of the table leads to queue [i]
    modulo the number of queues, so that every queue is used. *)
Theorem rss_default_reta {D} `{RetaDevice D} (table : D -> Z -> Z -> Z) `{!RetaLaws table}
    (port num_queues : Z) (garbage : Z -> reta_entry64) (uninit : Z -> Z) (d : D)
    (Hsize : 0 <= reta_size d port < 2 ^ 16) (Hgroups : reta_size d port mod 64 = 0)
    (Hqueues : 1 < num_queues <= reta_size d port)
    (Haccept : forall conf sz, (rte_eth_dev_rss_reta_update port conf sz d).1 = 0) :
  let d' := set_default_rss_reta port num_queues garbage uninit d in
  (forall i, 0 <= i < reta_size d port -> table d' port i = i mod num_queues) /\
  forall q, 0 <= q < num_queues -> exists i, 0 <= i < reta_size d' port /\ table d' port i = q.
Proof.
  intros d'. assert (forall i, 0 <= i < reta_size d port ->
    reta_size d' port = reta_size d port /\ table d' port i = i mod num_queues) as Ht.
  { intros i Hi. split; [by apply (set_default_size table)|]. by apply set_default_table. }
  split; [intros i Hi; by apply Ht|]. intros q Hq. exists q. destruct (Ht q ltac:(lia)) as [-> ->].
  split; [lia|]. by apply Z.mod_small.
Qed.

(** ** Witnesses *)

(** Devices with 128 entries that do what is asked of them. *)
#[local] Instance ex_reta_device : RetaDevice (Z -> Z -> Z) := {|
  reta_size _ _ := 128;
  rte_eth_dev_rss_reta_update port conf sz d :=
    (0, <[port := fun i => if Z.testbit (mask (conf (i / 64))) (i mod 64) then reta (conf (i / 64)) (i mod 64)
                           else d port i]> d);
  rte_eth_dev_rss_reta_query port conf sz d :=
    (0, fun g => RetaEntry (mask (conf g)) (fun j => d port (64 * g + j)))
|}.
#[local] Instance ex_reta_laws : RetaLaws (D := Z -> Z -> Z) (fun d => d).
Proof.
  split.
  - done.
  - intros port conf sz d p i Hp. cbn. by rewrite fn_lookup_insert_ne.
  - intros port conf sz d i. cbn. intros _ _ _. by rewrite fn_lookup_insert.
  - intros port conf sz d i. cbn. intros _ _ _ _. f_equal. symmetry. apply Z.div_mod. lia.
Qed.

Definition ex_rss_env : rss_env := RssEnv 1 2 4 8 (fun _ => 15).

Lemma rss_init_keys_witness :
  (rss_init ex_rss_env 6 (EthConf 0 None 0 0) 1 FW).2 = EthConf 1 (Some hash_key_symmetric) 14 40 /\
  toeplitz hash_key_symmetric 0 (flow_input 167772161 134744072 80 53) =
  toeplitz hash_key_symmetric 0 (flow_input 134744072 167772161 53 80).
Proof.
  split; [reflexivity|].
  destruct (rss_init_keys ex_rss_env 6 (EthConf 0 None 0 0) 1 FW ltac:(lia)) as (_ & _ & _ & Hs). apply Hs.
Defined.

Lemma rss_reta_roundtrip_witness :
  let g := fun _ => RetaEntry 0 (fun _ => 0) in
  let (status, d') := set_rss_reta 1 g (fun i => 2 * i) (get_rss_reta_size 1 (fun _ _ => 9)) (fun _ _ => 9 : Z) in
  let (status', r') := get_rss_reta 1 g (fun _ => 7) d' in
  status = 0 -> status' = 0 ->
  forall i, r' i = if decide (0 <= i < reta_size (D := Z -> Z -> Z) (fun _ _ => 9) 1) then 2 * i else 7.
Proof.
  intros g. apply (rss_reta_roundtrip (D := Z -> Z -> Z) (fun d => d) 1 g g (fun i => 2 * i) (fun _ => 7) (fun _ _ => 9));
    [by cbn|done].
Defined.

Lemma rss_default_reta_witness :
  let g := fun _ => RetaEntry 0 (fun _ => 0) in
  let d' := set_default_rss_reta (D := Z -> Z -> Z) 1 5 g (fun _ => 7) (fun _ _ => 9) in
  (forall i, 0 <= i < 128 -> d' 1 i = i mod 5) /\
  forall q, 0 <= q < 5 -> exists i, 0 <= i < 128 /\ d' 1 i = q.
Proof.
  intros g.
  destruct (rss_default_reta (D := Z -> Z -> Z) (fun d => d) 1 5 g (fun _ => 7) (fun _ _ => 9) ltac:(by cbn) eq_refl
    ltac:(by cbn) (fun _ _ => eq_refl)) as [H1 H2].
  split; [exact H1|exact H2].
Defined.

(** *** Where the code does not do what it means to *)

(** A table of 5 entries, its size after rte_eth_dev_configure with 5 queues:
    there is no group to fill, and the device is handed an array of length 0
    to take 5 entries from. *)
Lemma small_reta_lost (garbage : Z -> reta_entry64) :
  copy_in (u16 (5 / RTE_RETA_GROUP_SIZE)) (fun i => i mod 5) garbage = garbage.
Proof. reflexivity. Qed.
