(* ===== verification/NfStart.v ===== *)
(** * Start-up

    src/src/nf.c from main to the launch of the cores, without the build
    options LOAD_BALANCING, FLOW_PERF_BENCH, ENABLE_STAT, SCALABILITY_PROFILER
    and DEBUG_REAL_NOP.  What DPDK answers to a call is a parameter; the calls
    that were made are kept in order, the last first. *)

From stdpp Require Import gmap.
From S2P Require Import Prelude Rlu Txn NfosMap Links ConcDchain ConcMap PktSet DataPlane NfMain Rss.
Open Scope Z_scope.

Definition RX_QUEUE_SIZE : Z := 512.
Definition TX_QUEUE_SIZE : Z := 512.
Definition MEMPOOL_BUFFER_COUNT : Z := 1024.

(** The calls of DPDK that may fail, and those that change a device. *)
Inductive dpdk_call :=
| EalInit                                            (* rte_eal_init *)
| PoolCreate (name n true_lcore : Z)                 (* rte_pktmbuf_pool_create *)
| DevConfigure (device rx_queues tx_queues : Z) (conf : rte_eth_conf)   (* rte_eth_dev_configure *)
| DevSetMtu (device mtu : Z)                         (* rte_eth_dev_set_mtu *)
| TxQueueSetup (device queue size : Z)               (* rte_eth_tx_queue_setup *)
| RxQueueSetup (device queue size pool : Z)          (* rte_eth_rx_queue_setup *)
| PromiscuousEnable (device : Z)
| PromiscuousGet (device : Z)
| DevStart (device : Z)                              (* rte_eth_dev_start *)
| SetDefaultRssReta (device num_queues : Z)
| NfInit                                             (* nf_init of the NF *)
| RluInit (core : Z)                                 (* RLU_INIT *)
| RluThread (lcore : Z).                             (* RLU_THREAD_ALLOC and RLU_THREAD_INIT *)
#[export] Instance dpdk_call_eq_dec : EqDecision dpdk_call.
Proof. solve_decision. Defined.

Section start.
(** The result of a call, after the calls before it. *)
Context (answer : list dpdk_call -> dpdk_call -> Z).

Definition call (c : dpdk_call) (tr : list dpdk_call) : Z * list dpdk_call := (answer tr c, c :: tr).

(** if (retval != 0) return retval; *)
Definition and_then (m k : list dpdk_call -> Z * list dpdk_call) (tr : list dpdk_call) : Z * list dpdk_call :=
  let (retval, tr) := m tr in if negb (retval =? 0) then (retval, tr) else k tr.
#[local] Infix ">>>" := and_then (at level 60, right associativity).

(** for (q = i; q < i + n; q++) \{ retval = f(q); if (retval != 0) return retval; \} *)
Fixpoint setup_queues (f : Z -> dpdk_call) (n : nat) (i : Z) : list dpdk_call -> Z * list dpdk_call :=
  match n with
  | O => fun tr => (0, tr)
  | S n => call (f i) >>> setup_queues f n (i + 1)
  end.

(** Promiscuous mode; retval is still 0 when it is not on. *)
Definition start_device (device num_queues : Z) (tr : list dpdk_call) : Z * list dpdk_call :=
  let (_, tr) := call (PromiscuousEnable device) tr in
  let (promiscuous, tr) := call (PromiscuousGet device) tr in
  if negb (promiscuous =? 1) then (0, tr)
  else
    (call (DevStart device) >>>
     fun tr => let (_, tr) := call (SetDefaultRssReta device num_queues) tr in (0, tr)) tr.

(** DPDK's constants for receive-side scaling, and the build: OTHER_NF, or POL
    or FW with POL_RSS or FW_RSS. *)
Context (rss : rss_env) (nf_build : Z).

(** The pool of receive queue [q] is the [q]-th.  [lcores]: rte_lcore_count. *)
Definition nf_init_device (lcores device num_queues : Z) : list dpdk_call -> Z * list dpdk_call :=
  let RX_QUEUES_COUNT := num_queues in
  let TX_QUEUES_COUNT := num_queues in
  let device_conf := (rss_init rss lcores (EthConf 0 None 0 0) device nf_build).2 in
  call (DevConfigure device RX_QUEUES_COUNT TX_QUEUES_COUNT device_conf) >>>
  call (DevSetMtu device 1600) >>>
  setup_queues (fun txq => TxQueueSetup device txq TX_QUEUE_SIZE) (Z.to_nat TX_QUEUES_COUNT) 0 >>>
  setup_queues (fun rxq => RxQueueSetup device rxq RX_QUEUE_SIZE rxq) (Z.to_nat RX_QUEUES_COUNT) 0 >>>
  start_device device num_queues.

(** The loops of main: a pool for every core of [lcores], named by its
    position; then the devices.  [None]: rte_exit. *)
Fixpoint create_pools (nb_devices lcore : Z) (lcores : list Z) (tr : list dpdk_call)
    : option unit * list dpdk_call :=
  match lcores with
  | [] => (Some tt, tr)
  | true_lcore :: lcores =>
      let (pool, tr) := call (PoolCreate lcore (MEMPOOL_BUFFER_COUNT * nb_devices) true_lcore) tr in
      if pool =? 0 then (None, tr) else create_pools nb_devices (lcore + 1) lcores tr
  end.

Fixpoint init_devices (lcores num_queues : Z) (n : nat) (device : Z) (tr : list dpdk_call)
    : option unit * list dpdk_call :=
  match n with
  | O => (Some tt, tr)
  | S n =>
      let (ret, tr) := nf_init_device lcores device num_queues tr in
      if ret =? 0 then init_devices lcores num_queues n (device + 1) tr else (None, tr)
  end.

(** What nf_init gives the framework. *)
Record nf_options := NfOptions {
  opt_validity_duration : Z;
  opt_has_related_pkt_sets : bool;
  opt_do_expiration : bool;
  opt_has_pkt_sets : bool
}.

(** How main ends before the cores are launched, or what they are launched
    with: the function and number of each, the options and the packet-set
    manager, if one could be set up. *)
Inductive start_result (G : Type) :=
| Exit                                   (* rte_exit(EXIT_FAILURE) *)
| Return1                                (* return 1 *)
| Launched (opts : nf_options) (manager : option G) (funcs : Z -> Z * lcore_function)
| Diverges.
Arguments Exit {G}.
Arguments Return1 {G}.
Arguments Launched {G} _ _ _.
Arguments Diverges {G}.

(** [nf_init]: the NF's state and options, [None]: NULL; [init_manager]:
    init_pkt_set_manager, whose result main does not look at. *)
Context {St G : Type} (nf_init : option (St * nf_options)).
Context (init_manager : Z -> bool -> option (option G)).

Definition to_tsc (tsc_hz validity_duration : Z) : Z := i64 (validity_duration * (tsc_hz / 1000000)).

Definition main (lcores : list Z) (nb_devices tsc_hz : Z) : start_result G * list dpdk_call :=
  let num_lcores := Z.of_nat (length lcores) in
  let (ret, tr) := call EalInit [] in
  if ret <? 0 then (Exit, tr)
  else
    match create_pools nb_devices 0 lcores tr with
    | (None, tr) => (Exit, tr)
    | (Some _, tr) =>
        match init_devices num_lcores (num_lcores - 1) (Z.to_nat nb_devices) 0 tr with
        | (None, tr) => (Exit, tr)
        | (Some _, tr) =>
            let (_, tr) := call NfInit tr in
            match nf_init with
            | None => (Return1, tr)
            | Some (_, o) =>
                let manager :=
                  if opt_has_pkt_sets o then
                    init_manager (to_tsc tsc_hz (opt_validity_duration o)) (opt_has_related_pkt_sets o)
                  else Some None in
                match manager with
                | None => (Diverges, tr)
                | Some manager =>
                    let tr := RluInit (List.last lcores 0) :: tr in
                    let tr := rev (map RluThread (seqZ 0 num_lcores)) ++ tr in
                    (Launched o manager (lcore_entry num_lcores), tr)
                end
            end
        end
    end.
End start.

(** ** What has been called *)

Section calls.
Context (answer : list dpdk_call -> dpdk_call -> Z) (rss : rss_env) (nf_build : Z).
Implicit Types tr : list dpdk_call.

(** [c] was called and answered with [r]. *)
Definition answered tr (c : dpdk_call) (r : Z) : Prop :=
  exists post rest, tr = post ++ c :: rest /\ answer rest c = r.

(** The answers on which main gives up. *)
Definition failure (c : dpdk_call) (r : Z) : Prop :=
  match c with
  | EalInit => r < 0
  | PoolCreate _ _ _ => r = 0
  | DevConfigure _ _ _ _ | DevSetMtu _ _ | TxQueueSetup _ _ _ | RxQueueSetup _ _ _ _ | DevStart _ => r <> 0
  | _ => False
  end.
Definition fails tr : Prop := exists c rest, tr = c :: rest /\ failure c (answer rest c).

(** The calls of [tr'] are those of [tr] and later ones. *)
Definition extends tr tr' : Prop := exists post, tr' = post ++ tr.

#[local] Instance extends_preorder : PreOrder extends.
Proof.
  split; [by exists []|]. intros tr1 tr2 tr3 [p ->] [q ->]. exists (q ++ p). by rewrite app_assoc.
Qed.

Lemma extends_cons c tr : extends tr (c :: tr).
Proof. by exists [c]. Qed.

Lemma answered_extends tr tr' c r : extends tr tr' -> answered tr c r -> answered tr' c r.
Proof. intros [p ->] (post & rest & -> & E). exists (p ++ post), rest. by rewrite <- app_assoc. Qed.

Lemma answered_here c tr : answered (c :: tr) c (answer tr c).
Proof. by exists [], tr. Qed.

(** A part of the initialisation that establishes [P] or gives up. *)
Definition gives (m : list dpdk_call -> Z * list dpdk_call) (P : list dpdk_call -> Prop) : Prop :=
  forall tr r tr', m tr = (r, tr') -> extends tr tr' /\ (r = 0 /\ P tr' \/ r <> 0 /\ fails tr').

(** What has been called stays called. *)
Definition stable (P : list dpdk_call -> Prop) : Prop := forall tr tr', extends tr tr' -> P tr -> P tr'.

Lemma gives_and_then m k P Q :
  gives m P -> gives k Q -> stable P -> gives (and_then m k) (fun tr => P tr /\ Q tr).
Proof.
  intros Hm Hk HP tr r tr'. unfold and_then. destruct (m tr) as [r1 tr1] eqn:Em.
  destruct (Hm _ _ _ Em) as [He [[-> Hp]|[Hne Hf]]].
  - cbn. intros E. destruct (Hk _ _ _ E) as [He' Hor]. split; [by etransitivity|].
    destruct Hor as [[-> ?]|?]; [left|by right]. split; [done|]. split; [by eapply HP|done].
  - rewrite (proj2 (Z.eqb_neq _ _) Hne). intros [= <- <-]. split; [done|by right].
Qed.

Lemma gives_call c :
  (forall x, x <> 0 -> failure c x) -> gives (call answer c) (fun tr => answered tr c 0).
Proof.
  intros Hf tr r tr' [= <- <-]. split; [apply extends_cons|].
  destruct (decide (answer tr c = 0)) as [E|E]; [left|right].
  - split; [done|]. rewrite <- E. apply answered_here.
  - split; [done|]. exists c, tr. split; [done|by apply Hf].
Qed.

Lemma stable_answered c r : stable (fun tr => answered tr c r).
Proof. intros tr tr' He. by apply answered_extends. Qed.

Lemma gives_impl m (P Q : list dpdk_call -> Prop) : (forall tr, P tr -> Q tr) -> gives m P -> gives m Q.
Proof. intros HPQ Hm tr r tr' E. destruct (Hm _ _ _ E) as [He [[? ?]|?]]; split; auto. Qed.

Lemma gives_queues f n : forall i,
  (forall q x, x <> 0 -> failure (f q) x) ->
  gives (setup_queues answer f n i) (fun tr => forall q, i <= q < i + Z.of_nat n -> answered tr (f q) 0).
Proof.
  induction n as [|n IH]; intros i Hf; cbn [setup_queues].
  { intros tr r tr' [= <- <-]. split; [done|]. left. split; [done|]. intros q Hq. lia. }
  eapply gives_impl; [|apply gives_and_then; [apply gives_call, Hf|by apply IH|apply stable_answered]].
  intros tr [Hi Hq] q Hr. destruct (decide (q = i)) as [->|]; [done|]. apply Hq. lia.
Qed.

(** The configuration of a device, on [lcores] cores. *)
Definition configured (lcores device : Z) : rte_eth_conf :=
  (rss_init rss lcores (EthConf 0 None 0 0) device nf_build).2.

(** A device whose initialisation was reported as a success: it is configured
    for the [n] data-plane cores, its queues have been set up, and it was started unless it does not receive
    promiscuously. *)
Definition device_ready (n device : Z) tr : Prop :=
  answered tr (DevConfigure device n n (configured (n + 1) device)) 0 /\
  (forall q, 0 <= q < n -> answered tr (TxQueueSetup device q TX_QUEUE_SIZE) 0 /\
     answered tr (RxQueueSetup device q RX_QUEUE_SIZE q) 0) /\
  (answered tr (PromiscuousGet device) 1 /\ answered tr (DevStart device) 0 \/
   exists r, r <> 1 /\ answered tr (PromiscuousGet device) r).

Lemma device_ready_extends n device tr tr' :
  extends tr tr' -> device_ready n device tr -> device_ready n device tr'.
Proof.
  intros He (Hc & Hq & Hs). split; [by eapply answered_extends|].
  split; [intros q Hr; destruct (Hq q Hr); split; by eapply answered_extends|].
  destruct Hs as [[??]|(r & ? & ?)]; [left|right; exists r]; split; try done; by eapply answered_extends.
Qed.

Lemma gives_start n device :
  gives (start_device answer device n) (fun tr =>
    answered tr (PromiscuousGet device) 1 /\ answered tr (DevStart device) 0 \/
    exists r, r <> 1 /\ answered tr (PromiscuousGet device) r).
Proof.
  intros tr r tr'. unfold start_device. cbn [call].
  set (t1 := PromiscuousEnable device :: tr). set (c := PromiscuousGet device).
  assert (extends tr (c :: t1)) as He by (by exists [c; PromiscuousEnable device]).
  destruct (Z.eqb_spec (answer t1 c) 1) as [E|E]; cbn [negb].
  2: { intros [= <- <-]. split; [done|]. left. split; [done|]. right. exists (answer t1 c).
       split; [done|apply answered_here]. }
  assert (answered (c :: t1) c 1) as Hc by (rewrite <- E; apply answered_here).
  assert (gives (fun tr => let (_, tr) := call answer (SetDefaultRssReta device n) tr in (0, tr)) (fun _ => True)) as Hreta.
  { intros t x t' [= <- <-]. split; [apply extends_cons|by left]. }
  intros H. destruct (gives_and_then _ _ _ _ (gives_call (DevStart device) ltac:(done)) Hreta
    (stable_answered _ _) _ _ _ H) as [He' Hor].
  split; [by etransitivity|]. destruct Hor as [[-> [Hs _]]|?]; [left|by right]. split; [done|].
  left. split; [|done]. by apply (answered_extends (c :: t1)).
Qed.

Lemma gives_device n device : 0 <= n -> gives (nf_init_device answer rss nf_build (n + 1) device n) (device_ready n device).
Proof.
  intros Hn. unfold nf_init_device. eapply gives_impl; cycle 1.
  { apply gives_and_then; [by apply gives_call| |apply stable_answered].
    apply gives_and_then; [by apply gives_call| |apply stable_answered].
    apply gives_and_then; [by apply gives_queues| |].
    - apply gives_and_then; [by apply gives_queues|apply gives_start|].
      intros tr tr' He H q Hq. apply (answered_extends tr); [done|by apply H].
    - intros tr tr' He H q Hq. apply (answered_extends tr); [done|by apply H]. }
  intros tr (Hc & _ & Htx & Hrx & Hs). split; [done|]. split; [|done].
  intros q Hq. split; [apply Htx|apply Hrx]; lia.
Qed.

(** The two loops of main. *)
Lemma create_pools_spec nb lcores : forall i tr u tr',
  create_pools answer nb i lcores tr = (u, tr') ->
  extends tr tr' /\
  match u with
  | Some _ => forall k c, lcores !! k = Some c ->
      exists r, r <> 0 /\ answered tr' (PoolCreate (i + Z.of_nat k) (MEMPOOL_BUFFER_COUNT * nb) c) r
  | None => fails tr'
  end.
Proof.
  induction lcores as [|c lcores IH]; intros i tr u tr'; cbn [create_pools call].
  { by intros [= <- <-]. }
  set (p := PoolCreate i _ c). destruct (Z.eqb_spec (answer tr p) 0) as [E|E].
  - intros [= <- <-]. split; [apply extends_cons|]. by exists p, tr.
  - intros H. destruct (IH _ _ _ _ H) as [He Hp]. split; [etransitivity; [apply extends_cons|done]|].
    destruct u as [u|]; [|done]. intros [|k] x Hk; cbn in Hk.
    + injection Hk as <-. exists (answer tr p). split; [done|]. rewrite Z.add_0_r.
      apply (answered_extends _ _ _ _ He), answered_here.
    + destruct (Hp k x Hk) as (r & Hr & Ha). exists r. split; [done|].
      by replace (i + Z.of_nat (S k)) with (i + 1 + Z.of_nat k) by lia.
Qed.

Lemma init_devices_spec queues n : 0 <= queues -> forall i tr u tr',
  init_devices answer rss nf_build (queues + 1) queues n i tr = (u, tr') ->
  extends tr tr' /\
  match u with
  | Some _ => forall d, i <= d < i + Z.of_nat n -> device_ready queues d tr'
  | None => fails tr'
  end.
Proof.
  intros Hq. induction n as [|n IH]; intros i tr u tr'; cbn [init_devices].
  { intros [= <- <-]. split; [done|]. intros d Hd. lia. }
  destruct (nf_init_device answer rss nf_build (queues + 1) i queues tr) as [r t1] eqn:Ed.
  destruct (gives_device queues i Hq _ _ _ Ed) as [He [[-> Hd]|[Hne Hf]]].
  - cbn. intros H. destruct (IH _ _ _ _ H) as [He' Hds]. split; [by etransitivity|].
    destruct u as [u|]; [|done]. intros d Hr. destruct (decide (d = i)) as [->|]; [|apply Hds; lia].
    by eapply device_ready_extends.
  - rewrite (proj2 (Z.eqb_neq _ _) Hne). by intros [= <- <-].
Qed.
End calls.

(** ** Theorems *)

(** C35: main exits only after a call that failed, returns 1 only when the NF
    has no state, and otherwise launches the cores, each with a buffer pool
    and a thread of its own: the last runs the periodic handler, the others
    process packets, and the queues they poll and send on have been set up on
    every device; the packet-set manager is set up for the NF that has packet
    sets, with the NF's validity in cycles. *)
Theorem main_spec {St G : Type} (answer : list dpdk_call -> dpdk_call -> Z) (rss : rss_env) (nf_build : Z)
    (nf_init : option (St * nf_options))
    (init_manager : Z -> bool -> option (option G)) (lcores : list Z) (nb_devices tsc_hz : Z)
    (Hl : lcores <> []) (Hnb : 0 <= nb_devices) :
  let n := Z.of_nat (length lcores) in
  match main answer rss nf_build nf_init init_manager lcores nb_devices tsc_hz with
  | (Exit _, tr) => fails answer tr
  | (Return1 _, tr) => nf_init = None
  | (Diverges _, tr) => exists v b, init_manager v b = None
  | (Launched _ o manager funcs, tr) =>
      (exists st, nf_init = Some (st, o)) /\
      (opt_has_pkt_sets o = true ->
       init_manager (to_tsc tsc_hz (opt_validity_duration o)) (opt_has_related_pkt_sets o) = Some manager) /\
      (forall i c, lcores !! i = Some c ->
         exists r, r <> 0 /\ answered answer tr (PoolCreate (Z.of_nat i) (MEMPOOL_BUFFER_COUNT * nb_devices) c) r) /\
      (forall d, 0 <= d < nb_devices -> device_ready answer rss nf_build (n - 1) d tr) /\
      (forall i, 0 <= i < n -> RluThread i ∈ tr /\
         match funcs i with
         | (id, ProcessMain) => id = i /\ i < n - 1 /\ forall d, 0 <= d < nb_devices ->
             answered answer tr (RxQueueSetup d i RX_QUEUE_SIZE i) 0 /\
             answered answer tr (TxQueueSetup d i TX_QUEUE_SIZE) 0
         | (id, PeriodicHandlerMain) => id = i /\ i = n - 1
         end)
  end.
Proof.
  intros n. assert (0 < n) as Hn by (destruct lcores; [done|unfold n; cbn; lia]).
  unfold main. fold n. cbn [call].
  destruct (Z.ltb_spec (answer [] EalInit) 0) as [He|He]; [by exists EalInit, []|].
  destruct (create_pools _ _ _ _ _) as [u1 t1] eqn:E1.
  destruct (create_pools_spec _ _ _ _ _ _ _ E1) as [Hx1 Hpools]. destruct u1 as [u1|]; [|done].
  destruct (init_devices _ _ _ _ _ _ _ _) as [u2 t2] eqn:E2.
  replace n with (n - 1 + 1) in E2 at 1 by lia.
  destruct (init_devices_spec answer rss nf_build (n - 1) _ ltac:(lia) _ _ _ _ E2) as [Hx2 Hdevs]. destruct u2 as [u2|]; [|done].
  destruct nf_init as [[st o]|]; [|done].
  set (mgr := if opt_has_pkt_sets o then _ else _). destruct mgr as [manager|] eqn:Em.
  2: { unfold mgr in Em. destruct (opt_has_pkt_sets o); [by eexists _, _|done]. }
  set (tr := rev _ ++ _). assert (extends t2 tr) as Hx3.
  { exists (rev (map RluThread (seqZ 0 n)) ++ [RluInit (List.last lcores 0); NfInit]). unfold tr. by rewrite <- app_assoc. }
  assert (forall d, 0 <= d < nb_devices -> device_ready answer rss nf_build (n - 1) d tr) as Hd.
  { intros d Hr. apply (device_ready_extends _ _ _ _ _ t2); [done|]. apply Hdevs. lia. }
  split; [by exists st|]. split; [intros Hh; unfold mgr in Em; by rewrite Hh in Em|]. split.
  { intros i c Hi. destruct (Hpools i c Hi) as (r & Hr & Ha). exists r. split; [done|].
    apply (answered_extends _ t1); [by etransitivity|done]. }
  split; [done|]. intros i Hi. split.
  - unfold tr. apply elem_of_app. left. apply list_elem_of_In, in_rev, list_elem_of_In.
    rewrite rev_involutive. apply list_elem_of_fmap. exists i. split; [done|].
    apply elem_of_seqZ. lia.
  - unfold lcore_entry, lcore_funcs. destruct (Z.ltb_spec i (n - 1)); [|split; [done|lia]].
    split; [done|]. split; [done|]. intros d Hr. destruct (Hd d Hr) as (_ & Hq & _).
    destruct (Hq i ltac:(lia)). by split.
Qed.

(** ** Witness: three cores, two devices, all of which answer well *)

Definition ex_answer (tr : list dpdk_call) (c : dpdk_call) : Z :=
  match c with PoolCreate _ _ _ | PromiscuousGet _ => 1 | _ => 0 end.
Definition ex_options : nf_options := NfOptions 1200000 false true true.

Lemma main_spec_witness :
  [8; 10; 12] <> [] /\
  match main ex_answer ex_rss_env FW (Some (tt, ex_options)) (fun v _ => Some (Some v)) [8; 10; 12] 2 3000000000 with
  | (Launched _ o manager funcs, tr) =>
      manager = Some 3600000000 /\ map funcs [0; 1; 2] = [(0, ProcessMain); (1, ProcessMain); (2, PeriodicHandlerMain)] /\
      forall d, 0 <= d < 2 -> device_ready ex_answer ex_rss_env FW 2 d tr
  | _ => False
  end.
Proof.
  split; [discriminate|].
  pose proof (main_spec ex_answer ex_rss_env FW (Some (tt, ex_options)) (fun v _ => Some (Some v)) [8; 10; 12] 2 3000000000
    ltac:(discriminate) ltac:(lia)) as H. cbv zeta in H.
  destruct (main _ _ _ _ _ _ _ _) as [[| |o manager funcs|] tr] eqn:E; [vm_compute in E; discriminate E..| |vm_compute in E; discriminate E].
  destruct H as (_ & _ & _ & Hd & _).
  vm_compute in E. injection E as _ <- <- _. split; [reflexivity|]. split; [vm_compute; reflexivity|].
  exact Hd.
Defined.

(** *** Where the code does not do what it means to *)

(** A device that does not turn promiscuous is not started, its
    initialisation reports success, and the cores are launched. *)
Lemma device_not_started :
  let answer tr c := match c with PromiscuousGet 1 => 0 | _ => ex_answer tr c end in
  match main answer ex_rss_env FW (Some (tt, ex_options)) (fun v _ => Some (Some v)) [8; 10; 12] 2 3000000000 with
  | (Launched _ _ _ _, tr) => bool_decide (DevStart 0 ∈ tr) = true /\ bool_decide (DevStart 1 ∈ tr) = false
  | _ => False
  end.
Proof. by vm_compute. Qed.
