(* ===== verification/Mtrie.v ===== *)
(** * The IPv4 forwarding table of the NFs: a 16-8-8 multi-bit trie

    src/nf/common/mtrie.h, mtrie.c and fib_table.h.  A leaf is a word whose
    last bit says whether it is terminal (the rest: an index of the
    load-balance pool) or not (the rest: the index of a ply of 256 leaves);
    next to each leaf is the length of the prefix it stands for.  Routes are
    added while the NF starts, in place, to the master copies of the plies. *)

From S2P Require Import Prelude.
Open Scope Z_scope.

Definition PLY_16_SIZE : Z := 2 ^ 16.
Definition PLY_8_SIZE : Z := 2 ^ 8.

Record ip4_fib_mtrie_16_ply_t := Ply16 {
  leaves16 : Z -> Z;
  dst_address_bits_of_leaves16 : Z -> Z
}.

Record ip4_fib_mtrie_8_ply_t := Ply8 {
  leaves : Z -> Z;
  dst_address_bits_of_leaves : Z -> Z;
  n_non_empty_leafs : Z;
  dst_address_bits_base : Z
}.

Record ip4_fib_mtrie_set_unset_leaf_args_t := Args {
  dst_address : Z;
  dst_address_length : Z;
  adj_index : Z
}.

(** The pool (its elements' master copies) and the next free ply. *)
Record ply_pool := Pool {
  ip4_ply_pool : Z -> ip4_fib_mtrie_8_ply_t;
  ip4_ply_pool_index : Z
}.

Implicit Types (m : ip4_fib_mtrie_16_ply_t) (p y : ip4_fib_mtrie_8_ply_t) (s : ply_pool)
  (a : ip4_fib_mtrie_set_unset_leaf_args_t).

(** ** Leaves *)

(** The callers of get_next_ply_index have tested what it asserts. *)
Definition ip4_fib_mtrie_leaf_is_terminal (n : Z) : bool := Z.testbit n 0.
Definition ip4_fib_mtrie_leaf_get_next_ply_index (n : Z) : Z := Z.shiftr n 1.
Definition ip4_fib_mtrie_leaf_set_next_ply_index (i : Z) : option Z :=
  let l := u32 (0 + 2 * i) in
  if ip4_fib_mtrie_leaf_get_next_ply_index l =? i then Some l else None.
Definition ip4_fib_mtrie_leaf_set_adj_index (adj_index : Z) : Z := u32 (1 + 2 * adj_index).
Definition ip4_fib_mtrie_leaf_is_non_empty p (dst_byte : Z) : Z :=
  if dst_address_bits_of_leaves p dst_byte >? dst_address_bits_base p then 1 else 0.

(** ** Lookup *)

Definition ip4_fib_mtrie_lookup_step_one m (dst_address : Z) : Z :=
  leaves16 m (Z.land (Z.shiftr dst_address 16) 65535).

(** [pool]: the plies as the critical section sees them. *)
Definition ip4_fib_mtrie_lookup_step (pool : Z -> ip4_fib_mtrie_8_ply_t) (current_leaf dst_address
    dst_address_byte_index : Z) : Z :=
  if negb (ip4_fib_mtrie_leaf_is_terminal current_leaf) then
    leaves (pool (Z.shiftr current_leaf 1))
      (Z.land (Z.shiftr dst_address (24 - 8 * dst_address_byte_index)) 255)
  else current_leaf.

(** The three steps of an NF's lookup, and the index they lead to. *)
Definition mtrie_lookup m (pool : Z -> ip4_fib_mtrie_8_ply_t) (dst_address : Z) : Z :=
  let leaf0 := ip4_fib_mtrie_lookup_step_one m dst_address in
  let leaf0 := ip4_fib_mtrie_lookup_step pool leaf0 dst_address 2 in
  let leaf0 := ip4_fib_mtrie_lookup_step pool leaf0 dst_address 3 in
  Z.shiftr leaf0 1.

(** ** Plies *)

Definition ip4_mtrie_init m : ip4_fib_mtrie_16_ply_t :=
  loop_range 0 (Z.to_nat PLY_16_SIZE)
    (fun i m => Ply16 (<[i := 1]> (leaves16 m)) (dst_address_bits_of_leaves16 m))
    (Ply16 (leaves16 m) (fun _ => 0)).

(** PLY_INIT_LEAVES: four leaves per iteration. *)
Definition ply_init_leaves (init : Z) (leaves : Z -> Z) : Z -> Z :=
  loop_range 0 (Z.to_nat (PLY_8_SIZE / 4))
    (fun k leaves => <[4 * k + 3 := init]> (<[4 * k + 2 := init]> (<[4 * k + 1 := init]> (<[4 * k := init]> leaves))))
    leaves.

Definition ply_8_init (init prefix_len ply_base_len : Z) p : ip4_fib_mtrie_8_ply_t :=
  Ply8 (ply_init_leaves init (leaves p)) (fun _ => u8 prefix_len)
    (if prefix_len >? ply_base_len then PLY_8_SIZE else 0) (i32 ply_base_len).

(** Writing a leaf and its length. *)
Definition set_slot (i leaf bits : Z) p : ip4_fib_mtrie_8_ply_t :=
  Ply8 (<[i := leaf]> (leaves p)) (<[i := u8 bits]> (dst_address_bits_of_leaves p))
    (n_non_empty_leafs p) (dst_address_bits_base p).
Definition add_non_empty (d : Z) p : ip4_fib_mtrie_8_ply_t :=
  Ply8 (leaves p) (dst_address_bits_of_leaves p) (i32 (n_non_empty_leafs p + d)) (dst_address_bits_base p).

(** [s->n_non_empty_leafs -= ..; write; s->n_non_empty_leafs += ..] *)
Definition replace_slot (i leaf bits : Z) p : ip4_fib_mtrie_8_ply_t :=
  let p := add_non_empty (- ip4_fib_mtrie_leaf_is_non_empty p i) p in
  let p := set_slot i leaf bits p in
  add_non_empty (ip4_fib_mtrie_leaf_is_non_empty p i) p.

Definition on_ply (n : Z) (f : ip4_fib_mtrie_8_ply_t -> ip4_fib_mtrie_8_ply_t) s : ply_pool :=
  Pool (<[n := f (ip4_ply_pool s n)]> (ip4_ply_pool s)) (ip4_ply_pool_index s).

(** for (k = i; k < i + n; k++) with a body that can fail. *)
Fixpoint loop_opt {S} (i : Z) (n : nat) (body : Z -> S -> option S) (s : S) : option S :=
  match n with
  | O => Some s
  | Datatypes.S n' => match body i s with Some s => loop_opt (i + 1) n' body s | None => None end
  end.

(** ** Adding a route: [None] where an assertion fails or an index is out of
    the arrays. *)

Section add.
Variable capacity : Z.

Definition mtrie_vector_get s : option (Z * ply_pool) :=
  if ip4_ply_pool_index s <? capacity then
    Some (ip4_ply_pool_index s, Pool (ip4_ply_pool s) (u32 (ip4_ply_pool_index s + 1)))
  else None.

Definition ply_create (init_leaf leaf_prefix_len ply_base_len : Z) s : option (Z * ply_pool) :=
  match mtrie_vector_get s with
  | None => None
  | Some (index, s) =>
      match ip4_fib_mtrie_leaf_set_next_ply_index index with
      | None => None
      | Some l => Some (l, on_ply index (ply_8_init init_leaf leaf_prefix_len ply_base_len) s)
      end
  end.

(** [ply]: the ply's index. *)
Fixpoint set_ply_with_more_specific_leaf (fuel : nat) (ply new_leaf new_leaf_dst_address_bits : Z) s
    : option ply_pool :=
  match fuel with
  | O => None
  | Datatypes.S fuel =>
      if ip4_fib_mtrie_leaf_is_terminal new_leaf then
        loop_opt 0 (Z.to_nat PLY_8_SIZE) (fun i s =>
          let p := ip4_ply_pool s ply in
          let old_leaf := leaves p i in
          if negb (ip4_fib_mtrie_leaf_is_terminal old_leaf) then
            set_ply_with_more_specific_leaf fuel (ip4_fib_mtrie_leaf_get_next_ply_index old_leaf)
              new_leaf new_leaf_dst_address_bits s
          else if new_leaf_dst_address_bits >=? dst_address_bits_of_leaves p i then
            Some (on_ply ply (fun p =>
              let p := set_slot i new_leaf new_leaf_dst_address_bits p in
              add_non_empty (ip4_fib_mtrie_leaf_is_non_empty p i) p) s)
          else Some s) s
      else None
  end.

Fixpoint set_leaf (fuel : nat) a (old_ply_index dst_address_byte_index : Z) s : option ply_pool :=
  match fuel with
  | O => None
  | Datatypes.S fuel =>
      if (dst_address_length a <=? 32) && (dst_address_byte_index <? 32 / 8) then
        let n_dst_bits_next_plies :=
          i32 (u32 (dst_address_length a - 8 * (dst_address_byte_index + 1))) in
        let dst_byte := Z.land (Z.shiftr (dst_address a) (24 - 8 * dst_address_byte_index)) 255 in
        if n_dst_bits_next_plies <=? 0 then
          let n_dst_bits_this_ply :=
            if 8 <? - n_dst_bits_next_plies then 8 else - n_dst_bits_next_plies in
          loop_opt dst_byte (Z.to_nat (Z.shiftl 1 n_dst_bits_this_ply)) (fun i s =>
            if i <? PLY_8_SIZE then
              let p := ip4_ply_pool s old_ply_index in
              let old_leaf := leaves p i in
              let old_leaf_is_terminal := ip4_fib_mtrie_leaf_is_terminal old_leaf in
              if dst_address_length a >=? dst_address_bits_of_leaves p i then
                let new_leaf := ip4_fib_mtrie_leaf_set_adj_index (adj_index a) in
                if old_leaf_is_terminal then
                  Some (on_ply old_ply_index (replace_slot i new_leaf (dst_address_length a)) s)
                else
                  set_ply_with_more_specific_leaf fuel (ip4_fib_mtrie_leaf_get_next_ply_index old_leaf)
                    new_leaf (dst_address_length a) s
              else if negb old_leaf_is_terminal then
                set_leaf fuel a (ip4_fib_mtrie_leaf_get_next_ply_index old_leaf)
                  (dst_address_byte_index + 1) s
              else Some s
            else None) s
        else
          let ply_base_len := u8 (8 * (dst_address_byte_index + 1)) in
          let p := ip4_ply_pool s old_ply_index in
          let old_leaf := leaves p dst_byte in
          if ip4_fib_mtrie_leaf_is_terminal old_leaf then
            let s := on_ply old_ply_index
                       (add_non_empty (- ip4_fib_mtrie_leaf_is_non_empty p dst_byte)) s in
            match ply_create old_leaf (dst_address_bits_of_leaves p dst_byte) ply_base_len s with
            | None => None
            | Some (new_leaf, s) =>
                let s := on_ply old_ply_index (fun p =>
                  let p := set_slot dst_byte new_leaf ply_base_len p in
                  add_non_empty (ip4_fib_mtrie_leaf_is_non_empty p dst_byte) p) s in
                if 0 <=? n_non_empty_leafs (ip4_ply_pool s old_ply_index) then
                  set_leaf fuel a (ip4_fib_mtrie_leaf_get_next_ply_index new_leaf)
                    (dst_address_byte_index + 1) s
                else None
            end
          else
            set_leaf fuel a (ip4_fib_mtrie_leaf_get_next_ply_index old_leaf)
              (dst_address_byte_index + 1) s
      else None
  end.

Definition set_root_slot (i leaf bits : Z) m : ip4_fib_mtrie_16_ply_t :=
  Ply16 (<[i := leaf]> (leaves16 m)) (<[i := u8 bits]> (dst_address_bits_of_leaves16 m)).

Definition set_root_leaf (fuel : nat) a (ms : ip4_fib_mtrie_16_ply_t * ply_pool)
    : option (ip4_fib_mtrie_16_ply_t * ply_pool) :=
  if dst_address_length a <=? 32 then
    let n_dst_bits_next_plies := i32 (u32 (dst_address_length a - 16)) in
    let dst_byte := Z.land (Z.shiftr (dst_address a) 16) 65535 in
    if n_dst_bits_next_plies <=? 0 then
      let n_dst_bits_this_ply := u32 (16 - dst_address_length a) in
      loop_opt 0 (Z.to_nat (Z.shiftl 1 n_dst_bits_this_ply)) (fun i '(m, s) =>
        let slot := u16 (dst_byte + i) in
        let old_leaf := leaves16 m slot in
        let old_leaf_is_terminal := ip4_fib_mtrie_leaf_is_terminal old_leaf in
        if dst_address_length a >=? dst_address_bits_of_leaves16 m slot then
          let new_leaf := ip4_fib_mtrie_leaf_set_adj_index (adj_index a) in
          if old_leaf_is_terminal then Some (set_root_slot slot new_leaf (dst_address_length a) m, s)
          else
            option_map (pair m)
              (set_ply_with_more_specific_leaf fuel (ip4_fib_mtrie_leaf_get_next_ply_index old_leaf)
                 new_leaf (dst_address_length a) s)
        else if negb old_leaf_is_terminal then
          option_map (pair m) (set_leaf fuel a (ip4_fib_mtrie_leaf_get_next_ply_index old_leaf) 2 s)
        else Some (m, s)) ms
    else
      let (m, s) := ms in
      let ply_base_len := 16 in
      let old_leaf := leaves16 m dst_byte in
      if ip4_fib_mtrie_leaf_is_terminal old_leaf then
        match ply_create old_leaf (dst_address_bits_of_leaves16 m dst_byte) ply_base_len s with
        | None => None
        | Some (new_leaf, s) =>
            let m := set_root_slot dst_byte new_leaf ply_base_len m in
            option_map (pair m) (set_leaf fuel a (ip4_fib_mtrie_leaf_get_next_ply_index new_leaf) 2 s)
        end
      else
        option_map (pair m) (set_leaf fuel a (ip4_fib_mtrie_leaf_get_next_ply_index old_leaf) 2 s)
  else None.

(** A shift by 32, for the length 0, is undefined in C: [shl32] is its result. *)
Definition ip4_fib_mtrie_route_add (fuel : nat) (shl32 dst_address dst_address_length adj_index : Z)
    (ms : ip4_fib_mtrie_16_ply_t * ply_pool) : option (ip4_fib_mtrie_16_ply_t * ply_pool) :=
  let mask := if dst_address_length =? 0 then u32 shl32
              else u32 (Z.shiftl 4294967295 (32 - dst_address_length)) in
  set_root_leaf fuel (Args (Z.land dst_address mask) dst_address_length adj_index) ms.
End add.

(** ** FIB tables (fib_table.h) *)

Record ip4_fib_t := Fib { mtrie : ip4_fib_mtrie_16_ply_t; index : Z }.
Definition ip4_fib_get (ip4_fibs : Z -> ip4_fib_t) (fib_index : Z) : ip4_fib_t := ip4_fibs fib_index.

(** ** Aligned intervals *)

Lemma mult_range (U b c i r : Z) : 0 < U -> 0 <= r < U -> U * b <= U * i + r < U * (b + c) <-> b <= i < b + c.
Proof. intros. split; intros; nia. Qed.

(** The part of an aligned block of [2 ^ m] addresses that lies in an aligned
    block of [2 ^ v] slots of [2 ^ u] addresses. *)
Lemma aligned_slots (A m u v o : Z) :
  0 <= u <= m -> 0 <= v -> A mod 2 ^ m = 0 -> o mod (2 ^ u * 2 ^ v) = 0 ->
  (m < u + v -> o = 2 ^ u * 2 ^ v * (A / (2 ^ u * 2 ^ v))) -> (u + v <= m -> A <= o < A + 2 ^ m) ->
  let b := (A / 2 ^ u) mod 2 ^ v in
  let c := 2 ^ Z.min v (m - u) in
  0 <= b /\ b + c <= 2 ^ v /\
  forall i r, 0 <= i < 2 ^ v -> 0 <= r < 2 ^ u ->
  (A <= o + 2 ^ u * i + r < A + 2 ^ m <-> b <= i < b + c).
Proof.
  intros Hu Hv HA Ho Hlt Hge b c. assert (0 < 2 ^ u) as HU by lia. assert (0 < 2 ^ v) as HV by lia.
  apply Z.mod_divide in HA as [k Hk]; [|lia]. apply Z.mod_divide in Ho as [h Hh]; [|lia].
  assert (0 <= b < 2 ^ v) as Hb by (apply Z.mod_pos_bound; lia).
  set (U := 2 ^ u) in *. set (V := 2 ^ v) in *. destruct (Z.lt_ge_cases m (u + v)) as [Hm|Hm].
  - specialize (Hlt Hm). clear Hge.
    assert (2 ^ m = U * c) as Ew.
    { unfold U, c. rewrite <- Z.pow_add_r by lia. f_equal. lia. }
    set (d := 2 ^ (v - (m - u))).
    assert (c * d = V) as Ed.
    { unfold c, d. rewrite Z.min_r, <- Z.pow_add_r by lia. unfold V. by replace (m - u + (v - (m - u))) with v by lia. }
    assert (0 < c) by (unfold c; lia).
    assert (A / U = c * k) as EA.
    { rewrite Hk, Ew. replace (k * (U * c)) with (c * k * U) by lia. by apply Z.div_mul; lia. }
    assert (A / (U * V) = (c * k) / V) as EA2 by (rewrite <- Z.div_div, EA by lia; done).
    pose proof (Z.div_mod (c * k) V ltac:(lia)) as Edm. rewrite <- EA in Edm. fold b in Edm.
    rewrite EA in Edm.
    split; [lia|]. split.
    + assert (0 < d) by (unfold d; lia).
      assert (b = c * (k mod d)) as ->.
      { unfold b. rewrite EA, <- Ed. apply Z.mul_mod_distr_l; lia. }
      pose proof (Z.mod_pos_bound k d ltac:(lia)). nia.
    + intros i r Hi Hr. rewrite <- (mult_range U b c i r) by lia.
      assert (A = U * (V * (c * k / V)) + U * b) as EA3 by (rewrite Hk, Ew; nia).
      rewrite Hlt, EA2, Ew. nia.
  - specialize (Hge Hm). clear Hlt. set (K := 2 ^ (m - u - v)).
    assert (2 ^ m = U * V * K) as Ew.
    { unfold U, V, K. change V with (2 ^ 8). rewrite <- !Z.pow_add_r by lia. f_equal. lia. }
    assert (0 < K) by (unfold K; lia).
    assert (c = V) as Ec by (unfold c; by rewrite Z.min_l by lia).
    assert (b = 0) as Eb.
    { unfold b. rewrite Hk, Ew. replace (k * (U * V * K)) with (k * K * V * U) by lia.
      rewrite Z.div_mul by lia. apply Z.mod_mul. lia. }
    clearbody b c. subst b c. split; [lia|]. split; [lia|]. intros i r Hi Hr. split; [lia|]. intros _.
    assert (0 < U * V) by lia. destruct Hge as [Hge1 Hge2].
    assert (U * i + r < U * V) by nia.
    rewrite Hk, Ew, Hh in *. set (P := U * V) in *.
    assert (h < (k + 1) * K) by (apply (Z.mul_lt_mono_pos_r P); lia).
    assert (k * K <= h) by (apply (Z.mul_le_mono_pos_r _ _ P); lia).
    assert (h + 1 <= (k + 1) * K) as Hle by lia.
    apply (Z.mul_le_mono_pos_r _ _ P) in Hle; [|lia]. lia.
Qed.

Lemma i32_u32 x : - 2 ^ 31 <= x < 2 ^ 31 -> i32 (u32 x) = x.
Proof.
  intros Hx. unfold i32, swrap, u32, wrap. change (32 - 1) with 31.
  rewrite Zplus_mod_idemp_l, Z.mod_small; lia.
Qed.

Lemma shift_byte x k n : 0 <= k -> 0 <= n -> Z.land (Z.shiftr x k) (2 ^ n - 1) = x / 2 ^ k mod 2 ^ n.
Proof. intros. by rewrite land_mask, Z.shiftr_div_pow2. Qed.

(** ** Loops over slots *)

Lemma loop_opt_rule {S} (Inv Pre Post : Z -> S -> Prop) (body : Z -> S -> option S) n : forall i st,
  (forall k st, i <= k < i + Z.of_nat n -> Inv k st -> Pre k st ->
     exists st', body k st = Some st' /\ Inv (k + 1) st' /\ Post k st' /\
     forall j, j <> k -> (Pre j st -> Pre j st') /\ (Post j st -> Post j st')) ->
  Inv i st -> (forall j, i <= j < i + Z.of_nat n -> Pre j st) ->
  exists st', loop_opt i n body st = Some st' /\ Inv (i + Z.of_nat n) st' /\
    (forall j, i <= j < i + Z.of_nat n -> Post j st') /\
    (forall j, ~ (i <= j < i + Z.of_nat n) -> (Pre j st -> Pre j st') /\ (Post j st -> Post j st')).
Proof.
  induction n as [|n IH]; intros i st Hb Hi Hp; cbn [loop_opt].
  - exists st. rewrite Z.add_0_r. split; [done|]. split; [done|]. split; [lia|by split].
  - destruct (Hb i st) as (st1 & -> & Hi1 & Hp1 & Hf1); [lia|done|apply Hp; lia|].
    destruct (IH (i + 1) st1) as (st2 & -> & Hi2 & Hp2 & Hf2); [|done| |].
    { intros k st' Hk. apply Hb. lia. }
    { intros j Hj. apply Hf1; [lia|]. apply Hp. lia. }
    exists st2. split; [done|]. replace (i + Z.of_nat (Datatypes.S n)) with (i + 1 + Z.of_nat n) by lia.
    split; [done|]. split.
    + intros j Hj. destruct (decide (j = i)) as [->|Hne]; [|apply Hp2; lia].
      apply Hf2; [lia|done].
    + intros j Hj. destruct (Hf1 j ltac:(lia)), (Hf2 j ltac:(lia)). split; auto.
Qed.

(** ** The plies of a trie *)

Abbreviation terminal := ip4_fib_mtrie_leaf_is_terminal.
Definition entry p (i : Z) : Z * Z := (dst_address_bits_of_leaves p i, leaves p i).
Definition slots : list Z := seqZ 0 256.

(** The counter is at least the number of non-empty leaves: where a ply is
    filled with a more specific leaf it only ever grows. *)
Definition counted (B : Z) p : Prop :=
  zsum (ip4_fib_mtrie_leaf_is_non_empty p) slots <= n_non_empty_leafs p <= B.

(** Plies of the last level. *)
Record wf3 (B : Z) p : Prop := {
  wf3_base : dst_address_bits_base p = 24;
  wf3_count : counted B p;
  wf3_leaf i : 0 <= i < 256 -> terminal (leaves p i) = true /\ 0 <= dst_address_bits_of_leaves p i <= 32
}.

(** Only the plies in [P] are written, and none is created. *)
Definition frame (P : Z -> Prop) s s' : Prop :=
  ip4_ply_pool_index s' = ip4_ply_pool_index s /\
  forall q, ~ P q -> ip4_ply_pool s' q = ip4_ply_pool s q.

Lemma frame_refl (P : Z -> Prop) s : frame P s s.
Proof. by split. Qed.

Lemma frame_trans (P : Z -> Prop) s1 s2 s3 : frame P s1 s2 -> frame P s2 s3 -> frame P s1 s3.
Proof. intros [E1 F1] [E2 F2]. split; [by rewrite E2|]. intros q Hq. by rewrite F2, F1. Qed.

Lemma frame_mono (P Q : Z -> Prop) s s' : (forall q, P q -> Q q) -> frame P s s' -> frame Q s s'.
Proof. intros Hpq [E Hf]. split; [done|]. intros q Hq. apply Hf. auto. Qed.

Lemma on_ply_frame n f s : frame (fun q => q = n) s (on_ply n f s).
Proof. split; [done|]. intros q Hq. cbn. by rewrite fn_lookup_insert_ne. Qed.

(** Whose leaf points to a ply. *)
Inductive owner := OfRoot (fib slot : Z) | OfPly (parent slot : Z).

Lemma terminal_double q : terminal (2 * q) = false.
Proof. apply Z.testbit_even_0. Qed.

Lemma terminal_shift l : terminal l = false -> l = 2 * Z.shiftr l 1.
Proof.
  unfold terminal. intros Hl. rewrite Z.shiftr_div_pow2 by lia.
  rewrite Z.bit0_odd in Hl. rewrite (Z.div_mod l 2) at 1 by lia.
  rewrite Zmod_odd, Hl. change (2 ^ 1) with 2. lia.
Qed.

Lemma next_ply_index q : ip4_fib_mtrie_leaf_get_next_ply_index (2 * q) = q.
Proof.
  unfold ip4_fib_mtrie_leaf_get_next_ply_index. rewrite Z.shiftr_div_pow2 by lia.
  change (2 ^ 1) with 2. rewrite Z.mul_comm. by apply Z.div_mul.
Qed.

(** The leaf [i] of ply [n]: a route, or a ply of its own. *)
Definition slot2 (own : Z -> owner) s (B n i : Z) : Prop :=
  let p := ip4_ply_pool s n in
  let q := Z.shiftr (leaves p i) 1 in
  if terminal (leaves p i) then 0 <= dst_address_bits_of_leaves p i <= 24
  else dst_address_bits_of_leaves p i = 24 /\ 0 <= q < ip4_ply_pool_index s /\
    own q = OfPly n i /\ wf3 B (ip4_ply_pool s q).

(** What a lookup that comes to leaf [i] of ply [n] finds for the last byte. *)
Definition view2 s (n i b : Z) : Z * Z :=
  let p := ip4_ply_pool s n in
  if terminal (leaves p i) then entry p i else entry (ip4_ply_pool s (Z.shiftr (leaves p i) 1)) b.

Record wf2 (own : Z -> owner) s (B n : Z) : Prop := {
  wf2_base : dst_address_bits_base (ip4_ply_pool s n) = 16;
  wf2_count : counted B (ip4_ply_pool s n);
  wf2_own i : own n <> OfPly n i;
  wf2_slot i : 0 <= i < 256 -> slot2 own s B n i
}.

(** A slot that nothing is written to. *)
Lemma slot2_frame own s s' n i j B :
  frame (fun q => q = n \/ own q = OfPly n i) s s' -> j <> i -> own n <> OfPly n j ->
  entry (ip4_ply_pool s' n) j = entry (ip4_ply_pool s n) j -> slot2 own s B n j ->
  slot2 own s' B n j /\ forall b, view2 s' n j b = view2 s n j b.
Proof.
  intros [Hidx Hf] Hj Hn [= Eb El]. unfold slot2, view2. cbn zeta. rewrite El, Eb.
  destruct (terminal (leaves _ _)); [intros; split; [done|]; intros b; unfold entry; by rewrite El, Eb|].
  intros (H1 & H2 & H3 & H4). rewrite Hidx, Hf by (intros [E|E]; congruence). done.
Qed.

Lemma slot2_mono own s B B' n i : B <= B' -> slot2 own s B n i -> slot2 own s B' n i.
Proof.
  intros HB. unfold slot2. cbn zeta. destruct (terminal (leaves _ _)); [done|]. intros (H1 & H2 & H3 & [W1 [W2 W3] W4]).
  split; [done|]. split; [done|]. split; [done|]. split; [done|split; lia|done].
Qed.

Lemma wf2_mono own s B B' n : B <= B' -> wf2 own s B n -> wf2 own s B' n.
Proof.
  intros HB [H1 [H2 H2'] H3 H4]. split; [done|split; lia|done|]. intros i Hi.
  eapply slot2_mono; [done|by apply H4].
Qed.

Definition root_entry m (h : Z) : Z * Z := (dst_address_bits_of_leaves16 m h, leaves16 m h).

(** The leaf [h] of the root of table [fib]. *)
Definition slot1 (own : Z -> owner) (fib : Z) m s (B h : Z) : Prop :=
  let q := Z.shiftr (leaves16 m h) 1 in
  if terminal (leaves16 m h) then 0 <= dst_address_bits_of_leaves16 m h <= 16
  else dst_address_bits_of_leaves16 m h = 16 /\ 0 <= q < ip4_ply_pool_index s /\
    own q = OfRoot fib h /\ wf2 own s B q.

Definition view1 m s (h i b : Z) : Z * Z :=
  if terminal (leaves16 m h) then root_entry m h else view2 s (Z.shiftr (leaves16 m h) 1) i b.

(** The plies below leaf [h]. *)
Definition below (own : Z -> owner) (fib h q : Z) : Prop :=
  own q = OfRoot fib h \/ exists r i, own q = OfPly r i /\ own r = OfRoot fib h.

Lemma wf2_frame own own' s s' B n :
  (forall q, q < ip4_ply_pool_index s -> own' q = own q) ->
  ip4_ply_pool_index s <= ip4_ply_pool_index s' -> n < ip4_ply_pool_index s ->
  ip4_ply_pool s' n = ip4_ply_pool s n ->
  (forall q i, q < ip4_ply_pool_index s -> own q = OfPly n i -> ip4_ply_pool s' q = ip4_ply_pool s q) ->
  wf2 own s B n ->
  wf2 own' s' B n /\ forall i b, 0 <= i < 256 -> view2 s' n i b = view2 s n i b.
Proof.
  intros Hown Hidx Hn En Ec [H1 H2 H3 H4].
  assert (forall i, 0 <= i < 256 -> slot2 own' s' B n i /\ forall b, view2 s' n i b = view2 s n i b) as Hs.
  { intros i Hi. specialize (H4 i Hi). unfold slot2, view2 in *. cbn zeta in *. rewrite En.
    destruct (terminal (leaves _ _)); [done|]. destruct H4 as (Hb & Hq & Ho & Hw3).
    rewrite (Ec _ i) by (lia || done). rewrite Hown by lia.
    split; [|done]. split; [done|]. split; [lia|done]. }
  split; [|intros; by apply Hs]. split; [by rewrite En|by rewrite En| |intros i Hi; by apply Hs].
  intros i. rewrite Hown by done. apply H3.
Qed.

(** A leaf of the root whose plies are not written. *)
Lemma slot1_frame own own' fib m m' s s' B h :
  (forall q, q < ip4_ply_pool_index s -> own' q = own q) ->
  ip4_ply_pool_index s <= ip4_ply_pool_index s' -> root_entry m' h = root_entry m h ->
  (forall q, q < ip4_ply_pool_index s -> below own fib h q -> ip4_ply_pool s' q = ip4_ply_pool s q) ->
  slot1 own fib m s B h ->
  slot1 own' fib m' s' B h /\ forall i b, 0 <= i < 256 -> view1 m' s' h i b = view1 m s h i b.
Proof.
  intros Hown Hidx [= Eb El] Hf Hs. unfold slot1, view1 in *. cbn zeta in *. rewrite El, Eb.
  destruct (terminal (leaves16 m h)); [split; [done|]; intros; unfold root_entry; by rewrite El, Eb|].
  destruct Hs as (H1 & H2 & H3 & H4).
  destruct (wf2_frame own own' s s' B (Z.shiftr (leaves16 m h) 1)) as [Hw Hv]; [done|done|lia| | |done|].
  - apply Hf; [lia|]. by left.
  - intros q i Hq Ho. apply Hf; [lia|]. right. eauto.
  - split; [|intros; by apply Hv]. split; [done|]. split; [lia|]. split; [|done]. by rewrite Hown by lia.
Qed.

Lemma slot1_mono own fib m s B B' h : B <= B' -> slot1 own fib m s B h -> slot1 own fib m s B' h.
Proof.
  intros HB. unfold slot1. cbn zeta. destruct (terminal (leaves16 _ _)); [done|].
  intros (H1 & H2 & H3 & H4). split; [done|]. split; [done|]. split; [done|]. by eapply wf2_mono.
Qed.

Lemma below_inj own fib h h' q : below own fib h q -> below own fib h' q -> h = h'.
Proof. intros [?|(r & i & ? & ?)] [?|(r' & i' & ? & ?)]; congruence. Qed.

(** A ply's parent is older than what comes next. *)
Definition parents_ok (own : Z -> owner) s : Prop :=
  forall q r i, q < ip4_ply_pool_index s -> own q = OfPly r i -> r < ip4_ply_pool_index s.

(** The ply that replaces a terminal leaf, and what is then below it. *)
Lemma ply_init_leaves_spec init (f : Z -> Z) i : 0 <= i < 256 -> ply_init_leaves init f i = init.
Proof.
  intros Hi. unfold ply_init_leaves.
  refine (loop_range_spec (fun k f => forall i, 0 <= i < 4 * k -> f i = init) _ 64 f _ _ _ i Hi);
    [lia|lia|].
  intros k g Hk IH j Hj. clear - IH Hj. fcases; try done. apply IH. lia.
Qed.

Lemma u8_len b : 0 <= b <= 32 -> u8 b = b.
Proof. intros. apply wrap_id. lia. Qed.

Lemma is_non_empty_range p i : 0 <= ip4_fib_mtrie_leaf_is_non_empty p i <= 1.
Proof. unfold ip4_fib_mtrie_leaf_is_non_empty. destruct (_ >? _); lia. Qed.

Lemma counted_pos B p : counted B p -> 0 <= n_non_empty_leafs p <= B.
Proof.
  intros [H1 H2]. split; [|done]. etransitivity; [|exact H1]. apply zsum_nonneg.
  intros x _. apply is_non_empty_range.
Qed.

Lemma counted_elem B p i : counted B p -> 0 <= i < 256 ->
  ip4_fib_mtrie_leaf_is_non_empty p i <= n_non_empty_leafs p.
Proof.
  intros [H1 _] Hi. etransitivity; [|exact H1]. apply zsum_elem; [|apply elem_of_seqZ; lia].
  intros y _. apply is_non_empty_range.
Qed.

(** A new ply: every address keeps its route. *)
Lemma ply_8_init_entry leaf bits base p i :
  0 <= i < 256 -> 0 <= bits <= 32 -> entry (ply_8_init leaf bits base p) i = (bits, leaf).
Proof.
  intros Hi Hb. unfold entry. cbn [ply_8_init leaves dst_address_bits_of_leaves].
  by rewrite ply_init_leaves_spec, u8_len.
Qed.

Lemma ply_8_init_counted leaf bits base p B :
  0 <= B -> 0 <= bits <= base -> base <= 24 -> counted B (ply_8_init leaf bits base p).
Proof.
  intros HB Hbits Hb. unfold counted. rewrite zsum_zero; cbn [ply_8_init n_non_empty_leafs].
  - destruct (Z.gtb_spec bits base); lia.
  - intros x _. unfold ip4_fib_mtrie_leaf_is_non_empty.
    cbn [ply_8_init dst_address_bits_of_leaves dst_address_bits_base].
    rewrite u8_len, i32_id by lia. destruct (Z.gtb_spec bits base); lia.
Qed.

Lemma ply_8_init_wf leaf bits p B :
  0 <= B -> terminal leaf = true -> 0 <= bits <= 24 -> wf3 B (ply_8_init leaf bits 24 p).
Proof.
  intros HB Ht Hbits. split; [done|by apply ply_8_init_counted|]. intros i Hi.
  set (p' := ply_8_init leaf bits 24 p).
  change (terminal (entry p' i).2 = true /\ 0 <= (entry p' i).1 <= 32). unfold p'.
  rewrite ply_8_init_entry by lia. split; [done|cbn; lia].
Qed.

Lemma next_ply_ok i : 0 <= i < 2 ^ 31 -> ip4_fib_mtrie_leaf_set_next_ply_index i = Some (2 * i).
Proof.
  intros Hi. unfold ip4_fib_mtrie_leaf_set_next_ply_index. rewrite Z.add_0_l, u32_id by lia.
  by rewrite next_ply_index, Z.eqb_refl.
Qed.

(** ** What adding a route does to a slot *)

Section route.
Variables (len new : Z).
Hypotheses (Hlen : 0 <= len <= 32) (Hnew : terminal new = true).

(** A leaf is replaced by a more or equally specific one. *)
Definition improve (e : Z * Z) : Z * Z := if len >=? e.1 then (len, new) else e.
Definition improve_if (c : bool) (e : Z * Z) : Z * Z := if c then improve e else e.

(** Slot [i] gets the value [e], and the counter is at most one more. *)
Record slot_set p p' (i : Z) (e : Z * Z) : Prop := {
  ss_entry : entry p' i = e;
  ss_other j : j <> i -> entry p' j = entry p j;
  ss_base : dst_address_bits_base p' = dst_address_bits_base p;
  ss_count B : counted B p -> counted (B + 1) p'
}.

(** Where the counter is changed by the difference, or is left too big. *)
Lemma slot_set_intro p p' i leaf bits :
  0 <= i < 256 -> leaves p' = <[i := leaf]> (leaves p) ->
  dst_address_bits_of_leaves p' = <[i := bits]> (dst_address_bits_of_leaves p) ->
  dst_address_bits_base p' = dst_address_bits_base p ->
  n_non_empty_leafs p + (ip4_fib_mtrie_leaf_is_non_empty p' i - ip4_fib_mtrie_leaf_is_non_empty p i)
    <= n_non_empty_leafs p' <= n_non_empty_leafs p + 1 ->
  slot_set p p' i (bits, leaf).
Proof.
  intros Hi El Eb Ebase Hn. split; [|intros j Hj| |intros B [H1 H2]]; unfold entry.
  - by rewrite El, Eb, !fn_lookup_insert.
  - by rewrite El, Eb, !fn_lookup_insert_ne by done.
  - done.
  - split; [|lia].
    rewrite (zsum_change (ip4_fib_mtrie_leaf_is_non_empty p) _ slots i); [lia|apply NoDup_seqZ| |].
    + apply elem_of_seqZ. lia.
    + intros j _ Hj. unfold ip4_fib_mtrie_leaf_is_non_empty.
      by rewrite Eb, Ebase, fn_lookup_insert_ne by done.
Qed.

Lemma replace_slot_set B p i leaf bits :
  0 <= i < 256 -> counted B p -> B + 1 < 2 ^ 31 -> 0 <= bits <= 32 ->
  slot_set p (replace_slot i leaf bits p) i (bits, leaf).
Proof.
  intros Hi Hc HB Hb. pose proof (counted_pos B p Hc). pose proof (counted_elem B p i Hc Hi).
  assert (forall d, ip4_fib_mtrie_leaf_is_non_empty (add_non_empty d p) i =
    ip4_fib_mtrie_leaf_is_non_empty p i) as E by done.
  apply slot_set_intro; [done|done|cbn; by rewrite u8_len by done|done|].
  unfold replace_slot. cbn zeta.
  set (p1 := set_slot i leaf bits (add_non_empty (- ip4_fib_mtrie_leaf_is_non_empty p i) p)).
  assert (ip4_fib_mtrie_leaf_is_non_empty
    (add_non_empty (ip4_fib_mtrie_leaf_is_non_empty p1 i) p1) i = ip4_fib_mtrie_leaf_is_non_empty p1 i)
    as -> by done.
  pose proof (is_non_empty_range p i). pose proof (is_non_empty_range p1 i). cbn [add_non_empty n_non_empty_leafs].
  assert (n_non_empty_leafs p1 = n_non_empty_leafs p - ip4_fib_mtrie_leaf_is_non_empty p i) as ->.
  { cbn. rewrite i32_id by lia. lia. }
  rewrite i32_id by lia. lia.
Qed.

Lemma set_slot_set B p i leaf bits :
  0 <= i < 256 -> counted B p -> B + 1 < 2 ^ 31 -> 0 <= bits <= 32 ->
  slot_set p (let p := set_slot i leaf bits p in
    add_non_empty (ip4_fib_mtrie_leaf_is_non_empty p i) p) i (bits, leaf).
Proof.
  intros Hi Hc HB Hb. pose proof (counted_pos B p Hc). cbn zeta.
  set (p1 := set_slot i leaf bits p).
  apply slot_set_intro; [done|done|cbn; by rewrite u8_len by done|done|].
  assert (ip4_fib_mtrie_leaf_is_non_empty
    (add_non_empty (ip4_fib_mtrie_leaf_is_non_empty p1 i) p1) i = ip4_fib_mtrie_leaf_is_non_empty p1 i)
    as -> by done.
  pose proof (is_non_empty_range p i). pose proof (is_non_empty_range p1 i). cbn [add_non_empty n_non_empty_leafs].
  assert (n_non_empty_leafs p1 = n_non_empty_leafs p) as -> by done.
  rewrite i32_id by lia. lia.
Qed.

Lemma slot_set_same p i : slot_set p p i (entry p i).
Proof. split; [done..|]. intros B [??]. split; lia. Qed.

(** *** The last level *)

(** A step or a loop that has improved the slots in [c] of ply [n]. *)
Record improved3 s s' (n : Z) (B : Z) (c : Z -> bool) : Prop := {
  i3_frame : frame (fun q => q = n) s s';
  i3_wf : wf3 (B + 256) (ip4_ply_pool s' n);
  i3_entry i : 0 <= i < 256 ->
    entry (ip4_ply_pool s' n) i = improve_if (c i) (entry (ip4_ply_pool s n) i)
}.

(** One iteration, of either loop, at a terminal leaf. *)
Definition terminal_step (body : Z -> ply_pool -> option ply_pool) (n lo hi B : Z) : Prop :=
  forall i s, lo <= i < hi -> counted B (ip4_ply_pool s n) ->
  terminal (leaves (ip4_ply_pool s n) i) = true ->
  exists s', body i s = Some s' /\ frame (fun q => q = n) s s' /\
    slot_set (ip4_ply_pool s n) (ip4_ply_pool s' n) i (improve (entry (ip4_ply_pool s n) i)).

Lemma improve_ok e : terminal e.2 = true /\ 0 <= e.1 <= 32 ->
  terminal (improve e).2 = true /\ 0 <= (improve e).1 <= 32.
Proof. unfold improve. by destruct (len >=? e.1). Qed.

Lemma loop3 body s n lo hi B :
  0 <= lo <= hi -> hi <= 256 -> (forall k, 0 <= k < 256 -> terminal_step body n lo hi (B + k)) ->
  wf3 B (ip4_ply_pool s n) ->
  exists s', loop_opt lo (Z.to_nat (hi - lo)) body s = Some s' /\
    improved3 s s' n B (fun i => bool_decide (lo <= i < hi)).
Proof.
  intros Hlo Hhi Hb [Hbase Hc Hl].
  destruct (loop_opt_rule
    (fun k st => dst_address_bits_base (ip4_ply_pool st n) = 24 /\ counted (B + (k - lo)) (ip4_ply_pool st n) /\
       frame (fun q => q = n) s st)
    (fun j st => entry (ip4_ply_pool st n) j = entry (ip4_ply_pool s n) j)
    (fun j st => entry (ip4_ply_pool st n) j = improve (entry (ip4_ply_pool s n) j))
    body (Z.to_nat (hi - lo)) lo s) as (s' & E & (H1 & H2 & H3) & H5 & H6).
  - intros k st Hk (Ib & Ic & If) Ie.
    assert (terminal (leaves (ip4_ply_pool st n) k) = true) as Ht.
    { injection Ie as _ ->. apply Hl. lia. }
    destruct (Hb (k - lo) ltac:(lia) k st ltac:(lia) Ic Ht) as (st' & -> & Hf & [Se So Sb Sc]).
    exists st'. split; [done|]. split; [|split].
    + rewrite Sb. split; [done|]. split; [|by eapply frame_trans].
      replace (B + (k + 1 - lo)) with (B + (k - lo) + 1) by lia. by apply Sc.
    + by rewrite Se, Ie.
    + intros j Hj. by rewrite So.
  - split; [done|]. split; [|apply frame_refl]. by rewrite Z.sub_diag, Z.add_0_r.
  - done.
  - exists s'. split; [done|]. replace (lo + Z.of_nat (Z.to_nat (hi - lo))) with hi in * by lia.
    assert (forall i, 0 <= i < 256 -> entry (ip4_ply_pool s' n) i =
      improve_if (bool_decide (lo <= i < hi)) (entry (ip4_ply_pool s n) i)) as He.
    { intros i Hi. unfold improve_if. case_bool_decide; [by apply H5|by apply H6]. }
    split; [done| |done]. split; [done|destruct H2; split; lia|].
    intros i Hi. specialize (He i Hi). specialize (Hl i Hi).
    change (terminal (entry (ip4_ply_pool s' n) i).2 = true /\ 0 <= (entry (ip4_ply_pool s' n) i).1 <= 32).
    rewrite He. unfold improve_if. destruct (bool_decide _); [by apply improve_ok|done].
Qed.

Lemma improved3_ext s s' n B c c' :
  (forall i, 0 <= i < 256 -> c i = c' i) -> improved3 s s' n B c -> improved3 s s' n B c'.
Proof. intros Hc [H1 H2 H3]. split; [done..|]. intros i Hi. by rewrite H3, Hc. Qed.

Variable capacity : Z.

(** The write at a terminal leaf, in either loop. *)
Lemma write_step (write : ip4_fib_mtrie_8_ply_t -> ip4_fib_mtrie_8_ply_t) n i s :
  slot_set (ip4_ply_pool s n) (write (ip4_ply_pool s n)) i (len, new) ->
  exists s', (if len >=? dst_address_bits_of_leaves (ip4_ply_pool s n) i then Some (on_ply n write s)
              else Some s) = Some s' /\ frame (fun q => q = n) s s' /\
    slot_set (ip4_ply_pool s n) (ip4_ply_pool s' n) i (improve (entry (ip4_ply_pool s n) i)).
Proof.
  intros Hw. unfold improve. cbn [entry fst].
  destruct (len >=? dst_address_bits_of_leaves (ip4_ply_pool s n) i).
  - eexists. split; [done|]. split; [apply on_ply_frame|]. cbn. by rewrite fn_lookup_insert.
  - exists s. split; [done|]. split; [apply frame_refl|apply slot_set_same].
Qed.

Lemma set_ply3 f n s B : wf3 B (ip4_ply_pool s n) -> B + 256 < 2 ^ 31 ->
  exists s', set_ply_with_more_specific_leaf (S f) n new len s = Some s' /\
    improved3 s s' n B (fun _ => true).
Proof.
  intros Hw HB. cbn [set_ply_with_more_specific_leaf]. rewrite Hnew.
  match goal with |- exists _, loop_opt _ _ ?body _ = _ /\ _ =>
    destruct (loop3 body s n 0 256 B) as (s' & E & Hi);
      [lia|lia| |done|exists s'; split; [exact E|]] end.
  - intros k Hk i st Hi Hc Ht. rewrite Ht. cbn [negb]. apply write_step.
    apply (set_slot_set (B + k)); (done || lia).
  - eapply improved3_ext; [|exact Hi]. intros i Hr. by apply bool_decide_eq_true.
Qed.

(** *** The level above *)

Record step2 (own : Z -> owner) s s' (n i : Z) (c : Z -> bool) (B : Z) : Prop := {
  s2_frame : frame (fun q => q = n \/ own q = OfPly n i) s s';
  s2_other j : j <> i -> entry (ip4_ply_pool s' n) j = entry (ip4_ply_pool s n) j;
  s2_base : dst_address_bits_base (ip4_ply_pool s' n) = dst_address_bits_base (ip4_ply_pool s n);
  s2_count B' : counted B' (ip4_ply_pool s n) -> counted (B' + 1) (ip4_ply_pool s' n);
  s2_slot : slot2 own s' (B + 256) n i;
  s2_view b : 0 <= b < 256 -> view2 s' n i b = improve_if (c b) (view2 s n i b)
}.

Lemma improve_if_le24 c e : len <= 24 -> 0 <= e.1 <= 24 -> 0 <= (improve_if c e).1 <= 24.
Proof. intros Hl He. unfold improve_if, improve. destruct c; [|done]. destruct (len >=? e.1); cbn; lia. Qed.

Record improved2 (own : Z -> owner) s s' (n B : Z) (c : Z -> Z -> bool) : Prop := {
  i2_frame : frame (fun q => q = n \/ exists i, own q = OfPly n i) s s';
  i2_wf : wf2 own s' (B + 256) n;
  i2_view i b : 0 <= i < 256 -> 0 <= b < 256 ->
    view2 s' n i b = improve_if (c i b) (view2 s n i b)
}.

Lemma loop2 own body s n lo hi B (c : Z -> bool) :
  0 <= lo <= hi -> hi <= 256 -> B + 512 < 2 ^ 31 ->
  (forall i st, lo <= i < hi -> counted (B + 255) (ip4_ply_pool st n) -> slot2 own st B n i ->
     exists st', body i st = Some st' /\ step2 own st st' n i c B) ->
  wf2 own s B n ->
  exists s', loop_opt lo (Z.to_nat (hi - lo)) body s = Some s' /\
    improved2 own s s' n B (fun i b => bool_decide (lo <= i < hi) && c b).
Proof.
  intros Hlo Hhi HB Hb [Hbase Hc Hown Hs].
  destruct (loop_opt_rule
    (fun k st => dst_address_bits_base (ip4_ply_pool st n) = 16 /\ counted (B + (k - lo)) (ip4_ply_pool st n) /\
       frame (fun q => q = n \/ exists i, own q = OfPly n i) s st)
    (fun j st => 0 <= j < 256 -> slot2 own st B n j /\ forall b, view2 st n j b = view2 s n j b)
    (fun j st => 0 <= j < 256 -> slot2 own st (B + 256) n j /\
       forall b, 0 <= b < 256 -> view2 st n j b = improve_if (c b) (view2 s n j b))
    body (Z.to_nat (hi - lo)) lo s) as (s' & E & (H1 & H2 & H3) & H5 & H6).
  - intros k st Hk (Ib & [Ic1 Ic2] & If) Ie. destruct (Ie ltac:(lia)) as [Is Iv].
    destruct (Hb k st ltac:(lia) ltac:(split; lia) Is) as (st' & -> & [Sf So Sb Sc Ss Sv]).
    exists st'. split; [done|]. split; [|split].
    + split; [by rewrite Sb|]. split.
      * replace (B + (k + 1 - lo)) with (B + (k - lo) + 1) by lia. apply Sc. by split.
      * eapply frame_trans; [exact If|]. eapply frame_mono; [|exact Sf]. intros q [?|?]; [by left|right; by exists k].
    + intros _. split; [done|]. intros b Hbr. by rewrite Sv, Iv.
    + intros j Hj. assert (forall B', slot2 own st B' n j ->
        slot2 own st' B' n j /\ forall b, view2 st' n j b = view2 st n j b) as Hfr.
      { intros B' HB'. by apply (slot2_frame own st st' n k); [| | |apply So|]. }
      split; intros Hp Hjr; destruct (Hp Hjr) as [Hs1 Hv1]; destruct (Hfr _ Hs1) as [Hs2 Hv2];
        (split; [done|]); intros b; [by rewrite Hv2|intros Hbr; rewrite Hv2; by apply Hv1].
  - split; [done|]. split; [|apply frame_refl]. by rewrite Z.sub_diag, Z.add_0_r.
  - intros j Hj Hjr. split; [by apply Hs|done].
  - exists s'. split; [done|]. replace (lo + Z.of_nat (Z.to_nat (hi - lo))) with hi in * by lia.
    assert (forall i, 0 <= i < 256 -> slot2 own s' (B + 256) n i /\ forall b, 0 <= b < 256 ->
      view2 s' n i b = improve_if (bool_decide (lo <= i < hi) && c b) (view2 s n i b)) as Hi.
    { intros i Hi. case_bool_decide as Hr; [by apply H5|]. destruct (H6 i Hr) as [Hp _].
      destruct Hp as [Hs1 Hv1]; [intros _; split; [by apply Hs|done]|done|].
      split; [by eapply slot2_mono; [|done]; lia|done]. }
    split; [done| |by intros; apply Hi].
    split; [done|destruct H2; split; lia|done|]. intros i Hir. by apply Hi.
Qed.

Lemma step2_terminal own s s' n i B :
  len <= 24 -> frame (fun q => q = n) s s' ->
  slot_set (ip4_ply_pool s n) (ip4_ply_pool s' n) i (improve (entry (ip4_ply_pool s n) i)) ->
  terminal (leaves (ip4_ply_pool s n) i) = true -> slot2 own s B n i ->
  step2 own s s' n i (fun _ => true) B.
Proof.
  intros Hl Hf [Se So Sb Sc] Ht Hs. unfold slot2 in Hs. cbn zeta in Hs. rewrite Ht in Hs.
  pose proof (improve_if_le24 true (entry (ip4_ply_pool s n) i) Hl Hs) as Hr. cbn [improve_if] in Hr.
  assert (terminal (leaves (ip4_ply_pool s' n) i) = true) as Ht'.
  { change (leaves (ip4_ply_pool s' n) i) with (entry (ip4_ply_pool s' n) i).2. rewrite Se.
    unfold improve. by destruct (len >=? _). }
  split; [by eapply frame_mono; [|exact Hf]; intros q ->; left|done|done|done| |].
  - unfold slot2. cbn zeta. rewrite Ht'.
    change (dst_address_bits_of_leaves (ip4_ply_pool s' n) i) with (entry (ip4_ply_pool s' n) i).1.
    by rewrite Se.
  - intros b _. unfold view2. cbn zeta. by rewrite Ht, Ht', Se.
Qed.

Lemma step2_child own s s' n i B c :
  terminal (leaves (ip4_ply_pool s n) i) = false -> slot2 own s B n i -> own n <> OfPly n i ->
  improved3 s s' (Z.shiftr (leaves (ip4_ply_pool s n) i) 1) B c -> step2 own s s' n i c B.
Proof.
  intros Ht Hs Hn [[Hidx Hf] Hw He]. unfold slot2 in Hs. cbn zeta in Hs. rewrite Ht in Hs.
  destruct Hs as (Hb & Hq & Ho & _). set (q := Z.shiftr (leaves (ip4_ply_pool s n) i) 1) in *.
  assert (ip4_ply_pool s' n = ip4_ply_pool s n) as E by (apply Hf; congruence).
  split; [|by rewrite E|by rewrite E| | |].
  - split; [done|]. intros q' Hq'. apply Hf. intros ->. apply Hq'. by right.
  - rewrite E. intros B' [??]. split; lia.
  - unfold slot2. cbn zeta. rewrite E, Ht, Hidx. by fold q.
  - intros b Hbr. unfold view2. cbn zeta. rewrite E, Ht. fold q. by apply He.
Qed.

Lemma set_ply2 own f n s B : wf2 own s B n -> len <= 24 -> B + 512 < 2 ^ 31 ->
  exists s', set_ply_with_more_specific_leaf (S (S f)) n new len s = Some s' /\
    improved2 own s s' n B (fun _ _ => true).
Proof.
  intros Hw Hl HB. remember (S f) as f1 eqn:Ef1.
  cbn [set_ply_with_more_specific_leaf]. rewrite Hnew.
  match goal with |- exists _, loop_opt _ _ ?body _ = _ /\ _ =>
    destruct (loop2 own body s n 0 256 B (fun _ => true)) as (s' & E & Hi);
      [lia|lia|done| |done|exists s'; split; [exact E|]] end.
  - intros i st Hi Hc Hs. pose proof (wf2_own _ _ _ _ Hw i) as Hn.
    destruct (terminal (leaves (ip4_ply_pool st n) i)) eqn:Ht; cbn [negb].
    + destruct (write_step (fun p => let p := set_slot i new len p in
         add_non_empty (ip4_fib_mtrie_leaf_is_non_empty p i) p) n i st) as (st' & E & Hf & Hss).
      { apply (set_slot_set (B + 255)); (done || lia). }
      exists st'. split; [exact E|]. by apply step2_terminal.
    + pose proof Hs as Hs0. unfold slot2 in Hs. cbn zeta in Hs. rewrite Ht in Hs. destruct Hs as (_ & _ & _ & Hw3).
      destruct (set_ply3 f _ st B Hw3 ltac:(lia)) as (st' & E & H3). rewrite <- Ef1 in E.
      exists st'. split; [exact E|]. by apply step2_child.
  - destruct Hi as [Hf Hw' Hv]. split; [done|done|]. intros i b Hir Hbr. rewrite Hv by done.
    by rewrite (bool_decide_eq_true_2 (0 <= i < 256)).
Qed.

(** *** set_leaf *)

Variable a : ip4_fib_mtrie_set_unset_leaf_args_t.
Hypotheses (Ha : dst_address_length a = len)
  (Hadj : ip4_fib_mtrie_leaf_set_adj_index (adj_index a) = new).
Let A := dst_address a.
Let W := 2 ^ (32 - len).
Hypotheses (HA : 0 <= A < 2 ^ 32) (Hmask : A mod W = 0).

(** The addresses of the route. *)
Definition covers (x : Z) : bool := bool_decide (A <= x < A + W).

(** A ply of 256 slots of [2 ^ u] addresses from [o] on that the route
    belongs to, or that it covers. *)
Definition meets (u o : Z) : Prop :=
  o mod (2 ^ u * 2 ^ 8) = 0 /\
  (32 - len < u + 8 -> o = 2 ^ u * 2 ^ 8 * (A / (2 ^ u * 2 ^ 8))) /\
  (u + 8 <= 32 - len -> A <= o < A + W).

Lemma covers_slot u o : 0 <= u <= 32 - len -> meets u o ->
  let b := A / 2 ^ u mod 2 ^ 8 in
  let c := 2 ^ Z.min 8 (32 - len - u) in
  0 <= b /\ 0 < c /\ b + c <= 256 /\
  forall i r, 0 <= i < 256 -> 0 <= r < 2 ^ u ->
  covers (o + 2 ^ u * i + r) = bool_decide (b <= i < b + c).
Proof.
  intros Hu (Ho & H1 & H2) b c.
  destruct (aligned_slots A (32 - len) u 8 o) as (Hb & Hc & Hi); [done|lia|done..|].
  split; [done|]. split; [lia|]. split; [done|]. intros i r Hir Hr. apply bool_decide_ext. by apply Hi.
Qed.

Lemma set_leaf3 f n s B o : wf3 B (ip4_ply_pool s n) -> B + 256 < 2 ^ 31 -> meets 0 o ->
  exists s', set_leaf capacity (S f) a n 3 s = Some s' /\
    improved3 s s' n B (fun i => covers (o + i)).
Proof.
  intros Hw HB Ho. destruct (covers_slot 0 o ltac:(lia) Ho) as (Hb & Hc & Hbc & Hcov).
  cbn [set_leaf]. rewrite Ha, Hadj. change (3 <? 32 / 8) with true.
  rewrite (proj2 (Z.leb_le len 32)) by lia. cbn [andb]. rewrite i32_u32 by lia.
  rewrite (proj2 (Z.leb_le _ 0)) by lia. change 255 with (2 ^ 8 - 1). rewrite shift_byte by lia.
  change (24 - 8 * 3) with 0. fold A.
  set (b := A / 2 ^ 0 mod 2 ^ 8) in *.
  replace (Z.shiftl 1 (if 8 <? - (len - 8 * (3 + 1)) then 8 else - (len - 8 * (3 + 1))))
    with (b + 2 ^ Z.min 8 (32 - len - 0) - b).
  2: { rewrite Z.shiftl_1_l. destruct (Z.ltb_spec 8 (- (len - 8 * (3 + 1)))).
    - rewrite Z.min_l by lia. lia.
    - rewrite Z.min_r by lia. replace (32 - len - 0) with (- (len - 8 * (3 + 1))) by lia. lia. }
  match goal with |- exists _, loop_opt _ _ ?body _ = _ /\ _ =>
    destruct (loop3 body s n b (b + 2 ^ Z.min 8 (32 - len - 0)) B) as (s' & E & Hi);
      [lia|lia| |done|exists s'; split; [exact E|]] end.
  - intros k Hk i st Hi Hct Ht. rewrite (proj2 (Z.ltb_lt i PLY_8_SIZE)) by (unfold PLY_8_SIZE; lia).
    rewrite Ht. cbn [negb].
    destruct (write_step (replace_slot i new len) n i st) as (st' & E & Hf & Hss).
    { apply (replace_slot_set (B + k)); (done || lia). }
    exists st'. split; [|done]. exact E.
  - eapply improved3_ext; [|exact Hi]. intros i Hr. cbv beta. rewrite <- (Hcov i 0) by lia. f_equal. lia.
Qed.

(** A step at one slot, seen from the whole ply. *)
Lemma step2_improved own s s' n i c B :
  wf2 own s B n -> step2 own s s' n i c B ->
  improved2 own s s' n B (fun j b => bool_decide (j = i) && c b).
Proof.
  intros [Hbase Hc Hown Hs] [Sf So Sb Sc Ss Sv].
  assert (forall j, 0 <= j < 256 -> j <> i -> slot2 own s' B n j /\ forall b, view2 s' n j b = view2 s n j b)
    as Hfr.
  { intros j Hj Hne. apply (slot2_frame own s s' n i); [done|done|done|by apply So|by apply Hs]. }
  split.
  - eapply frame_mono; [|exact Sf]. intros q [?|?]; [by left|right; by exists i].
  - split; [by rewrite Sb| |done|].
    + destruct (Sc _ Hc). split; lia.
    + intros j Hj. destruct (decide (j = i)) as [->|Hne]; [done|].
      eapply slot2_mono; [|by apply Hfr]. lia.
  - intros j b Hj Hb. case_bool_decide as E; cbn [andb]; [subst j; by apply Sv|].
    by destruct (Hfr j Hj E) as [_ ->].
Qed.

(** What a call leaves of a ply of the middle level, plies it creates included. *)
Record added2 (own own' : Z -> owner) s s' (n B : Z) (c : Z -> Z -> bool) : Prop := {
  a2_index : ip4_ply_pool_index s <= ip4_ply_pool_index s' <= ip4_ply_pool_index s + 1;
  a2_own q : q < ip4_ply_pool_index s -> own' q = own q;
  a2_new q : ip4_ply_pool_index s <= q < ip4_ply_pool_index s' -> exists i, own' q = OfPly n i;
  a2_frame q : q < ip4_ply_pool_index s -> q <> n -> (forall i, own q <> OfPly n i) ->
    ip4_ply_pool s' q = ip4_ply_pool s q;
  a2_wf : wf2 own' s' (B + 512) n;
  a2_view i b : 0 <= i < 256 -> 0 <= b < 256 ->
    view2 s' n i b = improve_if (c i b) (view2 s n i b)
}.

Lemma improved2_added own s s' n B c : improved2 own s s' n B c -> added2 own own s s' n B c.
Proof.
  intros [[Hi Hf] Hw Hv]. split; [lia|done|lia| |by eapply wf2_mono; [|done]; lia|done].
  intros q _ Hq Ho. apply Hf. intros [?|[i ?]]; [done|by eapply Ho].
Qed.

Lemma added2_ext own own' s s' n B c c' :
  (forall i b, 0 <= i < 256 -> 0 <= b < 256 -> c i b = c' i b) ->
  added2 own own' s s' n B c -> added2 own own' s s' n B c'.
Proof.
  intros Hc [H1 H2 H3 H4 H5 H6]. split; [done..|]. intros i b Hi Hb. by rewrite H6, Hc.
Qed.

(** A route that covers whole slots of the ply. *)
Lemma set_leaf2_wide own f n s B o : wf2 own s B n -> B + 512 < 2 ^ 31 -> len <= 24 -> meets 8 o ->
  exists s', set_leaf capacity (S (S f)) a n 2 s = Some s' /\
    improved2 own s s' n B (fun i b => covers (o + 2 ^ 8 * i + b)).
Proof.
  intros Hw HB Hl Ho. destruct (covers_slot 8 o ltac:(lia) Ho) as (Hb & Hc & Hbc & Hcov).
  remember (S f) as f1 eqn:Ef1. cbn [set_leaf]. rewrite Ha, Hadj. change (2 <? 32 / 8) with true.
  rewrite (proj2 (Z.leb_le len 32)) by lia. cbn [andb]. rewrite i32_u32 by lia.
  rewrite (proj2 (Z.leb_le _ 0)) by lia. change 255 with (2 ^ 8 - 1). rewrite shift_byte by lia.
  change (24 - 8 * 2) with 8. fold A.
  set (b := A / 2 ^ 8 mod 2 ^ 8) in *.
  replace (Z.shiftl 1 (if 8 <? - (len - 8 * (2 + 1)) then 8 else - (len - 8 * (2 + 1))))
    with (b + 2 ^ Z.min 8 (32 - len - 8) - b).
  2: { rewrite Z.shiftl_1_l. destruct (Z.ltb_spec 8 (- (len - 8 * (2 + 1)))).
    - rewrite Z.min_l by lia. lia.
    - rewrite Z.min_r by lia. replace (32 - len - 8) with (- (len - 8 * (2 + 1))) by lia. lia. }
  match goal with |- exists _, loop_opt _ _ ?body _ = _ /\ _ =>
    destruct (loop2 own body s n b (b + 2 ^ Z.min 8 (32 - len - 8)) B (fun _ => true)) as (s' & E & Hi);
      [lia|lia|done| |done|exists s'; split; [exact E|]] end.
  - intros i st Hi Hct Hs. pose proof (wf2_own _ _ _ _ Hw i) as Hn.
    rewrite (proj2 (Z.ltb_lt i PLY_8_SIZE)) by (unfold PLY_8_SIZE; lia).
    destruct (terminal (leaves (ip4_ply_pool st n) i)) eqn:Ht; cbn [negb].
    + destruct (write_step (replace_slot i new len) n i st) as (st' & E & Hf & Hss).
      { apply (replace_slot_set (B + 255)); (done || lia). }
      exists st'. split; [exact E|]. by apply step2_terminal.
    + pose proof Hs as Hs0. unfold slot2 in Hs0. cbn zeta in Hs0. rewrite Ht in Hs0.
      destruct Hs0 as (Eb & _ & _ & Hw3). rewrite Eb. destruct (Z.geb_spec len 24).
      * destruct (set_ply3 f _ st B Hw3 ltac:(lia)) as (st' & E & H3). rewrite <- Ef1 in E.
        exists st'. split; [exact E|]. by apply step2_child.
      * assert (forall r, 0 <= r < 256 -> covers (o + 2 ^ 8 * i + r) = true) as Hall.
        { intros r Hr. rewrite Hcov by lia. by apply bool_decide_eq_true. }
        destruct (set_leaf3 f (Z.shiftr (leaves (ip4_ply_pool st n) i) 1) st B (o + 2 ^ 8 * i) Hw3 ltac:(lia))
          as (st' & E & H3).
        { pose proof (Hall 0 ltac:(lia)) as H0. apply bool_decide_eq_true in H0. rewrite Z.add_0_r in H0.
          split; [|split; [lia|by intros]]. destruct Ho as [Ho _]. change (2 ^ 0 * 2 ^ 8) with 256.
          rewrite (Z.mul_comm _ i). change (2 ^ 8) with 256 in *. rewrite Z_mod_plus_full.
          apply Z.mod_divide in Ho as [h ->]; [|lia]. rewrite Z.mul_assoc. by apply Z.mod_mul. }
        rewrite <- Ef1 in E. exists st'. split; [exact E|]. apply step2_child; [done..|].
        eapply improved3_ext; [|exact H3]. exact Hall.
  - destruct Hi as [Hf Hw' Hv]. split; [done|done|]. intros i r Hi Hr. rewrite Hv, Hcov by done.
    by rewrite andb_true_r.
Qed.

Lemma ply_create_ok leaf bits base s : 0 <= ip4_ply_pool_index s < capacity -> capacity < 2 ^ 31 ->
  ply_create capacity leaf bits base s =
    Some (2 * ip4_ply_pool_index s,
          Pool (<[ip4_ply_pool_index s := ply_8_init leaf bits base (ip4_ply_pool s (ip4_ply_pool_index s))]>
                  (ip4_ply_pool s)) (ip4_ply_pool_index s + 1)).
Proof.
  intros Hi Hc. unfold ply_create, mtrie_vector_get.
  rewrite (proj2 (Z.ltb_lt _ _)) by lia. rewrite next_ply_ok by lia. by rewrite u32_id by lia.
Qed.

(** The state with a new ply [q] below slot [i] of ply [n]. *)
Lemma child_created own s s' n i B :
  let q := ip4_ply_pool_index s in
  let p := ip4_ply_pool s n in
  wf2 own s B n -> n < q -> B + 512 < 2 ^ 31 -> 0 <= i < 256 -> 0 <= q < 2 ^ 31 ->
  terminal (leaves p i) = true ->
  ip4_ply_pool s' n = replace_slot i (2 * q) 24 p ->
  ip4_ply_pool s' q = ply_8_init (leaves p i) (dst_address_bits_of_leaves p i) 24 (ip4_ply_pool s q) ->
  (forall r, r <> n -> r <> q -> ip4_ply_pool s' r = ip4_ply_pool s r) ->
  ip4_ply_pool_index s' = q + 1 ->
  wf2 (<[q := OfPly n i]> own) s' (B + 1) n /\ Z.shiftr (leaves (ip4_ply_pool s' n) i) 1 = q /\
  terminal (leaves (ip4_ply_pool s' n) i) = false /\
  forall j b, 0 <= j < 256 -> 0 <= b < 256 -> view2 s' n j b = view2 s n j b.
Proof.
  intros q p [Hbase Hct Hown Hs] Hn HB Hi Hq Ht En Eq Eo Ei.
  pose proof (Hs i Hi) as Hsi. unfold slot2 in Hsi. cbn zeta in Hsi. fold p in Hsi. rewrite Ht in Hsi.
  pose proof (counted_pos B p Hct) as Hpos.
  pose proof (replace_slot_set B p i (2 * q) 24 Hi Hct ltac:(lia) ltac:(lia)) as Hset.
  rewrite <- En in Hset. destruct Hset as [[= Eb El] So Sb Sc].
  assert (Z.shiftr (leaves (ip4_ply_pool s' n) i) 1 = q) as Esh by (rewrite El; apply next_ply_index).
  assert (terminal (leaves (ip4_ply_pool s' n) i) = false) as Htf by (rewrite El; apply terminal_double).
  assert (forall j, 0 <= j < 256 -> slot2 (<[q := OfPly n i]> own) s' (B + 1) n j /\
    forall b, 0 <= b < 256 -> view2 s' n j b = view2 s n j b) as Hj.
  { intros j Hj. destruct (decide (j = i)) as [->|Hne].
    - split.
      + unfold slot2. cbn zeta. rewrite Htf, Esh, Eb, Ei, Eq, fn_lookup_insert.
        split; [done|]. split; [lia|]. split; [done|]. apply ply_8_init_wf; [lia|done|lia].
      + intros b Hb. unfold view2. cbn zeta. fold p. rewrite Htf, Esh, Ht, Eq.
        by rewrite ply_8_init_entry by lia.
    - pose proof (Hs j Hj) as Hsj. pose proof (So j Hne) as Ee. injection Ee as Eb' El'.
      unfold slot2, view2 in *. cbn zeta in *. fold p in Hsj |- *. rewrite Eb', El'.
      destruct (terminal (leaves p j)); [by split; [|intros; apply So]|].
      destruct Hsj as (H1 & H2 & H3 & [W1 W2 W3]). fold q in H2.
      rewrite Ei, fn_lookup_insert_ne by lia. rewrite Eo by (congruence || lia).
      split; [|done]. split; [done|]. split; [lia|]. split; [done|].
      split; [done|destruct W2; split; lia|done]. }
  split; [|split; [done|split; [done|by intros; apply Hj]]].
  split; [by rewrite Sb|by apply Sc| |intros j Hjr; by apply Hj].
  intros j. rewrite fn_lookup_insert_ne by lia. apply Hown.
Qed.

(** The slot of the middle level that a long route is below. *)
Lemma long_route o : 24 < len -> meets 8 o ->
  let i := A / 2 ^ 8 mod 2 ^ 8 in
  meets 0 (o + 2 ^ 8 * i) /\
  forall j b, 0 <= j < 256 -> 0 <= b < 256 ->
    bool_decide (j = i) && covers (o + 2 ^ 8 * i + b) = covers (o + 2 ^ 8 * j + b).
Proof.
  intros Hl (Ho & H1 & _) i. specialize (H1 ltac:(lia)). change (2 ^ 8) with 256 in *.
  assert (0 <= i < 256) as Hi by (apply Z.mod_pos_bound; lia).
  assert (A / (256 * 256) = A / 256 / 256) as E by (rewrite Z.div_div; lia).
  pose proof (Z.div_mod (A / 256) 256 ltac:(lia)) as E1. fold i in E1.
  pose proof (Z.div_mod A 256 ltac:(lia)) as E2. pose proof (Z.mod_pos_bound A 256 ltac:(lia)) as E3.
  assert (o + 256 * i = 256 * (A / 256)) as Eo by lia.
  assert (W <= 128) as HW.
  { unfold W. change 128 with (2 ^ 7). apply Z.pow_le_mono_r; lia. }
  assert ((A mod 256) + W <= 256) as Hfit.
  { destruct (aligned_slots A (32 - len) 0 8 (256 * (A / 256))) as (_ & Hf & _); [lia|lia|done| | |lia|].
    - change (2 ^ 0 * 2 ^ 8) with 256. rewrite Z.mul_comm. by apply Z.mod_mul.
    - done.
    - rewrite Z.min_r in Hf by lia. change (2 ^ 0) with 1 in Hf. rewrite Z.div_1_r, Z.sub_0_r in Hf.
      exact Hf. }
  split.
  - split; [|split; [|lia]]; change (2 ^ 0 * 2 ^ 8) with 256; rewrite Eo; [|done].
    rewrite Z.mul_comm. by apply Z.mod_mul.
  - intros j b Hj Hb. case_bool_decide as Ej; cbn [andb]; [by subst j|].
    symmetry. apply bool_decide_eq_false. lia.
Qed.

Lemma set_leaf2_narrow own f n s B o : wf2 own s B n -> B + 1024 < 2 ^ 31 -> 24 < len -> meets 8 o ->
  n < ip4_ply_pool_index s -> 0 <= ip4_ply_pool_index s < capacity -> capacity < 2 ^ 31 ->
  exists s' own', set_leaf capacity (S (S f)) a n 2 s = Some s' /\
    added2 own own' s s' n B (fun i b => covers (o + 2 ^ 8 * i + b)).
Proof.
  intros Hw HB Hl Ho Hn Hq Hcap. destruct (long_route o Hl Ho) as [Hm Hc].
  remember (S f) as f1 eqn:Ef1. cbn [set_leaf]. rewrite Ha. change (2 <? 32 / 8) with true.
  rewrite (proj2 (Z.leb_le len 32)) by lia. cbn [andb]. rewrite i32_u32 by lia.
  rewrite (proj2 (Z.leb_gt _ 0)) by lia. change 255 with (2 ^ 8 - 1). rewrite shift_byte by lia.
  change (24 - 8 * 2) with 8. change (u8 (8 * (2 + 1))) with 24. change (2 + 1) with 3. fold A.
  set (i := A / 2 ^ 8 mod 2 ^ 8) in *. set (p := ip4_ply_pool s n).
  assert (0 <= i < 256) as Hi by (apply Z.mod_pos_bound; lia).
  destruct (terminal (leaves p i)) eqn:Ht.
  - set (s1 := on_ply n _ s).
    rewrite ply_create_ok by (cbn; lia). cbn [ip4_ply_pool_index s1 on_ply]. set (q := ip4_ply_pool_index s) in *.
    set (s3 := on_ply n _ _).
    assert (ip4_ply_pool s3 n = replace_slot i (2 * q) 24 p) as En.
    { unfold s3. cbn [ip4_ply_pool on_ply]. rewrite fn_lookup_insert, fn_lookup_insert_ne by lia.
      unfold s1. cbn [ip4_ply_pool on_ply]. by rewrite fn_lookup_insert. }
    assert (ip4_ply_pool s3 q = ply_8_init (leaves p i) (dst_address_bits_of_leaves p i) 24
      (ip4_ply_pool s q)) as Eq.
    { unfold s3. cbn [ip4_ply_pool on_ply]. rewrite fn_lookup_insert_ne, fn_lookup_insert by lia.
      unfold s1. cbn [ip4_ply_pool on_ply]. by rewrite fn_lookup_insert_ne by lia. }
    assert (forall r, r <> n -> r <> q -> ip4_ply_pool s3 r = ip4_ply_pool s r) as Eo.
    { intros r Hr1 Hr2. unfold s3, s1. cbn [ip4_ply_pool on_ply]. by rewrite !fn_lookup_insert_ne by done. }
    assert (ip4_ply_pool_index s3 = q + 1) as Ei by done.
    destruct (child_created own s s3 n i B Hw Hn ltac:(lia) Hi ltac:(lia) Ht En Eq Eo Ei)
      as (Hw3 & Esh & Htf & Hv). clearbody s1 s3. fold q in Hw3, Esh.
    pose proof (counted_pos _ _ (wf2_count _ _ _ _ Hw3)) as Hpos.
    rewrite (proj2 (Z.leb_le 0 _)) by lia. rewrite next_ply_index, Ef1.
    pose proof (wf2_slot _ _ _ _ Hw3 i Hi) as Hs3. pose proof Hs3 as Hs3'.
    unfold slot2 in Hs3'. cbn zeta in Hs3'. rewrite Htf, Esh in Hs3'.
    destruct Hs3' as (_ & Hidx & _ & Hwq).
    destruct (set_leaf3 f q s3 (B + 1) (o + 2 ^ 8 * i) Hwq ltac:(lia) Hm) as (s4 & E & H3).
    exists s4, (<[q := OfPly n i]> own). split; [exact E|].
    rewrite <- Esh in H3 at 1. apply (step2_child (<[q := OfPly n i]> own)) in H3;
      [|done|done|by apply (wf2_own _ _ _ _ Hw3)].
    apply (step2_improved _ _ _ _ _ _ (B + 1)) in H3 as [[Hi4 Hf4] Hw4 Hv4]; [|done].
    split; fold q; rewrite ?Hi4, ?Ei.
    + lia.
    + intros r Hr. by rewrite fn_lookup_insert_ne by lia.
    + intros r Hr. exists i. replace r with q by lia. by rewrite fn_lookup_insert.
    + intros r Hr Hrn Ho4. rewrite Hf4; [by rewrite Eo by (done || lia)|].
      intros [?|[j Hj]]; [done|]. rewrite fn_lookup_insert_ne in Hj by lia. by eapply Ho4.
    + eapply wf2_mono; [|exact Hw4]. lia.
    + intros j b Hj Hb. rewrite Hv4, Hv, Hc by done. done.
  - pose proof (wf2_slot _ _ _ _ Hw i Hi) as Hsi. pose proof Hsi as Hs'. unfold slot2 in Hs'. cbn zeta in Hs'.
    fold p in Hs'. rewrite Ht in Hs'. destruct Hs' as (_ & _ & _ & Hwq). rewrite Ef1.
    destruct (set_leaf3 f _ s B (o + 2 ^ 8 * i) Hwq ltac:(lia) Hm) as (s4 & E & H3).
    exists s4, own. split; [exact E|]. apply (step2_child own) in H3; [|done|done|by apply (wf2_own _ _ _ _ Hw)].
    apply step2_improved, improved2_added in H3; [|done]. eapply added2_ext; [|exact H3]. exact Hc.
Qed.

Lemma set_leaf2 own f n s B o : wf2 own s B n -> B + 1024 < 2 ^ 31 -> meets 8 o ->
  n < ip4_ply_pool_index s -> 0 <= ip4_ply_pool_index s < capacity -> capacity < 2 ^ 31 ->
  exists s' own', set_leaf capacity (S (S f)) a n 2 s = Some s' /\
    added2 own own' s s' n B (fun i b => covers (o + 2 ^ 8 * i + b)).
Proof.
  intros Hw HB Ho Hn Hq Hcap. destruct (Z.le_gt_cases len 24) as [Hl|Hl].
  - destruct (set_leaf2_wide own f n s B o Hw ltac:(lia) Hl Ho) as (s' & E & Hi).
    exists s', own. split; [exact E|]. by apply improved2_added.
  - by apply (set_leaf2_narrow own f n s B o).
Qed.

(** *** The root *)

(** What a call does to one leaf of the root, the plies below it included. *)
Record step1 (own own' : Z -> owner) (fib : Z) m m' s s' (h B : Z) (c : Z -> Z -> bool) : Prop := {
  s1_index : ip4_ply_pool_index s <= ip4_ply_pool_index s' <= ip4_ply_pool_index s + 2;
  s1_own q : q < ip4_ply_pool_index s -> own' q = own q;
  s1_frame q : q < ip4_ply_pool_index s -> ~ below own fib h q -> ip4_ply_pool s' q = ip4_ply_pool s q;
  s1_other j : j <> h -> root_entry m' j = root_entry m j;
  s1_slot : slot1 own' fib m' s' (B + 512) h;
  s1_view i b : 0 <= i < 256 -> 0 <= b < 256 ->
    view1 m' s' h i b = improve_if (c i b) (view1 m s h i b)
}.

Lemma step1_terminal own fib m s h B leaf bits :
  0 <= bits <= 16 -> (bits, leaf) = improve (root_entry m h) -> terminal leaf = true ->
  terminal (leaves16 m h) = true ->
  step1 own own fib m (set_root_slot h leaf bits m) s s h B (fun _ _ => true).
Proof.
  intros Hb Hi Ht Hm. split; [lia|done|done| | |].
  - intros j Hj. unfold root_entry, set_root_slot. cbn. by rewrite !fn_lookup_insert_ne by done.
  - unfold slot1. cbn zeta. cbn [set_root_slot leaves16 dst_address_bits_of_leaves16].
    rewrite !fn_lookup_insert, Ht. by rewrite u8_len by lia.
  - intros i b _ _. unfold view1, root_entry. cbn [set_root_slot leaves16 dst_address_bits_of_leaves16].
    rewrite !fn_lookup_insert, Ht, Hm, u8_len by lia. by rewrite Hi.
Qed.

Lemma step1_same own fib m s h B :
  improve (root_entry m h) = root_entry m h -> terminal (leaves16 m h) = true ->
  0 <= dst_address_bits_of_leaves16 m h <= 16 ->
  step1 own own fib m m s s h B (fun _ _ => true).
Proof.
  intros Hi Hm Hb. split; [lia|done..| |].
  - unfold slot1. by rewrite Hm.
  - intros i b _ _. unfold view1. rewrite Hm. unfold improve_if. by rewrite Hi.
Qed.

Lemma step1_child own own' fib m s s' h B c :
  terminal (leaves16 m h) = false -> slot1 own fib m s B h ->
  added2 own own' s s' (Z.shiftr (leaves16 m h) 1) B c ->
  step1 own own' fib m m s s' h B c.
Proof.
  intros Hm Hs [H1 H2 H3 H4 H5 H6]. unfold slot1 in Hs. cbn zeta in Hs. rewrite Hm in Hs.
  destruct Hs as (Hb & Hq & Ho & Hw). set (q := Z.shiftr (leaves16 m h) 1) in *.
  split; [lia|done| |done| |].
  - intros r Hr Hnb. apply H4; [done| |].
    + intros ->. apply Hnb. by left.
    + intros i Hi. apply Hnb. right. eauto.
  - unfold slot1. cbn zeta. rewrite Hm. fold q. split; [done|]. split; [lia|]. split; [|done].
    by rewrite H2 by lia.
  - intros i b Hi Hbr. unfold view1. rewrite Hm. fold q. by apply H6.
Qed.

(** What adding the route does to table [fib]. *)
Record added1 (own own' : Z -> owner) (fib : Z) m m' s s' (B : Z) : Prop := {
  a1_index : ip4_ply_pool_index s <= ip4_ply_pool_index s' <= ip4_ply_pool_index s + 2;
  a1_own q : q < ip4_ply_pool_index s -> own' q = own q;
  a1_parents : parents_ok own s -> parents_ok own' s';
  a1_frame q : q < ip4_ply_pool_index s -> (forall h, ~ below own fib h q) ->
    ip4_ply_pool s' q = ip4_ply_pool s q;
  a1_wf h : 0 <= h < 2 ^ 16 -> slot1 own' fib m' s' (B + 512) h;
  a1_view h i b : 0 <= h < 2 ^ 16 -> 0 <= i < 256 -> 0 <= b < 256 ->
    view1 m' s' h i b = improve_if (covers (2 ^ 16 * h + 2 ^ 8 * i + b)) (view1 m s h i b)
}.

(** The leaves that a step does not write. *)
Lemma step1_frame own own' fib m m' s s' h j B B' c :
  step1 own own' fib m m' s s' h B c -> j <> h -> slot1 own fib m s B' j ->
  slot1 own' fib m' s' B' j /\ forall i b, 0 <= i < 256 -> view1 m' s' j i b = view1 m s j i b.
Proof.
  intros [H1 H2 H3 H4 _ _] Hj. apply slot1_frame; [done|lia|by apply H4|].
  intros q Hq Hb. apply H3; [done|]. intros Hb'. apply Hj. by eapply below_inj.
Qed.

Lemma step1_added own own' fib m m' s s' h B c :
  step1 own own' fib m m' s s' h B c -> (forall j, 0 <= j < 2 ^ 16 -> slot1 own fib m s B j) ->
  0 <= h < 2 ^ 16 ->
  (forall j i b, 0 <= j < 2 ^ 16 -> 0 <= i < 256 -> 0 <= b < 256 ->
     bool_decide (j = h) && c i b = covers (2 ^ 16 * j + 2 ^ 8 * i + b)) ->
  (parents_ok own s -> parents_ok own' s') -> added1 own own' fib m m' s s' B.
Proof.
  intros Hs Hw Hh Hc Hpar. pose proof Hs as [H1 H2 H3 H4 H5 H6]. split; [done|done|done| | |].
  - intros q Hq Hb. by apply H3.
  - intros j Hj. destruct (decide (j = h)) as [->|Hne]; [done|].
    eapply slot1_mono; [|by apply (step1_frame _ _ _ _ _ _ _ _ j _ B _ Hs Hne), Hw]. lia.
  - intros j i b Hj Hi Hb. rewrite <- Hc by done. case_bool_decide as E; cbn [andb]; [subst j; by apply H6|].
    destruct (step1_frame _ _ _ _ _ _ _ _ j _ B _ Hs E (Hw j Hj)) as [_ ->]; done.
Qed.

(** A loop over leaves of the root. *)
Lemma root_loop own fib body m s B lo n :
  0 <= lo -> lo + Z.of_nat n <= 2 ^ 16 ->
  (forall i m s, 0 <= i < Z.of_nat n -> slot1 own fib m s B (lo + i) ->
     exists m' s', body i (m, s) = Some (m', s') /\ ip4_ply_pool_index s' = ip4_ply_pool_index s /\
       step1 own own fib m m' s s' (lo + i) B (fun _ _ => true)) ->
  (forall h, 0 <= h < 2 ^ 16 -> slot1 own fib m s B h) ->
  (forall h i b, 0 <= h < 2 ^ 16 -> 0 <= i < 256 -> 0 <= b < 256 ->
     covers (2 ^ 16 * h + 2 ^ 8 * i + b) = bool_decide (lo <= h < lo + Z.of_nat n)) ->
  exists m' s', loop_opt 0 n body (m, s) = Some (m', s') /\ added1 own own fib m m' s s' B /\
    ip4_ply_pool_index s' = ip4_ply_pool_index s.
Proof.
  intros Hlo Hn Hb Hw Hc.
  destruct (loop_opt_rule
    (fun _ st => ip4_ply_pool_index st.2 = ip4_ply_pool_index s /\
       forall q, q < ip4_ply_pool_index s -> (forall h, ~ below own fib h q) ->
       ip4_ply_pool st.2 q = ip4_ply_pool s q)
    (fun j st => 0 <= lo + j < 2 ^ 16 -> slot1 own fib st.1 st.2 B (lo + j) /\
       forall i b, 0 <= i < 256 -> view1 st.1 st.2 (lo + j) i b = view1 m s (lo + j) i b)
    (fun j st => 0 <= lo + j < 2 ^ 16 -> slot1 own fib st.1 st.2 (B + 512) (lo + j) /\
       forall i b, 0 <= i < 256 -> 0 <= b < 256 ->
       view1 st.1 st.2 (lo + j) i b = improve (view1 m s (lo + j) i b))
    body n 0 (m, s)) as ([m' s'] & E & [Hi Hf] & H5 & H6).
  - intros k [m1 s1] Hk [Ii If] Ie. destruct (Ie ltac:(lia)) as [Is Iv]. cbn in Ii, If, Is, Iv.
    destruct (Hb k m1 s1 ltac:(lia) Is) as (m2 & s2 & -> & Ei & Hs).
    pose proof Hs as [H1 _ H3 _ H5 H6]. exists (m2, s2). cbn.
    split; [done|]. split; [|split].
    + split; [congruence|]. intros q Hq Hbq. rewrite H3; [by apply If|lia|apply Hbq].
    + intros Hr. split; [done|]. intros i b Hir Hbr. rewrite H6, Iv by done. done.
    + intros j Hj. split; intros Hp Hr; destruct (Hp Hr) as [Hs1 Hv1];
        destruct (step1_frame _ _ _ _ _ _ _ _ (lo + j) _ _ _ Hs ltac:(lia) Hs1) as [Hs2 Hv2];
        (split; [done|]); intros i b Hir; [by rewrite Hv2, Hv1|]. intros Hbr. by rewrite Hv2, Hv1.
  - by split.
  - intros j Hj Hr. by split; [apply Hw|].
  - exists m', s'. split; [done|]. cbn in Hi, Hf, H5, H6.
    assert (forall h, 0 <= h < 2 ^ 16 -> slot1 own fib m' s' (B + 512) h /\
      forall i b, 0 <= i < 256 -> 0 <= b < 256 ->
      view1 m' s' h i b = improve_if (bool_decide (lo <= h < lo + Z.of_nat n)) (view1 m s h i b)) as Hall.
    { intros h Hh. replace h with (lo + (h - lo)) by lia. case_bool_decide as Er; [by apply H5; lia|].
      destruct (H6 (h - lo) ltac:(lia)) as [Hp _]. destruct Hp as [Hs1 Hv1]; [|lia|].
      - intros _. by split; [apply Hw; lia|].
      - split; [by eapply slot1_mono; [|done]; lia|]. intros i b Hir _. by apply Hv1. }
    split; [|done]. split; [lia|done|unfold parents_ok; by rewrite Hi|done|by intros; apply Hall|].
    intros h i b Hh Hir Hbr. rewrite Hc by done. by apply Hall.
Qed.

Lemma root_wide own fib f m s B :
  (forall h, 0 <= h < 2 ^ 16 -> slot1 own fib m s B h) -> B + 512 < 2 ^ 31 -> len <= 16 ->
  exists m' s', set_root_leaf capacity (S (S f)) a (m, s) = Some (m', s') /\
    added1 own own fib m m' s s' B /\ ip4_ply_pool_index s' = ip4_ply_pool_index s.
Proof.
  intros Hw HB Hl.
  destruct (aligned_slots A (32 - len) 16 16 0) as (Hb & Hbc & Hcov); [lia|lia|done|done| | |].
  { intros _. by rewrite Z.div_small by (change (2 ^ 16 * 2 ^ 16) with (2 ^ 32); lia). }
  { intros Hge. assert (W = 2 ^ 32) as EW by (unfold W; f_equal; lia). fold W. split; [|lia].
    rewrite EW in Hmask. rewrite Z.mod_small in Hmask; lia. }
  remember (S f) as f1 eqn:Ef1. unfold set_root_leaf. rewrite Ha, Hadj.
  rewrite (proj2 (Z.leb_le len 32)) by lia. rewrite i32_u32 by lia.
  rewrite (proj2 (Z.leb_le _ 0)) by lia. change 65535 with (2 ^ 16 - 1). rewrite shift_byte by lia. fold A.
  rewrite u32_id by lia. rewrite Z.shiftl_1_l.
  replace (Z.min 16 (32 - len - 16)) with (16 - len) in Hbc, Hcov by lia.
  set (b := A / 2 ^ 16 mod 2 ^ 16) in *. set (c := 2 ^ (16 - len)) in *.
  assert (0 < c) as Hc by (unfold c; lia).
  apply (root_loop own fib _ m s B b); [lia|lia| |done|].
  - intros i m1 s1 Hi Hs. rewrite u16_id by lia. pose proof Hs as Hs0. unfold slot1 in Hs0. cbn zeta in Hs0.
    destruct (terminal (leaves16 m1 (b + i))) eqn:Ht; cbn [negb].
    + destruct (len >=? dst_address_bits_of_leaves16 m1 (b + i)) eqn:El.
      * eexists _, s1. split; [done|]. split; [done|]. apply step1_terminal; [lia| |done|done].
        unfold improve. cbn [root_entry fst]. by rewrite El.
      * eexists m1, s1. split; [done|]. split; [done|]. apply step1_same; [|done|done].
        unfold improve. cbn [root_entry fst]. by rewrite El.
    + destruct Hs0 as (Eb & Hq & _ & Hw2). rewrite Eb. unfold ip4_fib_mtrie_leaf_get_next_ply_index.
      destruct (Z.geb_spec len 16) as [Hl16|Hl16].
      * destruct (set_ply2 own f (Z.shiftr (leaves16 m1 (b + i)) 1) s1 B Hw2 ltac:(lia) ltac:(lia))
          as (s2 & E & H2). rewrite <- Ef1 in E. exists m1, s2. rewrite E. split; [done|].
        split; [apply H2|]. by apply step1_child, improved2_added.
      * pose proof (fun x Hx => proj2 (Hcov (b + i) x ltac:(lia) Hx)) as Hall.
        destruct (set_leaf2_wide own f (Z.shiftr (leaves16 m1 (b + i)) 1) s1 B (2 ^ 16 * (b + i)) Hw2
          ltac:(lia) ltac:(lia)) as (s2 & E & H2).
        { split; [|split; [lia|]].
          - change (2 ^ 8 * 2 ^ 8) with (2 ^ 16). rewrite Z.mul_comm. by apply Z.mod_mul.
          - intros _. specialize (Hall 0 ltac:(lia) ltac:(lia)). unfold W. lia. }
        rewrite <- Ef1 in E. exists m1, s2. rewrite E. split; [done|]. split; [apply H2|].
        apply step1_child; [done|done|]. apply improved2_added in H2. eapply added2_ext; [|exact H2].
        intros x y Hx Hy. apply bool_decide_eq_true.
        specialize (Hall (2 ^ 8 * x + y) ltac:(lia) ltac:(lia)). unfold W. lia.
  - intros h i r Hh Hi Hr. apply bool_decide_ext. unfold W. rewrite Z2Nat.id by lia.
    rewrite <- (Hcov h (2 ^ 8 * i + r)) by lia. rewrite Z.add_0_l, Z.add_assoc. done.
Qed.

(** A long route goes below one leaf of the root. *)
Lemma root_long : 16 < len ->
  let h := A / 2 ^ 16 mod 2 ^ 16 in
  0 <= h < 2 ^ 16 /\ meets 8 (2 ^ 16 * h) /\
  forall j i b, 0 <= j < 2 ^ 16 -> 0 <= i < 256 -> 0 <= b < 256 ->
    bool_decide (j = h) && covers (2 ^ 16 * h + 2 ^ 8 * i + b) = covers (2 ^ 16 * j + 2 ^ 8 * i + b).
Proof.
  intros Hl h. assert (0 <= h < 2 ^ 16) as Hh by (apply Z.mod_pos_bound; lia).
  assert (h = A / 2 ^ 16) as Eh.
  { unfold h. apply Z.mod_small. split; [apply Z.div_pos; lia|].
    apply Z.div_lt_upper_bound; lia. }
  pose proof (Z.div_mod A (2 ^ 16) ltac:(lia)) as E. rewrite <- Eh in E.
  pose proof (Z.mod_pos_bound A (2 ^ 16) ltac:(lia)).
  assert (A mod 2 ^ 16 + W <= 2 ^ 16) as Hfit.
  { destruct (aligned_slots A (32 - len) 0 16 (2 ^ 16 * h)) as (_ & Hf & _); [lia|lia|done| | |lia|].
    - change (2 ^ 0 * 2 ^ 16) with (2 ^ 16). rewrite Z.mul_comm. by apply Z.mod_mul.
    - intros _. change (2 ^ 0 * 2 ^ 16) with (2 ^ 16). by rewrite Eh.
    - rewrite Z.min_r in Hf by lia. change (2 ^ 0) with 1 in Hf. rewrite Z.div_1_r, Z.sub_0_r in Hf.
      exact Hf. }
  split; [done|]. split.
  - split; [|split; [|lia]]; change (2 ^ 8 * 2 ^ 8) with (2 ^ 16); [|by rewrite Eh].
    rewrite Z.mul_comm. by apply Z.mod_mul.
  - intros j i b Hj Hi Hb. case_bool_decide as Ej; cbn [andb]; [by subst j|].
    symmetry. apply bool_decide_eq_false. lia.
Qed.

(** The state with a new ply [q] below leaf [h] of the root. *)
Lemma root_created own fib m s h B :
  let q := ip4_ply_pool_index s in
  let m' := set_root_slot h (2 * q) 16 m in
  let p := ply_8_init (leaves16 m h) (dst_address_bits_of_leaves16 m h) 16 (ip4_ply_pool s q) in
  let s' := Pool (<[q := p]> (ip4_ply_pool s)) (q + 1) in
  (forall j, 0 <= j < 2 ^ 16 -> slot1 own fib m s B j) -> 0 <= B -> 0 <= q -> 0 <= h < 2 ^ 16 ->
  terminal (leaves16 m h) = true ->
  step1 own (<[q := OfRoot fib h]> own) fib m m' s s' h B (fun _ _ => false) /\
  wf2 (<[q := OfRoot fib h]> own) s' B q /\ terminal (leaves16 m' h) = false /\
  Z.shiftr (leaves16 m' h) 1 = q.
Proof.
  intros q m' p s' Hw HB Hq Hh Ht. pose proof (Hw h Hh) as Hs. unfold slot1 in Hs. cbn zeta in Hs.
  rewrite Ht in Hs.
  assert (forall i, 0 <= i < 256 -> entry p i = root_entry m h) as Hp.
  { intros i Hi. unfold p. by rewrite ply_8_init_entry by lia. }
  assert (forall i, 0 <= i < 256 -> dst_address_bits_of_leaves p i = dst_address_bits_of_leaves16 m h) as Hp1
    by (intros i Hi; by apply (f_equal fst (Hp i Hi))).
  assert (forall i, 0 <= i < 256 -> leaves p i = leaves16 m h) as Hp2
    by (intros i Hi; by apply (f_equal snd (Hp i Hi))).
  assert (ip4_ply_pool s' q = p) as Ep by (cbn; by rewrite fn_lookup_insert).
  assert (leaves16 m' h = 2 * q) as El by (cbn; by rewrite fn_lookup_insert).
  assert (dst_address_bits_of_leaves16 m' h = 16) as Eb by (cbn; by rewrite fn_lookup_insert).
  assert (wf2 (<[q := OfRoot fib h]> own) s' B q) as Hw2.
  { split; rewrite ?Ep; [done|apply ply_8_init_counted; lia| |].
    - intros i. by rewrite fn_lookup_insert.
    - intros i Hi. unfold slot2. cbn zeta. rewrite Ep, Hp1, Hp2, Ht by done. lia. }
  assert (Z.shiftr (leaves16 m' h) 1 = q) as Esh by (rewrite El; apply next_ply_index).
  assert (terminal (leaves16 m' h) = false) as Htf by (rewrite El; apply terminal_double).
  split; [|done]. split.
  - fold q. cbn. lia.
  - fold q. intros r Hr. by rewrite fn_lookup_insert_ne by lia.
  - fold q. intros r Hr _. cbn. by rewrite fn_lookup_insert_ne by lia.
  - intros j Hj. unfold root_entry. cbn. by rewrite !fn_lookup_insert_ne by done.
  - unfold slot1. cbn zeta. rewrite Htf, Esh. split; [done|]. cbn [ip4_ply_pool_index s'].
    split; [lia|]. rewrite fn_lookup_insert. split; [done|]. eapply wf2_mono; [|done]. lia.
  - intros i b Hi Hb. unfold view1. rewrite Htf, Esh, Ht. unfold view2. cbn zeta. rewrite Ep.
    rewrite Hp2, Ht by done. by apply Hp.
Qed.

Lemma step1_trans own own' own'' fib m m' m'' s s' s'' h B B' c :
  step1 own own' fib m m' s s' h B (fun _ _ => false) ->
  step1 own' own'' fib m' m'' s' s'' h B' c ->
  B' <= B -> ip4_ply_pool_index s'' <= ip4_ply_pool_index s + 2 -> 
  (forall q, q < ip4_ply_pool_index s -> below own' fib h q -> below own fib h q) ->
  step1 own own'' fib m m'' s s'' h B c.
Proof.
  intros [H1 H2 H3 H4 H5 H6] [G1 G2 G3 G4 G5 G6] HB Hidx Hbel. split; [lia| | | | |].
  - intros q Hq. rewrite G2, H2 by lia. done.
  - intros q Hq Hb. rewrite G3, H3; [done|done|done|lia|]. intros Hb'. by apply Hb, Hbel.
  - intros j Hj. by rewrite G4, H4.
  - eapply slot1_mono; [|exact G5]. lia.
  - intros i b Hi Hb. by rewrite G6, H6.
Qed.

Lemma root_narrow own fib f m s B :
  (forall h, 0 <= h < 2 ^ 16 -> slot1 own fib m s B h) -> 0 <= B -> B + 1024 < 2 ^ 31 -> 16 < len ->
  0 <= ip4_ply_pool_index s -> ip4_ply_pool_index s + 2 <= capacity -> capacity < 2 ^ 31 ->
  parents_ok own s ->
  exists m' s' own', set_root_leaf capacity (S (S f)) a (m, s) = Some (m', s') /\
    added1 own own' fib m m' s s' B.
Proof.
  intros Hw HB0 HB Hl Hq0 Hq Hcap Hpar. destruct (root_long Hl) as (Hh & Hm & Hc).
  unfold set_root_leaf. rewrite Ha.
  rewrite (proj2 (Z.leb_le len 32)) by lia. rewrite i32_u32 by lia.
  rewrite (proj2 (Z.leb_gt _ 0)) by lia. change 65535 with (2 ^ 16 - 1). rewrite shift_byte by lia. fold A.
  set (h := A / 2 ^ 16 mod 2 ^ 16) in *. destruct (terminal (leaves16 m h)) eqn:Ht.
  - rewrite ply_create_ok by lia.
    destruct (root_created own fib m s h B Hw HB0 Hq0 Hh Ht) as (Hs1 & Hw2 & Htf & Esh).
    set (q := ip4_ply_pool_index s) in *. set (m' := set_root_slot h (2 * q) 16 m) in *.
    set (s1 := Pool _ (q + 1)) in *. rewrite next_ply_index.
    destruct (set_leaf2 _ f q s1 B (2 ^ 16 * h) Hw2 HB Hm) as (s2 & own2 & -> & Ha2); [cbn; lia|cbn; lia|lia|].
    exists m', s2, own2. split; [done|]. pose proof Ha2 as [Hidx Hown Hnew2 _ _ _].
    cbn [ip4_ply_pool_index s1] in Hidx, Hown, Hnew2. rewrite <- Esh in Ha2 at 1 2.
    apply (step1_child _ _ fib m') in Ha2; [|done|].
    2: { unfold slot1. cbn zeta. rewrite Htf, Esh, fn_lookup_insert. cbn [ip4_ply_pool_index s1].
      split; [|split; [lia|done]]. cbn. by rewrite fn_lookup_insert. }
    apply (step1_added _ _ _ _ _ _ _ h _ (fun i b => covers (2 ^ 16 * h + 2 ^ 8 * i + b)));
      [|done|done|done|].
    + rewrite Esh in Ha2. eapply step1_trans; [exact Hs1|exact Ha2|done|fold q; lia|]. fold q.
      intros r Hr [Hb|(r' & i & Hb & Hb')]; rewrite fn_lookup_insert_ne in Hb by lia; [by left|].
      pose proof (Hpar r r' i Hr Hb). fold q in H. rewrite fn_lookup_insert_ne in Hb' by lia. right. eauto.
    + intros _ r r' i Hr Hor. destruct (Z.lt_ge_cases r (q + 1)) as [Hrq|Hrq].
      * rewrite Hown in Hor by done. destruct (decide (r = q)) as [->|Hne].
        { by rewrite fn_lookup_insert in Hor. }
        rewrite fn_lookup_insert_ne in Hor by done. pose proof (Hpar r r' i ltac:(fold q; lia) Hor).
        fold q in H. lia.
      * destruct (Hnew2 r ltac:(lia)) as [j Hj]. rewrite Hor in Hj. injection Hj as -> _. lia.
  - pose proof (Hw h Hh) as Hs. pose proof Hs as Hs'. unfold slot1 in Hs'. cbn zeta in Hs'.
    rewrite Ht in Hs'. destruct Hs' as (_ & Hn & _ & Hw2). unfold ip4_fib_mtrie_leaf_get_next_ply_index.
    destruct (set_leaf2 _ f _ s B (2 ^ 16 * h) Hw2 HB Hm) as (s2 & own2 & -> & Ha2); [lia|lia|lia|].
    exists m, s2, own2. split; [done|]. pose proof Ha2 as [Hidx Hown Hnew2 _ _ _].
    apply (step1_child _ _ fib m) in Ha2; [|done|done].
    apply (step1_added _ _ _ _ _ _ _ h _ (fun i b => covers (2 ^ 16 * h + 2 ^ 8 * i + b))); [done..|].
    intros _ r r' i Hr Hor. destruct (Z.lt_ge_cases r (ip4_ply_pool_index s)) as [Hrq|Hrq].
    + rewrite Hown in Hor by done. pose proof (Hpar r r' i Hrq Hor). lia.
    + destruct (Hnew2 r ltac:(lia)) as [j Hj]. rewrite Hor in Hj. injection Hj as -> _. lia.
Qed.

(** Routes that need plies of their own. *)
Definition plies (len : Z) : Z := if 16 <? len then 2 else 0.

Lemma set_root_leaf_spec own fib f m s B :
  (forall h, 0 <= h < 2 ^ 16 -> slot1 own fib m s B h) -> 0 <= B -> B + 1024 < 2 ^ 31 ->
  0 <= ip4_ply_pool_index s -> ip4_ply_pool_index s + plies len <= capacity -> capacity < 2 ^ 31 ->
  parents_ok own s ->
  exists m' s' own', set_root_leaf capacity (S (S f)) a (m, s) = Some (m', s') /\
    added1 own own' fib m m' s s' B /\ ip4_ply_pool_index s' <= ip4_ply_pool_index s + plies len.
Proof.
  unfold plies. intros Hw HB0 HB Hq0 Hq Hcap Hpar. destruct (Z.ltb_spec 16 len) as [Hl|Hl].
  - destruct (root_narrow own fib f m s B) as (m' & s' & own' & E & Ha1); [done..|].
    exists m', s', own'. split; [done|]. split; [done|]. apply Ha1.
  - destruct (root_wide own fib f m s B Hw ltac:(lia) Hl) as (m' & s' & E & Ha1 & Ei).
    exists m', s', own. split; [done|]. split; [done|]. lia.
Qed.
End route.

(** ** Forwarding tables and longest prefixes *)

Record route := Route { r_dst : Z; r_len : Z; r_adj : Z }.
Implicit Types r : route.

Definition valid_route r : Prop :=
  0 <= r_dst r < 2 ^ 32 /\ 0 <= r_len r <= 32 /\ (r_len r = 0 -> r_dst r = 0) /\ 0 <= r_adj r < 2 ^ 31.

(** The first bits agree. *)
Definition in_prefix r (x : Z) : Prop :=
  Z.shiftr x (32 - r_len r) = Z.shiftr (r_dst r) (32 - r_len r).
#[export] Instance in_prefix_dec r x : Decision (in_prefix r x).
Proof. unfold in_prefix. apply _. Defined.

(** Of the routes in the order they were added, the longest that matches, the
    last one of several; index 0 when none does. *)
Definition longest_match (routes : list route) (x adj : Z) : Prop :=
  (adj = 0 /\ forall r, r ∈ routes -> ~ in_prefix r x) \/
  exists l1 r l2, routes = l1 ++ r :: l2 /\ in_prefix r x /\ adj = r_adj r /\
    (forall r', r' ∈ l1 -> in_prefix r' x -> r_len r' <= r_len r) /\
    (forall r', r' ∈ l2 -> in_prefix r' x -> r_len r' < r_len r).

(** Routes added to the tables, which share the pool of plies. *)
Fixpoint add_routes (capacity : Z) (fuel : nat) (shl32 : Z) (l : list (Z * route))
    (st : (Z -> ip4_fib_mtrie_16_ply_t) * ply_pool) : option ((Z -> ip4_fib_mtrie_16_ply_t) * ply_pool) :=
  match l with
  | [] => Some st
  | (fib, r) :: l =>
      match ip4_fib_mtrie_route_add capacity fuel shl32 (r_dst r) (r_len r) (r_adj r) (st.1 fib, st.2) with
      | None => None
      | Some (m, s) => add_routes capacity fuel shl32 l (<[fib := m]> st.1, s)
      end
  end.

Definition routes_of (fib : Z) (l : list (Z * route)) : list route :=
  omap (fun fr => if fr.1 =? fib then Some fr.2 else None) l.

(** The value the tables hold for an address: length and leaf. *)
Definition best (routes : list route) (x : Z) : Z * Z :=
  foldl (fun acc r => if bool_decide (in_prefix r x) && (r_len r >=? acc.1)
                      then (r_len r, 1 + 2 * r_adj r) else acc) (0, 1) routes.

Lemma best_longest routes x : Forall valid_route routes ->
  exists adj, (best routes x).2 = 1 + 2 * adj /\ longest_match routes x adj.
Proof.
  intros Hv.
  assert ((best routes x = (0, 1) /\ forall r, r ∈ routes -> ~ in_prefix r x) \/
    exists l1 r l2, routes = l1 ++ r :: l2 /\ in_prefix r x /\ best routes x = (r_len r, 1 + 2 * r_adj r) /\
      (forall r', r' ∈ l1 -> in_prefix r' x -> r_len r' <= r_len r) /\
      (forall r', r' ∈ l2 -> in_prefix r' x -> r_len r' < r_len r)) as Hb.
  { induction routes as [|r routes IH] using rev_ind.
    { left. split; [done|by intros r ?%not_elem_of_nil]. }
    apply Forall_app in Hv as [Hv [Hr _]%Forall_cons]. destruct Hr as (_ & Hlen & _).
    unfold best in *. rewrite foldl_app. cbn [foldl]. set (acc := foldl _ _ routes) in *.
    specialize (IH Hv). case_bool_decide as Hin; cbn [andb].
    - destruct (Z.geb_spec (r_len r) acc.1) as [Hge|Hlt].
      + right. exists routes, r, []. split; [done|]. split; [done|]. split; [done|].
        split; [|by intros r' ?%not_elem_of_nil]. intros r' Hr' Hp'.
        destruct IH as [[_ Hno]|(l1 & r1 & l2 & -> & _ & E & H1 & H2)]; [by destruct (Hno r')|].
        rewrite E in Hge. cbn in Hge. apply elem_of_app in Hr' as [Hr'|[->|Hr']%elem_of_cons]; [|lia|].
        * specialize (H1 r' Hr' Hp'). lia.
        * specialize (H2 r' Hr' Hp'). lia.
      + destruct IH as [[E _]|(l1 & r1 & l2 & -> & Hr1 & E & H1 & H2)]; rewrite E in *; cbn in Hlt; [lia|].
        right. exists l1, r1, (l2 ++ [r]). rewrite <- app_assoc. do 4 (split; [done|]).
        intros r' [Hr'| ->%list_elem_of_singleton]%elem_of_app Hp'; [by apply H2|lia].
    - destruct IH as [[E Hno]|(l1 & r1 & l2 & -> & Hr1 & E & H1 & H2)].
      + left. split; [done|]. by intros r' [?| ->%list_elem_of_singleton]%elem_of_app; [apply Hno|].
      + right. exists l1, r1, (l2 ++ [r]). rewrite <- app_assoc. do 4 (split; [done|]).
        by intros r' [?| ->%list_elem_of_singleton]%elem_of_app Hp'; [apply H2|]. }
  destruct Hb as [[-> Hno]|(l1 & r & l2 & E & Hr & -> & Hl)]; cbn.
  - exists 0. split; [done|]. by left.
  - exists (r_adj r). split; [done|]. right. exists l1, r, l2. by split; [|split; [|split]].
Qed.

(** The mask of [route_add] clears the bits after the prefix. *)
Lemma mask_prefix x len : 0 <= x < 2 ^ 32 -> 1 <= len <= 32 ->
  Z.land x (u32 (Z.shiftl 4294967295 (32 - len))) = 2 ^ (32 - len) * (x / 2 ^ (32 - len)).
Proof.
  intros Hx Hl. set (k := 32 - len). assert (0 <= k < 32) as Hk by (unfold k; lia).
  change 4294967295 with (Z.ones 32).
  assert (u32 (Z.shiftl (Z.ones 32) k) = Z.shiftl (Z.ones (32 - k)) k) as ->.
  { unfold u32, wrap. rewrite <- Z.land_ones by lia. apply Z.bits_inj'. intros n Hn.
    rewrite Z.land_spec, !Z.shiftl_spec, !Z.testbit_ones by lia. lia. }
  rewrite <- Z.shiftr_div_pow2, Z.mul_comm, <- Z.shiftl_mul_pow2 by lia.
  apply Z.bits_inj'. intros n Hn. rewrite Z.land_spec, !Z.shiftl_spec, Z.testbit_ones by lia.
  destruct (Z.lt_ge_cases n k).
  - rewrite (Z.testbit_neg_r _ (n - k)) by lia. lia.
  - rewrite Z.shiftr_spec by lia. replace (n - k + k) with n by lia.
    destruct (Z.lt_ge_cases n 32); [rewrite (proj2 (Z.leb_le _ _)), (proj2 (Z.ltb_lt _ _)) by lia; apply andb_true_r|].
    rewrite (Z.bits_above_log2 x n); [done|lia|]. destruct (decide (x = 0)) as [->|]; [cbn; lia|].
    assert (Z.log2 x < 32) by (apply Z.log2_lt_pow2; lia). lia.
Qed.

Lemma prefix_covers x d k : 0 <= k ->
  Z.shiftr x k = Z.shiftr d k <-> 2 ^ k * (d / 2 ^ k) <= x < 2 ^ k * (d / 2 ^ k) + 2 ^ k.
Proof.
  intros Hk. rewrite !Z.shiftr_div_pow2 by lia. assert (0 < 2 ^ k) as Hp by lia.
  pose proof (Z.div_mod x (2 ^ k) ltac:(lia)). pose proof (Z.mod_pos_bound x (2 ^ k) Hp).
  split; [intros E; rewrite <- E; lia|]. intros Hx.
  symmetry. apply (Z.div_unique_pos _ _ _ (x - 2 ^ k * (d / 2 ^ k))); lia.
Qed.

(** ** The tables' invariant *)

Definition addr (h i b : Z) : Z := 2 ^ 16 * h + 2 ^ 8 * i + b.

(** The plies a list of routes needs at most. *)
Definition plies_of (l : list (Z * route)) : Z := zsum (fun fr => plies (r_len fr.2)) l.

(** The tables [P] have been initialised. *)
Record tables_ok (P : Z -> Prop) (own : Z -> owner) (ms : Z -> ip4_fib_mtrie_16_ply_t) s (n : Z) (l : list (Z * route))
    : Prop := {
  to_index : 0 <= ip4_ply_pool_index s <= plies_of l;
  to_parents : parents_ok own s;
  to_slot fib h : P fib -> 0 <= h < 2 ^ 16 -> slot1 own fib (ms fib) s (512 * n) h;
  to_view fib h i b : P fib -> 0 <= h < 2 ^ 16 -> 0 <= i < 256 -> 0 <= b < 256 ->
    view1 (ms fib) s h i b = best (routes_of fib l) (addr h i b)
}.

Lemma adj_leaf_terminal i : 0 <= i < 2 ^ 31 -> ip4_fib_mtrie_leaf_set_adj_index i = 1 + 2 * i /\
  terminal (ip4_fib_mtrie_leaf_set_adj_index i) = true.
Proof.
  intros Hi. unfold ip4_fib_mtrie_leaf_set_adj_index. rewrite u32_id by lia. split; [done|].
  rewrite Z.add_comm. apply Z.testbit_odd_0.
Qed.

Lemma plies_snoc l fr : plies_of (l ++ [fr]) = plies_of l + plies (r_len fr.2).
Proof. unfold plies_of. induction l as [|x l IH]; cbn in *; lia. Qed.

Lemma plies_app l l' : plies_of (l ++ l') = plies_of l + plies_of l'.
Proof. unfold plies_of. induction l as [|x l IH]; cbn in *; lia. Qed.

Lemma plies_bound l : 0 <= plies_of l <= 2 * Z.of_nat (length l).
Proof. unfold plies_of, plies. induction l as [|x l IH]; cbn -[Z.mul Z.of_nat]; [lia|]. destruct (_ <? _); lia. Qed.

Lemma route_add_ok P capacity f shl32 own ms s n l fib r :
  tables_ok P own ms s n l -> P fib -> valid_route r -> 0 <= n -> plies_of (l ++ [(fib, r)]) <= capacity -> capacity < 2 ^ 31 ->
  512 * n + 1024 < 2 ^ 31 ->
  exists m' s' own', ip4_fib_mtrie_route_add capacity (S (S f)) shl32 (r_dst r) (r_len r) (r_adj r)
      (ms fib, s) = Some (m', s') /\ tables_ok P own' (<[fib := m']> ms) s' (n + 1) (l ++ [(fib, r)]).
Proof.
  intros [Hidx Hpar Hs Hv] HP (Hd & Hl & H0 & Ha) Hn Hcap Hcap2 HB.
  rewrite plies_snoc in *. cbn [fst snd] in *.
  set (W := 2 ^ (32 - r_len r)). assert (0 < W) as HW by (unfold W; lia).
  unfold ip4_fib_mtrie_route_add. set (A := Z.land _ _).
  assert (A = W * (r_dst r / W)) as EA.
  { unfold A. destruct (Z.eqb_spec (r_len r) 0) as [E|E].
    - rewrite H0 by done. rewrite Z.land_0_l, Z.div_0_l by lia. lia.
    - apply mask_prefix; lia. }
  destruct (adj_leaf_terminal (r_adj r) Ha) as [Eadj Hadj].
  pose proof (Z.div_mod (r_dst r) W ltac:(lia)). pose proof (Z.mod_pos_bound (r_dst r) W HW).
  assert (0 <= r_dst r / W) by (apply Z.div_pos; lia).
  destruct (set_root_leaf_spec (r_len r) _ Hl Hadj capacity (Args A (r_len r) (r_adj r)) eq_refl eq_refl
    ltac:(cbn; lia) ltac:(cbn; fold W; rewrite EA, Z.mul_comm; apply Z.mod_mul; lia) own fib f (ms fib) s
    (512 * n) (fun h => Hs fib h HP) ltac:(lia) HB) as (m' & s' & own' & E & [G1 G2 G3 G4 G5 G6] & G7); [lia|lia|lia|done|].
  assert (forall fib' h, P fib' -> fib' <> fib -> 0 <= h < 2 ^ 16 -> slot1 own' fib' (ms fib') s' (512 * n) h /\
    forall i b, 0 <= i < 256 -> view1 (ms fib') s' h i b = view1 (ms fib') s h i b) as Hother.
  { intros fib' h HP' Hne Hh. apply (slot1_frame own); [done|lia|done| |by apply Hs].
    intros q Hq Hb. apply G4; [done|]. intros h' Hb'. apply Hne.
    destruct Hb as [?|(? & ? & ? & ?)], Hb' as [?|(? & ? & ? & ?)]; congruence. }
  assert (forall x, A <= x < A + W <-> in_prefix r x) as Hcov.
  { intros x. unfold in_prefix. rewrite EA. symmetry. apply prefix_covers. lia. }
  exists m', s', own'. split; [exact E|]. split; [rewrite plies_snoc; cbn [fst snd]; lia|by apply G3| |].
  - intros fib' h HP' Hh. destruct (decide (fib' = fib)) as [->|Hne].
    + rewrite fn_lookup_insert. replace (512 * (n + 1)) with (512 * n + 512) by lia. by apply G5.
    + rewrite fn_lookup_insert_ne by done. eapply slot1_mono; [|by apply (Hother fib' h HP' Hne Hh)]. lia.
  - intros fib' h i b HP' Hh Hi Hb. unfold routes_of. rewrite omap_app. cbn [omap list_omap fst snd].
    destruct (Z.eqb_spec fib fib') as [<-|Hne].
    + rewrite fn_lookup_insert, G6, Hv by done. fold (addr h i b). unfold best. rewrite foldl_app. cbn [foldl].
      fold (routes_of fib l). unfold improve_if, improve. rewrite Eadj.
      rewrite <- (bool_decide_ext _ _ (Hcov (addr h i b))). unfold covers. cbn [dst_address]. fold W.
      case_bool_decide; cbn [andb]; done.
    + rewrite fn_lookup_insert_ne by done. rewrite app_nil_r.
      destruct (Hother fib' h HP' ltac:(done) Hh) as [_ ->]; [|done]. by apply Hv.
Qed.

(** What the three lookups read. *)
Lemma lookup_view own fib m s B h i b :
  slot1 own fib m s B h -> 0 <= h < 2 ^ 16 -> 0 <= i < 256 -> 0 <= b < 256 ->
  mtrie_lookup m (ip4_ply_pool s) (addr h i b) = Z.shiftr (view1 m s h i b).2 1.
Proof.
  intros Hs Hh Hi Hb. unfold mtrie_lookup. f_equal.
  assert (ip4_fib_mtrie_lookup_step_one m (addr h i b) = leaves16 m h) as ->.
  { unfold ip4_fib_mtrie_lookup_step_one. f_equal. change 65535 with (2 ^ 16 - 1).
    rewrite shift_byte by lia. unfold addr.
    replace (2 ^ 16 * h + 2 ^ 8 * i + b) with (h * 2 ^ 16 + (2 ^ 8 * i + b)) by lia.
    rewrite Z.div_add_l, (Z.div_small (2 ^ 8 * i + b)), Z.add_0_r by lia. apply Z.mod_small. lia. }
  assert (forall k c, (k = 2 /\ c = i) \/ (k = 3 /\ c = b) ->
    Z.land (Z.shiftr (addr h i b) (24 - 8 * k)) 255 = c) as Hbyte.
  { intros k c [[-> ->]|[-> ->]]; change 255 with (2 ^ 8 - 1); rewrite shift_byte by lia; unfold addr.
    - change (24 - 8 * 2) with 8.
      replace (2 ^ 16 * h + 2 ^ 8 * i + b) with ((2 ^ 8 * h + i) * 2 ^ 8 + b) by lia.
      rewrite Z.div_add_l, (Z.div_small b), Z.add_0_r by lia.
      rewrite Z.add_comm, Z.mul_comm, Z_mod_plus_full. apply Z.mod_small. lia.
    - change (24 - 8 * 3) with 0. rewrite Z.div_1_r.
      replace (2 ^ 16 * h + 2 ^ 8 * i + b) with (b + (2 ^ 8 * h + i) * 2 ^ 8) by lia.
      rewrite Z_mod_plus_full. apply Z.mod_small. lia. }
  unfold ip4_fib_mtrie_lookup_step at 2. rewrite (Hbyte 2 i) by auto.
  unfold slot1, view1 in *. cbn zeta in *. destruct (terminal (leaves16 m h)) eqn:Ht; cbn [negb].
  { unfold ip4_fib_mtrie_lookup_step. by rewrite Ht. }
  destruct Hs as (_ & _ & _ & Hw). pose proof (wf2_slot _ _ _ _ Hw i Hi) as Hs2.
  unfold ip4_fib_mtrie_lookup_step. rewrite (Hbyte 3 b) by auto. unfold slot2, view2 in *. cbn zeta in *.
  by destruct (terminal (leaves (ip4_ply_pool s (Z.shiftr (leaves16 m h) 1)) i)).
Qed.

Lemma add_routes_ok P capacity f shl32 l : forall own ms s n l0,
  tables_ok P own ms s n l0 -> Forall (fun fr => P fr.1 /\ valid_route fr.2) l -> 0 <= n ->
  plies_of (l0 ++ l) <= capacity < 2 ^ 31 -> 512 * (n + Z.of_nat (length l)) + 1024 < 2 ^ 31 ->
  exists ms' s' own' n', add_routes capacity (S (S f)) shl32 l (ms, s) = Some (ms', s') /\
    tables_ok P own' ms' s' n' (l0 ++ l).
Proof.
  induction l as [|[fib r] l IH]; intros own ms s n l0 Ht Hl Hn Hcap HB; cbn [add_routes length] in *.
  { rewrite app_nil_r. by exists ms, s, own, n. }
  apply Forall_cons in Hl as [[HP Hr] Hl]. cbn [snd fst] in *.
  assert (l0 ++ (fib, r) :: l = (l0 ++ [(fib, r)]) ++ l) as El by by rewrite <- app_assoc.
  rewrite El, plies_app in Hcap. pose proof (plies_bound l).
  destruct (route_add_ok P capacity f shl32 own ms s n l0 fib r Ht HP Hr Hn ltac:(lia) ltac:(lia) ltac:(lia))
    as (m' & s' & own' & -> & Ht').
  destruct (IH own' _ s' (n + 1) _ Ht' Hl ltac:(lia) ltac:(rewrite plies_app; lia) ltac:(lia)) as (ms2 & s2 & own2 & n2 & E & Ht2).
  exists ms2, s2, own2, n2. split; [exact E|]. by rewrite <- El in Ht2.
Qed.

Lemma ip4_mtrie_init_spec m h : 0 <= h < 2 ^ 16 ->
  leaves16 (ip4_mtrie_init m) h = 1 /\ dst_address_bits_of_leaves16 (ip4_mtrie_init m) h = 0.
Proof.
  intros Hh. unfold ip4_mtrie_init.
  destruct (loop_range_spec (fun k m => (forall i, 0 <= i < k -> leaves16 m i = 1) /\
      forall i, dst_address_bits_of_leaves16 m i = 0)
    (fun i m => Ply16 (<[i := 1]> (leaves16 m)) (dst_address_bits_of_leaves16 m)) PLY_16_SIZE
    (Ply16 (leaves16 m) (fun _ => 0))) as [H1 H2]; [done|by split; [lia|]| |by split; [apply H1|apply H2]].
  intros k m1 Hk [IH1 IH2]. split; [|done]. intros i Hi. cbn.
  destruct (decide (k = i)) as [->|Hne]; [by rewrite fn_lookup_insert|].
  rewrite fn_lookup_insert_ne by done. apply IH1. lia.
Qed.

Lemma add_routes_lookup (P : Z -> Prop) (capacity shl32 : Z) (f : nat) (l : list (Z * route))
    (ms : Z -> ip4_fib_mtrie_16_ply_t) (pool : Z -> ip4_fib_mtrie_8_ply_t)
    (Hms : forall fib, P fib -> exists m0, ms fib = ip4_mtrie_init m0)
    (Hl : Forall (fun fr => P fr.1 /\ valid_route fr.2) l) (Hcap : plies_of l <= capacity < 2 ^ 31)
    (Hlen : Z.of_nat (length l) < 2 ^ 21) :
  exists ms' s', add_routes capacity (S (S f)) shl32 l (ms, Pool pool 0) = Some (ms', s') /\
    forall fib x, P fib -> 0 <= x < 2 ^ 32 ->
      longest_match (routes_of fib l) x (mtrie_lookup (ms' fib) (ip4_ply_pool s') x).
Proof.
  assert (tables_ok P (fun _ => OfRoot 0 0) ms (Pool pool 0) 0 []) as H0.
  { split; [cbn; lia|by intros q r i _| |]; intros fib h.
    - intros [m0 ->]%Hms Hh. destruct (ip4_mtrie_init_spec m0 h Hh) as [E1 E2]. unfold slot1. cbn zeta.
      rewrite E1, E2. change (terminal 1) with true. cbv iota. lia.
    - intros i b [m0 ->]%Hms Hh _ _. destruct (ip4_mtrie_init_spec m0 h Hh) as [E1 E2]. unfold view1, root_entry.
      rewrite E1, E2. change (terminal 1) with true. cbv iota. reflexivity. }
  destruct (add_routes_ok P capacity f shl32 l _ _ _ 0 [] H0 Hl ltac:(lia) ltac:(cbn [app]; lia) ltac:(lia))
    as (ms' & s' & own & n & E & [_ _ Hs Hv]).
  exists ms', s'. split; [exact E|]. intros fib x HP Hx.
  set (h := x / 2 ^ 16). set (i := (x / 2 ^ 8) mod 256). set (b := x mod 256).
  assert (0 <= h < 2 ^ 16) as Hh.
  { unfold h. split; [apply Z.div_pos; lia|]. apply Z.div_lt_upper_bound; lia. }
  assert (0 <= i < 256) as Hi by (apply Z.mod_pos_bound; lia).
  assert (0 <= b < 256) as Hb by (apply Z.mod_pos_bound; lia).
  assert (x = addr h i b) as Ex.
  { unfold addr, h, i, b. pose proof (Z.div_mod x 256 ltac:(lia)).
    pose proof (Z.div_mod (x / 256) 256 ltac:(lia)). rewrite Z.div_div in * by lia.
    change (256 * 256) with (2 ^ 16) in *. change (2 ^ 8) with 256. lia. }
  clearbody h i b. subst x. rewrite (lookup_view own fib _ _ _ _ _ _ (Hs fib h HP Hh)), Hv by done. cbn [app].
  destruct (best_longest (routes_of fib l) (addr h i b)) as (adj & -> & Hm).
  { apply Forall_forall. intros r ([fib' r'] & Hin & Hf)%list_elem_of_omap. cbn in Hf.
    destruct (fib' =? fib); [|done]. injection Hf as <-. rewrite Forall_forall in Hl. by apply (Hl (fib', r')). }
  by replace (Z.shiftr (1 + 2 * adj) 1) with adj by (rewrite Z.shiftr_div_pow2 by lia;
    change (2 ^ 1) with 2; rewrite Z.mul_comm, Z.div_add by lia; done).
Qed.

(** ** Properties *)

(** C10: the forwarding tables of a fresh pool: every sequence of routes is
    added, assertions included, when the pool has two plies for every route
    longer than 16 bits; and then the lookup of every address in every table finds the index of the
    table's longest matching prefix, of several equally long ones the last
    that was added, and index 0 when no prefix matches.  [f]: the recursion
    is at most two plies deep. *)
Theorem mtrie_longest_match (capacity shl32 : Z) (f : nat) (l : list (Z * route))
    (ms : Z -> ip4_fib_mtrie_16_ply_t) (pool : Z -> ip4_fib_mtrie_8_ply_t)
    (Hl : Forall (fun fr => valid_route fr.2) l) (Hcap : plies_of l <= capacity < 2 ^ 31)
    (Hlen : Z.of_nat (length l) < 2 ^ 21) :
  exists ms' s', add_routes capacity (S (S f)) shl32 l (fun fib => ip4_mtrie_init (ms fib), Pool pool 0) =
      Some (ms', s') /\
    forall fib x, 0 <= x < 2 ^ 32 ->
      longest_match (routes_of fib l) x (mtrie_lookup (ms' fib) (ip4_ply_pool s') x).
Proof.
  destruct (add_routes_lookup (fun _ => True) capacity shl32 f l (fun fib => ip4_mtrie_init (ms fib)) pool)
    as (ms' & s' & E & Hm); [by eexists|by eapply Forall_impl|done|done|]. exists ms', s'. auto.
Qed.

(** ** A witness: 10.0.0.0/12, 10.1.2.3/32, 10.1.2.0/24 and, in another
    table, 10.1.0.0/16 *)

Definition ex_routes : list (Z * route) :=
  [(0, Route 167772160 12 7); (0, Route 167838211 32 8); (0, Route 167838208 24 9);
   (1, Route 167837696 16 5)].
Definition ex_root : ip4_fib_mtrie_16_ply_t := Ply16 (fun _ => 0) (fun _ => 0).
Definition ex_pool (_ : Z) : ip4_fib_mtrie_8_ply_t := Ply8 (fun _ => 0) (fun _ => 0) 0 0.

Lemma mtrie_longest_match_witness :
  option_map (fun st => (map (mtrie_lookup (st.1 0) (ip4_ply_pool st.2))
                           [167838211; 167838212; 167838464; 167837696; 184549376],
                         mtrie_lookup (st.1 1) (ip4_ply_pool st.2) 167838211))
    (add_routes 8 2 0 ex_routes (fun _ => ip4_mtrie_init ex_root, Pool ex_pool 0)) =
    Some ([8; 9; 7; 7; 0], 5) /\
  exists ms' s', add_routes 8 2 0 ex_routes (fun _ => ip4_mtrie_init ex_root, Pool ex_pool 0) = Some (ms', s') /\
    forall fib x, 0 <= x < 2 ^ 32 ->
      longest_match (routes_of fib ex_routes) x (mtrie_lookup (ms' fib) (ip4_ply_pool s') x).
Proof.
  split; [vm_compute; reflexivity|].
  apply (mtrie_longest_match 8 0 0 ex_routes (fun _ => ex_root) ex_pool); [|by vm_compute|by vm_compute].
  repeat constructor; cbn; lia.
Defined.
