(* ===== verification/LoadBalance.v ===== *)
(** * Forwarding decisions: the load-balance pool and the lookup of a packet

    src/nf/common/load-balance.c and load-balance.h, and the lookup that the
    handlers of the firewall and of the load balancer share: three steps
    through the trie of the incoming device (Mtrie.v) lead to an entry of the
    load-balance pool.  Both pools are filled at initialisation, through
    their master copies, and read in critical sections. *)

From S2P Require Import Prelude Ether Rlu Vector Mtrie.
Open Scope Z_scope.

(** enum DPO_ACTION *)
Definition DROP : Z := 0.
Definition LB : Z := 1.
Definition FORWARD : Z := 2.

Record dpo_t := Dpo {
  action : Z;
  send_device : Z;
  dst_ip_address : Z;
  dst_mac_address : rte_ether_addr
}.

Record load_balance_t := LoadBalance {
  n_buckets : Z;
  dscp : Z;
  lb_buckets : Z -> dpo_t
}.

(** lb_null_init of the NFs: the buckets are NULL. *)
Definition lb_null_init (lb : load_balance_t) : load_balance_t :=
  LoadBalance 0 (dscp lb) (fun _ => Dpo 0 0 0 no_mac).

(** The pool (its elements' master copies) and the next free element. *)
Record lb_pool := LbPool {
  load_balance_pool : Z -> load_balance_t;
  load_balance_pool_index : Z
}.
Implicit Types (s : lb_pool) (lb : load_balance_t).

(** ** Creation: [None] where an assertion fails *)

Definition lb_vector_get (capacity : Z) s : option (Z * lb_pool) :=
  if load_balance_pool_index s <? capacity then
    Some (load_balance_pool_index s,
          LbPool (load_balance_pool s) (u32 (load_balance_pool_index s + 1)))
  else None.

(** The loops over the buckets; [garbage]: what malloc returns. *)
Definition fill_buckets (n : Z) (act dev ip : Z -> Z) (mac : Z -> rte_ether_addr) (garbage : Z -> dpo_t) : Z -> dpo_t :=
  let n := Z.to_nat n in
  let b := loop_range 0 n (fun i b => <[i := Dpo (act i) (send_device (b i)) (dst_ip_address (b i)) (dst_mac_address (b i))]> b) garbage in
  let b := loop_range 0 n (fun i b => <[i := Dpo (action (b i)) (dev i) (dst_ip_address (b i)) (dst_mac_address (b i))]> b) b in
  let b := loop_range 0 n (fun i b => <[i := Dpo (action (b i)) (send_device (b i)) (ip i) (dst_mac_address (b i))]> b) b in
  loop_range 0 n (fun i b => <[i := Dpo (action (b i)) (send_device (b i)) (dst_ip_address (b i)) (mac i)]> b) b.

Definition load_balance_create (capacity n_dpo : Z) (act dev ip : Z -> Z) (mac : Z -> rte_ether_addr)
    (garbage : Z -> dpo_t) s : option (Z * lb_pool) :=
  match lb_vector_get capacity s with
  | None => None
  | Some (index, s) =>
      let lb := load_balance_pool s index in
      let lb := LoadBalance (u16 n_dpo) (dscp lb) (fill_buckets n_dpo act dev ip mac garbage) in
      Some (index, LbPool (<[index := lb]> (load_balance_pool s)) (load_balance_pool_index s))
  end.

Definition load_balance_set_dscp (lb_index d : Z) s : lb_pool :=
  let lb := load_balance_pool s lb_index in
  LbPool (<[lb_index := LoadBalance (n_buckets lb) (u8 d) (lb_buckets lb)]> (load_balance_pool s))
    (load_balance_pool_index s).

Definition load_balance_get_bucket_i lb (bucket : Z) : option dpo_t :=
  if bucket <? n_buckets lb then Some (lb_buckets lb bucket) else None.

(** ** The lookup of the handlers *)

Section lookup.
Context {T : Type} (ip4_fibs : Z -> ip4_fib_t) (ip4_ply_pool : NfosVector T ip4_fib_mtrie_8_ply_t)
  (pool : NfosVector T load_balance_t).

(** [ip4_fib_mtrie_lookup_step] with its read of the pool. *)
Definition lookup_step (current_leaf dst_address dst_address_byte_index : Z) : M T Z :=
  if negb (ip4_fib_mtrie_leaf_is_terminal current_leaf) then
    let! ply := nfos_vector_borrow_t ip4_ply_pool (Z.shiftr current_leaf 1) in
    ret (leaves ply (Z.land (Z.shiftr dst_address (24 - 8 * dst_address_byte_index)) 255))
  else ret current_leaf.

Definition load_balance_get (lb_index : Z) : M T load_balance_t := nfos_vector_borrow_t pool lb_index.

(** From the device's table to the entry of the pool. *)
Definition fib_lookup (incoming_dev le_dst_addr : Z) : M T load_balance_t :=
  let mtrie := mtrie (ip4_fib_get ip4_fibs incoming_dev) in
  let leaf0 := ip4_fib_mtrie_lookup_step_one mtrie le_dst_addr in
  let! leaf0 := lookup_step leaf0 le_dst_addr 2 in
  let! leaf0 := lookup_step leaf0 le_dst_addr 3 in
  load_balance_get (Z.shiftr leaf0 1).

Lemma lookup_step_run leaf x k t :
  lookup_step leaf x k t = (Some (ip4_fib_mtrie_lookup_step (view (elems ip4_ply_pool) t) leaf x k), t).
Proof.
  unfold lookup_step, ip4_fib_mtrie_lookup_step. by destruct (negb _).
Qed.

(** It reads the pool's entry at the index the trie's lookup finds, and
    takes no lock. *)
Lemma fib_lookup_run dev x t :
  fib_lookup dev x t =
  (Some (view (elems pool) t (mtrie_lookup (mtrie (ip4_fib_get ip4_fibs dev)) (view (elems ip4_ply_pool) t) x)), t).
Proof.
  unfold fib_lookup, bind. rewrite lookup_step_run. cbn -[ip4_fib_mtrie_lookup_step]. by rewrite lookup_step_run.
Qed.
End lookup.

(** ** Lemmas *)

Lemma fill_loop {X} (upd : Z -> X -> X) n (b0 : Z -> X) i :
  0 <= i -> loop_range 0 n (fun i b => <[i := upd i (b i)]> b) b0 i =
  if decide (i < Z.of_nat n) then upd i (b0 i) else b0 i.
Proof.
  intros Hi.
  assert (forall k, 0 <= k < 0 + Z.of_nat n -> loop_range 0 n (fun i b => <[i := upd i (b i)]> b) b0 k = upd k (b0 k)) as H.
  2: assert (forall k, 0 + Z.of_nat n <= k -> loop_range 0 n (fun i b => <[i := upd i (b i)]> b) b0 k = b0 k) as H'.
  - pose proof (loop_range_inv (fun j (b : Z -> X) => (forall k, 0 <= k < j -> b k = upd k (b0 k)) /\
      forall k, j <= k -> b k = b0 k) (fun i b => <[i := upd i (b i)]> b) n 0 b0) as Hl.
    destruct Hl as [Hl _]; [split; [lia|done]| |exact Hl].
    intros j b Hj [H1 H2]. split; intros k Hk; rewrite fn_insert_dec.
    + destruct (decide (j = k)) as [<-|]; [by rewrite H2 by lia|]. apply H1. lia.
    + rewrite decide_False by lia. apply H2. lia.
  - pose proof (loop_range_inv (fun j (b : Z -> X) => forall k, j <= k -> b k = b0 k)
      (fun i b => <[i := upd i (b i)]> b) n 0 b0) as Hl.
    apply Hl; [done|]. intros j b Hj H2 k Hk. rewrite fn_insert_dec, decide_False by lia. apply H2. lia.
  - case_decide; [apply H|apply H']; lia.
Qed.

Lemma fill_buckets_spec n act dev ip mac garbage i :
  0 <= i < n -> fill_buckets n act dev ip mac garbage i = Dpo (act i) (dev i) (ip i) (mac i).
Proof.
  intros Hi. unfold fill_buckets.
  rewrite (fill_loop (fun i b => Dpo (action b) (send_device b) (dst_ip_address b) (mac i))) by lia.
  rewrite (fill_loop (fun i b => Dpo (action b) (send_device b) (ip i) (dst_mac_address b))) by lia.
  rewrite (fill_loop (fun i b => Dpo (action b) (dev i) (dst_ip_address b) (dst_mac_address b))) by lia.
  rewrite (fill_loop (fun i b => Dpo (act i) (send_device b) (dst_ip_address b) (dst_mac_address b))) by lia.
  rewrite !decide_True by lia. done.
Qed.

Lemma load_balance_create_ok capacity n act dev ip mac garbage s :
  0 <= load_balance_pool_index s < capacity -> capacity < 2 ^ 32 -> 0 <= n < 2 ^ 16 ->
  exists lb, load_balance_create capacity n act dev ip mac garbage s =
    Some (load_balance_pool_index s,
      LbPool (<[load_balance_pool_index s := lb]> (load_balance_pool s)) (load_balance_pool_index s + 1)) /\
    dscp lb = dscp (load_balance_pool s (load_balance_pool_index s)) /\
    forall i, 0 <= i -> load_balance_get_bucket_i lb i =
      if i <? n then Some (Dpo (act i) (dev i) (ip i) (mac i)) else None.
Proof.
  intros Hi Hc Hn. unfold load_balance_create, lb_vector_get. rewrite (proj2 (Z.ltb_lt _ _)) by lia.
  cbn [load_balance_pool load_balance_pool_index]. rewrite u32_id by lia. eexists. split; [done|].
  split; [done|]. intros i Hi0. unfold load_balance_get_bucket_i. cbn [n_buckets lb_buckets].
  rewrite u16_id by lia. destruct (Z.ltb_spec i n); [|done]. by rewrite fill_buckets_spec by lia.
Qed.

(** ** Properties *)

(** Load_balance_create: unless the pool is used up, the assertion, it
    takes the pool's next element and fills it so that get_bucket_i finds the
    given action, device and addresses in the first n_dpo buckets and fails
    its assertion beyond them; the other elements stay as they were. *)
Theorem load_balance_create_spec (capacity n : Z) (act dev ip : Z -> Z) (mac : Z -> rte_ether_addr)
    (garbage : Z -> dpo_t) (s : lb_pool)
    (Hs : 0 <= load_balance_pool_index s) (Hc : capacity < 2 ^ 32) (Hn : 0 <= n < 2 ^ 16) :
  match load_balance_create capacity n act dev ip mac garbage s with
  | Some (index, s') => index = load_balance_pool_index s /\ index < capacity /\
      load_balance_pool_index s' = index + 1 /\
      (forall i, 0 <= i -> load_balance_get_bucket_i (load_balance_pool s' index) i =
         if i <? n then Some (Dpo (act i) (dev i) (ip i) (mac i)) else None) /\
      forall j, j <> index -> load_balance_pool s' j = load_balance_pool s j
  | None => capacity <= load_balance_pool_index s
  end.
Proof.
  destruct (Z.lt_ge_cases (load_balance_pool_index s) capacity) as [Hl|Hl].
  - destruct (load_balance_create_ok capacity n act dev ip mac garbage s) as (lb & -> & _ & Hb); [done..|].
    split; [done|]. split; [done|]. split; [done|]. cbn [load_balance_pool]. rewrite fn_lookup_insert.
    split; [exact Hb|]. intros j Hj. by rewrite fn_lookup_insert_ne.
  - unfold load_balance_create, lb_vector_get. by rewrite (proj2 (Z.ltb_ge _ _)).
Qed.

Lemma load_balance_create_spec_witness :
  let s := LbPool (fun _ => LoadBalance 0 0 (fun _ => Dpo 0 0 0 no_mac)) 1 in
  let act := fun i => i + 1 in
  match load_balance_create 7 2 act act act (fun _ => no_mac) (fun _ => Dpo 9 9 9 no_mac) s with
  | Some (index, s') => index = load_balance_pool_index s /\ index < 7 /\
      load_balance_pool_index s' = index + 1 /\
      (forall i, 0 <= i -> load_balance_get_bucket_i (load_balance_pool s' index) i =
         if i <? 2 then Some (Dpo (act i) (act i) (act i) no_mac) else None) /\
      forall j, j <> index -> load_balance_pool s' j = load_balance_pool s j
  | None => 7 <= load_balance_pool_index s
  end.
Proof.
  intros s act. apply (load_balance_create_spec 7 2 act act act (fun _ => no_mac) (fun _ => Dpo 9 9 9 no_mac) s);
    cbn; lia.
Defined.
