(* ===== verification/FibInit.v ===== *)
(** * The forwarding tables of the firewall and of the endpoint-independent NAT

    nf_init of src/nf/fw/main.c and of src/nf/ei-nat/main.c fill the devices'
    link-layer addresses, the load-balance pool and the tables of two devices
    with the same code: every address but 0.0.0.0 leads outside. *)

From S2P Require Import Prelude Ether Rlu Vector Mtrie LoadBalance.
Open Scope Z_scope.

(** fw_config.h, nat_config.h *)
Definition LAN_DEVICE : Z := 0.
Definition WAN_DEVICE : Z := 1.
Definition ENDPOINT_MAC : rte_ether_addr := Mac 1 35 69 86 120 154.
Definition LB_CAPACITY : Z := 2.
Definition IP4_PLY_POOL_CAPACITY : Z := 5.
Definition N_FIB_TABLE : Z := 2.

Definition fib_table_null_init (_ : ip4_fib_t) : ip4_fib_t := Fib (Ply16 (fun _ => 0) (fun _ => 0)) 0.
(** The second memset clears the leaves again. *)
Definition ip4_null_init (p : ip4_fib_mtrie_8_ply_t) : ip4_fib_mtrie_8_ply_t :=
  Ply8 (fun _ => 0) (dst_address_bits_of_leaves p) 0 0.

(** The master copies of the three pools. *)
Record fw_tables := FwTables {
  ft_lbs : lb_pool;
  ft_fibs : Z -> ip4_fib_t;
  ft_plies : ply_pool
}.

(** The devices' addresses; [rte_eth_macaddr_get] is DPDK's. *)
Definition fill_macs (num_devs : Z) (rte_eth_macaddr_get : Z -> rte_ether_addr) (garbage : Z -> rte_ether_addr)
    : (Z -> rte_ether_addr) * (Z -> rte_ether_addr) :=
  loop_range 0 (Z.to_nat num_devs)
    (fun i dm => (<[i := rte_eth_macaddr_get i]> dm.1,
       <[i := set_addr_byte0 (u8 (addr_byte0 ENDPOINT_MAC + i)) ENDPOINT_MAC]> dm.2))
    (garbage, garbage).

(** The two entries of the load-balance pool: arrays of one element are given
    by the function that is constant on them. *)
Definition fw_load_balances (garbage : Z -> dpo_t) (s : lb_pool) : option (Z * Z * lb_pool) :=
  let action := DROP in
  let send_device := 65535 in
  let dst_ip_address := 4294967295 in
  let dst_mac_address := Mac 255 255 255 255 255 255 in
  match load_balance_create LB_CAPACITY 1 (fun _ => action) (fun _ => send_device)
          (fun _ => dst_ip_address) (fun _ => dst_mac_address) garbage s with
  | None => None
  | Some (index0, s) =>
      let action := FORWARD in
      let send_device := WAN_DEVICE in
      let dst_ip_address := 2919236354 in
      let dst_mac_address := (Mac 18 52 86 120 144 171) in
      match load_balance_create LB_CAPACITY 1 (fun _ => action) (fun _ => send_device)
              (fun _ => dst_ip_address) (fun _ => dst_mac_address) garbage s with
      | None => None
      | Some (index1, s) => Some (index0, index1, s)
      end
  end.

(** The calls of ip4_fib_mtrie_route_add, with the table they are for. *)
Definition fw_routes (index0 index1 : Z) : list (Z * route) :=
  [(LAN_DEVICE, Route 0 0 index1); (LAN_DEVICE, Route 0 32 index0);
   (WAN_DEVICE, Route 0 0 index1); (WAN_DEVICE, Route 0 32 index0)].

Definition init_fibs (n_fib_table : Z) (fibs : Z -> ip4_fib_t) : Z -> ip4_fib_t :=
  loop_range 0 (Z.to_nat n_fib_table)
    (fun i fibs => <[i := Fib (ip4_mtrie_init (mtrie (ip4_fib_get fibs i))) i]> fibs) fibs.
Definition fw_init_fibs : (Z -> ip4_fib_t) -> Z -> ip4_fib_t := init_fibs N_FIB_TABLE.

(** Adding the routes to the initialised tables. *)
Definition fw_add_routes (fuel : nat) (shl32 index0 index1 : Z) (lbs : lb_pool) (fibs : Z -> ip4_fib_t)
    (plies : Z -> ip4_fib_mtrie_8_ply_t) : option fw_tables :=
  match add_routes IP4_PLY_POOL_CAPACITY fuel shl32 (fw_routes index0 index1)
          (fun i => mtrie (fibs i), Pool plies 0) with
  | None => None
  | Some (ms, plies) => Some (FwTables lbs (fun i => Fib (ms i) (index (fibs i))) plies)
  end.

(** From the allocation of the load-balance pool to the routes.  [None]: an
    assertion fails, or memory cannot be had ([ok n] for the n-th allocation)
    and the code goes on to read through NULL. *)
Definition fw_init_tables (ok : Z -> bool) (fuel : nat) (shl32 : Z)
    (lb_alloc lb_uninit : Z -> load_balance_t) (fib_alloc fib_uninit : Z -> ip4_fib_t)
    (ply_alloc ply_uninit : Z -> ip4_fib_mtrie_8_ply_t) (garbage : Z -> dpo_t) : option fw_tables :=
  match nfos_vector_allocate_t (ok 0) (ok 1) lb_alloc lb_uninit 16 LB_CAPACITY lb_null_init with
  | None => None
  | Some lbs =>
      match fw_load_balances garbage (LbPool (m_elems lbs) 0) with
      | None => None
      | Some (index0, index1, lbs) =>
          match nfos_vector_allocate_t (ok 2) (ok 3) fib_alloc fib_uninit 327684 N_FIB_TABLE
                  fib_table_null_init with
          | None => None
          | Some fibs =>
              match nfos_vector_allocate_t (ok 4) (ok 5) ply_alloc ply_uninit 1288
                      IP4_PLY_POOL_CAPACITY ip4_null_init with
              | None => None
              | Some plies =>
                  fw_add_routes fuel shl32 index0 index1 lbs (fw_init_fibs (m_elems fibs)) (m_elems plies)
              end
          end
      end
  end.

(** What the tables say. *)
Definition drop_dpo : dpo_t := Dpo DROP 65535 4294967295 (Mac 255 255 255 255 255 255).
Definition forward_dpo : dpo_t := Dpo FORWARD WAN_DEVICE 2919236354 (Mac 18 52 86 120 144 171).

(** What the tables say of an address: everything goes outside, except to
    0.0.0.0. *)
Definition fw_decision (x : Z) : dpo_t := if x =? 0 then drop_dpo else forward_dpo.

Definition tables_ready (tb : fw_tables) : Prop :=
  forall dev x, dev = LAN_DEVICE \/ dev = WAN_DEVICE -> 0 <= x < 2 ^ 32 ->
  load_balance_get_bucket_i (load_balance_pool (ft_lbs tb)
    (mtrie_lookup (mtrie (ip4_fib_get (ft_fibs tb) dev)) (ip4_ply_pool (ft_plies tb)) x)) 0 =
  Some (fw_decision x).

(** The two entries of the pool. *)
Lemma fw_load_balances_ok garbage lbs :
  exists s, fw_load_balances garbage (LbPool lbs 0) = Some (0, 1, s) /\
    load_balance_get_bucket_i (load_balance_pool s 0) 0 = Some drop_dpo /\
    load_balance_get_bucket_i (load_balance_pool s 1) 0 = Some forward_dpo.
Proof.
  unfold fw_load_balances.
  edestruct (load_balance_create_ok LB_CAPACITY 1) as (lb0 & -> & _ & Hb0); [done..|].
  cbn [load_balance_pool load_balance_pool_index].
  edestruct (load_balance_create_ok LB_CAPACITY 1) as (lb1 & -> & _ & Hb1); [done..|].
  cbn [load_balance_pool load_balance_pool_index]. eexists. split; [done|]. cbn [load_balance_pool].
  rewrite fn_lookup_insert_ne, !fn_lookup_insert by done. split; [by rewrite Hb0|by rewrite Hb1].
Qed.

(** A default route and routes to hosts, which differ: the host's route, if
    there is one. *)
Definition host_lookup (default : Z) (hosts : list route) (x : Z) : Z :=
  foldr (fun r acc => if r_dst r =? x then r_adj r else acc) default hosts.

Lemma host_lookup_none default hosts x :
  (forall r, r ∈ hosts -> r_dst r <> x) -> host_lookup default hosts x = default.
Proof.
  induction hosts as [|r hosts IH]; intros Hno; cbn; [done|].
  rewrite (proj2 (Z.eqb_neq _ _)) by (apply Hno; by left). apply IH. intros r' Hr'. apply Hno. by right.
Qed.

Lemma hosts_match default hosts x adj :
  0 <= x < 2 ^ 32 -> Forall (fun r => r_len r = 32) hosts -> NoDup (r_dst <$> hosts) ->
  longest_match (Route 0 0 default :: hosts) x adj -> adj = host_lookup default hosts x.
Proof.
  intros Hx H32 Hnd Hm. rewrite Forall_forall in H32.
  assert (in_prefix (Route 0 0 default) x) as H0.
  { unfold in_prefix. cbn [r_len r_dst]. rewrite !Z.shiftr_div_pow2 by lia.
    change (32 - 0) with 32. rewrite !Z.div_small by lia. done. }
  assert (forall r, r ∈ hosts -> in_prefix r x <-> r_dst r = x) as Hin.
  { intros r Hr. unfold in_prefix. rewrite (H32 r Hr). change (32 - 32) with 0. rewrite !Z.shiftr_0_r. done. }
  destruct Hm as [[_ Hno]|(l1 & r & l2 & E & Hr & -> & _ & Hl)]; [by destruct (Hno (Route 0 0 default)); [left|]|].
  destruct l1 as [|r0 l1]; injection E as <- E.
  - subst l2. symmetry. apply host_lookup_none. intros r Hr' Ed.
    specialize (Hl r Hr' (proj2 (Hin r Hr') Ed)). rewrite (H32 r Hr') in Hl. cbn in Hl. lia.
  - assert (r ∈ hosts) as Hrh by (rewrite E; apply elem_of_app; right; by left).
    apply Hin in Hr; [|done]. rewrite E in *. clear Hl Hin. rewrite fmap_app in Hnd.
    induction l1 as [|r1 l1 IH] in Hnd |- *; cbn in *.
    + by rewrite Hr, Z.eqb_refl.
    + apply NoDup_cons in Hnd as [Hno Hnd]. rewrite (proj2 (Z.eqb_neq _ _)); [by apply IH|].
      intros E1. apply Hno. rewrite E1, <- Hr. apply elem_of_app. right. by left.
Qed.

(** The routes decide by whether the address is 0. *)
Lemma fw_routes_match fib x adj :
  fib = LAN_DEVICE \/ fib = WAN_DEVICE -> 0 <= x < 2 ^ 32 ->
  longest_match (routes_of fib (fw_routes 0 1)) x adj -> adj = if x =? 0 then 0 else 1.
Proof.
  intros Hf Hx. assert (routes_of fib (fw_routes 0 1) = [Route 0 0 1; Route 0 32 0]) as ->
    by (by destruct Hf as [-> | ->]).
  intros Hm. rewrite (hosts_match 1 [Route 0 32 0] x adj Hx); [|by apply Forall_singleton|by apply NoDup_singleton|done].
  cbn [host_lookup foldr r_dst r_adj]. by rewrite Z.eqb_sym.
Qed.

Lemma init_fibs_spec n fibs i : 0 <= i < n -> exists m0, mtrie (init_fibs n fibs i) = ip4_mtrie_init m0.
Proof.
  intros Hi. unfold init_fibs.
  apply (loop_range_spec (fun j (fibs : Z -> ip4_fib_t) => forall i, 0 <= i < j ->
    exists m0, mtrie (fibs i) = ip4_mtrie_init m0)
    (fun i fibs => <[i := Fib (ip4_mtrie_init (mtrie (ip4_fib_get fibs i))) i]> fibs) n fibs); [lia|lia| |done].
  intros j f Hj IH k Hk. rewrite fn_insert_dec. case_decide; [|apply IH; lia].
  exists (mtrie (ip4_fib_get f j)). reflexivity.
Qed.

Lemma fill_macs_spec n macs garbage i : 0 <= i < n ->
  (fill_macs n macs garbage).1 i = macs i /\ (fill_macs n macs garbage).2 i = (Mac (u8 (1 + i)) 35 69 86 120 154).
Proof.
  intros Hi. unfold fill_macs.
  pose proof (loop_range_spec (fun j (dm : (Z -> rte_ether_addr) * (Z -> rte_ether_addr)) => forall k, 0 <= k < j ->
    dm.1 k = macs k /\ dm.2 k = (Mac (u8 (1 + k)) 35 69 86 120 154))
    (fun i dm => (<[i := macs i]> dm.1,
       <[i := set_addr_byte0 (u8 (addr_byte0 ENDPOINT_MAC + i)) ENDPOINT_MAC]> dm.2)) n (garbage, garbage)) as H.
  apply H; [lia|lia| |done]. intros j dm Hj Hd k Hk. cbn [fst snd]. rewrite !fn_insert_dec.
  destruct (decide (j = k)) as [<-|]; [done|]. apply Hd. lia.
Qed.

Lemma mtrie_lookup_ext m pool pool' x :
  (forall i, pool i = pool' i) -> mtrie_lookup m pool x = mtrie_lookup m pool' x.
Proof. intros E. unfold mtrie_lookup, ip4_fib_mtrie_lookup_step. by rewrite !E. Qed.

Lemma fw_add_routes_ok f shl32 lbs fibs plies :
  load_balance_get_bucket_i (load_balance_pool lbs 0) 0 = Some drop_dpo ->
  load_balance_get_bucket_i (load_balance_pool lbs 1) 0 = Some forward_dpo ->
  exists tb, fw_add_routes (S (S f)) shl32 0 1 lbs (fw_init_fibs fibs) plies = Some tb /\ tables_ready tb.
Proof.
  intros H0 H1. unfold fw_add_routes.
  destruct (add_routes_lookup (fun i => 0 <= i < N_FIB_TABLE) IP4_PLY_POOL_CAPACITY shl32 f (fw_routes 0 1)
    (fun i => mtrie (fw_init_fibs fibs i)) plies) as (ms & s & E & Hm).
  - intros i Hi. by apply init_fibs_spec.
  - unfold fw_routes. do 4 (apply Forall_cons; split; [unfold valid_route, LAN_DEVICE, WAN_DEVICE, N_FIB_TABLE; cbn; lia|]).
    apply Forall_nil_2.
  - by vm_compute.
  - by vm_compute.
  - rewrite E. eexists. split; [reflexivity|]. intros dev x Hd Hx. cbn [ft_lbs ft_fibs ft_plies].
    unfold ip4_fib_get. cbn [mtrie].
    rewrite (fw_routes_match dev x _ Hd Hx (Hm dev x ltac:(unfold LAN_DEVICE, WAN_DEVICE, N_FIB_TABLE in *; lia) Hx)).
    unfold fw_decision. by destruct (x =? 0).
Qed.


Lemma fw_init_tables_ok (ok : Z -> bool) (f : nat) (shl32 : Z)
    (lb_alloc lb_uninit : Z -> load_balance_t) (fib_alloc fib_uninit : Z -> ip4_fib_t)
    (ply_alloc ply_uninit : Z -> ip4_fib_mtrie_8_ply_t) (garbage : Z -> dpo_t) :
  match fw_init_tables ok (S (S f)) shl32 lb_alloc lb_uninit fib_alloc fib_uninit ply_alloc ply_uninit garbage with
  | Some tb => (forall i, 0 <= i < 6 -> ok i = true) /\ tables_ready tb
  | None => exists i, 0 <= i < 6 /\ ok i = false
  end.
Proof.
  unfold fw_init_tables, nfos_vector_allocate_t.
  destruct (ok 0) eqn:E0; cbn [negb]; [|by exists 0]. destruct (ok 1) eqn:E1; cbn [negb]; [|by exists 1].
  cbn [m_elems]. edestruct fw_load_balances_ok as (lbs & -> & H0 & H1).
  destruct (ok 2) eqn:E2; cbn [negb]; [|by exists 2]. destruct (ok 3) eqn:E3; cbn [negb]; [|by exists 3].
  destruct (ok 4) eqn:E4; cbn [negb]; [|by exists 4]. destruct (ok 5) eqn:E5; cbn [negb]; [|by exists 5].
  cbn [m_elems].
  match goal with
  | |- context [fw_add_routes _ _ _ _ _ (fw_init_fibs ?a) ?b] =>
      destruct (fw_add_routes_ok f shl32 lbs a b H0 H1) as (tb & E & Hr)
  end. rewrite E. split; [|exact Hr]. intros i Hi.
  assert (i = 0 \/ i = 1 \/ i = 2 \/ i = 3 \/ i = 4 \/ i = 5) by lia. clear E Hr; destruct_or!; subst i; assumption.
Qed.
