(* ===== verification/NatInit.v ===== *)
(** * Initialisation shared by the NATs

    The first part of nf_init of src/nf/fw-nat/main.c and of
    src/nf/ei-nat/main.c: the configuration (nat_config.h of both), and the
    map, the vector and the two allocators of the sessions.  The data of a
    session differ: their type, size and initial value are parameters. *)

From stdpp Require Import gmap.
From S2P Require Import Prelude Ether Rlu Vector NfosMap Links Dchain Interfaces NfCommon Sessions FibInit.
Open Scope Z_scope.

Definition EXTERNAL_ADDR : Z := 3735928559.
Definition NUM_EXTERNAL_ADDRS : Z := 57.
Definition MAX_NUM_SESSIONS : Z := 8388608.
Definition EXPIRATION_TIME : Z := 1200000.
Definition EXTERNAL_PORT_LOW : Z := 1024.
Definition EXTERNAL_PORT_HIGH : Z := 65535.

Definition nf_config_init (num_devs : Z) (macs mac_garbage : Z -> rte_ether_addr) : nf_config :=
  let dm := fill_macs num_devs macs mac_garbage in
  NatConfig WAN_DEVICE EXTERNAL_ADDR NUM_EXTERNAL_ADDRS EXPIRATION_TIME dm.1 dm.2 EXTERNAL_PORT_LOW
    EXTERNAL_PORT_HIGH ((EXTERNAL_PORT_HIGH - EXTERNAL_PORT_LOW + 1) * NUM_EXTERNAL_ADDRS).

(** The master copies of the structures. *)
Record nat_masters (V : Type) := NatMasters {
  nm_cfg : nf_config;
  nm_session_map : map_masters session;
  nm_session_data : vector_masters V;
  nm_sess_tcp : Z -> nfos_dchain_cell;
  nm_sess_udp : Z -> nfos_dchain_cell
}.
Arguments NatMasters {V} _ _ _ _ _.
Arguments nm_cfg {V} _.
Arguments nm_session_map {V} _.
Arguments nm_session_data {V} _.
Arguments nm_sess_tcp {V} _.
Arguments nm_sess_udp {V} _.

(** [Some None]: memory cannot be had ([ok n] for the n-th allocation that is
    checked) and the code goes on to write through NULL; [None]: a loop does
    not end within its fuel.  The keys of the map have the size of a session,
    8 bytes. *)
Definition init_sessions {V} (ok : Z -> bool) (fuel : nat) (num_devs lcores : Z) (macs : Z -> rte_ether_addr)
    (data_size : Z) (data_init : V -> V) (mac_garbage : Z -> rte_ether_addr)
    (map_garbage : Z -> nfos_map_entry session) (data_garbage : Z -> V)
    (cell_garbage : Z -> Z -> nfos_dchain_cell) : option (option (nat_masters V)) :=
  if negb (ok 0) then Some None
  else if negb (ok 1) then Some None
  else
    let c := nf_config_init num_devs macs mac_garbage in
    let n := num_avail_ext_tuples c in
    match nfos_map_allocate_t (ok 2) (ok 3) map_garbage 8 (2 * MAX_NUM_SESSIONS),
          nfos_vector_allocate_t (ok 4) (ok 5) data_garbage data_garbage data_size (2 * n) data_init with
    | Some sm, Some sd =>
        match nfos_dchain_allocate_t (ok 6) (ok 7) fuel (cell_garbage 0) lcores n with
        | None => None
        | Some None => Some None
        | Some (Some tcp) =>
            match nfos_dchain_allocate_t (ok 8) (ok 9) fuel (cell_garbage 1) lcores n with
            | None => None
            | Some None => Some None
            | Some (Some udp) => Some (Some (NatMasters c sm sd tcp udp))
            end
        end
    | _, _ => Some None
    end.

(** ** What the structures start with *)

Lemma nat_config_ok num_devs macs garbage : config_ok (nf_config_init num_devs macs garbage).
Proof. split; cbn; unfold EXTERNAL_PORT_LOW, EXTERNAL_PORT_HIGH, EXTERNAL_ADDR, NUM_EXTERNAL_ADDRS; lia. Qed.

Lemma masters_dchain {T} (cells : RluMem T nfos_dchain_cell) N usable f (t : T) :
  0 < N -> chain_rep N usable f (fun _ => []) -> (forall i, view cells t i = f i) -> dchain_set cells N usable t ∅.
Proof.
  intros HN Hr E. split; [done|]. exists (fun _ => []). split.
  - apply (rep_ext N usable HN f); [|exact Hr]. intros x. by rewrite E.
  - intros i. split; [by intros ?%not_elem_of_empty|by intros [c ?%not_elem_of_nil]].
Qed.

Lemma masters_map {T K} `{Countable K} (map : NfosMap T K) (t : T) (g : Z -> nfos_map_entry K) :
  (forall i, view (map_entries map) t i = map_reset_loop (Z.to_nat (map_capacity map)) 0 g i) ->
  map_rep map t ∅.
Proof.
  intros E. apply map_inv_empty. intros i Hi. rewrite E, map_reset_loop_spec, decide_True by lia. done.
Qed.

(** The number of external addresses and ports. *)
Definition ext_tuples : Z := (EXTERNAL_PORT_HIGH - EXTERNAL_PORT_LOW + 1) * NUM_EXTERNAL_ADDRS.

(** The structures are empty, and all external addresses and ports that can
    be shared out evenly among [N] cores are free. *)
Definition sessions_ready {V} (N : Z) (g : nat_masters V) (map_garbage : Z -> nfos_map_entry session) : Prop :=
  (exists cap, nm_session_map g = MapMasters (map_reset_loop (Z.to_nat cap) 0 map_garbage) 8 cap) /\
  chain_rep N (N * (ext_tuples / N)) (nm_sess_tcp g) (fun _ => []) /\
  chain_rep N (N * (ext_tuples / N)) (nm_sess_udp g) (fun _ => []).

Lemma init_sessions_ok {V} ok fuel num_devs lcores macs size (init : V -> V) macg mapg datag cellg :
  1 < lcores -> lcores <= ext_tuples -> ext_tuples <= Z.of_nat fuel ->
  match init_sessions ok fuel num_devs lcores macs size init macg mapg datag cellg with
  | Some (Some g) => (forall i, 0 <= i < 10 -> ok i = true) /\
      nm_cfg g = nf_config_init num_devs macs macg /\ sessions_ready (lcores - 1) g mapg
  | Some None => exists i, 0 <= i < 10 /\ ok i = false
  | None => False
  end.
Proof.
  intros Hcores Hfew Hfuel. unfold init_sessions, nfos_map_allocate_t, nfos_vector_allocate_t, sessions_ready.
  change (num_avail_ext_tuples (nf_config_init num_devs macs macg)) with ext_tuples. cbv zeta.
  generalize (next_pow2 (2 * MAX_NUM_SESSIONS)). intros cap0.
  destruct (ok 0) eqn:E0; cbn [negb]; [|by exists 0]. destruct (ok 1) eqn:E1; cbn [negb]; [|by exists 1].
  destruct (ok 2) eqn:E2; cbn [negb]; [|by exists 2]. destruct (ok 3) eqn:E3; cbn [negb]; [|by exists 3].
  destruct (ok 4) eqn:E4; cbn [negb]; [|by exists 4]. destruct (ok 5) eqn:E5; cbn [negb]; [|by exists 5].
  pose proof (dchain_allocate_ok (ok 6) (ok 7) fuel (cellg 0) lcores ext_tuples Hcores ltac:(lia) ltac:(lia)) as H1.
  destruct (nfos_dchain_allocate_t (ok 6) (ok 7) _ _ _ _) as [[tcp|]|]; [| |done].
  2: { apply andb_false_iff in H1 as [E|E]; [by exists 6|by exists 7]. }
  pose proof (dchain_allocate_ok (ok 8) (ok 9) fuel (cellg 1) lcores ext_tuples Hcores ltac:(lia) ltac:(lia)) as H2.
  destruct (nfos_dchain_allocate_t (ok 8) (ok 9) _ _ _ _) as [[udp|]|]; [| |done].
  2: { apply andb_false_iff in H2 as [E|E]; [by exists 8|by exists 9]. }
  destruct H1 as [[E6 E7]%andb_true_iff Htcp], H2 as [[E8 E9]%andb_true_iff Hudp]. split.
  { intros i Hi.
    assert (i = 0 \/ i = 1 \/ i = 2 \/ i = 3 \/ i = 4 \/ i = 5 \/ i = 6 \/ i = 7 \/ i = 8 \/ i = 9) as Hor by lia.
    clear - Hor E0 E1 E2 E3 E4 E5 E6 E7 E8 E9. by destruct_or!; subst i. }
  split; [done|]. split; [by eexists|by split].
Qed.
