(* ===== verification/NatFwInit.v ===== *)
(** * Initialisation of the NAT

    nf_init of src/nf/fw-nat/main.c over NatInit.v: the configuration, the
    table of sessions and its index allocators, the handlers and what the
    framework is told about packet sets. *)

From stdpp Require Import gmap.
From S2P Require Import Prelude Ether Rlu Txn Vector NfosMap Links Dchain Interfaces PktSet DataPlane NfCommon.
From S2P Require Import Sessions NatFw FibInit NatInit.
Open Scope Z_scope.

Definition sess_data_null_init (_ : session_data_t) : session_data_t := SessionData 0 0 0.

(** What nf_init returns through its pointers. *)
Record nf_flags := NfFlags {
  validity_duration : Z;
  has_related_pkt_sets : bool;
  do_expiration : bool;
  has_pkt_sets : bool
}.
Definition nat_flags : nf_flags := NfFlags EXPIRATION_TIME false true true.

(** The results are those of [init_sessions]. *)
Definition nf_init (ok : Z -> bool) (fuel : nat) (num_devs lcores : Z) (macs mac_garbage : Z -> rte_ether_addr)
    (map_garbage : Z -> nfos_map_entry session) (data_garbage : Z -> session_data_t)
    (cell_garbage : Z -> Z -> nfos_dchain_cell)
    : option (option (nf_flags * nat_masters session_data_t)) :=
  match init_sessions ok fuel num_devs lcores macs 16 sess_data_null_init mac_garbage map_garbage data_garbage
          cell_garbage with
  | Some (Some g) => Some (Some (nat_flags, g))
  | Some None => Some None
  | None => None
  end.

(** The structures as the handlers use them, over the memories that hold the
    masters. *)
Definition nat_state {T} (g : nat_masters session_data_t) (mm : RluMem T (nfos_map_entry session))
    (md : RluMem T session_data_t) (mt mu : RluMem T nfos_dchain_cell) (khash : session -> Z) : nf_state T := {|
  cfg := nm_cfg g;
  session_map := {| map_entries := mm; map_key_size := mm_key_size (nm_session_map g);
                    map_capacity := mm_capacity (nm_session_map g); map_keys_eq := session_equal;
                    map_khash := khash |};
  session_data := {| elems := md; elem_size := m_elem_size (nm_session_data g);
                     capacity := m_capacity (nm_session_data g) |};
  sess_indexes_tcp := mt;
  sess_indexes_udp := mu
|}.

(** The handlers that nf_init registers, by the class nf_pkt_dispatcher gives
    a packet. *)
Definition nat_handlers {T B : Type} `{PacketIo B} (st : nf_state T) (num_cores core now pkt_class : Z)
    (incoming_dev local_state : Z) : M (nf_mem (pkt_t B) pkt_set_id_t Z * T) nat_result :=
  if pkt_class =? 0 then pkt_handler st num_cores core now incoming_dev local_state
  else wan_handler incoming_dev.

(** ** What the handlers start with *)

Lemma nat_rep_empty {T} `{RluTxn T} (st : nf_state T) (N : Z) (t : T) :
  map_rep (session_map st) t ∅ ->
  (forall p, dchain_set (sess_indexes st p) N (N * (num_avail_ext_tuples (cfg st) / N)) t ∅) ->
  nat_rep st N t ∅.
Proof.
  intros Hm Hs. exists (fun _ => ∅), (view (elems (session_data st)) t). split.
  - split; [done|by intros i|done].
  - split; [apply index_table_empty|done].
Qed.

(** What nf_init promises its handlers for [N] cores, over any memories that
    hold what it has written. *)
Definition nat_ready (N : Z) (g : nat_masters session_data_t) : Prop :=
  config_ok (nm_cfg g) /\ wan_device (nm_cfg g) = WAN_DEVICE /\
  forall T (H : RluTxn T) (mm : RluMem T (nfos_map_entry session)) (md : RluMem T session_data_t)
    (mt mu : RluMem T nfos_dchain_cell) khash (t : T),
  (forall i, view mm t i = mm_entries (nm_session_map g) i) ->
  (forall i, view mt t i = nm_sess_tcp g i) -> (forall i, view mu t i = nm_sess_udp g i) ->
  nat_rep (nat_state g mm md mt mu khash) N t ∅.

(** Nf_init of the NAT terminates; it fails only when memory cannot be
    had; otherwise flows expire and are packet sets, the configuration is one
    under which sessions and external addresses correspond, and the handlers
    start with no session and with every external address and port free that
    can be shared out evenly. *)
Theorem nat_nf_init_spec (ok : Z -> bool) (fuel : nat) (num_devs lcores : Z) (macs macg : Z -> rte_ether_addr)
    (mapg : Z -> nfos_map_entry session) (datag : Z -> session_data_t) (cellg : Z -> Z -> nfos_dchain_cell)
    (Hcores : 1 < lcores) (Hfew : lcores <= ext_tuples) (Hfuel : ext_tuples <= Z.of_nat fuel) :
  match nf_init ok fuel num_devs lcores macs macg mapg datag cellg with
  | Some (Some (f, g)) => (forall i, 0 <= i < 10 -> ok i = true) /\
      do_expiration f = true /\ has_pkt_sets f = true /\ nat_ready (lcores - 1) g /\
      forall i, 0 <= i < num_devs -> device_macs (nm_cfg g) i = macs i
  | Some None => exists i, 0 <= i < 10 /\ ok i = false
  | None => False
  end.
Proof.
  pose proof (init_sessions_ok ok fuel num_devs lcores macs 16 sess_data_null_init macg mapg datag cellg
    Hcores Hfew Hfuel) as H.
  unfold nf_init. destruct (init_sessions _ _ _ _ _ _ _ _ _ _ _) as [[[c sm sd tcp udp]|]|]; [|done|done].
  destruct H as (Hok & Hcfg & [cap Hmap] & Htcp & Hudp). cbn in Hcfg, Hmap, Htcp, Hudp. subst c sm.
  split; [done|]. split; [done|]. split; [done|]. split.
  - split; [apply nat_config_ok|]. split; [done|]. intros T HT mm md mt mu khash t Hr1 Hr2 Hr3. cbn in Hr1, Hr2, Hr3.
    apply nat_rep_empty; [by apply (masters_map _ t mapg)|]. intros p. unfold sess_indexes.
    destruct (p =? PROTO_TCP); [apply (masters_dchain _ _ _ tcp)|apply (masters_dchain _ _ _ udp)]; (lia || done).
  - intros i Hi. by apply fill_macs_spec.
Qed.
