(* ===== verification/Firewall.v ===== *)
(** * The firewall

    src/nf/fw/main.c and tcp-state.h.  A packet set is a flow, named by its
    internal and external end; its state is the internal device and the TCP
    flags seen from both sides.  Packets from outside are sent to the flow's
    internal device, packets from inside where the forwarding table of their
    device leads; only packets from inside open a flow. *)

From stdpp Require Import gmap.
From S2P Require Import Prelude Ether Rlu Txn Vector NfosMap Links ConcDchain.
From S2P Require Import ConcMap PktSet DataPlane NfCommon Mtrie LoadBalance FibInit.
Open Scope Z_scope.

(** fw_config.h *)
Definition MAX_NUM_FLOWS : Z := 2097152.
Definition EXPIRATION_TIME : Z := 1200000.

Definition PROTOCOL_TCP : Z := 6.

(** The two bytes of the union. *)
Record tcp_flag_t := TcpFlag { as_u8_0 : Z; as_u8_1 : Z }.
Record pkt_set_state_t := FwState { internal_device : Z; tcp_flag : tcp_flag_t }.

Definition pkt_set_state_allocate : pkt_set_state_t := FwState 0 (TcpFlag 0 0).

Definition track_session (is_input : bool) (flag : tcp_flag_t) (tcp_flag : Z) : tcp_flag_t :=
  let old_flags := if is_input then as_u8_1 flag else as_u8_0 flag in
  let new_flags := Z.lor old_flags tcp_flag in
  let v := if negb (old_flags =? new_flags) then new_flags else old_flags in
  if is_input then TcpFlag (as_u8_0 flag) v else TcpFlag v (as_u8_1 flag).

Record nf_config := FwConfig {
  wan_device : Z;
  max_num_flows : Z;
  expiration_time : Z;
  device_macs : Z -> rte_ether_addr;
  endpoint_macs : Z -> rte_ether_addr;
  lb_pool_capacity : Z;
  ip4_ply_pool_capacity : Z;
  n_fib_table : Z
}.

(** ** Initialisation *)

(** [None]: an assertion fails, or memory cannot be had ([ok n] for the n-th
    allocation that is checked) and the code goes on to read through NULL.
    [shl32]: see Mtrie.v. *)
Definition nf_init (ok : Z -> bool) (fuel : nat) (shl32 num_devs : Z) (macs : Z -> rte_ether_addr)
    (lb_alloc lb_uninit : Z -> load_balance_t) (fib_alloc fib_uninit : Z -> ip4_fib_t)
    (ply_alloc ply_uninit : Z -> ip4_fib_mtrie_8_ply_t) (garbage : Z -> dpo_t) (mac_garbage : Z -> rte_ether_addr)
    : option (nf_config * fw_tables) :=
  if negb (ok 0) then None
  else if negb (ok 1) then None
  else
    let dm := fill_macs num_devs macs mac_garbage in
    option_map (pair (FwConfig WAN_DEVICE MAX_NUM_FLOWS EXPIRATION_TIME dm.1 dm.2
                        LB_CAPACITY IP4_PLY_POOL_CAPACITY N_FIB_TABLE))
      (fw_init_tables (fun i => ok (2 + i)) fuel shl32 lb_alloc lb_uninit fib_alloc fib_uninit ply_alloc
         ply_uninit garbage).

(** ** Packets *)

(** The state of the NF and the pools of load-balance.c, fib_table.c and
    mtrie.c; handlers read the tables' master copies and the elements of the
    other pools. *)
Record nf_state (T : Type) := FwNfState {
  cfg : nf_config;
  ip4_fibs : Z -> ip4_fib_t;
  ply_pool_vec : NfosVector T ip4_fib_mtrie_8_ply_t;
  lb_pool_vec : NfosVector T load_balance_t
}.
Arguments FwNfState {T} _ _ _ _.
Arguments cfg {T} _.
Arguments ip4_fibs {T} _.
Arguments ply_pool_vec {T} _.
Arguments lb_pool_vec {T} _.

(** Whether a handler returns 0 or fails an assertion. *)
Inductive fw_result := Returned | AssertionFailed.

Section firewall.
Context {T B : Type} `{PacketIo B} (st : nf_state T).
Abbreviation mem := (nf_mem (pkt_t B) pkt_set_id_t pkt_set_state_t).

Definition nf_pkt_dispatcher (pkt : pkt_t B) (incoming_dev : Z) : Z * pkt_set_id_t * bool :=
  (0, if negb (incoming_dev =? wan_device (cfg st)) then
        FlowId (src_port (tcpudp pkt)) (dst_port (tcpudp pkt)) (src_addr (ipv4 pkt)) (dst_addr (ipv4 pkt))
          (next_proto_id (ipv4 pkt))
      else
        FlowId (dst_port (tcpudp pkt)) (src_port (tcpudp pkt)) (dst_addr (ipv4 pkt)) (src_addr (ipv4 pkt))
          (next_proto_id (ipv4 pkt)), true).

(** drop_pkt does not leave the handler. *)
Definition drop_expired_ttl : M (mem * T) unit :=
  let! ttl := on_nf_mem (fun m => (time_to_live (ipv4 (nf_packet m)), m)) in
  if ttl <=? 1 then drop_pkt else ret tt.

(** What pkt_handler does to *local_state. *)
Definition track (incoming_dev : Z) (pkt : pkt_t B) (local_state : pkt_set_state_t) : pkt_set_state_t :=
  if next_proto_id (ipv4 pkt) =? PROTOCOL_TCP then
    let tcp_flags := default (fun _ => 0) (payload pkt) 13 in
    FwState (internal_device local_state)
      (track_session (negb (incoming_dev =? wan_device (cfg st))) (tcp_flag local_state) tcp_flags)
  else local_state.

Definition set_macs (s_addr d_addr : rte_ether_addr) : M (mem * T) unit :=
  on_nf_mem (fun m => (tt, set_packet (set_ether_header (Ether d_addr s_addr) (nf_packet m)) m)).

(** The rest of pkt_handler. *)
Definition forward (incoming_dev : Z) (local_state : pkt_set_state_t) : M (mem * T) fw_result :=
  if incoming_dev =? wan_device (cfg st) then
    let dst_dev := internal_device local_state in
    set_macs (device_macs (cfg st) dst_dev) (endpoint_macs (cfg st) dst_dev) ;;
    send_pkt dst_dev ;;
    ret Returned
  else
    let! le_dst_addr := on_nf_mem (fun m => (bswap32 (dst_addr (ipv4 (nf_packet m))), m)) in
    let! lb0 := on_txn (fib_lookup (ip4_fibs st) (ply_pool_vec st) (lb_pool_vec st) incoming_dev le_dst_addr) in
    match load_balance_get_bucket_i lb0 0 with
    | None => ret AssertionFailed
    | Some dpo0 =>
        (if action dpo0 =? DROP then drop_pkt else ret tt) ;;
        (if action dpo0 =? FORWARD then
           let dst_dev := send_device dpo0 in
           set_macs (device_macs (cfg st) dst_dev) (dst_mac_address dpo0) ;;
           send_pkt dst_dev
         else ret tt) ;;
        ret Returned
    end.

(** [local_state]: the index of the packet set whose state is passed. *)
Definition pkt_handler (incoming_dev local_state : Z) : M (mem * T) fw_result :=
  drop_expired_ttl ;;
  on_nf_mem (fun m => (tt, set_manager (write_state local_state
      (track incoming_dev (nf_packet m) (pkt_set_state (nf_manager m) local_state)) (nf_manager m)) m)) ;;
  let! s := on_nf_mem (fun m => (pkt_set_state (nf_manager m) local_state, m)) in
  forward incoming_dev s.

(** The handler is given a local variable, after add_pkt_set has copied it. *)
Definition nf_unknown_pkt_set_handler (num_cores core pkt_set_partition incoming_dev : Z)
    (pkt_set_id : pkt_set_id_t) : M (mem * T) fw_result :=
  if incoming_dev =? wan_device (cfg st) then drop_pkt ;; ret Returned
  else
    let local_state := FwState incoming_dev (TcpFlag 0 0) in
    let! _ := add_pkt_set num_cores core pkt_set_partition pkt_set_id local_state None in
    drop_expired_ttl ;;
    let! local_state := on_nf_mem (fun m => (track incoming_dev (nf_packet m) local_state, m)) in
    forward incoming_dev local_state.

Definition nf_expired_pkt_set_handler : M (Z * T) unit := ret tt.
End firewall.

(** ** Initialisation *)

(** ** Handlers *)

Section spec.
Context {T B : Type} `{!PacketIo B, !PacketIoLaws B} (st : nf_state T).
Abbreviation mem := (nf_mem (pkt_t B) pkt_set_id_t pkt_set_state_t).

(** The transaction reads the tables that initialisation made. *)
Record reads_tables (tb : fw_tables) (t : T) : Prop := {
  rt_wan : wan_device (cfg st) = WAN_DEVICE;
  rt_fibs : ip4_fibs st = ft_fibs tb;
  rt_plies i : view (elems (ply_pool_vec st)) t i = ip4_ply_pool (ft_plies tb) i;
  rt_lbs i : view (elems (lb_pool_vec st)) t i = load_balance_pool (ft_lbs tb) i
}.

Lemma fw_lookup tb t dev x :
  tables_ready tb -> reads_tables tb t -> dev = LAN_DEVICE \/ dev = WAN_DEVICE -> 0 <= x < 2 ^ 32 ->
  exists lb, fib_lookup (ip4_fibs st) (ply_pool_vec st) (lb_pool_vec st) dev x t = (Some lb, t) /\
    load_balance_get_bucket_i lb 0 = Some (fw_decision x).
Proof.
  intros Hr [_ Hf Hp Hl] Hd Hx. rewrite fib_lookup_run. eexists. split; [done|].
  rewrite Hl, Hf, (mtrie_lookup_ext _ _ _ x Hp). by apply Hr.
Qed.

(** Where a packet of a flow in state [s] goes. *)
Definition fw_addressed (dev : Z) (s : pkt_set_state_t) (m : mem) : mem :=
  let pkt := nf_packet m in
  if dev =? WAN_DEVICE then
    let d := internal_device s in
    set_dst_device d (set_packet (set_ether_header
      (Ether (endpoint_macs (cfg st) d) (device_macs (cfg st) d)) pkt) m)
  else if bswap32 (dst_addr (ipv4 pkt)) =? 0 then m
  else
    set_dst_device WAN_DEVICE (set_packet (set_ether_header
      (Ether (dst_mac_address forward_dpo) (device_macs (cfg st) WAN_DEVICE)) pkt) m).

Lemma forward_run tb t dev s (m : mem) :
  tables_ready tb -> reads_tables tb t -> dev = LAN_DEVICE \/ dev = WAN_DEVICE ->
  0 <= dst_addr (ipv4 (nf_packet m)) < 2 ^ 32 ->
  forward st dev s (m, t) = (Some Returned, (fw_addressed dev s m, t)).
Proof.
  intros Hr Ht Hd Hx. pose proof Ht as [Hwan _ _ _]. unfold forward, fw_addressed. rewrite Hwan.
  destruct (Z.eqb_spec dev WAN_DEVICE) as [->|Hne]; [done|].
  destruct (fw_lookup tb t dev (bswap32 (dst_addr (ipv4 (nf_packet m)))) Hr Ht Hd) as (lb & E & Eb);
    [by apply bswap32_range|].
  unfold bind at 1. cbn [on_nf_mem]. unfold bind at 1, on_txn. rewrite E, Eb. unfold fw_decision.
  destruct (Z.eqb_spec (bswap32 (dst_addr (ipv4 (nf_packet m)))) 0) as [_|_]; reflexivity.
Qed.

Lemma drop_expired_ttl_run (m : mem) (t : T) : drop_expired_ttl (m, t) = (Some tt, (m, t)).
Proof. unfold drop_expired_ttl, bind. cbn. by destruct (_ <=? _). Qed.

(** Whatever the tables, the handlers do this to the packet sets. *)
Lemma forward_manager dev s (m : mem) t r m' t' :
  forward st dev s (m, t) = (r, (m', t')) -> nf_manager m' = nf_manager m.
Proof.
  unfold forward. destruct (dev =? _); [by intros [= _ <- _]|].
  unfold bind at 1. cbn [on_nf_mem]. unfold bind at 1, on_txn. rewrite fib_lookup_run.
  destruct (load_balance_get_bucket_i _ 0) as [d|]; [|by intros [= _ <- _]].
  unfold bind. destruct (action d =? DROP), (action d =? FORWARD); cbn; by intros [= _ <- _].
Qed.

Lemma read_written ls (x : pkt_set_state_t) (g : pkt_set_manager pkt_set_id_t pkt_set_state_t) :
  pkt_set_state (write_state ls x g) ls = x.
Proof. unfold write_state. cbn. by rewrite fn_lookup_insert. Qed.

Lemma pkt_handler_run tb t dev ls (m : mem) :
  tables_ready tb -> reads_tables tb t -> dev = LAN_DEVICE \/ dev = WAN_DEVICE ->
  0 <= dst_addr (ipv4 (nf_packet m)) < 2 ^ 32 ->
  let s := track st dev (nf_packet m) (pkt_set_state (nf_manager m) ls) in
  pkt_handler st dev ls (m, t) =
  (Some Returned, (fw_addressed dev s (set_manager (write_state ls s (nf_manager m)) m), t)).
Proof.
  intros Hr Ht Hd Hx s. unfold pkt_handler. unfold bind at 1. rewrite drop_expired_ttl_run.
  unfold bind at 1. cbn [on_nf_mem]. unfold bind at 1. cbn [on_nf_mem nf_manager set_manager]. rewrite read_written. by apply (forward_run tb).
Qed.

Lemma unknown_run tb t N core p k (m : mem) :
  tables_ready tb -> reads_tables tb t -> 0 <= dst_addr (ipv4 (nf_packet m)) < 2 ^ 32 ->
  nf_unknown_pkt_set_handler st N core p LAN_DEVICE k (m, t) =
  (Some Returned, (fw_addressed LAN_DEVICE (FwState LAN_DEVICE (TcpFlag 0 0))
     (set_manager (add_pkt_set_log N core (FwState LAN_DEVICE (TcpFlag 0 0)) p None (nf_manager m)).2 m), t)).
Proof.
  intros Hr Ht Hx. unfold nf_unknown_pkt_set_handler. rewrite (rt_wan _ _ Ht). change (LAN_DEVICE =? WAN_DEVICE) with false.
  cbv iota zeta. unfold bind at 1, add_pkt_set. destruct (add_pkt_set_log _ _ _ _ _ _) as [r g].
  unfold bind at 1. rewrite drop_expired_ttl_run. unfold bind at 1. cbn [on_nf_mem].
  rewrite (forward_run tb); [|done|done|by left|done]. done.
Qed.
End spec.

(** ** In the data plane *)

Section data_plane.
Context {T B : Type} `{!PacketIo B} (st : nf_state T) (N core partition : Z).
Abbreviation mem := (nf_mem (pkt_t B) pkt_set_id_t pkt_set_state_t).

#[export] Instance fw_nf : NfHandlers B (pkt_t B) pkt_set_id_t pkt_set_state_t T := {|
  set_len := with_len;
  DataPlane.nf_pkt_parser b _ p := nf_pkt_parser true b p;
  DataPlane.nf_pkt_dispatcher p dev := nf_pkt_dispatcher st p dev;
  DataPlane.nf_unknown_pkt_set_handler dev k :=
    let! _ := nf_unknown_pkt_set_handler st N core partition dev k in ret tt
|}.

(** Every packet has a packet set: the handler is not called without a state.
    An assertion that fails ends the process; here the run just ends, so that
    what holds of all runs holds up to that point. *)
Definition fw_handlers (_ : Z) : pkt_handler_t (pkt_t B) pkt_set_id_t pkt_set_state_t T :=
  fun dev local_state _ =>
    match local_state with
    | Some ls => let! _ := pkt_handler st dev ls in ret tt
    | None => ret tt
    end.

Lemma handler_manager dev ls (m : mem) t r m' t' :
  pkt_handler st dev ls (m, t) = (r, (m', t')) ->
  nf_manager m' = write_state ls (track st dev (nf_packet m) (pkt_set_state (nf_manager m) ls)) (nf_manager m).
Proof.
  unfold pkt_handler. unfold bind at 1. rewrite drop_expired_ttl_run.
  unfold bind at 1. cbn [on_nf_mem]. unfold bind at 1. cbn [on_nf_mem].
  intros E. by apply forward_manager in E.
Qed.

(** A packet from outside goes to the flow's device or nowhere. *)
Lemma handler_wan ls (m : mem) t :
  snd (pkt_handler st (wan_device (cfg st)) ls (m, t)) =
  let s := track st (wan_device (cfg st)) (nf_packet m) (pkt_set_state (nf_manager m) ls) in
  let d := internal_device s in
  let pkt := nf_packet m in
  (set_dst_device d (set_packet (set_ether_header (Ether (endpoint_macs (cfg st) d) (device_macs (cfg st) d)) pkt)
     (set_manager (write_state ls s (nf_manager m)) m)), t).
Proof.
  unfold pkt_handler. unfold bind at 1. rewrite drop_expired_ttl_run. unfold bind at 1. cbn [on_nf_mem].
  unfold bind at 1. cbn [on_nf_mem]. unfold forward. rewrite Z.eqb_refl. cbn. by rewrite fn_lookup_insert.
Qed.

Lemma unknown_wan k (m : mem) t :
  nf_unknown_pkt_set_handler st N core partition (wan_device (cfg st)) k (m, t) = (Some Returned, (m, t)).
Proof. unfold nf_unknown_pkt_set_handler. by rewrite Z.eqb_refl. Qed.

Lemma unknown_manager dev k (m : mem) t r m' t' :
  nf_unknown_pkt_set_handler st N core partition dev k (m, t) = (r, (m', t')) ->
  nf_manager m' = nf_manager m \/ dev <> wan_device (cfg st) /\
  nf_manager m' = (add_pkt_set_log N core (FwState dev (TcpFlag 0 0)) partition None (nf_manager m)).2.
Proof.
  unfold nf_unknown_pkt_set_handler. destruct (Z.eqb_spec dev (wan_device (cfg st))) as [_|Hne].
  { intros [= _ <- _]. by left. }
  cbv zeta. unfold bind at 1, add_pkt_set. destruct (add_pkt_set_log _ _ _ _ _ _) as [b g].
  unfold bind at 1. rewrite drop_expired_ttl_run. unfold bind at 1. cbn [on_nf_mem].
  intros E. apply forward_manager in E. by right.
Qed.

Lemma fw_contract : nf_contract N true fw_handlers core partition.
Proof.
  split.
  - by intros class dev k m t r m' t' [= _ <- _].
  - intros class dev i k m t r m' t' (a & E)%run_ret. apply handler_manager in E.
    right. eexists. split; [exact E|done].
  - intros dev k m t r m' t' (a & E)%run_ret. apply unknown_manager in E as [?|[_ ?]]; eauto.
Qed.
End data_plane.

(** Tracking keeps the internal device. *)
Lemma track_internal {T B} (st : nf_state T) dev (p : pkt_t B) s :
  internal_device (track st dev p s) = internal_device s.
Proof. unfold track. by destruct (_ =? _). Qed.

Lemma nf_init_ok (ok : Z -> bool) (f : nat) (shl32 num_devs : Z) (macs : Z -> rte_ether_addr)
    (lb_alloc lb_uninit : Z -> load_balance_t) (fib_alloc fib_uninit : Z -> ip4_fib_t)
    (ply_alloc ply_uninit : Z -> ip4_fib_mtrie_8_ply_t) (garbage : Z -> dpo_t) (mac_garbage : Z -> rte_ether_addr) :
  match nf_init ok (S (S f)) shl32 num_devs macs lb_alloc lb_uninit fib_alloc fib_uninit ply_alloc
          ply_uninit garbage mac_garbage with
  | Some (c, tb) => wan_device c = WAN_DEVICE /\ tables_ready tb /\
      forall i, 0 <= i < num_devs -> device_macs c i = macs i /\
        endpoint_macs c i = (Mac (u8 (1 + i)) 35 69 86 120 154)
  | None => exists i, 0 <= i < 8 /\ ok i = false
  end.
Proof.
  unfold nf_init. destruct (ok 0) eqn:E0; cbn [negb]; [|by exists 0].
  destruct (ok 1) eqn:E1; cbn [negb]; [|by exists 1]. cbv zeta.
  pose proof (fw_init_tables_ok (fun i => ok (2 + i)) f shl32 lb_alloc lb_uninit fib_alloc fib_uninit
    ply_alloc ply_uninit garbage) as Ht.
  destruct (fw_init_tables _ _ _ _ _ _ _ _ _ _) as [tb|]; cbn [option_map].
  - destruct Ht as [_ Ht]. split; [done|]. split; [exact Ht|]. intros i Hi. by apply fill_macs_spec.
  - destruct Ht as (i & Hi & E). exists (2 + i). split; [lia|done].
Qed.

(** ** Properties *)

(** Nf_init of the firewall: it fails only when memory cannot be had, and
    otherwise every address but 0.0.0.0 leads, in the forwarding tables of
    both devices, to the device outside; the plies and pool entries it
    configures are enough for its routes. *)
Theorem fw_nf_init_spec (ok : Z -> bool) (f : nat) (shl32 num_devs : Z) (macs : Z -> rte_ether_addr)
    (lb_alloc lb_uninit : Z -> load_balance_t) (fib_alloc fib_uninit : Z -> ip4_fib_t)
    (ply_alloc ply_uninit : Z -> ip4_fib_mtrie_8_ply_t) (garbage : Z -> dpo_t) (mac_garbage : Z -> rte_ether_addr) :
  match nf_init ok (S (S f)) shl32 num_devs macs lb_alloc lb_uninit fib_alloc fib_uninit ply_alloc
          ply_uninit garbage mac_garbage with
  | Some (c, tb) => wan_device c = WAN_DEVICE /\ tables_ready tb /\
      forall i, 0 <= i < num_devs -> device_macs c i = macs i /\
        endpoint_macs c i = (Mac (u8 (1 + i)) 35 69 86 120 154)
  | None => exists i, 0 <= i < 8 /\ ok i = false
  end.
Proof. by apply nf_init_ok. Qed.

(** The two directions of a flow have one packet set: a packet from
    inside and one from outside have the same id exactly when each is
    addressed to where the other comes from, with the same protocol. *)
Theorem fw_dispatch_reply {T B} `{!PacketIo B} (st : nf_state T) (p q : pkt_t B) (lan : Z)
    (Hlan : lan <> wan_device (cfg st)) :
  (nf_pkt_dispatcher st p lan).1.2 = (nf_pkt_dispatcher st q (wan_device (cfg st))).1.2 <->
  src_addr (ipv4 p) = dst_addr (ipv4 q) /\ dst_addr (ipv4 p) = src_addr (ipv4 q) /\
  src_port (tcpudp p) = dst_port (tcpudp q) /\ dst_port (tcpudp p) = src_port (tcpudp q) /\
  next_proto_id (ipv4 p) = next_proto_id (ipv4 q).
Proof.
  unfold nf_pkt_dispatcher. rewrite (proj2 (Z.eqb_neq _ _) Hlan), Z.eqb_refl. cbn. split.
  - intros [= -> -> -> -> ->]. auto.
  - by intros (-> & -> & -> & -> & ->).
Qed.

(** The firewall's handler of the packets of a known flow: it tracks the
    TCP flags of the packet's side in the flow's state and sends a packet
    from outside to the flow's internal device and one from inside to the
    device outside, unless it is addressed to 0.0.0.0, with new link-layer
    addresses; it never aborts. *)
Theorem fw_pkt_handler_spec {T B} `{!PacketIo B, !PacketIoLaws B} (st : nf_state T) (tb : fw_tables) (t : T)
    (dev ls : Z) (m : nf_mem (pkt_t B) pkt_set_id_t pkt_set_state_t)
    (Hready : tables_ready tb) (Ht : reads_tables st tb t) (Hdev : dev = LAN_DEVICE \/ dev = WAN_DEVICE)
    (Hdst : 0 <= dst_addr (ipv4 (nf_packet m)) < 2 ^ 32) :
  let s := track st dev (nf_packet m) (pkt_set_state (nf_manager m) ls) in
  pkt_handler st dev ls (m, t) =
  (Some Returned, (fw_addressed st dev s (set_manager (write_state ls s (nf_manager m)) m), t)).
Proof. by apply (pkt_handler_run st tb). Qed.

(** ** Witnesses *)

(** An NF with the tables [tb] and a transaction that reads them. *)
Definition fw_txn : Type := snap_txn ip4_fib_mtrie_8_ply_t * snap_txn load_balance_t.
Definition ex_fw_state (c : nf_config) (tb : fw_tables) : nf_state fw_txn :=
  FwNfState c (ft_fibs tb) {| elems := lens_mem (fst_lens self_lens); elem_size := 1288; capacity := 5 |}
    {| elems := lens_mem (snd_lens self_lens); elem_size := 16; capacity := 2 |}.
Definition ex_fw_txn (tb : fw_tables) : fw_txn :=
  (SnapTxn (ip4_ply_pool (ft_plies tb)) ∅ (fun _ => false),
   SnapTxn (load_balance_pool (ft_lbs tb)) ∅ (fun _ => false)).

Lemma ex_init : exists c tb, wan_device c = WAN_DEVICE /\ tables_ready tb /\
  nf_init (fun _ => true) 2 0 2 (fun i => Mac 2 0 0 0 0 i) (fun _ => LoadBalance 0 0 (fun _ => Dpo 0 0 0 no_mac))
    (fun _ => LoadBalance 0 0 (fun _ => Dpo 0 0 0 no_mac)) (fun _ => Fib (Ply16 (fun _ => 0) (fun _ => 0)) 0)
    (fun _ => Fib (Ply16 (fun _ => 0) (fun _ => 0)) 0) (fun _ => Ply8 (fun _ => 0) (fun _ => 0) 0 0)
    (fun _ => Ply8 (fun _ => 0) (fun _ => 0) 0 0) (fun _ => Dpo 0 0 0 no_mac) (fun _ => no_mac) = Some (c, tb).
Proof.
  match goal with
  | |- exists c tb, _ /\ _ /\ nf_init ?ok (S (S ?f)) ?sh ?n ?mm ?x1 ?x2 ?x3 ?x4 ?x5 ?x6 ?x7 ?x8 = _ =>
      pose proof (nf_init_ok ok f sh n mm x1 x2 x3 x4 x5 x6 x7 x8) as H
  end.
  match type of H with match ?x with _ => _ end => destruct x as [[c tb]|] eqn:E end.
  - destruct H as (Hw & Ht & _). exists c, tb. split; [exact Hw|]. split; [exact Ht|reflexivity].
  - by destruct H as (? & _ & ?).
Qed.

(** A TCP packet from 10.0.0.1:80 to 8.8.8.8:53 with flags SYN, and back. *)
Definition ex_frame_out : ex_frame :=
  ExFrame (Ether no_mac no_mac) (Some (Ipv4 0 64 6 16777226 134744072)) (Some (TcpUdp 20480 13568)) (fun _ => 2).
Definition ex_frame_in : ex_frame :=
  ExFrame (Ether no_mac no_mac) (Some (Ipv4 0 64 6 134744072 16777226)) (Some (TcpUdp 13568 20480)) (fun _ => 18).
Definition ex_packet (b : ex_frame) : pkt_t ex_frame :=
  (nf_pkt_parser true b (Pkt 60 (Ether no_mac no_mac) None None None b)).2.

(** Two cores, room for two packet sets each. *)
Definition ex_flow : pkt_set_id_t := FlowId 0 0 0 0 0.
Definition ex_fw_hash (k : pkt_set_id_t) : Z := id_src_port k.
Definition ex_no_log : Z -> add_pkt_set_log_entry_t pkt_set_id_t pkt_set_state_t :=
  fun _ => LogEntry false ex_flow (FwState 0 (TcpFlag 0 0)).
Definition ex_fw_memory : (Z -> concurrent_dchain_cell pkt_set_id_t) * (Z -> Z) * (Z -> pkt_set_state_t) :=
  (fun _ => ConcCell 0 0 0 0 ex_flow 0, fun _ => 0, fun _ => FwState 0 (TcpFlag 0 0)).
Definition ex_fw_manager : pkt_set_manager pkt_set_id_t pkt_set_state_t :=
  match init_pkt_set_manager 2 4 4 true true true ex_fw_memory ex_no_log 5 false with
  | Some (Some g) => g
  | _ => Manager (fun _ => ConcCell 0 0 0 0 ex_flow 0) (CMap (fun _ => 0) 0 0) (fun _ => FwState 0 (TcpFlag 0 0))
           0 false ex_no_log
  end.

Lemma ex_fw_rep : pkt_rep ex_fw_hash 2 4 ex_fw_manager (fun _ => []) /\
  has_related_pkt_sets ex_fw_manager = false.
Proof.
  destruct (init_spec ex_fw_hash 2 4 ltac:(lia) 4 ex_fw_memory ex_no_log 5 false) as (g & E & Hr & Hrel & _); [lia..|].
  unfold ex_fw_manager. by rewrite E.
Qed.

Definition ex_fw_mem (b : ex_frame) (dev : Z) : nf_mem (pkt_t ex_frame) pkt_set_id_t pkt_set_state_t :=
  NfMem (ex_packet b) dev ex_fw_manager.

Lemma ex_fw_reads c tb :
  wan_device c = WAN_DEVICE -> reads_tables (ex_fw_state c tb) tb (ex_fw_txn tb).
Proof. by split. Qed.

Lemma fw_dispatch_reply_witness :
  let st := FwNfState (FwConfig 1 0 0 (fun _ => no_mac) (fun _ => no_mac) 0 0 0) (fun _ => Fib (Ply16 (fun _ => 0) (fun _ => 0)) 0)
    {| elems := lens_mem (fst_lens self_lens); elem_size := 1288; capacity := 5 |}
    {| elems := lens_mem (snd_lens self_lens); elem_size := 16; capacity := 2 |} : nf_state fw_txn in
  let p := ex_packet ex_frame_out in
  let q := ex_packet ex_frame_in in
  (nf_pkt_dispatcher st p 0).1.2 = (nf_pkt_dispatcher st q (wan_device (cfg st))).1.2 <->
  src_addr (ipv4 p) = dst_addr (ipv4 q) /\ dst_addr (ipv4 p) = src_addr (ipv4 q) /\
  src_port (tcpudp p) = dst_port (tcpudp q) /\ dst_port (tcpudp p) = src_port (tcpudp q) /\
  next_proto_id (ipv4 p) = next_proto_id (ipv4 q).
Proof.
  intros st p q. apply (fw_dispatch_reply (B := ex_frame) st p q 0). by cbn.
Defined.

(** The first packet of the flow, after nf_init: the flags of the inside are
    recorded and the packet leaves through device 1. *)
Lemma fw_pkt_handler_spec_witness :
  exists c tb, let st := ex_fw_state c tb in let m := ex_fw_mem ex_frame_out 0 in
  let s := track st 0 (nf_packet m) (pkt_set_state (nf_manager m) 1) in
  pkt_handler st 0 1 (m, ex_fw_txn tb) =
    (Some Returned, (fw_addressed st 0 s (set_manager (write_state 1 s (nf_manager m)) m), ex_fw_txn tb)).
Proof.
  destruct ex_init as (c & tb & Hw & Ht & _). exists c, tb. intros st m.
  apply (fw_pkt_handler_spec (B := ex_frame) st tb (ex_fw_txn tb) 0 1 m Ht (ex_fw_reads c tb Hw)); [by left|by vm_compute].
Defined.

(** Tables that send everything outside. *)
Definition ex_outside : nf_state fw_txn :=
  ex_fw_state (FwConfig 1 0 0 (fun i => Mac 2 0 0 0 0 i) (fun _ => (Mac 1 35 69 86 120 154)) 2 5 2)
    (FwTables (LbPool (fun _ => LoadBalance 1 0 (fun _ => forward_dpo)) 2)
       (fun i => Fib (Ply16 (fun _ => 3) (fun _ => 0)) i) (Pool (fun _ => Ply8 (fun _ => 0) (fun _ => 0) 0 0) 0)).
Definition ex_outside_txn : fw_txn :=
  (SnapTxn (fun _ => Ply8 (fun _ => 0) (fun _ => 0) 0 0) ∅ (fun _ => false),
   SnapTxn (fun _ => LoadBalance 1 0 (fun _ => forward_dpo)) ∅ (fun _ => false)).
#[local] Instance ex_fw_runtime : RluRuntime Z fw_txn := {
  reader_lock w := (ex_outside_txn, w);
  reader_unlock _ w := (Z.odd w, w + 1);
  rlu_abort _ w := w
}.
Definition ex_fw_core : core_mem (pkt_t ex_frame) pkt_set_id_t pkt_set_state_t :=
  Core (ex_fw_mem ex_frame_out 9) (FwState 0 (TcpFlag 0 0)).

(** *** Where the code does not do what it means to *)

(** A packet whose time to live has run out is logged as dropped and sent. *)
Definition ex_old_frame : ex_frame :=
  ExFrame (Ether no_mac no_mac) (Some (Ipv4 0 1 6 16777226 134744072)) (Some (TcpUdp 20480 13568)) (fun _ => 2).
Lemma expired_ttl_forwarded :
  nf_dst_device (snd (pkt_handler ex_outside 0 1 (ex_fw_mem ex_old_frame 0, ex_outside_txn))).1 = 1.
Proof. vm_compute. reflexivity. Qed.

(** The state a new flow is registered with does not have the flags of the
    packet that opens it. *)
Lemma first_flags_lost :
  let m := (snd (nf_unknown_pkt_set_handler ex_outside 2 0 0 0 ex_flow (ex_fw_mem ex_frame_out 0, ex_outside_txn))).1 in
  track_session true (TcpFlag 0 0) 2 = TcpFlag 0 2 /\ tcp_flag (log_state (log_entry (nf_manager m) 0)) = TcpFlag 0 0.
Proof. vm_compute. auto. Qed.
