(* ===== verification/EiNat.v ===== *)
(** * The endpoint-independent NAT

    src/nf/ei-nat/main.c.  As in NatFw.v a connection from the private
    network has a session whose index stands for its external address and
    port; here no packet sets are used, the sessions of a user (an internal
    address) are also kept on a list, most recently refreshed first
    (SessList.v), static mappings (StaticMapping.v) have precedence over new
    sessions, and the forwarding table of the incoming device decides where a
    packet goes. *)

From stdpp Require Import gmap.
From S2P Require Import Prelude Ether Rlu Txn Vector NfosMap Links Dchain Interfaces PktSet DataPlane NfCommon Sessions.
From S2P Require Import VigMap SessList StaticMapping Mtrie LoadBalance FibInit NatInit.
Open Scope Z_scope.

(** nat_config.h *)
Definition MAX_NUM_USERS : Z := 8388608.
Definition MAX_NUM_SESSIONS_PER_USER : Z := 8388608.
Definition N_STATIC_MAPPINGS : Z := 1.
Definition EI_NAT_SECOND : Z := 3000000000.

Record session_data_t := SessionData {
  node : sess_list_node_t;
  last_used : Z;
  int_ip : Z;
  int_port : Z;
  user_index : Z
}.

Record user_data_t := UserData { sess_list_head : sess_list_node_t; num_sessions : Z }.

Definition set_node (n : sess_list_node_t) (d : session_data_t) : session_data_t :=
  SessionData n (last_used d) (int_ip d) (int_port d) (user_index d).
Definition set_last_used (v : Z) (d : session_data_t) : session_data_t :=
  SessionData (node d) v (int_ip d) (int_port d) (user_index d).
Definition set_addr (ip port : Z) (d : session_data_t) : session_data_t :=
  SessionData (node d) (last_used d) ip port (user_index d).
Definition set_user_index (v : Z) (d : session_data_t) : session_data_t :=
  SessionData (node d) (last_used d) (int_ip d) (int_port d) v.
Definition set_head (n : sess_list_node_t) (d : user_data_t) : user_data_t :=
  UserData n (num_sessions d).
Definition set_num_sessions (v : Z) (d : user_data_t) : user_data_t :=
  UserData (sess_list_head d) v.

Definition user_equal (u_a u_b : Z) : bool := u_a =? u_b.
Definition user_hash `{PacketIo B} (u_a : Z) : Z := crc32si 0 u_a.

(** memset of the vectors' elements. *)
Definition sess_data_null_init (_ : session_data_t) : session_data_t :=
  SessionData (SessNode 0 0) 0 0 0 0.
Definition user_data_null_init (_ : user_data_t) : user_data_t := UserData (SessNode 0 0) 0.

(** The state of the NF with the global variables of static_mapping.c,
    fib_table.c, mtrie.c and load-balance.c. *)
Record nf_state (T : Type) := EiState {
  cfg : nf_config;
  session_map : NfosMap T session;
  session_data : NfosVector T session_data_t;
  sess_indexes_tcp : RluMem T nfos_dchain_cell;
  sess_indexes_udp : RluMem T nfos_dchain_cell;
  user_map : NfosMap T Z;
  user_data : NfosVector T user_data_t;
  user_indexes : RluMem T nfos_dchain_cell;
  mapping_hash : Vig.Map Z;
  static_mappings : NfosVector T nat_static_mapping_t;
  ip4_fibs : Z -> ip4_fib_t;
  ply_pool_vec : NfosVector T ip4_fib_mtrie_8_ply_t;
  lb_pool_vec : NfosVector T load_balance_t
}.
Arguments cfg {T} _.
Arguments session_map {T} _.
Arguments session_data {T} _.
Arguments sess_indexes_tcp {T} _.
Arguments sess_indexes_udp {T} _.
Arguments user_map {T} _.
Arguments user_data {T} _.
Arguments user_indexes {T} _.
Arguments mapping_hash {T} _.
Arguments static_mappings {T} _.
Arguments ip4_fibs {T} _.
Arguments ply_pool_vec {T} _.
Arguments lb_pool_vec {T} _.

(** The return values of alloc_session and alloc_user other than
    ABORT_HANDLER, and a failed assertion, which ends the program. *)
Inductive alloc_result :=
| Allocated (index : Z)
| AllocFailed
| AssertFailed.

(** What the first half of pkt_handler finds for a packet: a session, a
    static mapping's address and port, or nothing (the packet is dropped). *)
Inductive session_result :=
| Session (sess_index : Z)
| Mapped (ext_ip ext_port : Z)
| NoSession
| SessionAssert.

(** Whether the handler returns 0 or fails an assertion. *)
Inductive ei_result := Returned | AssertionFailed.

Section ei_nat.
Context {T B : Type} `{PacketIo B} (st : nf_state T).
(** Cores, the core's number, and the time get_curr_time returns. *)
Variables (num_cores thread_id now : Z).

Definition sess_indexes (tcp : bool) : RluMem T nfos_dchain_cell :=
  if tcp then sess_indexes_tcp st else sess_indexes_udp st.

(** ** Users and sessions *)

Definition alloc_user (user_key : Z) : M T alloc_result :=
  let! r := nfos_dchain_allocate_new_index_t (user_indexes st) num_cores thread_id in
  match r with
  | None => ret AllocFailed
  | Some index =>
      let! p := nfos_vector_borrow_mut_t (user_data st) index in
      let! ret3 := nfos_map_put_t (user_map st) user_key index in
      if (ret3 : bool) then
        modify (elems (user_data st)) p (set_num_sessions 0) ;;
        modify (elems (user_data st)) p
          (fun d => set_head (set_next SESS_LIST_HEAD (sess_list_head d)) d) ;;
        modify (elems (user_data st)) p
          (fun d => set_head (set_prev SESS_LIST_HEAD (sess_list_head d)) d) ;;
        ret (Allocated index)
      else
        let! _ := nfos_dchain_free_index_t (user_indexes st) num_cores thread_id index in
        ret AllocFailed
  end.

Definition alloc_session (sess_key : session) : M T alloc_result :=
  let tcp := k_proto sess_key =? PROTO_TCP in
  let! r := nfos_dchain_allocate_new_index_t (sess_indexes tcp) num_cores thread_id in
  match r with
  | None => ret AssertFailed
  | Some index =>
      let index := i32 (index + index_base (cfg st) (k_proto sess_key)) in
      let! p := nfos_vector_borrow_mut_t (session_data st) index in
      let! ret3 := nfos_map_put_t (session_map st) sess_key index in
      if (ret3 : bool) then
        modify (elems (session_data st)) p (set_last_used now) ;;
        modify (elems (session_data st)) p (set_addr (k_src_addr sess_key) (k_src_port sess_key)) ;;
        ret (Allocated index)
      else
        let index := i32 (index - index_base (cfg st) (k_proto sess_key)) in
        let! _ := nfos_dchain_free_index_t (sess_indexes tcp) num_cores thread_id index in
        ret AllocFailed
  end.

Definition dealloc_session (sess_key : session) (sess_index : Z) : M T bool :=
  let tcp := k_proto sess_key =? PROTO_TCP in
  let! _ := nfos_vector_borrow_t (session_data st) sess_index in
  let sess_index := i32 (sess_index - index_base (cfg st) (k_proto sess_key)) in
  let! ret3 := nfos_dchain_free_index_t (sess_indexes tcp) num_cores thread_id sess_index in
  if (ret3 : bool) then nfos_map_erase_t (session_map st) sess_key else ret false.

(** *** The list of a user

    A pointer to a node points into the data of a session or, for
    SESS_LIST_HEAD, into those of the user. *)

Definition load_node (user_index i : Z) : M T sess_list_node_t :=
  if i =? SESS_LIST_HEAD then
    let! d := load (elems (user_data st)) user_index in ret (sess_list_head d)
  else
    let! d := load (elems (session_data st)) i in ret (node d).

Definition assign_sess (i : Z) (f : sess_list_node_t -> sess_list_node_t) : M T unit :=
  modify (elems (session_data st)) i (fun d => set_node (f (node d)) d).

Definition assign (user_index i : Z) (f : sess_list_node_t -> sess_list_node_t) : M T unit :=
  if i =? SESS_LIST_HEAD then
    modify (elems (user_data st)) user_index (fun d => set_head (f (sess_list_head d)) d)
  else assign_sess i f.

(** nfos_vector_borrow_mut of the data that hold the node. *)
Definition borrow_sess (i : Z) : M T unit :=
  let! _ := nfos_vector_borrow_mut_t (session_data st) i in ret tt.

Definition borrow_node (user_index i : Z) : M T unit :=
  if i =? SESS_LIST_HEAD then
    let! _ := nfos_vector_borrow_mut_t (user_data st) user_index in ret tt
  else borrow_sess i.

(** "Insert it to the session chain of the user"; [false]: the assertion on
    the number of sessions fails.  An empty list's head is its own neighbour
    and has been borrowed already. *)
Definition insert_session (sess_index user_index : Z) : M T bool :=
  borrow_node user_index SESS_LIST_HEAD ;;
  let! head := load_node user_index SESS_LIST_HEAD in
  let head_next := n_next head in
  (if negb (head_next =? SESS_LIST_HEAD) then borrow_node user_index head_next else ret tt) ;;
  borrow_node user_index sess_index ;;
  assign user_index sess_index (set_next head_next) ;;
  assign user_index sess_index (set_prev SESS_LIST_HEAD) ;;
  assign user_index head_next (set_prev sess_index) ;;
  assign user_index SESS_LIST_HEAD (set_next sess_index) ;;
  modify (elems (user_data st)) user_index
    (fun d => set_num_sessions (i32 (num_sessions d + 1)) d) ;;
  let! d := load (elems (user_data st)) user_index in
  if num_sessions d >=? MAX_NUM_SESSIONS_PER_USER then ret false
  else
    modify (elems (session_data st)) sess_index (set_user_index user_index) ;;
    ret true.

(** "Bring the session to the head of the list"; the head's next node is taken
    for a session's. *)
Definition move_to_front (sess_index user_index : Z) : M T unit :=
  let! sess := load_node user_index sess_index in
  if negb (n_prev sess =? SESS_LIST_HEAD) then
    borrow_node user_index (n_prev sess) ;;
    borrow_node user_index (n_next sess) ;;
    assign user_index (n_prev sess) (set_next (n_next sess)) ;;
    assign user_index (n_next sess) (set_prev (n_prev sess)) ;;
    borrow_node user_index SESS_LIST_HEAD ;;
    let! head := load_node user_index SESS_LIST_HEAD in
    let head_next := n_next head in
    borrow_sess head_next ;;
    assign user_index sess_index (set_next head_next) ;;
    assign user_index sess_index (set_prev SESS_LIST_HEAD) ;;
    assign user_index SESS_LIST_HEAD (set_next sess_index) ;;
    assign_sess head_next (set_prev sess_index)
  else ret tt.

(** "Refresh the session if last refreshed 1 sec ago". *)
Definition refresh (sess_index : Z) : M T unit :=
  let! sess_data := nfos_vector_borrow_t (session_data st) sess_index in
  if now >? i64 (last_used sess_data + EI_NAT_SECOND) then
    let user_index := user_index sess_data in
    let! p := nfos_vector_borrow_mut_t (session_data st) sess_index in
    modify (elems (session_data st)) p (set_last_used now) ;;
    move_to_front sess_index user_index
  else ret tt.

(** The user of an internal address, allocated if new. *)
Definition get_user (user_key : Z) : M T alloc_result :=
  let! found := nfos_map_get_t (user_map st) user_key in
  match found with
  | Some user_index => ret (Allocated user_index)
  | None => alloc_user user_key
  end.

(** A new session on the list of its user. *)
Definition new_session (key : session) : M T session_result :=
  let! s := alloc_session key in
  match s with
  | AssertFailed => ret SessionAssert
  | AllocFailed => ret NoSession
  | Allocated sess_index =>
      let! u := get_user (k_src_addr key) in
      match u with
      | Allocated user_index =>
          let! inserted := insert_session sess_index user_index in
          ret (if (inserted : bool) then Session sess_index else SessionAssert)
      | _ => ret NoSession
      end
  end.

(** The middle of pkt_handler, up to the packet's new source. *)
Definition get_session (key : session) : M T session_result :=
  let! found := nfos_map_get_t (session_map st) key in
  let! s :=
    match found with
    | Some sess_index => ret (Session sess_index)
    | None =>
        let! m := nat_static_mapping_match (mapping_hash st) (static_mappings st) (k_src_addr key)
                    (k_src_port key) LAN_DEVICE (k_proto key) in
        match m with
        | Some (ext_ip, ext_port, _) => ret (Mapped ext_ip ext_port)
        | None => new_session key
        end
    end in
  match s with
  | Session sess_index => refresh sess_index ;; ret s
  | s => ret s
  end.

(** ** Packets: no NF state is kept per packet set *)

Abbreviation mem := (nf_mem (pkt_t B) pkt_set_id_t unit).

Definition set_macs (s_addr d_addr : rte_ether_addr) : M (mem * T) unit :=
  on_nf_mem (fun m => (tt, set_packet (set_ether_header (Ether d_addr s_addr) (nf_packet m)) m)).

Definition nat_pkt_action (ip port incoming_dev : Z) : M (mem * T) ei_result :=
  if incoming_dev =? wan_device (cfg st) then ret AssertionFailed
  else
    on_nf_mem (fun m =>
      let pkt := nf_packet m in
      let pkt := set_tcpudp_header (TcpUdp port (dst_port (tcpudp pkt))) pkt in
      let pkt := set_ipv4_header (set_src_addr ip (ipv4 pkt)) pkt in
      (tt, set_packet (nf_set_ipv4_udptcp_checksum pkt) m)) ;;
    let! le_dst_addr := on_nf_mem (fun m => (bswap32 (dst_addr (ipv4 (nf_packet m))), m)) in
    let! lb0 := on_txn (fib_lookup (ip4_fibs st) (ply_pool_vec st) (lb_pool_vec st) incoming_dev le_dst_addr) in
    match load_balance_get_bucket_i lb0 0 with
    | None => ret AssertionFailed
    | Some dpo0 =>
        (if action dpo0 =? DROP then drop_pkt
         else if action dpo0 =? FORWARD then
           let dst_dev := send_device dpo0 in
           set_macs (device_macs (cfg st) dst_dev) (dst_mac_address dpo0) ;;
           send_pkt dst_dev
         else ret tt) ;;
        ret Returned
    end.

Definition session_of (pkt : pkt_t B) : session :=
  SessionKey (src_addr (ipv4 pkt)) (src_port (tcpudp pkt)) (next_proto_id (ipv4 pkt)).

(** drop_pkt does not leave the handler. *)
Definition drop_expired_ttl : M (mem * T) unit :=
  let! ttl := on_nf_mem (fun m => (time_to_live (ipv4 (nf_packet m)), m)) in
  if ttl <=? 1 then drop_pkt else ret tt.

Definition pkt_handler (incoming_dev : Z) : M (mem * T) ei_result :=
  drop_expired_ttl ;;
  if incoming_dev =? wan_device (cfg st) then ret AssertionFailed
  else
    let! key := on_nf_mem (fun m => (session_of (nf_packet m), m)) in
    let! s := on_txn (get_session key) in
    match s with
    | Session sess_index =>
        let (ext_ip, ext_port) := sess_id_to_ext_tuple (cfg st) sess_index (k_proto key) in
        nat_pkt_action ext_ip ext_port incoming_dev
    | Mapped ext_ip ext_port => nat_pkt_action ext_ip ext_port incoming_dev
    | NoSession => drop_pkt ;; ret Returned
    | SessionAssert => ret AssertionFailed
    end.

Definition nf_pkt_dispatcher (uninit : pkt_set_id_t) : Z * pkt_set_id_t * bool := (0, uninit, false).

End ei_nat.

(** ** Initialisation *)

(** The master copies of the structures; the keys of both maps have the size
    of a session. *)
Record ei_masters := EiMasters {
  ms_cfg : nf_config;
  ms_session_map : map_masters session;
  ms_session_data : vector_masters session_data_t;
  ms_sess_tcp : Z -> nfos_dchain_cell;
  ms_sess_udp : Z -> nfos_dchain_cell;
  ms_user_map : map_masters Z;
  ms_user_data : vector_masters user_data_t;
  ms_users : Z -> nfos_dchain_cell;
  ms_tables : fw_tables;
  ms_mappings : Z -> nat_static_mapping_t;
  ms_mapping_hash : Vig.Map Z
}.

(** What the allocators return, before it is initialised. *)
Record ei_garbage := EiGarbage {
  gb_sess : Z -> nfos_map_entry session;
  gb_data : Z -> session_data_t;
  gb_cells : Z -> Z -> nfos_dchain_cell;
  gb_users : Z -> nfos_map_entry Z;
  gb_udata : Z -> user_data_t;
  gb_lbs : Z -> load_balance_t;
  gb_dpos : Z -> dpo_t;
  gb_fibs : Z -> ip4_fib_t;
  gb_plies : Z -> ip4_fib_mtrie_8_ply_t;
  gb_mappings : Z -> nat_static_mapping_t;
  gb_hash : Vig.Map Z;
  gb_macs : Z -> rte_ether_addr
}.

(** The second half of nf_init: the users, the forwarding tables and the
    static mappings. *)
Definition init_users (ok : Z -> bool) (fuel : nat) (shl32 lcores : Z) (gb : ei_garbage)
    (k : map_masters Z -> vector_masters user_data_t -> (Z -> nfos_dchain_cell) -> fw_tables ->
         (Z -> nat_static_mapping_t) -> Vig.Map Z -> ei_masters) : option (option ei_masters) :=
  match nfos_map_allocate_t (ok 10) (ok 11) (gb_users gb) 8 (2 * MAX_NUM_USERS),
        nfos_vector_allocate_t (ok 12) (ok 13) (gb_udata gb) (gb_udata gb) 12 MAX_NUM_USERS user_data_null_init with
  | Some um, Some ud =>
      match nfos_dchain_allocate_t (ok 14) (ok 15) fuel (gb_cells gb 2) lcores MAX_NUM_USERS with
      | None => None
      | Some None => Some None
      | Some (Some us) =>
          match fw_init_tables (fun i => ok (16 + i)) fuel shl32 (gb_lbs gb) (gb_lbs gb) (gb_fibs gb)
                  (gb_fibs gb) (gb_plies gb) (gb_plies gb) (gb_dpos gb),
                nat_static_mapping_init (fun i => ok (22 + Z.of_nat i)) (gb_mappings gb) (gb_mappings gb)
                  (gb_hash gb) N_STATIC_MAPPINGS with
          | Some tb, Some (mp, h) => Some (Some (k um ud us tb mp h))
          | _, _ => Some None
          end
      end
  | _, _ => Some None
  end.

(** [Some None]: memory cannot be had ([ok n] for the n-th allocation that is
    checked) and the code goes on to write through NULL; [None]: a loop does
    not end within its fuel. *)
Definition nf_init (ok : Z -> bool) (fuel : nat) (shl32 num_devs lcores : Z) (macs : Z -> rte_ether_addr)
    (gb : ei_garbage) : option (option ei_masters) :=
  match init_sessions ok fuel num_devs lcores macs 32 sess_data_null_init (gb_macs gb) (gb_sess gb) (gb_data gb)
          (gb_cells gb) with
  | None => None
  | Some None => Some None
  | Some (Some g) =>
      init_users ok fuel shl32 lcores gb
        (EiMasters (nm_cfg g) (nm_session_map g) (nm_session_data g) (nm_sess_tcp g) (nm_sess_udp g))
  end.

(** The structures as the handlers use them, over the memories that hold the
    masters. *)
Definition ei_state {T} (g : ei_masters) (mm : RluMem T (nfos_map_entry session)) (md : RluMem T session_data_t)
    (mt mu : RluMem T nfos_dchain_cell) (um : RluMem T (nfos_map_entry Z)) (ud : RluMem T user_data_t)
    (us : RluMem T nfos_dchain_cell) (khash : session -> Z) (uhash : Z -> Z)
    (mappings : NfosVector T nat_static_mapping_t) (plies : NfosVector T ip4_fib_mtrie_8_ply_t)
    (lbs : NfosVector T load_balance_t) : nf_state T := {|
  cfg := ms_cfg g;
  session_map := {| map_entries := mm; map_key_size := mm_key_size (ms_session_map g);
                    map_capacity := mm_capacity (ms_session_map g); map_keys_eq := session_equal;
                    map_khash := khash |};
  session_data := {| elems := md; elem_size := m_elem_size (ms_session_data g);
                     capacity := m_capacity (ms_session_data g) |};
  sess_indexes_tcp := mt;
  sess_indexes_udp := mu;
  user_map := {| map_entries := um; map_key_size := mm_key_size (ms_user_map g);
                 map_capacity := mm_capacity (ms_user_map g); map_keys_eq := user_equal;
                 map_khash := uhash |};
  user_data := {| elems := ud; elem_size := m_elem_size (ms_user_data g); capacity := m_capacity (ms_user_data g) |};
  user_indexes := us;
  mapping_hash := ms_mapping_hash g;
  static_mappings := mappings;
  ip4_fibs := ft_fibs (ms_tables g);
  ply_pool_vec := plies;
  lb_pool_vec := lbs
|}.

(** ** What the structures hold *)

(** The structures of the NAT: objects of different arrays. *)
Inductive ei_part := SessMap | SessData | SessIndexes (tcp : bool) | UserMap | UserDat | UserIndexes.
#[export] Instance ei_part_eq_dec : EqDecision ei_part.
Proof. solve_decision. Defined.

Definition ei_obj (p : ei_part) : Type :=
  match p with
  | SessMap => nfos_map_entry session
  | SessData => session_data_t
  | SessIndexes _ | UserIndexes => nfos_dchain_cell
  | UserMap => nfos_map_entry Z
  | UserDat => user_data_t
  end.

Definition ei_mem {T} (st : nf_state T) (p : ei_part) : RluMem T (ei_obj p) :=
  match p with
  | SessMap => map_entries (session_map st)
  | SessData => elems (session_data st)
  | SessIndexes tcp => sess_indexes st tcp
  | UserMap => map_entries (user_map st)
  | UserDat => elems (user_data st)
  | UserIndexes => user_indexes st
  end.

Class EiLaws {T} `{RluTxn T} (st : nf_state T) : Prop := {
  ei_laws p : RluLaws (ei_mem st p);
  ei_indep p q : p <> q -> RluIndep (ei_mem st p) (ei_mem st q);
  (* what the handlers only read *)
  ei_mappings p : RluIndep (ei_mem st p) (elems (static_mappings st));
  ei_plies p : RluIndep (ei_mem st p) (elems (ply_pool_vec st));
  ei_lbs p : RluIndep (ei_mem st p) (elems (lb_pool_vec st))
}.

Section spec.
Context {T : Type} `{RluTxn T} (st : nf_state T) `{!EiLaws st}.
Context `{!MapConfig (session_map st), !MapConfig (user_map st)}.
Variables (N core now users : Z).
Hypothesis (Hcore : 0 <= core < N).
Let num : Z := num_avail_ext_tuples (cfg st).
(** The indexes each allocator of sessions hands out. *)
Let usable : Z := N * (num / N).

Definition ei_step (t t' : T) : Prop := exists p, mem_step (ei_mem st p) t t'.
Definition ei_steps : T -> T -> Prop := rtc ei_step.

#[local] Instance laws_map : RluLaws (map_entries (session_map st)) := ei_laws SessMap.
#[local] Instance laws_data : RluLaws (elems (session_data st)) := ei_laws SessData.
#[local] Instance laws_sess b : RluLaws (sess_indexes st b) := ei_laws (SessIndexes b).
#[local] Instance laws_umap : RluLaws (map_entries (user_map st)) := ei_laws UserMap.
#[local] Instance laws_udata : RluLaws (elems (user_data st)) := ei_laws UserDat.
#[local] Instance laws_users : RluLaws (user_indexes st) := ei_laws UserIndexes.

#[export] Instance ei_steps_rel : TxnRel ei_steps.
Proof.
  split; [apply rtc_po|]. induction 1 as [|t t1 t2 [p Hs] _ IH]; [done|]. intros Hf. apply IH.
  pose proof (ei_laws p) as Hl. apply rtc_once in Hs.
  by apply (txn_free (R := mem_steps (ei_mem st p)) _ _ Hs).
Qed.

Lemma sub_part p t t' : mem_steps (ei_mem st p) t t' -> ei_steps t t'.
Proof. apply rtc_subrel. intros x y Hs. by exists p. Qed.

#[local] Instance sub_map : SubRel (mem_steps (map_entries (session_map st))) ei_steps := sub_part SessMap.
#[local] Instance sub_data : SubRel (mem_steps (elems (session_data st))) ei_steps := sub_part SessData.
#[local] Instance sub_sess b : SubRel (mem_steps (sess_indexes st b)) ei_steps := sub_part (SessIndexes b).
#[local] Instance sub_umap : SubRel (mem_steps (map_entries (user_map st))) ei_steps := sub_part UserMap.
#[local] Instance sub_udata : SubRel (mem_steps (elems (user_data st))) ei_steps := sub_part UserDat.
#[local] Instance sub_users : SubRel (mem_steps (user_indexes st)) ei_steps := sub_part UserIndexes.

(** Memory the NAT does not write. *)
Lemma ei_steps_view {O} (m : RluMem T O) t t' l :
  (forall p, RluIndep (ei_mem st p) m) -> ei_steps t t' -> view m t' l = view m t l.
Proof.
  intros Hi. induction 1 as [|t t1 t2 [p Hs] _ IH]; [done|].
  by rewrite IH, (indep_view (RluIndep := Hi p) _ _ l Hs).
Qed.

(** Sessions and users with their indexes ([S], [U]), the allocated indexes
    ([A true] of TCP sessions, [A false] of the others; [AU] of users), the
    data ([f], [g]) and the indexes of those that are locked ([ls], [lu]). *)
Record ei_parts (t : T) (S : gmap session Z) (A : bool -> gset Z) (f : Z -> session_data_t) (ls : list Z)
    (U : gmap Z Z) (AU : gset Z) (g : Z -> user_data_t) (lu : list Z) : Prop := {
  ep_map : map_rep (session_map st) t S;
  ep_data : holds (elems (session_data st)) t f ls;
  ep_sess b : dchain_set (sess_indexes st b) N usable t (A b);
  ep_umap : map_rep (user_map st) t U;
  ep_udata : holds (elems (user_data st)) t g lu;
  ep_users : dchain_set (user_indexes st) N users t AU
}.

(** Everything but the part that was stepped is framed. *)
Lemma frame_map p t t' S :
  p <> SessMap -> mem_steps (ei_mem st p) t t' -> map_rep (session_map st) t S -> map_rep (session_map st) t' S.
Proof.
  intros Hp Hs Hr. pose proof (ei_indep p SessMap Hp) as Hi. cbn in Hi.
  by apply (map_frame (ei_mem st p) (session_map st) t).
Qed.
Lemma frame_umap p t t' U :
  p <> UserMap -> mem_steps (ei_mem st p) t t' -> map_rep (user_map st) t U -> map_rep (user_map st) t' U.
Proof.
  intros Hp Hs Hr. pose proof (ei_indep p UserMap Hp) as Hi. cbn in Hi.
  by apply (map_frame (ei_mem st p) (user_map st) t).
Qed.
Lemma frame_data p t t' f ls :
  p <> SessData -> mem_steps (ei_mem st p) t t' -> holds (elems (session_data st)) t f ls ->
  holds (elems (session_data st)) t' f ls.
Proof. intros Hp Hs. pose proof (ei_indep p SessData Hp) as Hi. by apply (indep_holds (ei_mem st p)). Qed.
Lemma frame_udata p t t' g lu :
  p <> UserDat -> mem_steps (ei_mem st p) t t' -> holds (elems (user_data st)) t g lu ->
  holds (elems (user_data st)) t' g lu.
Proof. intros Hp Hs. pose proof (ei_indep p UserDat Hp) as Hi. by apply (indep_holds (ei_mem st p)). Qed.
Lemma frame_sess p b t t' A :
  p <> SessIndexes b -> mem_steps (ei_mem st p) t t' -> dchain_set (sess_indexes st b) N usable t A ->
  dchain_set (sess_indexes st b) N usable t' A.
Proof.
  intros Hp Hs Hr. pose proof (ei_indep p (SessIndexes b) Hp) as Hi. cbn in Hi.
  by apply (dchain_frame (ei_mem st p) (sess_indexes st b) N usable t).
Qed.
Lemma frame_users p t t' A :
  p <> UserIndexes -> mem_steps (ei_mem st p) t t' -> dchain_set (user_indexes st) N users t A ->
  dchain_set (user_indexes st) N users t' A.
Proof.
  intros Hp Hs Hr. pose proof (ei_indep p UserIndexes Hp) as Hi. cbn in Hi.
  by apply (dchain_frame (ei_mem st p) (user_indexes st) N users t).
Qed.

Ltac ei_frame p :=
  split;
  try first
    [ done
    | by eapply (frame_map p) | by eapply (frame_umap p) | by eapply (frame_data p)
    | by eapply (frame_udata p) | by eapply (frame_users p)
    | let b := fresh "b" in intros b; eapply (frame_sess p); [by destruct b|eassumption|by auto] ].

Section rules.
Context (t : T) (S : gmap session Z) (A : bool -> gset Z) (f : Z -> session_data_t) (ls : list Z).
Context (U : gmap Z Z) (AU : gset Z) (g : Z -> user_data_t) (lu : list Z).
Context (Hp : ei_parts t S A f ls U AU g lu).

Lemma wp_sget k (Q : option Z -> T -> Prop) :
  Q (S !! k) t -> wp ei_steps (nfos_map_get_t (session_map st) k) t Q.
Proof. pose proof Hp as [Hm _ _ _ _ _]. intros HQ. apply (wp_on (mem_steps (map_entries (session_map st))) _). by eapply get_wp. Qed.

Lemma wp_sput k v (Q : bool -> T -> Prop) :
  S !! k = None ->
  (forall t', ei_parts t' (<[k := v]> S) A f ls U AU g lu -> Q true t') ->
  (map_capacity (session_map st) <= Z.of_nat (size S) -> Q false t) ->
  wp ei_steps (nfos_map_put_t (session_map st) k v) t Q.
Proof.
  pose proof Hp as [Hm Hd Hs Hum Hud Hus]. intros HS HQ HQ'.
  apply (wp_on (mem_steps (map_entries (session_map st))) _). eapply put_wp; [done|done| |auto].
  intros t' _ Hm' Hst. apply HQ. ei_frame SessMap.
Qed.

Lemma wp_serase k (Q : bool -> T -> Prop) :
  is_Some (S !! k) -> (forall t', ei_parts t' (delete k S) A f ls U AU g lu -> Q true t') ->
  wp ei_steps (nfos_map_erase_t (session_map st) k) t Q.
Proof.
  pose proof Hp as [Hm Hd Hs Hum Hud Hus]. intros [v HS] HQ.
  apply (wp_on (mem_steps (map_entries (session_map st))) _). eapply erase_wp; [done| |congruence].
  intros t' _ Hm' Hst. apply HQ. ei_frame SessMap.
Qed.

Lemma wp_uget k (Q : option Z -> T -> Prop) :
  Q (U !! k) t -> wp ei_steps (nfos_map_get_t (user_map st) k) t Q.
Proof. pose proof Hp as [_ _ _ Hm _ _]. intros HQ. apply (wp_on (mem_steps (map_entries (user_map st))) _). by eapply get_wp. Qed.

Lemma wp_uput k v (Q : bool -> T -> Prop) :
  U !! k = None -> Z.of_nat (size U) < map_capacity (user_map st) ->
  (forall t', ei_parts t' S A f ls (<[k := v]> U) AU g lu -> Q true t') ->
  wp ei_steps (nfos_map_put_t (user_map st) k v) t Q.
Proof.
  pose proof Hp as [Hm Hd Hs Hum Hud Hus]. intros HU Hsz HQ.
  apply (wp_on (mem_steps (map_entries (user_map st))) _). eapply put_wp; [done|done| |lia].
  intros t' _ Hm' Hst. apply HQ. ei_frame UserMap.
Qed.

Lemma wp_sborrow i (Q : session_data_t -> T -> Prop) :
  Q (f i) t -> wp ei_steps (nfos_vector_borrow_t (session_data st) i) t Q.
Proof.
  pose proof Hp as [_ Hd _ _ _ _]. intros HQ. apply (wp_on (mem_steps (elems (session_data st))) _).
  by apply (wp_borrow (session_data st) (mem_steps (elems (session_data st))) _ _ _ _ _ Hd).
Qed.

Lemma wp_sborrow_mut i (Q : Z -> T -> Prop) :
  (forall t', ei_parts t' S A f (i :: ls) U AU g lu -> Q i t') ->
  wp ei_steps (nfos_vector_borrow_mut_t (session_data st) i) t Q.
Proof.
  pose proof Hp as [Hm Hd Hs Hum Hud Hus]. intros HQ. apply (wp_on (mem_steps (elems (session_data st))) _).
  eapply (wp_borrow_mut (session_data st) (mem_steps (elems (session_data st)))); [exact Hd|].
  intros t' Hd' Hst. apply HQ. ei_frame SessData.
Qed.

Lemma wp_uborrow_mut i (Q : Z -> T -> Prop) :
  (forall t', ei_parts t' S A f ls U AU g (i :: lu) -> Q i t') ->
  wp ei_steps (nfos_vector_borrow_mut_t (user_data st) i) t Q.
Proof.
  pose proof Hp as [Hm Hd Hs Hum Hud Hus]. intros HQ. apply (wp_on (mem_steps (elems (user_data st))) _).
  eapply (wp_borrow_mut (user_data st) (mem_steps (elems (user_data st)))); [exact Hud|].
  intros t' Hd' Hst. apply HQ. ei_frame UserDat.
Qed.

Lemma wp_sload i (Q : session_data_t -> T -> Prop) :
  Q (f i) t -> wp ei_steps (load (elems (session_data st)) i) t Q.
Proof.
  pose proof Hp as [_ Hd _ _ _ _]. intros HQ. apply (wp_on (mem_steps (elems (session_data st))) _).
  by apply (wp_load (elems (session_data st)) (mem_steps (elems (session_data st))) _ _ _ _ _ Hd).
Qed.

Lemma wp_uload i (Q : user_data_t -> T -> Prop) :
  Q (g i) t -> wp ei_steps (load (elems (user_data st)) i) t Q.
Proof.
  pose proof Hp as [_ _ _ _ Hd _]. intros HQ. apply (wp_on (mem_steps (elems (user_data st))) _).
  by apply (wp_load (elems (user_data st)) (mem_steps (elems (user_data st))) _ _ _ _ _ Hd).
Qed.

Lemma wp_smodify i h (Q : unit -> T -> Prop) :
  i ∈ ls -> (forall t', ei_parts t' S A (<[i := h (f i)]> f) ls U AU g lu -> Q tt t') ->
  wp ei_steps (modify (elems (session_data st)) i h) t Q.
Proof.
  pose proof Hp as [Hm Hd Hs Hum Hud Hus]. intros Hi HQ. apply (wp_on (mem_steps (elems (session_data st))) _).
  eapply (wp_modify (elems (session_data st)) (mem_steps (elems (session_data st)))); [exact Hd|done|].
  intros t' Hd' Hst. apply HQ. ei_frame SessData.
Qed.

Lemma wp_umodify i h (Q : unit -> T -> Prop) :
  i ∈ lu -> (forall t', ei_parts t' S A f ls U AU (<[i := h (g i)]> g) lu -> Q tt t') ->
  wp ei_steps (modify (elems (user_data st)) i h) t Q.
Proof.
  pose proof Hp as [Hm Hd Hs Hum Hud Hus]. intros Hi HQ. apply (wp_on (mem_steps (elems (user_data st))) _).
  eapply (wp_modify (elems (user_data st)) (mem_steps (elems (user_data st)))); [exact Hud|done|].
  intros t' Hd' Hst. apply HQ. ei_frame UserDat.
Qed.

Lemma ei_sess_update b t' A' :
  mem_steps (sess_indexes st b) t t' -> dchain_set (sess_indexes st b) N usable t' A' ->
  ei_parts t' S (<[b := A']> A) f ls U AU g lu.
Proof.
  pose proof Hp as [Hm Hd Hs Hum Hud Hus]. intros Hst HA.
  ei_frame (SessIndexes b). intros b'. rewrite fn_insert_dec. case_decide as E; [by subst|].
  apply (frame_sess (SessIndexes b) b' t); [by intros [=]|done|done].
Qed.

Lemma wp_salloc b (Q : option Z -> T -> Prop) :
  (forall i t', 0 <= i < usable -> i ∉ A b ->
     ei_parts t' S (<[b := {[i]} ∪ A b]> A) f ls U AU g lu -> Q (Some i) t') ->
  (forall t', (forall i, 0 <= i < usable -> i ∈ A b) ->
     ei_parts t' S (<[b := A b]> A) f ls U AU g lu -> Q None t') ->
  wp ei_steps (nfos_dchain_allocate_new_index_t (sess_indexes st b) N core) t Q.
Proof.
  intros HQ HQ'. apply (wp_on (mem_steps (sess_indexes st b)) _).
  eapply (allocate_wp (AllocatorSpec := dchain_spec (sess_indexes st b) N usable core Hcore));
    [apply (ep_sess _ _ _ _ _ _ _ _ _ Hp)| |].
  - intros i t' Hi Hn Hs Hst. apply HQ; [done|done|]. by apply ei_sess_update.
  - intros t' Hall Hs Hst. apply HQ'; [done|]. by apply ei_sess_update.
Qed.

Lemma wp_sfree b i (Q : bool -> T -> Prop) :
  i ∈ A b -> (forall t', ei_parts t' S (<[b := A b ∖ {[i]}]> A) f ls U AU g lu -> Q true t') ->
  wp ei_steps (nfos_dchain_free_index_t (sess_indexes st b) N core i) t Q.
Proof.
  intros Hi HQ. apply (wp_on (mem_steps (sess_indexes st b)) _).
  eapply (free_wp (AllocatorSpec := dchain_spec (sess_indexes st b) N usable core Hcore));
    [apply (ep_sess _ _ _ _ _ _ _ _ _ Hp)|done|].
  intros t' Hs Hst. apply HQ. by apply ei_sess_update.
Qed.

Lemma wp_ualloc (Q : option Z -> T -> Prop) :
  (forall i t', 0 <= i < users -> i ∉ AU -> ei_parts t' S A f ls U ({[i]} ∪ AU) g lu -> Q (Some i) t') ->
  (forall t', (forall i, 0 <= i < users -> i ∈ AU) -> ei_parts t' S A f ls U AU g lu -> Q None t') ->
  wp ei_steps (nfos_dchain_allocate_new_index_t (user_indexes st) N core) t Q.
Proof.
  pose proof Hp as [Hm Hd Hs Hum Hud Hus]. intros HQ HQ'. apply (wp_on (mem_steps (user_indexes st)) _).
  eapply (allocate_wp (AllocatorSpec := dchain_spec (user_indexes st) N users core Hcore)); [exact Hus| |].
  - intros i t' Hi Hn Hus' Hst. apply HQ; [done|done|]. ei_frame UserIndexes.
  - intros t' Hall Hus' Hst. apply HQ'; [done|]. ei_frame UserIndexes.
Qed.
End rules.

(** ** The nodes of one user's list *)

(** The node under each index, from the point of view of user [u]. *)
Definition nodes (f : Z -> session_data_t) (g : Z -> user_data_t) (u i : Z) : sess_list_node_t :=
  if decide (i = SESS_LIST_HEAD) then sess_list_head (g u) else node (f i).

(** Data with their nodes replaced. *)
Definition with_nodes (h : Z -> sess_list_node_t) (f : Z -> session_data_t) (i : Z) : session_data_t :=
  if decide (i = SESS_LIST_HEAD) then f i else set_node (h i) (f i).
Definition with_head (u : Z) (h : Z -> sess_list_node_t) (g : Z -> user_data_t) (v : Z) : user_data_t :=
  if decide (v = u) then set_head (h SESS_LIST_HEAD) (g v) else g v.

Lemma nodes_with u h f g i : nodes (with_nodes h f) (with_head u h g) u i = h i.
Proof.
  unfold nodes, with_nodes, with_head. case_decide as E; [|done]. subst. by rewrite decide_True.
Qed.

Lemma with_own_nodes u f g i : with_nodes (nodes f g u) f i = f i.
Proof. unfold with_nodes, nodes. case_decide; [done|]. by destruct (f i). Qed.

Lemma with_own_head u f g v : with_head u (nodes f g u) g v = g v.
Proof. unfold with_head, nodes. case_decide; [|done]. subst. rewrite decide_True by done. by destruct (g u). Qed.

Lemma ei_parts_ext t S A f f' ls U AU g g' lu :
  (forall i, f' i = f i) -> (forall v, g' v = g v) ->
  ei_parts t S A f ls U AU g lu -> ei_parts t S A f' ls U AU g' lu.
Proof.
  intros Ef Eg [Hm Hd Hs Hum Hud Hus]. split; try done; by eapply holds_ext.
Qed.

Lemma ei_parts_weaken t S A f ls ls' U AU g lu lu' :
  ls' ⊆ ls -> lu' ⊆ lu -> ei_parts t S A f ls U AU g lu -> ei_parts t S A f ls' U AU g lu'.
Proof.
  intros Hl Hu [Hm Hd Hs Hum Hud Hus]. split; try done; by eapply holds_weaken.
Qed.

(** The nodes among [L] are locked. *)
Definition node_parts (t : T) (S : gmap session Z) (A : bool -> gset Z) (U : gmap Z Z) (AU : gset Z)
    (u : Z) (h : Z -> sess_list_node_t) (f : Z -> session_data_t) (g : Z -> user_data_t) (L : list Z) : Prop :=
  ei_parts t S A (with_nodes h f) (filter (fun i => i <> SESS_LIST_HEAD) L) U AU (with_head u h g)
    (if bool_decide (SESS_LIST_HEAD ∈ L) then [u] else []).

Section node_rules.
Context (t : T) (S : gmap session Z) (A : bool -> gset Z) (U : gmap Z Z) (AU : gset Z) (u : Z).
Context (h : Z -> sess_list_node_t) (f : Z -> session_data_t) (g : Z -> user_data_t) (L : list Z).
Context (Hp : node_parts t S A U AU u h f g L).

Lemma node_parts_weaken L' : L' ⊆ L -> node_parts t S A U AU u h f g L'.
Proof.
  intros HL. eapply ei_parts_weaken; [| |exact Hp].
  - intros i. rewrite !list_elem_of_filter. intros [? ?]. split; [done|by apply HL].
  - intros i. case_bool_decide as E; [|by intros ?%not_elem_of_nil].
    by rewrite bool_decide_eq_true_2 by (by apply HL).
Qed.

Lemma node_parts_ext h' f' g' :
  (forall i, h' i = h i) -> (forall i, f' i = f i) -> (forall v, g' v = g v) ->
  node_parts t S A U AU u h' f' g' L.
Proof.
  intros Eh Ef Eg. eapply ei_parts_ext; [| |exact Hp].
  - intros i. unfold with_nodes. by rewrite Eh, Ef.
  - intros v. unfold with_head. by rewrite Eh, Eg.
Qed.

Lemma wp_load_node i (Q : sess_list_node_t -> T -> Prop) :
  Q (h i) t -> wp ei_steps (load_node st u i) t Q.
Proof.
  intros HQ. unfold load_node. destruct (Z.eqb_spec i SESS_LIST_HEAD) as [->|Hi];
    (apply wp_bind; [apply _|]).
  - eapply wp_uload; [exact Hp|]. apply wp_ret; [apply _|]. unfold with_head.
    by rewrite decide_True.
  - eapply wp_sload; [exact Hp|]. apply wp_ret; [apply _|]. unfold with_nodes.
    by rewrite decide_False.
Qed.

Lemma wp_borrow_node i (Q : unit -> T -> Prop) :
  (forall t', node_parts t' S A U AU u h f g (i :: L) -> Q tt t') ->
  wp ei_steps (borrow_node st u i) t Q.
Proof.
  intros HQ. unfold borrow_node, borrow_sess.
  destruct (Z.eqb_spec i SESS_LIST_HEAD) as [->|Hi]; (apply wp_bind; [apply _|]).
  - eapply wp_uborrow_mut; [exact Hp|]. intros t' Hp'. apply wp_ret; [apply _|]. apply HQ.
    unfold node_parts. rewrite filter_cons_False by auto.
    rewrite bool_decide_eq_true_2 by (by left). eapply ei_parts_weaken; [| |exact Hp']; [done|].
    intros v Hv. apply list_elem_of_singleton in Hv as ->. by left.
  - eapply wp_sborrow_mut; [exact Hp|]. intros t' Hp'. apply wp_ret; [apply _|]. apply HQ.
    unfold node_parts. rewrite filter_cons_True by done.
    rewrite (bool_decide_ext _ (SESS_LIST_HEAD ∈ L)); [done|].
    rewrite elem_of_cons. split; [|by right]. by intros [<-|?].
Qed.

Lemma borrow_sess_node i : i <> SESS_LIST_HEAD -> borrow_sess st i = borrow_node st u i.
Proof. intros Hi. unfold borrow_node. by rewrite (proj2 (Z.eqb_neq _ _) Hi). Qed.

Lemma assign_sess_node i k : i <> SESS_LIST_HEAD -> assign_sess st i k = assign st u i k.
Proof. intros Hi. unfold assign. by rewrite (proj2 (Z.eqb_neq _ _) Hi). Qed.

Lemma wp_assign i k (Q : unit -> T -> Prop) :
  i ∈ L -> (forall t', node_parts t' S A U AU u (<[i := k (h i)]> h) f g L -> Q tt t') ->
  wp ei_steps (assign st u i k) t Q.
Proof.
  intros Hi HQ. unfold assign. destruct (Z.eqb_spec i SESS_LIST_HEAD) as [->|Hne].
  - eapply wp_umodify; [exact Hp| |].
    + rewrite bool_decide_eq_true_2 by done. by left.
    + intros t' Hp'. apply HQ. eapply ei_parts_ext; [| |exact Hp'].
      * intros j. unfold with_nodes. destruct (decide (j = SESS_LIST_HEAD)); [done|]. by rewrite fn_lookup_insert_ne by congruence.
      * intros v. unfold with_head. rewrite fn_lookup_insert, fn_insert_dec.
        destruct (decide (u = v)) as [<-|]; [by rewrite !decide_True|by rewrite !decide_False].
  - eapply wp_smodify; [exact Hp| |].
    + by apply list_elem_of_filter.
    + intros t' Hp'. apply HQ. eapply ei_parts_ext; [| |exact Hp'].
      * intros j. unfold with_nodes. rewrite !fn_insert_dec.
        destruct (decide (i = j)) as [<-|]; [by rewrite !decide_False|done].
      * intros v. unfold with_head. by rewrite fn_lookup_insert_ne.
Qed.
End node_rules.

Lemma head_not_in h ns : ring h ns -> SESS_LIST_HEAD ∉ ns.
Proof. intros Hr. by pose proof (ring_nodup _ _ Hr) as [? _]%NoDup_cons. Qed.

Lemma first_not_head h ns : ring h ns -> ns <> [] -> n_next (h SESS_LIST_HEAD) <> SESS_LIST_HEAD.
Proof.
  intros Hr Hne. rewrite (sess_ring_first _ _ Hr). destruct ns as [|x ns]; [done|]. cbn. intros ->.
  apply (head_not_in _ _ Hr). by left.
Qed.

(** The assignments of the insertion, in either order. *)
Lemma insert_front_assigns h ns i j :
  ring h ns -> i ∉ SESS_LIST_HEAD :: ns ->
  let first := n_next (h SESS_LIST_HEAD) in
  let h1 := <[i := set_next first (h i)]> h in
  let h2 := <[i := set_prev SESS_LIST_HEAD (h1 i)]> h1 in
  let h3 := <[first := set_prev i (h2 first)]> h2 in
  (<[SESS_LIST_HEAD := set_next i (h3 SESS_LIST_HEAD)]> h3) j = insert_front i h j /\
  (ns <> [] ->
   let h3' := <[SESS_LIST_HEAD := set_next i (h2 SESS_LIST_HEAD)]> h2 in
   (<[first := set_prev i (h3' first)]> h3') j = insert_front i h j).
Proof.
  intros Hr Hi first h1 h2 h3.
  assert (first <> i) as Hfi by (intros E; apply Hi; rewrite <- E; by apply first_in).
  assert (forall j, h2 j = <[i := SessNode first SESS_LIST_HEAD]> h j) as E2.
  { intros k. unfold h2, h1. rewrite !fn_lookup_insert, !fn_insert_dec. by destruct (decide (i = k)). }
  unfold insert_front. cbv zeta. fold first. split.
  - unfold h3. rewrite !fn_insert_dec, !E2. rewrite !fn_insert_dec.
    by repeat (destruct (decide _); simplify_eq).
  - intros Hne. assert (first <> SESS_LIST_HEAD) as Hfh by (by apply (first_not_head _ _ Hr)).
    rewrite !fn_insert_dec, !E2. rewrite !fn_insert_dec.
    by repeat (destruct (decide _); simplify_eq).
Qed.

Section list_ops.
Context (S : gmap session Z) (A : bool -> gset Z) (U : gmap Z Z) (AU : gset Z) (u : Z).
Context (h : Z -> sess_list_node_t) (f : Z -> session_data_t) (g : Z -> user_data_t).
Abbreviation nparts t h f g L := (node_parts t S A U AU u h f g L).

(** Counting a session of the user. *)
Lemma wp_count t L v (Q : unit -> T -> Prop) :
  nparts t h f g L -> SESS_LIST_HEAD ∈ L ->
  (forall t', nparts t' h f (<[u := set_num_sessions (v (num_sessions (g u))) (g u)]> g) L -> Q tt t') ->
  wp ei_steps (modify (elems (user_data st)) u (fun d => set_num_sessions (v (num_sessions d)) d)) t Q.
Proof.
  intros Hp HL HQ. eapply wp_umodify; [exact Hp| |].
  - rewrite bool_decide_eq_true_2 by done. by left.
  - intros t' Hp'. apply HQ. eapply ei_parts_ext; [done| |exact Hp'].
    intros x. unfold with_head. rewrite !fn_insert_dec.
    destruct (decide (u = x)) as [<-|]; [by rewrite !decide_True|by rewrite !decide_False].
Qed.

Lemma wp_set_user t L i v (Q : unit -> T -> Prop) :
  nparts t h f g L -> i ∈ L -> i <> SESS_LIST_HEAD ->
  (forall t', nparts t' h (<[i := set_user_index v (f i)]> f) g L -> Q tt t') ->
  wp ei_steps (modify (elems (session_data st)) i (set_user_index v)) t Q.
Proof.
  intros Hp HL Hi HQ. eapply wp_smodify; [exact Hp|by apply list_elem_of_filter|].
  intros t' Hp'. apply HQ. eapply ei_parts_ext; [|done|exact Hp'].
  intros x. unfold with_nodes. rewrite !fn_insert_dec.
  destruct (decide (i = x)) as [<-|]; [by rewrite !decide_False|done].
Qed.
End list_ops.

Section list_ops2.
Context (S : gmap session Z) (A : bool -> gset Z) (U : gmap Z Z) (AU : gset Z) (u : Z).
Context (h : Z -> sess_list_node_t) (f : Z -> session_data_t) (g : Z -> user_data_t).
Abbreviation nparts t h f g L := (node_parts t S A U AU u h f g L).

Ltac nstep :=
  lazymatch goal with
  | |- wp _ (bind _ _) _ _ => apply wp_bind; [apply _|]
  | |- wp _ (borrow_node _ _ _) _ _ => eapply wp_borrow_node; [eassumption|]
  | |- wp _ (assign _ _ _ _) _ _ => eapply wp_assign; [eassumption| |]
  | |- wp _ (load_node _ _ _) _ _ => eapply wp_load_node; [eassumption|]
  end.

Lemma wp_insert_session t ns i (Q : bool -> T -> Prop) :
  nparts t h f g [] -> ring h ns -> i ∉ SESS_LIST_HEAD :: ns ->
  let n := i32 (num_sessions (g u) + 1) in
  (MAX_NUM_SESSIONS_PER_USER <= n -> forall t', Q false t') ->
  (n < MAX_NUM_SESSIONS_PER_USER -> forall t',
     nparts t' (insert_front i h) (<[i := set_user_index u (f i)]> f)
       (<[u := set_num_sessions n (g u)]> g) [] -> Q true t') ->
  wp ei_steps (insert_session st i u) t Q.
Proof.
  intros Hp Hr Hi n HQf HQt. unfold insert_session.
  assert (i <> SESS_LIST_HEAD) as Hih by (intros ->; apply Hi; by left).
  set (first := n_next (h SESS_LIST_HEAD)).
  nstep. nstep. intros t1 Hp1. nstep. nstep. fold first. cbv zeta.
  nstep. assert (wp ei_steps (if negb (first =? SESS_LIST_HEAD) then borrow_node st u first else ret tt) t1
    (fun _ t' => nparts t' h f g [first; SESS_LIST_HEAD])) as Hfirst.
  { destruct (Z.eqb_spec first SESS_LIST_HEAD) as [->|]; cbn [negb].
    - apply wp_ret; [apply _|]. eapply node_parts_weaken; [exact Hp1|].
      intros x [->|Hx]%elem_of_cons; [by left|done].
    - by nstep. }
  eapply wp_mono; [|exact Hfirst]. intros [] t1' _ Hp1'. clear Hfirst Hp1.
  nstep. nstep. intros t2 Hp2.
  assert (forall x, x = i \/ x = first \/ x = SESS_LIST_HEAD -> x ∈ [i; first; SESS_LIST_HEAD]) as HL.
  { intros x Hx. rewrite !elem_of_cons. tauto. }
  nstep. nstep; [by apply HL; auto|]. intros t3 Hp3.
  nstep. nstep; [by apply HL; auto|]. intros t4 Hp4.
  nstep. nstep; [by apply HL; auto|]. intros t5 Hp5.
  nstep. nstep; [by apply HL; auto|]. intros t6 Hp6.
  assert (nparts t6 (insert_front i h) f g [i; first; SESS_LIST_HEAD]) as Hp7.
  { eapply node_parts_ext; [exact Hp6| |done|done]. intros j. symmetry.
    by apply (insert_front_assigns h ns i j Hr Hi). }
  nstep. eapply (wp_count _ _ _ _ _ _ _ _ _ _ (fun x => i32 (x + 1))); [exact Hp7|by apply HL; auto|].
  intros t8 Hp8. nstep. eapply wp_uload; [exact Hp8|].
  unfold with_head at 1. rewrite decide_True by done. rewrite fn_lookup_insert.
  cbn [num_sessions set_num_sessions set_head]. fold n.
  destruct (Z.geb_spec n MAX_NUM_SESSIONS_PER_USER) as [Hm|Hm]; [by apply wp_ret; [apply _|apply HQf]|].
  nstep. eapply wp_set_user; [exact Hp8|by apply HL; auto|done|]. intros t9 Hp9.
  apply wp_ret; [apply _|]. apply HQt; [done|]. eapply node_parts_weaken; [exact Hp9|].
  apply list_subseteq_nil.
Qed.

Lemma wp_move_to_front t l1 i l2 (Q : unit -> T -> Prop) :
  nparts t h f g [i] -> ring h (l1 ++ i :: l2) ->
  (forall t', nparts t' (if decide (l1 = []) then h else insert_front i (extract i h)) f g [] -> Q tt t') ->
  wp ei_steps (move_to_front st i u) t Q.
Proof.
  intros Hp Hr HQ. unfold move_to_front. nstep. nstep.
  pose proof (ring_at_front _ _ _ _ Hr) as Hfront.
  destruct (Z.eqb_spec (n_prev (h i)) SESS_LIST_HEAD) as [Ep|Ep]; cbn [negb].
  { apply wp_ret; [apply _|]. rewrite decide_True in HQ by (by apply Hfront). apply HQ.
    eapply node_parts_weaken; [exact Hp|]. apply list_subseteq_nil. }
  rewrite decide_False in HQ by (by rewrite <- Hfront).
  pose proof (ring_extract _ _ _ _ Hr) as Hr'.
  assert (i ∉ SESS_LIST_HEAD :: l1 ++ l2) as Hi.
  { pose proof (ring_nodup _ _ Hr) as [Hh Hnd]%NoDup_cons.
    apply NoDup_app in Hnd as (_ & H12 & [H2 _]%NoDup_cons).
    rewrite elem_of_cons, elem_of_app. intros [->|[H1|?]]; [|apply (H12 i H1); by left|done].
    apply Hh, elem_of_app. right. by left. }
  assert (l1 ++ l2 <> []) as Hne.
  { intros [-> ->]%app_nil. by apply Ep, Hfront. }
  set (next := n_next (h i)) in *. set (prev := n_prev (h i)) in *.
  nstep. nstep. intros t1 Hp1. nstep. nstep. intros t2 Hp2.
  nstep. nstep; [by right; left|]. intros t3 Hp3.
  nstep. nstep; [by left|]. intros t4 Hp4.
  assert (nparts t4 (extract i h) f g [next; prev; i]) as Hp5.
  { eapply node_parts_ext; [exact Hp4| |done|done]. intros j. unfold extract.
    unfold next, prev. by destruct (h i). }
  clear t1 t2 t3 Hp1 Hp2 Hp3 Hp4.
  nstep. nstep. intros t6 Hp6. nstep. nstep. cbv zeta.
  set (first := n_next (extract i h SESS_LIST_HEAD)).
  assert (first <> SESS_LIST_HEAD) as Hfh by (by apply (first_not_head _ _ Hr')).
  nstep. rewrite (borrow_sess_node u) by done. nstep. intros t7 Hp7.
  assert (forall x, x = i \/ x = first \/ x = SESS_LIST_HEAD -> x ∈ [first; SESS_LIST_HEAD; next; prev; i]) as HL.
  { intros x Hx. rewrite !elem_of_cons. tauto. }
  nstep. nstep; [by apply HL; auto|]. intros t8 Hp8.
  nstep. nstep; [by apply HL; auto|]. intros t9 Hp9.
  nstep. nstep; [by apply HL; auto|]. intros t10 Hp10.
  rewrite (assign_sess_node u) by done. nstep; [by apply HL; auto|]. intros t11 Hp11. apply HQ.
  eapply node_parts_weaken; [|apply list_subseteq_nil].
  eapply node_parts_ext; [exact Hp11| |done|done]. intros j. symmetry.
  by apply (insert_front_assigns (extract i h) (l1 ++ l2) i j Hr' Hi).
Qed.
End list_ops2.

(** ** The tables *)

(** The sessions of a user, most recently refreshed first, each with the time
    of its last refresh. *)
Implicit Types (W : gmap Z (list (session * Z))).

(** The list of user [a]: sessions of the user, once each, in the order of
    their times, none of which is in the future. *)
Record entries_ok (a : Z) (l : list (session * Z)) : Prop := {
  en_user k : k ∈ l.*1 -> k_src_addr k = a;
  en_nodup : NoDup l.*1;
  en_sorted : StronglySorted Z.ge l.*2;
  en_now tm : tm ∈ l.*2 -> tm <= now;
  en_quota : Z.of_nat (length l) < MAX_NUM_SESSIONS_PER_USER
}.

(** The lists hold exactly the sessions. *)
Record lists_ok (S : gmap session Z) W : Prop := {
  lo_listed k : is_Some (S !! k) <-> k ∈ (default [] (W !! k_src_addr k)).*1;
  lo_entries a l : W !! a = Some l -> entries_ok a l
}.

Lemma entries_nil a : entries_ok a [].
Proof. split; try (by intros ? ?%not_elem_of_nil); [apply NoDup_nil_2|constructor|done]. Qed.

Lemma lists_default S W a : lists_ok S W -> entries_ok a (default [] (W !! a)).
Proof.
  intros HW. destruct (W !! a) as [l|] eqn:E; [by apply (lo_entries _ _ HW)|apply entries_nil].
Qed.

Lemma entries_cons a l k :
  entries_ok a l -> k_src_addr k = a -> k ∉ l.*1 ->
  Z.of_nat (length l) + 1 < MAX_NUM_SESSIONS_PER_USER -> entries_ok a ((k, now) :: l).
Proof.
  intros [Hu Hnd Hs Hn Hq] Hk Hl Hlen. split; cbn [fmap list_fmap fst snd length].
  - intros k' [->|Hk']%elem_of_cons; auto.
  - by apply NoDup_cons.
  - constructor; [done|]. apply Forall_forall. intros tm Htm. specialize (Hn tm Htm). lia.
  - intros tm [->|Htm]%elem_of_cons; [lia|auto].
  - lia.
Qed.

Lemma entries_drop a l1 k tm l2 :
  entries_ok a (l1 ++ (k, tm) :: l2) -> entries_ok a (l1 ++ l2) /\ ~ k ∈ (l1 ++ l2).*1 /\ k_src_addr k = a.
Proof.
  intros [Hu Hnd Hs Hn Hq]. rewrite !fmap_app in *. cbn [fmap list_fmap fst snd] in *.
  rewrite <- Permutation_middle in Hnd. apply NoDup_cons in Hnd as [Hk Hnd].
  split; [split; rewrite ?fmap_app|].
  - intros k' Hk'. apply Hu. rewrite elem_of_app, elem_of_cons. rewrite elem_of_app in Hk'. tauto.
  - done.
  - apply StronglySorted_app in Hs as (Hc & H1 & H2). apply StronglySorted_app.
    split; [|split; [done|by inversion H2]]. intros x y Hx Hy. apply Hc; [done|]. by right.
  - intros t' Ht'. apply Hn. rewrite elem_of_app, elem_of_cons. rewrite elem_of_app in Ht'. tauto.
  - rewrite length_app in *. cbn [length] in Hq. lia.
  - split; [done|]. apply Hu, elem_of_app. right. by left.
Qed.

Lemma entries_move a l1 k tm l2 :
  entries_ok a (l1 ++ (k, tm) :: l2) -> entries_ok a ((k, now) :: l1 ++ l2).
Proof.
  intros Hl. destruct (entries_drop _ _ _ _ _ Hl) as (Hl' & Hk & Ha).
  apply entries_cons; [done..|]. pose proof (en_quota _ _ Hl) as Hq.
  rewrite length_app in *. cbn [length] in Hq. lia.
Qed.

(** Another list for the user of [k], with [k] on it. *)
Lemma lists_update S S' W k l' :
  lists_ok S W -> entries_ok (k_src_addr k) l' ->
  (forall k', k' ∈ l'.*1 <-> k' ∈ (default [] (W !! k_src_addr k)).*1 \/ k' = k) ->
  (forall k', is_Some (S' !! k') <-> is_Some (S !! k') \/ k' = k) ->
  lists_ok S' (<[k_src_addr k := l']> W).
Proof.
  intros [Hli Hen] Hl' Hkeys HS'. split.
  - intros k'. rewrite HS', Hli. destruct (decide (k_src_addr k = k_src_addr k')) as [Ea|Ea].
    + rewrite <- Ea, lookup_insert_eq. cbn. by rewrite Hkeys.
    + rewrite lookup_insert_ne by done. split; [|tauto]. intros [?| ->]; done.
  - intros a l. rewrite lookup_insert_Some. intros [[<- <-]|[Hne Hx]]; [done|by apply Hen].
Qed.

Lemma lists_add S W k i :
  lists_ok S W -> S !! k = None ->
  Z.of_nat (length (default [] (W !! k_src_addr k))) + 1 < MAX_NUM_SESSIONS_PER_USER ->
  lists_ok (<[k := i]> S) (<[k_src_addr k := (k, now) :: default [] (W !! k_src_addr k)]> W).
Proof.
  intros HW Hk Hlen. apply (lists_update S); [done| | |].
  - apply entries_cons; [by eapply lists_default|done| |done].
    intros Hin. apply (lo_listed _ _ HW) in Hin. rewrite Hk in Hin. by destruct Hin.
  - intros k'. cbn [fmap list_fmap fst]. rewrite elem_of_cons. tauto.
  - intros k'. rewrite lookup_insert_is_Some'. naive_solver.
Qed.

Lemma lists_touch S W k l1 tm l2 :
  lists_ok S W -> W !! k_src_addr k = Some (l1 ++ (k, tm) :: l2) ->
  lists_ok S (<[k_src_addr k := (k, now) :: l1 ++ l2]> W).
Proof.
  intros HW Hk. apply (lists_update S); [done| | |].
  - apply entries_move with tm. by apply (lo_entries _ _ HW).
  - intros k'. rewrite Hk. cbn [default fmap list_fmap fst]. rewrite !fmap_app, elem_of_cons, !elem_of_app.
    unfold id. rewrite fmap_app, elem_of_app. cbn [fmap list_fmap fst]. rewrite elem_of_cons. tauto.
  - intros k'. split; [by left|]. intros [?| ->]; [done|]. apply (lo_listed _ _ HW).
    rewrite Hk. cbn. unfold id. rewrite fmap_app, elem_of_app. right. by left.
Qed.

(** The list [l] of user [a] with index [u] in memory: the nodes [ns]. *)
Record user_list (S : gmap session Z) (f : Z -> session_data_t) (g : Z -> user_data_t) (a u : Z)
    (ns : list Z) (l : list (session * Z)) : Prop := {
  ul_ring : ring (nodes f g u) ns;
  ul_num : num_sessions (g u) = Z.of_nat (length l);
  ul_entries : Forall2 (fun i kt => S !! kt.1 = Some i /\ k_src_addr kt.1 = a /\
    last_used (f i) = kt.2 /\ user_index (f i) = u) ns l
}.

(** The maps, the allocators and the data fit together. *)
Record ei_tables (S : gmap session Z) W (A : bool -> gset Z) (U : gmap Z Z) (AU : gset Z)
    (f : Z -> session_data_t) (g : Z -> user_data_t) : Prop := {
  et_keys : index_table (cfg st) S A;
  et_data k i : S !! k = Some i -> int_ip (f i) = k_src_addr k /\ int_port (f i) = k_src_port k;
  et_users u : u ∈ AU <-> exists a, U !! a = Some u;
  et_uinj a a' u : U !! a = Some u -> U !! a' = Some u -> a = a';
  et_dom a : is_Some (U !! a) <-> is_Some (W !! a);
  et_list a u l : U !! a = Some u -> W !! a = Some l -> exists ns, user_list S f g a u ns l
}.

(** In [t] the NAT holds the sessions [S] and the lists [W]. *)
Definition ei_rep (t : T) (S : gmap session Z) W : Prop :=
  lists_ok S W /\ exists A f ls U AU g lu,
    ei_parts t S A f ls U AU g lu /\ ei_tables S W A U AU f g.

Lemma user_list_in S f g a u ns l i :
  user_list S f g a u ns l -> i ∈ ns -> exists k, S !! k = Some i /\ k_src_addr k = a.
Proof.
  intros [_ _ Hf] Hi. apply list_elem_of_lookup in Hi as [n Hn].
  destruct (Forall2_lookup_l _ _ _ _ _ Hf Hn) as ([k tm] & _ & Hk & Ha & _). by exists k.
Qed.

Lemma user_list_frame S S' f f' g g' a u ns l :
  (forall i, i ∈ ns -> f' i = f i) -> g' u = g u ->
  (forall k i, S !! k = Some i -> S' !! k = Some i) ->
  user_list S f g a u ns l -> user_list S' f' g' a u ns l.
Proof.
  intros Ef Eg ES [Hr Hn Hf]. split; [|by rewrite Eg|].
  - eapply ring_ext; [|exact Hr]. intros i Hi. unfold nodes. rewrite Eg.
    destruct (decide (i = SESS_LIST_HEAD)); [done|]. rewrite Ef; [done|].
    by apply elem_of_cons in Hi as [?|?].
  - apply Forall2_same_length_lookup. apply Forall2_same_length_lookup in Hf as [Hl Hf].
    split; [done|]. intros n i kt Hi Hk. rewrite Ef by (by eapply list_elem_of_lookup_2).
    destruct (Hf n i kt Hi Hk) as (? & ? & ? & ?). auto.
Qed.

(** Another list for one user; the data of other users' sessions stay. *)
Lemma tables_list S W A U AU f f' g g' a u ns' l' :
  ei_tables S W A U AU f g -> U !! a = Some u ->
  (forall k i, S !! k = Some i -> k_src_addr k <> a -> f' i = f i) ->
  (forall k i, S !! k = Some i -> int_ip (f' i) = int_ip (f i) /\ int_port (f' i) = int_port (f i)) ->
  (forall v, v <> u -> g' v = g v) ->
  user_list S f' g' a u ns' l' -> ei_tables S (<[a := l']> W) A U AU f' g'.
Proof.
  intros [Hk Hd Hu Hi Hdom Hl] HU Hf Hfd Hg Hnew. split; try done.
  - intros k i HS. destruct (Hfd k i HS) as [-> ->]. by apply Hd.
  - intros b. rewrite Hdom, lookup_insert_is_Some'. split; [by right|].
    intros [<-|?]; [|done]. apply Hdom. by exists u.
  - intros b v l HbU. rewrite lookup_insert_Some. intros [[<- <-]|[Hne Hb]].
    + exists ns'. by rewrite HU in HbU; injection HbU as <-.
    + destruct (Hl b v l HbU Hb) as [ns Hns]. exists ns.
      eapply user_list_frame; [| | |exact Hns]; [| |done].
      * intros i Hin. destruct (user_list_in _ _ _ _ _ _ _ _ Hns Hin) as (k & HS & Hkb).
        apply (Hf k); [done|congruence].
      * apply Hg. intros ->. by apply Hne, (Hi a b u).
Qed.

(** A new session, not yet on a list. *)
Lemma tables_session S W A U AU f g t ls lu key i d :
  0 <= num -> ei_parts t S A f ls U AU g lu -> ei_tables S W A U AU f g ->
  S !! key = None -> 0 <= i < usable -> i ∉ A (k_proto key =? PROTO_TCP) ->
  int_ip d = k_src_addr key -> int_port d = k_src_port key ->
  let index := i + index_base (cfg st) (k_proto key) in
  ei_tables (<[key := index]> S) W
    (<[k_proto key =? PROTO_TCP := {[i]} ∪ A (k_proto key =? PROTO_TCP)]> A) U AU
    (<[index := d]> f) g /\ (forall k, S !! k <> Some index).
Proof.
  intros Hnum Hp [Hk Hd Hu Hi Hdom Hl] HS Hr Hn Hip Hport index.
  pose proof (usable_num N num ltac:(lia) Hnum) as Hus. fold usable in Hus.
  assert (forall p j, j ∈ A (p =? PROTO_TCP) -> 0 <= j < usable) as Hrange.
  { intros p j. pose proof (dchain_spec (sess_indexes st (p =? PROTO_TCP)) N usable core Hcore) as Hspec.
    apply (allocated_range (AllocatorSpec := Hspec) t). apply (ep_sess _ _ _ _ _ _ _ _ _ Hp). }
  assert (forall k, S !! k <> Some index) as Hfresh.
  { intros k. apply (index_fresh (cfg st) usable S A key i Hk Hrange ltac:(fold num; lia) Hr Hn). }
  split; [split|done]; try done.
  - apply (index_table_add _ usable); try (fold num; lia); done.
  - intros k j. rewrite lookup_insert_Some, fn_insert_dec. intros [[<- <-]|[Hne Hk1]].
    + by rewrite decide_True.
    + rewrite decide_False; [by apply Hd|]. intros <-. by apply (Hfresh k).
  - intros a u l HU HW. destruct (Hl a u l HU HW) as [ns Hns]. exists ns.
    eapply user_list_frame; [| | |exact Hns]; [|done|].
    + intros j Hj. destruct (user_list_in _ _ _ _ _ _ _ _ Hns Hj) as (k & HSk & _).
      apply fn_lookup_insert_ne. intros <-. by apply (Hfresh k).
    + intros k j Hj. rewrite lookup_insert_ne; [done|]. congruence.
Qed.

(** A new user. *)
Lemma tables_user S W A U AU f g a u :
  ei_tables S W A U AU f g -> U !! a = None -> u ∉ AU ->
  forall g', (forall v, v <> u -> g' v = g v) ->
  g' u = UserData (SessNode SESS_LIST_HEAD SESS_LIST_HEAD) 0 ->
  ei_tables S (<[a := []]> W) A (<[a := u]> U) ({[u]} ∪ AU) f g'.
Proof.
  intros [Hk Hd Hu Hi Hdom Hl] HU Hn g' Hg Hgu.
  assert (forall b, U !! b <> Some u) as Hfresh by (intros b Hb; apply Hn, Hu; by exists b).
  split; try done.
  - intros v. rewrite elem_of_union, elem_of_singleton, Hu. split.
    + intros [->|[b Hb]]; [exists a; apply lookup_insert_eq|]. exists b.
      rewrite lookup_insert_ne; [done|]. congruence.
    + intros [b Hb]. apply lookup_insert_Some in Hb as [[_ <-]|[_ Hb]]; [by left|right; by exists b].
  - intros b b' v. rewrite !lookup_insert_Some.
    intros [[<- <-]|[Hne Hb]] [[<- Hv]|[Hne' Hb']]; try done; [by apply Hfresh in Hb'| |by apply (Hi b b' v)].
    subst v. by apply Hfresh in Hb.
  - intros b. by rewrite !lookup_insert_is_Some', Hdom.
  - intros b v l. rewrite !lookup_insert_Some.
    intros [[<- <-]|[Hne Hb]] [[Hb' <-]|[Hne' Hb']]; try done.
    + exists []. split; [|by rewrite Hgu|constructor]. apply ring_empty. unfold nodes.
      rewrite decide_True by done. by rewrite Hgu.
    + destruct (Hl b v l Hb Hb') as [ns Hns]. exists ns.
      eapply user_list_frame; [| | |exact Hns]; [done| |done]. apply Hg. intros ->. by apply Hfresh in Hb.
Qed.

(** ** The operations *)

Hypothesis (Hnum : 0 <= num <= 2 ^ 30) (Husers : 0 <= users <= map_capacity (user_map st)).

Definition indexes_used (S : gmap session Z) (key : session) : Prop :=
  forall i, 0 <= i < usable -> exists k, (k_proto k =? PROTO_TCP) = (k_proto key =? PROTO_TCP) /\
    S !! k = Some (i + index_base (cfg st) (k_proto key)).

Definition session_map_full (S : gmap session Z) : Prop :=
  map_capacity (session_map st) <= Z.of_nat (size S).

Lemma tables_same_indexes S W A A' U AU f g :
  (forall p, A' (p =? PROTO_TCP) ≡ A (p =? PROTO_TCP)) ->
  ei_tables S W A U AU f g -> ei_tables S W A' U AU f g.
Proof. intros E [Hk Hd Hu Hi Hdom Hl]. split; try done. by eapply index_table_ext. Qed.

(** A session without a list: between alloc_session and the insertion. *)
Definition session_alone (t : T) (S : gmap session Z) W (key : session) (i : Z) : Prop :=
  exists A f ls U AU g lu, ei_parts t (<[key := i]> S) A f ls U AU g lu /\
    ei_tables (<[key := i]> S) W A U AU f g /\ (forall k, S !! k <> Some i) /\
    last_used (f i) = now /\ i <> SESS_LIST_HEAD.

Lemma wp_ei_alloc_session key t S W (Q : alloc_result -> T -> Prop) :
  ei_rep t S W -> S !! key = None ->
  (forall i t', session_alone t' S W key i -> Q (Allocated i) t') ->
  (forall t', ei_rep t' S W -> session_map_full S -> Q AllocFailed t') ->
  (forall t', indexes_used S key -> Q AssertFailed t') ->
  wp ei_steps (alloc_session st N core now key) t Q.
Proof.
  intros (HW & A & f & ls & U & AU & g & lu & Hp & Ht) HS HQ HQf HQa. unfold alloc_session. cbv zeta.
  pose proof (usable_num N num ltac:(lia) ltac:(lia)) as Hus. fold usable in Hus.
  set (b := k_proto key =? PROTO_TCP). apply wp_bind; [apply _|]. eapply wp_salloc; [exact Hp| |].
  - intros i t1 Hi Hn Hp1.
    assert (0 <= index_base (cfg st) (k_proto key) <= num) as Hbase.
    { unfold index_base. fold b num. destruct b; lia. }
    rewrite i32_id by lia. set (index := i + _).
    apply wp_bind; [apply _|]. eapply wp_sborrow_mut; [exact Hp1|]. intros t2 Hp2.
    apply wp_bind; [apply _|]. eapply wp_sput; [exact Hp2|done| |].
    + intros t3 Hp3. apply wp_bind; [apply _|]. eapply wp_smodify; [exact Hp3|by left|]. intros t4 Hp4.
      apply wp_bind; [apply _|]. eapply wp_smodify; [exact Hp4|by left|]. intros t5 Hp5.
      apply wp_ret; [apply _|]. apply HQ. rewrite fn_lookup_insert in Hp5.
      destruct (tables_session S W A U AU f g t ls lu key i
        (set_addr (k_src_addr key) (k_src_port key) (set_last_used now (f index)))) as [Ht' Hf]; try done; [lia|].
      do 7 eexists. split; [eapply ei_parts_ext; [|done|exact Hp5]|].
      2: { split; [exact Ht'|]. split; [done|]. rewrite fn_lookup_insert. split; [done|].
           unfold SESS_LIST_HEAD. lia. }
      intros j. rewrite !fn_insert_dec. by destruct (decide _).
    + intros Hfull. cbv zeta. unfold index. rewrite Z.add_simpl_r, i32_id by lia.
      apply wp_bind; [apply _|]. eapply wp_sfree; [exact Hp2|rewrite fn_lookup_insert; set_solver|].
      intros t3 Hp3. apply wp_ret; [apply _|]. apply HQf; [|done]. split; [done|].
      do 7 eexists. split; [exact Hp3|]. eapply tables_same_indexes; [|exact Ht]. intros p.
      rewrite !fn_insert_dec. destruct (decide _) as [<-|]; [|done]. rewrite decide_True by done.
      set_solver.
  - intros t1 Hall Hp1. apply wp_ret; [apply _|]. apply HQa.
    intros i Hi. by apply (it_index _ _ _ (et_keys _ _ _ _ _ _ _ Ht)), Hall.
Qed.

(** *** The users *)

Lemma values_in (m : gmap Z Z) i : i ∈ (map_to_list m).*2 <-> exists k, m !! k = Some i.
Proof.
  rewrite list_elem_of_fmap. split.
  - intros ([k j] & -> & Hk%elem_of_map_to_list). by exists k.
  - intros [k Hk%elem_of_map_to_list]. by exists (k, i).
Qed.

Lemma map_covers (m : gmap Z Z) n :
  (forall i, 0 <= i < n -> exists k, m !! k = Some i) -> n <= Z.of_nat (size m).
Proof.
  intros Hall. destruct (decide (n < 0)); [lia|].
  assert (length (seqZ 0 n) <= length (map_to_list m).*2)%nat as Hle.
  { apply submseteq_length, NoDup_submseteq; [apply NoDup_seqZ|].
    intros i Hi%elem_of_seqZ. apply values_in, Hall. lia. }
  rewrite length_seqZ, length_fmap, length_map_to_list in Hle. lia.
Qed.

Lemma users_size S W A U AU f g : ei_tables S W A U AU f g -> size U = size W.
Proof.
  intros Ht. rewrite <- !(size_dom (D := gset Z)). f_equal. apply set_eq. intros a.
  rewrite !elem_of_dom. apply (et_dom _ _ _ _ _ _ _ Ht).
Qed.

Lemma wp_get_user a t S W A f ls U AU g lu (Q : alloc_result -> T -> Prop) :
  ei_parts t S A f ls U AU g lu -> ei_tables S W A U AU f g ->
  is_Some (W !! a) \/ Z.of_nat (size W) < users ->
  (forall u t' ls' U' AU' g' lu', ei_parts t' S A f ls' U' AU' g' lu' ->
     ei_tables S (<[a := default [] (W !! a)]> W) A U' AU' f g' -> U' !! a = Some u ->
     Q (Allocated u) t') ->
  wp ei_steps (get_user st N core a) t Q.
Proof.
  intros Hp Ht Hroom HQ. unfold get_user. apply wp_bind; [apply _|]. eapply wp_uget; [exact Hp|].
  destruct (U !! a) as [u|] eqn:EU.
  { apply wp_ret; [apply _|]. eapply HQ; [exact Hp| |done].
    destruct (proj1 (et_dom _ _ _ _ _ _ _ Ht a)) as [l El]; [by eexists|].
    rewrite El. cbn. by rewrite insert_id. }
  assert (W !! a = None) as EW.
  { apply eq_None_not_Some. intros Hs. apply (et_dom _ _ _ _ _ _ _ Ht) in Hs as [? ?]. congruence. }
  rewrite EW in Hroom, HQ. destruct Hroom as [[? ?]|Hroom]; [done|].
  unfold alloc_user. apply wp_bind; [apply _|]. eapply wp_ualloc; [exact Hp| |].
  - intros u t1 Hu Hn Hp1. apply wp_bind; [apply _|]. eapply wp_uborrow_mut; [exact Hp1|]. intros t2 Hp2.
    apply wp_bind; [apply _|]. eapply wp_uput; [exact Hp2|done| |].
    { assert (Z.of_nat (size U) < users); [|lia]. rewrite (users_size _ _ _ _ _ _ _ Ht). done. }
    intros t3 Hp3. apply wp_bind; [apply _|]. eapply wp_umodify; [exact Hp3|by left|]. intros t4 Hp4.
    apply wp_bind; [apply _|]. eapply wp_umodify; [exact Hp4|by left|]. intros t5 Hp5.
    apply wp_bind; [apply _|]. eapply wp_umodify; [exact Hp5|by left|]. intros t6 Hp6.
    apply wp_ret; [apply _|]. eapply HQ; [exact Hp6| |apply lookup_insert_eq].
    apply (tables_user _ _ _ _ _ _ _ _ _ Ht EU Hn).
    + intros v Hv. by rewrite !fn_lookup_insert_ne by congruence.
    + by rewrite !fn_lookup_insert.
  - intros t1 Hall Hp1. exfalso. apply (Z.lt_irrefl (Z.of_nat (size W))).
    eapply Z.lt_le_trans; [exact Hroom|]. rewrite <- (users_size _ _ _ _ _ _ _ Ht).
    apply map_covers. intros i Hi. by apply (et_users _ _ _ _ _ _ _ Ht), Hall.
Qed.

(** *** The lists *)

(** The tables after the nodes of one user's list have been rearranged. *)
Lemma tables_nodes S W A U AU f f2 g g2 a u h ns l :
  ei_tables S W A U AU f g -> U !! a = Some u -> ring h ns ->
  (forall j, j ∉ SESS_LIST_HEAD :: ns -> h j = nodes f g u j) ->
  (forall k j, S !! k = Some j -> k_src_addr k <> a -> f2 j = f j) ->
  (forall k j, S !! k = Some j -> int_ip (f2 j) = int_ip (f j) /\ int_port (f2 j) = int_port (f j)) ->
  (forall v, v <> u -> g2 v = g v) -> num_sessions (g2 u) = Z.of_nat (length l) ->
  Forall2 (fun i kt => S !! kt.1 = Some i /\ k_src_addr kt.1 = a /\
    last_used (f2 i) = kt.2 /\ user_index (f2 i) = u) ns l ->
  ei_tables S (<[a := l]> W) A U AU (with_nodes h f2) (with_head u h g2).
Proof.
  intros Ht HU Hr Hh Hf2 Hd2 Hg2 Hn2 Hl. eapply (tables_list _ _ _ _ _ f _ g _ a u ns l Ht HU).
  - intros k j Hk Ha. unfold with_nodes. destruct (decide (j = SESS_LIST_HEAD)); [by eapply Hf2|].
    rewrite (Hf2 k j Hk Ha), Hh.
    + unfold nodes. rewrite decide_False by done. by destruct (f j).
    + rewrite elem_of_cons. intros [?|Hj]; [done|].
      apply list_elem_of_lookup in Hj as [m Hj].
      destruct (Forall2_lookup_l _ _ _ _ _ Hl Hj) as ([k' tm] & _ & Hk' & Ha' & _). cbn in Hk', Ha'.
      apply Ha. by rewrite (it_inj _ _ _ (et_keys _ _ _ _ _ _ _ Ht) k k' j Hk Hk').
  - intros k j Hk. destruct (Hd2 k j Hk) as [<- <-]. unfold with_nodes. by destruct (decide _).
  - intros v Hv. unfold with_head. rewrite decide_False by done. by apply Hg2.
  - split.
    + eapply ring_ext; [|exact Hr]. intros j _. apply nodes_with.
    + unfold with_head. by rewrite decide_True.
    + eapply Forall2_impl; [exact Hl|]. intros j kt (? & ? & <- & <-). split; [done|]. split; [done|].
      unfold with_nodes. by destruct (decide _).
Qed.

Lemma parts_to_nodes t S A f ls U AU g lu u i :
  ei_parts t S A f ls U AU g lu -> i <> SESS_LIST_HEAD -> forall h,
  (forall j, h j = nodes f g u j) ->
  node_parts t S A U AU u h f g [] /\ (i ∈ ls -> node_parts t S A U AU u h f g [i]).
Proof.
  intros Hp Hi h Eh.
  assert (ei_parts t S A (with_nodes h f) ls U AU (with_head u h g) lu) as Hp'.
  { eapply ei_parts_ext; [| |exact Hp]; intros j; unfold with_nodes, with_head; rewrite Eh.
    - apply with_own_nodes.
    - apply with_own_head. }
  split; [|intros Hl]; (eapply ei_parts_weaken; [| |exact Hp']).
  - apply list_subseteq_nil.
  - apply list_subseteq_nil.
  - rewrite filter_cons_True by done. by intros j ->%list_elem_of_singleton.
  - rewrite bool_decide_eq_false_2; [apply list_subseteq_nil|].
    intros E%list_elem_of_singleton. by apply Hi.
Qed.

Lemma wp_list_session t S W A f ls U AU g lu key i u (Q : bool -> T -> Prop) :
  ei_parts t (<[key := i]> S) A f ls U AU g lu -> ei_tables (<[key := i]> S) W A U AU f g ->
  (forall k, S !! k <> Some i) -> last_used (f i) = now -> i <> SESS_LIST_HEAD ->
  U !! k_src_addr key = Some u -> forall l, W !! k_src_addr key = Some l -> entries_ok (k_src_addr key) l ->
  key ∉ l.*1 ->
  (MAX_NUM_SESSIONS_PER_USER <= Z.of_nat (length l) + 1 -> forall t', Q false t') ->
  (Z.of_nat (length l) + 1 < MAX_NUM_SESSIONS_PER_USER ->
   forall t' f' g', ei_parts t' (<[key := i]> S) A f' [] U AU g' [] ->
     ei_tables (<[key := i]> S) (<[k_src_addr key := (key, now) :: l]> W) A U AU f' g' -> Q true t') ->
  wp ei_steps (insert_session st i u) t Q.
Proof.
  intros Hp Ht Hfresh Hlast Hih HU l Hl Hen Hkl HQf HQt.
  destruct (et_list _ _ _ _ _ _ _ Ht _ _ _ HU Hl) as [ns Hns].
  destruct (parts_to_nodes _ _ _ _ _ _ _ _ _ u i Hp Hih (nodes f g u) (fun _ => eq_refl)) as [Hp' _].
  pose proof (en_quota _ _ Hen) as Hq. pose proof Hns as [Hr Hnum' Hf].
  assert (i ∉ SESS_LIST_HEAD :: ns) as Hi.
  { rewrite elem_of_cons. intros [?|Hi]; [done|]. apply Hkl.
    apply list_elem_of_lookup in Hi as [n Hi].
    destruct (Forall2_lookup_l _ _ _ _ _ Hf Hi) as ([k tm] & Hn & Hk & _). cbn in Hk.
    apply lookup_insert_Some in Hk as [[-> _]|[_ Hk]]; [|by apply Hfresh in Hk].
    apply list_elem_of_fmap. exists (k, tm). split; [done|]. by eapply list_elem_of_lookup_2. }
  unfold MAX_NUM_SESSIONS_PER_USER in *.
  eapply (wp_insert_session _ _ _ _ _ _ _ _ t ns); [exact Hp'|exact Hr|exact Hi| |];
    rewrite Hnum', i32_id by lia; [exact HQf|].
  intros Hlt t' Hp2. eapply (HQt Hlt); [exact Hp2|].
  eapply (tables_nodes _ _ _ _ _ f _ g _ _ u _ (i :: ns) _ Ht HU).
  - by apply ring_insert.
  - intros j Hj. rewrite !not_elem_of_cons in Hj. destruct Hj as (Hj1 & Hj2 & Hj3).
    apply (insert_front_other _ ns); [done| |done]. by apply not_elem_of_cons.
  - intros k j Hk Ha. rewrite fn_lookup_insert_ne; [done|]. intros <-.
    apply lookup_insert_Some in Hk as [[-> _]|[_ Hk]]; [done|by apply Hfresh in Hk].
  - intros k j _. rewrite fn_insert_dec. by destruct (decide (i = j)) as [<-|].
  - intros v Hv. by rewrite fn_lookup_insert_ne.
  - rewrite fn_lookup_insert. cbn [num_sessions set_num_sessions length]. lia.
  - constructor.
    + cbn [fst snd]. rewrite lookup_insert_eq, fn_lookup_insert. done.
    + apply Forall2_same_length_lookup. apply Forall2_same_length_lookup in Hf as [Hlen Hf].
      split; [done|]. intros n j kt Hj Hk. rewrite fn_lookup_insert_ne; [by apply (Hf n)|].
      intros <-. apply Hi. right. by eapply list_elem_of_lookup_2.
Qed.

(** A session that is due for a refresh moves to the front of its list. *)
Definition due (tm : Z) : Prop := i64 (tm + EI_NAT_SECOND) < now.

Definition touched (key : session) W W' : Prop :=
  exists l1 tm l2, W !! k_src_addr key = Some (l1 ++ (key, tm) :: l2) /\
    (due tm -> W' = <[k_src_addr key := (key, now) :: l1 ++ l2]> W) /\ (~ due tm -> W' = W).

(** Where a session is on its list. *)
Lemma session_place S W A U AU f g key i :
  ei_tables S W A U AU f g -> lists_ok S W -> S !! key = Some i ->
  exists u l1 tm l2 n1 n2,
    U !! k_src_addr key = Some u /\ W !! k_src_addr key = Some (l1 ++ (key, tm) :: l2) /\
    user_list S f g (k_src_addr key) u (n1 ++ i :: n2) (l1 ++ (key, tm) :: l2) /\
    last_used (f i) = tm /\ user_index (f i) = u /\
    Forall2 (fun i kt => S !! kt.1 = Some i /\ k_src_addr kt.1 = k_src_addr key /\
      last_used (f i) = kt.2 /\ user_index (f i) = u) (n1 ++ n2) (l1 ++ l2).
Proof.
  intros Ht HW HS. assert (key ∈ (default [] (W !! k_src_addr key)).*1) as Hin
    by (apply (lo_listed _ _ HW); by exists i).
  destruct (W !! k_src_addr key) as [l|] eqn:El; [|by apply not_elem_of_nil in Hin]. cbn in Hin. unfold id in Hin.
  apply list_elem_of_fmap in Hin as ([k tm] & Ek & Hin). cbn in Ek. subst k.
  apply list_elem_of_split in Hin as (l1 & l2 & ->).
  destruct (proj2 (et_dom _ _ _ _ _ _ _ Ht (k_src_addr key))) as [u HU]; [by eexists|].
  destruct (et_list _ _ _ _ _ _ _ Ht _ _ _ HU El) as [ns Hns].
  pose proof (ul_entries _ _ _ _ _ _ _ Hns) as Hf.
  apply Forall2_app_inv_r in Hf as (n1 & n2' & Hf1 & Hf2 & ->).
  apply Forall2_cons_inv_r in Hf2 as (j & n2 & (HSj & _ & Hl & Hu) & Hf2 & ->). cbn in HSj, Hl.
  assert (j = i) as -> by congruence.
  exists u, l1, tm, l2, n1, n2. do 5 (split; [done|]). by apply Forall2_app.
Qed.

Lemma wp_refresh t S W key i (Q : unit -> T -> Prop) :
  ei_rep t S W -> S !! key = Some i ->
  (forall t' W', ei_rep t' S W' -> touched key W W' -> Q tt t') ->
  wp ei_steps (refresh st now i) t Q.
Proof.
  intros (HW & A & f & ls & U & AU & g & lu & Hp & Ht) HS HQ.
  destruct (session_place _ _ _ _ _ _ _ _ _ Ht HW HS) as (u & l1 & tm & l2 & n1 & n2 & HU & El & Hns & Htm & Hu & Hf2).
  pose proof (ul_ring _ _ _ _ _ _ _ Hns) as Hr. pose proof (ul_num _ _ _ _ _ _ _ Hns) as Hn.
  assert (i <> SESS_LIST_HEAD) as Hih.
  { intros ->. apply (head_not_in _ _ Hr), elem_of_app. right. by left. }
  unfold refresh. apply wp_bind; [apply _|]. eapply wp_sborrow; [exact Hp|]. cbv zeta. rewrite Htm, Hu.
  destruct (Z.gtb_spec now (i64 (tm + EI_NAT_SECOND))) as [Hdue|Hdue].
  2: { apply wp_ret; [apply _|]. apply (HQ t W); [split; [done|]; by do 7 eexists|]. exists l1, tm, l2.
       split; [done|]. unfold due. split; [lia|done]. }
  apply wp_bind; [apply _|]. eapply wp_sborrow_mut; [exact Hp|]. intros t1 Hp1.
  apply wp_bind; [apply _|]. eapply wp_smodify; [exact Hp1|by left|]. intros t2 Hp2.
  set (f2 := <[i := set_last_used now (f i)]> f) in *. set (h := nodes f g u).
  destruct (parts_to_nodes _ _ _ _ _ _ _ _ _ u i Hp2 Hih h) as [_ Hp3].
  { intros j. unfold h, nodes, f2. rewrite fn_insert_dec. by destruct (decide (i = j)) as [<-|]. }
  eapply (wp_move_to_front _ _ _ _ _ h f2 g); [by apply Hp3; left|exact Hr|]. clear Hp3.
  set (h' := if decide (n1 = []) then h else insert_front i (extract i h)). intros t3 Hp4.
  assert (i ∉ SESS_LIST_HEAD :: n1 ++ n2) as Hi.
  { pose proof (ring_nodup _ _ Hr) as Hnd. rewrite app_comm_cons, <- Permutation_middle in Hnd.
    by apply NoDup_cons in Hnd as [? _]. }
  apply (HQ t3 (<[k_src_addr key := (key, now) :: l1 ++ l2]> W)).
  2: { exists l1, tm, l2. split; [done|]. split; [done|]. unfold due. lia. }
  split; [by eapply lists_touch|]. exists A, (with_nodes h' f2), [], U, AU, (with_head u h' g), [].
  split; [exact Hp4|]. eapply (tables_nodes _ _ _ _ _ f f2 g g _ u h' (i :: n1 ++ n2) _ Ht HU).
  - unfold h'. destruct (decide (n1 = [])) as [->|]; [exact Hr|].
    apply ring_insert; [by apply ring_extract|done].
  - intros j Hj. rewrite !not_elem_of_cons in Hj. destruct Hj as (Hj1 & Hj2 & Hj3).
    unfold h'. destruct (decide (n1 = [])) as [->|]; [done|]. fold h.
    assert (j ∉ SESS_LIST_HEAD :: n1 ++ n2) by (by apply not_elem_of_cons).
    rewrite (insert_front_other _ (n1 ++ n2)); [|by apply ring_extract|done|done].
    by apply (extract_other _ n1 _ n2).
  - intros k j Hk Ha. unfold f2. rewrite fn_lookup_insert_ne; [done|]. intros <-.
    apply Ha. by rewrite (it_inj _ _ _ (et_keys _ _ _ _ _ _ _ Ht) k key i Hk HS).
  - intros k j _. unfold f2. rewrite fn_insert_dec. by destruct (decide (i = j)) as [<-|].
  - done.
  - rewrite Hn. rewrite !length_app. cbn [length]. rewrite length_app. lia.
  - constructor.
    + cbn [fst snd]. unfold f2. rewrite fn_lookup_insert. done.
    + apply Forall2_same_length_lookup. apply Forall2_same_length_lookup in Hf2 as [Hlen Hf2].
      split; [done|]. intros n j kt Hj Hk. unfold f2. rewrite fn_lookup_insert_ne; [by apply (Hf2 n)|].
      intros <-. apply Hi. right. by eapply list_elem_of_lookup_2.
Qed.

(** *** The sessions of packets *)

(** The user of a new session is known or can be allocated. *)
Definition user_room W (key : session) : Prop :=
  is_Some (W !! k_src_addr key) \/ Z.of_nat (size W) < users.

(** The lists with a new session. *)
Definition listed (key : session) W : gmap Z (list (session * Z)) :=
  <[k_src_addr key := (key, now) :: default [] (W !! k_src_addr key)]> W.

Definition quota_used W (key : session) : Prop :=
  MAX_NUM_SESSIONS_PER_USER <= Z.of_nat (length (default [] (W !! k_src_addr key))) + 1.

Lemma wp_new_session t S W key (Q : session_result -> T -> Prop) :
  ei_rep t S W -> S !! key = None -> user_room W key ->
  (forall i t', ei_rep t' (<[key := i]> S) (listed key W) -> Q (Session i) t') ->
  (forall t', ei_rep t' S W -> session_map_full S -> Q NoSession t') ->
  (forall t', indexes_used S key \/ quota_used W key -> Q SessionAssert t') ->
  wp ei_steps (new_session st N core now key) t Q.
Proof.
  intros Hrep HS Hroom HQ HQn HQa. unfold new_session. apply wp_bind; [apply _|].
  pose proof Hrep as [HW _].
  eapply wp_ei_alloc_session; [exact Hrep|done| | |].
  2: { intros t' Hr Hfull. apply wp_ret; [apply _|]. by apply HQn. }
  2: { intros t' Hused. apply wp_ret; [apply _|]. apply HQa. by left. }
  intros i t1 (A & f & ls & U & AU & g & lu & Hp & Ht & Hfresh & Hlast & Hih).
  apply wp_bind; [apply _|]. eapply wp_get_user; [exact Hp|exact Ht|exact Hroom|].
  intros u t2 ls' U' AU' g' lu' Hp' Ht' HU'. apply wp_bind; [apply _|].
  pose proof (lists_default _ _ (k_src_addr key) HW) as Hen.
  set (l := default [] (W !! k_src_addr key)) in *.
  eapply wp_list_session; [exact Hp'|exact Ht'|done|done|done|exact HU'|apply lookup_insert_eq|exact Hen| | |].
  - intros Hin. apply (lo_listed _ _ HW) in Hin as [? ?]. congruence.
  - intros Hq t3. apply wp_ret; [apply _|]. apply HQa. by right.
  - intros Hq t3 f' g'' Hp3 Ht3. apply wp_ret; [apply _|]. apply HQ. split.
    + by apply lists_add.
    + rewrite insert_insert_eq in Ht3. by do 7 eexists.
Qed.

(** What the look-up or allocation of a session for a packet comes to. *)
Definition session_post (t : T) (S : gmap session Z) W (key : session) (r : session_result) (t' : T) : Prop :=
  match r with
  | Session i => exists S' W', ei_rep t' S' W' /\ S' !! key = Some i /\
      (S !! key = Some i /\ S' = S /\ touched key W W' \/
       S !! key = None /\ S' = <[key := i]> S /\ W' = listed key W)
  | Mapped ip port => S !! key = None /\ ei_rep t' S W /\ exists index m,
      Vig.map_get (mapping_hash st) (init_nat_k (k_src_addr key) (k_src_port key) LAN_DEVICE (k_proto key)) = Some index /\
      m = view (elems (static_mappings st)) t index /\ ip = local_address m /\
      port = (if is_addr_only_static_mapping m then k_src_port key else local_port m)
  | NoSession => S !! key = None /\ ei_rep t' S W /\ session_map_full S
  | SessionAssert => S !! key = None /\ (indexes_used S key \/ quota_used W key)
  end.

Lemma wp_ei_get_session t S W key :
  ei_rep t S W -> (S !! key = None -> user_room W key) ->
  wp ei_steps (get_session st N core now key) t (session_post t S W key).
Proof.
  intros Hrep Hroom. pose proof Hrep as (HW & A & f & ls & U & AU & g & lu & Hp & Ht).
  unfold get_session. apply wp_bind; [apply _|]. eapply wp_sget; [exact Hp|].
  destruct (S !! key) as [i|] eqn:HS.
  { apply wp_bind; [apply _|]. apply wp_ret; [apply _|]. apply wp_bind; [apply _|].
    eapply wp_refresh; [exact Hrep|exact HS|]. intros t' W' Hr' Hto. apply wp_ret; [apply _|].
    exists S, W'. split; [done|]. split; [done|]. left. by split. }
  apply wp_bind; [apply _|]. apply wp_bind; [apply _|]. unfold nat_static_mapping_match.
  destruct (Vig.map_get (mapping_hash st) _) as [index|] eqn:Em.
  { apply wp_bind; [apply _|].
    split; [reflexivity|].
    apply wp_ret; [apply _|]. apply wp_ret; [apply _|]. apply wp_ret; [apply _|].
    split; [done|]. split; [done|]. exists index. eexists. split; [exact Em|]. split; [done|]. by split. }
  apply wp_ret; [apply _|]. eapply wp_new_session; [exact Hrep|exact HS|by apply Hroom| | |].
  - intros i t1 Hr1. apply wp_bind; [apply _|].
    eapply wp_refresh; [exact Hr1|apply lookup_insert_eq|]. intros t2 W' Hr2 (l1 & tm & l2 & El & Hdue & Hnot).
    apply wp_ret; [apply _|]. exists (<[key := i]> S), W'. split; [done|].
    split; [apply lookup_insert_eq|]. right. split; [done|]. split; [done|].
    destruct (decide (due tm)) as [Hd|Hd]; [|by apply Hnot].
    rewrite (Hdue Hd). unfold listed in *. rewrite lookup_insert_eq in El. injection El as El.
    destruct Hr1 as [HW1 _]. pose proof (lo_entries _ _ HW1 (k_src_addr key) _ (lookup_insert_eq _ _ _)) as Hen.
    rewrite insert_insert_eq. f_equal. rewrite El in Hen |- *.
    destruct l1 as [|x l1]; [by injection El as <- _|]. injection El as <- El.
    pose proof (en_nodup _ _ Hen) as Hnd. cbn in Hnd. apply NoDup_cons in Hnd as [Hnd _].
    exfalso. apply Hnd. rewrite fmap_app, elem_of_app. right. by left.
  - intros t1 Hr1 Hfull. apply wp_ret; [apply _|]. done.
  - intros t1 Hor. apply wp_ret; [apply _|]. done.
Qed.

Lemma ei_session_range t S W A f ls U AU g lu k i :
  ei_parts t S A f ls U AU g lu -> ei_tables S W A U AU f g -> S !! k = Some i ->
  0 <= i - index_base (cfg st) (k_proto k) < num.
Proof.
  intros Hp Ht Hk. pose proof (usable_num N num ltac:(lia) ltac:(lia)) as Hu. fold usable in Hu.
  pose proof (index_allocated _ _ _ _ _ (et_keys _ _ _ _ _ _ _ Ht) Hk) as Hin.
  pose proof (dchain_spec (sess_indexes st (k_proto k =? PROTO_TCP)) N usable core Hcore) as Hspec.
  pose proof (allocated_range (AllocatorSpec := Hspec) t _ _ (ep_sess _ _ _ _ _ _ _ _ _ Hp _) Hin). lia.
Qed.
End spec.

(** Sessions of the table that have the same external address and port are
    the same. *)
Lemma sessions_differ {T B} `{RluTxn T} `{!PacketIo B, !PacketIoLaws B} (st : nf_state T)
    `{!EiLaws st, !MapConfig (session_map st), !MapConfig (user_map st)} (N core now users : Z) (Hcore : 0 <= core < N)
    (Hok : config_ok (cfg st)) t S W k k' i i' :
  ei_rep st N now users t S W -> S !! k = Some i -> S !! k' = Some i' ->
  (k_proto k' =? PROTO_TCP) = (k_proto k =? PROTO_TCP) ->
  sess_id_to_ext_tuple (B := B) (cfg st) i' (k_proto k') =
    sess_id_to_ext_tuple (B := B) (cfg st) i (k_proto k) -> k' = k.
Proof.
  intros (_ & A & f & ls & U & AU & g & lu & Hp & Ht) Hk Hk' Ep Et.
  pose proof (ok_tuples _ Hok) as Htup.
  assert (0 <= num_avail_ext_tuples (cfg st) <= 2 ^ 30) as Hnum.
  { pose proof (ok_size _ Hok). destruct (ok_ports _ Hok), (ok_addrs _ Hok) as (? & ? & ?). nia. }
  pose proof (ei_session_range st N core users Hcore Hnum t S W A f ls U AU g lu) as Hr.
  pose proof (tuple_roundtrip (B := B) (cfg st) Hok (k_proto k) i (Hr k i Hp Ht Hk)) as H1.
  pose proof (tuple_roundtrip (B := B) (cfg st) Hok (k_proto k') i' (Hr k' i' Hp Ht Hk')) as H2.
  rewrite Et in H2. destruct (sess_id_to_ext_tuple (cfg st) i (k_proto k)) as [ip port].
  destruct H1 as (_ & _ & H1), H2 as (_ & _ & H2).
  apply (it_inj _ _ _ (et_keys _ _ _ _ _ _ _ _ Ht) _ _ i); [|done].
  rewrite Hk'. f_equal. rewrite <- H1, <- H2. unfold ext_tuple_to_sess_id, index_base. by rewrite Ep.
Qed.

(** ** Packets *)

Section packets.
Context {T B : Type} `{RluTxn T} `{!PacketIo B, !PacketIoLaws B} (st : nf_state T) `{!EiLaws st}.
Abbreviation mem := (nf_mem (pkt_t B) pkt_set_id_t unit).

(** What the forwarding table of a device says of an address. *)
Definition forwarding (t : T) (dev x : Z) : option dpo_t :=
  load_balance_get_bucket_i (view (elems (lb_pool_vec st)) t
    (mtrie_lookup (mtrie (ip4_fib_get (ip4_fibs st) dev)) (view (elems (ply_pool_vec st)) t) x)) 0.

(** The packet translated and, if its destination can be reached, sent. *)
Definition ei_action (t : T) (dev ip port : Z) (m : mem) : ei_result * mem :=
  let pkt := translated ip port (nf_packet m) in
  match forwarding t dev (bswap32 (dst_addr (ipv4 pkt))) with
  | None => (AssertionFailed, set_packet pkt m)
  | Some d =>
      (Returned,
       if action d =? DROP then set_packet pkt m
       else if action d =? FORWARD then
         set_dst_device (send_device d) (set_packet (set_ether_header
           (Ether (dst_mac_address d) (device_macs (cfg st) (send_device d))) pkt) m)
       else set_packet pkt m)
  end.

Lemma nat_pkt_action_run t dev ip port (m : mem) :
  dev <> wan_device (cfg st) ->
  nat_pkt_action st ip port dev (m, t) =
  (Some (ei_action t dev ip port m).1, ((ei_action t dev ip port m).2, t)).
Proof.
  intros Hdev. unfold nat_pkt_action. rewrite (proj2 (Z.eqb_neq _ _) Hdev).
  unfold bind at 1. cbn [on_nf_mem]. unfold bind at 1. cbn [on_nf_mem]. unfold bind at 1, on_txn.
  rewrite fib_lookup_run. unfold ei_action, forwarding. fold (translated ip port (nf_packet m)).
  change (nf_packet (set_packet (translated ip port (nf_packet m)) m)) with (translated ip port (nf_packet m)).
  destruct (load_balance_get_bucket_i _ 0) as [d|]; [|reflexivity].
  unfold bind. destruct (action d =? DROP); [reflexivity|]. by destruct (action d =? FORWARD).
Qed.

Lemma forwarding_steps t t' dev x : ei_steps st t t' -> forwarding t' dev x = forwarding t dev x.
Proof.
  intros Hs. unfold forwarding, mtrie_lookup, ip4_fib_mtrie_lookup_step.
  assert (forall i, view (elems (ply_pool_vec st)) t' i = view (elems (ply_pool_vec st)) t i) as Hp.
  { intros i. by apply (ei_steps_view st (elems (ply_pool_vec st)) t t' i (fun p => ei_plies p)). }
  rewrite (ei_steps_view st (elems (lb_pool_vec st)) t t' _ (fun p => ei_lbs p) Hs).
  by rewrite !Hp.
Qed.

Lemma ei_action_steps t t' dev ip port m :
  ei_steps st t t' -> ei_action t' dev ip port m = ei_action t dev ip port m.
Proof. intros Hs. unfold ei_action. by rewrite (forwarding_steps _ _ _ _ Hs). Qed.
End packets.

(** What a run of the handler on the packet of [m] and the tables [S] and [W]
    comes to. *)
Inductive ei_handled {T B} `{RluTxn T} `{!PacketIo B} (st : nf_state T) (N now users dev : Z)
    (m : nf_mem (pkt_t B) pkt_set_id_t unit) (t : T) (S : gmap session Z) (W : gmap Z (list (session * Z)))
    : option ei_result * (nf_mem (pkt_t B) pkt_set_id_t unit * T) -> Prop :=
| handled_session i t' S' W' ip port r m' :
    let key := session_of (nf_packet m) in
    ei_rep st N now users t' S' W' -> S' !! key = Some i ->
    S !! key = Some i /\ S' = S /\ touched now key W W' \/
    S !! key = None /\ S' = <[key := i]> S /\ W' = listed now key W ->
    sess_id_to_ext_tuple (B := B) (cfg st) i (k_proto key) = (ip, port) ->
    (forall k' i', S' !! k' = Some i' -> (k_proto k' =? PROTO_TCP) = (k_proto key =? PROTO_TCP) ->
       sess_id_to_ext_tuple (B := B) (cfg st) i' (k_proto k') = (ip, port) -> k' = key) ->
    (r, m') = ei_action st t dev ip port m ->
    ei_handled st N now users dev m t S W (Some r, (m', t'))
| handled_mapping index t' r m' :
    let key := session_of (nf_packet m) in
    let mp := view (elems (static_mappings st)) t index in
    S !! key = None -> ei_rep st N now users t' S W ->
    Vig.map_get (mapping_hash st) (init_nat_k (k_src_addr key) (k_src_port key) LAN_DEVICE (k_proto key)) = Some index ->
    (r, m') = ei_action st t dev (local_address mp)
      (if is_addr_only_static_mapping mp then k_src_port key else local_port mp) m ->
    ei_handled st N now users dev m t S W (Some r, (m', t'))
| handled_full t' :
    S !! session_of (nf_packet m) = None -> session_map_full st S -> ei_rep st N now users t' S W ->
    ei_handled st N now users dev m t S W (Some Returned, (m, t'))
| handled_assert mt :
    S !! session_of (nf_packet m) = None ->
    indexes_used st N S (session_of (nf_packet m)) \/ quota_used W (session_of (nf_packet m)) ->
    ei_handled st N now users dev m t S W (Some AssertionFailed, mt)
| handled_abort mt :
    ~ no_conflict t -> ei_handled st N now users dev m t S W (None, mt).

(** ** The tables at the start *)

Lemma ei_rep_empty {T} `{RluTxn T} (st : nf_state T) (N now users : Z) (t : T) :
  map_rep (session_map st) t ∅ -> map_rep (user_map st) t ∅ ->
  (forall b, dchain_set (sess_indexes st b) N (N * (num_avail_ext_tuples (cfg st) / N)) t ∅) ->
  dchain_set (user_indexes st) N users t ∅ -> ei_rep st N now users t ∅ ∅.
Proof.
  intros Hs Hu Ht Hus. split.
  { split; [|done]. intros k. split; [by intros [? ?]|by intros ?%not_elem_of_nil]. }
  exists (fun _ => ∅), (view (elems (session_data st)) t), [], ∅, ∅, (view (elems (user_data st)) t), [].
  split.
  - split; try done; (split; [done|by intros ? ?%not_elem_of_nil]).
  - split; try done; [apply index_table_empty| |].
    + intros u. split; [by intros ?%not_elem_of_empty|by intros [a ?]].
    + intros a. split; by intros [? ?].
Qed.

(** The memories hold what nf_init has written. *)
Record reads_fresh {T} (g : ei_masters) (mm : RluMem T (nfos_map_entry session))
    (mt mu : RluMem T nfos_dchain_cell) (um : RluMem T (nfos_map_entry Z)) (us : RluMem T nfos_dchain_cell)
    (t : T) : Prop := {
  rf_sessions i : view mm t i = mm_entries (ms_session_map g) i;
  rf_tcp i : view mt t i = ms_sess_tcp g i;
  rf_udp i : view mu t i = ms_sess_udp g i;
  rf_users i : view um t i = mm_entries (ms_user_map g) i;
  rf_indexes i : view us t i = ms_users g i
}.

(** What nf_init promises its handlers for [N] cores. *)
Definition ei_ready (N : Z) (g : ei_masters) : Prop :=
  let users := N * (MAX_NUM_USERS / N) in
  config_ok (ms_cfg g) /\ wan_device (ms_cfg g) = WAN_DEVICE /\ tables_ready (ms_tables g) /\
  0 <= users <= mm_capacity (ms_user_map g) /\
  vmap_rep key_hash key_equal 0 (ms_mapping_hash g) ∅ /\
  forall T (H : RluTxn T) mm md mt mu um ud us khash uhash mappings plies lbs (t : T) now,
  let st := ei_state g mm md mt mu um ud us khash uhash mappings plies lbs in
  reads_fresh g mm mt mu um us t -> ei_rep st N now users t ∅ ∅.

(** ** Properties *)

(** C6: the handler of packets from the private network: the packet's session
    is looked up, or a static mapping of its source, or a session is added to
    the table and to the front of its user's list; a session that was last
    refreshed more than EI_NAT_SECOND cycles ago goes to the front of the
    list with the new time.  The user's table has room for the packet's user
    ([user_room]), and no time in the tables lies in the future ([ei_rep]).  The packet leaves with the external address and port of
    its session, which no other session of its class has, through the device
    the forwarding table names, and the lists stay those of the table's
    sessions, by user and in the order of their times.  A packet that finds
    the map full is not sent; assertions fail only when the indexes of the
    protocol's class or the user's quota are used up (or the forwarding table
    leads to no entry); an abort means that another thread holds a lock. *)
Theorem ei_pkt_handler_spec {T B} `{RluTxn T} `{!PacketIo B, !PacketIoLaws B} (st : nf_state T)
    `{!EiLaws st, !MapConfig (session_map st), !MapConfig (user_map st)}
    (N core now users dev : Z) (m : nf_mem (pkt_t B) pkt_set_id_t unit) (t : T) (S : gmap session Z)
    (W : gmap Z (list (session * Z)))
    (Hcore : 0 <= core < N) (Hok : config_ok (cfg st)) (Hdev : dev <> wan_device (cfg st))
    (Husers : 0 <= users <= map_capacity (user_map st))
    (Hr : ei_rep st N now users t S W)
    (Hroom : S !! session_of (nf_packet m) = None -> user_room users W (session_of (nf_packet m))) :
  ei_handled st N now users dev m t S W (pkt_handler st N core now dev (m, t)).
Proof.
  pose proof (ok_tuples _ Hok) as Htup.
  assert (0 <= num_avail_ext_tuples (cfg st) <= 2 ^ 30) as Hnum.
  { pose proof (ok_size _ Hok). destruct (ok_ports _ Hok), (ok_addrs _ Hok) as (? & ? & ?). nia. }
  set (key := session_of (nf_packet m)) in *.
  pose proof (wp_ei_get_session st N core now users Hcore Hnum Husers t S W key Hr Hroom) as Hwp.
  unfold pkt_handler. unfold bind at 1. unfold drop_expired_ttl at 1. unfold bind at 1. cbn [on_nf_mem].
  assert (forall (b : bool) (m0 : nf_mem (pkt_t B) pkt_set_id_t unit) (t0 : T),
    (if b then drop_pkt else ret tt) (m0, t0) = (Some tt, (m0, t0))) as -> by (by intros []).
  rewrite (proj2 (Z.eqb_neq _ _) Hdev). unfold bind at 1. cbn [on_nf_mem]. fold key.
  unfold bind at 1, on_txn. unfold wp in Hwp.
  destruct (get_session st N core now key t) as [[[i|ip port| |]|] t'].
  - destruct Hwp as [Hs (S' & W' & Hr' & Hk & HS')].
    destruct (sess_id_to_ext_tuple (cfg st) i (k_proto key)) as [ip port] eqn:Et.
    rewrite (nat_pkt_action_run st t' dev ip port m Hdev), (ei_action_steps st t t' dev ip port m Hs).
    apply (handled_session st N now users dev m t S W i t' S' W' ip port); [done|done|done|exact Et| |].
    + intros k' i' Hk' Ep Et'. rewrite <- Et in Et'.
      by apply (sessions_differ st N core now users Hcore Hok t' S' W' key k' i i').
    + by destruct (ei_action st t dev ip port m).
  - destruct Hwp as [Hs (HS & Hr' & index & mp & Em & -> & -> & ->)].
    rewrite (nat_pkt_action_run st t' dev _ _ m Hdev), (ei_action_steps st t t' dev _ _ m Hs).
    apply (handled_mapping st N now users dev m t S W index t'); [done|done|done|]. fold key.
    by destruct (ei_action st t dev _ _ m).
  - destruct Hwp as [_ (HS & Hr' & Hfull)]. by apply handled_full.
  - destruct Hwp as [_ (HS & Hor)]. by apply handled_assert.
  - by apply handled_abort.
Qed.

Lemma init_users_ok ok f shl32 lcores gb k :
  1 < lcores -> lcores - 1 <= MAX_NUM_USERS -> MAX_NUM_USERS <= Z.of_nat (S (S f)) ->
  match init_users ok (S (S f)) shl32 lcores gb k with
  | Some (Some g) => (forall i, 10 <= i < 30 -> ok i = true) /\ exists cap ud us tb mp h,
      g = k (MapMasters (map_reset_loop (Z.to_nat cap) 0 (gb_users gb)) 8 cap) ud us tb mp h /\
      MAX_NUM_USERS <= cap /\
      chain_rep (lcores - 1) ((lcores - 1) * (MAX_NUM_USERS / (lcores - 1))) us (fun _ => []) /\
      tables_ready tb /\ vmap_rep key_hash key_equal 0 h ∅
  | Some None => exists i, 0 <= i < 30 /\ ok i = false
  | None => False
  end.
Proof.
  intros Hc Hle Hf. unfold init_users, nfos_map_allocate_t, nfos_vector_allocate_t.
  destruct (ok 10) eqn:E10; cbn [negb]; [|by exists 10]. destruct (ok 11) eqn:E11; cbn [negb]; [|by exists 11].
  destruct (ok 12) eqn:E12; cbn [negb]; [|by exists 12]. destruct (ok 13) eqn:E13; cbn [negb]; [|by exists 13].
  pose proof (dchain_allocate_ok (ok 14) (ok 15) (S (S f)) (gb_cells gb 2) lcores MAX_NUM_USERS Hc Hle Hf) as Hd.
  destruct (nfos_dchain_allocate_t (ok 14) (ok 15) _ _ _ _) as [[us|]|]; [| |done].
  2: { apply andb_false_iff in Hd as [E|E]; [by exists 14|by exists 15]. }
  destruct Hd as [[E14 E15]%andb_true_iff Hus].
  pose proof (fw_init_tables_ok (fun i => ok (16 + i)) f shl32 (gb_lbs gb) (gb_lbs gb) (gb_fibs gb)
    (gb_fibs gb) (gb_plies gb) (gb_plies gb) (gb_dpos gb)) as Ht.
  destruct (fw_init_tables _ _ _ _ _ _ _ _ _ _) as [tb|].
  2: { destruct Ht as (i & Hi & E). exists (16 + i). split; [lia|done]. }
  destruct Ht as [Hok Ht].
  pose proof (static_mapping_init_ok 0 (fun i => ok (22 + Z.of_nat i)) (gb_mappings gb) (gb_mappings gb)
    (gb_hash gb) ltac:(lia)) as Hs. change (2 ^ 0) with N_STATIC_MAPPINGS in Hs.
  destruct (nat_static_mapping_init _ _ _ _ _) as [[mp h]|].
  2: { destruct Hs as (i & Hi & E). exists (22 + Z.of_nat i). split; [lia|done]. }
  destruct Hs as [Hh Hsok]. split.
  - intros i Hi. destruct (decide (16 <= i < 22)) as [Hi2|Hi2]; [|destruct (decide (22 <= i)) as [Hi3|Hi3]].
    + specialize (Hok (i - 16) ltac:(lia)). by replace (16 + (i - 16)) with i in Hok by lia.
    + specialize (Hsok (Z.to_nat (i - 22)) ltac:(lia)).
      by replace (22 + Z.of_nat (Z.to_nat (i - 22))) with i in Hsok by lia.
    + assert (i = 10 \/ i = 11 \/ i = 12 \/ i = 13 \/ i = 14 \/ i = 15) as Hor by lia.
      clear - Hor E10 E11 E12 E13 E14 E15. by destruct_or!; subst i.
  - do 6 eexists. split; [reflexivity|]. split; [by vm_compute|]. by split_and!.
Qed.

(** Nf_init of the endpoint-independent NAT terminates; it fails only when
    memory cannot be had; otherwise the configuration is one under which
    sessions and external addresses correspond, every address but 0.0.0.0
    leads outside in the tables of both devices, the map of users has room
    for all user indexes, and the handlers start with no session, no user and
    no static mapping. *)
Theorem ei_nf_init_spec (ok : Z -> bool) (fuel : nat) (shl32 num_devs lcores : Z) (macs : Z -> rte_ether_addr)
    (gb : ei_garbage)
    (Hcores : 1 < lcores) (Hfew : lcores <= ext_tuples)
    (Hfuel : MAX_NUM_USERS <= Z.of_nat fuel) :
  match nf_init ok fuel shl32 num_devs lcores macs gb with
  | Some (Some g) => (forall i, 0 <= i < 30 -> ok i = true) /\ ei_ready (lcores - 1) g /\
      forall i, 0 <= i < num_devs -> device_macs (ms_cfg g) i = macs i /\
        endpoint_macs (ms_cfg g) i = (Mac (u8 (1 + i)) 35 69 86 120 154)
  | Some None => exists i, 0 <= i < 30 /\ ok i = false
  | None => False
  end.
Proof.
  destruct fuel as [|[|f]]; [unfold MAX_NUM_USERS in Hfuel; lia..|]. set (fuel := S (S f)) in *.
  assert (ext_tuples <= MAX_NUM_USERS) as Hsmall by done.
  pose proof (init_sessions_ok ok fuel num_devs lcores macs 32 sess_data_null_init (gb_macs gb) (gb_sess gb)
    (gb_data gb) (gb_cells gb) Hcores Hfew ltac:(lia)) as H1.
  unfold nf_init. destruct (init_sessions _ _ _ _ _ _ _ _ _ _ _) as [[ss|]|]; [| |done].
  2: { destruct H1 as (i & Hi & E). exists i. split; [lia|done]. }
  destruct H1 as (Hok1 & Hcfg & [cap0 Hmap] & Htcp & Hudp).
  destruct ss as [c sm sd tcp udp]. cbn in Hcfg, Hmap, Htcp, Hudp. subst c sm.
  cbn [nm_cfg nm_session_map nm_session_data nm_sess_tcp nm_sess_udp].
  match goal with |- context [init_users ok fuel shl32 lcores gb ?k] =>
    pose proof (init_users_ok ok f shl32 lcores gb k Hcores ltac:(lia) Hfuel) as H3 end.
  fold fuel in H3. destruct (init_users _ _ _ _ _ _) as [[g|]|]; [|done|done].
  destruct H3 as (Hok & cap & ud & us & tb & mp & h & -> & Hcap & Hus & Htb & Hh). split.
  { intros i Hi. destruct (decide (10 <= i)); [apply Hok|apply Hok1]; lia. }
  split; [|intros i Hi; by apply fill_macs_spec].
  pose proof (usable_num (lcores - 1) MAX_NUM_USERS ltac:(lia) ltac:(lia)) as Hu.
  split; [done|]. split; [done|]. split; [exact Htb|]. split; [cbn; lia|]. split; [exact Hh|].
  intros T HT mm md mt mu um ud' us' khash uhash mappings plies lbs t now st [Hr1 Hr2 Hr3 Hr4 Hr5].
  cbn in Hr1, Hr2, Hr3, Hr4, Hr5. apply ei_rep_empty.
  - apply (masters_map _ t (gb_sess gb)). exact Hr1.
  - apply (masters_map _ t (gb_users gb)). exact Hr4.
  - intros []; [apply (masters_dchain _ _ _ tcp)|apply (masters_dchain _ _ _ udp)]; (lia || done).
  - apply (masters_dchain _ _ _ us); (lia || done).
Qed.

(** ** Witnesses: two cores, four external ports, four users *)

Definition ei_txn : Type :=
  ((snap_txn (nfos_map_entry session) * snap_txn session_data_t) *
   (snap_txn nfos_dchain_cell * snap_txn nfos_dchain_cell)) *
  ((snap_txn (nfos_map_entry Z) * snap_txn user_data_t) *
   (snap_txn nfos_dchain_cell *
    (snap_txn nat_static_mapping_t * (snap_txn ip4_fib_mtrie_8_ply_t * snap_txn load_balance_t)))).

(** Everything is sent to device 1; packets of port 53 have a static mapping. *)
Definition ex_ei_cfg : nf_config :=
  NatConfig 1 3735928559 1 1200000 (fun i => Mac 2 0 0 0 0 i) (fun _ => no_mac) 1024 1027 4.

Definition ex_mapping_hash : Vig.Map Z :=
  Vig.MkMap (fun _ => 0) (fun _ => 0) (fun _ => 0) (fun _ => 0) (fun _ => 0) 1 0 key_equal key_hash.

Definition ex_ei (user_slots : Z) : nf_state ei_txn := {|
  cfg := ex_ei_cfg;
  session_map := {| map_entries := lens_mem (fst_lens (fst_lens (fst_lens self_lens))); map_key_size := 8;
                    map_capacity := 4; map_keys_eq := session_equal;
                    map_khash := session_hash (B := ex_frame) |};
  session_data := {| elems := lens_mem (fst_lens (fst_lens (snd_lens self_lens))); elem_size := 32; capacity := 8 |};
  sess_indexes_tcp := lens_mem (fst_lens (snd_lens (fst_lens self_lens)));
  sess_indexes_udp := lens_mem (fst_lens (snd_lens (snd_lens self_lens)));
  user_map := {| map_entries := lens_mem (snd_lens (fst_lens (fst_lens self_lens))); map_key_size := 8;
                 map_capacity := user_slots; map_keys_eq := user_equal;
                 map_khash := user_hash (B := ex_frame) |};
  user_data := {| elems := lens_mem (snd_lens (fst_lens (snd_lens self_lens))); elem_size := 12; capacity := 4 |};
  user_indexes := lens_mem (snd_lens (snd_lens (fst_lens self_lens)));
  mapping_hash := Vig.map_put ex_mapping_hash (init_nat_k 167772161 53 LAN_DEVICE 17) 0;
  static_mappings := {| elems := lens_mem (snd_lens (snd_lens (snd_lens (fst_lens self_lens))));
                        elem_size := 12; capacity := 1 |};
  ip4_fibs := fun i => Fib (Ply16 (fun _ => 3) (fun _ => 0)) i;
  ply_pool_vec := {| elems := lens_mem (snd_lens (snd_lens (snd_lens (snd_lens (fst_lens self_lens)))));
                     elem_size := 1288; capacity := 5 |};
  lb_pool_vec := {| elems := lens_mem (snd_lens (snd_lens (snd_lens (snd_lens (snd_lens self_lens)))));
                    elem_size := 16; capacity := 2 |}
|}.

#[local] Instance ex_sess_config n : MapConfig (session_map (ex_ei n)).
Proof.
  apply (Build_MapConfig _ _ _ (session_map (ex_ei n)) 2); [lia|done| |].
  - intros k. apply (crc32si_range (B := ex_frame)).
  - intros [a b c] [a' b' c']. cbn. unfold session_equal. cbn.
    rewrite !andb_true_iff, !Z.eqb_eq. naive_solver.
Defined.
#[local] Instance ex_user_config : MapConfig (user_map (ex_ei 4)).
Proof.
  apply (Build_MapConfig _ _ _ (user_map (ex_ei 4)) 2); [lia|done| |].
  - intros k. apply (crc32si_range (B := ex_frame)).
  - intros a b. apply Z.eqb_eq.
Defined.
#[local] Instance ex_ei_laws : EiLaws (ex_ei 4).
Proof.
  split.
  - intros [| |[]| | |]; apply _.
  - intros [| |[]| | |] [| |[]| | |] Hne; try done; apply _.
  - intros [| |[]| | |]; apply _.
  - intros [| |[]| | |]; apply _.
  - intros [| |[]| | |]; apply _.
Qed.

Definition ex_ei_txn : ei_txn :=
  (((SnapTxn (fun _ => MapEntry 0 0 0 0 (SessionKey 0 0 0)) ∅ (fun _ => false),
     SnapTxn (fun _ => sess_data_null_init (SessionData (SessNode 0 0) 0 0 0 0)) ∅ (fun _ => false)),
    (ex_txn, ex_txn)),
   ((SnapTxn (fun _ => MapEntry 0 0 0 0 0) ∅ (fun _ => false),
     SnapTxn (fun _ => UserData (SessNode 0 0) 0) ∅ (fun _ => false)),
    (ex_txn,
     (SnapTxn (fun _ => StaticMapping 0 134744072 true 0) ∅ (fun _ => false),
      (SnapTxn (fun _ => Ply8 (fun _ => 0) (fun _ => 0) 0 0) ∅ (fun _ => false),
       SnapTxn (fun _ => LoadBalance 1 0 (fun _ => Dpo FORWARD 1 2919236354 (Mac 18 52 86 120 144 171)))
         ∅ (fun _ => false)))))).

Lemma ex_dchain_empty (cells : RluMem ei_txn nfos_dchain_cell) :
  (forall i, view cells ex_ei_txn i = view snap_mem ex_txn i) -> dchain_set cells 2 4 ex_ei_txn ∅.
Proof.
  intros E. split; [lia|]. exists (fun _ => []). split.
  - unfold dchain_rep. apply (rep_ext 2 4 ltac:(lia) (view snap_mem ex_txn)); [|exact ex_rep]. intros x. by rewrite E.
  - intros i. split; [by intros ?%not_elem_of_empty|by intros [c ?%not_elem_of_nil]].
Qed.

Lemma ex_ei_rep now : ei_rep (ex_ei 4) 2 now 4 ex_ei_txn ∅ ∅.
Proof.
  split.
  { split; [|done]. intros k. split; [by intros [? ?]|by intros ?%not_elem_of_nil]. }
  exists (fun _ => ∅), (fun _ => SessionData (SessNode 0 0) 0 0 0 0), [], ∅, ∅,
    (fun _ => UserData (SessNode 0 0) 0), []. split.
  - split.
    + by apply map_inv_empty.
    + split; [by intros i|by intros i ?%not_elem_of_nil].
    + intros []; by apply ex_dchain_empty.
    + by apply map_inv_empty.
    + split; [by intros i|by intros i ?%not_elem_of_nil].
    + by apply ex_dchain_empty.
  - split; try done; [apply index_table_empty| |].
    + intros u. split; [by intros ?%not_elem_of_empty|by intros [a ?]].
    + intros a. split; by intros [? ?].
Qed.

(** A packet of protocol [proto] from 10.0.0.[host], port [port]. *)
Definition ex_ei_mem (host port proto : Z) : nf_mem (pkt_t ex_frame) pkt_set_id_t unit :=
  NfMem (Pkt 60 (Ether no_mac no_mac) (Some (Ipv4 0 64 proto (167772160 + host) 134744072))
           (Some (TcpUdp port 13568)) None (ExFrame (Ether no_mac no_mac) None None (fun _ => 0))) 0
    (Manager (fun _ => ConcDchain.ConcCell 0 0 0 0 (FlowId 0 0 0 0 0) 0) (ConcMap.CMap (fun _ => 0) 0 0)
      (fun _ => tt) 0 false (fun _ => LogEntry false (FlowId 0 0 0 0 0) tt)).

Definition ex_ei_run (slots now host port proto : Z) (t : ei_txn) :=
  pkt_handler (ex_ei slots) 2 0 now 0 (ex_ei_mem host port proto, t).

(** The source of the packet, the device it leaves through, and the list of
    the user with index 0: the head's node, its count, and the first nodes. *)
Definition ex_ei_seen (r : option ei_result * (nf_mem (pkt_t ex_frame) pkt_set_id_t unit * ei_txn)) :=
  match r with
  | (Some Returned, (m, t)) =>
      Some (src_addr (ipv4 (nf_packet m)), src_port (tcpudp (nf_packet m)), nf_dst_device m,
            view (elems (user_data (ex_ei 4))) t 0,
            map (fun i => node (view (elems (session_data (ex_ei 4))) t i)) [0; 1])
  | _ => None
  end.

Definition ex_then (r : option ei_result * (nf_mem (pkt_t ex_frame) pkt_set_id_t unit * ei_txn)) : ei_txn :=
  r.2.2.

(** Two sessions of a user, then the first again, four seconds later: it
    moves to the front. *)
Definition ex_first := ex_ei_run 4 7 1 80 6 ex_ei_txn.
Definition ex_second := ex_ei_run 4 8 1 81 6 (ex_then ex_first).
Definition ex_third := ex_ei_run 4 4000000000 1 80 6 (ex_then ex_second).

Lemma ex_ei_cfg_ok : config_ok (cfg (ex_ei 4)).
Proof. split; cbn; lia. Qed.

Lemma ex_users_fit : 0 <= 4 <= map_capacity (user_map (ex_ei 4)).
Proof. cbn. lia. Qed.

Lemma ex_user_room key : user_room 4 ∅ key.
Proof. by right. Qed.

Lemma ei_pkt_handler_spec_witness :
  ex_ei_seen ex_first =
    Some (4022250974, 4, 1, UserData (SessNode 0 0) 1, [SessNode (-1) (-1); SessNode 0 0]) /\
  ex_ei_seen ex_second =
    Some (4022250974, 260, 1, UserData (SessNode 1 0) 2, [SessNode (-1) 1; SessNode 0 (-1)]) /\
  ex_ei_seen ex_third =
    Some (4022250974, 4, 1, UserData (SessNode 0 1) 2, [SessNode 1 (-1); SessNode (-1) 0]) /\
  ei_handled (ex_ei 4) 2 7 4 0 (ex_ei_mem 1 80 6) ex_ei_txn ∅ ∅ ex_first.
Proof.
  split; [vm_compute; reflexivity|]. split; [vm_compute; reflexivity|]. split; [vm_compute; reflexivity|].
  unfold ex_first, ex_ei_run.
  apply (ei_pkt_handler_spec (B := ex_frame) (ex_ei 4) 2 0 7 4 0 (ex_ei_mem 1 80 6) ex_ei_txn ∅ ∅
    ltac:(lia) ex_ei_cfg_ok ltac:(discriminate) ex_users_fit (ex_ei_rep 7) (fun _ => ex_user_room _)).
Defined.

(** *** Where the code does not do what it means to *)

(** When the users run out, the session of the packet is kept without a list;
    its next packet that is due for a refresh puts it on the list of another
    user, whose only session is now linked to itself. *)
Definition ex_last_user := ex_ei_run 1 7 1 80 6 ex_ei_txn.
Definition ex_no_user := ex_ei_run 1 8 2 80 6 (ex_then ex_last_user).
Definition ex_refreshed := ex_ei_run 1 4000000000 2 80 6 (ex_then ex_no_user).

Lemma session_without_user :
  (view (elems (user_data (ex_ei 1))) (ex_then ex_refreshed) 0,
   map (fun i => node (view (elems (session_data (ex_ei 1))) (ex_then ex_refreshed) i)) [0; 1]) =
  (UserData (SessNode 1 0) 1, [SessNode 0 1; SessNode 0 (-1)]).
Proof. vm_compute. reflexivity. Qed.

(** A packet whose time to live has run out is logged as dropped and sent. *)
Lemma expired_ttl_translated :
  let m := ex_ei_mem 1 80 6 in
  let m := set_packet (set_ipv4_header (Ipv4 0 1 6 167772161 134744072) (nf_packet m)) m in
  match pkt_handler (ex_ei 4) 2 0 7 0 (m, ex_ei_txn) with
  | (Some Returned, (m', _)) => nf_dst_device m' = 1
  | _ => False
  end.
Proof. vm_compute. reflexivity. Qed.

(** *** Initialisation on three cores, when all memory can be had *)

Definition ex_gb : ei_garbage :=
  EiGarbage (fun _ => MapEntry 0 0 0 0 (SessionKey 0 0 0)) (fun _ => SessionData (SessNode 0 0) 0 0 0 0)
    (fun _ => ex_cells) (fun _ => MapEntry 0 0 0 0 0) (fun _ => UserData (SessNode 0 0) 0)
    (fun _ => LoadBalance 0 0 (fun _ => Dpo 0 0 0 no_mac)) (fun _ => Dpo 0 0 0 no_mac)
    (fun _ => Fib (Ply16 (fun _ => 0) (fun _ => 0)) 0) (fun _ => Ply8 (fun _ => 0) (fun _ => 0) 0 0)
    (fun _ => StaticMapping 0 0 false 0) ex_mapping_hash (fun _ => no_mac).

Lemma users_fuel : MAX_NUM_USERS <= Z.of_nat (Z.to_nat MAX_NUM_USERS).
Proof. rewrite Z2Nat.id; [lia|done]. Qed.

Lemma ex_cores_fit : 3 <= ext_tuples.
Proof. done. Qed.

Lemma ei_nf_init_spec_witness :
  1 < 3 /\
  exists g : ei_masters,
    nf_init (fun _ => true) (Z.to_nat MAX_NUM_USERS) 0 2 3 (fun i => Mac 2 0 0 0 0 i) ex_gb = Some (Some g) /\
    ei_ready 2 g.
Proof.
  split; [lia|].
  pose proof (ei_nf_init_spec (fun _ => true) (Z.to_nat MAX_NUM_USERS) 0 2 3 (fun i => Mac 2 0 0 0 0 i) ex_gb
    ltac:(lia) ex_cores_fit users_fuel) as H.
  destruct (nf_init _ _ _ _ _ _ _) as [[g|]|]; [|by destruct H as (? & _ & ?)|done].
  exists g. split; [reflexivity|apply H].
Defined.
