(* ===== verification/NatWire.v ===== *)
(** * The bytes the NAT sends

    EiNat.v describes what the endpoint-independent NAT does to the headers of
    a packet, Frame.v how headers are found in a frame and written back.  Put
    together: which bytes of a frame the translation changes. *)

From S2P Require Import Prelude Ether Rlu Vector Txn PktSet DataPlane NfCommon Frame.
From S2P Require Import Sessions SessList StaticMapping Mtrie LoadBalance FibInit EiNat.
Open Scope Z_scope.

(** The frame with its source address and port replaced. *)
Definition rewritten (l4 ip port : Z) (m : Z -> Z) : Z -> Z := put16 l4 port (put32 26 ip m).

(** What the translation leaves in the buffer, before the checksums. *)
Lemma translated_bytes `{Checksums} b p ip port (m := fr_bytes b) (l4 := l4_offset m (fr_len b)) :
  frame_ok b -> parsed_from b p ->
  same (patch (header_writes l4 (set_src_addr ip (ipv4_at m 14)) (TcpUdp port (le16 m (l4 + 2))))
          (put_ether 0 (ether_at m 0) m))
       (rewritten l4 ip port m).
Proof.
  intros [Hm Hlen] (Hip & _). pose proof (l4_offset_range m _ Hip) as Hr. fold l4 in Hr. fold m in Hm.
  rewrite <- put_headers_patch. unfold put_tcpudp, put_ipv4, rewritten. cbn [src_port dst_port].
  set (M := put_bytes (14 + 9) _ _). assert (same M m) as HM.
  { apply (put_byte_keep m Hm 23). do 2 (apply put_byte_keep; [done|]). by apply put_ether_same. }
  rewrite HM. change (14 + 12) with 26. change (14 + 16) with 30.
  rewrite (put32_same m Hm 30 (put32 26 _ m)) by (intros j Hj; apply put_bytes_out; cbn; lia).
  apply (put16_same m Hm (l4 + 2)). intros j Hj.
  rewrite put16_out by lia. apply put_bytes_out. cbn. lia.
Qed.

(** What is read from a frame that was rewritten. *)
Lemma rewritten_fields `{Checksums} l4 ip port e (m W sent : Z -> Z) :
  all_bytes m -> 34 <= l4 -> 0 <= ip < 2 ^ 32 -> 0 <= port < 2 ^ 16 ->
  same W (rewritten l4 ip port m) -> same sent (put_ether 0 e (set_checksums 14 l4 W)) ->
  ipv4_at sent 14 = set_src_addr ip (ipv4_at m 14) /\
  tcpudp_at sent l4 = TcpUdp port (le16 m (l4 + 2)) /\
  forall j, 12 <= j -> ~ 26 <= j < 30 -> ~ l4 <= j < l4 + 2 -> ~ checksum_byte m l4 j -> sent j = m j.
Proof.
  intros Hm Hl4 Hip Hport HW Hs.
  assert (forall j, ~ 26 <= j < 30 -> ~ l4 <= j < l4 + 2 -> W j = m j) as HWout.
  { intros j H1 H2. rewrite HW. unfold rewritten. rewrite put16_out by lia. apply put_bytes_out. cbn. lia. }
  assert (forall j, 12 <= j -> ~ checksum_byte m l4 j -> sent j = W j) as Hout.
  { intros j Hj Hc. rewrite Hs, put_ether_out by lia. apply set_checksums_out; [done|].
    unfold checksum_byte in *. by rewrite HWout by lia. }
  assert (forall j, 12 <= j < l4 + 4 -> ~ 24 <= j < 26 -> sent j = W j) as Hin.
  { intros j Hj Hc. apply Hout; [lia|]. unfold checksum_byte. lia. }
  split; [|split].
  - unfold ipv4_at, set_src_addr, proto_of. cbn.
    rewrite !Hin, !HWout by lia. f_equal.
    + transitivity (le32 (rewritten l4 ip port m) 26); [unfold le32; by rewrite !Hin, !HW by lia|].
      unfold le32, rewritten. rewrite !put16_out by lia. by apply (le32_put32 26).
    + unfold le32. by rewrite !Hin, !HWout by lia.
  - unfold tcpudp_at. f_equal; [|unfold le16; by rewrite !Hin, !HWout by lia].
    transitivity (le16 (rewritten l4 ip port m) l4); [unfold le16; by rewrite !Hin, !HW by lia|].
    by apply le16_put16.
  - intros j Hj H1 H2 Hc. by rewrite Hout, HWout by done.
Qed.

Section nat_wire.
Context `{Checksums} {T : Type} (st : nf_state T).

(** C13: the translation of a frame from inside changes no byte but those of
    the Ethernet addresses, of the source address and port, and of the
    checksums; the new addresses stand in their places, and the checksums are
    DPDK's for the rewritten frame. *)
Theorem translated_frame (b : frame_t) (p0 p : pkt_t frame_t) (dev ip port : Z) (d : dpo_t) (t : T)
    (m : nf_mem (pkt_t frame_t) pkt_set_id_t unit)
    (Hb : frame_ok b) (Hp : nf_pkt_parser false b p0 = (true, p)) (Hm : nf_packet m = p)
    (Hdev : dev <> wan_device (cfg st))
    (Hd : forwarding st t dev (swap32 (dst_addr (ipv4 p))) = Some d) (Hact : action d = FORWARD)
    (Hip : 0 <= ip < 2 ^ 32) (Hport : 0 <= port < 2 ^ 16) :
  let bytes := fr_bytes b in
  let l4 := l4_offset bytes (fr_len b) in
  exists m', nat_pkt_action st ip port dev (m, t) = (Some Returned, (m', t)) /\
    nf_dst_device m' = send_device d /\
    let sent := wire (nf_packet m') in
    (exists W, (forall j, W j = rewritten l4 ip port bytes j) /\
       forall j, sent j = put_ether 0 (Ether (dst_mac_address d) (device_macs (cfg st) (send_device d)))
                            (set_checksums 14 l4 W) j) /\
    ipv4_at sent 14 = set_src_addr ip (ipv4_at bytes 14) /\
    tcpudp_at sent l4 = TcpUdp port (le16 bytes (l4 + 2)) /\
    forall j, 12 <= j -> ~ 26 <= j < 30 -> ~ l4 <= j < l4 + 2 -> ~ checksum_byte bytes l4 j -> sent j = bytes j.
Proof.
  intros bs l4. pose proof (parsed_frame _ _ _ _ Hb Hp) as Hparsed.
  destruct Hparsed as (Hv4 & Hl4 & Hraw & He & Hi & Hh). fold bs l4 in Hv4, Hl4, He, Hi, Hh.
  pose proof (l4_offset_range bs _ Hv4) as Hr. fold l4 in Hr.
  set (e := Ether (dst_mac_address d) (device_macs (cfg st) (send_device d))).
  set (p1 := set_ipv4_header (set_src_addr ip (ipv4_at bs 14))
               (set_tcpudp_header (TcpUdp port (le16 bs (l4 + 2))) p)).
  assert (translated ip port p = nf_set_ipv4_udptcp_checksum p1) as Et.
  { unfold translated, p1, ipv4, tcpudp. by rewrite Hi, Hh. }
  exists (set_dst_device (send_device d) (set_packet (set_ether_header e (nf_set_ipv4_udptcp_checksum p1)) m)).
  split.
  { rewrite nat_pkt_action_run by done. unfold ei_action. rewrite Hm, Et.
    assert (dst_addr (ipv4 (nf_set_ipv4_udptcp_checksum p1)) = dst_addr (ipv4 p)) as ->.
    { unfold nf_set_ipv4_udptcp_checksum. destruct (pointers (raw p1)) as [[? [?|]] [?|]]; unfold ipv4; by rewrite Hi. }
    change (bswap32 ?x) with (swap32 x). rewrite Hd, Hact. done. }
  split; [done|]. cbv zeta. cbn [nf_packet set_dst_device set_packet].
  destruct (wire_checksummed b p1 e (set_src_addr ip (ipv4_at bs 14)) (TcpUdp port (le16 bs (l4 + 2))))
    as [Hw Hsent]; [done..|].
  assert (same (wire p1) (rewritten l4 ip port bs)) as HW.
  { rewrite Hw. change (ether_header p1) with (ether_header p). rewrite He. apply (translated_bytes b p); [done|].
    by apply (parsed_frame false b p0). }
  split; [by exists (wire p1)|]. apply (rewritten_fields l4 ip port e bs (wire p1)); try done; [|lia].
  destruct Hb as [Hbytes _]. exact Hbytes.
Qed.
End nat_wire.

(** ** Witness: the datagram of Frame.v becomes one from 222.173.190.239:1024 *)

Definition ex_wire_pkt : pkt_t frame_t := (nf_pkt_parser false (Frame (of_list ex_datagram) 42) ex_fresh).2.
Definition ex_wire_mem : nf_mem (pkt_t frame_t) pkt_set_id_t unit :=
  NfMem ex_wire_pkt 0
    (Manager (fun _ => ConcDchain.ConcCell 0 0 0 0 (FlowId 0 0 0 0 0) 0) (ConcMap.CMap (fun _ => 0) 0 0)
      (fun _ => tt) 0 false (fun _ => LogEntry false (FlowId 0 0 0 0 0) tt)).

Definition ex_dpo : dpo_t := Dpo FORWARD 1 2919236354 (Mac 18 52 86 120 144 171).

Lemma translated_frame_witness :
  exists m', nat_pkt_action (ex_ei 4) 4022250974 4 0 (ex_wire_mem, ex_ei_txn) = (Some Returned, (m', ex_ei_txn)) /\
    nf_dst_device m' = 1 /\
    map (wire (nf_packet m')) [26; 27; 28; 29; 30; 34; 35; 36; 37] = [222; 173; 190; 239; 8; 4; 0; 0; 53].
Proof.
  destruct (translated_frame (ex_ei 4) (Frame (of_list ex_datagram) 42) ex_fresh ex_wire_pkt 0 4022250974 4 ex_dpo
    ex_ei_txn ex_wire_mem ex_frame_ok ltac:(vm_compute; reflexivity) eq_refl ltac:(discriminate)
    ltac:(vm_compute; reflexivity) eq_refl ltac:(lia) ltac:(lia))
    as (m' & E & Hdev & _).
  exists m'. split; [exact E|]. split; [exact Hdev|].
  injection E as <-. vm_compute. reflexivity.
Defined.
