(* ===== verification/MtrieRun.v ===== *)
(** * Whether a pool has room for given routes

    The bound of Mtrie.v, two plies for every route longer than 16 bits, is
    too coarse for a pool that is nearly used up.  Whether given routes fit is
    a matter of computation, except that adding the default route visits the
    2^16 leaves of a root.  The file shows that this visit may be skipped in
    tables whose routes so far lead to entry 0, and that a sequence of routes
    that fits is added alike to every larger pool. *)

From S2P Require Import Prelude Mtrie.
Open Scope Z_scope.

(** ** Roots with the same leaves *)

Definition agree (m m' : ip4_fib_mtrie_16_ply_t) : Prop :=
  forall h, 0 <= h < 2 ^ 16 -> root_entry m h = root_entry m' h.

(** An initialised root. *)
Definition pristine : ip4_fib_mtrie_16_ply_t := Ply16 (fun _ => 1) (fun _ => 0).

Lemma init_pristine m : agree (ip4_mtrie_init m) pristine.
Proof. intros h Hh. unfold root_entry. by destruct (ip4_mtrie_init_spec m h Hh) as [-> ->]. Qed.

Lemma agree_set_root_slot m m' i leaf bits :
  agree m m' -> agree (set_root_slot i leaf bits m) (set_root_slot i leaf bits m').
Proof.
  intros Ha h Hh. specialize (Ha h Hh). unfold root_entry in *. cbn. injection Ha as Eb El.
  rewrite !fn_insert_dec. case_decide; congruence.
Qed.

(** The root a route longer than 16 bits is added to is read at one leaf. *)
Lemma route_add_agree capacity f shl32 shl32' dst len adj m mc mc' s s' :
  16 < len <= 32 -> agree m mc ->
  ip4_fib_mtrie_route_add capacity f shl32' dst len adj (mc, s) = Some (mc', s') ->
  exists m', ip4_fib_mtrie_route_add capacity f shl32 dst len adj (m, s) = Some (m', s') /\ agree m' mc'.
Proof.
  intros Hl Ha. unfold ip4_fib_mtrie_route_add, set_root_leaf. cbn [dst_address_length dst_address].
  rewrite (proj2 (Z.eqb_neq len 0)), (proj2 (Z.leb_le len 32)), i32_u32, (proj2 (Z.leb_gt _ 0)) by lia.
  set (i := Z.land _ 65535).
  assert (0 <= i < 2 ^ 16) as Hi.
  { unfold i. change 65535 with (2 ^ 16 - 1). rewrite land_mask by lia. apply Z.mod_pos_bound. lia. }
  pose proof (Ha i Hi) as E. injection E as -> ->.
  destruct (ip4_fib_mtrie_leaf_is_terminal (leaves16 mc i)).
  - destruct (ply_create _ _ _ _ s) as [[l s1]|]; [|done]. destruct (set_leaf _ _ _ _ _ s1); [|done].
    intros [= <- <-]. eexists. split; [done|]. by apply agree_set_root_slot.
  - destruct (set_leaf _ _ _ _ _ s); [|done]. intros [= <- <-]. by exists m.
Qed.

(** The default route to entry 0 leaves an initialised root as it is. *)
Lemma default_route_0 capacity f shl32 m s :
  agree m pristine ->
  exists m', ip4_fib_mtrie_route_add capacity f shl32 0 0 0 (m, s) = Some (m', s) /\ agree m' pristine.
Proof.
  intros Ha. unfold ip4_fib_mtrie_route_add, set_root_leaf. cbn [dst_address_length dst_address].
  rewrite Z.land_0_l. change (Z.shiftr 0 16) with 0. rewrite Z.land_0_l.
  change (i32 (u32 (0 - 16)) <=? 0) with true. cbv iota.
  change (0 <=? 32) with true. cbv iota.
  generalize (Z.to_nat (Z.shiftl 1 (u32 (16 - 0)))). intros n.
  edestruct (loop_opt_rule (fun _ (st : ip4_fib_mtrie_16_ply_t * ply_pool) => agree st.1 pristine /\ st.2 = s)
    (fun _ _ => True) (fun _ _ => True)) as ([m' s'] & E & [Hm Hs] & _); [| | |].
  4: { cbn in Hm, Hs. subst s'. exists m'. split; [exact E|exact Hm]. }
  - intros k [m1 s1] Hk [Hm1 Es] _. cbn in Hm1, Es. subst s1.
    assert (0 <= u16 (0 + k) < 2 ^ 16) as Hk16 by (apply Z.mod_pos_bound; lia).
    pose proof (Hm1 _ Hk16) as E. unfold root_entry in E. cbn in E. injection E as -> ->.
    eexists. split; [reflexivity|]. split; [|done]. split; [|done]. cbn.
    intros h Hh. specialize (Hm1 h Hh). unfold root_entry in *. cbn in *.
    rewrite !fn_insert_dec. by case_decide.
  - by split.
  - done.
Qed.

(** ** Skipping the default routes *)

(** [add_routes] on roots that stand for initialised ones; [touched]: the
    tables that have other routes. *)
Fixpoint dry_run (capacity : Z) (fuel : nat) (touched : list Z) (l : list (Z * route))
    (st : (Z -> ip4_fib_mtrie_16_ply_t) * ply_pool) : option ((Z -> ip4_fib_mtrie_16_ply_t) * ply_pool) :=
  match l with
  | [] => Some st
  | (fib, r) :: l =>
      if r_len r =? 0 then
        if (r_dst r =? 0) && (r_adj r =? 0) && negb (existsb (Z.eqb fib) touched)
        then dry_run capacity fuel touched l st else None
      else if (16 <? r_len r) && (r_len r <=? 32) then
        match ip4_fib_mtrie_route_add capacity fuel 0 (r_dst r) (r_len r) (r_adj r) (st.1 fib, st.2) with
        | None => None
        | Some (m, s) => dry_run capacity fuel (fib :: touched) l (<[fib := m]> st.1, s)
        end
      else None
  end.

Lemma dry_run_sound (P : Z -> Prop) capacity fuel shl32 l : forall touched ms mcs s mcs' s',
  Forall (fun fr => P fr.1) l ->
  (forall fib, P fib -> agree (ms fib) (mcs fib)) ->
  (forall fib, fib ∉ touched -> mcs fib = pristine) ->
  dry_run capacity fuel touched l (mcs, s) = Some (mcs', s') ->
  exists ms', add_routes capacity fuel shl32 l (ms, s) = Some (ms', s').
Proof.
  induction l as [|[fib r] l IH]; intros touched ms mcs s mcs' s' Hl Ha Ht E; cbn [dry_run add_routes fst snd] in *.
  { injection E as _ <-. by exists ms. }
  apply Forall_cons in Hl as [HP Hl]. cbn in HP. destruct (Z.eqb_spec (r_len r) 0) as [E0|E0].
  - destruct (_ && _) eqn:Ez; [|done]. apply andb_true_iff in Ez as [[Ed Ead]%andb_true_iff Hn].
    apply Z.eqb_eq in Ed, Ead. rewrite E0, Ed, Ead.
    assert (fib ∉ touched) as Hf.
    { intros Hin. apply negb_true_iff, not_true_iff_false in Hn. apply Hn, existsb_exists.
      exists fib. split; [by apply list_elem_of_In|apply Z.eqb_refl]. }
    pose proof (Ha fib HP) as Hm. rewrite (Ht fib Hf) in Hm.
    destruct (default_route_0 capacity fuel shl32 (ms fib) s Hm) as (m' & -> & Hm').
    apply (IH touched _ mcs s mcs' s'); try done. intros fib' HP'. rewrite fn_insert_dec.
    case_decide as Hd; [|by apply Ha]. subst fib'. by rewrite (Ht fib Hf).
  - destruct (_ && _) eqn:Ez; [|done]. apply andb_true_iff in Ez as [H1%Z.ltb_lt H2%Z.leb_le].
    destruct (ip4_fib_mtrie_route_add _ _ 0 _ _ _ _) as [[mc s1]|] eqn:Er; [|done].
    apply (route_add_agree capacity fuel shl32 0 _ _ _ (ms fib)) in Er as (m' & -> & Hm'); [|lia|by apply Ha].
    apply (IH (fib :: touched) _ (<[fib := mc]> mcs) s1 mcs' s'); [done| | |done].
    + intros fib' HP'. rewrite !fn_insert_dec. case_decide; [done|by apply Ha].
    + intros fib' [Hne Hf]%not_elem_of_cons. rewrite fn_lookup_insert_ne by done. by apply Ht.
Qed.

(** ** Larger pools *)

Section mono.
Variables (capacity capacity' : Z).
Hypothesis (Hcap : capacity <= capacity').

Lemma loop_opt_mono {S} (body body' : Z -> S -> option S) n :
  (forall i s s', body i s = Some s' -> body' i s = Some s') ->
  forall i s s', loop_opt i n body s = Some s' -> loop_opt i n body' s = Some s'.
Proof.
  intros Hb. induction n as [|n IH]; intros i s s'; cbn [loop_opt]; [done|].
  destruct (body i s) as [s1|] eqn:E; [|done]. rewrite (Hb _ _ _ E). apply IH.
Qed.

Lemma ply_create_mono l bits base s r :
  ply_create capacity l bits base s = Some r -> ply_create capacity' l bits base s = Some r.
Proof.
  unfold ply_create, mtrie_vector_get. destruct (Z.ltb_spec (ip4_ply_pool_index s) capacity); [|done].
  by rewrite (proj2 (Z.ltb_lt _ capacity')) by lia.
Qed.

Lemma set_leaf_mono a f : forall n k s s',
  set_leaf capacity f a n k s = Some s' -> set_leaf capacity' f a n k s = Some s'.
Proof.
  induction f as [|f IH]; intros n k s s'; cbn [set_leaf]; [done|].
  destruct (_ && _); [|done]. destruct (_ <=? 0).
  - apply loop_opt_mono. intros i s1 s2. destruct (i <? PLY_8_SIZE); [|done].
    destruct (_ >=? _); [done|]. destruct (negb _); [apply IH|done].
  - destruct (ip4_fib_mtrie_leaf_is_terminal _); [|apply IH].
    destruct (ply_create capacity _ _ _ _) as [[l s1]|] eqn:E; [|done].
    rewrite (ply_create_mono _ _ _ _ _ E). destruct (0 <=? _); [apply IH|done].
Qed.

Lemma route_add_mono f shl32 dst len adj ms r :
  ip4_fib_mtrie_route_add capacity f shl32 dst len adj ms = Some r ->
  ip4_fib_mtrie_route_add capacity' f shl32 dst len adj ms = Some r.
Proof.
  unfold ip4_fib_mtrie_route_add, set_root_leaf. destruct (_ <=? 32); [|done].
  assert (forall a (m : ip4_fib_mtrie_16_ply_t) n k s r', option_map (pair m) (set_leaf capacity f a n k s) = Some r' ->
    option_map (pair m) (set_leaf capacity' f a n k s) = Some r') as Hs.
  { intros a m n k s r'. destruct (set_leaf capacity f a n k s) eqn:E; [|done].
    by rewrite (set_leaf_mono _ _ _ _ _ _ E). }
  destruct (_ <=? 0).
  - apply loop_opt_mono. intros i [m s] [m' s']. destruct (_ >=? _); [done|]. destruct (negb _); [apply Hs|done].
  - destruct ms as [m s]. destruct (ip4_fib_mtrie_leaf_is_terminal _); [|apply Hs].
    destruct (ply_create capacity _ _ _ s) as [[l s1]|] eqn:E; [|done].
    rewrite (ply_create_mono _ _ _ _ _ E). apply Hs.
Qed.

Lemma add_routes_mono f shl32 l : forall st r,
  add_routes capacity f shl32 l st = Some r -> add_routes capacity' f shl32 l st = Some r.
Proof.
  induction l as [|[fib rt] l IH]; intros st r; cbn [add_routes]; [done|].
  destruct (ip4_fib_mtrie_route_add capacity _ _ _ _ _ _) as [[m s]|] eqn:E; [|done].
  rewrite (route_add_mono _ _ _ _ _ _ _ E). apply IH.
Qed.
End mono.

(** Routes that fit by computation are added, and the tables then find
    longest prefixes. *)
Lemma add_routes_fit (P : Z -> Prop) (capacity shl32 : Z) (f : nat) (l : list (Z * route))
    (ms : Z -> ip4_fib_mtrie_16_ply_t) (pool : Z -> ip4_fib_mtrie_8_ply_t)
    (Hms : forall fib, P fib -> exists m0, ms fib = ip4_mtrie_init m0)
    (Hl : Forall (fun fr => P fr.1 /\ valid_route fr.2) l)
    (Hfit : is_Some (dry_run capacity (S (S f)) [] l (fun _ => pristine, Pool pool 0)))
    (Hcap : capacity <= plies_of l < 2 ^ 31) (Hlen : Z.of_nat (length l) < 2 ^ 21) :
  exists ms' s', add_routes capacity (S (S f)) shl32 l (ms, Pool pool 0) = Some (ms', s') /\
    forall fib x, P fib -> 0 <= x < 2 ^ 32 ->
      longest_match (routes_of fib l) x (mtrie_lookup (ms' fib) (ip4_ply_pool s') x).
Proof.
  destruct Hfit as [[mcs s'] Hfit].
  apply (dry_run_sound P capacity (S (S f)) shl32 l [] ms) in Hfit as [ms' E].
  - exists ms', s'. split; [done|]. apply (add_routes_mono capacity (plies_of l)) in E; [|lia].
    destruct (add_routes_lookup P (plies_of l) shl32 f l ms pool Hms Hl) as (ms2 & s2 & E2 & Hm); [lia|done|].
    rewrite E2 in E. by injection E as -> ->.
  - eapply Forall_impl; [exact Hl|]. by intros fr [? _].
  - intros fib HP. destruct (Hms fib HP) as [m0 ->]. apply init_pristine.
  - done.
Qed.
