(* ===== verification/Maglev.v ===== *)
(** * The load balancer

    src/nf/maglev/main.c.  Backends announce themselves with heartbeats; the
    table of live backends (ExpTable.v) maps their addresses to ids.  A
    client's flow is a packet set whose state is the id of its backend: the
    first live one in the row of the consistent-hashing table (Cht.v) that the
    flow's hash selects.  A flow keeps its backend until that one expires. *)

From stdpp Require Import gmap.
From S2P Require Import Prelude Ether Rlu Txn Vector NfosMap Links ConcDchain ConcMap Dchain DchainExp.
From S2P Require Import Cht Interfaces ExpTable PktSet DataPlane NfCommon Mtrie LoadBalance.
Open Scope Z_scope.

(** maglev_config.h *)
Definition WAN_DEVICE_ONE : Z := 0.
Definition LAN_DEVICE_ONE : Z := 1.
Definition WAN_DEVICE_TWO : Z := 2.
Definition LAN_DEVICE_TWO : Z := 3.
Definition EXPIRATION_TIME : Z := 1200000.
Definition BACKEND_CAPACITY : Z := 32.
Definition CHT_HEIGHT : Z := 97.
Definition BACKEND_EXPIRATION_TIME : Z := 10000000.
Definition LB_CAPACITY : Z := 7.
Definition IP4_PLY_POOL_CAPACITY : Z := 30.
Definition N_FIB_TABLE : Z := 4.

Record nf_config := MaglevConfig {
  wan_device : Z * Z;
  device_macs : Z -> rte_ether_addr;
  flow_expiration_time : Z;
  backend_capacity : Z;
  cht_height : Z;
  backend_expiration_time : Z
}.

Record backend_info := Backend { dev : Z; mac : rte_ether_addr; ip : Z }.
Definition backend_info_allocate (_ : backend_info) : backend_info := Backend 0 (Mac 0 0 0 0 0 0) 0.

(** struct ip_addr has one field. *)
Definition ip_addr_eq (a b : Z) : bool := a =? b.
Definition ip_addr_hash `{PacketIo B} (addr : Z) : Z := crc32si 0 addr.
Definition ip_addr_allocate (_ : Z) : Z := 0.
Definition cht_null_init (_ : Z) : Z := 0.

Record pkt_set_state_t := MaglevState { backend_id : Z }.

(** The NF's structures and the pools of load-balance.c, fib_table.c and
    mtrie.c. *)
Record nf_state (T : Type) := MaglevNfState {
  backend_ip_to_backend_id : NfosMap T Z;
  backend_ips : NfosVector T Z;
  backend_infos : NfosVector T backend_info;
  backends : NfosDoubleChainExp T;
  cht : NfosVector T Z;
  cfg : nf_config;
  ip4_fibs : Z -> ip4_fib_t;
  ply_pool_vec : NfosVector T ip4_fib_mtrie_8_ply_t;
  lb_pool_vec : NfosVector T load_balance_t
}.
Arguments MaglevNfState {T} _ _ _ _ _ _ _ _ _.
Arguments backend_ip_to_backend_id {T} _.
Arguments backend_ips {T} _.
Arguments backend_infos {T} _.
Arguments backends {T} _.
Arguments cht {T} _.
Arguments cfg {T} _.
Arguments ip4_fibs {T} _.
Arguments ply_pool_vec {T} _.
Arguments lb_pool_vec {T} _.

(** ** Initialisation of the backends' structures *)

Record maglev_masters := MaglevMasters {
  gm_map : map_masters Z;
  gm_ips : vector_masters Z;
  gm_infos : vector_masters backend_info;
  gm_backends : exp_masters;
  gm_cht : vector_masters Z;
  gm_cfg : nf_config
}.

(** The elements of the table's vector, filled in place. *)
Definition set_elems (v : vector_masters Z) (es : Z -> Z) : vector_masters Z :=
  VectorMasters es (m_elem_size v) (m_capacity v).

(** The first half of nf_init.  [ok n]: whether the n-th allocation of memory
    succeeds; the outer [option] is the fuel of the allocator's loop, the
    inner one is [None] when an allocation has failed: the code sets ret to
    NULL and then reads ret->cfg. *)
Definition alloc_state (c : nf_config) (ok : Z -> bool) (fuel : nat) (map_alloc : Z -> nfos_map_entry Z)
    (ip_alloc ip_uninit : Z -> Z) (info_alloc info_uninit : Z -> backend_info)
    (cell_alloc : Z -> nfos_dchain_exp_cell) (cht_alloc cht_uninit perm_uninit : Z -> Z)
    (usec_to_tsc : Z -> Z) (lcores : Z) : option (option maglev_masters) :=
  match nfos_map_allocate_t (ok 0) (ok 1) map_alloc 4 (backend_capacity c),
        nfos_vector_allocate_t (ok 2) (ok 3) ip_alloc ip_uninit 4 (backend_capacity c) ip_addr_allocate,
        nfos_vector_allocate_t (ok 4) (ok 5) info_alloc info_uninit 12 (backend_capacity c)
          backend_info_allocate with
  | Some map, Some ips, Some infos =>
      match nfos_dchain_exp_allocate_t (ok 6) (ok 7) fuel cell_alloc usec_to_tsc lcores
              (backend_capacity c) (backend_expiration_time c) with
      | None => None
      | Some None => Some None
      | Some (Some heap) =>
          match nfos_vector_allocate_t (ok 8) (ok 9) cht_alloc cht_uninit 4
                  (backend_capacity c * cht_height c) cht_null_init with
          | None => Some None
          | Some table =>
              match nfos_cht_fill_cht (ok 10) (ok 11) perm_uninit (m_elems table) (cht_height c)
                      (backend_capacity c) with
              | None => Some None
              | Some es => Some (Some (MaglevMasters map ips infos heap (set_elems table es) c))
              end
          end
      end
  | _, _, _ => Some None
  end.

Definition nf_config_init (num_devs : Z) (macs mac_garbage : Z -> rte_ether_addr) : nf_config :=
  MaglevConfig (WAN_DEVICE_ONE, WAN_DEVICE_TWO)
    (loop_range 0 (Z.to_nat num_devs) (fun i dm => <[i := macs i]> dm) mac_garbage)
    EXPIRATION_TIME BACKEND_CAPACITY CHT_HEIGHT BACKEND_EXPIRATION_TIME.

(** The structures as the handlers use them. *)
Definition maglev_state {T} (g : maglev_masters) (mm : RluMem T (nfos_map_entry Z)) (mk : RluMem T Z)
    (mv : RluMem T backend_info) (mc : RluMem T nfos_dchain_exp_cell) (mh : RluMem T Z)
    (khash : Z -> Z) (fibs : Z -> ip4_fib_t) (plies : NfosVector T ip4_fib_mtrie_8_ply_t)
    (lbs : NfosVector T load_balance_t) : nf_state T := {|
  backend_ip_to_backend_id :=
    {| map_entries := mm; map_key_size := mm_key_size (gm_map g); map_capacity := mm_capacity (gm_map g);
       map_keys_eq := ip_addr_eq; map_khash := khash |};
  backend_ips := {| elems := mk; elem_size := m_elem_size (gm_ips g); capacity := m_capacity (gm_ips g) |};
  backend_infos := {| elems := mv; elem_size := m_elem_size (gm_infos g); capacity := m_capacity (gm_infos g) |};
  backends := {| cells := mc; num_free_lists := em_num_free_lists (gm_backends g);
                 validity_duration := em_validity_duration (gm_backends g) |};
  cht := {| elems := mh; elem_size := m_elem_size (gm_cht g); capacity := m_capacity (gm_cht g) |};
  cfg := gm_cfg g;
  ip4_fibs := fibs;
  ply_pool_vec := plies;
  lb_pool_vec := lbs
|}.

(** Whether a handler returns 0 or fails an assertion. *)
Inductive maglev_result := Returned | AssertionFailed.

(** ** Handlers *)

Section maglev.
Context {T B : Type} `{PacketIo B} (st : nf_state T).
(** The core's number and the time get_curr_time returns. *)
Variables (thread_id now : Z).
Abbreviation mem := (nf_mem (pkt_t B) pkt_set_id_t pkt_set_state_t).

Definition get_hash_from_pkt (pkt : pkt_t B) : Z :=
  let hash := 0 in
  let hash := crc32si hash (src_addr (ipv4 pkt)) in
  let hash := crc32si hash (dst_addr (ipv4 pkt)) in
  let hash := crc32si hash (src_port (tcpudp pkt)) in
  let hash := crc32si hash (dst_port (tcpudp pkt)) in
  crc32si hash (next_proto_id (ipv4 pkt)).

Definition is_wan (device : Z) : bool :=
  (device =? fst (wan_device (cfg st))) || (device =? snd (wan_device (cfg st))).

Definition nf_pkt_dispatcher (pkt : pkt_t B) (incoming_dev : Z) (uninit : pkt_set_id_t)
    : Z * pkt_set_id_t * bool :=
  if is_wan incoming_dev then
    (0, FlowId (src_port (tcpudp pkt)) (dst_port (tcpudp pkt)) (src_addr (ipv4 pkt))
          (dst_addr (ipv4 pkt)) (next_proto_id (ipv4 pkt)), true)
  else (1, uninit, false).

Definition send_pkt_to_backend (backend : backend_info) : M (mem * T) unit :=
  if negb (is_wan (dev backend)) then
    on_nf_mem (fun m =>
      let pkt := nf_packet m in
      let pkt := set_ipv4_header (set_dst_addr (ip backend) (ipv4 pkt)) pkt in
      let pkt := set_ether_header (Ether (mac backend) (device_macs (cfg st) (dev backend))) pkt in
      (tt, set_packet (nf_set_ipv4_udptcp_checksum pkt) m)) ;;
    send_pkt (dev backend)
  else drop_pkt.

(** drop_pkt does not leave the handler. *)
Definition drop_expired_ttl : M (mem * T) unit :=
  let! ttl := on_nf_mem (fun m => (time_to_live (ipv4 (nf_packet m)), m)) in
  if ttl =? 1 then drop_pkt else ret tt.

Definition find_backend : M (mem * T) (option Z) :=
  let! hash := on_nf_mem (fun m => (get_hash_from_pkt (nf_packet m), m)) in
  on_txn (nfos_cht_find_preferred_available_backend (cht st) (backends st) hash (cht_height (cfg st))
            (backend_capacity (cfg st))).

(** The assigned backend, or another one when it has expired; [false]: there
    is none and the handler returns.  [local_state]: the index of the packet
    set whose state is passed. *)
Definition reassign (local_state : Z) : M (mem * T) bool :=
  let! id := on_nf_mem (fun m => (backend_id (pkt_set_state (nf_manager m) local_state), m)) in
  let! allocated := on_txn (nfos_dchain_exp_is_index_allocated_t (backends st) id) in
  if negb allocated then
    let! found := find_backend in
    match found with
    | Some b =>
        on_nf_mem (fun m => (tt, set_manager (write_state local_state (MaglevState b) (nf_manager m)) m)) ;;
        ret true
    | None => drop_pkt ;; ret false
    end
  else ret true.

(** if (dpo0->action == LB) { ... } *)
Definition balance (lb0 : load_balance_t) (local_state : Z) : M (mem * T) maglev_result :=
  let! found := reassign local_state in
  if (found : bool) then
    let! id := on_nf_mem (fun m => (backend_id (pkt_set_state (nf_manager m) local_state), m)) in
    let! backend := on_txn (nfos_vector_borrow_t (backend_infos st) id) in
    on_nf_mem (fun m =>
      let pkt := nf_packet m in
      let tos := u8 (Z.shiftl (Z.land (dscp lb0) 63) 2) in
      (tt, set_packet (set_ipv4_header (set_type_of_service tos (ipv4 pkt)) pkt) m)) ;;
    send_pkt_to_backend backend ;;
    ret Returned
  else ret Returned.

Definition client_pkt_handler (incoming_dev local_state : Z) : M (mem * T) maglev_result :=
  drop_expired_ttl ;;
  let! le_dst_addr := on_nf_mem (fun m => (bswap32 (dst_addr (ipv4 (nf_packet m))), m)) in
  let! lb0 := on_txn (fib_lookup (ip4_fibs st) (ply_pool_vec st) (lb_pool_vec st) incoming_dev le_dst_addr) in
  match load_balance_get_bucket_i lb0 0 with
  | None => ret AssertionFailed
  | Some dpo0 =>
      if action dpo0 =? DROP then drop_pkt ;; ret Returned
      else if action dpo0 =? LB then balance lb0 local_state
      else ret Returned
  end.

(** The table is full: the heartbeat is ignored. *)
Definition heartbeat (incoming_dev addr : Z) (src_mac : rte_ether_addr) : M T unit :=
  let! found := nfos_map_get_t (backend_ip_to_backend_id st) addr in
  match found with
  | None =>
      let! allocated := nfos_dchain_exp_allocate_new_index_t (backends st) thread_id now in
      match allocated with
      | Some backend_id =>
          let! new_backend := nfos_vector_borrow_mut_t (backend_infos st) backend_id in
          modify (elems (backend_infos st)) new_backend (fun b => Backend (dev b) (mac b) addr) ;;
          modify (elems (backend_infos st)) new_backend (fun b => Backend (dev b) src_mac (ip b)) ;;
          modify (elems (backend_infos st)) new_backend (fun b => Backend incoming_dev (mac b) (ip b)) ;;
          let! key := nfos_vector_borrow_mut_t (backend_ips st) backend_id in
          modify (elems (backend_ips st)) key (fun _ => addr) ;;
          let! k := load (elems (backend_ips st)) key in
          let! _ := nfos_map_put_t (backend_ip_to_backend_id st) k backend_id in
          ret tt
      | None => ret tt
      end
  | Some backend_id =>
      let! _ := nfos_dchain_exp_rejuvenate_index_t (backends st) backend_id now in
      ret tt
  end.

Definition heartbeat_handler (incoming_dev : Z) : M (mem * T) unit :=
  let! pkt := on_nf_mem (fun m => (nf_packet m, m)) in
  on_txn (heartbeat incoming_dev (src_addr (ipv4 pkt)) (eth_s_addr (ether_header pkt))).

Definition nf_unknown_pkt_set_handler (num_cores core pkt_set_partition incoming_dev : Z)
    (pkt_set_id : pkt_set_id_t) : M (mem * T) unit :=
  drop_expired_ttl ;;
  let! found := find_backend in
  match found with
  | Some backend_id =>
      let local_state := MaglevState backend_id in
      let! _ := add_pkt_set num_cores core pkt_set_partition pkt_set_id local_state None in
      let! backend := on_txn (nfos_vector_borrow_t (backend_infos st) backend_id) in
      send_pkt_to_backend backend
  | None => drop_pkt
  end.

Definition nf_expired_pkt_set_handler : M (Z * T) unit := ret tt.

(** [curr]: the allocator's curr_free_list. *)
Definition expire_backend {W} `{RluRuntime W T} (loop_fuel fuel : nat) (curr : Z) (w : W)
    : option (bool * (exp_mem * W)) :=
  expire_txn (backend_ip_to_backend_id st) (backend_ips st) (backends st) now loop_fuel fuel curr w.
End maglev.

(** ** Flows *)

(** The packets of a flow have one hash: that of their packet set's id. *)
Lemma hash_of_flow {T B} `{PacketIo B} (st : nf_state T) (pkt : pkt_t B) dev u :
  is_wan st dev = true -> get_hash_from_pkt pkt = pkt_set_id_hash (nf_pkt_dispatcher st pkt dev u).1.2.
Proof. intros E. unfold nf_pkt_dispatcher. by rewrite E. Qed.

(** ** The table of backends *)

Section spec.
Context {T B : Type} `{RluTxn T} `{!PacketIo B} (st : nf_state T).
Context `{!RluLaws (map_entries (backend_ip_to_backend_id st)), !MapConfig (backend_ip_to_backend_id st)}.
Context `{!RluLaws (elems (backend_ips st)), !RluLaws (elems (backend_infos st))}.
Context `{!RluLaws (cells (backends st))}.
Context `{!TableDisjoint (backend_ip_to_backend_id st) (backend_ips st) (backend_infos st) (backends st)}.
Hypothesis (HN : 0 < num_free_lists (backends st)).
Abbreviation R := (table_steps (backend_ip_to_backend_id st) (backend_ips st) (backend_infos st) (backends st)).
Abbreviation usable := (backend_capacity (cfg st)).
Abbreviation mem := (nf_mem (pkt_t B) pkt_set_id_t pkt_set_state_t).

(** [I]: the ids of the backends' addresses; [S]: what is known of them and
    until when. *)
Definition backends_rep (now : Z) (t : T) (I : gmap Z Z) (S : gmap Z (backend_info * Z)) : Prop :=
  exists ks lk vs lv al tm,
    tparts (backend_ip_to_backend_id st) (backend_ips st) (backend_infos st) (backends st) usable
      t I ks lk vs lv al tm /\
    table_ok (backends st) now I ks vs al tm S.

(** A heartbeat from a backend: it stays until the validity duration has
    passed, under the id it has or under a fresh one. *)
Definition registered (now device : Z) (src_mac : rte_ether_addr) (addr : Z) (I : gmap Z Z)
    (S : gmap Z (backend_info * Z)) (I' : gmap Z Z) (S' : gmap Z (backend_info * Z)) : Prop :=
  match S !! addr with
  | Some (b, _) => I' = I /\ S' = <[addr := (b, expiry_time now (validity_duration (backends st)))]> S
  | None =>
      if Z.of_nat (size S) <? usable then
        exists id, 0 <= id < usable /\ (forall a, I !! a <> Some id) /\ I' = <[addr := id]> I /\
          S' = <[addr := (Backend device src_mac addr, expiry_time now (validity_duration (backends st)))]> S
      else I' = I /\ S' = S
  end.

Section heartbeat.
Variables (core now0 now : Z).
Hypothesis (Hcore : 0 <= core < num_free_lists (backends st)).
Hypothesis (Hnow : now0 <= now).
Hypothesis (Hcap : 0 <= usable <= map_capacity (backend_ip_to_backend_id st)).

Lemma wp_heartbeat device addr src_mac t I S :
  backends_rep now0 t I S ->
  wp R (heartbeat st core now device addr src_mac) t
    (fun _ t' => exists I' S', registered now device src_mac addr I S I' S' /\ backends_rep now t' I' S').
Proof.
  intros (ks & lk & vs & lv & al & tm & Hp & Ht). unfold heartbeat, registered.
  apply wp_bind; [apply _|]. trule @wp_tget. destruct (I !! addr) as [i|] eqn:HI.
  - pose proof (tb_entry _ _ _ _ _ _ _ _ Ht addr) as He. rewrite HI in He. cbn in He. rewrite He.
    apply wp_bind; [apply _|].
    assert (is_allocated al i) as Hal by (apply (tb_index _ _ _ _ _ _ _ _ Ht); by exists addr).
    trule @wp_trejuvenate; [ |].
    { destruct (tp_heap _ _ _ _ _ _ _ _ _ _ _ _ _ Hp) as [Hr _]. by apply (rep_range _ _ _ al i Hr). }
    intros l c1 c2 t1 E Hp1. apply wp_ret; [apply _|]. do 2 eexists. split; [by split|].
    do 6 eexists. split; [exact Hp1|].
    eapply tb_ext; [intros j|by apply (tb_refresh _ usable l c1 c2 addr (vs i) i now0 now)].
    rewrite fn_insert_dec. by case_decide; subst.
  - pose proof (proj2 (tb_none _ _ _ _ _ _ _ _ _ Ht) HI) as HS. rewrite HS.
    apply wp_bind; [apply _|]. trule @wp_tallocate; [ |].
    + intros t1 i Hi Hn Hp1. pose proof (tb_room _ _ _ _ usable _ _ _ _ _ _ _ _ _ _ _ Hp Ht Hi Hn) as Hroom.
      rewrite (proj2 (Z.ltb_lt _ _)) by done.
      apply wp_bind; [apply _|]. trule @wp_tborrow_mut. intros t2 Hp2.
      do 3 (apply wp_bind; [apply _|]; trule @wp_tmodify; [left|]; intros ? ?).
      apply wp_bind; [apply _|]. trule @wp_tborrow_mut_key. intros t3 Hp3.
      apply wp_bind; [apply _|]. trule @wp_tmodify_key; [left|]. intros t4 Hp4.
      apply wp_bind; [apply _|]. trule @wp_tborrow_key. rewrite fn_lookup_insert.
      apply wp_bind; [apply _|]. trule @wp_tput; [ |].
      { rewrite <- (tb_size _ _ _ _ _ _ _ _ Ht). lia. }
      intros t5 Hp5. apply wp_ret; [apply _|]. do 2 eexists. split.
      { exists i. split; [done|]. split; [|by split]. intros a Ha. apply Hn.
        apply (tb_index _ _ _ _ _ _ _ _ Ht). by exists a. }
      do 6 eexists. split; [exact Hp5|].
      eapply tb_ext; [intros j|by apply (tb_add _ usable core addr (Backend device src_mac addr) i now0 now)].
      rewrite !fn_insert_dec. case_decide; [|done]. by rewrite ?decide_True by done.
    + intros t1 Hall Hp1. pose proof (tb_full _ usable _ _ _ _ _ _ _ Ht ltac:(lia) Hall) as Hfull.
      rewrite (proj2 (Z.ltb_ge _ _)) by done.
      apply wp_ret; [apply _|]. exists I, S. split; [by split|]. do 6 eexists. split; [exact Hp1|].
      by apply (tb_later _ now0).
Qed.

End heartbeat.

(** ** The choice of a backend *)

Definition live_id (I : gmap Z Z) (id : Z) : Prop := exists a, I !! a = Some id.

(** The rows of the consistent-hashing table, as nfos_cht_fill_cht writes
    them. *)
Definition cht_ready (t : T) : Prop :=
  forall hash, Permutation (priority_list (cht st) t hash (cht_height (cfg st)) usable) (seqZ 0 usable).

(** The first live backend of the flow's row; none only if there is none at
    all. *)
Definition chosen (t : T) (I : gmap Z Z) (hash : Z) (r : option Z) : Prop :=
  match r with
  | Some b => live_id I b /\ exists l1 l2,
      priority_list (cht st) t hash (cht_height (cfg st)) usable = l1 ++ b :: l2 /\
      forall j, j ∈ l1 -> ~ live_id I j
  | None => I = ∅
  end.

(** A flow keeps its backend as long as it lives. *)
Definition assigned (t : T) (I : gmap Z Z) (hash old : Z) (r : option Z) : Prop :=
  live_id I old /\ r = Some old \/ ~ live_id I old /\ chosen t I hash r.

Definition to_backend (b : backend_info) (m : mem) : mem :=
  if is_wan st (dev b) then m
  else
    let pkt := set_ipv4_header (set_dst_addr (ip b) (ipv4 (nf_packet m))) (nf_packet m) in
    let pkt := set_ether_header (Ether (mac b) (device_macs (cfg st) (dev b))) pkt in
    set_dst_device (dev b) (set_packet (nf_set_ipv4_udptcp_checksum pkt) m).

(** The packet is marked with the DSCP of the entry [lb], the flow's state
    changes if it has another backend. *)
Definition balanced (lb : load_balance_t) (ls b : Z) (m : mem) : mem :=
  let g := nf_manager m in
  let m := if b =? backend_id (pkt_set_state g ls) then m
           else set_manager (write_state ls (MaglevState b) g) m in
  set_packet (set_ipv4_header (set_type_of_service (u8 (Z.shiftl (Z.land (dscp lb) 63) 2)) (ipv4 (nf_packet m)))
    (nf_packet m)) m.

(** Backend [b] and what the table says of it. *)
Definition backend_is (I : gmap Z Z) (S : gmap Z (backend_info * Z)) (b : Z) (info : backend_info) : Prop :=
  exists a e, I !! a = Some b /\ S !! a = Some (info, e).

Section reads.
Variables (now : Z) (t : T) (I : gmap Z Z) (S : gmap Z (backend_info * Z)).
Hypothesis (Hr : backends_rep now t I S).
Hypothesis (Hcht : cht_ready t).
Hypothesis (Hpos : 0 <= usable).
Hypothesis (Hsize : 0 < cht_height (cfg st) /\ cht_height (cfg st) * usable < 2 ^ 31).

Lemma alive_live id : 0 <= id < usable -> alive (backends st) t id = true <-> live_id I id.
Proof using HN Hr.
  intros Hid. destruct Hr as (ks & lk & vs & lv & al & tm & Hp & Ht).
  rewrite (alive_spec _ usable t al tm id HN (tp_heap _ _ _ _ _ _ _ _ _ _ _ _ _ Hp) Hid).
  apply (tb_index _ _ _ _ _ _ _ _ Ht).
Qed.

Lemma live_info id : live_id I id -> backend_is I S id (view (elems (backend_infos st)) t id) /\ 0 <= id < usable.
Proof using HN Hr.
  intros [a Ha]. destruct Hr as (ks & lk & vs & lv & al & tm & Hp & Ht). split.
  - exists a, (tm id). split; [done|]. rewrite (tb_entry _ _ _ _ _ _ _ _ Ht a), Ha. cbn. do 2 f_equal.
    symmetry. apply (tp_vals _ _ _ _ _ _ _ _ _ _ _ _ _ Hp).
  - destruct (tp_heap _ _ _ _ _ _ _ _ _ _ _ _ _ Hp) as [Hch _]. apply (rep_range _ _ _ al id Hch).
    apply (tb_index _ _ _ _ _ _ _ _ Ht). by exists a.
Qed.

Lemma cht_range p : 0 <= p < cht_height (cfg st) * usable -> 0 <= view (elems (cht st)) t p < usable.
Proof using Hcht Hsize.
  intros Hp. assert (0 < usable) as Hu by nia.
  assert (view (elems (cht st)) t p ∈ seqZ 0 usable) as Hv; [|apply elem_of_seqZ in Hv; lia].
  rewrite <- (Hcht (p / usable)). unfold priority_list.
  assert (0 <= p / usable < cht_height (cfg st)) as Hq.
  { split; [by apply Z.div_pos; lia|]. apply Z.div_lt_upper_bound; lia. }
  rewrite (Z.mod_small _ _ Hq). apply list_elem_of_fmap. exists (p mod usable). split.
  - f_equal. rewrite Z.mul_comm. by apply Z.div_mod; lia.
  - apply elem_of_seqZ. pose proof (Z.mod_pos_bound p usable Hu). lia.
Qed.

Lemma find_chosen hash : exists r, chosen t I hash r /\
  nfos_cht_find_preferred_available_backend (cht st) (backends st) hash (cht_height (cfg st)) usable t = (Some r, t).
Proof using HN Hr Hcht Hsize Hpos.
  assert (forall j, j ∈ priority_list (cht st) t hash (cht_height (cfg st)) usable -> 0 <= j < usable) as Hin.
  { intros j. rewrite (Hcht hash), elem_of_seqZ. lia. }
  eexists. split; [|apply find_preferred_reads; [lia|lia|lia|]].
  - pose proof (find_first (alive (backends st) t) (priority_list (cht st) t hash (cht_height (cfg st)) usable)) as Hf.
    destruct (find _ _) as [b|]; cbn.
    + destruct Hf as (l1 & l2 & E & Hb & Hl1). rewrite E in Hin. split.
      { apply alive_live; [|done]. apply Hin, elem_of_app. right. left. }
      exists l1, l2. split; [done|]. intros j Hj Hl. apply alive_live in Hl; [|apply Hin, elem_of_app; by left].
      by rewrite Hl1 in Hl.
    + apply map_empty. intros a. destruct (I !! a) as [id|] eqn:Ha; [|done].
      assert (live_id I id) as Hl by (by exists a). destruct (live_info id Hl) as [_ Hid].
      apply (alive_live id Hid) in Hl. rewrite Hf in Hl; [done|]. rewrite (Hcht hash), elem_of_seqZ. lia.
  - intros p Hp. pose proof (cht_range p Hp).
    assert (usable <= cht_height (cfg st) * usable) by nia. lia.
Qed.

Lemma find_backend_run (m : mem) : exists r, chosen t I (get_hash_from_pkt (nf_packet m)) r /\
  find_backend st (m, t) = (Some r, (m, t)).
Proof using HN Hr Hcht Hsize Hpos.
  destruct (find_chosen (get_hash_from_pkt (nf_packet m))) as (r & Hch & E). exists r. split; [done|].
  unfold find_backend, bind, on_nf_mem, on_txn. by rewrite E.
Qed.

Lemma to_backend_run b (m : mem) t' : send_pkt_to_backend st b (m, t') = (Some tt, (to_backend b m, t')).
Proof using Type. unfold send_pkt_to_backend, to_backend. by destruct (is_wan st (dev b)). Qed.

Lemma maglev_ttl_run (m : mem) (t' : T) : drop_expired_ttl (m, t') = (Some tt, (m, t')).
Proof using Type. unfold drop_expired_ttl, bind. cbn. by destruct (_ =? _). Qed.

Lemma reassign_run ls (m : mem) :
  let old := backend_id (pkt_set_state (nf_manager m) ls) in
  0 <= old < usable ->
  exists r, assigned t I (get_hash_from_pkt (nf_packet m)) old r /\
  reassign st ls (m, t) = match r with
    | Some b => (Some true, (if b =? old then m
                             else set_manager (write_state ls (MaglevState b) (nf_manager m)) m, t))
    | None => (Some false, (m, t))
    end.
Proof using HN Hr Hcht Hsize Hpos.
  intros old Hold. pose proof (alive_live old Hold) as Hl. unfold reassign.
  unfold bind at 1. cbn [on_nf_mem]. fold old. unfold bind at 1, on_txn, nfos_dchain_exp_is_index_allocated_t.
  unfold bind at 1, deref, ret at 1. fold (alive (backends st) t old). destruct (alive (backends st) t old); cbn [negb].
  - exists (Some old). split; [left; by split; [apply Hl|]|]. by rewrite Z.eqb_refl.
  - destruct (find_backend_run m) as (r & Hch & E). exists r.
    assert (~ live_id I old) as Hdead by (intros H'; by apply Hl in H').
    split; [by right|]. unfold bind at 1. rewrite E. destruct r as [b|]; [|done]. cbn.
    destruct (Z.eqb_spec b old) as [->|_]; [by destruct Hch|done].
Qed.

(** The handler after the lookup. *)
Lemma client_lookup dev ls (m : mem) (t' : T) :
  let lb := view (elems (lb_pool_vec st)) t'
              (mtrie_lookup (mtrie (ip4_fib_get (ip4_fibs st) dev)) (view (elems (ply_pool_vec st)) t')
                 (bswap32 (dst_addr (ipv4 (nf_packet m))))) in
  client_pkt_handler st dev ls (m, t') =
  match load_balance_get_bucket_i lb 0 with
  | None => (Some AssertionFailed, (m, t'))
  | Some dpo0 =>
      if action dpo0 =? DROP then (Some Returned, (m, t'))
      else if action dpo0 =? LB then balance st lb ls (m, t')
      else (Some Returned, (m, t'))
  end.
Proof using Type.
  intros lb. unfold client_pkt_handler. unfold bind at 1. rewrite maglev_ttl_run.
  unfold bind at 1. cbn [on_nf_mem]. unfold bind at 1, on_txn at 1. rewrite fib_lookup_run. fold lb.
  destruct (load_balance_get_bucket_i lb 0) as [d|]; [|done].
  destruct (action d =? DROP); [done|]. by destruct (action d =? LB).
Qed.

Lemma balance_run lb ls (m : mem) :
  let old := backend_id (pkt_set_state (nf_manager m) ls) in
  0 <= old < usable ->
  exists r, assigned t I (get_hash_from_pkt (nf_packet m)) old r /\
  match r with
  | Some b => exists info, backend_is I S b info /\
      balance st lb ls (m, t) = (Some Returned, (to_backend info (balanced lb ls b m), t))
  | None => balance st lb ls (m, t) = (Some Returned, (m, t))
  end.
Proof using HN Hr Hcht Hsize Hpos.
  intros old Hold. destruct (reassign_run ls m Hold) as (r & Ha & E). exists r. split; [done|].
  destruct r as [b|]; [|unfold balance, bind at 1; by rewrite E].
  assert (live_id I b) as Hb.
  { destruct Ha as [[Hl Eb]|[_ [Hl _]]]; [injection Eb as ->|]; done. }
  destruct (live_info b Hb) as [Hi _]. eexists. split; [exact Hi|].
  unfold balance. unfold bind at 1. rewrite E. clear E. fold old. unfold balanced. cbv zeta. fold old.
  destruct (Z.eqb_spec b old) as [->|_].
  - unfold bind at 1. cbn [on_nf_mem]. fold old. unfold bind at 1, on_txn at 1.
    unfold nfos_vector_borrow_t at 1, deref. unfold bind at 1. cbn [on_nf_mem].
    unfold bind at 1. by rewrite to_backend_run.
  - unfold bind at 1. cbn [on_nf_mem set_manager nf_manager]. unfold write_state at 1. cbn [pkt_set_state set_states].
    rewrite fn_lookup_insert. cbn [backend_id]. unfold bind at 1, on_txn at 1.
    unfold nfos_vector_borrow_t at 1, deref. unfold bind at 1. cbn [on_nf_mem].
    unfold bind at 1. by rewrite to_backend_run.
Qed.

Lemma maglev_unknown_run N c p dev k (m : mem) :
  exists r, chosen t I (get_hash_from_pkt (nf_packet m)) r /\
  match r with
  | Some b => exists info, backend_is I S b info /\
      nf_unknown_pkt_set_handler st N c p dev k (m, t) =
      (Some tt, (to_backend info
         (set_manager (add_pkt_set_log N c (MaglevState b) p None (nf_manager m)).2 m), t))
  | None => nf_unknown_pkt_set_handler st N c p dev k (m, t) = (Some tt, (m, t))
  end.
Proof using HN Hr Hcht Hsize Hpos.
  destruct (find_backend_run m) as (r & Hch & E). exists r. split; [done|].
  destruct r as [b|]; [|unfold nf_unknown_pkt_set_handler, bind at 1; rewrite maglev_ttl_run; unfold bind;
    by rewrite E].
  destruct Hch as [Hl _]. destruct (live_info b Hl) as [Hi _]. eexists. split; [exact Hi|].
  unfold nf_unknown_pkt_set_handler, bind at 1. rewrite maglev_ttl_run. unfold bind at 1. rewrite E.
  unfold bind at 1, add_pkt_set. destruct (add_pkt_set_log _ _ _ _ _ _) as [r g].
  unfold bind at 1, on_txn at 1. unfold nfos_vector_borrow_t at 1, deref. by rewrite to_backend_run.
Qed.
End reads.
End spec.

(** ** Initialisation *)

(** A transaction that reads what the allocation functions wrote. *)
Definition reads_fresh {T} (g : maglev_masters) (mm : RluMem T (nfos_map_entry Z))
    (mc : RluMem T nfos_dchain_exp_cell) (mh : RluMem T Z) (t : T) : Prop :=
  (forall l, view mm t l = mm_entries (gm_map g) l) /\
  (forall l, view mc t l = em_cells (gm_backends g) l) /\
  (forall l, view mh t l = m_elems (gm_cht g) l).

Record config_ok (c : nf_config) (lcores : Z) : Prop := {
  co_cores : 1 < lcores;
  co_divides : (lcores - 1 | backend_capacity c);
  co_pos : 0 < backend_capacity c;
  co_prime : Z.prime (cht_height c);
  co_height : cht_height c <= MAX_CHT_HEIGHT;
  co_size : cht_height c * backend_capacity c < 2 ^ 31
}.

(** The table without backends, with its rows filled. *)
Definition fresh_state {T} (st : nf_state T) (t : T) : Prop :=
  (forall now, - 2 ^ 63 <= now + validity_duration (backends st) -> backends_rep st now t ∅ ∅) /\ cht_ready st t.

Lemma eq_Permutation {A} (l l' : list A) : l = l' -> Permutation l l'.
Proof. by intros ->. Qed.

Lemma no_backends {T} (st : nf_state T) now t :
  table_rep (backend_ip_to_backend_id st) (backend_ips st) (backend_infos st) (backends st)
    (backend_capacity (cfg st)) now t ∅ -> backends_rep st now t ∅ ∅.
Proof.
  intros (I & ks & lk & vs & lv & al & tm & Hp & Ht). assert (I = ∅) as ->; [|by do 6 eexists].
  apply map_empty. intros a. by apply (tb_none _ _ _ _ _ _ _ _ _ Ht).
Qed.

Lemma maglev_alloc_ok (c : nf_config) (ok : Z -> bool) (fuel : nat) map_alloc ip_alloc ip_uninit info_alloc
    info_uninit cell_alloc cht_alloc cht_uninit perm_uninit usec_to_tsc (lcores : Z) :
  config_ok c lcores -> backend_capacity c <= Z.of_nat fuel ->
  match alloc_state c ok fuel map_alloc ip_alloc ip_uninit info_alloc info_uninit cell_alloc cht_alloc
          cht_uninit perm_uninit usec_to_tsc lcores with
  | Some (Some g) => (forall i, 0 <= i < 12 -> ok i = true) /\ gm_cfg g = c /\
      forall T mm mk mv mc mh khash fibs plies lbs (t : T), reads_fresh g mm mc mh t ->
      fresh_state (maglev_state g mm mk mv mc mh khash fibs plies lbs) t
  | Some None => exists i, 0 <= i < 12 /\ ok i = false
  | None => False
  end.
Proof.
  intros [Hcores Hdiv Hpos Hprime Hheight Hsize] Hfuel.
  unfold alloc_state, nfos_map_allocate_t, nfos_vector_allocate_t, nfos_dchain_exp_allocate_t.
  destruct (ok 0) eqn:E0; [|by exists 0]. destruct (ok 1) eqn:E1; [|by exists 1].
  destruct (ok 2) eqn:E2; [|by exists 2]. destruct (ok 3) eqn:E3; [|by exists 3].
  destruct (ok 4) eqn:E4; [|by exists 4]. destruct (ok 5) eqn:E5; [|by exists 5].
  destruct (ok 6) eqn:E6; [|by exists 6]. destruct (ok 7) eqn:E7; [|by exists 7]. cbn [negb].
  assert (0 < lcores - 1 <= backend_capacity c) as HN.
  { split; [lia|]. by apply Z.divide_pos_le. }
  destruct (chain_init_rep (set_time INT64_MAX) (set_time INT64_MAX) (fun _ f => f)
    (backend_capacity c) (lcores - 1) fuel cell_alloc) as (f & -> & Hr); [done|lia|lia|].
  destruct (ok 8) eqn:E8; [|by exists 8]. destruct (ok 9) eqn:E9; [|by exists 9]. cbn [negb m_elems].
  pose proof (fill_cht_rows (ok 10) (ok 11) perm_uninit (vector_init_loop cht_alloc cht_null_init
    (Z.to_nat (backend_capacity c * cht_height c)) 0 cht_uninit) (cht_height c) (backend_capacity c)
    Hprime Hheight ltac:(lia) Hsize) as Hf.
  destruct (nfos_cht_fill_cht _ _ _ _ _ _) as [es|].
  2: { apply andb_false_iff in Hf as [E|E]; [by exists 10|by exists 11]. }
  destruct Hf as [[E10 E11]%andb_true_iff Hrows]. split; [|split; [done|]].
  { intros i Hi. assert (i = 0 \/ i = 1 \/ i = 2 \/ i = 3 \/ i = 4 \/ i = 5 \/ i = 6 \/ i = 7 \/ i = 8 \/
      i = 9 \/ i = 10 \/ i = 11) by lia. naive_solver. }
  intros T mm mk mv mc mh khash fibs plies lbs t (Hmap & Hcells & Hcht). cbn in Hmap, Hcells, Hcht. split.
  - intros now Hclock. apply no_backends, (table_empty _ _ _ _ _ t now (fun _ => 0)); cbn; [done|..].
    + apply map_inv_empty. intros i Hi. cbn in Hi.
      rewrite Hmap, map_reset_loop_spec, decide_True by lia. done.
    + split; [|by intros i [d ?%not_elem_of_nil]].
      replace (backend_capacity c) with ((lcores - 1) * (backend_capacity c / (lcores - 1))).
      2: { symmetry. apply Z.div_exact; [lia|]. by apply Z.mod_divide; [lia|]. }
      apply (rep_ext (lcores - 1) _ ltac:(lia) f); [|exact Hr]. intros x. cbn. by rewrite Hcells.
  - intros hash. unfold priority_list. cbn.
    pose proof (h_pos _ Hprime). pose proof (Z.mod_pos_bound hash (cht_height c) ltac:(lia)) as Hm.
    rewrite <- (Hrows (hash mod cht_height c) Hm) at 2. apply eq_Permutation, list_fmap_ext.
    intros _ p _. rewrite Hcht. f_equal. lia.
Qed.

Lemma default_config_ok num_devs macs mac_garbage lcores :
  1 < lcores -> (lcores - 1 | BACKEND_CAPACITY) ->
  config_ok (nf_config_init num_devs macs mac_garbage) lcores.
Proof.
  intros Hc Hd. split; cbn; [done|done|done| |done|done]. unfold CHT_HEIGHT.
  split; [done|]. intros n Hn [k Hk].
  assert (n < 10 \/ k < 10) by nia.
  assert (forall a b, 1 < a < 10 -> 97 <> b * a) as Hno.
  { intros a b Ha. assert (a = 2 \/ a = 3 \/ a = 4 \/ a = 5 \/ a = 6 \/ a = 7 \/ a = 8 \/ a = 9) by lia. lia. }
  destruct (Z.lt_ge_cases n 10); [by apply (Hno n k); lia|]. apply (Hno k n); nia.
Qed.

Lemma device_macs_spec num_devs macs mac_garbage i : 0 <= i < num_devs ->
  device_macs (nf_config_init num_devs macs mac_garbage) i = macs i.
Proof.
  intros Hi. cbn.
  apply (loop_range_spec (fun n (dm : Z -> rte_ether_addr) => forall j, 0 <= j < n -> dm j = macs j)
    (fun i dm => <[i := macs i]> dm) num_devs mac_garbage); [lia|lia| |done].
  intros n dm Hn IH j Hj. rewrite fn_insert_dec. case_decide; [by subst|]. apply IH. lia.
Qed.

(** ** Properties *)

(** Nf_init of the load balancer sets up the table of backends, or fails
    when memory cannot be had: afterwards no backend is registered and every
    row of the consistent-hashing table lists all backend ids once. *)
Theorem maglev_alloc_spec (ok : Z -> bool) (fuel : nat) (num_devs : Z) (macs mac_garbage : Z -> rte_ether_addr)
    (map_alloc : Z -> nfos_map_entry Z) (ip_alloc ip_uninit : Z -> Z)
    (info_alloc info_uninit : Z -> backend_info) (cell_alloc : Z -> nfos_dchain_exp_cell)
    (cht_alloc cht_uninit perm_uninit usec_to_tsc : Z -> Z) (lcores : Z)
    (Hcores : 1 < lcores) (Hdiv : (lcores - 1 | BACKEND_CAPACITY)) (Hfuel : BACKEND_CAPACITY <= Z.of_nat fuel) :
  match alloc_state (nf_config_init num_devs macs mac_garbage) ok fuel map_alloc ip_alloc ip_uninit info_alloc
          info_uninit cell_alloc cht_alloc cht_uninit perm_uninit usec_to_tsc lcores with
  | Some (Some g) => (forall i, 0 <= i < 12 -> ok i = true) /\
      (forall i, 0 <= i < num_devs -> device_macs (gm_cfg g) i = macs i) /\
      forall T mm mk mv mc mh khash fibs plies lbs (t : T), reads_fresh g mm mc mh t ->
      fresh_state (maglev_state g mm mk mv mc mh khash fibs plies lbs) t
  | Some None => exists i, 0 <= i < 12 /\ ok i = false
  | None => False
  end.
Proof.
  pose proof (maglev_alloc_ok (nf_config_init num_devs macs mac_garbage) ok fuel map_alloc ip_alloc ip_uninit
    info_alloc info_uninit cell_alloc cht_alloc cht_uninit perm_uninit usec_to_tsc lcores
    (default_config_ok num_devs macs mac_garbage lcores Hcores Hdiv) Hfuel) as H.
  destruct (alloc_state _ _ _ _ _ _ _ _ _ _ _ _ _ _) as [[g|]|]; [|exact H..].
  destruct H as (Hok & -> & Hf). split; [done|]. split; [|done]. intros i Hi. cbn.
  by apply (device_macs_spec num_devs).
Qed.

(** C31: a heartbeat registers its sender, or refreshes it: the backend is in
    the table, with the address, the link-layer address and the device of its
    first heartbeat, until the validity duration has passed; when the table is
    full a new backend is ignored.  Nothing is sent. *)
Theorem heartbeat_handler_spec {T B} `{RluTxn T} `{!PacketIo B} (st : nf_state T)
    `{!RluLaws (map_entries (backend_ip_to_backend_id st)), !MapConfig (backend_ip_to_backend_id st)}
    `{!RluLaws (elems (backend_ips st)), !RluLaws (elems (backend_infos st)), !RluLaws (cells (backends st))}
    `{!TableDisjoint (backend_ip_to_backend_id st) (backend_ips st) (backend_infos st) (backends st)}
    (core now0 now d : Z) (m : nf_mem (pkt_t B) pkt_set_id_t pkt_set_state_t) (t : T)
    (I : gmap Z Z) (S : gmap Z (backend_info * Z))
    (Hcore : 0 <= core < num_free_lists (backends st)) (Hnow : now0 <= now)
    (Hcap : 0 <= backend_capacity (cfg st) <= map_capacity (backend_ip_to_backend_id st))
    (Hr : backends_rep st now0 t I S) :
  match heartbeat_handler st core now d (m, t) with
  | (Some tt, (m', t')) => m' = m /\ exists I' S',
      registered st now d (eth_s_addr (ether_header (nf_packet m))) (src_addr (ipv4 (nf_packet m))) I S I' S' /\
      backends_rep st now t' I' S'
  | (None, (m', _)) => m' = m /\ ~ no_conflict t
  end.
Proof.
  pose proof (wp_heartbeat st ltac:(lia) core now0 now Hcore Hnow Hcap d (src_addr (ipv4 (nf_packet m)))
    (eth_s_addr (ether_header (nf_packet m))) t I S Hr) as Hw.
  unfold heartbeat_handler, bind, on_nf_mem, on_txn, wp in *.
  destruct (heartbeat _ _ _ _ _ _ t) as [[[]|] t']; [|done]. by destruct Hw.
Qed.

(** The first packet of a client's flow goes to the first live backend of
    the row its hash selects, and the flow is registered with that backend's
    id; it is dropped only when no backend is registered.  The handler reads
    the tables only and never aborts. *)
Theorem maglev_new_flow_spec {T B} `{!PacketIo B} (st : nf_state T) (now N core partition dev : Z)
    (k : pkt_set_id_t) (m : nf_mem (pkt_t B) pkt_set_id_t pkt_set_state_t) (t : T)
    (I : gmap Z Z) (S : gmap Z (backend_info * Z))
    (HN : 0 < num_free_lists (backends st)) (Hcap : 0 <= backend_capacity (cfg st))
    (Hsize : 0 < cht_height (cfg st) /\ cht_height (cfg st) * backend_capacity (cfg st) < 2 ^ 31)
    (Hr : backends_rep st now t I S) (Hcht : cht_ready st t) :
  exists r, chosen st t I (get_hash_from_pkt (nf_packet m)) r /\
  match r with
  | Some b => exists info, backend_is I S b info /\
      nf_unknown_pkt_set_handler st N core partition dev k (m, t) =
      (Some tt, (to_backend st info
         (set_manager (add_pkt_set_log N core (MaglevState b) partition None (nf_manager m)).2 m), t))
  | None => nf_unknown_pkt_set_handler st N core partition dev k (m, t) = (Some tt, (m, t))
  end.
Proof. by eapply maglev_unknown_run. Qed.

(** C30: the packets of a known flow: what happens to them is decided by the
    forwarding table of their device; those to be balanced are marked and go
    to the flow's backend as long as it is registered, and only then to the
    first live backend of the row, which becomes the flow's backend; they are
    dropped only when no backend is registered. *)
Theorem maglev_client_spec {T B} `{!PacketIo B} (st : nf_state T) (now dev ls : Z)
    (m : nf_mem (pkt_t B) pkt_set_id_t pkt_set_state_t) (t : T) (I : gmap Z Z) (S : gmap Z (backend_info * Z))
    (HN : 0 < num_free_lists (backends st)) (Hcap : 0 <= backend_capacity (cfg st))
    (Hsize : 0 < cht_height (cfg st) /\ cht_height (cfg st) * backend_capacity (cfg st) < 2 ^ 31)
    (Hr : backends_rep st now t I S) (Hcht : cht_ready st t)
    (Hold : 0 <= backend_id (pkt_set_state (nf_manager m) ls) < backend_capacity (cfg st)) :
  let lb := view (elems (lb_pool_vec st)) t
              (mtrie_lookup (mtrie (ip4_fib_get (ip4_fibs st) dev)) (view (elems (ply_pool_vec st)) t)
                 (bswap32 (dst_addr (ipv4 (nf_packet m))))) in
  match load_balance_get_bucket_i lb 0 with
  | None => client_pkt_handler st dev ls (m, t) = (Some AssertionFailed, (m, t))
  | Some dpo =>
      if action dpo =? LB then
        exists r, assigned st t I (get_hash_from_pkt (nf_packet m))
                    (backend_id (pkt_set_state (nf_manager m) ls)) r /\
        match r with
        | Some b => exists info, backend_is I S b info /\
            client_pkt_handler st dev ls (m, t) = (Some Returned, (to_backend st info (balanced lb ls b m), t))
        | None => client_pkt_handler st dev ls (m, t) = (Some Returned, (m, t))
        end
      else client_pkt_handler st dev ls (m, t) = (Some Returned, (m, t))
  end.
Proof.
  intros lb. rewrite client_lookup. fold lb. destruct (load_balance_get_bucket_i lb 0) as [dpo|]; [|done].
  destruct (Z.eqb_spec (action dpo) LB) as [->|Hne]; [by eapply balance_run|].
  by destruct (action dpo =? DROP).
Qed.

(** ** Witnesses: two cores, four backends, five rows *)

Definition maglev_txn : Type :=
  ((snap_txn (nfos_map_entry Z) * snap_txn Z) * (snap_txn backend_info * snap_txn nfos_dchain_exp_cell)) *
  (snap_txn Z * (snap_txn ip4_fib_mtrie_8_ply_t * snap_txn load_balance_t)).

Definition ex_config : nf_config := MaglevConfig (0, 2) (fun i => Mac 2 0 0 0 0 i) 10 4 5 10.
Definition ex_maglev_alloc : option (option maglev_masters) :=
  alloc_state ex_config (fun _ => true) 4 (fun _ => MapEntry 0 0 0 0 0) (fun _ => 0) (fun _ => 0)
    (fun _ => Backend 0 no_mac 0) (fun _ => Backend 0 no_mac 0) (fun _ => ExpCell 0 0 0 0) (fun _ => 0) (fun _ => 0)
    (fun _ => 0) (fun x => x) 3.
Definition ex_maglev_masters : maglev_masters :=
  match ex_maglev_alloc with
  | Some (Some g) => g
  | _ => MaglevMasters (MapMasters (fun _ => MapEntry 0 0 0 0 0) 0 0) (VectorMasters (fun _ => 0) 0 0)
           (VectorMasters (fun _ => Backend 0 no_mac 0) 0 0) (ExpMasters (fun _ => ExpCell 0 0 0 0) 0 0 0)
           (VectorMasters (fun _ => 0) 0 0) ex_config
  end.

(** Tables that lead every address to an entry that is balanced and marked
    with DSCP 1. *)
Definition ex_lb : load_balance_t := LoadBalance 1 1 (fun _ => Dpo LB 65535 0 no_mac).
Definition ex_maglev : nf_state maglev_txn :=
  maglev_state ex_maglev_masters
    (lens_mem (fst_lens (fst_lens (fst_lens self_lens)))) (lens_mem (fst_lens (fst_lens (snd_lens self_lens))))
    (lens_mem (fst_lens (snd_lens (fst_lens self_lens)))) (lens_mem (fst_lens (snd_lens (snd_lens self_lens))))
    (lens_mem (snd_lens (fst_lens self_lens))) (ip_addr_hash (B := ex_frame))
    (fun i => Fib (Ply16 (fun _ => 3) (fun _ => 0)) i)
    {| elems := lens_mem (snd_lens (snd_lens (fst_lens self_lens))); elem_size := 1288; capacity := 1 |}
    {| elems := lens_mem (snd_lens (snd_lens (snd_lens self_lens))); elem_size := 16; capacity := 2 |}.

#[local] Instance ex_maglev_config : MapConfig (backend_ip_to_backend_id ex_maglev).
Proof.
  apply (Build_MapConfig _ _ _ (backend_ip_to_backend_id ex_maglev) 2); [lia|done| |].
  - intros k. apply wrap_range. lia.
  - intros k k'. apply Z.eqb_eq.
Defined.
#[local] Instance ex_maglev_disjoint :
  TableDisjoint (backend_ip_to_backend_id ex_maglev) (backend_ips ex_maglev) (backend_infos ex_maglev)
    (backends ex_maglev).
Proof. split; cbn; apply _. Qed.

Definition fresh_snap {O} (f : Z -> O) : snap_txn O := SnapTxn f ∅ (fun _ => false).
Definition ex_maglev_txn0 : maglev_txn :=
  (((fresh_snap (mm_entries (gm_map ex_maglev_masters)), fresh_snap (m_elems (gm_ips ex_maglev_masters))),
    (fresh_snap (m_elems (gm_infos ex_maglev_masters)), fresh_snap (em_cells (gm_backends ex_maglev_masters)))),
   (fresh_snap (m_elems (gm_cht ex_maglev_masters)),
    (fresh_snap (fun _ => Ply8 (fun _ => 0) (fun _ => 0) 0 0), fresh_snap (fun _ => ex_lb)))).

Lemma ex_config_ok : config_ok ex_config 3.
Proof.
  split; cbn; [done|by exists 2|done| |done|done]. split; [done|]. intros n Hn [k Hk].
  assert (n = 2 \/ n = 3 \/ n = 4) by lia. lia.
Qed.

Lemma ex_maglev_fresh : fresh_state ex_maglev ex_maglev_txn0.
Proof.
  pose proof (maglev_alloc_ok ex_config (fun _ => true) 4 (fun _ => MapEntry 0 0 0 0 0) (fun _ => 0) (fun _ => 0)
    (fun _ => Backend 0 no_mac 0) (fun _ => Backend 0 no_mac 0) (fun _ => ExpCell 0 0 0 0) (fun _ => 0) (fun _ => 0)
    (fun _ => 0) (fun x => x) 3 ex_config_ok ltac:(cbn; lia)) as H.
  unfold ex_maglev, ex_maglev_txn0, ex_maglev_masters, ex_maglev_alloc.
  match type of H with match ?x with _ => _ end => destruct x as [[g|]|] end; [|by destruct H as (? & _ & ?)|done].
  destruct H as (_ & _ & H). apply (H maglev_txn). by split.
Qed.

(** A heartbeat of 10.0.0.9, received on device 1 at time 7, and a client's
    packet. *)
Definition ex_heartbeat : ex_frame :=
  ExFrame (Ether no_mac (Mac 170 0 0 0 0 9)) (Some (Ipv4 0 64 17 9 1)) (Some (TcpUdp 1 1)) (fun _ => 0).
Definition ex_client : ex_frame :=
  ExFrame (Ether no_mac no_mac) (Some (Ipv4 0 64 17 5 6)) (Some (TcpUdp 7 8)) (fun _ => 0).
Definition ex_maglev_manager : pkt_set_manager pkt_set_id_t pkt_set_state_t :=
  Manager (fun _ => ConcCell 0 0 0 0 (FlowId 0 0 0 0 0) 0) (CMap (fun _ => 0) 0 0)
    (fun _ => MaglevState 2) 0 false (fun _ => LogEntry false (FlowId 0 0 0 0 0) (MaglevState 0)).
Definition ex_maglev_mem (b : ex_frame) : nf_mem (pkt_t ex_frame) pkt_set_id_t pkt_set_state_t :=
  NfMem (nf_pkt_parser false b (Pkt 60 (Ether no_mac no_mac) None None None b)).2 2 ex_maglev_manager.

Definition ex_maglev_txn1 : maglev_txn :=
  snd (heartbeat ex_maglev 0 7 1 9 (Mac 170 0 0 0 0 9) ex_maglev_txn0).

Lemma ex_registered : exists I S, backends_rep ex_maglev 7 ex_maglev_txn1 I S /\ cht_ready ex_maglev ex_maglev_txn1.
Proof.
  pose proof (wp_heartbeat ex_maglev ltac:(by vm_compute) 0 7 7 ltac:(by vm_compute) ltac:(lia)
    ltac:(by vm_compute) 1 9 (Mac 170 0 0 0 0 9) ex_maglev_txn0 ∅ ∅ (proj1 ex_maglev_fresh 7 ltac:(by vm_compute))) as H.
  unfold wp, ex_maglev_txn1 in *. destruct (heartbeat _ _ _ _ _ _ _) as [[[]|] t].
  - destruct H as (Hs & I & S & _ & H). exists I, S. split; [exact H|].
    intros hash. rewrite <- (proj2 ex_maglev_fresh hash). apply eq_Permutation, list_fmap_ext.
    intros _ p _. apply (table_steps_view _ _ _ _ (elems (cht ex_maglev)) _ _ _ Hs).
  - destruct H. by vm_compute.
Qed.

Lemma maglev_alloc_spec_witness :
  match alloc_state (nf_config_init 4 (fun i => Mac 0 0 0 0 0 i) (fun _ => no_mac)) (fun i => negb (i =? 11)) 32
          (fun _ => MapEntry 0 0 0 0 0) (fun _ => 0) (fun _ => 0) (fun _ => Backend 0 no_mac 0)
          (fun _ => Backend 0 no_mac 0) (fun _ => ExpCell 0 0 0 0) (fun _ => 0) (fun _ => 0) (fun _ => 0)
          (fun x => x) 5 with
  | Some (Some g) => (forall i, 0 <= i < 12 -> negb (i =? 11) = true) /\
      (forall i, 0 <= i < 4 -> device_macs (gm_cfg g) i = Mac 0 0 0 0 0 i) /\
      forall T mm mk mv mc mh khash fibs plies lbs (t : T), reads_fresh g mm mc mh t ->
      fresh_state (maglev_state g mm mk mv mc mh khash fibs plies lbs) t
  | Some None => exists i, 0 <= i < 12 /\ negb (i =? 11) = false
  | None => False
  end.
Proof.
  apply (maglev_alloc_spec (fun i => negb (i =? 11)) 32 4 (fun i => Mac 0 0 0 0 0 i) (fun _ => no_mac)
    (fun _ => MapEntry 0 0 0 0 0) (fun _ => 0) (fun _ => 0) (fun _ => Backend 0 no_mac 0) (fun _ => Backend 0 no_mac 0)
    (fun _ => ExpCell 0 0 0 0) (fun _ => 0) (fun _ => 0) (fun _ => 0) (fun x => x) 5 ltac:(lia)
    ltac:(by exists 8) ltac:(by vm_compute)).
Defined.

(** The backend registered at time 7 refreshes itself at time 9. *)
Lemma heartbeat_handler_spec_witness :
  exists I S, match heartbeat_handler ex_maglev 1 9 1 (ex_maglev_mem ex_heartbeat, ex_maglev_txn1) with
  | (Some tt, (m', t')) => m' = ex_maglev_mem ex_heartbeat /\ exists I' S',
      registered ex_maglev 9 1 (Mac 170 0 0 0 0 9) 9 I S I' S' /\ backends_rep ex_maglev 9 t' I' S'
  | (None, (m', _)) => m' = ex_maglev_mem ex_heartbeat /\ ~ no_conflict ex_maglev_txn1
  end.
Proof.
  destruct ex_registered as (I & S & Hr & _). exists I, S.
  exact (heartbeat_handler_spec ex_maglev 1 7 9 1 (ex_maglev_mem ex_heartbeat) ex_maglev_txn1 I S
    ltac:(by vm_compute) ltac:(lia) ltac:(by vm_compute) Hr).
Defined.

(** The client's packet leaves on the backend's device. *)
Lemma maglev_new_flow_spec_witness :
  nf_dst_device (fst (snd (nf_unknown_pkt_set_handler ex_maglev 2 0 0 2 (FlowId 7 8 5 6 17)
    (ex_maglev_mem ex_client, ex_maglev_txn1)))) = 1 /\
  exists I r, chosen ex_maglev ex_maglev_txn1 I (get_hash_from_pkt (nf_packet (ex_maglev_mem ex_client))) r.
Proof.
  split; [by vm_compute|]. destruct ex_registered as (I & S & Hr & Hcht). exists I.
  destruct (maglev_new_flow_spec ex_maglev 7 2 0 0 2 (FlowId 7 8 5 6 17) (ex_maglev_mem ex_client) ex_maglev_txn1
    I S ltac:(by vm_compute) ltac:(by vm_compute) ltac:(by vm_compute) Hr Hcht) as (r & Hch & _).
  by exists r.
Defined.

(** The flow's backend 2 has no entry: it gets the one that has. *)
Lemma maglev_client_spec_witness :
  let h := client_pkt_handler ex_maglev 2 0 (ex_maglev_mem ex_client, ex_maglev_txn1) in
  (nf_dst_device (fst (snd h)), type_of_service (ipv4 (nf_packet (fst (snd h)))),
   backend_id (pkt_set_state (nf_manager (fst (snd h))) 0)) = (1, 4, 0) /\
  exists I S r, assigned ex_maglev ex_maglev_txn1 I (get_hash_from_pkt (nf_packet (ex_maglev_mem ex_client))) 2 r /\
  match r with
  | Some b => exists info, backend_is I S b info /\
      client_pkt_handler ex_maglev 2 0 (ex_maglev_mem ex_client, ex_maglev_txn1) =
      (Some Returned, (to_backend ex_maglev info (balanced ex_lb 0 b (ex_maglev_mem ex_client)), ex_maglev_txn1))
  | None => client_pkt_handler ex_maglev 2 0 (ex_maglev_mem ex_client, ex_maglev_txn1) =
      (Some Returned, (ex_maglev_mem ex_client, ex_maglev_txn1))
  end.
Proof.
  split; [by vm_compute|]. destruct ex_registered as (I & S & Hr & Hcht). exists I, S.
  exact (maglev_client_spec ex_maglev 7 2 0 (ex_maglev_mem ex_client) ex_maglev_txn1
    I S ltac:(by vm_compute) ltac:(by vm_compute) ltac:(by vm_compute) Hr Hcht ltac:(by vm_compute)).
Defined.

(** *** Where the code does not do what it means to *)

Definition ex_entry (d : dpo_t) : maglev_txn :=
  (ex_maglev_txn1.1, (ex_maglev_txn1.2.1,
    (ex_maglev_txn1.2.2.1, fresh_snap (fun _ => LoadBalance 1 1 (fun _ => d))))).
Definition ex_first (d : dpo_t) : nf_mem (pkt_t ex_frame) pkt_set_id_t pkt_set_state_t :=
  fst (snd (nf_unknown_pkt_set_handler ex_maglev 2 0 0 2 (FlowId 7 8 5 6 17) (ex_maglev_mem ex_client, ex_entry d))).
Definition ex_next (d : dpo_t) : nf_mem (pkt_t ex_frame) pkt_set_id_t pkt_set_state_t :=
  fst (snd (client_pkt_handler ex_maglev 2 0 (ex_maglev_mem ex_client, ex_entry d))).

(** The handler of new flows does not look at the forwarding table: the first
    packet of a flow that is to be dropped goes to a backend, and the first
    packet of a balanced flow is not marked. *)
Lemma first_packet_unrouted :
  nf_dst_device (ex_first (Dpo DROP 65535 0 no_mac)) = 1 /\ nf_dst_device (ex_next (Dpo DROP 65535 0 no_mac)) = 2 /\
  type_of_service (ipv4 (nf_packet (ex_first (Dpo LB 65535 0 no_mac)))) = 0 /\
  type_of_service (ipv4 (nf_packet (ex_next (Dpo LB 65535 0 no_mac)))) = 4.
Proof. by vm_compute. Qed.

(** Packets whose entry says FORWARD are not forwarded. *)
Lemma forward_entry_ignored : nf_dst_device (ex_next (Dpo FORWARD 3 0 no_mac)) = 2.
Proof. by vm_compute. Qed.
