(* ===== verification/MaglevPlane.v ===== *)
(** * The load balancer in the data plane

    The handlers of Maglev.v as process_pkt runs them in the load balancer's
    build, with PKT_PROCESS_BATCHING and without MUTABLE_PKT_SET_STATE
    (nf/maglev/nf_nfos_config.h): which backend the flows have after a batch,
    and where its packets go.  A flow's backend is written in place, and what
    an aborted run has written is kept (BatchPlane.v). *)

From stdpp Require Import gmap.
From S2P Require Import Prelude Ether Rlu Txn Vector NfosMap Links ConcDchain ConcMap Dchain DchainExp.
From S2P Require Import Cht Interfaces ExpTable PktSet DataPlane BatchPlane NfCommon Mtrie LoadBalance Maglev.
Open Scope Z_scope.

Section data_plane.
Context {T B : Type} `{!PacketIo B} (st : nf_state T).
(** [now]: get_curr_time; [uninit]: the id of a packet without a packet set. *)
Variables (N core partition now : Z) (uninit : pkt_set_id_t).
Abbreviation mem := (nf_mem (pkt_t B) pkt_set_id_t pkt_set_state_t).

#[export] Instance maglev_nf : NfHandlers B (pkt_t B) pkt_set_id_t pkt_set_state_t T := {|
  set_len := with_len;
  DataPlane.nf_pkt_parser b _ p := nf_pkt_parser false b p;
  DataPlane.nf_pkt_dispatcher p dev := nf_pkt_dispatcher st p dev uninit;
  DataPlane.nf_unknown_pkt_set_handler dev k := nf_unknown_pkt_set_handler st N core partition dev k
|}.

(** register_pkt_handlers: clients' packets, then heartbeats; a client's
    handler is not called without a state.  An assertion that fails ends the
    process; here the run just ends, so that what holds of all runs holds up
    to that point. *)
Definition maglev_handlers (pkt_class : Z) : pkt_handler_t (pkt_t B) pkt_set_id_t pkt_set_state_t T :=
  fun dev local_state _ =>
    if pkt_class =? 0 then
      match local_state with
      | Some ls => let! _ := client_pkt_handler st dev ls in ret tt
      | None => ret tt
      end
    else heartbeat_handler st core now dev.

(** ** What every run does to the packet sets *)

Lemma heartbeat_mem dev (m : mem) t r m' t' :
  heartbeat_handler st core now dev (m, t) = (r, (m', t')) -> m' = m.
Proof.
  unfold heartbeat_handler, bind, on_nf_mem, on_txn. destruct (heartbeat _ _ _ _ _ _ t). by intros [= _ <- _].
Qed.

Lemma send_manager b (m : mem) t : nf_manager (send_pkt_to_backend st b (m, t)).2.1 = nf_manager m.
Proof. unfold send_pkt_to_backend. by destruct (negb _). Qed.

Lemma find_mem (m : mem) t r m' t' : find_backend st (m, t) = (r, (m', t')) -> m' = m.
Proof.
  unfold find_backend, bind, on_nf_mem, on_txn.
  destruct (nfos_cht_find_preferred_available_backend _ _ _ _ _ t). by intros [= _ <- _].
Qed.

(** A step that leaves the manager, followed by the rest. *)
Definition written (ls : Z) (g g' : pkt_set_manager pkt_set_id_t pkt_set_state_t) : Prop :=
  g' = g \/ exists s, g' = write_state ls s g.

Lemma reassign_manager ls (m : mem) t r m' t' :
  reassign st ls (m, t) = (r, (m', t')) -> written ls (nf_manager m) (nf_manager m').
Proof.
  unfold reassign, bind at 1. cbn [on_nf_mem]. unfold bind at 1, on_txn.
  destruct (nfos_dchain_exp_is_index_allocated_t _ _ t) as [[[]|] t1]; cbn [negb]; try (intros [= _ <- _]; by left).
  unfold bind at 1. destruct (find_backend st (m, t1)) as [[[b|]|] [m2 t2]] eqn:E; apply find_mem in E as ->;
    intros [= _ <- _]; [right; by eexists|by left..].
Qed.

Lemma balance_manager lb ls (m : mem) t r m' t' :
  balance st lb ls (m, t) = (r, (m', t')) -> written ls (nf_manager m) (nf_manager m').
Proof.
  unfold balance, bind at 1. destruct (reassign st ls (m, t)) as [[[]|] [m1 t1]] eqn:E;
    apply reassign_manager in E; try (by intros [= _ <- _]).
  unfold bind at 1. cbn [on_nf_mem]. unfold bind at 1, on_txn, nfos_vector_borrow_t at 1, deref.
  unfold bind at 1. cbn [on_nf_mem]. unfold bind at 1.
  match goal with |- context [send_pkt_to_backend st ?b (?m2, ?t2)] => pose proof (send_manager b m2 t2) as Hs end.
  destruct (send_pkt_to_backend _ _ _) as [[u|] [m3 t3]]; cbn in Hs; intros [= _ <- _]; by rewrite Hs.
Qed.

Lemma maglev_contract : nf_contract N true maglev_handlers core partition.
Proof.
  split.
  - intros class dev k m t r m' t'. unfold maglev_handlers. destruct (class =? 0).
    + by intros [= _ <- _].
    + by intros ->%heartbeat_mem.
  - intros class dev i k m t r m' t'. unfold maglev_handlers. destruct (class =? 0).
    + intros (a & E)%run_ret. assert (written i (nf_manager m) (nf_manager m')) as [?|[s ?]].
      { rewrite client_lookup in E. destruct (load_balance_get_bucket_i _ 0) as [d|]; [|injection E as _ <- _; by left].
        destruct (action d =? DROP); [injection E as _ <- _; by left|].
        destruct (action d =? LB); [by apply balance_manager in E|injection E as _ <- _; by left]. }
      * by left.
      * right. by exists s.
    + intros ->%heartbeat_mem. by left.
  - intros dev k m t r m' t'. cbn [DataPlane.nf_unknown_pkt_set_handler maglev_nf].
    unfold nf_unknown_pkt_set_handler, bind at 1. rewrite maglev_ttl_run. unfold bind at 1.
    destruct (find_backend st (m, t)) as [[[b|]|] [m1 t1]] eqn:E; apply find_mem in E as ->;
      try (intros [= _ <- _]; by left).
    unfold bind at 1, add_pkt_set. destruct (add_pkt_set_log _ _ _ _ _ _) as [x g] eqn:Ea.
    unfold bind at 1, on_txn, nfos_vector_borrow_t, deref.
    match goal with |- context [send_pkt_to_backend st ?b (?m2, ?t2)] => pose proof (send_manager b m2 t2) as Hs end.
    destruct (send_pkt_to_backend _ _ _) as [y [m3 t3]]. cbn in Hs. intros [= _ <- _]. right.
    exists (MaglevState b), None. by rewrite Ea, Hs.
Qed.
End data_plane.

(** ** What a batch does *)

Section outcome.
Context {T B W : Type} `{RluRuntime W T} `{!PacketIo B} (st : nf_state T).
Context (N core partition device now : Z) (uninit : pkt_set_id_t).
Abbreviation mem := (nf_mem (pkt_t B) pkt_set_id_t pkt_set_state_t).
Abbreviation flow := (session pkt_set_id_t pkt_set_state_t).
Abbreviation usable := (backend_capacity (cfg st)).
Hypotheses (HN : 0 < num_free_lists (backends st)) (Hcap : 0 <= usable)
  (Hsize : 0 < cht_height (cfg st) /\ cht_height (cfg st) * usable < 2 ^ 31).

(** A transaction and the backends registered in it. *)
Definition sees (t : T) (I : gmap Z Z) (S : gmap Z (backend_info * Z)) : Prop :=
  from_lock W t /\ backends_rep st now t I S /\ cht_ready st t.

(** [new] is a flow's backend after it was [old]. *)
Definition moves (old new : Z) : Prop := exists t I S, sees t I S /\ ~ live_id I old /\ live_id I new.

(** A flow is opened with a backend that is registered. *)
Definition opens (new : Z) : Prop := exists t I S, sees t I S /\ live_id I new.

Lemma live_range t I S b : sees t I S -> live_id I b -> 0 <= b < usable.
Proof using HN. intros (_ & Hr & _) Hl. by apply (live_info st HN now t I S Hr). Qed.

Lemma moves_range old new : rtc moves old new -> 0 <= old < usable -> 0 <= new < usable.
Proof using HN.
  induction 1 as [|old mid new (t & I & S & Hs & _ & Hl) _ IH]; [done|]. intros _. by apply IH, (live_range t I S).
Qed.

(** A flow whose backend is registered in every transaction keeps it. *)
Lemma moves_live old new : rtc moves old new -> (forall t I S, sees t I S -> live_id I old) -> new = old.
Proof using. intros [old'|old' mid new' (t & I & S & Hs & Hd & _) _] Hl; [done|]. by destruct Hd; apply (Hl t I S). Qed.

Lemma to_backend_effect info (m : mem) :
  nf_manager (to_backend st info m) = nf_manager m /\
  (nf_dst_device (to_backend st info m) = nf_dst_device m \/
   nf_dst_device (to_backend st info m) = dev info /\ is_wan st (dev info) = false).
Proof. unfold to_backend. destruct (is_wan st (dev info)); [by split; [|left]|by split; [|right]]. Qed.

(** A client's packet of a flow goes to a registered backend, to the flow's
    own if that is, and the flow is moved only if it is not. *)
Lemma client_effect ls (m : mem) t r m' t' I S :
  sees t I S -> let old := backend_id (pkt_set_state (nf_manager m) ls) in 0 <= old < usable ->
  client_pkt_handler st device ls (m, t) = (r, (m', t')) ->
  let new := backend_id (pkt_set_state (nf_manager m') ls) in
  (nf_dst_device m' = nf_dst_device m \/ exists b info, backend_is I S b info /\
     nf_dst_device m' = dev info /\ is_wan st (dev info) = false /\ (live_id I old -> b = old)) /\
  (new = old \/ moves old new) /\ t' = t.
Proof using HN Hcap Hsize.
  intros Hs old Hold. rewrite client_lookup. set (lb := view _ _ _).
  assert (forall r0, (r0, (m, t)) = (r, (m', t')) ->
    (nf_dst_device m' = nf_dst_device m \/ exists b info, backend_is I S b info /\
       nf_dst_device m' = dev info /\ is_wan st (dev info) = false /\ (live_id I old -> b = old)) /\
    (backend_id (pkt_set_state (nf_manager m') ls) = old \/
     moves old (backend_id (pkt_set_state (nf_manager m') ls))) /\ t' = t) as Hsame.
  { intros r0 [= _ <- <-]. by split; [left|split; [left|]]. }
  destruct (load_balance_get_bucket_i lb 0) as [d|]; [|by apply Hsame].
  destruct (action d =? DROP); [by apply Hsame|]. destruct (action d =? LB); [|by apply Hsame].
  pose proof Hs as (Hl & Hr & Hc).
  destruct (balance_run st HN now t I S Hr Hc Hcap Hsize lb ls m Hold) as (b & Ha & Hb). fold old in Ha.
  destruct b as [b|]; [|rewrite Hb; by apply Hsame]. destruct Hb as (info & Hi & ->). intros [= _ <- <-].
  destruct (to_backend_effect info (balanced lb ls b m)) as [-> Hd]. split; [|split; [|done]].
  - assert (nf_dst_device (balanced lb ls b m) = nf_dst_device m) as Ed.
    { unfold balanced. cbv zeta. by destruct (b =? _). }
    rewrite Ed in Hd. destruct Hd as [Hd|[Hd Hw]]; [by left|]. right. exists b, info.
    do 3 (split; [done|]). intros Hlive. destruct Ha as [[_ Eb]|[Hdead _]]; [by injection Eb|done].
  - assert (nf_manager (balanced lb ls b m) = if b =? old then nf_manager m
      else write_state ls (MaglevState b) (nf_manager m)) as ->.
    { unfold balanced. cbv zeta. fold old. by destruct (b =? old). }
    destruct (Z.eqb_spec b old) as [->|Hne]; [by left|]. unfold write_state. cbn. rewrite fn_lookup_insert. cbn.
    right. exists t, I, S. split; [done|]. destruct Ha as [[_ [= ->]]|[Hdead [Hlive _]]]; done.
Qed.

Lemma unknown_effect k (m : mem) t r m' t' I S :
  sees t I S -> nf_unknown_pkt_set_handler st N core partition device k (m, t) = (r, (m', t')) ->
  (nf_dst_device m' = nf_dst_device m \/ exists b info, backend_is I S b info /\
     nf_dst_device m' = dev info /\ is_wan st (dev info) = false) /\
  (nf_manager m' = nf_manager m \/ exists b, live_id I b /\
     nf_manager m' = (add_pkt_set_log N core (MaglevState b) partition None (nf_manager m)).2).
Proof using HN Hcap Hsize.
  intros (Hl & Hr & Hc).
  destruct (maglev_unknown_run st HN now t I S Hr Hc Hcap Hsize N core partition device k m) as (b & Hch & Hb).
  destruct b as [b|]; [|rewrite Hb; intros [= _ <- _]; by split; left].
  destruct Hb as (info & Hi & ->). intros [= _ <- _].
  match goal with |- context [to_backend st info ?m1] => destruct (to_backend_effect info m1) as [-> Hd] end. split.
  - destruct Hd as [Hd|[Hd Hw]]; [by left|]. right. by exists b, info.
  - right. exists b. by destruct Hch.
Qed.

Hypothesis Hall : forall t, from_lock W t -> exists I S, sees t I S.

(** *** What the runs of a batch's handlers keep *)

Section batch.
Context (cls : batch_class (pkt_t B) pkt_set_id_t) (batch_size : Z) (before : list flow).

(** The flow of a client's packet in the batch. *)
Definition own (k : pkt_set_id_t) : Prop :=
  is_wan st device = true /\ exists n, in_batch cls batch_size n /\ pkt_set_id cls n = k.

(** A flow that there was before the batch, with its backend unless it was
    moved, or one that was opened. *)
Definition balanced_flow (k : pkt_set_id_t) (x : pkt_set_state_t) : Prop :=
  (exists s, s ∈ before /\ s_id s = k /\ rtc moves (backend_id (s_state s)) (backend_id x) /\
     (backend_id x = backend_id (s_state s) \/ own k)) \/
  (forall s, s ∈ before -> s_id s <> k) /\ own k /\ exists b, opens b /\ rtc moves b (backend_id x).

(** A packet is dropped or goes to a registered backend: to the one its flow
    had at the time, if that was registered. *)
Definition balanced_packet (n dst : Z) : Prop :=
  dst = device \/ is_wan st device = true /\ exists t I S b info, sees t I S /\ backend_is I S b info /\
    dst = dev info /\ is_wan st dst = false /\
    forall s, s ∈ before -> s_id s = pkt_set_id cls n -> exists cur,
      rtc moves (backend_id (s_state s)) cur /\ (live_id I cur -> b = cur).

(** A transaction, which handlers of clients' packets do not change. *)
Definition in_lock (t : T) : Prop := is_wan st device = true -> exists I S, sees t I S.

Hypothesis Hids : forall s, s ∈ before -> 0 <= backend_id (s_state s) < usable.
Hypothesis Honce : forall s s', s ∈ before -> s' ∈ before -> s_id s = s_id s' -> s = s'.
Hypothesis Hcls : forall n, 0 <= n < batch_size ->
  (pkt_class cls n, pkt_set_id cls n, has_pkt_set_state cls n) = nf_pkt_dispatcher st (packet cls n) device uninit.

Lemma balanced_range k x : balanced_flow k x -> 0 <= backend_id x < usable.
Proof using HN Hids.
  intros [(s & Hs & _ & Hm & _)|(_ & _ & b & (t & I & S & Hsee & Hl) & Hm)]; apply (moves_range _ _ Hm).
  - by apply Hids.
  - by apply (live_range t I S).
Qed.

(** A flow of the batch is moved. *)
Lemma balanced_moves k x y : own k -> balanced_flow k x ->
  backend_id y = backend_id x \/ moves (backend_id x) (backend_id y) -> balanced_flow k y.
Proof using.
  intros Ho Hx Hm. assert (forall a, rtc moves a (backend_id x) -> rtc moves a (backend_id y)) as Hr.
  { intros a Ha. destruct Hm as [->|Hm]; [done|]. by eapply rtc_r. }
  destruct Hx as [(s & Hs & Hk & Hm' & _)|(Hno & _ & b & Hb & Hm')].
  - left. exists s. split; [done|]. split; [done|]. split; [by apply Hr|by right].
  - right. split; [done|]. split; [done|]. exists b. split; [done|by apply Hr].
Qed.

Lemma maglev_keeps :
  nf_keeps (W := W) (H0 := maglev_nf st N core partition uninit) N (maglev_handlers st core now) core partition device cls batch_size
    before in_lock balanced_flow balanced_packet.
Proof using HN Hcap Hsize Hall Honce Hids Hcls.
  split.
  - intros n _. by left.
  - intros t Ht _. by apply Hall.
  - intros n m t r m' t' Hhas Hn Ht Hd. pose proof (Hcls 0 ltac:(destruct Hn; lia)) as Hc0.
    pose proof (Hcls n (proj1 Hn)) as Hcn. unfold nf_pkt_dispatcher in Hc0, Hcn.
    destruct (is_wan st device) eqn:Hw; [congruence|]. injection Hcn as -> _ _. cbn.
    intros ->%heartbeat_mem. split; [done|]. split; [unfold in_lock; by rewrite Hw|done].
  - intros n i m t r m' t' k Hhas Hn Ht Hd HJ. pose proof (Hcls n (proj1 Hn)) as Hcn.
    pose proof (Hcls 0 ltac:(destruct Hn; lia)) as Hc0. unfold nf_pkt_dispatcher in Hc0, Hcn.
    destruct (is_wan st device) eqn:Hw; [|congruence]. injection Hcn as -> _ _. cbn. intros (a & E)%run_ret.
    assert (own k) as Ho by (split; [done|by exists n]).
    assert (exists I S, sees t I S) as (I & S & Hsee) by (by apply Ht).
    destruct (client_effect i m t a m' t' I S Hsee ltac:(by apply (balanced_range k)) E) as (Hdst & Hnew & ->).
    split; [|split; [by eapply balanced_moves|split; [done|]]].
    + assert (maglev_handlers st core now 0 device (Some i) k (m, t) = (option_map (fun _ => tt) a, (m', t))) as Eh.
      { cbn. unfold bind. rewrite E. by destruct a. }
      destruct (contract_registered _ _ _ _ _ (maglev_contract st N core partition now uninit) _ _ _ _ _ _ _ _ _ Eh)
        as [?|(x & ? & _)]; eauto.
    + destruct Hdst as [->|(b & info & Hb & -> & Hwd & Hlive)]; [done|]. right. split; [done|].
      exists t, I, S, b, info. do 4 (split; [done|]). intros s Hs Hid.
      exists (backend_id (pkt_set_state (nf_manager m) i)). split; [|done].
      destruct HJ as [(s2 & Hs2 & Hk & Hm & _)|(Hno & _)]; [|by destruct (Hno s Hs)].
      assert (s2 = s) as -> by (apply Honce; [done..|by rewrite Hk, Hid]). done.
  - intros n m t r m' t' k Hhas Hn Ht Hd Hno E. cbn in E.
    pose proof (Hcls 0 ltac:(destruct Hn; lia)) as Hc0. unfold nf_pkt_dispatcher in Hc0.
    destruct (is_wan st device) eqn:Hw; [|congruence].
    assert (exists I S, sees t I S) as (I & S & Hsee) by (by apply Ht).
    destruct (unknown_effect k m t r m' t' I S Hsee E) as [Hdst Hm]. split.
    + destruct Hm as [?|(b & Hb & Em)]; [by left|]. right. exists (MaglevState b), None. split; [done|]. right.
      split; [done|]. split; [split; [done|by exists n]|]. exists b. split; [by exists t, I, S|done].
    + destruct Hdst as [->|(b & info & Hb & -> & Hwd)]; [done|]. right. split; [done|].
      exists t, I, S, b, info. do 4 (split; [done|]). intros s Hs Hid. by destruct (Hno s Hs).
Qed.

(** What a batch does to the flows of a partition, and where its packets go:
    flows keep their places, and their backends unless a client's packet of
    theirs is in the batch and their backend was not registered when it was
    moved; flows are opened by clients' packets, with a registered backend;
    packets that are not supported are dropped. *)
Definition maglev_outcome (dst : Z -> Z) (after : list flow) : Prop :=
  (forall s, s ∈ before -> exists s', s' ∈ after /\ s_index s' = s_index s /\ s_id s' = s_id s /\
     let old := backend_id (s_state s) in let new := backend_id (s_state s') in
     rtc moves old new /\ (new = old \/ own (s_id s)) /\
     ((forall t I S, sees t I S -> live_id I old) -> new = old)) /\
  (forall s', s' ∈ after -> 0 <= backend_id (s_state s') < usable /\
     ((exists s, s ∈ before /\ s_id s = s_id s') \/
      own (s_id s') /\ exists b, opens b /\ rtc moves b (backend_id (s_state s')))) /\
  forall n, 0 <= n < batch_size -> if parse_res cls n then balanced_packet n (dst n) else dst n = device.

Lemma maglev_after dst after :
  (forall s, s ∈ before -> exists s', s' ∈ after /\ s_index s' = s_index s /\ s_id s' = s_id s) ->
  (forall s, s ∈ after -> balanced_flow (s_id s) (s_state s)) ->
  (forall n, 0 <= n < batch_size -> if parse_res cls n then balanced_packet n (dst n) else dst n = device) ->
  maglev_outcome dst after.
Proof using HN Hids Honce.
  intros Hb Ha Hd. split; [|split; [|done]].
  - intros s Hs. destruct (Hb s Hs) as (s' & Hs' & Hi & Hk). exists s'. do 3 (split; [done|]).
    destruct (Ha s' Hs') as [(s2 & Hs2 & Hk2 & Hm & Ho)|(Hno & _)]; [|by destruct (Hno s Hs)].
    assert (s2 = s) as -> by (apply Honce; [done..|by rewrite Hk2, Hk]). rewrite Hk in Ho.
    split; [done|]. split; [done|]. by apply moves_live.
  - intros s' Hs'. split; [by apply (balanced_range (s_id s')), Ha|].
    destruct (Ha s' Hs') as [(s & Hs & Hk & _)|(_ & Ho & Hb')]; [left; by exists s|by right].
Qed.
End batch.
End outcome.

(** ** Property *)

(** C7: the load balancer in the data plane of its build (with
    PKT_PROCESS_BATCHING, without MUTABLE_PKT_SET_STATE), while every
    transaction sees a well-formed table of backends: whatever the number of
    aborted and repeated runs, a batch changes the backends only of flows that
    have a client's packet in it, and of those only from a backend that is not
    registered to one that is; a flow whose backend stays registered keeps it;
    flows are opened only for clients' packets, with a registered backend; and
    a packet that is sent goes to a registered backend, to the one its flow
    had at the time if that was registered.  The ids of the flows' backends
    stay within the table. *)
Theorem maglev_affinity {T B W} `{RluRuntime W T} `{!PacketIo B} (st : nf_state T)
    (khash : pkt_set_id_t -> Z) (N MAX : Z) (fuel : nat) (uninit core device now partition dst_device batch_size : Z)
    (uninit_id : pkt_set_id_t) (c0 : batch_class (pkt_t B) pkt_set_id_t) (ptr0 : Z -> Z) (reg0 : bool) (mbufs : Z -> B * Z)
    (g : pkt_set_manager pkt_set_id_t pkt_set_state_t) (log : pkt_set_state_log_t pkt_set_state_t)
    (l' : batch_mem (pkt_t B) pkt_set_id_t pkt_set_state_t) (w w' : W)
    (abs : Z -> list (session pkt_set_id_t pkt_set_state_t))
    (HN : 0 < N <= MAX) (Hpart : 0 <= partition < N) (Hfuel : 2 * MAX <= Z.of_nat fuel)
    (Hlists : 0 < num_free_lists (backends st)) (Hcap : 0 <= backend_capacity (cfg st))
    (Hsize : 0 < cht_height (cfg st) /\ cht_height (cfg st) * backend_capacity (cfg st) < 2 ^ 31)
    (Hall : forall t, from_lock W t -> exists I S, backends_rep st now t I S /\ cht_ready st t)
    (Hids : forall s, s ∈ abs partition -> 0 <= backend_id (s_state s) < backend_capacity (cfg st))
    (Hrel : has_related_pkt_sets g = false) (Hr : pkt_rep khash N MAX g abs)
    (Hrun : @process_pkt_batch B (pkt_t B) pkt_set_id_t pkt_set_state_t W T _ (maglev_nf st N core partition uninit_id)
       pkt_set_id_eq khash N MAX false (maglev_handlers st core now) fuel uninit core c0 ptr0 reg0 mbufs device batch_size
       now partition dst_device g log w = Some (l', w')) :
  let cls := @classify_batch B (pkt_t B) pkt_set_id_t pkt_set_state_t T (maglev_nf st N core partition uninit_id)
               mbufs device batch_size c0 in
  exists sessions, pkt_rep khash N MAX (b_manager l') (<[partition := sessions]> abs) /\
    maglev_outcome (W := W) st device now cls batch_size (abs partition) (dst_devices l') sessions.
Proof.
  intros cls.
  assert (forall s s', s ∈ abs partition -> s' ∈ abs partition -> s_id s = s_id s' -> s = s') as Honce.
  { intros s s'. by apply (session_named_once khash N MAX _ _ _ _ _ Hr). }
  assert (forall t, from_lock W t -> exists I S, sees st now t I S) as Hsees.
  { intros t Ht. destruct (Hall t Ht) as (I & S & ? & ?). by exists I, S. }
  pose proof (maglev_keeps st N core partition device now uninit_id Hlists Hcap Hsize Hsees cls batch_size (abs partition)
    Hids Honce) as Hk.
  assert (forall n, 0 <= n < batch_size -> (pkt_class cls n, pkt_set_id cls n, has_pkt_set_state cls n) =
    nf_pkt_dispatcher st (packet cls n) device uninit_id) as Hcls.
  { intros n Hn. destruct (classify_spec (H := maglev_nf st N core partition uninit_id) mbufs device batch_size c0 n Hn)
      as (_ & Hp & Hd & _). fold cls in Hp, Hd. by rewrite Hp. }
  destruct (process_pkt_batch_keeps (H0 := maglev_nf st N core partition uninit_id) pkt_set_id_eq khash N MAX
    (maglev_handlers st core now) core partition device now _ _ _ pkt_set_id_eq_spec HN Hpart abs fuel uninit c0 ptr0 reg0
    mbufs batch_size dst_device g log w l' w' Hfuel (Hk Hcls) Hr Hrel) as [(ss & [Hr' _ Hb Hst]) Hd]; [|exact Hrun|].
  - intros s Hs. left. exists s. do 2 (split; [done|]). split; [done|by left].
  - exists ss. split; [done|]. by apply maglev_after.
Qed.

(** ** Witness: two cores, one backend *)

(** Every transaction reads the table with the backend of Maglev.v; the first
    validation of every packet fails. *)
#[local] Instance ex_maglev_runtime : RluRuntime Z maglev_txn := {
  reader_lock w := (ex_maglev_txn1, w);
  reader_unlock _ w := (Z.odd w, w + 1);
  rlu_abort _ w := w
}.

Definition ex_lb_flow : pkt_set_id_t := FlowId 0 0 0 0 0.
Definition ex_lb_log : Z -> add_pkt_set_log_entry_t pkt_set_id_t pkt_set_state_t :=
  fun _ => LogEntry false ex_lb_flow (MaglevState 0).
Definition ex_lb_memory : (Z -> concurrent_dchain_cell pkt_set_id_t) * (Z -> Z) * (Z -> pkt_set_state_t) :=
  (fun _ => ConcCell 0 0 0 0 ex_lb_flow 0, fun _ => 0, fun _ => MaglevState 0).
Definition ex_lb_manager : pkt_set_manager pkt_set_id_t pkt_set_state_t :=
  match init_pkt_set_manager 2 4 4 true true true ex_lb_memory ex_lb_log 5 false with
  | Some (Some g) => g
  | _ => Manager (fun _ => ConcCell 0 0 0 0 ex_lb_flow 0) (CMap (fun _ => 0) 0 0) (fun _ => MaglevState 0)
           0 false ex_lb_log
  end.

Lemma ex_lb_rep : pkt_rep id_src_port 2 4 ex_lb_manager (fun _ => []) /\ has_related_pkt_sets ex_lb_manager = false.
Proof.
  destruct (init_spec id_src_port 2 4 ltac:(lia) 4 ex_lb_memory ex_lb_log 5 false) as (g & E & Hr & Hrel & _); [lia..|].
  unfold ex_lb_manager. by rewrite E.
Qed.

Definition ex_lb_class : batch_class (pkt_t ex_frame) pkt_set_id_t :=
  BatchClass (fun _ => nf_packet (ex_maglev_mem ex_client)) (fun _ => ex_lb_flow) (fun _ => false) (fun _ => false)
    (fun _ => 0) (fun _ => 0).
(** A batch of two packets of one client. *)
Abbreviation ex_lb_process g w :=
  (@process_pkt_batch ex_frame (pkt_t ex_frame) pkt_set_id_t pkt_set_state_t Z maglev_txn ex_maglev_runtime
     (maglev_nf ex_maglev 2 0 0 ex_lb_flow) pkt_set_id_eq id_src_port 2 4 false (maglev_handlers ex_maglev 0 7) 8 0 0
     ex_lb_class (fun _ => 0) false (fun _ => (ex_client, 60)) 2 2 7 0 9 g (StateLog 0 (fun _ => MaglevState 0) (fun _ => 0)) w).

Lemma ex_lb_locks t : from_lock Z t -> exists I S, backends_rep ex_maglev 7 t I S /\ cht_ready ex_maglev t.
Proof. intros [w <-]. cbn. exact ex_registered. Qed.

Lemma ex_lb_lists : 0 < num_free_lists (backends ex_maglev).
Proof. by vm_compute. Qed.
Lemma ex_lb_cap : 0 <= backend_capacity (cfg ex_maglev).
Proof. by vm_compute. Qed.
Lemma ex_lb_size : 0 < cht_height (cfg ex_maglev) /\
  cht_height (cfg ex_maglev) * backend_capacity (cfg ex_maglev) < 2 ^ 31.
Proof. by vm_compute. Qed.
Lemma ex_lb_ids (s : session pkt_set_id_t pkt_set_state_t) :
  s ∈ [] -> 0 <= backend_id (s_state s) < backend_capacity (cfg ex_maglev).
Proof. by intros ?%not_elem_of_nil. Qed.

(** Both packets leave on the backend's device. *)
Lemma maglev_affinity_witness :
  option_map (fun r : batch_mem _ _ _ * Z => map (dst_devices r.1) [0; 1]) (ex_lb_process ex_lb_manager 0) = Some [1; 1] /\
  forall l' w', ex_lb_process ex_lb_manager 0 = Some (l', w') ->
  let cls := @classify_batch ex_frame (pkt_t ex_frame) pkt_set_id_t pkt_set_state_t maglev_txn
               (maglev_nf ex_maglev 2 0 0 ex_lb_flow) (fun _ => (ex_client, 60)) 2 2 ex_lb_class in
  exists sessions, pkt_rep id_src_port 2 4 (b_manager l') (<[0 := sessions]> (fun _ => [])) /\
    maglev_outcome (W := Z) ex_maglev 2 7 cls 2 [] (dst_devices l') sessions.
Proof.
  split; [vm_compute; reflexivity|]. intros l' w' Hrun.
  exact (maglev_affinity (B := ex_frame) ex_maglev id_src_port 2 4 8 0 0 2 7 0 9 2 ex_lb_flow ex_lb_class (fun _ => 0) false
    (fun _ => (ex_client, 60)) ex_lb_manager (StateLog 0 (fun _ => MaglevState 0) (fun _ => 0)) l' 0 w'
    (fun _ => []) ltac:(lia) ltac:(lia) ltac:(lia) ex_lb_lists ex_lb_cap ex_lb_size
    ex_lb_locks ex_lb_ids (proj2 ex_lb_rep) (proj1 ex_lb_rep) Hrun).
Defined.

(** *** Where the code does not do what it means to *)

(** A run that fails its validation has already rewritten the packet: the
    next run looks up, and hashes, the address of the backend that the first
    run chose. *)
Lemma rerun_sees_rewritten_packet :
  let m := ex_maglev_mem ex_client in
  let m' := (client_pkt_handler ex_maglev 2 0 (m, ex_maglev_txn1)).2.1 in
  dst_addr (ipv4 (nf_packet m)) = 6 /\ dst_addr (ipv4 (nf_packet m')) = 9 /\
  (get_hash_from_pkt (nf_packet m) =? get_hash_from_pkt (nf_packet m')) = false.
Proof. vm_compute. auto. Qed.
