(* ===== verification/MaglevInit.v ===== *)
(** * Initialisation of the load balancer

    nf_init of src/nf/maglev/main.c: the table of backends and the
    consistent-hashing table (alloc_state of Maglev.v), then the forwarding
    tables of four devices.  Clients' packets to two virtual addresses are
    balanced when they come in on a WAN device; everything that no route
    names is dropped. *)

From stdpp Require Import gmap.
From S2P Require Import Prelude Ether Rlu Vector NfosMap Dchain DchainExp Mtrie LoadBalance FibInit MtrieRun Maglev.
Open Scope Z_scope.

(** ** The seven entries of the load-balance pool *)

Record lb_indexes := LbIndexes {
  index0 : Z; index1 : Z; index2 : Z; index3 : Z; index4 : Z; index5 : Z; index6 : Z
}.

(** load_balance_create(1, &action, ...): one bucket. *)
Definition create_one (garbage : Z -> dpo_t) (action send_device dst_ip_address : Z)
    (dst_mac_address : rte_ether_addr) (s : lb_pool) : option (Z * lb_pool) :=
  load_balance_create Maglev.LB_CAPACITY 1 (fun _ => action) (fun _ => send_device)
    (fun _ => dst_ip_address) (fun _ => dst_mac_address) garbage s.

Definition maglev_load_balances (garbage : Z -> dpo_t) (s : lb_pool) : option (lb_indexes * lb_pool) :=
  let send_device := 65535 in
  let dst_ip_address := 4294967295 in
  let dst_mac_address := Mac 255 255 255 255 255 255 in
  '(index0, s) ← create_one garbage DROP send_device dst_ip_address dst_mac_address s;
  '(index1, s) ← create_one garbage LB send_device dst_ip_address dst_mac_address s;
  let s := load_balance_set_dscp index1 1 s in
  '(index2, s) ← create_one garbage LB send_device dst_ip_address dst_mac_address s;
  let s := load_balance_set_dscp index2 2 s in
  let send_device := WAN_DEVICE_ONE in
  let dst_ip_address := 2919236354 in
  let dst_mac_address := Mac 18 52 86 120 144 171 in
  '(index3, s) ← create_one garbage FORWARD send_device dst_ip_address dst_mac_address s;
  let dst_ip_address := 2919236098 in
  let dst_mac_address := set_addr_byte0 17 dst_mac_address in
  '(index4, s) ← create_one garbage FORWARD send_device dst_ip_address dst_mac_address s;
  let send_device := LAN_DEVICE_ONE in
  let dst_ip_address := 167772928 in
  let dst_mac_address := set_addr_byte0 19 dst_mac_address in
  '(index5, s) ← create_one garbage FORWARD send_device dst_ip_address dst_mac_address s;
  let send_device := LAN_DEVICE_TWO in
  let dst_ip_address := 167773184 in
  let dst_mac_address := set_addr_byte0 20 dst_mac_address in
  '(index6, s) ← create_one garbage FORWARD send_device dst_ip_address dst_mac_address s;
  Some (LbIndexes index0 index1 index2 index3 index4 index5 index6, s).

(** The routes of one table: the entries of the two virtual addresses differ. *)
Definition table_routes (ix : lb_indexes) (vip1 vip2 : Z) : list route :=
  [Route 0 0 (index0 ix); Route 0 32 (index0 ix);
   Route 1979711489 32 vip1; Route 1979711490 32 vip2;
   Route 167772929 32 (index5 ix); Route 167773185 32 (index6 ix)].

(** The calls of ip4_fib_mtrie_route_add, with the table they are for. *)
Definition maglev_routes (ix : lb_indexes) : list (Z * route) :=
  (pair WAN_DEVICE_ONE <$> table_routes ix (index1 ix) (index2 ix)) ++
  (pair WAN_DEVICE_TWO <$> table_routes ix (index1 ix) (index2 ix)) ++
  (pair LAN_DEVICE_ONE <$> table_routes ix (index3 ix) (index4 ix)) ++
  (pair LAN_DEVICE_TWO <$> table_routes ix (index3 ix) (index4 ix)).

Definition maglev_add_routes (fuel : nat) (shl32 : Z) (ix : lb_indexes) (lbs : lb_pool)
    (fibs : Z -> ip4_fib_t) (plies : Z -> ip4_fib_mtrie_8_ply_t) : option fw_tables :=
  '(ms, plies) ← add_routes Maglev.IP4_PLY_POOL_CAPACITY fuel shl32 (maglev_routes ix)
                   (fun i => mtrie (fibs i), Pool plies 0);
  Some (FwTables lbs (fun i => Fib (ms i) (index (fibs i))) plies).

(** What malloc returns for the pools. *)
Record pool_garbage := PoolGarbage {
  pg_lbs : Z -> load_balance_t;
  pg_fibs : Z -> ip4_fib_t;
  pg_plies : Z -> ip4_fib_mtrie_8_ply_t;
  pg_dpos : Z -> dpo_t
}.

(** The second half of nf_init, the forwarding tables.  [None]: an assertion
    fails, or memory cannot be had and the code goes on to use NULL. *)
Definition maglev_tables (ok : Z -> bool) (fuel : nat) (shl32 : Z) (gb : pool_garbage) : option fw_tables :=
  lbs ← nfos_vector_allocate_t (ok 12) (ok 13) (pg_lbs gb) (pg_lbs gb) 16 Maglev.LB_CAPACITY lb_null_init;
  '(ix, lbs) ← maglev_load_balances (pg_dpos gb) (LbPool (m_elems lbs) 0);
  fibs ← nfos_vector_allocate_t (ok 14) (ok 15) (pg_fibs gb) (pg_fibs gb) 327684 Maglev.N_FIB_TABLE
           fib_table_null_init;
  plies ← nfos_vector_allocate_t (ok 16) (ok 17) (pg_plies gb) (pg_plies gb) 1288
            Maglev.IP4_PLY_POOL_CAPACITY ip4_null_init;
  maglev_add_routes fuel shl32 ix lbs (init_fibs Maglev.N_FIB_TABLE (m_elems fibs)) (m_elems plies).

(** [Some None]: memory cannot be had ([ok n] for the n-th allocation that is
    checked) and the code goes on to read through NULL; [None]: the fuel of a
    loop is used up.  register_periodic_handler always succeeds (NfMain.v). *)
Definition nf_init (ok : Z -> bool) (fuel : nat) (num_devs : Z) (macs mac_garbage : Z -> rte_ether_addr)
    (map_alloc : Z -> nfos_map_entry Z) (ip_alloc : Z -> Z) (info_alloc : Z -> backend_info)
    (cell_alloc : Z -> nfos_dchain_exp_cell) (cht_alloc perm_uninit usec_to_tsc : Z -> Z)
    (lcores shl32 : Z) (gb : pool_garbage) : option (option (maglev_masters * fw_tables)) :=
  match alloc_state (nf_config_init num_devs macs mac_garbage) ok fuel map_alloc ip_alloc ip_alloc info_alloc
          info_alloc cell_alloc cht_alloc cht_alloc perm_uninit usec_to_tsc lcores with
  | None => None
  | Some None => Some None
  | Some (Some g) => Some (tb ← maglev_tables ok fuel shl32 gb; Some (g, tb))
  end.

(** ** What the tables say *)

Definition entry_mac (b0 : Z) : rte_ether_addr := Mac b0 52 86 120 144 171.
Definition no_entry (action : Z) : dpo_t := Dpo action 65535 4294967295 (Mac 255 255 255 255 255 255).

(** The entry of an address in the table of a device, with the mark of its
    packets when they are balanced. *)
Definition maglev_decision (device x : Z) : dpo_t * option Z :=
  let wan := (device =? WAN_DEVICE_ONE) || (device =? WAN_DEVICE_TWO) in
  if x =? 1979711489 then
    if wan then (no_entry LB, Some 1) else (Dpo FORWARD WAN_DEVICE_ONE 2919236354 (entry_mac 18), None)
  else if x =? 1979711490 then
    if wan then (no_entry LB, Some 2) else (Dpo FORWARD WAN_DEVICE_ONE 2919236098 (entry_mac 17), None)
  else if x =? 167772929 then (Dpo FORWARD LAN_DEVICE_ONE 167772928 (entry_mac 19), None)
  else if x =? 167773185 then (Dpo FORWARD LAN_DEVICE_TWO 167773184 (entry_mac 20), None)
  else (no_entry DROP, None).

Definition maglev_tables_ready (tb : fw_tables) : Prop :=
  forall dev x, 0 <= dev < Maglev.N_FIB_TABLE -> 0 <= x < 2 ^ 32 ->
  let lb := load_balance_pool (ft_lbs tb)
    (mtrie_lookup (mtrie (ip4_fib_get (ft_fibs tb) dev)) (ip4_ply_pool (ft_plies tb)) x) in
  load_balance_get_bucket_i lb 0 = Some (maglev_decision dev x).1 /\
  forall mark, (maglev_decision dev x).2 = Some mark -> dscp lb = mark.

(** ** The entries *)

(** Entry [i] of the pool has one bucket with [d]. *)
Definition entry_is (s : lb_pool) (i : Z) (d : dpo_t) : Prop :=
  load_balance_get_bucket_i (load_balance_pool s i) 0 = Some d.

Lemma create_one_ok garbage a dev ip mac s k :
  load_balance_pool_index s = k -> 0 <= k < Maglev.LB_CAPACITY ->
  exists s', create_one garbage a dev ip mac s = Some (k, s') /\
    load_balance_pool_index s' = k + 1 /\ entry_is s' k (Dpo a dev ip mac) /\
    forall j, j <> k -> load_balance_pool s' j = load_balance_pool s j.
Proof.
  intros <- Hk. unfold create_one.
  edestruct (load_balance_create_ok Maglev.LB_CAPACITY 1) as (lb & -> & _ & Hb); [exact Hk|done|done|].
  eexists. split; [done|]. split; [done|]. split.
  - unfold entry_is. cbn [load_balance_pool]. rewrite fn_lookup_insert. by rewrite Hb.
  - intros j Hj. cbn [load_balance_pool]. by rewrite fn_lookup_insert_ne.
Qed.

Lemma set_dscp_bucket s i d j b :
  load_balance_get_bucket_i (load_balance_pool (load_balance_set_dscp i d s) j) b =
  load_balance_get_bucket_i (load_balance_pool s j) b.
Proof. unfold load_balance_set_dscp. cbn. rewrite fn_insert_dec. by case_decide as E; [subst|]. Qed.

Definition maglev_indexes : lb_indexes := LbIndexes 0 1 2 3 4 5 6.

Lemma maglev_load_balances_ok garbage lbs :
  exists s, maglev_load_balances garbage (LbPool lbs 0) = Some (maglev_indexes, s) /\
    (entry_is s 0 (no_entry DROP) /\ entry_is s 1 (no_entry LB) /\ entry_is s 2 (no_entry LB) /\
     entry_is s 3 (Dpo FORWARD WAN_DEVICE_ONE 2919236354 (entry_mac 18)) /\
     entry_is s 4 (Dpo FORWARD WAN_DEVICE_ONE 2919236098 (entry_mac 17)) /\
     entry_is s 5 (Dpo FORWARD LAN_DEVICE_ONE 167772928 (entry_mac 19)) /\
     entry_is s 6 (Dpo FORWARD LAN_DEVICE_TWO 167773184 (entry_mac 20))) /\
    dscp (load_balance_pool s 1) = 1 /\ dscp (load_balance_pool s 2) = 2.
Proof.
  unfold maglev_load_balances.
  edestruct (create_one_ok garbage DROP) as (s0 & -> & I0 & E0 & F0); [done|done|cbn [mbind option_bind]].
  edestruct (create_one_ok garbage LB) as (s1 & -> & I1 & E1 & F1); [exact I0|done|cbn [mbind option_bind]].
  set (s1' := load_balance_set_dscp (0 + 1) 1 s1).
  edestruct (create_one_ok garbage LB) as (s2 & -> & I2 & E2 & F2); [exact I1|done|cbn [mbind option_bind]].
  set (s2' := load_balance_set_dscp (0 + 1 + 1) 2 s2).
  edestruct (create_one_ok garbage FORWARD) as (s3 & -> & I3 & E3 & F3); [exact I2|done|cbn [mbind option_bind]].
  edestruct (create_one_ok garbage FORWARD) as (s4 & -> & I4 & E4 & F4); [exact I3|done|cbn [mbind option_bind]].
  edestruct (create_one_ok garbage FORWARD) as (s5 & -> & I5 & E5 & F5); [exact I4|done|cbn [mbind option_bind]].
  edestruct (create_one_ok garbage FORWARD) as (s6 & -> & I6 & E6 & F6); [exact I5|done|cbn [mbind option_bind]].
  exists s6. split; [done|]. unfold entry_is in *. split.
  - split_and!; rewrite ?F6, ?F5, ?F4, ?F3 by done; unfold s2'; rewrite ?set_dscp_bucket; rewrite ?F2 by done;
      unfold s1'; rewrite ?set_dscp_bucket; rewrite ?F1 by done; done.
  - rewrite !F6, !F5, !F4, !F3 by done. unfold s2'. split.
    + cbn. rewrite fn_lookup_insert_ne, F2 by done. cbn. by rewrite fn_lookup_insert.
    + cbn. by rewrite fn_lookup_insert.
Qed.

(** ** The routes *)

Lemma routes_of_table fib dev l : routes_of dev (pair fib <$> l) = if fib =? dev then l else [].
Proof.
  unfold routes_of. induction l as [|r l IH]; cbn [fmap list_fmap omap list_omap fst snd]; [by destruct (_ =? _)|].
  change (list_omap _ _ _ (list_fmap _ _ (pair fib) l)) with
    (omap (fun fr => if fr.1 =? dev then Some fr.2 else None) (pair fib <$> l)).
  rewrite IH. by destruct (fib =? dev).
Qed.

Lemma routes_of_device ix dev : 0 <= dev < Maglev.N_FIB_TABLE ->
  routes_of dev (maglev_routes ix) =
  if (dev =? WAN_DEVICE_ONE) || (dev =? WAN_DEVICE_TWO) then table_routes ix (index1 ix) (index2 ix)
  else table_routes ix (index3 ix) (index4 ix).
Proof.
  intros Hd. assert (dev = 0 \/ dev = 1 \/ dev = 2 \/ dev = 3) as Hor by (unfold Maglev.N_FIB_TABLE in Hd; lia).
  unfold maglev_routes, routes_of. rewrite !omap_app.
  do 4 match goal with |- context [omap ?f (pair ?fib <$> ?l)] =>
    change (omap f (pair fib <$> l)) with (routes_of dev (pair fib <$> l)); rewrite (routes_of_table fib dev l) end.
  destruct Hor as [-> | [-> | [-> | ->]]]; cbn -[table_routes]; by rewrite ?app_nil_r.
Qed.

(** The pool has 30 plies, and the routes take 28. *)
Lemma maglev_routes_fit f pool :
  is_Some (dry_run Maglev.IP4_PLY_POOL_CAPACITY (S (S (S (S f)))) [] (maglev_routes maglev_indexes)
    (fun _ => pristine, Pool pool 0)).
Proof.
  assert (option_map (fun st => ip4_ply_pool_index st.2)
    (dry_run Maglev.IP4_PLY_POOL_CAPACITY (S (S (S (S f)))) [] (maglev_routes maglev_indexes)
      (fun _ => pristine, Pool pool 0)) = Some 28) as E by (vm_compute; reflexivity).
  destruct (dry_run _ _ _ _ _); [by eexists|done].
Qed.

Lemma maglev_routes_valid :
  Forall (fun fr => 0 <= fr.1 < Maglev.N_FIB_TABLE /\ valid_route fr.2) (maglev_routes maglev_indexes).
Proof.
  assert (forall v1 v2, (v1 = 1 /\ v2 = 2) \/ (v1 = 3 /\ v2 = 4) ->
    Forall valid_route (table_routes maglev_indexes v1 v2)) as Hv.
  { intros v1 v2 Hv. unfold table_routes, valid_route. repeat (apply Forall_cons; split; [cbn; lia|]).
    apply Forall_nil_2. }
  unfold maglev_routes. rewrite !Forall_app, !Forall_fmap.
  split_and!; (eapply Forall_impl; [apply Hv; cbn; lia|by intros r Hr]).
Qed.

(** The entry the routes lead to. *)
Lemma maglev_routes_match dev x adj :
  0 <= dev < Maglev.N_FIB_TABLE -> 0 <= x < 2 ^ 32 ->
  longest_match (routes_of dev (maglev_routes maglev_indexes)) x adj ->
  adj = let wan := (dev =? WAN_DEVICE_ONE) || (dev =? WAN_DEVICE_TWO) in
        if x =? 1979711489 then if wan then 1 else 3
        else if x =? 1979711490 then if wan then 2 else 4
        else if x =? 167772929 then 5 else if x =? 167773185 then 6 else 0.
Proof.
  intros Hd Hx. rewrite routes_of_device by done. cbv zeta.
  assert (forall v1 v2, longest_match (table_routes maglev_indexes v1 v2) x adj ->
    adj = if x =? 1979711489 then v1 else if x =? 1979711490 then v2
          else if x =? 167772929 then 5 else if x =? 167773185 then 6 else 0) as Hm.
  { intros v1 v2 Hm. unfold table_routes in Hm. apply hosts_match in Hm as ->; [|done| |].
    - cbn [host_lookup foldr r_dst r_adj index0 index5 index6 maglev_indexes].
      rewrite (Z.eqb_sym x 1979711489), (Z.eqb_sym x 1979711490), (Z.eqb_sym x 167772929), (Z.eqb_sym x 167773185).
      destruct (Z.eqb_spec 0 x) as [<-|]; done.
    - repeat (apply Forall_cons; split; [done|]). apply Forall_nil_2.
    - cbn [fmap list_fmap r_dst]. apply (bool_decide_unpack _). by vm_compute. }
  intros Hl. destruct (_ || _); apply Hm in Hl; exact Hl.
Qed.

Lemma maglev_tables_ok (ok : Z -> bool) (f : nat) (shl32 : Z) (gb : pool_garbage) :
  match maglev_tables ok (S (S (S (S f)))) shl32 gb with
  | Some tb => (forall i, 12 <= i < 18 -> ok i = true) /\ maglev_tables_ready tb
  | None => exists i, 12 <= i < 18 /\ ok i = false
  end.
Proof.
  unfold maglev_tables, nfos_vector_allocate_t.
  destruct (ok 12) eqn:E0; cbn [negb]; [|by exists 12]. destruct (ok 13) eqn:E1; cbn [negb]; [|by exists 13].
  cbn [m_elems mbind option_bind]. edestruct maglev_load_balances_ok as (lbs & -> & He & Hd1 & Hd2).
  cbn [mbind option_bind].
  destruct (ok 14) eqn:E2; cbn [negb]; [|by exists 14]. destruct (ok 15) eqn:E3; cbn [negb]; [|by exists 15].
  cbn [m_elems mbind option_bind].
  destruct (ok 16) eqn:E4; cbn [negb]; [|by exists 16]. destruct (ok 17) eqn:E5; cbn [negb]; [|by exists 17].
  cbn [m_elems mbind option_bind]. unfold maglev_add_routes.
  match goal with |- context [init_fibs Maglev.N_FIB_TABLE ?a] => set (fibs := init_fibs Maglev.N_FIB_TABLE a) end.
  match goal with |- context [Pool ?a 0] => set (plies := a) end.
  destruct (add_routes_fit (fun i => 0 <= i < Maglev.N_FIB_TABLE) Maglev.IP4_PLY_POOL_CAPACITY shl32 (S (S f))
    (maglev_routes maglev_indexes) (fun i => mtrie (fibs i)) plies) as (ms & s & E & Hm).
  - intros i Hi. by apply init_fibs_spec.
  - exact maglev_routes_valid.
  - apply maglev_routes_fit.
  - by vm_compute.
  - by vm_compute.
  - rewrite E. cbn [mbind option_bind]. split.
    { intros i Hi. assert (i = 12 \/ i = 13 \/ i = 14 \/ i = 15 \/ i = 16 \/ i = 17) by lia.
      clear E Hm He; destruct_or!; subst i; assumption. }
    intros dev x Hd Hx. cbn [ft_lbs ft_fibs ft_plies ip4_fib_get mtrie].
    rewrite (maglev_routes_match dev x _ Hd Hx (Hm dev x Hd Hx)). unfold maglev_decision.
    destruct He as (He0 & He1 & He2 & He3 & He4 & He5 & He6). unfold entry_is in *.
    destruct (x =? 1979711489), (x =? 1979711490), (x =? 167772929), (x =? 167773185),
      ((dev =? WAN_DEVICE_ONE) || (dev =? WAN_DEVICE_TWO)); cbn [fst snd];
      (split; [done|by intros mark [= <-]]).
Qed.

(** ** Property *)

(** Nf_init of the load balancer terminates and fails only when memory
    cannot be had; otherwise no backend is registered, every row of the
    consistent-hashing table lists all backend ids once, and the forwarding
    tables send the packets of the two virtual addresses that come in on a WAN
    device to the backends, each with its mark, those to two hosts to the LAN
    devices, and drop all others.  The pool of 30 plies is large enough. *)
Theorem maglev_nf_init_spec (ok : Z -> bool) (fuel : nat) (num_devs : Z) (macs mac_garbage : Z -> rte_ether_addr)
    (map_alloc : Z -> nfos_map_entry Z) (ip_alloc : Z -> Z) (info_alloc : Z -> backend_info)
    (cell_alloc : Z -> nfos_dchain_exp_cell) (cht_alloc perm_uninit usec_to_tsc : Z -> Z)
    (lcores shl32 : Z) (gb : pool_garbage)
    (Hcores : 1 < lcores) (Hdiv : (lcores - 1 | BACKEND_CAPACITY)) (Hfuel : BACKEND_CAPACITY <= Z.of_nat fuel) :
  match nf_init ok fuel num_devs macs mac_garbage map_alloc ip_alloc info_alloc cell_alloc cht_alloc
          perm_uninit usec_to_tsc lcores shl32 gb with
  | Some (Some (g, tb)) => (forall i, 0 <= i < 18 -> ok i = true) /\
      (forall i, 0 <= i < num_devs -> device_macs (gm_cfg g) i = macs i) /\
      maglev_tables_ready tb /\
      forall T mm mk mv mc mh khash plies lbs (t : T), reads_fresh g mm mc mh t ->
      fresh_state (maglev_state g mm mk mv mc mh khash (ft_fibs tb) plies lbs) t
  | Some None => exists i, 0 <= i < 18 /\ ok i = false
  | None => False
  end.
Proof.
  pose proof (maglev_alloc_ok (nf_config_init num_devs macs mac_garbage) ok fuel map_alloc ip_alloc ip_alloc
    info_alloc info_alloc cell_alloc cht_alloc cht_alloc perm_uninit usec_to_tsc lcores
    (default_config_ok num_devs macs mac_garbage lcores Hcores Hdiv) Hfuel) as H.
  unfold nf_init. destruct (alloc_state _ _ _ _ _ _ _ _ _ _ _ _ _ _) as [[g|]|]; [| |done].
  2: { destruct H as (i & Hi & E). exists i. split; [lia|done]. }
  destruct H as (Hok & Hcfg & Hf). do 4 (destruct fuel as [|fuel]; [unfold BACKEND_CAPACITY in Hfuel; lia|]).
  pose proof (maglev_tables_ok ok fuel shl32 gb) as Ht.
  destruct (maglev_tables _ _ _ _) as [tb|]; cbn [mbind option_bind].
  - destruct Ht as [Hok2 Ht]. split.
    { intros i Hi. destruct (decide (12 <= i)); [apply Hok2|apply Hok]; lia. }
    split; [intros i Hi; rewrite Hcfg; by apply (device_macs_spec num_devs)|]. split; [exact Ht|].
    intros. by apply Hf.
  - destruct Ht as (i & Hi & E). exists i. split; [lia|done].
Qed.

(** *** Initialisation on five cores *)

Definition ex_pools : pool_garbage :=
  PoolGarbage (fun _ => LoadBalance 0 0 (fun _ => Dpo 0 0 0 no_mac))
    (fun _ => Fib (Ply16 (fun _ => 0) (fun _ => 0)) 0) (fun _ => Ply8 (fun _ => 0) (fun _ => 0) 0 0)
    (fun _ => Dpo 0 0 0 no_mac).

Lemma maglev_nf_init_spec_witness :
  1 < 5 /\ exists g tb,
    nf_init (fun _ => true) 32 4 (fun i => Mac 0 0 0 0 0 i) (fun _ => no_mac) (fun _ => MapEntry 0 0 0 0 0)
      (fun _ => 0) (fun _ => Backend 0 no_mac 0) (fun _ => ExpCell 0 0 0 0) (fun _ => 0) (fun _ => 0)
      (fun x => x) 5 0 ex_pools = Some (Some (g, tb)) /\ maglev_tables_ready tb.
Proof.
  split; [lia|].
  pose proof (maglev_nf_init_spec (fun _ => true) 32 4 (fun i => Mac 0 0 0 0 0 i) (fun _ => no_mac)
    (fun _ => MapEntry 0 0 0 0 0) (fun _ => 0) (fun _ => Backend 0 no_mac 0) (fun _ => ExpCell 0 0 0 0)
    (fun _ => 0) (fun _ => 0) (fun x => x) 5 0 ex_pools ltac:(lia) ltac:(by exists 8) ltac:(by vm_compute)) as H.
  destruct (nf_init _ _ _ _ _ _ _ _ _ _ _ _ _ _ _) as [[[g tb]|]|]; [|by destruct H as (? & _ & ?)|done].
  exists g, tb. split; [reflexivity|apply H].
Defined.
