(* ===== verification/Dummy.v ===== *)
(** * The dummy NF

    src/nf/dummy/main.c and rand-gen.c, the NF of the framework's scalability
    tests: every flow has a packet set, and every packet costs a busy loop and
    one access, at a random index, to a vector shared by all cores.
    [write_per_flow] and [write_per_packet] are the build options of
    dummy_config.h; rand (the C library), zipf_next (fio's generator) and the
    time-stamp counter are parameters. *)

From stdpp Require Import gmap.
From S2P Require Import Prelude Ether Rlu Txn Vector Links ConcDchain PktSet DataPlane NfCommon FibInit Firewall.
Open Scope Z_scope.

(** dummy_config.h, rand-gen.h *)
Definition MAX_NUM_FLOWS : Z := 2097152.
Definition EXPIRATION_TIME : Z := 1200000.
Definition DATA_SIZE : Z := 10000.
Definition RAND_SEQ_LEN : Z := 10000.

Definition pkt_set_state_allocate : pkt_set_state_t := FwState 0 (TcpFlag 0 0).
Definition data_null_init (_ : Z) : Z := 0.

(** ** Random numbers *)

Record rand_seq_t := RandSeq { seq_id : Z; seq_vals : Z -> Z }.

Section rand_seqs.
Context {G : Type} (next : G -> Z * G).

(** The [n] values from [j] on, and the generator they leave. *)
Definition fill_seq (n : nat) (j : Z) (vg : (Z -> Z) * G) : (Z -> Z) * G :=
  loop_range j n (fun j '(vals, g) => let (x, g) := next g in (<[j := x]> vals, g)) vg.

Definition fill_seqs (num_workers : Z) (seqs : Z -> rand_seq_t) (g : G) : (Z -> rand_seq_t) * G :=
  loop_range 0 (Z.to_nat num_workers)
    (fun i '(seqs, g) =>
       let (vals, g) := fill_seq (Z.to_nat RAND_SEQ_LEN) 0 (seq_vals (seqs i), g) in
       (<[i := RandSeq 0 vals]> seqs, g)) (seqs, g).
End rand_seqs.

(** [zipf]: whether zipf_factor is not 0; [garbage]: what malloc returns. *)
Definition init_rand_seqs {G Zs : Type} (srand : Z -> G) (rand : G -> Z * G) (zipf_init : Z -> Z -> Zs)
    (zipf_next : Zs -> Z * Zs) (zipf : bool) (lcores range : Z) (garbage : Z -> rand_seq_t) : Z -> rand_seq_t :=
  let num_workers := lcores - 1 in
  if negb zipf then
    (fill_seqs (fun g => let (x, g) := rand g in (Z.rem x range, g)) num_workers garbage (srand 42)).1
  else
    (fill_seqs (fun z => let (x, z) := zipf_next z in (i32 (x mod u64 range), z)) num_workers garbage
       (zipf_init range 42)).1.

(** ** Initialisation *)

Record nf_config := DummyConfig {
  wan_device : Z;
  max_num_flows : Z;
  expiration_time : Z;
  device_macs : Z -> rte_ether_addr;
  endpoint_macs : Z -> rte_ether_addr
}.

(** What nf_init returns through its pointers, and the static sequences. *)
Record dummy_masters := DummyMasters {
  dm_cfg : nf_config;
  dm_data : vector_masters Z;
  dm_seqs : Z -> rand_seq_t;
  dm_validity_duration : Z;
  dm_has_related_pkt_sets : bool;
  dm_do_expiration : bool;
  dm_has_pkt_sets : bool
}.

(** [None]: the allocation of the addresses fails, and the code goes on to
    write through NULL; [Some None]: it returns NULL.  DATA_ZIPF_FACTOR is 0. *)
Definition nf_init {G Zs : Type} (ok : Z -> bool) (srand : Z -> G) (rand : G -> Z * G) (zipf_init : Z -> Z -> Zs)
    (zipf_next : Zs -> Z * Zs) (num_devs lcores : Z) (macs mac_garbage : Z -> rte_ether_addr)
    (data_alloc data_uninit : Z -> Z) (seq_garbage : Z -> rand_seq_t) : option (option dummy_masters) :=
  if negb (ok 0) then None
  else if negb (ok 1) then None
  else
    let dm := fill_macs num_devs macs mac_garbage in
    let data := nfos_vector_allocate_t (ok 2) (ok 3) data_alloc data_uninit 4 DATA_SIZE data_null_init in
    let seqs := init_rand_seqs srand rand zipf_init zipf_next false lcores DATA_SIZE seq_garbage in
    match data with
    | None => Some None
    | Some data =>
        Some (Some (DummyMasters (DummyConfig WAN_DEVICE MAX_NUM_FLOWS EXPIRATION_TIME dm.1 dm.2) data seqs
          EXPIRATION_TIME false true true))
    end.

(** ** Handlers *)

Record nf_state (T : Type) := DummyState { cfg : nf_config; data : NfosVector T Z }.
Arguments DummyState {T} _ _.
Arguments cfg {T} _.
Arguments data {T} _.

(** What a handler uses of its core: what every NF does, the static sequences,
    and the readings of the time-stamp counter so far. *)
Record dummy_mem (B : Type) := DummyMem {
  d_nf : nf_mem (pkt_t B) pkt_set_id_t pkt_set_state_t;
  d_seqs : Z -> rand_seq_t;
  d_reads : nat
}.
Arguments DummyMem {B} _ _ _.
Arguments d_nf {B} _.
Arguments d_seqs {B} _.
Arguments d_reads {B} _.

(** Whether a handler returns 0 or has used up the fuel of its busy loop. *)
Inductive dummy_result := Returned | Spinning.

Section dummy.
Context {T B : Type} `{PacketIo B} (st : nf_state T).
(** The [k]-th reading of the counter; the thread's id; the fuel. *)
Variables (tsc : nat -> Z) (thr_id : Z) (spin : nat) (write_per_flow write_per_packet : bool).
Abbreviation mem := (dummy_mem B).

Definition nf_pkt_dispatcher (pkt : pkt_t B) (incoming_dev : Z) : Z * pkt_set_id_t * bool :=
  (0, if negb (incoming_dev =? wan_device (cfg st)) then
        FlowId (src_port (tcpudp pkt)) (dst_port (tcpudp pkt)) (src_addr (ipv4 pkt)) (dst_addr (ipv4 pkt))
          (next_proto_id (ipv4 pkt))
      else
        FlowId (dst_port (tcpudp pkt)) (src_port (tcpudp pkt)) (dst_addr (ipv4 pkt)) (src_addr (ipv4 pkt))
          (next_proto_id (ipv4 pkt)), true).

(** Calls of the framework. *)
Definition on_nf {A} (c : M (nf_mem (pkt_t B) pkt_set_id_t pkt_set_state_t * T) A) : M (mem * T) A :=
  fun '(l, t) => let '(r, (m, t)) := c (d_nf l, t) in (r, (DummyMem m (d_seqs l) (d_reads l), t)).

Definition rte_get_tsc_cycles : M (mem * T) Z :=
  on_local (fun l => (tsc (d_reads l), DummyMem (d_nf l) (d_seqs l) (S (d_reads l)))).

Fixpoint busy_loop (fuel : nat) (timer_start timer_end : Z) : M (mem * T) bool :=
  if timer_end <? u64 (timer_start + 100) then
    match fuel with
    | O => ret false
    | S fuel => let! timer_end := rte_get_tsc_cycles in busy_loop fuel timer_start timer_end
    end
  else ret true.

Definition get_rand_num : M (mem * T) Z :=
  on_local (fun l => let rand_seq := d_seqs l thr_id in (seq_vals rand_seq (seq_id rand_seq), l)).

Definition next_id (rand_seq : rand_seq_t) : rand_seq_t :=
  RandSeq (Z.rem (seq_id rand_seq + 1) RAND_SEQ_LEN) (seq_vals rand_seq).

Definition update_rand_num_id : M (mem * T) unit :=
  on_local (fun l =>
    (tt, DummyMem (d_nf l) (<[thr_id := next_id (d_seqs l thr_id)]> (d_seqs l)) (d_reads l))).

(** nfos_vector_borrow_mut and the write of 0. *)
Definition write_data (id : Z) : M (mem * T) unit :=
  on_txn (let! data_elem := nfos_vector_borrow_mut_t (data st) id in modify (elems (data st)) data_elem (fun _ => 0)).

(** The state of the packet set is not used. *)
Definition pkt_handler (incoming_dev : Z) : M (mem * T) dummy_result :=
  let dst_dev := u16 (incoming_dev - 1) in
  let! timer_start := rte_get_tsc_cycles in
  let! waited := busy_loop spin timer_start 0 in
  if negb waited then ret Spinning
  else
    let! id := get_rand_num in
    (if write_per_packet then write_data id else ret tt) ;;
    let! data_elem := on_txn (nfos_vector_borrow_t (data st) id) in
    let dst_dev := u16 (dst_dev + data_elem) in
    on_nf (send_pkt dst_dev) ;;
    update_rand_num_id ;;
    ret Returned.

(** A call whose result is not looked at: ABORT_HANDLER is lost. *)
Definition ignoring (c : M (mem * T) dummy_result) : M (mem * T) dummy_result :=
  fun s => match c s with
           | (Some r, s) => (Some r, s)
           | (None, s) => (Some Returned, s)
           end.

Definition nf_unknown_pkt_set_handler (num_cores core pkt_set_partition incoming_dev : Z)
    (pkt_set_id : pkt_set_id_t) : M (mem * T) dummy_result :=
  (if write_per_flow then let! id := get_rand_num in write_data id else ret tt) ;;
  let local_state := FwState incoming_dev (TcpFlag 0 0) in
  let! _ := on_nf (add_pkt_set num_cores core pkt_set_partition pkt_set_id local_state None) in
  ignoring (pkt_handler incoming_dev).

Definition nf_expired_pkt_set_handler : M (Z * T) unit := ret tt.
End dummy.

(** ** The sequences *)

(** Every position of a thread's sequence is an element of the vector. *)
Definition seq_ok (s : rand_seq_t) : Prop :=
  0 <= seq_id s < RAND_SEQ_LEN /\ forall j, 0 <= j < RAND_SEQ_LEN -> 0 <= seq_vals s j < DATA_SIZE.

Lemma fill_seq_range {G} (next : G -> Z * G) vals g :
  (forall g, 0 <= (next g).1 < DATA_SIZE) ->
  forall j, 0 <= j < RAND_SEQ_LEN -> 0 <= (fill_seq next (Z.to_nat RAND_SEQ_LEN) 0 (vals, g)).1 j < DATA_SIZE.
Proof.
  intros Hn. unfold fill_seq.
  apply (loop_range_spec (fun n (s : (Z -> Z) * G) => forall j, 0 <= j < n -> 0 <= s.1 j < DATA_SIZE)).
  - done.
  - intros j Hj. lia.
  - intros k [v g'] Hk IH j Hj. pose proof (Hn g') as Hx. destruct (next g') as [x g1]. cbn in Hx, IH |- *. fcase; [done|].
    apply IH. lia.
Qed.

Lemma fill_seqs_ok {G} (next : G -> Z * G) n seqs g :
  (forall g, 0 <= (next g).1 < DATA_SIZE) ->
  forall i, 0 <= i < n -> seq_id ((fill_seqs next n seqs g).1 i) = 0 /\ seq_ok ((fill_seqs next n seqs g).1 i).
Proof.
  intros Hn i Hi. assert (0 <= n) as H0 by lia. revert i Hi. unfold fill_seqs.
  apply (loop_range_spec (fun n (s : (Z -> rand_seq_t) * G) => forall i, 0 <= i < n ->
    seq_id (s.1 i) = 0 /\ seq_ok (s.1 i))).
  - lia.
  - intros i Hi. lia.
  - intros k [s g'] Hk IH i Hi. pose proof (fill_seq_range next (seq_vals (s k)) g' Hn) as Hr.
    destruct (fill_seq _ _ _ _) as [vals g1]. cbn in Hr, IH |- *. fcase.
    + split; [done|]. split; [by cbn|done].
    + apply IH. lia.
Qed.

(** ** The busy loop *)

(** The first [n] readings of a counter that moves between them and does not
    wrap around. *)
Definition ticking (tsc : nat -> Z) (n : nat) : Prop :=
  (forall k, (k < n)%nat -> 0 <= tsc k < 2 ^ 64 - 100) /\ forall k, (S k < n)%nat -> tsc k < tsc (S k).

Lemma ticking_far tsc m k n : ticking tsc m -> (k + n < m)%nat -> tsc k + Z.of_nat n <= tsc (k + n)%nat.
Proof.
  intros [_ Ht] Hm. induction n as [|n IH]; [rewrite Nat.add_0_r; lia|].
  rewrite Nat.add_succ_r in Hm |- *. specialize (Ht (k + n)%nat Hm). specialize (IH ltac:(lia)). lia.
Qed.

Section wait.
Context {T B : Type} (tsc : nat -> Z) (m : nat) (Ht : ticking tsc m).
Abbreviation mem := (dummy_mem B).

(** [n] more readings. *)
Definition reads (n : nat) (l : mem) : mem := DummyMem (d_nf l) (d_seqs l) (d_reads l + n).

Lemma reads_0 l : reads 0 l = l.
Proof. unfold reads. rewrite Nat.add_0_r. by destruct l. Qed.

Lemma busy_loop_run (fuel : nat) : forall (k0 j : nat) (e : Z) (l : mem) (t : T),
  d_reads l = (k0 + 1 + j)%nat -> (k0 + 100 < m)%nat -> (j <= 100 <= j + fuel)%nat ->
  e = 0 /\ j = 0%nat \/ (0 < j)%nat /\ e = tsc (k0 + j)%nat ->
  exists n, busy_loop tsc fuel (tsc k0) e (l, t) = (Some true, (reads n l, t)) /\ (j + n <= 100)%nat /\
    tsc k0 + 100 <= tsc (k0 + (j + n))%nat.
Proof.
  induction fuel as [|fuel IH]; intros k0 j e l t Hl Hm Hf He; cbn [busy_loop];
    pose proof (proj1 Ht k0 ltac:(lia)) as Hr; rewrite u64_id by lia;
    pose proof (ticking_far tsc m k0 j Ht ltac:(lia)).
  - destruct He as [[_ ->]|[_ ->]]; [lia|].
    destruct (Z.ltb_spec (tsc (k0 + j)%nat) (tsc k0 + 100)) as [Hlt|Hge]; [lia|].
    exists 0%nat. rewrite Nat.add_0_r, reads_0. auto with lia.
  - destruct (Z.ltb_spec e (tsc k0 + 100)) as [Hlt|Hge].
    + assert (j < 100)%nat as Hj by (destruct He as [[_ ->]|[_ ->]]; lia).
      unfold bind. cbn [rte_get_tsc_cycles on_local].
      edestruct (IH k0 (S j) (tsc (d_reads l)) (DummyMem (d_nf l) (d_seqs l) (S (d_reads l))) t) as (n & E & Hn & Hd).
      * cbn. lia.
      * lia.
      * lia.
      * right. split; [lia|]. f_equal. lia.
      * exists (S n). unfold rte_get_tsc_cycles, on_local. rewrite E. rewrite Nat.add_succ_r. split; [|by split; [lia|]].
        unfold reads. cbn. by rewrite Nat.add_succ_r.
    + exists 0%nat. destruct He as [[-> _]|[_ ->]]; [lia|]. rewrite Nat.add_0_r, reads_0. auto with lia.
Qed.
End wait.

(** ** The handlers *)

Section spec.
Context {T B : Type} `{RluTxn T} `{!PacketIo B} (st : nf_state T) `{!RluLaws (elems (data st))}.
Context (tsc : nat -> Z) (m : nat) (Ht : ticking tsc m) (thr_id : Z) (spin : nat) (Hspin : (100 <= spin)%nat).
Variable per_packet : bool.
Abbreviation mem := (dummy_mem B).
Abbreviation R := (mem_steps (elems (data st))).

(** The data reads 0 everywhere. *)
Definition zeros (t : T) : Prop := forall i, view (elems (data st)) t i = 0.

Lemma write_data_wp id (l : mem) t E :
  zeros t -> E l -> wpm R (write_data st id) l t E (fun _ l' t' => l' = l /\ zeros t').
Proof.
  intros Hz HE. unfold write_data. apply wpm_txn; [done|].
  assert (holds (elems (data st)) t (fun _ => 0) []) as Hh by (split; [done|set_solver]).
  wstep. eapply wp_borrow_mut; wp_tc; [exact Hh|]. intros t1 Hh1. wstep.
  split; [done|]. intros i. rewrite (proj1 Hh0). fcase; done.
Qed.

Definition sent (dev : Z) (n : nat) (l : mem) : mem :=
  DummyMem (set_dst_device (u16 (dev - 1)) (d_nf l)) (<[thr_id := next_id (d_seqs l thr_id)]> (d_seqs l))
    (d_reads l + n).

(** What stays when the handler aborts. *)
Definition unsent (l l' : mem) : Prop :=
  d_nf l' = d_nf l /\ d_seqs l' = d_seqs l /\ (d_reads l' <= d_reads l + 101)%nat.

Lemma pkt_handler_wp dev (l : mem) t :
  zeros t -> (d_reads l + 100 < m)%nat ->
  wpm R (pkt_handler st tsc thr_id spin per_packet dev) l t (unsent l)
    (fun r l' t' => r = Returned /\ zeros t' /\ exists n, (n <= 101)%nat /\ l' = sent dev n l).
Proof.
  intros Hz Hm. unfold pkt_handler. eapply wpm_bind; [typeclasses eauto|]. apply wpm_local; [typeclasses eauto|]. cbn [fst snd].
  destruct (busy_loop_run tsc m Ht spin (d_reads l) 0 0 (DummyMem (d_nf l) (d_seqs l) (S (d_reads l))) t)
    as (n & E & Hn & _); [cbn; lia|lia|lia|by left|].
  eapply wpm_bind; [typeclasses eauto|]. unfold wpm at 1. rewrite E. split; [reflexivity|].
  cbn [negb]. eapply wpm_bind; [typeclasses eauto|]. apply wpm_local; [typeclasses eauto|]. cbn [fst snd].
  set (l1 := reads n _). eapply wpm_bind; [typeclasses eauto|].
  eapply (wpm_mono _ _ _ _ _ (fun _ l' t' => l' = l1 /\ zeros t')).
  2: { destruct per_packet; [apply write_data_wp; [done|split; [done|split; [done|cbn; lia]]]|apply wpm_ret; [typeclasses eauto|by split]]. }
  intros [] l2 t2 _ [-> Hz2]. eapply wpm_bind; [typeclasses eauto|]. eapply wpm_txn; [split; [done|split; [done|cbn; lia]]|].
  eapply (wp_borrow (data st) _ _ _ (fun _ => 0) []); [by split; [|set_solver]|].
  eapply wpm_bind; [typeclasses eauto|]. unfold wpm at 1. cbn [on_nf send_pkt]. split; [reflexivity|].
  eapply wpm_bind; [typeclasses eauto|]. apply wpm_local; [typeclasses eauto|]. apply wpm_ret; [typeclasses eauto|].
  split; [done|]. split; [done|]. exists (S n). split; [lia|]. unfold sent. cbn. f_equal; [|lia].
  unfold set_dst_device. f_equal. rewrite Z.add_0_r. apply u16_id, wrap_range. lia.
Qed.
End spec.

(** *** As a critical section *)

(** The shared memory in which every transaction reads zeros, whatever this
    and the other cores commit. *)
Record zeros_kept {T W} `{RluRuntime W T} (st : nf_state T) (Inv : W -> Prop) : Prop := {
  zk_lock w : Inv w -> zeros st (reader_lock w).1 /\ Inv (reader_lock w).2;
  zk_unlock w t : Inv w -> zeros st t -> Inv (reader_unlock t w).2;
  zk_abort w t : Inv w -> Inv (rlu_abort t w)
}.

Section commits.
Context {T W B : Type} `{RluTxn T} `{RluRuntime W T} `{!PacketIo B} (st : nf_state T) `{!RluLaws (elems (data st))}.
Context (tsc : nat -> Z) (m : nat) (Ht : ticking tsc m) (thr_id : Z) (spin : nat) (Hspin : (100 <= spin)%nat).
Context (per_packet : bool) (Inv : W -> Prop) (Hinv : zeros_kept st Inv) (dev : Z).
Hypothesis Hvalid : forall t w, (reader_unlock t w).1 = true.

(** Attempts that abort leave the core's memory, the counter apart. *)
Lemma pkt_handler_commits fuel : forall (l : dummy_mem B) (w : W) r l' w',
  Inv w -> (d_reads l + 101 * fuel <= m)%nat ->
  run_txn (fun l => l) (fun l => l) (pkt_handler st tsc thr_id spin per_packet dev) fuel l w = Some (r, (l', w')) ->
  r = Returned /\ Inv w' /\ d_nf l' = set_dst_device (u16 (dev - 1)) (d_nf l) /\
  d_seqs l' = <[thr_id := next_id (d_seqs l thr_id)]> (d_seqs l).
Proof.
  induction fuel as [|fuel IH]; intros l w r l' w' Hw Hm; cbn [run_txn]; [done|].
  destruct (zk_lock _ _ Hinv w Hw) as [Hz Hw1]. destruct (reader_lock w) as [t w1]. cbn in Hz, Hw1.
  pose proof (pkt_handler_wp st tsc m Ht thr_id spin Hspin per_packet dev l t Hz ltac:(lia)) as Hp.
  unfold wpm in Hp. destruct (pkt_handler _ _ _ _ _ _ _) as [[b|] [l1 t1]].
  - destruct Hp as (_ & -> & Hz1 & n & _ & ->). pose proof (Hvalid t1 w1) as Hv.
    pose proof (zk_unlock _ _ Hinv w1 t1 Hw1 Hz1) as Hw2. destruct (reader_unlock t1 w1) as [v w2]. cbn in Hv, Hw2.
    subst v. by intros [= <- <- <-].
  - destruct Hp as [(E1 & E2 & Hn) _]. intros (-> & Hi & -> & ->)%IH; [|by apply (zk_abort _ _ Hinv)|lia].
    by rewrite E1, E2.
Qed.
End commits.

Lemma next_id_ok s : seq_ok s -> seq_ok (next_id s) /\ seq_id (next_id s) = (seq_id s + 1) mod RAND_SEQ_LEN.
Proof.
  intros [Hid Hv]. unfold next_id, seq_ok. cbn [seq_id seq_vals]. unfold RAND_SEQ_LEN in *.
  rewrite Z.rem_mod_nonneg by lia. split; [|done]. split; [by apply Z.mod_pos_bound|done].
Qed.

(** ** Properties *)

(** Nf_init of the dummy NF: it fails only when memory cannot be had;
    otherwise every flow is a packet set that expires, every element of the
    shared data is 0, and every thread starts at the first of a sequence of
    numbers that are indexes of the data. *)
Theorem dummy_nf_init_spec {G Zs : Type} (ok : Z -> bool) (srand : Z -> G) (rand : G -> Z * G)
    (zipf_init : Z -> Z -> Zs) (zipf_next : Zs -> Z * Zs) (num_devs lcores : Z)
    (macs mac_garbage : Z -> rte_ether_addr) (data_alloc data_uninit : Z -> Z) (seq_garbage : Z -> rand_seq_t)
    (Hrand : forall g, 0 <= (rand g).1) :
  match nf_init ok srand rand zipf_init zipf_next num_devs lcores macs mac_garbage data_alloc data_uninit
          seq_garbage with
  | None => ok 0 = false \/ ok 1 = false
  | Some None => ok 2 = false \/ ok 3 = false
  | Some (Some g) =>
      dm_do_expiration g = true /\ dm_has_pkt_sets g = true /\ dm_has_related_pkt_sets g = false /\
      (forall i, 0 <= i < DATA_SIZE -> m_elems (dm_data g) i = 0) /\
      (forall i, 0 <= i < lcores - 1 -> seq_id (dm_seqs g i) = 0 /\ seq_ok (dm_seqs g i)) /\
      forall i, 0 <= i < num_devs -> device_macs (dm_cfg g) i = macs i
  end.
Proof.
  unfold nf_init. destruct (ok 0); cbn [negb]; [|by left]. destruct (ok 1); cbn [negb]; [|by right].
  unfold nfos_vector_allocate_t. destruct (ok 2); cbn [negb]; [|by left]. destruct (ok 3); cbn [negb]; [|by right].
  do 3 (split; [done|]). split; [|split].
  - intros i Hi. cbn [dm_data m_elems]. rewrite vector_init_loop_spec. by rewrite decide_True by (unfold DATA_SIZE in *; lia).
  - intros i Hi. cbn [dm_seqs]. unfold init_rand_seqs. cbn [negb]. apply fill_seqs_ok; [|lia].
    intros g. specialize (Hrand g). destruct (rand g) as [x g']. cbn in *. by apply Z.rem_bound_pos.
  - intros i Hi. by apply fill_macs_spec.
Qed.

(** A packet of a known flow in the dummy NF: the busy loop ends, and the
    critical section that commits, if its reads are not refused, sends the
    packet to the device before the one it came in on (from device 0 to all
    others), whatever index it used, leaves the shared data 0, and moves the
    thread on to the next number of its sequence, once however many attempts
    were aborted. *)
Theorem dummy_forwards {T W B : Type} `{RluTxn T} `{RluRuntime W T} `{!PacketIo B} (st : nf_state T)
    `{!RluLaws (elems (data st))} (tsc : nat -> Z) (thr_id : Z) (spin fuel : nat) (per_packet : bool)
    (Inv : W -> Prop) (dev : Z) (l l' : dummy_mem B) (w w' : W) (r : dummy_result)
    (Htsc : ticking tsc (d_reads l + 101 * fuel)) (Hspin : (100 <= spin)%nat) (Hinv : zeros_kept st Inv)
    (Hvalid : forall t w, (reader_unlock t w).1 = true) (Hdev : 0 <= dev < 2 ^ 16)
    (Hw : Inv w) (Hseq : seq_ok (d_seqs l thr_id))
    (Hrun : run_txn (fun l => l) (fun l => l) (pkt_handler st tsc thr_id spin per_packet dev) fuel l w =
       Some (r, (l', w'))) :
  r = Returned /\ Inv w' /\
  d_nf l' = set_dst_device (if dev =? 0 then FLOOD_PORT else dev - 1) (d_nf l) /\
  seq_ok (d_seqs l' thr_id) /\
  seq_id (d_seqs l' thr_id) = (seq_id (d_seqs l thr_id) + 1) mod RAND_SEQ_LEN /\
  forall i, i <> thr_id -> d_seqs l' i = d_seqs l i.
Proof.
  destruct (pkt_handler_commits st tsc _ Htsc thr_id spin Hspin per_packet Inv Hinv dev Hvalid fuel l w r l' w' Hw
    ltac:(lia) Hrun) as (-> & Hw' & -> & ->). destruct (next_id_ok _ Hseq) as [Hs Hi].
  split; [done|]. split; [done|]. split.
  { f_equal. destruct (Z.eqb_spec dev 0) as [->|]; [done|]. apply u16_id. lia. }
  rewrite fn_lookup_insert. split; [done|]. split; [done|]. intros i Hne. by rewrite fn_lookup_insert_ne.
Qed.

(** ** Witnesses *)

Definition ex_dummy_init : option (option dummy_masters) :=
  nf_init (fun _ => true) (fun seed => seed) (fun g => (g * 7 mod 32768, g + 1)) (fun r s => r + s) (fun z => (z, z)) 2 3
    (fun i => Mac 2 0 0 0 0 i) (fun _ => no_mac) (fun _ => 77) (fun _ => 77) (fun _ => RandSeq 77 (fun _ => 77)).

Lemma dummy_nf_init_spec_witness :
  (forall g : Z, 0 <= g * 7 mod 32768) /\
  match ex_dummy_init with
  | Some (Some g) => seq_ok (dm_seqs g 1)
  | _ => False
  end.
Proof.
  assert (forall g : Z, 0 <= g * 7 mod 32768) as Hr by (intros; by apply Z.mod_pos_bound).
  split; [exact Hr|].
  pose proof (dummy_nf_init_spec (fun _ => true) (fun seed => seed) (fun g => (g * 7 mod 32768, g + 1))
    (fun r s => r + s) (fun z => (z, z)) 2 3 (fun i => Mac 2 0 0 0 0 i) (fun _ => no_mac) (fun _ => 77) (fun _ => 77)
    (fun _ => RandSeq 77 (fun _ => 77)) Hr) as H.
  unfold ex_dummy_init. destruct (nf_init _ _ _ _ _ _ _ _ _ _ _ _) as [[g|]|].
  - destruct H as (_ & _ & _ & _ & Hs & _). apply Hs. lia.
  - by destruct H.
  - by destruct H.
Defined.

(** The data in one transaction; a thread with an odd state of the shared
    memory is refused every lock, and an abort makes it even. *)
Definition ex_dummy_state : nf_state (snap_txn Z) :=
  DummyState (DummyConfig WAN_DEVICE MAX_NUM_FLOWS EXPIRATION_TIME (fun _ => no_mac) (fun _ => no_mac))
    {| elems := snap_mem; elem_size := 4; capacity := DATA_SIZE |}.
#[local] Instance ex_dummy_runtime : RluRuntime Z (snap_txn Z) := {
  reader_lock w := (SnapTxn (fun _ => 0) ∅ (fun _ => Z.odd w), w);
  reader_unlock _ w := (true, w);
  rlu_abort _ w := w + 1
}.
Lemma ex_zeros_kept : zeros_kept ex_dummy_state (fun _ => True).
Proof. split; [by intros w _|done|done]. Qed.

Definition ex_clock (k : nat) : Z := 60 * Z.of_nat k.
Lemma ex_ticking n : (n <= 1000)%nat -> ticking ex_clock n.
Proof. intros Hn. split; unfold ex_clock; intros k Hk; lia. Qed.

Definition ex_dummy_mem : dummy_mem ex_frame :=
  DummyMem (ex_fw_mem ex_frame_out 9) (fun _ => RandSeq 9999 (fun j => j)) 0.

(** The last number of the sequence, after an aborted attempt. *)
Lemma dummy_forwards_witness :
  exists l', run_txn (fun l => l) (fun l => l) (pkt_handler ex_dummy_state ex_clock 0 100 true 1) 2 ex_dummy_mem 1 =
    Some (Returned, (l', 2)) /\ nf_dst_device (d_nf l') = 0 /\ seq_id (d_seqs l' 0) = 0.
Proof.
  destruct (run_txn (fun l => l) (fun l => l) (pkt_handler ex_dummy_state ex_clock 0 100 true 1) 2 ex_dummy_mem 1)
    as [[r [l' w']]|] eqn:E; [|by vm_compute in E].
  assert (w' = 2) as -> by (vm_compute in E; congruence).
  assert (seq_ok (d_seqs ex_dummy_mem 0)) as Hs by (split; [done|intros j Hj; exact Hj]).
  destruct (dummy_forwards (B := ex_frame) ex_dummy_state ex_clock 0 100 2 true (fun _ => True) 1 ex_dummy_mem l' 1 2 r
    (ex_ticking 202 ltac:(lia)) ltac:(lia) ex_zeros_kept (fun _ _ => eq_refl) ltac:(lia) I Hs E)
    as (-> & _ & Hd & _ & Hi & _).
  exists l'. split; [done|]. split; [by rewrite Hd|exact Hi].
Defined.

(** *** Where the code does not do what it means to *)

(** The handler of an unknown flow whose first packet is refused its element
    (WRITE_PER_PACKET) returns 0: the flow is registered, and the packet is
    neither sent nor handled again. *)
Lemma abort_lost :
  let s := nf_unknown_pkt_set_handler ex_dummy_state ex_clock 0 100 false true 2 0 0 1 ex_flow
             (ex_dummy_mem, SnapTxn (fun _ => 0) ∅ (fun _ => true)) in
  s.1 = Some Returned /\ nf_dst_device (d_nf s.2.1) = 9 /\
  PktSet.add_pkt_set (log_entry (nf_manager (d_nf s.2.1)) 0) = true.
Proof. vm_compute. auto. Qed.

(** The number is given up before the read validation: a failed one skips it. *)
Definition ex_invalid_once : RluRuntime Z (snap_txn Z) := {|
  reader_lock w := (SnapTxn (fun _ => 0) ∅ (fun _ => false), w);
  reader_unlock _ w := (Z.odd w, w + 1);
  rlu_abort _ w := w
|}.
Lemma number_skipped :
  option_map (fun r => seq_id (d_seqs r.2.1 0))
    (@run_txn Z (snap_txn Z) _ _ ex_invalid_once (fun l => l) (fun l => l)
       (pkt_handler ex_dummy_state ex_clock 0 100 false 1) 2 ex_dummy_mem 0) = Some 1.
Proof. vm_compute. reflexivity. Qed.
