(* ===== verification/System.v ===== *)
(** * The cores together

    All data-plane cores of an NF without related packet sets (as every NF
    here is): they share the packet-set manager and the RLU memory, each with
    its own partition, and take turns between packets and expiry rounds in any
    order (process_main, nf.c 334-387); the last core's periodic handler
    changes the RLU memory in between.  [batching] is PKT_PROCESS_BATCHING: a
    turn with packets is a batch, or one packet; no NF defines
    MUTABLE_PKT_SET_STATE.  The operations that run inside these steps at the
    same time are the subject of ConcDchain.v and McsLock.v. *)

From stdpp Require Import gmap relations.
From S2P Require Import Prelude Rlu Txn NfosMap Links ConcDchain ConcMap PktSet DataPlane BatchPlane NfMain.
Open Scope Z_scope.

(** A packet that was processed, as it was parsed. *)
Record event (P : Type) := Event {
  ev_core : Z;
  ev_device : Z;
  ev_supported : bool;
  ev_packet : P;
  ev_dst : Z
}.
Arguments Event {P} _ _ _ _ _.
Arguments ev_core {P} _.
Arguments ev_device {P} _.
Arguments ev_supported {P} _.
Arguments ev_packet {P} _.
Arguments ev_dst {P} _.

Record system (P K S W : Type) := System {
  sys_manager : pkt_set_manager K S;
  sys_cores : Z -> core_mem P K S;
  sys_world : W;
  sys_events : list (event P)     (* the last first *)
}.
Arguments System {P K S W} _ _ _ _.
Arguments sys_manager {P K S W} _.
Arguments sys_cores {P K S W} _.
Arguments sys_world {P K S W} _.
Arguments sys_events {P K S W} _.

(** The packets of a batch, once each has its destination. *)
Fixpoint batch_events {P K} (core device : Z) (c : batch_class P K) (dst_devices : Z -> Z) (n : nat) : list (event P) :=
  match n with
  | O => []
  | Datatypes.S n =>
      Event core device (parse_res c (Z.of_nat n)) (packet c (Z.of_nat n)) (dst_devices (Z.of_nat n)) ::
      batch_events core device c dst_devices n
  end.

Lemma batch_events_in {P K} core device (c : batch_class P K) dst n e : e ∈ batch_events core device c dst n <->
  exists i, 0 <= i < Z.of_nat n /\ e = Event core device (parse_res c i) (packet c i) (dst i).
Proof.
  induction n as [|n IH]; cbn [batch_events].
  - split; [by intros ?%not_elem_of_nil|]. intros (i & ? & _). lia.
  - rewrite elem_of_cons, IH. split.
    + intros [->|(i & Hi & ->)]; [exists (Z.of_nat n)|exists i]; (split; [lia|done]).
    + intros (i & Hi & ->). destruct (decide (i = Z.of_nat n)) as [->|]; [by left|]. right. exists i. split; [lia|done].
Qed.

Section system.
Context {B P K S W T : Type} `{RluRuntime W T} `{Countable K}.
(** The NF's functions on a core, at a time. *)
Context (nf_of : Z -> Z -> NfHandlers B P K S T) (handlers_of : Z -> Z -> Z -> pkt_handler_t P K S T).
Context (keys_eq : K -> K -> bool) (khash : K -> Z) (N MAX : Z).
Variables (batching do_expiration : bool) (nf_expired : M (S * T) unit) (periodic : W -> W -> Prop).

(** The manager is shared: a core finds it as the last step left it. *)
Definition load (c : Z) (s : system P K S W) : core_mem P K S :=
  Core (set_manager (sys_manager s) (nf (sys_cores s c))) (pkt_set_state_log (sys_cores s c)).

(** A core's memory after a batch. *)
Definition after_batch (c : Z) (l : batch_mem P K S) (s : system P K S W) : core_mem P K S :=
  Core (set_dst_device (b_dst_device l) (nf (load c s))) (pkt_set_state_log (sys_cores s c)).

(** A step, and the data-plane core that takes it. *)
Inductive sys_step : option Z -> system P K S W -> system P K S W -> Prop :=
| core_expires c now fuel s g w :
    0 <= c < N -> 2 * MAX <= Z.of_nat fuel ->
    expire_round keys_eq khash N MAX do_expiration nf_expired fuel c now (sys_manager s) (sys_world s) = Some (g, w) ->
    sys_step (Some c) s (System g (sys_cores s) w (sys_events s))
| core_processes c now fuel uninit device (buffer : B) len s dst l w :
    batching = false -> 0 <= c < N -> 2 * MAX <= Z.of_nat fuel ->
    @process_pkt B P K S W T _ (nf_of c now) keys_eq khash N MAX false (handlers_of c now) fuel uninit c device
      buffer len now c (load c s) (sys_world s) = Some (dst, (l, w)) ->
    let r := @nf_pkt_parser B P K S T (nf_of c now) buffer (u32 len)
               (@set_len B P K S T (nf_of c now) len (nf_packet (nf (sys_cores s c)))) in
    sys_step (Some c) s (System (nf_manager (nf l)) (<[c := l]> (sys_cores s)) w
      (Event c device r.1 r.2 dst :: sys_events s))
| core_processes_batch c now fuel uninit device (mbufs : Z -> B * Z) batch_size c0 ptr0 reg0 log s l w :
    batching = true -> 0 <= c < N -> 2 * MAX <= Z.of_nat fuel -> 0 < batch_size ->
    @process_pkt_batch B P K S W T _ (nf_of c now) keys_eq khash N MAX false (handlers_of c now) fuel uninit c
      c0 ptr0 reg0 mbufs device batch_size now c (nf_dst_device (nf (sys_cores s c))) (sys_manager s) log (sys_world s) =
      Some (l, w) ->
    sys_step (Some c) s (System (b_manager l) (<[c := after_batch c l s]> (sys_cores s)) w
      (batch_events c device (@classify_batch B P K S T (nf_of c now) mbufs device batch_size c0) (dst_devices l)
         (Z.to_nat batch_size) ++ sys_events s))
| last_core_runs s w :
    periodic (sys_world s) w ->
    sys_step None s (System (sys_manager s) (sys_cores s) w (sys_events s)).

Definition any_step (s s' : system P K S W) : Prop := exists who, sys_step who s s'.

(** ** What every reachable state is *)

(** What an NF says of its packet sets, by id and state, given what has
    happened, and of a packet, given what happened before it. *)
Context (session_ok : list (event P) -> Z -> K -> S -> Prop) (event_ok : list (event P) -> event P -> Prop).

(** The events [es] come after [past]. *)
Definition events_ok (es past : list (event P)) : Prop :=
  forall later e rest, es = later ++ e :: rest -> event_ok (rest ++ past) e.

(** Each packet of the batch has been classified. *)
Definition classified (c now device : Z) (cls : batch_class P K) (batch_size : Z) : Prop :=
  forall n, 0 <= n < batch_size ->
  (pkt_class cls n, pkt_set_id cls n, has_pkt_set_state cls n) =
    @nf_pkt_dispatcher B P K S T (nf_of c now) (packet cls n) device.

(** For every batch, of packet sets that are as the NF says, there is
    something that the handlers' runs keep and that makes the events and the
    packet sets after the batch as the NF says. *)
Record nf_invariant : Prop := {
  inv_later es past c k st : session_ok past c k st -> session_ok (es ++ past) c k st;
  inv_batch past c now device cls batch_size before : 0 <= c < N -> 0 < batch_size ->
    (forall x, x ∈ before -> session_ok past c (s_id x) (s_state x)) ->
    classified c now device cls batch_size ->
    exists TI J D,
      nf_keeps (W := W) (H0 := nf_of c now) N (handlers_of c now) c c device cls batch_size before TI J D /\
      (forall x, x ∈ before -> J (s_id x) (s_state x)) /\
      forall dst, (forall n, 0 <= n < batch_size -> if parse_res cls n then D n (dst n) else dst n = device) ->
        let es := batch_events c device cls dst (Z.to_nat batch_size) in
        events_ok es past /\ forall k st, J k st -> session_ok (es ++ past) c k st
}.

(** The table of packet sets, and what is known of it. *)
Record sys_ok (s : system P K S W) (abs : Z -> list (session K S)) : Prop := {
  so_rep : pkt_rep khash N MAX (sys_manager s) abs;
  so_related : has_related_pkt_sets (sys_manager s) = false;
  so_sessions c x : x ∈ abs c -> session_ok (sys_events s) c (s_id x) (s_state x);
  so_events : events_ok (sys_events s) []
}.

Lemma events_ok_app es past : events_ok past [] -> events_ok es past -> events_ok (es ++ past) [].
Proof.
  intros Hp He later e rest E. symmetry in E. apply app_eq_inv in E as [(k & -> & ->)|(k & -> & E)].
  - by apply (Hp k).
  - rewrite app_nil_r. destruct k as [|x k]; cbn in E.
    + pose proof (Hp [] e rest) as He'. rewrite app_nil_r in He'. by apply He'.
    + injection E as <- ->. by apply (He later).
Qed.

Hypotheses (Heq : forall k k', keys_eq k k' = true <-> k = k') (HN : 0 < N <= MAX).
Hypothesis Hinv : nf_invariant.

(** A step changes the packet sets of the core that takes it. *)
Definition sys_moves (who : option Z) (abs abs' : Z -> list (session K S)) : Prop :=
  match who with
  | Some c => 0 <= c < N /\ exists l, abs' = <[c := l]> abs
  | None => abs' = abs
  end.

(** After packets on core [c]. *)
Lemma packets_ok s c now device cls batch_size dst g cores w abs :
  sys_ok s abs -> 0 <= c < N -> 0 < batch_size -> classified c now device cls batch_size ->
  (forall TI J D,
     nf_keeps (W := W) (H0 := nf_of c now) N (handlers_of c now) c c device cls batch_size (abs c) TI J D ->
     (forall x, x ∈ abs c -> J (s_id x) (s_state x)) ->
     (exists ss, kept khash N MAX c J abs g ss) /\
     forall n, 0 <= n < batch_size -> if parse_res cls n then D n (dst n) else dst n = device) ->
  exists abs', sys_moves (Some c) abs abs' /\
    sys_ok (System g cores w (batch_events c device cls dst (Z.to_nat batch_size) ++ sys_events s)) abs'.
Proof using Hinv.
  intros [Hr Hrel Hs He] Hc Hb Hcls Hrun.
  destruct (inv_batch Hinv (sys_events s) c now device cls batch_size (abs c) Hc Hb) as (TI & J & D & Hk & HJ & Hafter);
    [intros x; apply Hs|done|].
  destruct (Hrun TI J D Hk HJ) as [[ss [Hr' Hrel' _ Hss]] Hd]. destruct (Hafter dst Hd) as [Hes Hst].
  exists (<[c := ss]> abs). split; [split; [done|by exists ss]|]. split; cbn; [done..| |by apply events_ok_app].
  intros d x. rewrite fn_insert_dec. destruct (decide (c = d)) as [<-|].
  - intros Hx. by apply Hst, Hss.
  - intros Hx. by apply (inv_later Hinv), Hs.
Qed.

Lemma sys_step_ok who s s' abs : sys_ok s abs -> sys_step who s s' ->
  exists abs', sys_moves who abs abs' /\ sys_ok s' abs'.
Proof using Hinv Heq HN.
  intros Hok. pose proof Hok as [Hr Hrel Hs He].
  destruct 1 as [c now fuel s g w Hc Hf E|c now fuel uninit device buffer len s dst l w Hbt Hc Hf E r
    |c now fuel uninit device mbufs batch_size c0 ptr0 reg0 log s l w Hbt Hc Hf Hb E|s w _].
  - unfold expire_round in E. destruct do_expiration.
    + destruct (delete_expired_pkt_sets _ _ _ _ _ _ _ _ _ _ _) as [[count [g1 w1]]|] eqn:Ed; [|done].
      injection E as -> ->. unfold delete_expired_pkt_sets in Ed.
      apply (expire_loop_kept keys_eq khash N MAX Heq HN _ _ _ _ _ _ _ _ _ _ abs c Hc Hf Hr) in Ed
        as (gone & kept & Ea & Hr' & Hrel' & _).
      exists (<[c := kept]> abs). split; [split; [done|by exists kept]|]. split; cbn; [done|congruence| |done].
      intros d x. rewrite fn_insert_dec. destruct (decide (c = d)) as [<-|]; [|by apply Hs].
      intros Hx. apply Hs. rewrite Ea. apply elem_of_app. by right.
    + injection E as <- <-. exists (<[c := abs c]> abs). split; [split; [done|by exists (abs c)]|].
      split; cbn; [|done| |done].
      * eapply pkt_rep_ext; [|exact Hr]. intros d. clear. fcases; done.
      * intros d x. fcase; apply Hs.
  - destruct (@nf_pkt_dispatcher B P K S T (nf_of c now) r.2 device) as [[class k] has] eqn:Ed.
    apply (packets_ok s c now device (one_packet device r.2 k r.1 has class) 1 (fun _ => dst)); [done..| |].
    { intros n _. cbn. by rewrite Ed. }
    intros TI J D Hk HJ.
    pose proof (process_pkt_keeps (H0 := nf_of c now) keys_eq khash N MAX (handlers_of c now) c c device now TI J D Heq HN Hc
      abs fuel uninit buffer len (load c s) (sys_world s) dst l w) as Hp. cbv zeta in Hp.
    change (nf_packet (nf (load c s))) with (nf_packet (nf (sys_cores s c))) in Hp. fold r in Hp.
    rewrite Ed in Hp. destruct (Hp Hf Hk Hr Hrel HJ E) as [Hkept Hd]. split; [done|]. intros n Hn. by replace n with 0 by lia.
  - apply (packets_ok s c now device _ batch_size (dst_devices l)); [done..| |].
    { intros n Hn. destruct (classify_spec (H := nf_of c now) mbufs device batch_size c0 n Hn) as (_ & -> & -> & _). done. }
    intros TI J D Hk HJ.
    by apply (process_pkt_batch_keeps (H0 := nf_of c now) keys_eq khash N MAX (handlers_of c now) c c device now TI J D Heq HN Hc
      abs fuel uninit c0 ptr0 reg0 mbufs batch_size (nf_dst_device (nf (sys_cores s c))) (sys_manager s) log (sys_world s)
      l w Hf Hk Hr Hrel HJ).
  - by exists abs.
Qed.

(** What init_pkt_set_manager leaves, before any packet. *)
Definition initial (s : system P K S W) : Prop :=
  pkt_rep khash N MAX (sys_manager s) (fun _ => []) /\ has_related_pkt_sets (sys_manager s) = false /\ sys_events s = [].

Lemma initial_ok s : initial s -> sys_ok s (fun _ => []).
Proof.
  intros (Hr & Hrel & He). split; [done|done| |].
  - by intros c x ?%not_elem_of_nil.
  - rewrite He. by intros [|].
Qed.

Lemma reachable_ok s0 s : initial s0 -> rtc any_step s0 s -> exists abs, sys_ok s abs.
Proof using Hinv Heq HN.
  intros Hi Hs. revert s Hs. apply rtc_ind_r; [eexists; by apply initial_ok|].
  intros s s' _ [who Hstep] [abs Ha]. destruct (sys_step_ok who s s' abs Ha Hstep) as (abs' & _ & Ha'). eauto.
Qed.
End system.

(** An NF whose handlers keep the interface of nf.h has this invariant, of
    which nothing is asked. *)
Lemma trivial_invariant {B P K S W T} `{RluRuntime W T} `{Countable K} (nf_of : Z -> Z -> NfHandlers B P K S T)
    (handlers_of : Z -> Z -> Z -> pkt_handler_t P K S T) (N : Z) :
  (forall c now, 0 <= c < N -> nf_contract (H0 := nf_of c now) N true (handlers_of c now) c c) ->
  nf_invariant (W := W) nf_of handlers_of N (fun _ _ _ _ => True) (fun _ _ => True).
Proof.
  intros Hnf. split; [done|]. intros past c now device cls batch_size before Hc _ _ _.
  exists (fun _ => True), (fun _ _ => True), (fun _ _ => True). split; [|done].
  apply (contract_keeps (H0 := nf_of c now)). by apply Hnf.
Qed.

(** ** Executing steps *)

(** A batch for a core: its buffers and their lengths. *)
Record arrival (B : Type) := Arrival {
  ar_core : Z; ar_device : Z; ar_now : Z; ar_first : B * Z; ar_rest : list (B * Z)
}.
Arguments Arrival {B} _ _ _ _ _.
Arguments ar_core {B} _.
Arguments ar_device {B} _.
Arguments ar_now {B} _.
Arguments ar_first {B} _.
Arguments ar_rest {B} _.

Section run.
Context {B P K S W T : Type} `{RluRuntime W T} `{Countable K}.
Context (nf_of : Z -> Z -> NfHandlers B P K S T) (handlers_of : Z -> Z -> Z -> pkt_handler_t P K S T).
Context (keys_eq : K -> K -> bool) (khash : K -> Z) (N MAX : Z) (fuel : nat).
Context (c0 : batch_class P K) (log : pkt_set_state_log_t S).

Definition run_batch (a : arrival B) (s : system P K S W) : option (system P K S W) :=
  let c := ar_core a in let nfs := nf_of c (ar_now a) in
  let mbufs n := nth (Z.to_nat n) (ar_first a :: ar_rest a) (ar_first a) in
  let size := Z.of_nat (length (ar_first a :: ar_rest a)) in
  match @process_pkt_batch B P K S W T _ nfs keys_eq khash N MAX false (handlers_of c (ar_now a)) fuel 0 c
          c0 (fun _ => 0) false mbufs (ar_device a) size (ar_now a) c (nf_dst_device (nf (sys_cores s c)))
          (sys_manager s) log (sys_world s) with
  | None => None
  | Some (l, w) =>
      Some (System (b_manager l) (<[c := after_batch c l s]> (sys_cores s)) w
        (batch_events c (ar_device a) (@classify_batch B P K S T nfs mbufs (ar_device a) size c0) (dst_devices l)
           (Z.to_nat size) ++ sys_events s))
  end.

Fixpoint run_batches (l : list (arrival B)) (s : system P K S W) : option (system P K S W) :=
  match l with
  | [] => Some s
  | a :: l => match run_batch a s with Some s => run_batches l s | None => None end
  end.

Lemma run_batches_reach do_expiration nf_expired periodic l : forall s s',
  2 * MAX <= Z.of_nat fuel -> Forall (fun a => 0 <= ar_core a < N) l -> run_batches l s = Some s' ->
  rtc (any_step nf_of handlers_of keys_eq khash N MAX true do_expiration nf_expired periodic) s s'.
Proof.
  intros s s' Hf Hl. revert s. induction Hl as [|a l Ha _ IH]; intros s; cbn [run_batches].
  - intros [= <-]. done.
  - destruct (run_batch a s) as [s1|] eqn:E; [|done]. intros Hs. apply rtc_l with s1; [|by apply IH].
    unfold run_batch in E.
    match type of E with (match ?r with _ => _ end) = _ => destruct r as [[l1 w1]|] eqn:Ep; [|done] end.
    injection E as <-. eexists. by eapply core_processes_batch.
Qed.
End run.

(** ** Property *)

(** C3: the packet sets of an NF in every state that its data-plane cores
    reach after the manager's initialisation, taking turns in any order
    between batches, or packets, and expiry rounds while the periodic handler
    runs: the manager is well formed and represents a table of packet sets
    for every core; an index within its bounds belongs to one packet set of
    one core, and an id to at most one packet set of a core; and a step of
    core [c] changes no packet set but those of [c], a step of the periodic
    handler none. *)
Theorem packet_sets_invariant {B P K S W T} `{RluRuntime W T} `{Countable K}
    (nf_of : Z -> Z -> NfHandlers B P K S T) (handlers_of : Z -> Z -> Z -> pkt_handler_t P K S T)
    (keys_eq : K -> K -> bool) (khash : K -> Z) (N MAX : Z) (batching do_expiration : bool)
    (nf_expired : M (S * T) unit) (periodic : W -> W -> Prop) (fuel : nat)
    (memory : (Z -> concurrent_dchain_cell K) * (Z -> Z) * (Z -> S))
    (log0 : Z -> add_pkt_set_log_entry_t K S) (validity : Z) (g0 : pkt_set_manager K S)
    (cores : Z -> core_mem P K S) (w0 : W) (s : system P K S W)
    (Heq : forall k k', keys_eq k k' = true <-> k = k') (HN : 0 < N <= MAX) (Hmax : MAX <= 2 ^ 27)
    (Hnf : forall c now, 0 <= c < N -> nf_contract (H0 := nf_of c now) N true (handlers_of c now) c c)
    (Hfuel : MAX <= Z.of_nat fuel)
    (Hinit : init_pkt_set_manager N MAX fuel true true true memory log0 validity false = Some (Some g0))
    (Hreach : rtc (any_step nf_of handlers_of keys_eq khash N MAX batching do_expiration nf_expired periodic)
                (System g0 cores w0 []) s) :
  exists abs, pkt_rep khash N MAX (sys_manager s) abs /\
    (forall c x, x ∈ abs c -> 0 <= c < N /\ 0 <= s_index x < N * (MAX / N)) /\
    (forall c d x y, x ∈ abs c -> y ∈ abs d -> s_index x = s_index y -> c = d /\ x = y) /\
    (forall c x y, x ∈ abs c -> y ∈ abs c -> s_id x = s_id y -> x = y) /\
    forall who s', sys_step nf_of handlers_of keys_eq khash N MAX batching do_expiration nf_expired periodic who s s' ->
      exists abs', pkt_rep khash N MAX (sys_manager s') abs' /\
      forall d, who <> Some d -> abs' d = abs d.
Proof.
  destruct (init_spec khash N MAX HN fuel memory log0 validity false Hmax Hfuel) as (g & E & Hr & Hrel & _).
  rewrite Hinit in E. injection E as <-. pose proof (trivial_invariant (W := W) nf_of handlers_of N Hnf) as Hinv.
  destruct (reachable_ok nf_of handlers_of keys_eq khash N MAX batching do_expiration nf_expired periodic _ _ Heq HN
    Hinv (System g0 cores w0 []) s ltac:(by split) Hreach) as (abs & Hok). pose proof (so_rep _ _ _ _ _ _ _ Hok) as Ha.
  exists abs. split; [done|]. split; [|split; [|split]].
  - intros c x Hx. split; [by eapply session_core|by eapply (session_range khash N MAX)].
  - intros c d x y. by eapply (session_unique khash N MAX).
  - intros c x y. by eapply (session_named_once khash N MAX).
  - intros who s' Hstep. destruct (sys_step_ok nf_of handlers_of keys_eq khash N MAX batching do_expiration nf_expired periodic _ _
      Heq HN Hinv who s s' abs Hok Hstep) as (abs' & Hm & [Hr' _ _ _]). exists abs'. split; [done|]. intros d Hd.
    destruct who as [c|]; cbn in Hm; [|by subst]. destruct Hm as [_ [l ->]]. rewrite fn_lookup_insert_ne; [done|congruence].
Qed.

(** ** Witness: two cores, three packets of two packet sets *)

#[local] Existing Instances ex_runtime ex_nf.

Definition ex_system : system Z Z Z Z := System ex_manager (fun _ => ex_core ex_manager) 4 [].
(** The NF of DataPlane.v, on core [c] of two. *)
#[local] Instance ex_nf_of (c : Z) : NfHandlers Z Z Z Z Z :=
  {| set_len := fun _ p => p;
     nf_pkt_parser := fun b _ _ => (negb (b =? 0), b);
     nf_pkt_dispatcher := fun p _ => (0, p, 0 <? p);
     nf_unknown_pkt_set_handler := fun _ k '(m, t) =>
       (Some tt, (NfMem (nf_packet m) 1 (add_pkt_set_log 2 c 1 c None (nf_manager m)).2, t)) |}.

Lemma ex_nf_of_contract c : nf_contract (H0 := ex_nf_of c) 2 true ex_count c c.
Proof.
  split.
  - by intros class dev k m t r m' t' [= <- <- <-].
  - intros class dev i k m t r m' t' [= <- <- <-]. right. eexists. by split.
  - intros dev k m t r m' t' [= <- <- <-]. right. eauto.
Qed.

(** A batch of core 0, with a packet that is not supported, and one of core 1. *)
Definition ex_arrivals : list (arrival Z) := [Arrival 0 0 9 (12, 60) [(0, 60); (12, 60)]; Arrival 1 0 9 (13, 60) []].
Definition ex_class : batch_class Z Z :=
  BatchClass (fun _ => 0) (fun _ => 0) (fun _ => false) (fun _ => false) (fun _ => 0) (fun _ => 0).
Definition ex_state_log : pkt_set_state_log_t Z := StateLog 0 (fun _ => 0) (fun _ => 0).
Abbreviation ex_run :=
  (run_batches (fun c _ => ex_nf_of c) (fun _ _ => ex_count) Z.eqb (fun k => k) 2 4 8 ex_class ex_state_log ex_arrivals ex_system).
Definition ex_final : system Z Z Z Z := default ex_system ex_run.

Lemma ex_final_run : ex_run = Some ex_final.
Proof.
  unfold ex_final. destruct ex_run as [s|] eqn:E; [done|].
  exfalso. apply (f_equal (fun r => match r with Some _ => true | None => false end)) in E. vm_compute in E. discriminate E.
Qed.

Lemma packet_sets_invariant_witness :
  (ev_packet <$> sys_events ex_final) = [13; 12; 0; 12] /\ (ev_dst <$> sys_events ex_final) = [1; 1; 0; 1] /\
  exists abs, pkt_rep (fun k => k) 2 4 (sys_manager ex_final) abs /\
    forall c x y, x ∈ abs c -> y ∈ abs c -> s_id x = s_id y -> x = y.
Proof.
  split; [vm_compute; reflexivity|]. split; [vm_compute; reflexivity|].
  assert (init_pkt_set_manager 2 4 4 true true true ex_pkt_memory (fun _ => LogEntry false 0 0) 5 false = Some (Some ex_manager)) as Ei.
  { unfold ex_manager. destruct (init_spec (fun k : Z => k) 2 4 ltac:(lia) 4 ex_pkt_memory (fun _ => LogEntry false 0 0)
      5 false ltac:(lia) ltac:(lia)) as (g & E & _). by rewrite E. }
  assert (rtc (any_step (fun c _ => ex_nf_of c) (fun _ _ => ex_count) Z.eqb (fun k => k) 2 4 true true
    (fun s => (Some tt, s)) eq) ex_system ex_final) as Hs.
  { apply (run_batches_reach (fun c _ => ex_nf_of c) (fun _ _ => ex_count) Z.eqb (fun k => k) 2 4 8 ex_class ex_state_log true
      (fun s => (Some tt, s)) eq ex_arrivals ex_system ex_final ltac:(lia)); [|exact ex_final_run].
    unfold ex_arrivals. repeat constructor; cbn; lia. }
  destruct (packet_sets_invariant (fun c _ => ex_nf_of c) (fun _ _ => ex_count) Z.eqb (fun k => k) 2 4 true true
    (fun s => (Some tt, s)) eq 4 ex_pkt_memory (fun _ => LogEntry false 0 0) 5 ex_manager (fun _ => ex_core ex_manager) 4
    ex_final ltac:(intros; apply Z.eqb_eq) ltac:(lia) ltac:(lia)
    (fun c _ _ => ex_nf_of_contract c) ltac:(lia) Ei Hs) as (abs & Hr & _ & _ & Hn & _).
  exists abs. by split.
Defined.
