(* ===== verification/FwSystem.v ===== *)
(** * The firewall over all cores

    What the firewall (Firewall.v) promises for every interleaving of its
    cores (System.v): nothing from outside gets in unless it answers a packet
    that has gone out through the same core.  The firewall's build processes
    batches (nf/fw/nf_nfos_config.h) and does not declare its packet-set
    state mutable, although its handler writes it: what an aborted run has
    written is kept. *)

From stdpp Require Import gmap relations.
From S2P Require Import Prelude Ether Rlu Txn NfosMap Links ConcDchain ConcMap PktSet DataPlane BatchPlane NfCommon NfMain System Mtrie LoadBalance Firewall.
Open Scope Z_scope.

(** [q] is addressed to where [p] comes from. *)
Definition answers {B} (p q : pkt_t B) : Prop :=
  src_addr (ipv4 p) = dst_addr (ipv4 q) /\ dst_addr (ipv4 p) = src_addr (ipv4 q) /\
  src_port (tcpudp p) = dst_port (tcpudp q) /\ dst_port (tcpudp p) = src_port (tcpudp q) /\
  next_proto_id (ipv4 p) = next_proto_id (ipv4 q).

Section firewall.
Context {T B W : Type} `{RluRuntime W T} `{!PacketIo B} (st : nf_state T) (N : Z).
Abbreviation P := (pkt_t B).
Abbreviation flow_id p dev := (nf_pkt_dispatcher st p dev).1.2.

Lemma dispatch_answers (p q : P) lan : lan <> wan_device (cfg st) ->
  flow_id p lan = flow_id q (wan_device (cfg st)) -> answers p q.
Proof.
  intros Hl. unfold nf_pkt_dispatcher, answers. rewrite (proj2 (Z.eqb_neq _ _) Hl), Z.eqb_refl. cbn.
  intros [= -> -> -> -> ->]. auto.
Qed.

(** A flow of core [c] was opened by a packet from inside. *)
Definition fw_session (past : list (event P)) (c : Z) (k : pkt_set_id_t) (x : pkt_set_state_t) : Prop :=
  exists e, e ∈ past /\ ev_core e = c /\ ev_supported e = true /\ ev_device e <> wan_device (cfg st) /\
    k = flow_id (ev_packet e) (ev_device e) /\ internal_device x = ev_device e.

(** A packet from outside is dropped, or answers one from inside, which it
    follows to its device. *)
Definition solicited (past : list (event P)) (e : event P) : Prop :=
  ev_device e = wan_device (cfg st) ->
  ev_dst e = ev_device e \/
  ev_supported e = true /\ exists o, o ∈ past /\ ev_core o = ev_core e /\ ev_supported o = true /\
    ev_device o <> wan_device (cfg st) /\ ev_dst e = ev_device o /\ answers (ev_packet o) (ev_packet e).

(** What the runs of a batch's handlers keep. *)
Section batch.
Context (past : list (event P)) (c device : Z) (cls : batch_class P pkt_set_id_t) (batch_size : Z).

(** A flow was opened before the batch, or by a packet of it. *)
Definition fw_flow (k : pkt_set_id_t) (x : pkt_set_state_t) : Prop :=
  fw_session past c k x \/
  device <> wan_device (cfg st) /\ internal_device x = device /\
    exists n, in_batch cls batch_size n /\ k = flow_id (packet cls n) device.

Definition fw_sent (n dst : Z) : Prop := solicited past (Event c device true (packet cls n) dst).

Lemma fw_keeps before now : classified (fun c _ => fw_nf st N c c) c now device cls batch_size ->
  nf_keeps (W := W) (H0 := fw_nf st N c c) N (fw_handlers st) c c device cls batch_size before
    (fun _ => True) fw_flow fw_sent.
Proof.
  intros Hcls.
  assert (forall n, in_batch cls batch_size n -> pkt_set_id cls n = flow_id (packet cls n) device) as Hid.
  { intros n [Hn _]. specialize (Hcls n Hn). cbn in Hcls. rewrite <- Hcls. done. }
  split; try done.
  - intros n _ _. by left.
  - intros n m t r m' t' _ _ _ Hd [= _ <- _]. done.
  - intros n i m t r m' t' k Hhas Hn _ Hd HJ (a & E)%run_ret.
    pose proof (handler_manager st device i m t a m' t' E) as Em.
    assert (internal_device (pkt_set_state (nf_manager m') i) = internal_device (pkt_set_state (nf_manager m) i)) as Hdev.
    { rewrite Em. cbn. by rewrite fn_lookup_insert, track_internal. }
    split; [right; eauto|]. split; [unfold fw_flow, fw_session; by rewrite Hdev|]. split; [done|].
    intros Hw. cbn in Hw. right. split; [done|]. pose proof (f_equal snd E) as E2. rewrite Hw, handler_wan in E2.
    injection E2 as <- _. cbn [set_dst_device nf_dst_device ev_dst ev_core ev_packet].
    destruct HJ as [(o & Ho & Hoc & Hos & Hod & Hoid & Hoi)|[Hne _]]; [|done].
    exists o. rewrite track_internal. repeat (split; [done|]). unfold k in Hoid. rewrite (Hid n Hn), Hw in Hoid.
    by eapply dispatch_answers.
  - intros n m t r m' t' k Hhas Hn _ Hd _ (a & E)%run_ret.
    destruct (decide (device = wan_device (cfg st))) as [Hw|Hw].
    + rewrite Hw, unknown_wan in E. injection E as _ <- _. split; [by left|done].
    + split; [|by intros ?]. apply unknown_manager in E as [?|[_ E]]; [by left|]. right. eexists _, None.
      split; [exact E|]. right. split; [done|]. split; [done|]. exists n. split; [done|by apply Hid].
Qed.
End batch.

Lemma fw_invariant :
  nf_invariant (W := W) (fun c _ => fw_nf st N c c) (fun _ _ => fw_handlers st) N fw_session solicited.
Proof.
  split.
  - intros es past c k x (o & Ho & ?). exists o. split; [apply elem_of_app; by right|done].
  - intros past c now device cls batch_size before Hc Hb Hs Hcls.
    exists (fun _ => True), (fw_flow past c device cls batch_size), (fw_sent past c device cls).
    split; [by apply fw_keeps with now|]. split; [intros x Hx; by left; apply Hs|]. intros dst Hd. split.
    + intros later e rest E. assert (e ∈ batch_events c device cls dst (Z.to_nat batch_size)) as (n & Hn & ->)%batch_events_in.
      { rewrite E, elem_of_app, elem_of_cons. auto. }
      specialize (Hd n ltac:(lia)). intros Hw. destruct (parse_res cls n) eqn:Hp; [|by left].
      destruct (Hd Hw) as [?|(_ & o & Ho & ?)]; [by left|]. right. split; [done|]. exists o.
      split; [apply elem_of_app; by right|done].
    + intros k x [(o & Ho & ?)|(Hne & Hx & n & [Hn Hp] & Hk)].
      * exists o. split; [apply elem_of_app; by right|done].
      * exists (Event c device true (packet cls n) (dst n)). split; [|done]. apply elem_of_app. left. apply batch_events_in.
        exists n. split; [lia|by rewrite Hp].
Qed.
End firewall.

(** ** Property *)

(** C1: the firewall in every state its cores reach after initialisation, for
    any number of batches and expiry rounds in any order, in its build (with
    PKT_PROCESS_BATCHING, without MUTABLE_PKT_SET_STATE): every packet that
    came from outside was dropped or answered an earlier packet from inside,
    of the same core, and was then sent to the device that one came in on;
    and every flow in the table was opened by a packet from inside. *)
Theorem fw_no_unsolicited {T B W} `{RluRuntime W T} `{!PacketIo B} (st : nf_state T)
    (khash : pkt_set_id_t -> Z) (N MAX : Z) (do_expiration : bool) (nf_expired : M (pkt_set_state_t * T) unit)
    (periodic : W -> W -> Prop) (s0 s : system (pkt_t B) pkt_set_id_t pkt_set_state_t W)
    (HN : 0 < N <= MAX) (H0 : initial khash N MAX s0)
    (Hreach : rtc (any_step (fun c _ => fw_nf st N c c) (fun _ _ => fw_handlers st) pkt_set_id_eq khash N MAX true
                     do_expiration nf_expired periodic) s0 s) :
  (forall later e past, sys_events s = later ++ e :: past -> solicited st past e) /\
  exists abs, pkt_rep khash N MAX (sys_manager s) abs /\
    forall c x, x ∈ abs c -> fw_session st (sys_events s) c (s_id x) (s_state x).
Proof.
  destruct (reachable_ok (fun c _ => fw_nf st N c c) (fun _ _ => fw_handlers st) pkt_set_id_eq khash N MAX true
    do_expiration nf_expired periodic (fw_session st) (solicited st) pkt_set_id_eq_spec HN
    (fw_invariant st N) s0 s H0 Hreach) as (abs & [Hr _ Hs He]).
  split; [|by exists abs]. intros later e past E. specialize (He later e past E). by rewrite app_nil_r in He.
Qed.

(** ** Witness: two cores; replies, and a packet on the wrong core *)

#[local] Existing Instance ex_fw_runtime.
Definition ex_fw_system : system (pkt_t ex_frame) pkt_set_id_t pkt_set_state_t Z :=
  System ex_fw_manager (fun _ => ex_fw_core) 0 [].
Definition ex_fw_arrivals : list (arrival ex_frame) :=
  [Arrival 0 1 9 (ex_frame_in, 60) []; Arrival 0 0 9 (ex_frame_out, 60) [(ex_frame_out, 60)];
   Arrival 1 1 9 (ex_frame_in, 60) []; Arrival 0 1 9 (ex_frame_in, 60) [(ex_frame_in, 60)]].
Definition ex_fw_class : batch_class (pkt_t ex_frame) pkt_set_id_t :=
  BatchClass (fun _ => ex_packet ex_frame_out) (fun _ => ex_flow) (fun _ => false) (fun _ => false) (fun _ => 0) (fun _ => 0).
Definition ex_fw_state_log : pkt_set_state_log_t pkt_set_state_t :=
  StateLog 0 (fun _ => FwState 0 (TcpFlag 0 0)) (fun _ => 0).
Abbreviation ex_fw_run :=
  (run_batches (fun c _ => fw_nf ex_outside 2 c c) (fun _ _ => fw_handlers ex_outside)
    pkt_set_id_eq ex_fw_hash 2 4 8 ex_fw_class ex_fw_state_log ex_fw_arrivals ex_fw_system).
Definition ex_fw_end : system (pkt_t ex_frame) pkt_set_id_t pkt_set_state_t Z := default ex_fw_system ex_fw_run.

Lemma ex_fw_run_ends : ex_fw_run = Some ex_fw_end.
Proof.
  unfold ex_fw_end. destruct ex_fw_run as [s|] eqn:E; [reflexivity|].
  exfalso. apply (f_equal (fun r => match r with Some _ => true | None => false end)) in E. vm_compute in E. discriminate E.
Qed.

(** Dropped from outside; two out; dropped on the other core; two in, to
    device 0. *)
Lemma fw_no_unsolicited_witness :
  (ev_dst <$> sys_events ex_fw_end) = [0; 0; 1; 1; 1; 1] /\
  forall later e past, sys_events ex_fw_end = later ++ e :: past -> solicited ex_outside past e.
Proof.
  split; [vm_compute; reflexivity|].
  assert (initial ex_fw_hash 2 4 ex_fw_system) as H0 by (split; [apply ex_fw_rep|split; [apply ex_fw_rep|done]]).
  assert (rtc (any_step (fun c _ => fw_nf ex_outside 2 c c) (fun _ _ => fw_handlers ex_outside) pkt_set_id_eq ex_fw_hash
    2 4 true true (fun s => (Some tt, s)) eq) ex_fw_system ex_fw_end) as Hs.
  { apply (run_batches_reach (fun c _ => fw_nf ex_outside 2 c c) (fun _ _ => fw_handlers ex_outside) pkt_set_id_eq
      ex_fw_hash 2 4 8 ex_fw_class ex_fw_state_log true (fun s => (Some tt, s)) eq ex_fw_arrivals ex_fw_system ex_fw_end ltac:(lia));
      [|exact ex_fw_run_ends]. unfold ex_fw_arrivals. repeat constructor; cbn; lia. }
  exact (proj1 (fw_no_unsolicited ex_outside ex_fw_hash 2 4 true (fun s => (Some tt, s)) eq ex_fw_system ex_fw_end
    ltac:(lia) H0 Hs)).
Defined.
