(* ===== verification/Bst.v ===== *)
(** * The partition trees of the load balancer of cores

    src/deps/vigor/nf-lb/bst.c and bst.h: for every core a binary search tree
    of its flow partitions, by offered load; the nodes' links are in the
    array of partitions.  [fuel] bounds the depth that is walked. *)

From S2P Require Import Prelude.
Open Scope Z_scope.

(** ** bst.h *)

Record partition := Partition {
  offered_load : Z;
  p_core : Z;
  left : Z;
  right : Z
}.

Record core := Core {
  c_offered_load : Z;
  root_partition : Z;
  ind : Z
}.

Definition set_left (x : Z) (p : partition) : partition := Partition (offered_load p) (p_core p) x (right p).
Definition set_right (x : Z) (p : partition) : partition := Partition (offered_load p) (p_core p) (left p) x.
Definition set_root (x : Z) (c : core) : core := Core (c_offered_load c) x (ind c).

(** ** bst.c *)

Implicit Types (ps : Z -> partition) (c : core).

(** while (1) *)
Fixpoint insert_loop (fuel : nat) ps (root i : Z) : option (Z -> partition) :=
  match fuel with
  | O => None
  | S fuel =>
      if offered_load (ps i) >=? offered_load (ps root) then
        let next := right (ps root) in
        if next >=? 0 then insert_loop fuel ps next i
        else Some (<[root := set_right i (ps root)]> ps)
      else
        let next := left (ps root) in
        if next >=? 0 then insert_loop fuel ps next i
        else Some (<[root := set_left i (ps root)]> ps)
  end.

Definition insert (fuel : nat) ps c (i : Z) : option ((Z -> partition) * core) :=
  let root := root_partition c in
  if offered_load (ps i) <=? 0 then Some (ps, c)
  else
    let ps := <[i := set_left (-1) (ps i)]> ps in
    let ps := <[i := set_right (-1) (ps i)]> ps in
    if root <? 0 then Some (ps, set_root i c)
    else match insert_loop fuel ps root i with
         | Some ps => Some (ps, c)
         | None => None
         end.

Fixpoint search_loop (fuel : nat) ps (root load ret smallest : Z) : option Z :=
  if root >=? 0 then
    match fuel with
    | O => None
    | S fuel =>
        if offered_load (ps root) =? load then Some root
        else if offered_load (ps root) <? load then search_loop fuel ps (right (ps root)) load root smallest
        else search_loop fuel ps (left (ps root)) load ret root
    end
  else Some (if ret >=? 0 then ret else smallest).

Definition search (fuel : nat) ps c (load : Z) : option Z :=
  search_loop fuel ps (root_partition c) load (-1) (-1).

(** The parent of [i], and whether [i] is its left child. *)
Fixpoint find_parent (fuel : nat) ps (root parent : Z) (is_left : bool) (i load : Z) : option (Z * bool) :=
  if root >=? 0 then
    match fuel with
    | O => None
    | S fuel =>
        if i =? root then Some (parent, is_left)
        else if offered_load (ps root) >? load then find_parent fuel ps (left (ps root)) root true i load
        else find_parent fuel ps (right (ps root)) root false i load
    end
  else Some (parent, is_left).

(** The in-order successor below [successor], and its parent. *)
Fixpoint find_successor (fuel : nat) ps (succ_parent successor : Z) : option (Z * Z) :=
  if left (ps successor) >=? 0 then
    match fuel with
    | O => None
    | S fuel => find_successor fuel ps successor (left (ps successor))
    end
  else Some (succ_parent, successor).

(** [x] takes the place of a child of [parent]. *)
Definition set_child (parent : Z) (is_left : bool) (x : Z) (s : (Z -> partition) * core) : (Z -> partition) * core :=
  let (ps, c) := s in
  if parent <? 0 then (ps, set_root x c)
  else if is_left then (<[parent := set_left x (ps parent)]> ps, c)
  else (<[parent := set_right x (ps parent)]> ps, c).

(** The successor takes over the children of [i]. *)
Definition move_successor ps (i succ_parent successor : Z) : Z -> partition :=
  if succ_parent =? i then <[successor := set_left (left (ps i)) (ps successor)]> ps
  else
    let ps := <[succ_parent := set_left (right (ps successor)) (ps succ_parent)]> ps in
    let ps := <[successor := set_left (left (ps i)) (ps successor)]> ps in
    <[successor := set_right (right (ps i)) (ps successor)]> ps.

Definition delete (fuel : nat) ps c (i : Z) : option (Z * ((Z -> partition) * core)) :=
  let root := root_partition c in
  if root <? 0 then Some (1, (ps, c))
  else
    match find_parent fuel ps root (-1) false i (offered_load (ps i)) with
    | None => None
    | Some (parent, is_left) =>
        if left (ps i) <? 0 then Some (0, set_child parent is_left (right (ps i)) (ps, c))
        else if right (ps i) <? 0 then Some (0, set_child parent is_left (left (ps i)) (ps, c))
        else
          match find_successor fuel ps i (right (ps i)) with
          | None => None
          | Some (succ_parent, successor) =>
              Some (0, set_child parent is_left successor (move_successor ps i succ_parent successor, c))
          end
    end.

(** ** The trees *)

Inductive tree := Leaf | Node (l : tree) (i : Z) (r : tree).

Fixpoint inorder (t : tree) : list Z :=
  match t with
  | Leaf => []
  | Node l i r => inorder l ++ i :: inorder r
  end.

Fixpoint height (t : tree) : nat :=
  match t with
  | Leaf => 0
  | Node l _ r => S (height l `max` height r)
  end.

Fixpoint tree_at ps (x : Z) (t : tree) : Prop :=
  match t with
  | Leaf => x < 0
  | Node l i r => x = i /\ 0 <= i /\ tree_at ps (left (ps i)) l /\ tree_at ps (right (ps i)) r
  end.

Lemma elem_of_skip (k i : Z) l1 l2 : k ∈ l1 ++ l2 -> k ∈ l1 ++ i :: l2.
Proof. rewrite !elem_of_app, elem_of_cons. tauto. Qed.

Section loads.
Variable ld : Z -> Z.

(** Smaller to the left, equal or greater to the right. *)
Fixpoint ordered (t : tree) : Prop :=
  match t with
  | Leaf => True
  | Node l i r => (forall j, j ∈ inorder l -> ld j < ld i) /\ (forall j, j ∈ inorder r -> ld i <= ld j) /\
      ordered l /\ ordered r
  end.

Fixpoint tinsert (i : Z) (t : tree) : tree :=
  match t with
  | Leaf => Node Leaf i Leaf
  | Node l j r => if ld i >=? ld j then Node l j (tinsert i r) else Node (tinsert i l) j r
  end.

(** The first node and the rest. *)
Fixpoint tmin (l : tree) (i : Z) (r : tree) : Z * tree :=
  match l with
  | Leaf => (i, r)
  | Node l' j r' => let (m, t) := tmin l' j r' in (m, Node t i r)
  end.

Definition tjoin (l r : tree) : tree :=
  match l, r with
  | Leaf, _ => r
  | _, Leaf => l
  | _, Node r1 j r2 => let (m, t) := tmin r1 j r2 in Node l m t
  end.

Fixpoint tdelete (i : Z) (t : tree) : tree :=
  match t with
  | Leaf => Leaf
  | Node l j r => if i =? j then tjoin l r
                  else if ld j >? ld i then Node (tdelete i l) j r else Node l j (tdelete i r)
  end.

Lemma tinsert_perm i t : inorder (tinsert i t) ≡ₚ i :: inorder t.
Proof.
  induction t as [|l IHl j r IHr]; [done|]. cbn. destruct (ld i >=? ld j); cbn.
  - rewrite IHr. by rewrite <- !Permutation_middle, Permutation_swap.
  - by rewrite IHl.
Qed.

Lemma tinsert_ordered i t : ordered t -> ordered (tinsert i t).
Proof.
  induction t as [|l IHl j r IHr]; cbn.
  - intros _. split; [by intros j ?%not_elem_of_nil|]. split; [by intros j ?%not_elem_of_nil|done].
  - intros (Hl & Hr & Ol & Or). destruct (Z.geb_spec (ld i) (ld j)); cbn.
    + split; [done|]. split; [|by auto]. intros k. rewrite tinsert_perm, elem_of_cons. intros [->|Hk]; [lia|auto].
    + split; [|by auto]. intros k. rewrite tinsert_perm, elem_of_cons. intros [->|Hk]; [lia|auto].
Qed.

Lemma tmin_spec l : forall i r, let (m, t) := tmin l i r in inorder l ++ i :: inorder r = m :: inorder t /\
  (ordered (Node l i r) -> ordered t /\ forall j, j ∈ inorder t -> ld m <= ld j).
Proof.
  induction l as [|l1 IH j l2 _]; intros i r; cbn [tmin inorder].
  - split; [done|]. intros (_ & Hr & _ & Or). by split.
  - specialize (IH j l2). destruct (tmin l1 j l2) as [m t]. destruct IH as [E Ho]. split; [by rewrite E|].
    intros (Hl & Hr & Ol & Or). destruct (Ho Ol) as [Ot Hm]. cbn [inorder] in Hl. rewrite E in Hl.
    split.
    + cbn. split; [|done]. intros k Hk. apply Hl. by right.
    + assert (ld m < ld i) by (apply Hl; left). intros k. cbn. rewrite elem_of_app, elem_of_cons.
      intros [Hk|[->|Hk]]; [by apply Hm|lia|]. specialize (Hr k Hk). lia.
Qed.

Lemma tjoin_spec l i r : inorder (tjoin l r) = inorder l ++ inorder r /\ (ordered (Node l i r) -> ordered (tjoin l r)).
Proof.
  destruct l as [|l1 j l2]; [split; [done|by intros (_ & _ & _ & ?)]|].
  destruct r as [|r1 k r2]; [cbn [tjoin]; split; [by rewrite app_nil_r|by intros (_ & _ & ? & _)]|].
  cbn [tjoin]. pose proof (tmin_spec r1 k r2) as Hm. destruct (tmin r1 k r2) as [m t]. destruct Hm as [E Ho].
  split; [cbn [inorder]; by rewrite E|]. intros (Hl & Hr & Ol & Or). destruct (Ho Or) as [Ot Hm].
  assert (ld i <= ld m) by (apply Hr; cbn [inorder]; rewrite E; left).
  change (ordered (Node (Node l1 j l2) m t)). split; [|by split].
  intros x Hx. specialize (Hl x Hx). lia.
Qed.

Lemma tdelete_spec i t : ordered t -> i ∈ inorder t -> NoDup (inorder t) ->
  ordered (tdelete i t) /\ exists l1 l2, inorder t = l1 ++ i :: l2 /\ inorder (tdelete i t) = l1 ++ l2.
Proof.
  induction t as [|l IHl j r IHr]; intros Ho Hi Hnd; [by apply not_elem_of_nil in Hi|]. cbn [tdelete].
  destruct (Z.eqb_spec i j) as [->|Hne].
  { destruct (tjoin_spec l j r) as [E Hj]. split; [by apply Hj|]. by exists (inorder l), (inorder r). }
  destruct Ho as (Hl & Hr & Ol & Or). cbn [inorder] in Hi, Hnd. rewrite elem_of_app, elem_of_cons in Hi.
  apply NoDup_app in Hnd as (Nl & _ & [_ Nr]%NoDup_cons).
  destruct (Z.gtb_spec (ld j) (ld i)) as [Hlt|Hge].
  - destruct Hi as [Hi|[->|Hi]]; [|lia|specialize (Hr i Hi); lia].
    destruct (IHl Ol Hi Nl) as (Od & l1 & l2 & E & Ed). cbn [inorder ordered]. split.
    + split; [|by split]. intros k Hk. apply Hl. rewrite E. apply elem_of_skip. by rewrite <- Ed.
    + exists l1, (l2 ++ j :: inorder r). rewrite E, Ed. by rewrite <- !app_assoc.
  - destruct Hi as [Hi|[->|Hi]]; [specialize (Hl i Hi); lia|done|].
    destruct (IHr Or Hi Nr) as (Od & l1 & l2 & E & Ed). cbn [inorder ordered]. split.
    + split; [done|]. split; [|by split]. intros k Hk. apply Hr. rewrite E. apply elem_of_skip. by rewrite <- Ed.
    + exists (inorder l ++ j :: l1), l2. rewrite E, Ed. by rewrite <- !app_assoc.
Qed.
End loads.

(** ** The links *)

Lemma tree_at_ext t : forall ps ps' x,
  (forall j, j ∈ inorder t -> left (ps' j) = left (ps j) /\ right (ps' j) = right (ps j)) ->
  tree_at ps x t -> tree_at ps' x t.
Proof.
  induction t as [|l IHl i r IHr]; intros ps ps' x He; [done|]. intros (-> & Hi & Hl & Hr). cbn [inorder] in He.
  destruct (He i) as [El Er]; [rewrite elem_of_app, elem_of_cons; tauto|]. cbn. rewrite El, Er.
  split; [done|]. split; [done|]. split.
  - apply (IHl ps); [|done]. intros j Hj. apply He. rewrite elem_of_app. tauto.
  - apply (IHr ps); [|done]. intros j Hj. apply He. rewrite elem_of_app, elem_of_cons. tauto.
Qed.

(** Only links are changed, and only those of the nodes [l]. *)
Definition relinked (l : list Z) ps ps' : Prop :=
  (forall j, offered_load (ps' j) = offered_load (ps j) /\ p_core (ps' j) = p_core (ps j)) /\
  forall j, j ∉ l -> ps' j = ps j.

Lemma relinked_refl l ps : relinked l ps ps.
Proof. done. Qed.
Lemma relinked_trans l ps1 ps2 ps3 : relinked l ps1 ps2 -> relinked l ps2 ps3 -> relinked l ps1 ps3.
Proof.
  intros [H1 N1] [H2 N2]. split.
  - intros j. specialize (H1 j). specialize (H2 j). by split; destruct H1, H2; congruence.
  - intros j Hj. by rewrite N2, N1.
Qed.
Lemma relinked_mono l l' ps ps' : relinked l ps ps' -> l ⊆ l' -> relinked l' ps ps'.
Proof. intros [H N] Hl. split; [done|]. intros j Hj. apply N. by intros ?%Hl. Qed.
Lemma relinked_set_left l ps i x : i ∈ l -> relinked l ps (<[i := set_left x (ps i)]> ps).
Proof. intros Hi. split; [intros j; fcase; done|]. intros j Hj. apply fn_lookup_insert_ne. by intros ->. Qed.
Lemma relinked_set_right l ps i x : i ∈ l -> relinked l ps (<[i := set_right x (ps i)]> ps).
Proof. intros Hi. split; [intros j; fcase; done|]. intros j Hj. apply fn_lookup_insert_ne. by intros ->. Qed.
Lemma relinked_tree l ps ps' x t : relinked l ps ps' -> (forall j, j ∈ inorder t -> j ∉ l) ->
  tree_at ps x t -> tree_at ps' x t.
Proof. intros [_ N] Hl. apply tree_at_ext. intros j Hj. by rewrite (N j (Hl j Hj)). Qed.

Abbreviation loads ps := (fun j => offered_load (ps j)).

Lemma tree_at_leaf ps x t : tree_at ps x t -> x < 0 -> t = Leaf.
Proof. destruct t; [done|]. cbn. lia. Qed.
Lemma tree_at_node ps x t : tree_at ps x t -> 0 <= x -> exists l r, t = Node l x r /\ tree_at ps (left (ps x)) l /\ tree_at ps (right (ps x)) r.
Proof. destruct t as [|l i r]; cbn; [lia|]. intros (-> & _ & Hl & Hr) _. by exists l, r. Qed.

Lemma insert_loop_spec (fuel : nat) : forall ps root t i,
  tree_at ps root t -> 0 <= root -> NoDup (inorder t) -> i ∉ inorder t -> tree_at ps i (Node Leaf i Leaf) ->
  (height t <= fuel)%nat ->
  exists ps', insert_loop fuel ps root i = Some ps' /\ tree_at ps' root (tinsert (loads ps) i t) /\
    relinked (inorder t) ps ps'.
Proof.
  induction fuel as [|fuel IH]; intros ps root t i Ht Hroot Hnd Hi Hn Hf;
    destruct (tree_at_node _ _ _ Ht Hroot) as (l & r & -> & Hl & Hr); [cbn in Hf; lia|].
  cbn [insert_loop tinsert inorder height] in *. rewrite not_elem_of_app, not_elem_of_cons in Hi. destruct Hi as (Hil & Hne & Hir).
  apply NoDup_app in Hnd as (Nl & Nlr & [Nx Nr]%NoDup_cons).
  assert (root ∉ inorder l) as Nxl by (intros Hx; apply (Nlr root Hx); left).
  assert (root ∈ inorder l ++ root :: inorder r) as Hin by (rewrite elem_of_app; right; left).
  destruct (offered_load (ps i) >=? offered_load (ps root)).
  - destruct (Z.geb_spec (right (ps root)) 0) as [Hge|Hlt].
    + destruct (IH ps (right (ps root)) r i Hr Hge Nr Hir Hn ltac:(lia)) as (ps' & -> & Ht' & Hre).
      exists ps'. split; [done|]. destruct Hre as [Hld Hre]. split; [|split; [done|]].
      * cbn [tree_at]. rewrite (Hre root Nx). split; [done|]. split; [done|]. split; [|done].
        apply (tree_at_ext l ps); [|done]. intros j Hj. rewrite Hre; [done|]. intros Hjr. apply (Nlr j Hj). by right.
      * intros j. rewrite not_elem_of_app, not_elem_of_cons. intros (_ & _ & Hj). by apply Hre.
    + apply tree_at_leaf in Hr as ->; [|lia]. eexists. split; [done|].
      split; [|by apply relinked_set_right]. cbn [tree_at tinsert]. rewrite fn_lookup_insert. cbn [left right set_right].
      split; [done|]. split; [done|]. split.
      * apply (tree_at_ext l ps); [|done]. intros j Hj. rewrite fn_lookup_insert_ne by (by intros ->). done.
      * apply (tree_at_ext (Node Leaf i Leaf) ps); [|done]. intros j ->%list_elem_of_singleton.
        by rewrite fn_lookup_insert_ne.
  - destruct (Z.geb_spec (left (ps root)) 0) as [Hge|Hlt].
    + destruct (IH ps (left (ps root)) l i Hl Hge Nl Hil Hn ltac:(lia)) as (ps' & -> & Ht' & Hre).
      exists ps'. split; [done|]. destruct Hre as [Hld Hre]. split; [|split; [done|]].
      * cbn [tree_at]. rewrite (Hre root Nxl). split; [done|]. split; [done|]. split; [done|].
        apply (tree_at_ext r ps); [|done]. intros j Hj. rewrite Hre; [done|]. intros Hjl. apply (Nlr j Hjl). by right.
      * intros j. rewrite not_elem_of_app. intros (Hj & _). by apply Hre.
    + apply tree_at_leaf in Hl as ->; [|lia]. eexists. split; [done|].
      split; [|by apply relinked_set_left]. cbn [tree_at tinsert]. rewrite fn_lookup_insert. cbn [left right set_left].
      split; [done|]. split; [done|]. split.
      * apply (tree_at_ext (Node Leaf i Leaf) ps); [|done]. intros j ->%list_elem_of_singleton.
        by rewrite fn_lookup_insert_ne.
      * apply (tree_at_ext r ps); [|done]. intros j Hj. rewrite fn_lookup_insert_ne by (by intros ->). done.
Qed.

Lemma tree_at_nonneg t : forall ps x j, tree_at ps x t -> j ∈ inorder t -> 0 <= j.
Proof.
  induction t as [|l IHl i r IHr]; intros ps x j; cbn; [by intros _ ?%not_elem_of_nil|].
  intros (_ & Hi & Hl & Hr). rewrite elem_of_app, elem_of_cons. intros [Hj|[->|Hj]]; eauto.
Qed.

Lemma search_loop_spec (fuel : nat) : forall ps root t load ret smallest,
  tree_at ps root t -> ordered (loads ps) t -> (height t <= fuel)%nat ->
  exists x, search_loop fuel ps root load ret smallest = Some x /\
  (x ∈ inorder t /\ offered_load (ps x) <= load /\
     (forall j, j ∈ inorder t -> offered_load (ps j) <= load -> offered_load (ps j) <= offered_load (ps x)) \/
   (forall j, j ∈ inorder t -> load < offered_load (ps j)) /\
   (if ret >=? 0 then x = ret
    else t = Leaf /\ x = smallest \/
         x ∈ inorder t /\ forall j, j ∈ inorder t -> offered_load (ps x) <= offered_load (ps j))).
Proof.
  induction fuel as [|fuel IH]; intros ps root t load ret smallest Ht Ho Hf; cbn [search_loop];
    destruct (Z.geb_spec root 0) as [Hge|Hlt].
  - destruct (tree_at_node _ _ _ Ht Hge) as (l & r & -> & _). cbn in Hf. lia.
  - apply tree_at_leaf in Ht as ->; [|lia]. eexists. split; [done|]. right.
    split; [by intros j ?%not_elem_of_nil|]. destruct (ret >=? 0); auto.
  - destruct (tree_at_node _ _ _ Ht Hge) as (l & r & -> & Hl & Hr). cbn [height inorder ordered] in *.
    destruct Ho as (Ol & Or & Hol & Hor).
    assert (forall j, j ∈ inorder l ++ root :: inorder r <-> j ∈ inorder l \/ j = root \/ j ∈ inorder r) as Hin
      by (intros; by rewrite elem_of_app, elem_of_cons).
    destruct (Z.eqb_spec (offered_load (ps root)) load) as [E|Hne].
    { exists root. split; [done|]. left. rewrite E. split; [apply Hin; tauto|]. by split. }
    destruct (Z.ltb_spec (offered_load (ps root)) load) as [Hl1|Hg1].
    + destruct (IH ps (right (ps root)) r load root smallest Hr Hor ltac:(lia)) as (x & -> & Hx).
      exists x. split; [done|]. left. destruct Hx as [(Hx & Hle & Hmax)|[Hall Hx]].
      * split; [apply Hin; tauto|]. split; [done|]. specialize (Or x Hx).
        intros j [Hj|[->|Hj]]%Hin Hjl; [specialize (Ol j Hj); lia|done|by apply Hmax].
      * destruct (Z.geb_spec root 0); [|lia]. subst x. split; [apply Hin; tauto|]. split; [lia|].
        intros j [Hj|[->|Hj]]%Hin Hjl; [specialize (Ol j Hj)|done|specialize (Hall j Hj)]; lia.
    + destruct (IH ps (left (ps root)) l load ret root Hl Hol ltac:(lia)) as (x & -> & Hx).
      exists x. split; [done|]. destruct Hx as [(Hx & Hle & Hmax)|[Hall Hx]]; [left|right].
      * split; [apply Hin; tauto|]. split; [done|]. intros j [Hj|[->|Hj]]%Hin Hjl; [by apply Hmax|lia|].
        specialize (Or j Hj). lia.
      * split.
        { intros j [Hj|[->|Hj]]%Hin; [by apply Hall|lia|]. specialize (Or j Hj). lia. }
        destruct (ret >=? 0); [done|]. right. destruct Hx as [[-> ->]|[Hx Hmin]].
        { split; [apply Hin; tauto|]. intros j [?%not_elem_of_nil|[->|Hj]]%Hin; [done|lia|by apply Or]. }
        { split; [apply Hin; tauto|]. specialize (Ol x Hx).
          intros j [Hj|[->|Hj]]%Hin; [by apply Hmin|lia|]. specialize (Or j Hj). lia. }
  - apply tree_at_leaf in Ht as ->; [|lia]. eexists. split; [done|]. right.
    split; [by intros j ?%not_elem_of_nil|]. destruct (ret >=? 0); auto.
Qed.

(** *** Deletion *)

(** The first node [m] is found with its parent; [ps'] is the memory in which
    the parent has been given the node's right child. *)
Lemma find_successor_spec ps r1 : forall j r2 par (fuel : nat),
  tree_at ps j (Node r1 j r2) -> NoDup (inorder (Node r1 j r2)) -> (height r1 <= fuel)%nat ->
  let (m, t) := tmin r1 j r2 in
  exists sp, find_successor fuel ps par j = Some (sp, m) /\ m ∈ inorder (Node r1 j r2) /\
  (r1 = Leaf /\ sp = par /\ m = j \/
   sp ∈ inorder (Node r1 j r2) /\ sp <> m /\
   forall ps', left (ps' sp) = right (ps m) -> right (ps' sp) = right (ps sp) ->
     (forall k, k <> sp -> k <> m -> ps' k = ps k) -> tree_at ps' j t).
Proof.
  induction r1 as [|a IH k b _]; intros j r2 par fuel Ht Hnd Hf; cbn [tmin].
  { exists par. destruct Ht as (_ & _ & Hl & _). cbn in Hl. split; [|split; [left|by left]].
    destruct fuel; cbn [find_successor]; (destruct (Z.geb_spec (left (ps j)) 0); [lia|done]). }
  destruct Ht as (_ & Hj & Hk & H2). destruct fuel as [|fuel]; [cbn in Hf; lia|]. cbn [find_successor].
  assert (left (ps j) = k /\ 0 <= k) as [Ek Hk0] by (cbn in Hk; tauto). rewrite Ek in Hk.
  destruct (Z.geb_spec (left (ps j)) 0) as [_|]; [|lia]. rewrite Ek.
  change (inorder (Node (Node a k b) j r2)) with (inorder (Node a k b) ++ j :: inorder r2) in *.
  apply NoDup_app in Hnd as (Nl & Nlr & [Nj Nr]%NoDup_cons).
  specialize (IH k b j fuel Hk Nl ltac:(cbn in Hf; lia)). destruct (tmin a k b) as [m t] eqn:Et.
  destruct IH as (sp & E & Hm & Hcase). exists sp. split; [done|]. split; [rewrite elem_of_app; by left|]. right.
  assert (j ∉ inorder (Node a k b)) as Nja by (intros Hx; apply (Nlr j Hx); left).
  assert (m <> j) as Hmj by congruence.
  assert (forall ps', (forall k, k <> sp -> k <> m -> ps' k = ps k) -> sp ∉ inorder r2 ->
    tree_at ps' (right (ps j)) r2) as Hr2.
  { intros ps' Hps Hsp. apply (tree_at_ext r2 ps); [|done]. intros x Hx. rewrite Hps; [done|congruence|].
    intros ->. apply (Nlr m Hm). by right. }
  destruct Hcase as [(-> & -> & ->)|(Hsp & Hne & Htree)].
  - split; [rewrite elem_of_app; right; left|]. split; [congruence|]. intros ps' El Er Hps.
    cbn in Et. injection Et as <-. cbn [tree_at]. rewrite El, Er. split; [done|]. split; [done|].
    split; [|by apply Hr2]. destruct Hk as (_ & _ & _ & Hb). apply (tree_at_ext b ps); [|done].
    cbn in Nl, Nja. apply NoDup_cons in Nl as [Nk Nb]. rewrite not_elem_of_cons in Nja.
    intros x Hx. rewrite Hps; [done|intros ->; tauto|congruence].
  - split; [rewrite elem_of_app; by left|]. split; [done|]. intros ps' El Er Hps. cbn [tree_at].
    assert (j <> sp) as Hjs by congruence. rewrite (Hps j) by done. split; [done|]. split; [done|]. rewrite Ek.
    split; [by apply Htree|]. apply Hr2; [done|]. intros Hx. apply (Nlr sp Hsp). by right.
Qed.

Lemma move_successor_spec ps l i r (fuel : nat) :
  tree_at ps i (Node l i r) -> NoDup (inorder (Node l i r)) -> l <> Leaf -> r <> Leaf -> (height r <= fuel)%nat ->
  exists sp s, find_successor fuel ps i (right (ps i)) = Some (sp, s) /\
    tree_at (move_successor ps i sp s) s (tjoin l r) /\ relinked (inorder r) ps (move_successor ps i sp s).
Proof.
  intros (_ & Hi & Hl & Hr) Hnd Hle Hre Hf. destruct r as [|r1 j r2]; [done|].
  assert (right (ps i) = j) as Ej by (cbn in Hr; tauto). rewrite Ej in Hr |- *.
  change (inorder (Node l i (Node r1 j r2))) with (inorder l ++ i :: inorder (Node r1 j r2)) in Hnd.
  apply NoDup_app in Hnd as (Nl & Nlr & [Ni Nr]%NoDup_cons).
  pose proof (find_successor_spec ps r1 j r2 i fuel Hr Nr ltac:(cbn in Hf; lia)) as Hs.
  assert (tjoin l (Node r1 j r2) = let (m, t) := tmin r1 j r2 in Node l m t) as Et by (destruct l; [done|reflexivity]).
  rewrite Et.
  destruct (tmin r1 j r2) as [m t] eqn:Etm. destruct Hs as (sp & E & Hm & Hcase). exists sp, m. split; [done|].
  assert (0 <= m) as Hm0 by (by eapply tree_at_nonneg). assert (m <> i) as Hmi by congruence.
  assert (forall ps', (forall k, k <> sp -> k <> m -> ps' k = ps k) -> sp ∈ inorder (Node r1 j r2) \/ sp = i ->
    tree_at ps' (left (ps i)) l) as Hleft.
  { intros ps' Hps Hsp. apply (tree_at_ext l ps); [|done]. intros x Hx. rewrite Hps; [done| |].
    - intros ->. destruct Hsp as [Hsp| ->]; apply (Nlr _ Hx); [by right|left].
    - intros ->. apply (Nlr m Hx). by right. }
  unfold move_successor. destruct Hcase as [(-> & -> & ->)|(Hsp & Hne & Htree)].
  - rewrite Z.eqb_refl. cbn in Etm. injection Etm as <-. split; [|by apply relinked_set_left].
    cbn [tree_at]. rewrite fn_lookup_insert. cbn [left right set_left]. split; [done|]. split; [done|]. split.
    + apply Hleft; [|by right]. intros k _ Hk. by rewrite fn_lookup_insert_ne.
    + destruct Hr as (_ & _ & _ & Hr2). apply (tree_at_ext r2 ps); [|done]. intros x Hx.
      cbn in Nr. apply NoDup_cons in Nr as [Nj _]. rewrite fn_lookup_insert_ne by congruence. done.
  - destruct (Z.eqb_spec sp i) as [->|Hspi]; [done|]. cbv zeta. rewrite !fn_lookup_insert.
    rewrite (fn_lookup_insert_ne _ sp m), (fn_lookup_insert_ne _ sp i), (fn_lookup_insert_ne _ m i) by congruence.
    rewrite (fn_lookup_insert_ne _ sp i) by congruence.
    split.
    + cbn [tree_at]. rewrite fn_lookup_insert. cbn [left right set_left set_right]. split; [done|]. split; [done|]. split.
      * apply Hleft; [|by left]. intros k Hk1 Hk2. by rewrite !fn_lookup_insert_ne by congruence.
      * rewrite Ej. apply Htree.
        -- rewrite !(fn_lookup_insert_ne _ m sp), fn_lookup_insert by congruence. done.
        -- rewrite !(fn_lookup_insert_ne _ m sp), fn_lookup_insert by congruence. done.
        -- intros k Hk1 Hk2. by rewrite !fn_lookup_insert_ne by congruence.
    + split.
      * intros x. rewrite !fn_insert_dec. repeat case_decide; subst; done.
      * intros x Hx. by rewrite !fn_lookup_insert_ne by (intros ->; done).
Qed.

(** The node [i] with its subtrees; what takes its place is linked to its
    parent. *)
Lemma find_parent_spec (fuel : nat) : forall ps root t par isl i,
  tree_at ps root t -> ordered (loads ps) t -> NoDup (inorder t) -> i ∈ inorder t -> (height t <= fuel)%nat ->
  exists par' isl' l r, find_parent fuel ps root par isl i (offered_load (ps i)) = Some (par', isl') /\
    tree_at ps i (Node l i r) /\ NoDup (inorder (Node l i r)) /\ (forall k, k ∈ inorder (Node l i r) -> k ∈ inorder t) /\
    (height r <= height t)%nat /\
    ((root = i /\ t = Node l i r /\ par' = par /\ isl' = isl) \/
     par' ∈ inorder t /\ (par' ∉ inorder (Node l i r)) /\
     forall ps' x, tree_at ps' x (tjoin l r) -> (forall k, k ∉ inorder (Node l i r) -> ps' k = ps k) ->
       tree_at (if isl' then (<[par' := set_left x (ps' par')]> ps') else (<[par' := set_right x (ps' par')]> ps'))
         root (tdelete (loads ps) i t)).
Proof.
  induction fuel as [|fuel IH]; intros ps root t par isl i Ht Ho Hnd Hi Hf; cbn [find_parent];
    destruct (Z.geb_spec root 0) as [Hge|Hlt];
    try (apply tree_at_leaf in Ht as ->; [|lia]; by apply not_elem_of_nil in Hi);
    destruct (tree_at_node _ _ _ Ht Hge) as (l & r & -> & Hl & Hr); [cbn in Hf; lia|].
  destruct (Z.eqb_spec i root) as [->|Hne].
  { exists par, isl, l, r. do 4 (split; [done|]). split; [cbn; lia|by left]. }
  destruct Ho as (Ol & Or & Hol & Hor). cbn [inorder height tdelete] in *.
  rewrite elem_of_app, elem_of_cons in Hi. apply NoDup_app in Hnd as (Nl & Nlr & [Nx Nr]%NoDup_cons).
  assert (root ∉ inorder l) as Nxl by (intros Hx; apply (Nlr root Hx); left).
  destruct (Z.eqb_spec i root); [done|].
  assert (forall (sub : list Z) k, (forall j, j ∈ sub -> j ∈ inorder l) \/ (forall j, j ∈ sub -> j ∈ inorder r) -> k = root -> k ∉ sub) as Hout.
  { intros sub k [Hs|Hs] -> Hk; [by apply Nxl, Hs|by apply Nx, Hs]. }
  destruct (Z.gtb_spec (offered_load (ps root)) (offered_load (ps i))) as [Hgt|Hle].
  - destruct Hi as [Hi|[->|Hi]]; [|lia|specialize (Or i Hi); lia].
    destruct (IH ps (left (ps root)) l root true i Hl Hol Nl Hi ltac:(lia))
      as (par' & isl' & l' & r' & -> & Hsub & Hnd & Hincl & Hh & Hcase).
    exists par', isl', l', r'. do 3 (split; [done|]). split; [intros k Hk; rewrite elem_of_app; left; by apply Hincl|]. split; [lia|]. right.
    assert (forall ps', (forall k, k ∉ inorder l -> k <> root -> ps' k = ps k) -> tree_at ps' (right (ps root)) r) as Hkeep.
    { intros ps' Hps. apply (tree_at_ext r ps); [|done]. intros k Hk. rewrite Hps; [done| |by intros ->].
      intros Hkl. apply (Nlr k Hkl). by right. }
    destruct Hcase as [(Er & -> & -> & ->)|(Hp & Hpn & Htree)].
    + split; [rewrite elem_of_app; right; left|]. split; [by apply Hout; [left|]|]. intros ps' x Hx Hps.
      cbn [tree_at tdelete]. rewrite fn_lookup_insert. cbn [left right set_left].
      rewrite (Hps root) by (by apply Hout; [left|]). split; [done|]. split; [done|]. split.
      * cbn [tdelete]. rewrite Z.eqb_refl. apply (tree_at_ext (tjoin l' r') ps'); [|done]. intros k Hk.
        rewrite fn_lookup_insert_ne; [done|]. intros <-. destruct (tjoin_spec (loads ps) l' i r') as [E _].
        rewrite E in Hk. apply Nxl. cbn [inorder]. by apply elem_of_skip.
      * apply Hkeep. intros k Hk Hkr. rewrite fn_lookup_insert_ne by done. by apply Hps.
    + split; [rewrite elem_of_app; by left|]. split; [done|]. intros ps' x Hx Hps. cbn [tree_at].
      assert (par' <> root) as Hpr by congruence.
      assert (forall f, (<[par' := f]> ps') root = ps root) as Eroot.
      { intros f. rewrite fn_lookup_insert_ne by done. apply Hps. by apply Hout; [left|]. }
      assert (forall f k, k ∉ inorder l -> (<[par' := f]> ps') k = ps k) as Eout.
      { intros f k Hk. rewrite fn_lookup_insert_ne by (intros ->; done). apply Hps. by intros Hk'%Hincl. }
      specialize (Htree ps' x Hx Hps).
      destruct isl'; rewrite Eroot; (split; [done|]; split; [done|]; split; [done|]; apply Hkeep; intros; by apply Eout).
  - destruct Hi as [Hi|[->|Hi]]; [specialize (Ol i Hi); lia|done|].
    destruct (IH ps (right (ps root)) r root false i Hr Hor Nr Hi ltac:(lia))
      as (par' & isl' & l' & r' & -> & Hsub & Hnd & Hincl & Hh & Hcase).
    exists par', isl', l', r'. do 3 (split; [done|]). split; [intros k Hk; rewrite elem_of_app; right; right; by apply Hincl|]. split; [lia|]. right.
    assert (forall ps', (forall k, k ∉ inorder r -> k <> root -> ps' k = ps k) -> tree_at ps' (left (ps root)) l) as Hkeep.
    { intros ps' Hps. apply (tree_at_ext l ps); [|done]. intros k Hk. rewrite Hps; [done| |by intros ->].
      intros Hkr. apply (Nlr k Hk). by right. }
    destruct Hcase as [(Er & -> & -> & ->)|(Hp & Hpn & Htree)].
    + split; [rewrite elem_of_app; right; left|]. split; [by apply Hout; [right|]|]. intros ps' x Hx Hps.
      cbn [tree_at tdelete]. rewrite fn_lookup_insert. cbn [left right set_right].
      rewrite (Hps root) by (by apply Hout; [right|]). split; [done|]. split; [done|]. split.
      * apply Hkeep. intros k Hk Hkr. rewrite fn_lookup_insert_ne by done. by apply Hps.
      * cbn [tdelete]. rewrite Z.eqb_refl. apply (tree_at_ext (tjoin l' r') ps'); [|done]. intros k Hk.
        rewrite fn_lookup_insert_ne; [done|]. intros <-. destruct (tjoin_spec (loads ps) l' i r') as [E _].
        rewrite E in Hk. apply Nx. cbn [inorder]. by apply elem_of_skip.
    + split; [rewrite elem_of_app; right; by right|]. split; [done|]. intros ps' x Hx Hps. cbn [tree_at].
      assert (par' <> root) as Hpr by congruence.
      assert (forall f, (<[par' := f]> ps') root = ps root) as Eroot.
      { intros f. rewrite fn_lookup_insert_ne by done. apply Hps. by apply Hout; [right|]. }
      assert (forall f k, k ∉ inorder r -> (<[par' := f]> ps') k = ps k) as Eout.
      { intros f k Hk. rewrite fn_lookup_insert_ne by (intros ->; done). apply Hps. by intros Hk'%Hincl. }
      specialize (Htree ps' x Hx Hps).
      destruct isl'; rewrite Eroot; (split; [done|]; split; [done|]; split; [apply Hkeep; intros; by apply Eout|done]).
Qed.

(** ** Cores *)

(** The tree [t] of the core [c]. *)
Record core_tree ps c (t : tree) : Prop := {
  ct_at : tree_at ps (root_partition c) t;
  ct_ordered : ordered (loads ps) t;
  ct_nodup : NoDup (inorder t)
}.

Lemma ordered_ext ld ld' t : (forall j, j ∈ inorder t -> ld' j = ld j) -> ordered ld t -> ordered ld' t.
Proof.
  induction t as [|l IHl i r IHr]; intros He; [done|]. cbn [inorder] in He. intros (Hl & Hr & Ol & Or).
  assert (forall j, j ∈ inorder l \/ j = i \/ j ∈ inorder r -> ld' j = ld j) as He'.
  { intros j Hj. apply He. by rewrite elem_of_app, elem_of_cons. }
  split; [|split; [|split]].
  - intros j Hj. rewrite !He' by tauto. by apply Hl.
  - intros j Hj. rewrite !He' by tauto. by apply Hr.
  - apply IHl; [|done]. intros j Hj. apply He'. tauto.
  - apply IHr; [|done]. intros j Hj. apply He'. tauto.
Qed.

Lemma relinked_core_tree l ps ps' c t : relinked l ps ps' -> (forall j, j ∈ inorder t -> j ∉ l) ->
  core_tree ps c t -> core_tree ps' c t.
Proof.
  intros Hr Hl [Ht Ho Hn]. split; [by apply (relinked_tree l ps)| |done].
  eapply ordered_ext; [|exact Ho]. intros j _. apply Hr.
Qed.

(** The fuel [fuel] is enough for trees of at most [fuel] nodes. *)
Lemma height_size t : (height t <= length (inorder t))%nat.
Proof. induction t as [|l IHl i r IHr]; [done|]. cbn. rewrite length_app. cbn. lia. Qed.

Lemma insert_run ps c t i (fuel : nat) :
  core_tree ps c t -> 0 <= i -> i ∉ inorder t -> (length (inorder t) <= fuel)%nat ->
  exists ps' c' t', insert fuel ps c i = Some (ps', c') /\ core_tree ps' c' t' /\
    inorder t' ≡ₚ (if offered_load (ps i) <=? 0 then inorder t else i :: inorder t) /\
    relinked (i :: inorder t) ps ps' /\ c_offered_load c' = c_offered_load c /\ ind c' = ind c.
Proof.
  intros [Ht Ho Hnd] Hi Hni Hf. unfold insert.
  destruct (offered_load (ps i) <=? 0); [exists ps, c, t; split; [done|]; split; [done|]; by split|].
  cbv zeta. set (ps1 := <[i := set_left (-1) (ps i)]> ps). set (ps2 := <[i := set_right (-1) (ps1 i)]> ps1).
  assert (ps2 i = Partition (offered_load (ps i)) (p_core (ps i)) (-1) (-1)) as Ei.
  { unfold ps2, ps1. by rewrite !fn_lookup_insert. }
  assert (relinked [i] ps ps2) as Hre.
  { apply (relinked_trans _ _ ps1); [apply relinked_set_left; left|apply relinked_set_right; left]. }
  assert (tree_at ps2 i (Node Leaf i Leaf)) as Hnode by (cbn; rewrite Ei; cbn; lia).
  assert (relinked (i :: inorder t) ps ps2) as Hre2 by (apply (relinked_mono [i]); [done|intros j ->%list_elem_of_singleton; left]).
  destruct (Z.ltb_spec (root_partition c) 0) as [Hlt|Hge].
  - apply tree_at_leaf in Ht as ->; [|done]. exists ps2, (set_root i c), (Node Leaf i Leaf).
    split; [done|]. split; [|by split]. split; [done| |by apply NoDup_singleton].
    cbn. split; [by intros j ?%not_elem_of_nil|]. split; [by intros j ?%not_elem_of_nil|done].
  - assert (forall j, j ∈ inorder t -> j ∉ [i]) as Hout by (intros j Hj ->%list_elem_of_singleton; done).
    destruct (insert_loop_spec fuel ps2 (root_partition c) t i) as (ps' & -> & Ht' & Hre');
      [by apply (relinked_tree [i] ps)|done|done|done|done|pose proof (height_size t); lia|].
    exists ps', c, (tinsert (loads ps2) i t). split; [done|]. split.
    + assert (ordered (loads ps2) t) as Ho2 by (eapply ordered_ext; [|exact Ho]; intros j _; apply Hre).
      split; [done| |].
      * eapply ordered_ext; [|by apply tinsert_ordered, Ho2]. intros j _. apply Hre'.
      * rewrite tinsert_perm. by constructor.
    + split; [by rewrite tinsert_perm|]. split; [|done].
      apply (relinked_trans _ _ ps2); [done|]. apply (relinked_mono (inorder t)); [done|]. intros j Hj. by right.
Qed.

Lemma search_run ps c t load (fuel : nat) :
  core_tree ps c t -> (length (inorder t) <= fuel)%nat ->
  exists x, search fuel ps c load = Some x /\
  (x ∈ inorder t /\ offered_load (ps x) <= load /\
     (forall j, j ∈ inorder t -> offered_load (ps j) <= load -> offered_load (ps j) <= offered_load (ps x)) \/
   (forall j, j ∈ inorder t -> load < offered_load (ps j)) /\
   (x ∈ inorder t /\ (forall j, j ∈ inorder t -> offered_load (ps x) <= offered_load (ps j)) \/
    t = Leaf /\ x = -1)).
Proof.
  intros [Ht Ho _] Hf. destruct (search_loop_spec fuel ps (root_partition c) t load (-1) (-1) Ht Ho) as (x & E & Hx);
    [pose proof (height_size t); lia|]. exists x. split; [done|]. cbn [Z.geb] in Hx.
  destruct Hx as [?|[Hall Hx]]; [by left|right]. split; [done|]. cbn in Hx. tauto.
Qed.

Lemma delete_run ps c t i (fuel : nat) :
  core_tree ps c t -> i ∈ inorder t -> (length (inorder t) <= fuel)%nat ->
  exists ps' c' t' l1 l2, delete fuel ps c i = Some (0, (ps', c')) /\ core_tree ps' c' t' /\
    inorder t = l1 ++ i :: l2 /\ inorder t' = l1 ++ l2 /\ relinked (inorder t) ps ps' /\
    c_offered_load c' = c_offered_load c /\ ind c' = ind c.
Proof.
  intros [Ht Ho Hnd] Hi Hf. pose proof (height_size t) as Hh. unfold delete. cbv zeta.
  destruct (Z.ltb_spec (root_partition c) 0) as [Hlt|Hge].
  { apply tree_at_leaf in Ht as ->; [|done]. by apply not_elem_of_nil in Hi. }
  destruct (tdelete_spec (loads ps) i t Ho Hi Hnd) as (Od & l1 & l2 & E & Ed).
  destruct (find_parent_spec fuel ps (root_partition c) t (-1) false i Ht Ho Hnd Hi ltac:(lia))
    as (par & isl & l & r & -> & Hsub & Hnds & Hincl & Hhr & Hcase).
  (* the join of the subtrees, at [x] *)
  assert (exists ps1 x, tree_at ps1 x (tjoin l r) /\ relinked (inorder r) ps ps1 /\
    (if left (ps i) <? 0 then Some (0, set_child par isl (right (ps i)) (ps, c))
     else if right (ps i) <? 0 then Some (0, set_child par isl (left (ps i)) (ps, c))
     else match find_successor fuel ps i (right (ps i)) with
          | None => None
          | Some (succ_parent, successor) =>
              Some (0, set_child par isl successor (move_successor ps i succ_parent successor, c))
          end) = Some (0, set_child par isl x (ps1, c))) as (ps1 & x & Hjoin & Hre & ->).
  { destruct Hsub as (_ & Hi0 & Hl & Hr). destruct (Z.ltb_spec (left (ps i)) 0) as [Hll|Hll].
    - apply tree_at_leaf in Hl as ->; [|done]. exists ps, (right (ps i)). by split; [|split].
    - destruct (Z.ltb_spec (right (ps i)) 0) as [Hrl|Hrl].
      + apply tree_at_leaf in Hr as ->; [|done]. exists ps, (left (ps i)). split; [by destruct l|]. by split.
      + assert (l <> Leaf) by (intros ->; cbn in Hl; lia). assert (r <> Leaf) by (intros ->; cbn in Hr; lia).
        destruct (move_successor_spec ps l i r fuel) as (sp & s & -> & Hj & Hre);
          [by cbn|done|done|done|lia|]. exists (move_successor ps i sp s), s. by split; [|split]. }
  assert (forall k, k ∉ inorder (Node l i r) -> ps1 k = ps k) as Hsame.
  { intros k Hk. apply Hre. cbn [inorder] in Hk. rewrite not_elem_of_app, not_elem_of_cons in Hk. tauto. }
  assert (relinked (inorder t) ps ps1) as Hret.
  { destruct Hre as [H1 H2]. split; [done|]. intros j Hj. apply H2. intros Hjr. apply Hj, Hincl. cbn [inorder].
    rewrite elem_of_app. right. by right. }
  assert (forall ps' c', set_child par isl x (ps1, c) = (ps', c') -> relinked (inorder t) ps ps' /\
    tree_at ps' (root_partition c') (tdelete (loads ps) i t) /\ c_offered_load c' = c_offered_load c /\ ind c' = ind c)
    as Hset.
  { intros ps' c'. unfold set_child. destruct Hcase as [(Er & -> & -> & ->)|(Hp & _ & Htree)].
    - intros [= <- <-]. split; [done|]. split; [|done]. cbn. by rewrite Z.eqb_refl.
    - assert (0 <= par) by (by apply (tree_at_nonneg t ps (root_partition c))).
      destruct (Z.ltb_spec par 0); [lia|]. specialize (Htree ps1 x Hjoin Hsame).
      destruct isl; intros [= <- <-]; (split; [|by split]).
      + apply (relinked_trans _ _ ps1); [done|]. by apply relinked_set_left.
      + apply (relinked_trans _ _ ps1); [done|]. by apply relinked_set_right. }
  destruct (set_child par isl x (ps1, c)) as [ps' c']. destruct (Hset ps' c' eq_refl) as (Hr' & Ht' & Ec & Ei).
  exists ps', c', (tdelete (loads ps) i t), l1, l2. split; [done|]. split; [|done].
  split; [done| |].
  - eapply ordered_ext; [|exact Od]. intros j _. apply Hr'.
  - rewrite Ed. rewrite E in Hnd. apply NoDup_app in Hnd as (? & Hd & [? ?]%NoDup_cons).
    apply NoDup_app. split; [done|]. split; [|done]. intros y Hy Hy2. apply (Hd y Hy). by right.
Qed.

(** ** Property *)

(** C28: the tree of a core: insertion of a partition with some load, search
    and deletion of a partition that is in it terminate and keep it a search
    tree by load, without touching the trees of other cores, loads or owners;
    insertion adds the partition, which has no place in the tree if it has no
    load; deletion takes out just the given one, also when others have the
    same load; and search finds a greatest load not above the one asked for,
    or else a smallest one, and -1 only in an empty tree. *)
Theorem bst_well_formed (ps : Z -> partition) (c : core) (t : tree) (fuel : nat)
    (Hc : core_tree ps c t) (Hfuel : (length (inorder t) <= fuel)%nat) :
  (forall i, 0 <= i -> i ∉ inorder t -> exists ps' c' t',
     insert fuel ps c i = Some (ps', c') /\ core_tree ps' c' t' /\
     inorder t' ≡ₚ (if offered_load (ps i) <=? 0 then inorder t else i :: inorder t) /\
     relinked (i :: inorder t) ps ps' /\
     forall d u, core_tree ps d u -> (forall j, j ∈ inorder u -> j ∉ i :: inorder t) -> core_tree ps' d u) /\
  (forall load, exists x, search fuel ps c load = Some x /\
     (x ∈ inorder t /\ offered_load (ps x) <= load /\
        (forall j, j ∈ inorder t -> offered_load (ps j) <= load -> offered_load (ps j) <= offered_load (ps x)) \/
      (forall j, j ∈ inorder t -> load < offered_load (ps j)) /\
      (x ∈ inorder t /\ (forall j, j ∈ inorder t -> offered_load (ps x) <= offered_load (ps j)) \/
       t = Leaf /\ x = -1))) /\
  (forall i, i ∈ inorder t -> exists ps' c' t' l1 l2,
     delete fuel ps c i = Some (0, (ps', c')) /\ core_tree ps' c' t' /\
     inorder t = l1 ++ i :: l2 /\ inorder t' = l1 ++ l2 /\ relinked (inorder t) ps ps' /\
     forall d u, core_tree ps d u -> (forall j, j ∈ inorder u -> j ∉ inorder t) -> core_tree ps' d u).
Proof.
  split; [|split].
  - intros i Hi Hni. destruct (insert_run ps c t i fuel Hc Hi Hni Hfuel) as (ps' & c' & t' & E & Hc' & Hp & Hr & _).
    exists ps', c', t'. do 4 (split; [done|]). intros d u Hu Hd. by apply (relinked_core_tree (i :: inorder t) ps).
  - intros load. by apply search_run.
  - intros i Hi. destruct (delete_run ps c t i fuel Hc Hi Hfuel) as (ps' & c' & t' & l1 & l2 & E & Hc' & E1 & E2 & Hr & _).
    exists ps', c', t', l1, l2. do 5 (split; [done|]). intros d u Hu Hd. by apply (relinked_core_tree (inorder t) ps).
Qed.

(** ** Witness: six partitions, two with the same load *)

Definition ex_loads : list Z := [4; 2; 6; 6; 0; 1].
Definition ex_partitions : Z -> partition := fun i => Partition (nth (Z.to_nat i) ex_loads 0) 0 7 7.
Definition ex_inserts (l : list Z) : option ((Z -> partition) * core) :=
  fold_left (fun s i => match s with Some (ps, c) => insert 6 ps c i | None => None end) l
    (Some (ex_partitions, Core 0 (-1) 0)).
Definition ex_tree : tree := Node (Node (Node Leaf 5 Leaf) 1 Leaf) 0 (Node Leaf 2 (Node Leaf 3 Leaf)).
Definition ex_state : (Z -> partition) * core := default (ex_partitions, Core 0 (-1) 0) (ex_inserts [0; 1; 2; 3; 4; 5]).

Lemma ex_core_tree : core_tree ex_state.1 ex_state.2 ex_tree.
Proof.
  split.
  - vm_compute. repeat split; discriminate.
  - cbn. repeat split; intros j Hj; repeat (apply elem_of_cons in Hj as [->|Hj]; [vm_compute; by first [done|discriminate]|]);
      by apply not_elem_of_nil in Hj.
  - vm_compute. repeat (apply NoDup_cons; split; [|]); try apply NoDup_nil_2;
      intros Hj; repeat (apply elem_of_cons in Hj as [Hj|Hj]; [discriminate Hj|]); by apply not_elem_of_nil in Hj.
Qed.

Lemma bst_well_formed_witness :
  search 6 ex_state.1 ex_state.2 5 = Some 0 /\
  exists ps' c' t', delete 6 ex_state.1 ex_state.2 0 = Some (0, (ps', c')) /\ core_tree ps' c' t'.
Proof.
  split; [vm_compute; reflexivity|].
  destruct (bst_well_formed ex_state.1 ex_state.2 ex_tree 6 ex_core_tree ltac:(cbn; lia)) as (_ & _ & Hd).
  destruct (Hd 0 ltac:(cbn; right; right; left)) as (ps' & c' & t' & _ & _ & E & Hc & _).
  exists ps', c', t'. by split.
Defined.
