(* ===== verification/LbAlgo.v ===== *)
(** * Rebalancing the load of the cores

    src/deps/vigor/nf-lb/lb_algo.c: which core is to process which flow
    partition, from the partitions' offered loads; the trees of bst.c find the
    partitions to move.  [qsort] of the C library is a class. *)

From stdpp Require Import list.
From S2P Require Import Prelude Bst.
Open Scope Z_scope.

(** What may become of a call: a result, a read outside an array or a division
    by 0, or the fuel is spent. *)
Inductive outcome (A : Type) := Done (a : A) | Undefined | Spent.
Arguments Done {A} _.
Arguments Undefined {A}.
Arguments Spent {A}.
Definition obind {A B} (c : outcome A) (f : A -> outcome B) : outcome B :=
  match c with
  | Done a => f a
  | Undefined => Undefined
  | Spent => Spent
  end.
Definition spend {A} (x : option A) : outcome A := match x with Some a => Done a | None => Spent end.
#[local] Notation "'let!' x := c 'in' d" := (obind c (fun x => d)) (at level 10, x pattern, c at level 100, d at level 200).

(** qsort sorts by the key that the comparison function compares, if there is
    one for the elements of the array. *)
Class Qsort := {
  qsort {A} : (A -> A -> Z) -> list A -> list A;
  qsort_perm {A} (compar : A -> A -> Z) l : qsort compar l ≡ₚ l;
  qsort_sorted {A} (compar : A -> A -> Z) (key : A -> Z) l :
    (forall a b, a ∈ l -> b ∈ l -> compar a b <= 0 <-> key a <= key b) ->
    StronglySorted Z.le (key <$> qsort compar l)
}.

Definition LB_MAX_NUM_ITER : Z := 10.
Definition INT32_MAX : Z := 2 ^ 31 - 1.

Definition cores_compar (a b : core) : Z := i32 (c_offered_load a - c_offered_load b).

Section algorithm.
Context `{Qsort} (fuel : nat) (num_partitions num_cores : Z).
Implicit Types (ps : Z -> partition) (cs : list core).

(** An element of an array of cores. *)
Definition at_index cs (i : Z) : outcome core :=
  if i <? 0 then Undefined else match cs !! Z.to_nat i with Some c => Done c | None => Undefined end.
Definition put cs (i : Z) (c : core) : list core := <[Z.to_nat i := c]> cs.
(** partitions[i] *)
Definition partition_at ps (i : Z) : outcome partition :=
  if (0 <=? i) && (i <? num_partitions) then Done (ps i) else Undefined.

Definition add_load (x : Z) (c : core) : core := Core (i32 (c_offered_load c + x)) (root_partition c) (ind c).
Definition set_core (k : Z) (p : partition) : partition := Partition (offered_load p) k (left p) (right p).

Definition total_load cs : Z := fold_left (fun t c => i32 (t + c_offered_load c)) cs 0.

(** Populate the partition trees. *)
Fixpoint populate (n : nat) (i : Z) (s : (Z -> partition) * list core) : outcome ((Z -> partition) * list core) :=
  match n with
  | O => Done s
  | S n =>
      let (ps, cs) := s in
      let k := p_core (ps i) in
      let! c := at_index cs k in
      let! (ps, c) := spend (insert fuel ps c i) in
      populate n (i + 1) (ps, put cs k c)
  end.

(** while (cores_copy[first_ol_core].offered_load <= avg_load) first_ol_core++; *)
Fixpoint first_overloaded (n : nat) cs (avg_load first_ol_core : Z) : outcome Z :=
  let! c := at_index cs first_ol_core in
  if c_offered_load c <=? avg_load then
    match n with
    | O => Spent
    | S n => first_overloaded n cs avg_load (first_ol_core + 1)
    end
  else Done first_ol_core.

(** A partition goes from the core at [ol_core] to the one at [ul_core]. *)
Definition move_partition (p ol_core ul_core : Z) (s : (Z -> partition) * list core)
    : outcome ((Z -> partition) * list core) :=
  let (ps, cs) := s in
  let! c := at_index cs ol_core in
  let! (_, (ps, c)) := spend (delete fuel ps c p) in
  let! x := partition_at ps p in
  let cs := put cs ol_core (add_load (- offered_load x) c) in
  let! c := at_index cs ul_core in
  let ps := <[p := set_core (ind c) (ps p)]> ps in
  let! (ps, c) := spend (insert fuel ps c p) in
  Done (ps, put cs ul_core (add_load (offered_load (ps p)) c)).

Fixpoint move_loop (n : nat) (avg_load first_ol_core ol_core ul_core : Z) (s : (Z -> partition) * list core)
    : outcome ((Z -> partition) * list core) :=
  if (ol_core >=? first_ol_core) && (ul_core <? first_ol_core) then
    match n with
    | O => Spent
    | S n =>
        let! c := at_index s.2 ol_core in
        let ol_core := if c_offered_load c <=? avg_load then ol_core - 1 else ol_core in
        let! u := at_index s.2 ul_core in
        let load_missing := i32 (avg_load - c_offered_load u) in
        if load_missing >? 0 then
          let! c := at_index s.2 ol_core in
          let! p := spend (search fuel s.1 c load_missing) in
          let! x := partition_at s.1 p in
          if c_offered_load c =? offered_load x then
            move_loop n avg_load first_ol_core (ol_core - 1) ul_core s
          else
            let! s := move_partition p ol_core ul_core s in
            move_loop n avg_load first_ol_core ol_core ul_core s
        else move_loop n avg_load first_ol_core ol_core (ul_core + 1) s
    end
  else Done s.

(** What the iterations work on, and the assignment found so far. *)
Record lb_state := LbState {
  partitions : Z -> partition;
  cores_copy : list core;
  num_iter : Z;
  epoch : Z;
  max_offered_load : Z;
  prev_max_offered_load : Z;
  new_reta : Z -> Z
}.

(** The numbers of an iteration, up to its first break; [false]: stop. *)
Definition lb_epoch (st : lb_state) (cs : list core) (max : Z) : bool * lb_state :=
  let prev_prev := prev_max_offered_load st in
  let prev := max_offered_load st in
  if max >=? prev_prev then
    (negb (epoch st >? 0),
     LbState (partitions st) cs (num_iter st) (if epoch st >? 0 then epoch st else epoch st + 1) max prev (new_reta st))
  else if max <? prev then
    (true, LbState (partitions st) cs (num_iter st + 1) 0 max prev (fun i => p_core (partitions st i)))
  else (true, LbState (partitions st) cs (num_iter st) (epoch st + 1) max prev (new_reta st)).

(** while (1) *)
Fixpoint lb_loop (n : nat) (avg_load allowed_extra_load : Z) (st : lb_state) : outcome lb_state :=
  match n with
  | O => Spent
  | S n =>
      let cs := qsort cores_compar (cores_copy st) in
      let! c := at_index cs (num_cores - 1) in
      let max := c_offered_load c in
      let (go, st) := lb_epoch st cs max in
      if negb go then Done st
      else if max <=? i32 (allowed_extra_load + avg_load) then Done st
      else if num_iter st >? LB_MAX_NUM_ITER then Done st
      else
        let! first_ol_core := first_overloaded fuel cs avg_load 0 in
        let! (ps, cs) := move_loop fuel avg_load first_ol_core (num_cores - 1) 0 (partitions st, cs) in
        lb_loop n avg_load allowed_extra_load
          (LbState ps cs (num_iter st) (epoch st) (max_offered_load st) (prev_max_offered_load st) (new_reta st))
  end.

(** The result, with the partitions and the cores as they are left;
    [uninit]: new_reta, before it is written. *)
Definition lb_rebalancing (uninit : Z -> Z) ps cs : outcome (Z * ((Z -> partition) * list core)) :=
  let total := total_load cs in
  if (num_cores =? 0) || (Z.quot num_partitions num_cores =? 0) then Undefined
  else
    let avg_load := Z.quot total num_cores in
    let allowed_extra_load := Z.quot avg_load (Z.quot num_partitions num_cores) in
    if negb (existsb (fun c => c_offered_load c >? i32 (allowed_extra_load + avg_load)) cs) then Done (0, (ps, cs))
    else
      let cs := set_root (-1) <$> cs in
      let! (ps, cs) := populate (Z.to_nat num_partitions) 0 (ps, cs) in
      let! st := lb_loop fuel avg_load allowed_extra_load (LbState ps cs 0 0 INT32_MAX INT32_MAX uninit) in
      let ps := loop_range 0 (Z.to_nat num_partitions)
                  (fun i ps => <[i := set_core (new_reta st i) (ps i)]> ps) (partitions st) in
      Done (if num_iter st >? 1 then 1 else 0, (ps, cs)).
End algorithm.

(** ** Sums *)

Lemma zsum_list_insert {A} (f : A -> Z) l i x y :
  l !! i = Some x -> zsum f (<[i := y]> l) = zsum f l + (f y - f x).
Proof.
  revert i. induction l as [|z l IH]; intros [|i] Hx; try done; cbn in Hx |- *.
  - injection Hx as ->. lia.
  - rewrite IH by done. lia.
Qed.

Lemma zsum_perm {A} (f : A -> Z) l l' : l ≡ₚ l' -> zsum f l = zsum f l'.
Proof. induction 1; cbn; lia. Qed.

Lemma zsum_plus {A} (f g : A -> Z) l : zsum (fun x => f x + g x) l = zsum f l + zsum g l.
Proof. induction l; cbn; lia. Qed.

Lemma zsum_fmap {A B} (f : B -> Z) (g : A -> B) l : zsum f (g <$> l) = zsum (fun x => f (g x)) l.
Proof. induction l; cbn; lia. Qed.

Lemma zsum_swap {A B} (f : A -> B -> Z) l l' :
  zsum (fun a => zsum (f a) l') l = zsum (fun b => zsum (fun a => f a b) l) l'.
Proof.
  induction l as [|a l IH]; cbn; [by induction l'; cbn; lia|]. rewrite IH. by rewrite <- zsum_plus.
Qed.

Lemma zsum_drop {A} (f : A -> Z) l k : (forall x, x ∈ l -> 0 <= f x) -> zsum f (drop k l) <= zsum f l.
Proof.
  revert k. induction l as [|x l IH]; intros [|k] Hf; cbn; try lia. pose proof (Hf x (list_elem_of_here _ _)).
  pose proof (IH k (fun y Hy => Hf y (list_elem_of_further _ _ _ Hy))). lia.
Qed.

(** A sum with one summand. *)
Lemma zsum_single k n x : 0 <= k < n -> zsum (fun j => if k =? j then x else 0) (seqZ 0 n) = x.
Proof.
  intros Hk. rewrite (zsum_change (fun _ => 0) _ (seqZ 0 n) k); [|apply NoDup_seqZ|apply elem_of_seqZ; lia|].
  - rewrite Z.eqb_refl. assert (zsum (fun _ : Z => 0) (seqZ 0 n) = 0) as -> by (induction (seqZ 0 n); cbn; lia). lia.
  - intros y _ Hy. by destruct (Z.eqb_spec k y).
Qed.

Lemma sorted_lookup (l : list Z) : StronglySorted Z.le l -> forall i j x y,
  (i < j)%nat -> l !! i = Some x -> l !! j = Some y -> x <= y.
Proof.
  induction 1 as [|z l _ IH Hz]; intros i j x y Hij Hi Hj; [done|]. destruct j as [|j]; [lia|].
  destruct i as [|i]; cbn in Hi, Hj; [|by eapply (IH i j); [lia|..]]. injection Hi as ->.
  rewrite Forall_forall in Hz. apply Hz. by eapply list_elem_of_lookup_2.
Qed.

(** ** The forest of all cores *)

Section proofs.
Context (m n : Z) (ld : Z -> Z).
Hypothesis Hld : forall i, 0 <= i < m -> 0 <= ld i.
Implicit Types (ps : Z -> partition) (cs : list core) (P : Z -> bool).

(** The load of the partitions in [P] that [asg] assigns to the core [k]. *)
Definition part_sum (asg : Z -> Z) P (k : Z) : Z :=
  zsum (fun j => if P j && (asg j =? k) then ld j else 0) (seqZ 0 m).
Abbreviation all := (fun _ : Z => true).
Abbreviation L := (zsum ld (seqZ 0 m)).

Lemma part_sum_ext asg asg' P P' k :
  (forall j, 0 <= j < m -> asg j = asg' j) -> (forall j, P j = P' j) -> part_sum asg P k = part_sum asg' P' k.
Proof. intros Ha HP. apply zsum_ext. intros j Hj%elem_of_seqZ. by rewrite HP, Ha by lia. Qed.

Lemma part_sum_bound asg P k : 0 <= part_sum asg P k <= L.
Proof.
  unfold part_sum. assert (forall j, j ∈ seqZ 0 m -> 0 <= ld j) as Hl.
  { intros j Hj%elem_of_seqZ. apply Hld. lia. }
  induction (seqZ 0 m) as [|j l IH]; cbn; [lia|].
  specialize (IH (fun j Hj => Hl j (list_elem_of_further _ _ _ Hj))). specialize (Hl j (list_elem_of_here _ _)).
  destruct (P j && (asg j =? k)); lia.
Qed.

Lemma L_nonneg : 0 <= L.
Proof. pose proof (part_sum_bound (fun _ => 0) all 0). lia. Qed.

(** The partition [i] comes or goes. *)
Lemma part_sum_change asg P i b k : 0 <= i < m -> P i = negb b ->
  part_sum asg (<[i := b]> P) k = part_sum asg P k + (if asg i =? k then if b then ld i else - ld i else 0).
Proof.
  intros Hi HP. unfold part_sum.
  rewrite (zsum_change (fun j => if P j && (asg j =? k) then ld j else 0) _ (seqZ 0 m) i);
    [|apply NoDup_seqZ|apply elem_of_seqZ; lia|by intros y _ Hy; rewrite fn_lookup_insert_ne by done].
  rewrite fn_lookup_insert, HP. destruct b, (asg i =? k); cbn; lia.
Qed.

Lemma part_sum_pos asg P k : 0 < part_sum asg P k -> exists j, 0 <= j < m /\ P j = true /\ asg j = k /\ 0 < ld j.
Proof.
  unfold part_sum. assert (forall j, j ∈ seqZ 0 m -> 0 <= j < m) as Hr by (intros j Hj%elem_of_seqZ; lia).
  induction (seqZ 0 m) as [|j l IH]; cbn; [lia|]. intros Hs.
  destruct (decide (0 < (if P j && (asg j =? k) then ld j else 0))) as [Hj|Hj].
  - destruct (P j) eqn:Ep; [|done]. destruct (Z.eqb_spec (asg j) k); [|done]. exists j. split; [|by auto].
    apply Hr. left.
  - apply IH; [intros; apply Hr; by right|lia].
Qed.

(** Every partition is on one core. *)
Lemma part_sum_total asg : (forall i, 0 <= i < m -> 0 <= asg i < n) -> zsum (part_sum asg all) (seqZ 0 n) = L.
Proof.
  intros Ha. unfold part_sum. rewrite zsum_swap. apply zsum_ext. intros j Hj%elem_of_seqZ.
  apply zsum_single. apply Ha. lia.
Qed.

Context (fuel : nat) (Hfuel : m <= Z.of_nat fuel).

Record forest ps cs P : Prop := {
  fo_loads j : offered_load (ps j) = ld j;
  fo_inds : NoDup (ind <$> cs);
  fo_tree c : c ∈ cs -> exists t, core_tree ps c t /\
    forall i, i ∈ inorder t <-> 0 <= i < m /\ P i = true /\ p_core (ps i) = ind c /\ 0 < ld i
}.

Lemma tree_small ps c t : core_tree ps c t -> (forall i, i ∈ inorder t -> 0 <= i < m) ->
  (length (inorder t) <= fuel)%nat.
Proof.
  intros [_ _ Hnd] Ht. assert (length (inorder t) <= length (seqZ 0 m))%nat as Hl.
  { apply NoDup_incl_length; [by apply NoDup_ListNoDup|]. intros i Hi%list_elem_of_In.
    apply list_elem_of_In, elem_of_seqZ. specialize (Ht i Hi). lia. }
  rewrite length_seqZ in Hl. lia.
Qed.

(** A core of the updated array. *)
Lemma elem_of_put cs a c d x : NoDup (ind <$> cs) -> cs !! a = Some c -> x ∈ <[a := d]> cs ->
  x = d \/ x ∈ cs /\ ind x <> ind c.
Proof.
  intros Hnd Ha [b Hb]%list_elem_of_lookup. destruct (decide (a = b)) as [->|Hne].
  - rewrite list_lookup_insert_eq in Hb by (by eapply lookup_lt_Some). left. congruence.
  - rewrite list_lookup_insert_ne in Hb by done. right. split; [by eapply list_elem_of_lookup_2|]. intros E.
    apply Hne. eapply (NoDup_lookup _ a b (ind c) Hnd); rewrite list_lookup_fmap.
    + by rewrite Ha.
    + by rewrite Hb, <- E.
Qed.

Lemma inds_put cs a c d : cs !! a = Some c -> ind d = ind c -> ind <$> <[a := d]> cs = ind <$> cs.
Proof.
  intros Ha E. rewrite list_fmap_insert, E. apply list_insert_id. by rewrite list_lookup_fmap, Ha.
Qed.

Lemma forest_ext ps cs P P' : (forall j, 0 <= j < m -> P j = P' j) -> forest ps cs P -> forest ps cs P'.
Proof.
  intros HP [Hl Hi Ht]. split; [done..|]. intros c Hc. destruct (Ht c Hc) as (t & H1 & H2). exists t. split; [done|].
  intros i. rewrite H2. split; (intros (Hr & Hi' & ?); split; [done|]; split; [|done]); specialize (HP i Hr); congruence.
Qed.

Lemma forest_perm ps cs cs' P : cs' ≡ₚ cs -> forest ps cs P -> forest ps cs' P.
Proof.
  intros Hp [Hl Hi Ht]. split; [done|by rewrite Hp|]. intros c Hc. apply Ht. by rewrite <- Hp.
Qed.

Lemma forest_insert ps cs P a c i : forest ps cs P -> cs !! a = Some c -> 0 <= i < m -> P i = false ->
  p_core (ps i) = ind c ->
  exists ps' c', insert fuel ps c i = Some (ps', c') /\ c_offered_load c' = c_offered_load c /\ ind c' = ind c /\
    (forall j, p_core (ps' j) = p_core (ps j)) /\
    forall d, root_partition d = root_partition c' -> ind d = ind c -> forest ps' (<[a := d]> cs) (<[i := true]> P).
Proof.
  intros Hf Ha Hi HP Hk. destruct Hf as [Hl Hnd Ht]. destruct (Ht c) as (t & Hc & Hin); [by eapply list_elem_of_lookup_2|].
  assert (i ∉ inorder t) as Hni by (rewrite Hin, HP; intros (_ & ? & _); done).
  destruct (insert_run ps c t i fuel Hc ltac:(lia) Hni) as (ps' & c' & t' & E & Hc' & Hp & Hre & Ec & Ei).
  { apply (tree_small ps c t); [done|]. intros j Hj%Hin. lia. }
  exists ps', c'. split; [done|]. split; [done|]. split; [done|]. split; [intros j; apply Hre|].
  intros d Hroot Hind. destruct Hre as [Hsame Hout].
  split; [intros j; by rewrite (proj1 (Hsame j))|by rewrite (inds_put cs a c d)|].
  intros x [->|[Hx Hne]]%(elem_of_put cs a c); [| |done|done].
  - exists t'. split; [destruct Hc'; by split; rewrite ?Hroot|]. intros j. rewrite Hp, (proj2 (Hsame j)), Hind.
    rewrite Hl. destruct (Z.leb_spec (ld i) 0) as [Hz|Hz].
    + rewrite Hin, fn_insert_dec. case_decide as Ej; [|done]. subst j. split; [intros (_ & ? & _); congruence|intros (_ & _ & _ & ?); lia].
    + rewrite elem_of_cons, Hin, fn_insert_dec. case_decide as Ej.
      * subst j. split; [by intros _|by left].
      * split; [intros [->|?]; [done|done]|by right].
  - destruct (Ht x Hx) as (u & Hu & Huin). exists u. split.
    + apply (relinked_core_tree (i :: inorder t) ps); [by split| |done].
      intros j Hj%Huin [->|Hjt%Hin]%elem_of_cons; [destruct Hj as (_ & ? & _); congruence|]. destruct Hj as (_ & _ & Ej & _), Hjt as (_ & _ & Ejt & _). congruence.
    + intros j. rewrite Huin, (proj2 (Hsame j)), fn_insert_dec. case_decide as Ej; [|done]. subst j.
      split; [intros (_ & ? & _); congruence|intros (_ & _ & ? & _); congruence].
Qed.

Lemma forest_delete ps cs P a c i : forest ps cs P -> cs !! a = Some c -> 0 <= i < m -> P i = true ->
  p_core (ps i) = ind c -> 0 < ld i ->
  exists ps' c', delete fuel ps c i = Some (0, (ps', c')) /\ c_offered_load c' = c_offered_load c /\ ind c' = ind c /\
    (forall j, p_core (ps' j) = p_core (ps j)) /\
    forall d, root_partition d = root_partition c' -> ind d = ind c -> forest ps' (<[a := d]> cs) (<[i := false]> P).
Proof.
  intros Hf Ha Hi HP Hk Hpos. destruct Hf as [Hl Hnd Ht]. destruct (Ht c) as (t & Hc & Hin); [by eapply list_elem_of_lookup_2|].
  assert (i ∈ inorder t) as Hit by (by apply Hin).
  destruct (delete_run ps c t i fuel Hc Hit) as (ps' & c' & t' & l1 & l2 & E & Hc' & E1 & E2 & Hre & Ec & Ei).
  { apply (tree_small ps c t); [done|]. intros j Hj%Hin. lia. }
  exists ps', c'. split; [done|]. split; [done|]. split; [done|]. split; [intros j; apply Hre|].
  intros d Hroot Hind. destruct Hre as [Hsame Hout].
  split; [intros j; by rewrite (proj1 (Hsame j))|by rewrite (inds_put cs a c d)|].
  intros x [->|[Hx Hne]]%(elem_of_put cs a c); [| |done|done].
  - exists t'. split; [destruct Hc'; by split; rewrite ?Hroot|]. intros j. rewrite (proj2 (Hsame j)), Hind, fn_insert_dec.
    pose proof (ct_nodup _ _ _ Hc) as Hn. rewrite E1 in Hn.
    assert (j ∈ inorder t' <-> j ∈ inorder t /\ j <> i) as ->.
    { rewrite E1, E2, !elem_of_app, elem_of_cons. apply NoDup_app in Hn as (_ & Hd & [Hni _]%NoDup_cons).
      specialize (Hd i). rewrite elem_of_cons in Hd. split; [|tauto]. intros [Hj|Hj]; (split; [tauto|]; intros ->; tauto). }
    rewrite Hin. case_decide as Ej; [subst j; split; [tauto|intros (_ & ? & _); done]|]. split; [tauto|]. intros ?. by split; [|congruence].
  - destruct (Ht x Hx) as (u & Hu & Huin). exists u. split.
    + apply (relinked_core_tree (inorder t) ps); [by split| |done].
      intros j Hj%Huin Hjt%Hin. destruct Hj as (_ & _ & Ej & _), Hjt as (_ & _ & Ejt & _). congruence.
    + intros j. rewrite Huin, (proj2 (Hsame j)), fn_insert_dec. case_decide as Ej; [|done]. subst j.
      split; [intros (_ & _ & ? & _); congruence|intros (_ & ? & _); done].
Qed.

(** A partition that is in no tree may change its core. *)
Lemma forest_set_core ps cs P i k : forest ps cs P -> P i = false -> forest (<[i := set_core k (ps i)]> ps) cs P.
Proof.
  intros [Hl Hnd Ht] HP. split; [|done|].
  - intros j. rewrite fn_insert_dec. case_decide; subst; cbn; apply Hl.
  - intros c Hc. destruct (Ht c Hc) as (t & Hct & Hin). exists t. split.
    + destruct Hct as [Hat Ho Hn]. split; [|eapply ordered_ext; [|exact Ho]; intros j _; cbv beta; rewrite fn_insert_dec; by case_decide; subst|done].
      apply (tree_at_ext t ps); [|done]. intros j _. rewrite fn_insert_dec. by case_decide; subst.
    + intros j. rewrite Hin, fn_insert_dec. case_decide as Ej; [|done]. subst j.
      split; intros (_ & ? & _); congruence.
Qed.

(** ** Between two steps of the algorithm *)

Hypotheses (Hmn : 0 < n <= m) (HL : L < 2 ^ 30).
Abbreviation asg ps := (fun j => p_core (ps j)).

Record lb_ok ps cs P : Prop := {
  ok_forest : forest ps cs P;
  ok_inds : ind <$> cs ≡ₚ seqZ 0 n;
  ok_core i : 0 <= i < m -> 0 <= p_core (ps i) < n;
  ok_load c : c ∈ cs -> c_offered_load c = part_sum (asg ps) P (ind c)
}.

Lemma ok_length ps cs P : lb_ok ps cs P -> Z.of_nat (length cs) = n.
Proof.
  intros Hok. rewrite <- (length_fmap ind). rewrite (ok_inds _ _ _ Hok), length_seqZ. lia.
Qed.

Lemma at_index_ok cs i : Z.of_nat (length cs) = n -> 0 <= i < n ->
  exists c, at_index cs i = Done c /\ cs !! Z.to_nat i = Some c /\ c ∈ cs.
Proof.
  intros Hl Hi. unfold at_index. destruct (Z.ltb_spec i 0); [lia|].
  destruct (cs !! Z.to_nat i) as [c|] eqn:E; [|apply lookup_ge_None in E; lia].
  exists c. split; [done|]. split; [done|]. by eapply list_elem_of_lookup_2.
Qed.

Lemma ok_bound ps cs P c : lb_ok ps cs P -> c ∈ cs -> 0 <= c_offered_load c <= L.
Proof. intros Hok Hc. rewrite (ok_load _ _ _ Hok c Hc). apply part_sum_bound. Qed.

Lemma ok_total ps cs : lb_ok ps cs all -> zsum c_offered_load cs = L.
Proof.
  intros Hok. rewrite <- (part_sum_total (asg ps) (ok_core _ _ _ Hok)).
  rewrite <- (zsum_perm _ _ _ (ok_inds _ _ _ Hok)), zsum_fmap. apply zsum_ext. intros c Hc. by apply (ok_load _ _ _ Hok).
Qed.

(** The loads after a partition has come or gone. *)
Lemma loads_put ps ps' cs P a c d i b : lb_ok ps cs P -> cs !! a = Some c -> ind d = ind c ->
  (forall j, p_core (ps' j) = p_core (ps j)) -> 0 <= i < m -> P i = negb b -> p_core (ps i) = ind c ->
  c_offered_load d = c_offered_load c + (if b then ld i else - ld i) ->
  forall x, x ∈ <[a := d]> cs -> c_offered_load x = part_sum (asg ps') (<[i := b]> P) (ind x).
Proof.
  intros Hok Ha Hd Hc Hi HP Hk Hload x Hx.
  rewrite (part_sum_ext (asg ps') (asg ps) _ (<[i := b]> P)) by done. rewrite part_sum_change by done.
  apply (elem_of_put cs a c) in Hx as [->|[Hx Hne]]; [| |by apply ok_forest in Hok; apply fo_inds in Hok|done].
  - rewrite Hload, Hd, Hk, Z.eqb_refl, <- (ok_load _ _ _ Hok c) by (by eapply list_elem_of_lookup_2). done.
  - rewrite <- (ok_load _ _ _ Hok x Hx), Hk. destruct (Z.eqb_spec (ind c) (ind x)); [congruence|lia].
Qed.

Lemma lb_delete ps cs P a c i : lb_ok ps cs P -> cs !! a = Some c -> 0 <= i < m -> P i = true ->
  p_core (ps i) = ind c -> 0 < ld i ->
  exists ps' c', delete fuel ps c i = Some (0, (ps', c')) /\ (forall j, p_core (ps' j) = p_core (ps j)) /\
    offered_load (ps' i) = ld i /\ c_offered_load (add_load (- ld i) c') = c_offered_load c - ld i /\
    lb_ok ps' (<[a := add_load (- ld i) c']> cs) (<[i := false]> P).
Proof.
  intros Hok Ha Hi HP Hk Hpos. pose proof (list_elem_of_lookup_2 _ _ _ Ha) as Hc.
  destruct (forest_delete ps cs P a c i (ok_forest _ _ _ Hok) Ha Hi HP Hk Hpos) as (ps' & c' & E & Ec & Ei & Hcore & Hf).
  assert (c_offered_load (add_load (- ld i) c') = c_offered_load c - ld i) as El.
  { cbn. rewrite Ec. pose proof (part_sum_bound (asg ps) (<[i := false]> P) (ind c)) as Hb.
    rewrite part_sum_change, Hk, Z.eqb_refl, <- (ok_load _ _ _ Hok c Hc) in Hb by done. apply i32_id. lia. }
  pose proof (Hf (add_load (- ld i) c') eq_refl Ei) as Hf'.
  exists ps', c'. split; [done|]. split; [done|]. split; [apply (fo_loads _ _ _ Hf')|]. split; [done|]. split; [done| | |].
  - rewrite (inds_put cs a c) by done. apply (ok_inds _ _ _ Hok).
  - intros j. rewrite Hcore. apply (ok_core _ _ _ Hok).
  - by apply (loads_put ps ps' cs P a c).
Qed.

Lemma lb_insert ps cs P a c i : lb_ok ps cs P -> cs !! a = Some c -> 0 <= i < m -> P i = false ->
  p_core (ps i) = ind c ->
  exists ps' c', insert fuel ps c i = Some (ps', c') /\ (forall j, p_core (ps' j) = p_core (ps j)) /\
    offered_load (ps' i) = ld i /\ lb_ok ps' (<[a := add_load (ld i) c']> cs) (<[i := true]> P).
Proof.
  intros Hok Ha Hi HP Hk. pose proof (list_elem_of_lookup_2 _ _ _ Ha) as Hc.
  destruct (forest_insert ps cs P a c i (ok_forest _ _ _ Hok) Ha Hi HP Hk) as (ps' & c' & E & Ec & Ei & Hcore & Hf).
  assert (c_offered_load (add_load (ld i) c') = c_offered_load c + ld i) as El.
  { cbn. rewrite Ec. pose proof (part_sum_bound (asg ps) (<[i := true]> P) (ind c)) as Hb.
    rewrite part_sum_change, Hk, Z.eqb_refl, <- (ok_load _ _ _ Hok c Hc) in Hb by done. apply i32_id. lia. }
  pose proof (Hf (add_load (ld i) c') eq_refl Ei) as Hf'.
  exists ps', c'. split; [done|]. split; [done|]. split; [apply (fo_loads _ _ _ Hf')|]. split; [done| | |].
  - rewrite (inds_put cs a c) by done. apply (ok_inds _ _ _ Hok).
  - intros j. rewrite Hcore. apply (ok_core _ _ _ Hok).
  - by apply (loads_put ps ps' cs P a c).
Qed.

Lemma lb_ok_ext ps cs P P' : (forall j, P j = P' j) -> lb_ok ps cs P -> lb_ok ps cs P'.
Proof.
  intros HP [Hf Hi Hc Hl]. split; [by eapply forest_ext; [intros; apply HP|]|done|done|].
  intros c Hin. rewrite Hl by done. by apply part_sum_ext.
Qed.

Lemma lb_set_core ps cs P i k : lb_ok ps cs P -> P i = false -> 0 <= k < n ->
  lb_ok (<[i := set_core k (ps i)]> ps) cs P.
Proof.
  intros [Hf Hi Hc Hl] HP Hk. split; [by apply forest_set_core|done| |].
  - intros j Hj. rewrite fn_insert_dec. case_decide; [done|by apply Hc].
  - intros c Hin. rewrite Hl by done. apply zsum_ext. intros j _. rewrite fn_insert_dec. case_decide; [|done]. subst.
    by rewrite HP.
Qed.

Lemma move_partition_ok ps cs p a b c : lb_ok ps cs all -> 0 <= a < n -> 0 <= b < n ->
  cs !! Z.to_nat a = Some c -> 0 <= p < m -> p_core (ps p) = ind c -> 0 < ld p ->
  exists ps' cs', move_partition fuel m p a b (ps, cs) = Done (ps', cs') /\ lb_ok ps' cs' all /\
    forall k, b < k <= a -> zsum c_offered_load (drop (Z.to_nat k) cs') = zsum c_offered_load (drop (Z.to_nat k) cs) - ld p.
Proof.
  intros Hok Ha Hb Hca Hp Hk Hpos. unfold move_partition.
  assert (at_index cs a = Done c) as ->.
  { unfold at_index. destruct (Z.ltb_spec a 0); [lia|]. by rewrite Hca. }
  cbn [obind]. destruct (lb_delete ps cs all _ c p Hok Hca Hp eq_refl Hk Hpos) as (ps1 & c1 & -> & Hcore1 & Hl1 & Ec1 & Hok1).
  cbn [spend obind]. unfold partition_at. destruct (Z.leb_spec 0 p), (Z.ltb_spec p m); try lia. cbn [andb obind]. rewrite Hl1.
  destruct (at_index_ok (put cs a (add_load (- ld p) c1)) b) as (u & -> & Hu & Huin); [by apply (ok_length _ _ _ Hok1)|done|].
  cbn [obind]. assert (0 <= ind u < n) as Hui.
  { assert (ind u ∈ seqZ 0 n) as Hin by (rewrite <- (ok_inds _ _ _ Hok1); by apply list_elem_of_fmap_2). apply elem_of_seqZ in Hin. lia. }
  pose proof (lb_set_core ps1 _ _ p (ind u) Hok1 ltac:(by rewrite fn_lookup_insert) Hui) as Hok2.
  destruct (lb_insert _ _ _ _ u p Hok2 Hu Hp) as (ps3 & u3 & -> & _ & Hl3 & Hok3);
    [by rewrite fn_lookup_insert|by rewrite fn_lookup_insert|]. cbn [spend obind]. rewrite Hl3.
  exists ps3, (put (put cs a (add_load (- ld p) c1)) b (add_load (ld p) u3)). split; [done|]. split.
  { eapply lb_ok_ext; [|exact Hok3]. intros j. rewrite !fn_insert_dec. by repeat case_decide. }
  intros k Hkr. unfold put. rewrite drop_insert_lt by lia. rewrite drop_insert_ge by lia.
  rewrite (zsum_list_insert _ _ _ c) by (rewrite lookup_drop, <- Hca; f_equal; lia). rewrite Ec1. lia.
Qed.

(** *** Moving partitions *)

Lemma zsum_drop_nonneg ps cs P k : lb_ok ps cs P -> 0 <= zsum c_offered_load (drop k cs).
Proof.
  intros Hok. apply zsum_nonneg. intros c Hc. apply (ok_bound ps cs P c Hok).
  rewrite <- (take_drop k cs). apply elem_of_app. by right.
Qed.

(** A core without a tree has no load. *)
Lemma empty_tree ps cs c t : lb_ok ps cs all -> c ∈ cs -> core_tree ps c t ->
  (forall i, i ∈ inorder t <-> 0 <= i < m /\ true = true /\ p_core (ps i) = ind c /\ 0 < ld i) -> t = Leaf ->
  c_offered_load c = 0.
Proof.
  intros Hok Hc Ht Hin ->. pose proof (ok_bound _ _ _ c Hok Hc) as Hb. destruct (decide (0 < c_offered_load c)) as [Hp|]; [|lia].
  rewrite (ok_load _ _ _ Hok c Hc) in Hp. apply part_sum_pos in Hp as (j & Hj & _ & Hk & Hl).
  assert (j ∈ inorder Leaf) as Hjl by (by apply Hin). by apply not_elem_of_nil in Hjl.
Qed.

Variable avg : Z.
Hypothesis Havg : 0 <= avg /\ n * avg <= L.

(** With two cores, the one that gets partitions is not asked for any. *)
Lemma two_cores ps cs c0 c1 : lb_ok ps cs all -> n = 2 -> cs !! 0%nat = Some c0 -> cs !! 1%nat = Some c1 ->
  c_offered_load c1 <= avg -> avg <= c_offered_load c0.
Proof.
  intros Hok Hn H0 H1 Hle. pose proof (ok_length _ _ _ Hok) as Hl. pose proof (ok_total _ _ Hok) as Ht.
  destruct cs as [|x [|y [|z cs]]]; try done; cbn in Hl; [|lia]. cbn in H0, H1, Ht. injection H0 as ->. injection H1 as ->. lia.
Qed.

Lemma search_ok ps cs c load : lb_ok ps cs all -> c ∈ cs ->
  exists p, search fuel ps c load = Some p /\
    (0 <= p < m /\ p_core (ps p) = ind c /\ 0 < ld p \/ p = -1 /\ c_offered_load c = 0).
Proof.
  intros Hok Hc. destruct (fo_tree _ _ _ (ok_forest _ _ _ Hok) c Hc) as (t & Ht & Hin).
  destruct (search_run ps c t load fuel Ht) as (p & E & Hp).
  { apply (tree_small ps c t); [done|]. intros j Hj%Hin. lia. }
  exists p. split; [done|]. destruct Hp as [(Hp & _)|(_ & [(Hp & _)|[Hl ->]])].
  - apply Hin in Hp. left. tauto.
  - apply Hin in Hp. left. tauto.
  - right. split; [done|]. by apply (empty_tree ps cs c t).
Qed.

Lemma move_loop_ok first (N : nat) : forall ol ul ps cs,
  lb_ok ps cs all -> 0 <= ul -> ol < n -> 0 <= first <= n ->
  (first <= ol -> zsum c_offered_load (drop (Z.to_nat first) cs) + (ol - first + 1) + Z.max 0 (first - ul) <= Z.of_nat N) ->
  match move_loop fuel m N avg first ol ul (ps, cs) with
  | Done (ps', cs') => lb_ok ps' cs' all
  | Undefined => 3 <= n
  | Spent => False
  end.
Proof.
  pose proof (fun ps cs P Hok => zsum_drop_nonneg ps cs P (Z.to_nat first) Hok) as Hpos. pose proof L_nonneg.
  induction N as [|N IH]; intros ol ul ps cs Hok Hul Hol Hfirst Hm; cbn [move_loop];
    destruct (Z.geb_spec ol first) as [Hge|]; cbn [andb]; try done; specialize (Hpos ps cs _ Hok);
    destruct (Z.ltb_spec ul first) as [Hlt|]; try done; [lia|]. cbn [fst snd].
  pose proof (ok_length _ _ _ Hok) as Hlen.
  destruct (at_index_ok cs ol) as (c & -> & Hc & Hcin); [done|lia|]. cbn [obind].
  set (ol' := if c_offered_load c <=? avg then ol - 1 else ol).
  assert (first - 1 <= ol' <= ol) as Hol' by (unfold ol'; destruct (c_offered_load c <=? avg); lia).
  destruct (at_index_ok cs ul) as (u & -> & Hu & Huin); [done|lia|]. cbn [obind].
  pose proof (ok_bound _ _ _ u Hok Huin) as Hub. rewrite i32_id by nia.
  destruct (Z.gtb_spec (avg - c_offered_load u) 0) as [Hmiss|Hmiss].
  2: { apply IH; [done|lia|lia|done|]. intros Hf. specialize (Hm ltac:(lia)). lia. }
  destruct (at_index_ok cs ol') as (c' & E' & Hc' & Hcin'); [done|lia|]. rewrite E'. cbn [obind].
  destruct (search_ok ps cs c' (avg - c_offered_load u) Hok Hcin') as (p & -> & Hp). cbn [spend obind].
  destruct Hp as [(Hp & Hpc & Hpl)|[-> Hz]].
  - unfold partition_at. destruct (Z.leb_spec 0 p), (Z.ltb_spec p m); try lia. cbn [andb obind].
    destruct (Z.eqb_spec (c_offered_load c') (offered_load (ps p))).
    { apply IH; [done|lia|lia|done|]. intros Hf. specialize (Hm ltac:(lia)). lia. }
    destruct (move_partition_ok ps cs p ol' ul c' Hok) as (ps' & cs' & -> & Hok' & Hs); [lia|lia|done|done|done|done|].
    cbn [obind]. apply IH; [done|lia|lia|done|]. intros Hf. specialize (Hm ltac:(lia)). rewrite Hs by lia. lia.
  - cbn. destruct (decide (3 <= n)) as [|Hn3]; [done|]. exfalso.
    assert (n = 2 /\ first = 1 /\ ol = 1 /\ ul = 0) as (Hn & -> & -> & ->) by lia.
    unfold ol' in *. destruct (Z.leb_spec (c_offered_load c) avg) as [Hle|Hgt].
    + pose proof (two_cores ps cs u c Hok Hn Hu Hc Hle). lia.
    + assert (c' = c) as -> by congruence. lia.
Qed.

Lemma first_overloaded_ok cs (N : nat) : forall i, Z.of_nat (length cs) = n -> 0 <= i < n ->
  (exists c, cs !! Z.to_nat (n - 1) = Some c /\ avg < c_offered_load c) -> n - 1 - i <= Z.of_nat N ->
  exists f, first_overloaded N cs avg i = Done f /\ 0 <= f < n.
Proof.
  induction N as [|N IH]; intros i Hl Hi (c & Hc & Hload) Hf; cbn [first_overloaded];
    destruct (at_index_ok cs i Hl Hi) as (x & -> & Hx & _); cbn [obind]; destruct (Z.leb_spec (c_offered_load x) avg) as [Hle|];
    [|by eexists| |by eexists].
  - assert (i = n - 1) as -> by lia. assert (c = x) as -> by congruence. lia.
  - apply IH; [done| |by eauto|lia]. split; [lia|]. destruct (decide (i = n - 1)) as [->|]; [|lia].
    assert (c = x) as -> by congruence. lia.
Qed.

(** *** The iterations *)

(** qsort puts a core with the greatest load last. *)
Lemma sorted_last `{Qsort} ps cs : lb_ok ps cs all ->
  let cs' := qsort cores_compar cs in
  lb_ok ps cs' all /\ exists c, at_index cs' (n - 1) = Done c /\ cs' !! Z.to_nat (n - 1) = Some c /\ c ∈ cs' /\
    forall x, x ∈ cs' -> c_offered_load x <= c_offered_load c.
Proof.
  intros Hok cs'. assert (cs' ≡ₚ cs) as Hp by apply qsort_perm.
  assert (lb_ok ps cs' all) as Hok'.
  { destruct Hok as [Hf Hi Hc Hl]. split; [by apply (forest_perm _ cs)|by rewrite Hp|done|]. intros c Hcin. apply Hl. by rewrite <- Hp. }
  split; [done|]. pose proof (ok_length _ _ _ Hok') as Hlen.
  destruct (at_index_ok cs' (n - 1) Hlen) as (c & E & Hc & Hcin); [lia|]. exists c. do 3 (split; [done|]).
  intros x [j Hj]%list_elem_of_lookup.
  assert (StronglySorted Z.le (c_offered_load <$> cs')) as Hs.
  { apply qsort_sorted. intros a b Ha Hb. unfold cores_compar. pose proof (ok_bound _ _ _ a Hok Ha).
    pose proof (ok_bound _ _ _ b Hok Hb). rewrite i32_id by lia. lia. }
  destruct (decide (j = Z.to_nat (n - 1))) as [->|Hne]; [by assert (x = c) as -> by congruence|].
  apply (sorted_lookup _ Hs j (Z.to_nat (n - 1))).
  - apply lookup_lt_Some in Hj. lia.
  - by rewrite list_lookup_fmap, Hj.
  - by rewrite list_lookup_fmap, Hc.
Qed.

(** The cores' loads when the partitions are assigned by [a]. *)
Definition max_of (a : Z -> Z) (x : Z) : Prop :=
  (forall k, 0 <= k < n -> part_sum a all k <= x) /\ exists k, 0 <= k < n /\ part_sum a all k = x.

Lemma max_of_unique a x y : max_of a x -> max_of a y -> x = y.
Proof. intros [H1 (k & Hk & <-)] [H2 (k' & Hk' & <-)]. specialize (H1 k' Hk'). specialize (H2 k Hk). lia. Qed.

Lemma max_of_ext a a' x : (forall i, 0 <= i < m -> a i = a' i) -> max_of a x -> max_of a' x.
Proof.
  intros Ha [H1 (k & Hk & H2)]. split; [|exists k; split; [done|]].
  - intros k' Hk'. rewrite <- (part_sum_ext a a' all all k') by done. by apply H1.
  - by rewrite <- (part_sum_ext a a' all all k).
Qed.

Lemma max_of_cores ps cs c : lb_ok ps cs all -> c ∈ cs -> (forall x, x ∈ cs -> c_offered_load x <= c_offered_load c) ->
  max_of (asg ps) (c_offered_load c).
Proof.
  intros Hok Hc Hmax. split.
  - intros k Hk. assert (k ∈ ind <$> cs) as (x & -> & Hx)%list_elem_of_fmap.
    { rewrite (ok_inds _ _ _ Hok). apply elem_of_seqZ. lia. }
    rewrite <- (ok_load _ _ _ Hok x Hx). by apply Hmax.
  - exists (ind c). split; [|by rewrite <- (ok_load _ _ _ Hok c Hc)].
    assert (ind c ∈ seqZ 0 n) as Hin by (rewrite <- (ok_inds _ _ _ Hok); by apply list_elem_of_fmap_2).
    apply elem_of_seqZ in Hin. lia.
Qed.

Variables (asg0 : Z -> Z) (b0 : Z).
Hypothesis Hb0 : max_of asg0 b0.

(** The assignment found so far has the greatest load [best], which is that of
    the first one until a better one is found. *)
Record found (st : lb_state) (best : Z) : Prop := {
  fd_range i : 0 <= i < m -> 0 <= new_reta st i < n;
  fd_max : max_of (new_reta st) best;
  fd_first : num_iter st = 1 -> forall i, 0 <= i < m -> new_reta st i = asg0 i;
  fd_best : 1 < num_iter st -> best < b0;
  fd_best_le : best <= b0
}.

(** Between two iterations. *)
Inductive running (st : lb_state) : Prop :=
| running_first : num_iter st = 0 -> epoch st = 0 -> max_offered_load st = INT32_MAX -> prev_max_offered_load st = INT32_MAX ->
    (forall i, 0 <= i < m -> p_core (partitions st i) = asg0 i) -> running st
| running_found best : 1 <= num_iter st -> found st best -> epoch st = 0 -> max_offered_load st = best ->
    best < prev_max_offered_load st -> running st
| running_epoch best : 1 <= num_iter st -> found st best -> epoch st = 1 -> prev_max_offered_load st = best ->
    best <= max_offered_load st -> running st.

Definition stopped (st : lb_state) : Prop := 1 <= num_iter st /\ exists best, found st best.

(** The iterations left. *)
Definition left_over (st : lb_state) : Z := 2 * (11 - num_iter st) + (1 - epoch st).

Lemma lb_epoch_ok st cs max : running st -> max_of (asg (partitions st)) max -> max <= L ->
  (forall i, 0 <= i < m -> 0 <= p_core (partitions st i) < n) ->
  let (go, st') := lb_epoch st cs max in
  partitions st' = partitions st /\
  if go then running st' /\ stopped st' /\ left_over st' < left_over st /\ epoch st' <= 1 /\ max_offered_load st' = max
  else stopped st'.
Proof.
  intros Hrun Hmax HmL Hcore. unfold lb_epoch. assert (max < INT32_MAX) as Hlt by (unfold INT32_MAX; lia).
  destruct Hrun as [Hn He Em Ep Hasg|best Hn Hf He Em Ep|best Hn Hf He Em Ep].
  - rewrite Ep, Em. destruct (Z.geb_spec max INT32_MAX); [lia|]. destruct (Z.ltb_spec max INT32_MAX); [|lia].
    split; [done|]. assert (found (LbState (partitions st) cs (num_iter st + 1) 0 max INT32_MAX (fun i => p_core (partitions st i))) max) as Hf.
    { assert (max = b0) as -> by (eapply max_of_unique; [exact Hmax|]; eapply max_of_ext; [|exact Hb0]; intros; by rewrite Hasg).
      split; cbn; [done|done|done|lia|done]. }
    split; [eapply running_found; cbn; [lia|exact Hf|done|done|done]|].
    split; [split; [cbn; lia|by exists max]|]. unfold left_over. cbn. lia.
  - rewrite Em, He. destruct (Z.geb_spec max (prev_max_offered_load st)) as [Hge|Hl].
    + cbn. split; [done|]. assert (found (LbState (partitions st) cs (num_iter st) 1 max best (new_reta st)) best) as Hf'
        by (by destruct Hf; split).
      split; [eapply running_epoch; cbn; [done|exact Hf'|done|done|lia]|]. split; [split; [done|by exists best]|].
      unfold left_over. cbn. lia.
    + destruct (Z.ltb_spec max best) as [Hb|Hb].
      * split; [done|]. assert (found (LbState (partitions st) cs (num_iter st + 1) 0 max best (fun i => p_core (partitions st i))) max) as Hf'.
        { pose proof (fd_best_le _ _ Hf). split; cbn; [done|done|lia|lia|lia]. }
        split; [eapply running_found; cbn; [lia|exact Hf'|done|done|done]|].
        split; [split; [cbn; lia|by exists max]|]. unfold left_over. cbn. lia.
      * split; [done|]. assert (found (LbState (partitions st) cs (num_iter st) (epoch st + 1) max best (new_reta st)) best) as Hf'
          by (by destruct Hf; split). rewrite He in Hf'.
        split; [eapply running_epoch; cbn; [done|exact Hf'|done|done|lia]|]. split; [split; [done|by exists best]|].
        unfold left_over. cbn. lia.
  - rewrite Em, He. destruct (Z.geb_spec max best) as [Hge|Hl].
    + cbn. split; [done|]. split; [done|]. exists best. by destruct Hf; split.
    + destruct (Z.ltb_spec max (max_offered_load st)); [|lia]. split; [done|].
      assert (found (LbState (partitions st) cs (num_iter st + 1) 0 max (max_offered_load st) (fun i => p_core (partitions st i))) max) as Hf'.
      { pose proof (fd_best_le _ _ Hf). split; cbn; [done|done|lia|lia|lia]. }
      split; [eapply running_found; cbn; [lia|exact Hf'|done|done|lia]|].
      split; [split; [cbn; lia|by exists max]|]. unfold left_over. cbn. lia.
Qed.

Variable allowed : Z.
Hypotheses (Hallowed : 0 <= allowed <= avg) (Hfuel2 : L + 2 * n <= Z.of_nat fuel).

Lemma lb_loop_ok `{Qsort} (N : nat) : forall st, running st -> lb_ok (partitions st) (cores_copy st) all ->
  left_over st <= Z.of_nat N -> 0 < left_over st ->
  match lb_loop fuel m n N avg allowed st with
  | Done st' => stopped st' /\ (forall j, offered_load (partitions st' j) = ld j)
  | Undefined => 3 <= n
  | Spent => False
  end.
Proof.
  pose proof L_nonneg. induction N as [|N IH]; intros st Hrun Hok Hm Hpos; cbn [lb_loop]; [lia|].
  destruct (sorted_last _ _ Hok) as [Hok' (c & -> & Hc & Hcin & Hmax)]. cbn [obind].
  set (cs' := qsort cores_compar (cores_copy st)) in *.
  pose proof (ok_bound _ _ _ c Hok' Hcin) as Hcb.
  pose proof (lb_epoch_ok st cs' (c_offered_load c) Hrun (max_of_cores _ _ c Hok' Hcin Hmax) ltac:(lia) (ok_core _ _ _ Hok)) as He.
  destruct (lb_epoch st cs' (c_offered_load c)) as [go st']. destruct He as [Ep He].
  assert (forall j, offered_load (partitions st' j) = ld j) as Hldp.
  { rewrite Ep. apply (fo_loads _ _ _ (ok_forest _ _ _ Hok)). }
  destruct go; cbn [negb]; [|by split]. destruct He as (Hrun' & Hst & Hlo & Hep & Emax).
  destruct (Z.leb_spec (c_offered_load c) (i32 (allowed + avg))) as [|Hgt]; [by split|].
  destruct (Z.gtb_spec (num_iter st') LB_MAX_NUM_ITER) as [|Hni]; [by split|]. unfold LB_MAX_NUM_ITER in Hni.
  rewrite i32_id in Hgt by nia.
  destruct (first_overloaded_ok cs' fuel 0) as (f & -> & Hf); [by apply (ok_length _ _ _ Hok')|lia| |lia|].
  { exists c. split; [done|lia]. }
  cbn [obind]. pose proof (move_loop_ok f fuel (n - 1) 0 (partitions st') cs') as Hmove. rewrite Ep in Hmove |- *.
  specialize (Hmove Hok' ltac:(lia) ltac:(lia) ltac:(lia)).
  assert (zsum c_offered_load (drop (Z.to_nat f) cs') <= L) as Hdrop.
  { rewrite <- (ok_total _ _ Hok'). apply zsum_drop. intros x Hx. by apply (ok_bound _ _ _ x Hok'). }
  specialize (Hmove ltac:(lia)). destruct (move_loop _ _ _ _ _ _ _ _) as [[ps2 cs2]| |]; cbn [obind]; [|done|done].
  apply IH; [|exact Hmove|unfold left_over in *; cbn; lia|unfold left_over; cbn; lia].
  destruct Hrun' as [Hz _ _ _ _|best Hn Hfd He Em Epv|best Hn Hfd He Em Epv].
  - destruct Hst as [Hn _]. lia.
  - eapply running_found; cbn; [done|by destruct Hfd; split|done|done|done].
  - eapply running_epoch; cbn; [done|by destruct Hfd; split|done|done|done].
Qed.

(** *** Populating the trees *)

Lemma populate_ok (F : Z -> Z) (N : nat) : forall i ps cs,
  0 <= i -> i + Z.of_nat N = m -> forest ps cs (fun j => j <? i) -> ind <$> cs = seqZ 0 n ->
  (forall j, 0 <= j < m -> 0 <= p_core (ps j) < n) -> (forall c, c ∈ cs -> c_offered_load c = F (ind c)) ->
  exists ps' cs', populate fuel N i (ps, cs) = Done (ps', cs') /\ forest ps' cs' all /\ ind <$> cs' = seqZ 0 n /\
    (forall j, p_core (ps' j) = p_core (ps j)) /\ (forall c, c ∈ cs' -> c_offered_load c = F (ind c)).
Proof.
  induction N as [|N IH]; intros i ps cs Hi Hm Hf Hinds Hcore Hload; cbn [populate].
  { exists ps, cs. split; [done|]. split; [|done]. eapply forest_ext; [|exact Hf]. intros j Hj. cbv beta. lia. }
  assert (0 <= p_core (ps i) < n) as Hk by (apply Hcore; lia).
  destruct (at_index_ok cs (p_core (ps i))) as (c & -> & Hc & Hcin).
  { rewrite <- (length_fmap ind), Hinds, length_seqZ. lia. } { done. }
  cbn [obind]. assert (p_core (ps i) = ind c) as Ek.
  { assert ((ind <$> cs) !! Z.to_nat (p_core (ps i)) = Some (ind c)) as E by (by rewrite list_lookup_fmap, Hc).
    rewrite Hinds in E. apply lookup_seqZ in E. lia. }
  destruct (forest_insert ps cs _ _ c i Hf Hc) as (ps1 & c1 & -> & Ec & Ei & Hcore1 & Hf1); [lia|lia|done|].
  cbn [spend obind]. destruct (IH (i + 1) ps1 (put cs (p_core (ps i)) c1)) as (ps' & cs' & -> & Hf' & Hi' & Hc' & Hl').
  - lia.
  - lia.
  - eapply forest_ext; [|by apply Hf1]. intros j Hj. rewrite fn_insert_dec. case_decide; lia.
  - unfold put. by rewrite (inds_put cs _ c).
  - intros j Hj. rewrite Hcore1. by apply Hcore.
  - intros x Hx. apply (elem_of_put cs _ c) in Hx as [->|[Hx _]]; [|by apply Hload|by apply fo_inds in Hf|done].
    rewrite Ec, Ei. by apply Hload.
  - exists ps', cs'. split; [done|]. split; [done|]. split; [done|]. split; [|done]. intros j. by rewrite Hc', Hcore1.
Qed.
End proofs.

Lemma total_load_sum cs : forall t, 0 <= t -> (forall c, c ∈ cs -> 0 <= c_offered_load c) ->
  t + zsum c_offered_load cs < 2 ^ 31 ->
  fold_left (fun t c => i32 (t + c_offered_load c)) cs t = t + zsum c_offered_load cs.
Proof.
  induction cs as [|c cs IH]; intros t Ht Hc Hs; cbn in *; [lia|].
  pose proof (Hc c (list_elem_of_here _ _)). assert (forall c, c ∈ cs -> 0 <= c_offered_load c) as Hc' by (intros; apply Hc; by right).
  pose proof (zsum_nonneg c_offered_load cs Hc'). rewrite i32_id by lia. rewrite IH by (done || lia). lia.
Qed.

(** The new assignment. *)
Lemma assign_cores (reta : Z -> Z) m ps : 0 <= m -> forall j,
  loop_range 0 (Z.to_nat m) (fun i ps => <[i := set_core (reta i) (ps i)]> ps) ps j =
    if (0 <=? j) && (j <? m) then set_core (reta j) (ps j) else ps j.
Proof.
  intros Hm j. revert j. apply (loop_range_spec (fun k (ps' : Z -> partition) => forall j, ps' j =
    if (0 <=? j) && (j <? k) then set_core (reta j) (ps j) else ps j)); [done| |].
  - intros j. by destruct (Z.leb_spec 0 j), (Z.ltb_spec j 0); try lia.
  - intros k ps' Hk IH j. rewrite fn_insert_dec. case_decide as E.
    + subst j. rewrite IH. destruct (Z.leb_spec 0 k), (Z.ltb_spec k k), (Z.ltb_spec k (k + 1)); try lia. done.
    + rewrite IH. by destruct (Z.leb_spec 0 j), (Z.ltb_spec j k), (Z.ltb_spec j (k + 1)); try lia.
Qed.

(** The load of the core [k]: that of its partitions. *)
Definition core_load (num_partitions : Z) (ps : Z -> partition) (k : Z) : Z :=
  zsum (fun j => if p_core (ps j) =? k then offered_load (ps j) else 0) (seqZ 0 num_partitions).

Lemma lb_rebalancing_run `{Qsort} (fuel : nat) (m n : Z) (uninit : Z -> Z) (ps : Z -> partition) (cs : list core)
    (Hn : 0 < n <= m)
    (Hparts : forall i, 0 <= i < m -> 0 <= offered_load (ps i) /\ 0 <= p_core (ps i) < n)
    (Hsmall : zsum (fun i => offered_load (ps i)) (seqZ 0 m) < 2 ^ 30)
    (Hinds : ind <$> cs = seqZ 0 n)
    (Hloads : forall c, c ∈ cs -> c_offered_load c = core_load m ps (ind c))
    (Hfuel : m + 2 * n + 23 + zsum (fun i => offered_load (ps i)) (seqZ 0 m) <= Z.of_nat fuel) :
  match lb_rebalancing fuel m n uninit ps cs with
  | Done (r, (ps', cs')) =>
      ind <$> cs' = seqZ 0 n /\
      (forall i, offered_load (ps' i) = offered_load (ps i)) /\
      (forall i, 0 <= i < m -> 0 <= p_core (ps' i) < n) /\
      (r = 0 /\ (forall i, 0 <= i < m -> p_core (ps' i) = p_core (ps i)) \/
       r = 1 /\ exists k, 0 <= k < n /\ forall k', 0 <= k' < n -> core_load m ps' k' < core_load m ps k)
  | Undefined => 3 <= n
  | Spent => False
  end.
Proof.
  set (ld := fun i => offered_load (ps i)) in *. set (L := zsum ld (seqZ 0 m)) in *.
  assert (forall i, 0 <= i < m -> 0 <= ld i) as Hld by (intros; by apply Hparts).
  assert (m <= Z.of_nat fuel) as Hf1.
  { pose proof (L_nonneg m ld Hld). unfold L in *. lia. }
  assert (forall k, core_load m ps k = part_sum m ld (fun j => p_core (ps j)) (fun _ => true) k) as Hcl by done.
  assert (zsum c_offered_load cs = L) as Htot.
  { unfold L. rewrite <- (part_sum_total m n ld (fun j => p_core (ps j))) by (intros; by apply Hparts).
    rewrite <- Hinds, zsum_fmap. apply zsum_ext. intros c Hc. by rewrite Hloads. }
  assert (forall c, c ∈ cs -> 0 <= c_offered_load c) as Hpos.
  { intros c Hc. rewrite Hloads, Hcl by done. by apply part_sum_bound. }
  unfold lb_rebalancing. destruct (Z.eqb_spec n 0); [lia|].
  assert (1 <= Z.quot m n) as Hq by (rewrite Z.quot_div_nonneg by lia; apply Z.div_le_lower_bound; lia).
  destruct (Z.eqb_spec (Z.quot m n) 0); [lia|]. cbn [orb].
  assert (total_load cs = L) as -> by (unfold total_load; rewrite total_load_sum by (done || lia); lia).
  assert (0 <= L) as HL0 by (by apply L_nonneg).
  assert (0 <= Z.quot L n /\ n * Z.quot L n <= L) as Havg.
  { rewrite Z.quot_div_nonneg by lia. split; [apply Z.div_pos; lia|apply Z.mul_div_le; lia]. }
  set (avg := Z.quot L n) in *.
  assert (0 <= Z.quot avg (Z.quot m n) <= avg) as Hal.
  { rewrite Z.quot_div_nonneg by lia. split; [apply Z.div_pos; lia|]. apply Z.div_le_upper_bound; nia. }
  destruct (existsb _ cs); cbn [negb].
  2: { split; [done|]. split; [done|]. split; [intros; by apply Hparts|]. by left. }
  (* the trees *)
  assert (ind <$> (set_root (-1) <$> cs) = seqZ 0 n) as Hinds0 by (rewrite <- list_fmap_compose; exact Hinds).
  assert (forest m ld ps (set_root (-1) <$> cs) (fun j => j <? 0)) as Hf0.
  { split; [done|rewrite Hinds0; apply NoDup_seqZ|]. intros c (c0 & -> & Hc0)%list_elem_of_fmap. exists Leaf.
    split; [by split; [cbn; lia| |apply NoDup_nil_2]|]. intros i. split; [by intros ?%not_elem_of_nil|lia]. }
  destruct (populate_ok m n ld fuel Hf1 Hn (core_load m ps) (Z.to_nat m) 0 ps (set_root (-1) <$> cs))
    as (ps1 & cs1 & -> & Hfor & Hi1 & Hc1 & Hl1); [done|lia|done|done|intros; by apply Hparts| |].
  { intros c (c0 & -> & Hc0)%list_elem_of_fmap. exact (Hloads c0 Hc0). }
  cbn [obind]. assert (lb_ok m n ld ps1 cs1 (fun _ => true)) as Hok.
  { split; [done|by rewrite Hi1|intros i Hi; rewrite Hc1; by apply Hparts|]. intros c Hc. rewrite (Hl1 c Hc), Hcl.
    by apply part_sum_ext. }
  destruct (sorted_last m n ld Hld fuel Hn Hsmall ps1 cs1 Hok) as [Hok' (cm & _ & _ & Hcm & Hcmax)].
  pose proof (max_of_cores m n ld fuel _ _ _ Hok' Hcm Hcmax) as Hb0.
  pose proof (max_of_ext m n ld (fun j => p_core (ps1 j)) (fun j => p_core (ps j)) _ (fun i _ => Hc1 i) Hb0) as Hb.
  pose proof (lb_loop_ok m n ld Hld fuel Hf1 Hn Hsmall avg Havg (fun j => p_core (ps j)) _ Hb (Z.quot avg (Z.quot m n)) Hal
    ltac:(fold L; lia) fuel (LbState ps1 cs1 0 0 INT32_MAX INT32_MAX uninit)) as Hloop.
  specialize (Hloop ltac:(by apply running_first) Hok ltac:(unfold left_over; cbn; fold L; lia) ltac:(unfold left_over; cbn; lia)).
  destruct (lb_loop _ _ _ _ _ _ _) as [st| |]; cbn [obind]; [|done|done].
  destruct Hloop as [[Hni (best & Hfd)] Hload].
  pose proof (assign_cores (new_reta st) m (partitions st) ltac:(lia)) as Hassign.
  set (ps' := loop_range _ _ _ _) in *.
  assert (forall i, 0 <= i < m -> p_core (ps' i) = new_reta st i) as Hcore'.
  { intros i Hi. rewrite Hassign. by destruct (Z.leb_spec 0 i), (Z.ltb_spec i m); try lia. }
  assert (forall i, offered_load (ps' i) = offered_load (ps i)) as Hload'.
  { intros i. rewrite Hassign. by destruct (_ && _); apply Hload. }
  split; [done|]. split; [done|]. split; [intros i Hi; rewrite Hcore' by done; by apply (fd_range _ _ _ _ _ _ _ Hfd)|].
  destruct (Z.gtb_spec (num_iter st) 1) as [Hgt|Hle]; [right|left].
  - split; [done|]. destruct Hb as [_ (k & Hk & Ek)]. exists k. split; [done|]. intros k' Hk'.
    rewrite Hcl, Ek. pose proof (fd_best _ _ _ _ _ _ _ Hfd Hgt) as Hlt.
    enough (core_load m ps' k' <= best) by lia.
    assert (core_load m ps' k' = part_sum m ld (new_reta st) (fun _ => true) k') as ->.
    { apply zsum_ext. intros j Hj%elem_of_seqZ. rewrite Hcore', Hload' by lia. done. }
    by apply (fd_max _ _ _ _ _ _ _ Hfd).
  - split; [done|]. intros i Hi. rewrite Hcore' by done. apply (fd_first _ _ _ _ _ _ _ Hfd); [lia|done].
Qed.

(** ** Property *)

(** C27: rebalancing terminates.  When it returns, the partitions have the
    loads they had and each is on a core; if it returns 0 each is on the core
    it was on, and if it returns 1 the greatest load of a core is smaller than
    before.  Only with three cores or more can it come to read in front of
    the array of partitions. *)
Theorem lb_rebalancing_spec `{Qsort} (fuel : nat) (m n : Z) (uninit : Z -> Z) (ps : Z -> partition) (cs : list core)
    (Hn : 0 < n <= m)
    (Hparts : forall i, 0 <= i < m -> 0 <= offered_load (ps i) /\ 0 <= p_core (ps i) < n)
    (Hsmall : zsum (fun i => offered_load (ps i)) (seqZ 0 m) < 2 ^ 30)
    (Hinds : ind <$> cs = seqZ 0 n)
    (Hloads : forall c, c ∈ cs -> c_offered_load c = core_load m ps (ind c))
    (Hfuel : m + 2 * n + 23 + zsum (fun i => offered_load (ps i)) (seqZ 0 m) <= Z.of_nat fuel) :
  match lb_rebalancing fuel m n uninit ps cs with
  | Done (r, (ps', _)) =>
      (forall i, offered_load (ps' i) = offered_load (ps i)) /\
      (forall i, 0 <= i < m -> 0 <= p_core (ps' i) < n) /\
      (r = 0 /\ (forall i, 0 <= i < m -> p_core (ps' i) = p_core (ps i)) \/
       r = 1 /\ exists k, 0 <= k < n /\ forall k', 0 <= k' < n -> core_load m ps' k' < core_load m ps k)
  | Undefined => 3 <= n
  | Spent => False
  end.
Proof.
  pose proof (lb_rebalancing_run fuel m n uninit ps cs Hn Hparts Hsmall Hinds Hloads Hfuel) as Hrun.
  destruct (lb_rebalancing fuel m n uninit ps cs) as [[r [ps' cs']]| |]; [|done|done]. by destruct Hrun as [_ Hrun].
Qed.

(** ** Witness: four partitions on one of two cores *)

Fixpoint sort_insert {A} (compar : A -> A -> Z) (x : A) (l : list A) : list A :=
  match l with
  | [] => [x]
  | y :: l' => if compar x y <=? 0 then x :: l else y :: sort_insert compar x l'
  end.
Definition insertion_sort {A} (compar : A -> A -> Z) : list A -> list A := foldr (sort_insert compar) [].

Lemma sort_insert_perm {A} (compar : A -> A -> Z) x l : sort_insert compar x l ≡ₚ x :: l.
Proof. induction l as [|y l IH]; [done|]. cbn. destruct (_ <=? 0); [done|]. by rewrite IH, Permutation_swap. Qed.

Lemma insertion_sort_perm {A} (compar : A -> A -> Z) l : insertion_sort compar l ≡ₚ l.
Proof. induction l as [|x l IH]; [done|]. cbn. by rewrite sort_insert_perm, IH. Qed.

Lemma sort_insert_sorted {A} (compar : A -> A -> Z) (key : A -> Z) x l :
  (forall a, a ∈ l -> compar x a <= 0 <-> key x <= key a) -> StronglySorted Z.le (key <$> l) ->
  StronglySorted Z.le (key <$> sort_insert compar x l).
Proof.
  induction l as [|y l IH]; intros Hk Hs; [by repeat constructor|]. cbn [sort_insert].
  inversion Hs as [|? ? Hl Hy]; subst. pose proof (Hk y (list_elem_of_here _ _)) as Hxy.
  destruct (Z.leb_spec (compar x y) 0) as [Hle|Hgt].
  - constructor; [done|]. apply Hxy in Hle. constructor; [done|]. eapply Forall_impl; [exact Hy|]. cbn. lia.
  - cbn [fmap list_fmap]. constructor; [apply IH; [by intros a Ha; apply Hk; right|done]|].
    rewrite sort_insert_perm. cbn. constructor; [lia|done].
Qed.

Lemma insertion_sort_sorted {A} (compar : A -> A -> Z) (key : A -> Z) l :
  (forall a b, a ∈ l -> b ∈ l -> compar a b <= 0 <-> key a <= key b) ->
  StronglySorted Z.le (key <$> insertion_sort compar l).
Proof.
  induction l as [|x l IH]; intros Hk; [constructor|]. cbn.
  apply sort_insert_sorted; [|apply IH; intros a b Ha Hb; apply Hk; by right].
  intros a Ha. rewrite insertion_sort_perm in Ha. apply Hk; [left|by right].
Qed.

#[local] Instance ex_qsort : Qsort := {|
  qsort := @insertion_sort;
  qsort_perm := @insertion_sort_perm;
  qsort_sorted := @insertion_sort_sorted
|}.

Definition ex_four (l : list (Z * Z)) : Z -> partition :=
  fun i => match l !! Z.to_nat i with Some (load, k) => Partition load k 7 7 | None => Partition 0 0 7 7 end.
Definition ex_balance : outcome (Z * ((Z -> partition) * list core)) :=
  lb_rebalancing 42 4 2 (fun _ => 9) (ex_four [(5, 0); (3, 0); (2, 0); (1, 0)]) [Core 11 7 0; Core 0 7 1].

(** The partition with the load 5 goes to the second core. *)
Lemma lb_rebalancing_spec_witness :
  match ex_balance with
  | Done (r, (ps', _)) => r = 1 /\ p_core <$> (ps' <$> [0; 1; 2; 3]) = [1; 0; 0; 0] /\
      exists k, 0 <= k < 2 /\ forall k', 0 <= k' < 2 ->
        core_load 4 ps' k' < core_load 4 (ex_four [(5, 0); (3, 0); (2, 0); (1, 0)]) k
  | _ => False
  end.
Proof.
  set (ps := ex_four [(5, 0); (3, 0); (2, 0); (1, 0)]).
  assert (forall i, 0 <= i < 4 -> 0 <= offered_load (ps i) /\ 0 <= p_core (ps i) < 2) as Hp.
  { intros i Hi. assert (i = 0 \/ i = 1 \/ i = 2 \/ i = 3) as [->|[->|[->| ->]]] by lia; vm_compute; repeat split; discriminate. }
  assert (forall c, c ∈ [Core 11 7 0; Core 0 7 1] -> c_offered_load c = core_load 4 ps (ind c)) as Hl.
  { intros c [->|[->|?%not_elem_of_nil]%elem_of_cons]%elem_of_cons; [vm_compute; reflexivity..|done]. }
  pose proof (lb_rebalancing_spec 42 4 2 (fun _ => 9) ps [Core 11 7 0; Core 0 7 1] ltac:(lia) Hp ltac:(vm_compute; reflexivity)
    ltac:(reflexivity) Hl ltac:(vm_compute; discriminate)) as Hs.
  change (lb_rebalancing 42 4 2 (fun _ => 9) ps [Core 11 7 0; Core 0 7 1]) with ex_balance in Hs.
  assert (match ex_balance with Done (r, (ps', _)) => (r, p_core <$> (ps' <$> [0; 1; 2; 3])) | _ => (0, []) end =
    (1, [1; 0; 0; 0])) as E by (vm_compute; reflexivity).
  destruct ex_balance as [[r [ps' cs']]| |]; [|discriminate E|discriminate E].
  pose proof (f_equal snd E) as E2. apply (f_equal fst) in E. cbn [fst snd] in E, E2. subst r.
  split; [reflexivity|]. split; [exact E2|].
  destruct Hs as (_ & _ & [[Hr _]|[_ Hk]]); [discriminate Hr|exact Hk].
Defined.

(** *** Where the code does not do what it means to *)

(** Four cores, the first two without load: after the third has given away a
    partition, ol_core passes below the overloaded cores and search is called
    on an empty tree; partitions[-1] is read. *)
Lemma underloaded_searched :
  lb_rebalancing 250 4 4 (fun _ => 9) (ex_four [(17, 2); (17, 2); (100, 3); (0, 0)])
    [Core 0 7 0; Core 0 7 1; Core 34 7 2; Core 100 7 3] = Undefined.
Proof. vm_compute. reflexivity. Qed.
