(* ===== verification/Barrier.v ===== *)
(** * The barrier of the load balancer

    src/deps/vigor/nf-lb/barrier.c, barrier_wait and barrier_wait_slow, where
    the workers and the core that rebalances them meet: threads run the
    accesses to the shared variables one at a time, in any order, as
    sequentially consistent memory would. *)

From stdpp Require Import relations.
From S2P Require Import Prelude.
Open Scope Z_scope.

(** Where a thread is in barrier_wait, with its passed_old: outside, before
    __sync_fetch_and_add, before bar = 0, before the store to passed, or in
    the while loop. *)
Inductive pc := Idle | Loaded (passed_old : Z) | Resetting (passed_old : Z) | Publishing (passed_old : Z) | Spinning (passed_old : Z).

(** [entered] and [left] count a thread's calls and returns. *)
Record barrier := Barrier {
  bar : Z;
  passed : Z;
  threads : Z -> pc;
  entered : Z -> Z;
  left : Z -> Z
}.

Section barrier.
Variables (P : Z) (slow : bool).

Definition barrier_init : barrier := Barrier 0 0 (fun _ => Idle) (fun _ => 0) (fun _ => 0).

Definition at_pc (t : Z) (p : pc) (s : barrier) : barrier :=
  Barrier (bar s) (passed s) (<[t := p]> (threads s)) (entered s) (left s).
Definition set_bar (x : Z) (s : barrier) : barrier := Barrier x (passed s) (threads s) (entered s) (left s).
Definition set_passed (x : Z) (s : barrier) : barrier := Barrier (bar s) x (threads s) (entered s) (left s).
Definition enter (t : Z) (s : barrier) : barrier :=
  Barrier (bar s) (passed s) (threads s) (<[t := entered s t + 1]> (entered s)) (left s).
Definition leave (t : Z) (s : barrier) : barrier :=
  Barrier (bar s) (passed s) (<[t := Idle]> (threads s)) (entered s) (<[t := left s t + 1]> (left s)).

(** The next access of the thread [t]; a thread outside calls again.
    barrier_wait_slow increments passed, which nobody else writes to then,
    barrier_wait stores passed_old + 1.  A full counter wraps around, as
    compiled code does it. *)
Definition wait_step (t : Z) (s : barrier) : barrier :=
  match threads s t with
  | Idle => at_pc t (Loaded (passed s)) (enter t s)
  | Loaded old => at_pc t (if bar s =? P - 1 then Resetting old else Spinning old) (set_bar (i32 (bar s + 1)) s)
  | Resetting old => at_pc t (Publishing old) (set_bar 0 s)
  | Publishing old => leave t (set_passed (i32 ((if slow then passed s else old) + 1)) s)
  | Spinning old => if passed s =? old then s else leave t s
  end.

Definition barrier_step (s s' : barrier) : Prop := exists t, 0 <= t < P /\ s' = wait_step t s.

(** A schedule; a fair round of one, in which every thread takes a step. *)
Definition run (l : list Z) (s : barrier) : barrier := foldl (fun s t => wait_step t s) s l.
Definition fair (l : list Z) : Prop := forall t, t ∈ l <-> 0 <= t < P.

(** ** The invariant *)

Lemma i32_next a : i32 a <> i32 (a + 1).
Proof.
  unfold i32, swrap. change (32 - 1) with 31. intros E.
  pose proof (Z.mod_pos_bound (a + 2 ^ 31) (2 ^ 32) ltac:(done)). pose proof (Z.mod_pos_bound (a + 1 + 2 ^ 31) (2 ^ 32) ltac:(done)).
  pose proof (Z.div_mod (a + 2 ^ 31) (2 ^ 32) ltac:(done)). pose proof (Z.div_mod (a + 1 + 2 ^ 31) (2 ^ 32) ltac:(done)). lia.
Qed.

Lemma i32_plus a : i32 (i32 a + 1) = i32 (a + 1).
Proof.
  unfold i32, swrap. change (32 - 1) with 31. f_equal.
  replace ((a + 2 ^ 31) mod 2 ^ 32 - 2 ^ 31 + 1 + 2 ^ 31) with ((a + 2 ^ 31) mod 2 ^ 32 + 1) by lia.
  rewrite Zplus_mod_idemp_l. f_equal. lia.
Qed.

(** [R] rounds are over; a thread of the next one has arrived once it has
    incremented bar. *)
Definition arrived (R : Z) (s : barrier) (t : Z) : bool :=
  match threads s t with Loaded _ => false | _ => entered s t =? R + 1 end.
Definition waiting (R : Z) (s : barrier) (t : Z) : Prop :=
  threads s t = Spinning (i32 R) /\ entered s t = R + 1 /\ left s t = R.

Definition arrive (R : Z) (s : barrier) (t : Z) : Z := if arrived R s t then 1 else 0.
Definition arrivals (R : Z) (s : barrier) : Z := zsum (arrive R s) (seqZ 0 P).

(** Threads arrive; or all have, and the last one resets bar; or has reset it. *)
Inductive phase (R : Z) (s : barrier) : Prop :=
| gathering : bar s = arrivals R s -> bar s < P ->
    (forall t, 0 <= t < P -> match threads s t with Resetting _ | Publishing _ => False | _ => True end) -> phase R s
| full t : 0 <= t < P -> threads s t = Resetting (i32 R) -> (forall u, 0 <= u < P -> u <> t -> waiting R s u) -> phase R s
| publishing t : 0 <= t < P -> threads s t = Publishing (i32 R) -> bar s = 0 ->
    (forall u, 0 <= u < P -> u <> t -> waiting R s u) -> phase R s.

Definition thread_ok (R : Z) (s : barrier) (t : Z) : Prop :=
  match threads s t with
  | Idle => entered s t = R /\ left s t = R
  | Spinning old => waiting R s t \/ old = i32 (R - 1) /\ entered s t = R /\ left s t = R - 1
  | Loaded old | Resetting old | Publishing old => old = i32 R /\ entered s t = R + 1 /\ left s t = R
  end.

Record barrier_inv (R : Z) (s : barrier) : Prop := {
  bi_passed : passed s = i32 R;
  bi_threads t : 0 <= t < P -> thread_ok R s t;
  bi_phase : phase R s
}.

Hypothesis HP : 0 < P < 2 ^ 31.

Lemma zsum_full (f : Z -> Z) (l : list Z) :
  (forall x, f x <= 1) -> zsum f l = Z.of_nat (length l) -> forall x, x ∈ l -> f x = 1.
Proof.
  intros Hf. induction l as [|y l IH]; cbn [zsum length]; intros Hs x Hx; [set_solver|].
  pose proof (zsum_bound f l 1 ltac:(auto) ltac:(lia)). pose proof (Hf y).
  apply elem_of_cons in Hx as [->|Hx]; [lia|]. apply IH; [lia|done].
Qed.

Lemma init_inv : barrier_inv 0 barrier_init.
Proof. split; [done|done|]. apply gathering; [|cbn; lia|done]. symmetry. by apply zsum_zero. Qed.

(** A step of [t] leaves the other threads as they are. *)
Definition alike (s s' : barrier) (u : Z) : Prop :=
  threads s' u = threads s u /\ entered s' u = entered s u /\ left s' u = left s u.

Lemma step_others t s u : u <> t -> alike s (wait_step t s) u.
Proof.
  intros Hu. unfold wait_step, alike. destruct (threads s t); [..|case_match]; cbn; by rewrite ?fn_lookup_insert_ne.
Qed.

Lemma alike_ok R s s' u : alike s s' u -> thread_ok R s u -> thread_ok R s' u.
Proof. intros (Ht & He & Hl). unfold thread_ok, waiting. by rewrite Ht, He, Hl. Qed.

Lemma alike_waiting R s s' u : alike s s' u -> waiting R s u -> waiting R s' u.
Proof. intros (Ht & He & Hl). unfold waiting. by rewrite Ht, He, Hl. Qed.

Lemma arrivals_step R s s' t : 0 <= t < P -> (forall u, u <> t -> alike s s' u) ->
  arrivals R s' = arrivals R s + (arrive R s' t - arrive R s t).
Proof.
  intros Ht Ho. apply (zsum_change _ _ _ t); [apply NoDup_seqZ|by apply elem_of_seqZ|].
  intros u _ Hu. destruct (Ho u Hu) as (E1 & E2 & _). unfold arrive, arrived. by rewrite E1, E2.
Qed.

Lemma arrive_bit R s t : arrive R s t = 0 \/ arrive R s t = 1.
Proof. unfold arrive. destruct (arrived R s t); auto. Qed.

Lemma arrivals_all R s : arrivals R s = P -> forall t, 0 <= t < P -> arrived R s t = true.
Proof.
  intros Hs t Ht. unfold arrivals in Hs. assert (arrive R s t = 1) as H.
  { apply (zsum_full (arrive R s) (seqZ 0 P)); [|rewrite length_seqZ; lia|by apply elem_of_seqZ].
    intros x. destruct (arrive_bit R s x); lia. }
  unfold arrive in H. by destruct (arrived R s t).
Qed.

(** Only while threads gather is a thread anywhere but waiting or completing
    the round. *)
Lemma phase_of R s t : phase R s -> 0 <= t < P ->
  match threads s t with
  | Idle | Loaded _ => bar s = arrivals R s /\ bar s < P /\ forall u, 0 <= u < P -> match threads s u with Resetting _ | Publishing _ => False | _ => True end
  | Spinning _ => True
  | Resetting _ => forall u, 0 <= u < P -> u <> t -> waiting R s u
  | Publishing _ => bar s = 0 /\ forall u, 0 <= u < P -> u <> t -> waiting R s u
  end.
Proof.
  intros [Hb Hlt Hg|v Hv E Hw|v Hv E Hb Hw] Ht.
  - specialize (Hg t Ht) as Hgt. by destruct (threads s t).
  - destruct (decide (t = v)) as [->|Hn]; [by rewrite E|]. by destruct (Hw t Ht Hn) as (-> & _).
  - destruct (decide (t = v)) as [->|Hn]; [by rewrite E|]. by destruct (Hw t Ht Hn) as (-> & _).
Qed.

Lemma threads_step R s s' t : 0 <= t < P -> (forall u, u <> t -> alike s s' u) -> thread_ok R s' t ->
  (forall u, 0 <= u < P -> thread_ok R s u) -> forall u, 0 <= u < P -> thread_ok R s' u.
Proof.
  intros Ht Ho Hok H u Hu. destruct (decide (u = t)) as [->|Hn]; [done|]. apply (alike_ok R s); auto.
Qed.

(** While threads gather, a step to a place other than Resetting. *)
Lemma gathering_step R s s' t : 0 <= t < P -> (forall u, u <> t -> alike s s' u) ->
  bar s = arrivals R s -> (forall u, 0 <= u < P -> match threads s u with Resetting _ | Publishing _ => False | _ => True end) ->
  match threads s' t with Resetting _ | Publishing _ => False | _ => True end ->
  bar s' = bar s + (arrive R s' t - arrive R s t) -> bar s' < P ->
  phase R s'.
Proof.
  intros Ht Ho Hb Hg Hgt Hb' Hlt. apply gathering; [|done|].
  - rewrite (arrivals_step R s s' t Ht Ho). lia.
  - intros u Hu. destruct (decide (u = t)) as [->|Hn]; [done|]. destruct (Ho u Hn) as (-> & _). by apply Hg.
Qed.

(** ** Steps preserve the invariant *)

Lemma call_inv R s t : barrier_inv R s -> 0 <= t < P -> threads s t = Idle -> barrier_inv R (wait_step t s).
Proof.
  intros [Hp Ht Hph] Hr E. pose proof (Ht t Hr) as Hok. unfold thread_ok in Hok. rewrite E in Hok. destruct Hok as [He Hl].
  pose proof (phase_of R s t Hph Hr) as Hph'. rewrite E in Hph'. destruct Hph' as (Hb & Hlt & Hg).
  assert (threads (wait_step t s) t = Loaded (passed s) /\ entered (wait_step t s) t = R + 1 /\ left (wait_step t s) t = R) as (Et & Ee & El).
  { unfold wait_step. rewrite E. cbn. rewrite !fn_lookup_insert. auto with lia. }
  split.
  - unfold wait_step. by rewrite E.
  - apply (threads_step R s _ t Hr (step_others t s)); [|done]. unfold thread_ok. by rewrite Et, Ee, El.
  - apply (gathering_step R s _ t Hr (step_others t s)); [done|done|by rewrite Et|..].
    + unfold arrive, arrived. rewrite Et, E, He. unfold wait_step. rewrite E. cbn. destruct (Z.eqb_spec R (R + 1)); lia.
    + unfold wait_step. by rewrite E.
Qed.

Lemma arrive_inv R s t old : barrier_inv R s -> 0 <= t < P -> threads s t = Loaded old -> barrier_inv R (wait_step t s).
Proof.
  intros [Hp Ht Hph] Hr E. pose proof (Ht t Hr) as Hok. unfold thread_ok in Hok. rewrite E in Hok. destruct Hok as (-> & He & Hl).
  pose proof (phase_of R s t Hph Hr) as Hph'. rewrite E in Hph'. destruct Hph' as (Hb & Hlt & Hg).
  assert (0 <= bar s) as Hb0 by (rewrite Hb; apply zsum_nonneg; intros x _; destruct (arrive_bit R s x); lia).
  assert (threads (wait_step t s) t = (if bar s =? P - 1 then Resetting (i32 R) else Spinning (i32 R)) /\
    entered (wait_step t s) t = R + 1 /\ left (wait_step t s) t = R /\ bar (wait_step t s) = bar s + 1) as (Et & Ee & El & Eb).
  { unfold wait_step. rewrite E. cbn. rewrite fn_lookup_insert, (i32_id (bar s + 1)) by lia. done. }
  assert (arrive R (wait_step t s) t = 1 /\ arrive R s t = 0) as (A1 & A0).
  { unfold arrive, arrived. rewrite Et, Ee, E, Z.eqb_refl. by case_match. }
  assert (thread_ok R (wait_step t s) t) as Hokt.
  { unfold thread_ok, waiting. rewrite Et, Ee, El. case_match; auto. }
  assert (forall u, 0 <= u < P -> thread_ok R (wait_step t s) u) as Hall by (by apply (threads_step R s _ t Hr (step_others t s))).
  split; [by unfold wait_step; rewrite E|done|]. destruct (Z.eqb_spec (bar s) (P - 1)) as [Hlast|Hnot].
  - apply (full R _ t Hr Et). intros u Hu Hn. pose proof (arrivals_step R s _ t Hr (step_others t s)) as Ha.
    pose proof (arrivals_all R (wait_step t s) ltac:(lia) u Hu) as Hau. specialize (Hall u Hu). specialize (Hg u Hu).
    destruct (step_others t s u Hn) as (Etu & _ & _). rewrite <- Etu in Hg. revert Hau Hall Hg. unfold arrived, thread_ok.
    destruct (threads (wait_step t s) u); try done; intros ->%Z.eqb_eq; intros Hw; [lia|]. destruct Hw as [|]; [done|lia].
  - apply (gathering_step R s _ t Hr (step_others t s)); [done|done|by rewrite Et|lia|lia].
Qed.

Lemma reset_inv R s t old : barrier_inv R s -> 0 <= t < P -> threads s t = Resetting old -> barrier_inv R (wait_step t s).
Proof.
  intros [Hp Ht Hph] Hr E. pose proof (Ht t Hr) as Hok. unfold thread_ok in Hok. rewrite E in Hok. destruct Hok as (-> & He & Hl).
  pose proof (phase_of R s t Hph Hr) as Hw. rewrite E in Hw.
  assert (threads (wait_step t s) t = Publishing (i32 R) /\ entered (wait_step t s) t = R + 1 /\ left (wait_step t s) t = R) as (Et & Ee & El).
  { unfold wait_step. rewrite E. cbn. by rewrite fn_lookup_insert. }
  split; [by unfold wait_step; rewrite E|apply (threads_step R s _ t Hr (step_others t s)); [|done]; unfold thread_ok; by rewrite Et, Ee, El|].
  apply (publishing R _ t Hr Et); [by unfold wait_step; rewrite E|].
  intros u Hu Hn. apply (alike_waiting R s); [by apply step_others|auto].
Qed.

Lemma publish_inv R s t old : barrier_inv R s -> 0 <= t < P -> threads s t = Publishing old -> barrier_inv (R + 1) (wait_step t s).
Proof.
  intros [Hp Ht Hph] Hr E. pose proof (Ht t Hr) as Hok. unfold thread_ok in Hok. rewrite E in Hok. destruct Hok as (-> & He & Hl).
  pose proof (phase_of R s t Hph Hr) as Hw. rewrite E in Hw. destruct Hw as [Hb Hw].
  assert (threads (wait_step t s) t = Idle /\ entered (wait_step t s) t = R + 1 /\ left (wait_step t s) t = R + 1) as (Et & Ee & El).
  { unfold wait_step. rewrite E. cbn. rewrite !fn_lookup_insert. auto with lia. }
  assert (forall u, 0 <= u < P -> u <> t -> waiting R (wait_step t s) u) as Hw'.
  { intros u Hu Hn. apply (alike_waiting R s); [by apply step_others|auto]. }
  split.
  - unfold wait_step. rewrite E. cbn. destruct slow; rewrite ?Hp; apply i32_plus.
  - intros u Hu. unfold thread_ok. destruct (decide (u = t)) as [->|Hn]; [rewrite Et; lia|].
    destruct (Hw' u Hu Hn) as (Eu & Eeu & Elu). rewrite Eu. right. by replace (R + 1 - 1) with R by lia.
  - apply gathering; [|unfold wait_step; rewrite E; cbn; lia|].
    + trans 0; [by unfold wait_step; rewrite E|]. symmetry. apply zsum_zero. intros u Hu%elem_of_seqZ. unfold arrive, arrived.
      assert (entered (wait_step t s) u = R + 1) as ->.
      { destruct (decide (u = t)) as [->|Hn]; [done|]. by destruct (Hw' u ltac:(lia) Hn) as (_ & ? & _). }
      destruct (Z.eqb_spec (R + 1) (R + 1 + 1)); [lia|]. by destruct (threads _ u).
    + intros u Hu. destruct (decide (u = t)) as [->|Hn]; [by rewrite Et|]. by destruct (Hw' u Hu Hn) as (-> & _).
Qed.

(** A thread in the while loop waits, or goes on because passed has changed. *)
Lemma spin_inv R s t old : barrier_inv R s -> 0 <= t < P -> threads s t = Spinning old ->
  old = i32 R /\ wait_step t s = s \/ old <> i32 R /\ threads (wait_step t s) t = Idle /\ barrier_inv R (wait_step t s).
Proof.
  intros [Hp Ht Hph] Hr E. pose proof (Ht t Hr) as Hok. unfold thread_ok in Hok. rewrite E in Hok.
  pose proof (i32_next (R - 1)) as Hi. replace (R - 1 + 1) with R in Hi by lia.
  destruct Hok as [(Eo & _)|(-> & He & Hl)].
  - rewrite E in Eo. injection Eo as ->. left. unfold wait_step. by rewrite E, Hp, Z.eqb_refl.
  - right. assert (wait_step t s = leave t s) as Es.
    { unfold wait_step. rewrite E, Hp. destruct (Z.eqb_spec (i32 R) (i32 (R - 1))); [congruence|done]. }
    assert (threads (wait_step t s) t = Idle /\ entered (wait_step t s) t = R /\ left (wait_step t s) t = R) as (Et & Ee & El).
    { rewrite Es. cbn. rewrite !fn_lookup_insert. auto with lia. }
    assert (~ waiting R s t) as Hnw by (intros (_ & ? & _); lia). split_and!; [done..|]. split; [by rewrite Es|..].
    { apply (threads_step R s _ t Hr (step_others t s)); [|done]. unfold thread_ok. by rewrite Et, Ee, El. }
    destruct Hph as [Hb Hlt Hg|v Hv Ev Hw|v Hv Ev Hb Hw].
    + apply (gathering_step R s _ t Hr (step_others t s)); [done|done|by rewrite Et|..]; [|by rewrite Es].
      unfold arrive, arrived. rewrite Et, Ee, E, He. rewrite Es. cbn. lia.
    + destruct (decide (t = v)) as [->|Hn]; [congruence|]. by destruct (Hnw (Hw t Hr Hn)).
    + destruct (decide (t = v)) as [->|Hn]; [congruence|]. by destruct (Hnw (Hw t Hr Hn)).
Qed.

(** ** Progress *)

(** How far a thread is in round [R]; 0: it has not left the round before. *)
Definition level (R : Z) (s : barrier) (t : Z) : Z :=
  match threads s t with
  | Spinning old => if old =? i32 R then 3 else 0
  | Idle => 1 | Loaded _ => 2 | Resetting _ => 4 | Publishing _ => 5
  end.

Lemma step_level R s t : barrier_inv R s -> 0 <= t < P ->
  barrier_inv (R + 1) (wait_step t s) \/
  barrier_inv R (wait_step t s) /\ (level R s t <> 3 /\ level R s t < level R (wait_step t s) t \/ level R s t = 3 /\ wait_step t s = s).
Proof.
  intros Hi Hr. unfold level. destruct (threads s t) as [|old|old|old|old] eqn:E.
  - right. split; [by apply call_inv|]. left. split; [done|]. unfold wait_step. rewrite E. cbn. by rewrite fn_lookup_insert.
  - right. split; [by apply (arrive_inv _ _ _ old)|]. left. split; [done|]. pose proof (bi_threads _ _ Hi t Hr) as Hok. unfold thread_ok in Hok.
    rewrite E in Hok. destruct Hok as (-> & _). unfold wait_step. rewrite E. cbn. rewrite fn_lookup_insert.
    destruct (bar s =? P - 1); [done|]. by rewrite Z.eqb_refl.
  - right. split; [by apply (reset_inv _ _ _ old)|]. left. split; [done|]. unfold wait_step. rewrite E. cbn. by rewrite fn_lookup_insert.
  - left. by apply (publish_inv _ _ _ old).
  - right. destruct (spin_inv R s t old Hi Hr E) as [(-> & Es)|(Hn & Et & Hi')].
    + rewrite Es, E, Z.eqb_refl. auto.
    + split; [done|]. left. rewrite Et. by destruct (Z.eqb_spec old (i32 R)).
Qed.

Lemma run_app l l' s : run (l ++ l') s = run l' (run l s).
Proof. apply foldl_app. Qed.

Lemma run_inv R s l : barrier_inv R s -> (forall t, t ∈ l -> 0 <= t < P) -> exists R', R <= R' /\ barrier_inv R' (run l s).
Proof.
  revert R s. induction l as [|t l IH]; intros R s Hi Hl; [by exists R|].
  assert (exists R1, R <= R1 /\ barrier_inv R1 (wait_step t s)) as (R1 & ? & Hi1).
  { destruct (step_level R s t Hi) as [|[? _]]; [set_solver|exists (R + 1)|exists R]; auto with lia. }
  destruct (IH R1 (wait_step t s) Hi1) as (R2 & ? & ?); [set_solver|]. exists R2. auto with lia.
Qed.

(** Unless the round ends, every thread that takes a step in [l] gets on, or
    is at the while loop and waits. *)
Lemma run_level R s l : barrier_inv R s -> (forall t, t ∈ l -> 0 <= t < P) ->
  (exists R', R < R' /\ barrier_inv R' (run l s)) \/
  barrier_inv R (run l s) /\ forall u, level R s u <= level R (run l s) u /\
    (level R s u = 3 -> level R (run l s) u = 3) /\ (u ∈ l -> level R s u < level R (run l s) u \/ level R s u = 3).
Proof.
  revert s. induction l as [|t l IH]; intros s Hi Hl; [right; split; [done|]; set_solver|].
  destruct (step_level R s t Hi) as [Hi1|[Hi1 Hlev]]; [set_solver|..].
  - left. destruct (run_inv _ _ l Hi1) as (R' & ? & ?); [set_solver|]. exists R'. auto with lia.
  - destruct (IH _ Hi1) as [|[Hi2 H2]]; [set_solver|by left|right]. split; [done|]. intros u. change (run (t :: l) s) with (run l (wait_step t s)).
    destruct (H2 u) as (Hm & H3m & Hs). destruct (decide (u = t)) as [->|Hn].
    + destruct Hlev as [[]|[H3 Es]]; [lia|]. rewrite Es in *. auto with lia.
    + assert (level R (wait_step t s) u = level R s u) as Eu.
      { unfold level. by destruct (step_others t s u Hn) as (-> & _). }
      rewrite Eu in *. split_and!; [lia|done|]. intros [->|Hu]%elem_of_cons; [done|auto].
Qed.

Lemma fair_levels R s rounds : barrier_inv R s -> Forall fair rounds ->
  (exists R', R < R' /\ barrier_inv R' (run (concat rounds) s)) \/
  barrier_inv R (run (concat rounds) s) /\
  forall u, 0 <= u < P -> Z.of_nat (length rounds) <= level R (run (concat rounds) s) u \/ level R (run (concat rounds) s) u = 3.
Proof.
  intros Hi Hf. induction rounds as [|l rounds IH] using rev_ind.
  - right. split; [done|]. intros u Hu. left. cbn. unfold level. by repeat case_match.
  - apply Forall_app in Hf as [Hf [Hl _]%Forall_cons]. specialize (IH Hf).
    rewrite concat_app, length_app. cbn. rewrite app_nil_r, run_app.
    destruct IH as [(R' & ? & Hi')|[Hi' Hlev]].
    + left. destruct (run_inv R' _ l Hi') as (R'' & ? & ?); [intros; by apply Hl|]. exists R''. auto with lia.
    + destruct (run_level R _ l Hi') as [|[Hi2 H2]]; [intros; by apply Hl|by left|right]. split; [done|].
      intros u Hu. destruct (H2 u) as (Hm & H3 & Hs). specialize (Hs ltac:(by apply Hl)). specialize (Hlev u Hu). lia.
Qed.

Lemma zsum_one {A} (l : list A) : zsum (fun _ => 1) l = Z.of_nat (length l).
Proof. induction l; cbn; lia. Qed.

(** Six rounds end the current one: the levels are at most 5, and threads
    cannot all wait. *)
Lemma six_rounds R s rounds : barrier_inv R s -> length rounds = 6%nat -> Forall fair rounds ->
  exists R', R < R' /\ barrier_inv R' (run (concat rounds) s).
Proof.
  intros Hi Hn Hf. destruct (fair_levels R s rounds Hi Hf) as [|[Hi' Hlev]]; [done|]. exfalso. rewrite Hn in Hlev.
  set (s' := run (concat rounds) s) in *.
  assert (forall u, 0 <= u < P -> threads s' u = Spinning (i32 R)) as Hall.
  { intros u Hu. specialize (Hlev u Hu). unfold level in Hlev. destruct (threads s' u); try lia. destruct (Z.eqb_spec passed_old (i32 R)); [by subst|lia]. }
  destruct Hi' as [_ Ht [Hb Hlt Hg|v Hv E Hw|v Hv E Hb Hw]]; [|by rewrite Hall in E..].
  assert (arrivals R s' = zsum (fun _ => 1) (seqZ 0 P)) as Ha.
  { apply zsum_ext. intros u Hu%elem_of_seqZ. specialize (Hall u ltac:(lia)). specialize (Ht u ltac:(lia)). unfold thread_ok in Ht.
    rewrite Hall in Ht. pose proof (i32_next (R - 1)) as Hi2. replace (R - 1 + 1) with R in Hi2 by lia.
    destruct Ht as [(_ & He & _)|(? & _)]; [|congruence]. unfold arrive, arrived. by rewrite Hall, He, Z.eqb_refl. }
  rewrite zsum_one, length_seqZ in Ha. lia.
Qed.

Lemma many_rounds k R s rounds : barrier_inv R s -> length rounds = (6 * k)%nat -> Forall fair rounds ->
  exists R', R + Z.of_nat k <= R' /\ barrier_inv R' (run (concat rounds) s).
Proof.
  revert R s rounds. induction k as [|k IH]; intros R s rounds Hi Hn Hf.
  - destruct rounds; [|cbn in Hn; lia]. exists R. auto with lia.
  - rewrite <- (take_drop 6 rounds) in Hf |- *. apply Forall_app in Hf as [Hf1 Hf2].
    destruct (six_rounds R s (take 6 rounds)) as (R1 & ? & Hi1); [done|rewrite length_take; lia|done|].
    destruct (IH R1 _ (drop 6 rounds) Hi1) as (R2 & ? & Hi2); [rewrite length_drop; lia|done|].
    exists R2. rewrite concat_app, run_app. auto with lia.
Qed.

Lemma reachable_inv s : rtc barrier_step barrier_init s -> exists R, barrier_inv R s.
Proof.
  apply (rtc_ind_r (fun s => exists R, barrier_inv R s) barrier_init); [exists 0; apply init_inv|].
  intros s1 s2 _ (t & Ht & ->) [R Hi]. destruct (run_inv R s1 [t] Hi) as (R' & _ & Hi'); [set_solver|by exists R'].
Qed.

Lemma inv_counts R s t : barrier_inv R s -> 0 <= t < P -> R <= entered s t <= R + 1 /\ R - 1 <= left s t <= R.
Proof.
  intros [_ Ht _] Hr. specialize (Ht t Hr). unfold thread_ok, waiting in Ht. destruct (threads s t); lia.
Qed.
End barrier.

(** C29: Threads meet at the barrier of the load balancer (barrier.c), however
    their accesses to bar and passed interleave.  No thread returns from its
    k-th call of barrier_wait before every thread has made its k-th call, and
    none is more than two calls ahead of the returns of another; and every
    thread returns at least k - 1 more times while each thread takes 6 k
    steps in fair rounds: no thread waits for ever, and a fast thread that
    re-enters does not hold up a slow one that has not left. *)
Theorem barrier_meets P slow s :
  0 < P < 2 ^ 31 -> rtc (barrier_step P slow) barrier_init s ->
  (forall t u, 0 <= t < P -> 0 <= u < P -> left s t <= entered s u <= left s t + 2) /\
  (forall k rounds t, length rounds = (6 * k)%nat -> Forall (fair P) rounds -> 0 <= t < P ->
     left s t + Z.of_nat k - 1 <= left (run P slow (concat rounds) s) t).
Proof.
  intros HP [R Hi]%(reachable_inv P slow HP). split.
  - intros t u Ht Hu. pose proof (inv_counts P R s t Hi Ht). pose proof (inv_counts P R s u Hi Hu). lia.
  - intros k rounds t Hn Hf Ht. destruct (many_rounds P slow HP k R s rounds Hi Hn Hf) as (R' & ? & Hi').
    pose proof (inv_counts P R s t Hi Ht). pose proof (inv_counts P R' _ t Hi' Ht). lia.
Qed.

(** Two workers, the second of which has not come yet; then twelve rounds. *)
Lemma barrier_meets_witness :
  let s := wait_step 2 false 0 (wait_step 2 false 0 barrier_init) in
  threads s 0 = Spinning 0 /\ left s 1 + Z.of_nat 2 - 1 <= left (run 2 false (concat (replicate 12 [0; 1])) s) 1.
Proof.
  split; [reflexivity|].
  refine (proj2 (barrier_meets 2 false _ _ _) 2%nat (replicate 12 [0; 1]) 1 _ _ _); [lia| |reflexivity| |lia].
  - eapply rtc_l; [exists 0; split; [lia|reflexivity]|]. eapply rtc_l; [exists 0; split; [lia|reflexivity]|]. apply rtc_refl.
  - apply Forall_forall. intros l Hl t. apply elem_of_replicate_inv in Hl as ->. rewrite !elem_of_cons, elem_of_nil. lia.
Defined.
