(* ===== verification/LbMonitor.v ===== *)
(** * The monitor of the cores

    src/deps/vigor/nf-lb/lb.c, lb_main: one pass of the loop, which looks at
    the lengths of the receive queues, estimates the load of the flow
    partitions and of the cores from the packets the cores counted, rebalances
    them (LbAlgo.v) and moves the partitions.  The reads of the counters and
    of the queues are inputs: cores count packets of the other epoch while a
    pass runs.  The log (ENABLE_LOG) and the delays are left out. *)

From stdpp Require Import list.
From S2P Require Import Prelude Bst LbAlgo Rss.
Open Scope Z_scope.

Definition Q_CNT_LB_THRESH : Z := 64.
Definition NUM_FLOW_PARTITIONS : Z := 128.

(** What lb_main and the cores keep: the lengths of the queues, by port and
    core; the cores' counters, by core, epoch and partition; new_reta. *)
Record monitor (D : Type) := Monitor {
  curr_rxq_len : Z -> Z;
  prev_rxq_len : Z -> Z;
  flow_partitions : Z -> partition;
  cores : list core;
  monitoring_epoch : Z;
  pkt_cnt : Z -> Z -> Z -> Z;
  lb_new_reta : Z -> Z;
  device : D
}.
Arguments Monitor {D} _ _ _ _ _ _ _ _.
Arguments curr_rxq_len {D} _.
Arguments prev_rxq_len {D} _.
Arguments flow_partitions {D} _.
Arguments cores {D} _.
Arguments monitoring_epoch {D} _.
Arguments pkt_cnt {D} _.
Arguments lb_new_reta {D} _.
Arguments device {D} _.

(** A loop whose body may be undefined. *)
Fixpoint loop_outcome {S} (i : Z) (n : nat) (body : Z -> S -> outcome S) (s : S) : outcome S :=
  match n with
  | O => Done s
  | Datatypes.S n => obind (body i s) (loop_outcome (i + 1) n body)
  end.

Section monitor.
Context {D : Type} `{Qsort, RetaDevice D} (fuel : nat) (num_queues num_ports : Z).
Implicit Types (ps : Z -> partition) (cs : list core) (s : monitor D).
#[local] Notation "'let!' x := c 'in' d" := (obind c (fun x => d)) (at level 10, x pattern, c at level 100, d at level 200).

Definition lb_triggered (rxq_len prev_rxq_len : Z -> Z) (num_rxq : Z) : bool :=
  existsb (fun i => (rxq_len i >? Q_CNT_LB_THRESH) && (rxq_len i >? prev_rxq_len i)) (seqZ 0 num_rxq).

(** Over ports and cores: the current length becomes the previous one.
    [rx]: rte_eth_rx_queue_count. *)
Definition sample_queues (rx : Z -> Z -> Z) (lens : (Z -> Z) * (Z -> Z)) : (Z -> Z) * (Z -> Z) :=
  loop_range 0 (Z.to_nat num_ports)
    (fun port lens =>
       loop_range 0 (Z.to_nat num_queues)
         (fun i '(prev, curr) =>
            let k := i + port * num_queues in
            (<[k := curr k]> prev, <[k := rx port i]> curr)) lens) lens.

(** rxq_len_diff[i] *)
Definition rxq_len_diff (prev curr : Z -> Z) (i : Z) : Z :=
  loop_range 0 (Z.to_nat num_ports)
    (fun port diff => i32 (diff + (curr (i + port * num_queues) - prev (i + port * num_queues)))) 0.

Definition set_load (x : Z) (p : partition) : partition := Partition x (p_core p) (left p) (right p).
Definition clear_load (c : core) : core := Core 0 (root_partition c) (ind c).

(** Goodput: what each core counted of its partitions in the epoch [e]. *)
Definition count_partition (cnt : Z -> Z -> Z -> Z) (e i : Z) (s : (Z -> partition) * list core) : outcome ((Z -> partition) * list core) :=
  let (ps, cs) := s in
  let k := p_core (ps i) in
  let! c := at_index cs k in
  let nf_pkt_cnt := cnt k e i in
  Done (<[i := set_load nf_pkt_cnt (ps i)]> ps, put cs k (add_load nf_pkt_cnt c)).

Definition goodput (cnt : Z -> Z -> Z -> Z) (e : Z) (s : (Z -> partition) * list core) : outcome ((Z -> partition) * list core) :=
  loop_outcome 0 (Z.to_nat NUM_FLOW_PARTITIONS) (count_partition cnt e) s.

(** Offered load: a partition's share of its core's queue growth is added. *)
Definition estimate_partition (diff : Z -> Z) (i : Z) (s : (Z -> partition) * list core) : outcome ((Z -> partition) * list core) :=
  let (ps, cs) := s in
  let k := p_core (ps i) in
  let goodput := offered_load (ps i) in
  let! c := at_index cs k in
  let p := if negb (c_offered_load c =? 0)
           then set_load (i32 (goodput + Z.quot (i32 (goodput * diff k)) (c_offered_load c))) (ps i) else ps i in
  let p := if offered_load p <? 0 then set_load 0 p else p in
  Done (<[i := p]> ps, cs).

Definition estimate (diff : Z -> Z) (s : (Z -> partition) * list core) : outcome ((Z -> partition) * list core) :=
  loop_outcome 0 (Z.to_nat NUM_FLOW_PARTITIONS) (estimate_partition diff) s.

Definition add_partition (i : Z) (s : (Z -> partition) * list core) : outcome ((Z -> partition) * list core) :=
  let (ps, cs) := s in
  let k := p_core (ps i) in
  let! c := at_index cs k in
  Done (ps, put cs k (add_load (offered_load (ps i)) c)).

Definition sum_loads (s : (Z -> partition) * list core) : outcome ((Z -> partition) * list core) :=
  loop_outcome 0 (Z.to_nat NUM_FLOW_PARTITIONS) add_partition s.

Definition clear_counters (e : Z) (cnt : Z -> Z -> Z -> Z) : Z -> Z -> Z -> Z :=
  loop_range 0 (Z.to_nat num_queues)
    (fun core cnt =>
       loop_range 0 (Z.to_nat NUM_FLOW_PARTITIONS)
         (fun i cnt => <[core := <[e := <[i := 0]> (cnt core e)]> (cnt core)]> cnt) cnt) cnt.

(** The partitions' cores become the tables of all ports, between the two
    calls of barrier_wait.  [garbage]: the local array of set_rss_reta. *)
Definition migrate (garbage : Z -> reta_entry64) ps (reta : Z -> Z) (d : D) : (Z -> Z) * D :=
  let reta := loop_range 0 (Z.to_nat NUM_FLOW_PARTITIONS) (fun i reta => <[i := p_core (ps i)]> reta) reta in
  (reta, loop_range 0 (Z.to_nat num_ports) (fun port d => (set_rss_reta port garbage reta NUM_FLOW_PARTITIONS d).2) d).

(** What lb_init and lb_main start with: new_reta, and each partition's core,
    from the table of the first device; [flow_partitions0], [uninit]: the
    local arrays. *)
Definition lb_start (garbage : Z -> reta_entry64) (uninit : Z -> Z) (flow_partitions0 : Z -> partition) (d : D) : monitor D :=
  let reta := (get_rss_reta 0 garbage uninit d).2 in
  Monitor (fun _ => 0) (fun _ => 0)
    (loop_range 0 (Z.to_nat NUM_FLOW_PARTITIONS) (fun i ps => <[i := set_core (reta i) (ps i)]> ps) flow_partitions0)
    ((fun i => Core 0 (-1) i) <$> seqZ 0 num_queues) 0 (fun _ _ _ => 0) reta d.

(** One pass of the loop.  [rx1] and [rx2]: the lengths of the queues at its
    start and after rebalancing; [uninit]: the local array of lb_rebalancing. *)
Definition lb_pass (garbage : Z -> reta_entry64) (uninit : Z -> Z) (rx1 rx2 : Z -> Z -> Z) s : outcome (monitor D) :=
  let prev_epoch := monitoring_epoch s in
  let epoch := 1 - monitoring_epoch s in
  let (prev, curr) := sample_queues rx1 (prev_rxq_len s, curr_rxq_len s) in
  if lb_triggered curr prev (num_queues * num_ports) then
    let! (ps, cs) := goodput (pkt_cnt s) prev_epoch (flow_partitions s, clear_load <$> cores s) in
    let! (ps, cs) := estimate (rxq_len_diff prev curr) (ps, cs) in
    let! (ps, cs) := sum_loads (ps, clear_load <$> cs) in
    let! (is_reta_update_needed, (ps, cs)) := lb_rebalancing fuel NUM_FLOW_PARTITIONS num_queues uninit ps cs in
    let (reta, d) := if negb (is_reta_update_needed =? 0) then migrate garbage ps (lb_new_reta s) (device s)
                     else (lb_new_reta s, device s) in
    let cnt := clear_counters prev_epoch (pkt_cnt s) in
    let prev_epoch := epoch in
    let epoch := 1 - epoch in
    let (prev, curr) := sample_queues rx2 (prev, curr) in
    Done (Monitor curr prev ps cs epoch (clear_counters prev_epoch cnt) reta d)
  else
    Done (Monitor curr prev (flow_partitions s) (cores s) epoch (clear_counters prev_epoch (pkt_cnt s)) (lb_new_reta s) (device s)).
End monitor.

(** ** Loops over the partitions *)

Lemma loop_outcome_spec {S} (I : Z -> S -> Prop) body n s :
  0 <= n -> I 0 s -> (forall k s, 0 <= k < n -> I k s -> exists s', body k s = Done s' /\ I (k + 1) s') ->
  exists s', loop_outcome 0 (Z.to_nat n) body s = Done s' /\ I n s'.
Proof.
  intros Hn H0 Hb. assert (forall m i s, 0 <= i -> i + Z.of_nat m = n -> I i s ->
    exists s', loop_outcome i m body s = Done s' /\ I n s') as H; [|apply H; [lia|lia|done]].
  induction m as [|m IH]; intros i s' Hi Hm Hs; cbn [loop_outcome].
  - exists s'. by replace n with i by lia.
  - destruct (Hb i s' ltac:(lia) Hs) as (s1 & -> & H1). apply IH; [lia|lia|done].
Qed.

Lemma seqZ_last k : 0 <= k -> seqZ 0 (k + 1) = seqZ 0 k ++ [k].
Proof. intros. by rewrite seqZ_app by lia. Qed.

Lemma zsum_last (f : Z -> Z) k : 0 <= k -> zsum f (seqZ 0 (k + 1)) = zsum f (seqZ 0 k) + f k.
Proof.
  intros. rewrite seqZ_last by done. induction (seqZ 0 k) as [|x l IH]; cbn; lia.
Qed.

Lemma zsum_mono {A} (f g : A -> Z) l : (forall x, x ∈ l -> f x <= g x) -> zsum f l <= zsum g l.
Proof.
  induction l as [|x l IH]; intros H; cbn; [lia|]. pose proof (H x ltac:(set_solver)).
  assert (zsum f l <= zsum g l) by (apply IH; set_solver). lia.
Qed.

Section loads.
Context (num_queues : Z).

(** What the partitions before [k] whose core is [c] add up to, in [w]. *)
Definition part_load (own w : Z -> Z) (k c : Z) : Z := zsum (fun j => if own j =? c then w j else 0) (seqZ 0 k).

Record loaded (own w : Z -> Z) (k : Z) (cs : list core) : Prop := {
  ld_inds : ind <$> cs = seqZ 0 num_queues;
  ld_sum c : c ∈ cs -> c_offered_load c = part_load own w k (ind c)
}.

Lemma part_load_range own w b k c : (forall j, 0 <= j < k -> 0 <= w j <= b) -> 0 <= k -> 0 <= part_load own w k c <= b * k.
Proof.
  intros Hw Hk. unfold part_load. assert (0 < k -> 0 <= b) as Hb by (intros; specialize (Hw 0 ltac:(lia)); lia). split.
  - apply zsum_nonneg. intros j Hj%elem_of_seqZ. specialize (Hw j ltac:(lia)). case_match; lia.
  - destruct (Z.eq_dec k 0) as [->|]; [rewrite seqZ_nil by lia; cbn; lia|].
    pose proof (zsum_bound (fun j => if own j =? c then w j else 0) (seqZ 0 k) b) as H.
    rewrite length_seqZ, Z2Nat.id in H by lia. apply H; [|lia]. intros j Hj%elem_of_seqZ. specialize (Hw j ltac:(lia)). case_match; lia.
Qed.

Lemma loaded_clear own w cs : ind <$> cs = seqZ 0 num_queues -> loaded own w 0 (clear_load <$> cs).
Proof.
  intros Hi. split; [by rewrite <- list_fmap_compose|]. by intros c (c0 & -> & _)%list_elem_of_fmap.
Qed.

Lemma core_at own w k cs i : loaded own w k cs -> 0 <= i < num_queues ->
  exists c, at_index cs i = Done c /\ cs !! Z.to_nat i = Some c /\ ind c = i /\ c_offered_load c = part_load own w k i.
Proof.
  intros [Hi Hs] Hr. destruct (at_index_ok num_queues num_queues 0 ltac:(lia) cs i) as (c & E & Hc & Hin); [|done|].
  { rewrite <- (length_fmap ind), Hi, length_seqZ. lia. }
  exists c. assert (ind c = i) as Ei.
  { assert ((ind <$> cs) !! Z.to_nat i = Some (ind c)) as E' by (by rewrite list_lookup_fmap, Hc).
    rewrite Hi in E'. apply lookup_seqZ in E'. lia. }
  split; [done|]. split; [done|]. split; [done|]. rewrite Hs by done. by rewrite Ei.
Qed.

(** The load of the partition [k] goes to its core. *)
Lemma loaded_add own w b k cs c : loaded own w k cs -> 0 <= k < NUM_FLOW_PARTITIONS -> 0 <= own k < num_queues ->
  (forall j, 0 <= j < NUM_FLOW_PARTITIONS -> 0 <= w j <= b) -> b < 2 ^ 23 -> at_index cs (own k) = Done c ->
  loaded own w (k + 1) (put cs (own k) (add_load (w k) c)).
Proof.
  intros Hl Hk Ho Hw Hb Ec. destruct (core_at own w k cs (own k) Hl Ho) as (c' & E & Hc & Ei & Es).
  rewrite Ec in E. injection E as <-. destruct Hl as [Hi Hs]. unfold put. split; [by rewrite (inds_put cs _ c)|].
  unfold NUM_FLOW_PARTITIONS in *. pose proof (part_load_range own w b k (own k) ltac:(intros; apply Hw; lia) ltac:(lia)) as Hr.
  pose proof (Hw k Hk) as Hwk. cbv beta in Hr. intros x Hx. unfold part_load. rewrite zsum_last by lia. fold (part_load own w k (ind x)).
  apply (elem_of_put cs _ c) in Hx as [->|[Hx Hne]]; [| |rewrite Hi; apply NoDup_seqZ|done].
  - cbn. rewrite Ei, Es, Z.eqb_refl. apply i32_id. nia.
  - rewrite (Hs x Hx). destruct (Z.eqb_spec (own k) (ind x)); [congruence|lia].
Qed.
End loads.

(** ** The estimate *)

(** The offered load of a partition with goodput [g], on a core with goodput
    [total] whose queue grew by [d]. *)
Definition offered (g d total : Z) : Z := Z.max 0 (if total =? 0 then g else g + Z.quot (g * d) total).

Lemma offered_range g d total : 0 <= g <= total ->
  g + Z.min 0 (Z.quot (g * d) total) <= offered g d total /\ 0 <= offered g d total <= g + Z.abs d.
Proof.
  intros Hg. unfold offered. destruct (Z.eqb_spec total 0) as [->|Hn].
  - assert (g = 0) as -> by lia. rewrite Z.mul_0_l. change (Z.quot 0 0) with 0. lia.
  - assert (Z.abs (Z.quot (g * d) total) <= Z.abs d) as Ha; [|lia].
    rewrite <- (Z.quot_abs (g * d) total), Z.abs_mul by done.
    apply Z.quot_le_upper_bound; nia.
Qed.

Lemma offered_share g d total : 0 <= g <= total ->
  total * g + g * Z.min 0 d <= total * offered g d total <= total * g + g * Z.max 0 d.
Proof.
  intros Hg. unfold offered. destruct (Z.eqb_spec total 0) as [->|Hn]; [nia|].
  destruct (Z.le_gt_cases 0 d) as [Hd|Hd].
  - rewrite Z.quot_div_nonneg by nia. pose proof (Z.mul_div_le (g * d) total ltac:(lia)).
    assert (0 <= g * d / total) by (apply Z.div_pos; nia). nia.
  - replace (g * d) with (- (g * - d)) by lia. rewrite Z.quot_opp_l, Z.quot_div_nonneg by nia.
    pose proof (Z.mul_div_le (g * - d) total ltac:(lia)). assert (0 <= g * - d / total) by (apply Z.div_pos; nia).
    set (q := g * - d / total) in *. destruct (Z.max_spec 0 (g + - q)) as [[? ->]|[? ->]]; nia.
Qed.

Lemma zsum_mul {A} k (f : A -> Z) l : zsum (fun x => k * f x) l = k * zsum f l.
Proof. induction l as [|x l IH]; cbn; lia. Qed.

Lemma part_load_elem own w b k j : (forall j, 0 <= j < k -> 0 <= w j <= b) -> 0 <= j < k -> w j <= part_load own w k (own j).
Proof.
  intros Hw Hj. unfold part_load.
  pose proof (zsum_elem (fun i => if own i =? own j then w i else 0) (seqZ 0 k) j) as H. cbv beta in H. rewrite Z.eqb_refl in H.
  apply H; [|by apply elem_of_seqZ]. intros i Hi%elem_of_seqZ. specialize (Hw i ltac:(lia)). case_match; lia.
Qed.

(** The shares of a core's partitions come to about the growth of its queue. *)
Lemma offered_sum own w (d : Z -> Z) b k c : (forall j, 0 <= j < k -> 0 <= w j <= b) ->
  let total := part_load own w k in
  let load := part_load own (fun j => offered (w j) (d (own j)) (total (own j))) k c in
  total c + Z.min 0 (d c) <= load <= total c + Z.max 0 (d c).
Proof.
  intros Hw total load.
  assert (forall j, j ∈ seqZ 0 k -> own j = c -> 0 <= w j <= total c) as Hel.
  { intros j Hj%elem_of_seqZ E. subst c. split; [apply Hw; lia|apply (part_load_elem own w b); [done|lia]]. }
  pose proof (zsum_mul (total c) (fun j => if own j =? c then offered (w j) (d (own j)) (total (own j)) else 0) (seqZ 0 k)) as El.
  change (zsum _ (seqZ 0 k)) with load in El at 2.
  assert (forall e, zsum (fun j => if own j =? c then (total c + e) * w j else 0) (seqZ 0 k) = (total c + e) * total c) as Ee.
  { intros e. unfold total at 3, part_load. rewrite <- zsum_mul. apply zsum_ext. intros j _. by case_match; rewrite ?Z.mul_0_r. }
  assert (total c * (total c + Z.min 0 (d c)) <= total c * load) as Hlo.
  { rewrite <- El, Z.mul_comm, <- Ee. apply zsum_mono. intros j Hj. destruct (Z.eqb_spec (own j) c) as [E|]; [|lia].
    rewrite E. pose proof (offered_share (w j) (d c) (total c) (Hel j Hj E)). lia. }
  assert (total c * load <= total c * (total c + Z.max 0 (d c))) as Hhi.
  { rewrite <- El, (Z.mul_comm _ (_ + _)), <- Ee. apply zsum_mono. intros j Hj. destruct (Z.eqb_spec (own j) c) as [E|]; [|lia].
    rewrite E. pose proof (offered_share (w j) (d c) (total c) (Hel j Hj E)). lia. }
  assert (0 <= total c) as H0 by (apply zsum_nonneg; intros j Hj; destruct (Z.eqb_spec (own j) c) as [E|]; [by apply Hel|lia]).
  destruct (Z.eq_dec (total c) 0) as [Ez|]; [|nia].
  assert (load = 0) as ->; [|lia]. apply zsum_zero. intros j Hj. destruct (Z.eqb_spec (own j) c) as [E|]; [|done].
  pose proof (Hel j Hj E). unfold offered. rewrite E, Ez. cbn. lia.
Qed.

(** ** One pass *)

Definition zero_if (P : Prop) (x old : Z) : Prop := (P -> x = 0) /\ (~ P -> x = old).

Lemma clear_counters_spec num_queues e cnt c e' i :
  0 <= num_queues ->
  zero_if (0 <= c < num_queues /\ e' = e /\ 0 <= i < NUM_FLOW_PARTITIONS) (clear_counters num_queues e cnt c e' i) (cnt c e' i).
Proof.
  intros Hnq. unfold clear_counters. revert c i.
  apply (loop_range_spec (fun n (cnt' : Z -> Z -> Z -> Z) => forall c i,
    zero_if (0 <= c < n /\ e' = e /\ 0 <= i < NUM_FLOW_PARTITIONS) (cnt' c e' i) (cnt c e' i))); [lia|split; [lia|done]|].
  intros core cnt1 Hc IH c i.
  assert (zero_if (c = core /\ e' = e /\ 0 <= i < NUM_FLOW_PARTITIONS) (loop_range 0 (Z.to_nat NUM_FLOW_PARTITIONS)
    (fun i cnt => <[core := <[e := <[i := 0]> (cnt core e)]> (cnt core)]> cnt) cnt1 c e' i) (cnt1 c e' i)) as Hrow.
  { revert i. apply (loop_range_spec (fun n (cnt' : Z -> Z -> Z -> Z) => forall i,
      zero_if (c = core /\ e' = e /\ 0 <= i < n) (cnt' c e' i) (cnt1 c e' i))); [done|split; [lia|done]|].
    intros k cnt2 Hk IH2 i. destruct (IH2 i) as [Hz Ho]. split; intros Hr; (fcase; [fcase; [fcase|]|]); (done || lia || (apply Hz; lia) || (apply Ho; lia)). }
  destruct Hrow as [Hz Ho], (IH c i) as [Hz1 Ho1]. split; intros Hr.
  - destruct (decide (c = core)); [apply Hz; lia|]. rewrite Ho by lia. apply Hz1. lia.
  - rewrite Ho by lia. apply Ho1. lia.
Qed.

Lemma clear_counters_range num_queues b e cnt c e' i : 0 <= num_queues -> 0 <= cnt c e' i <= b -> 0 <= clear_counters num_queues e cnt c e' i <= b.
Proof.
  intros Hnq Hr. destruct (clear_counters_spec num_queues e cnt c e' i Hnq) as [Hz Ho].
  destruct (decide (0 <= c < num_queues /\ e' = e /\ 0 <= i < NUM_FLOW_PARTITIONS)) as [H1|H1]; [rewrite Hz by done; lia|by rewrite Ho].
Qed.
Lemma core_load_by ps own w c : (forall j, 0 <= j < NUM_FLOW_PARTITIONS -> p_core (ps j) = own j /\ offered_load (ps j) = w j) ->
  core_load NUM_FLOW_PARTITIONS ps c = part_load own w NUM_FLOW_PARTITIONS c.
Proof. intros H. apply zsum_ext. intros j Hj%elem_of_seqZ. by destruct (H j ltac:(lia)) as [-> ->]. Qed.

Lemma part_load_ext own w w' c : (forall j, 0 <= j < NUM_FLOW_PARTITIONS -> w j = w' j) ->
  part_load own w NUM_FLOW_PARTITIONS c = part_load own w' NUM_FLOW_PARTITIONS c.
Proof. intros H. apply zsum_ext. intros j Hj%elem_of_seqZ. by rewrite H by lia. Qed.

Section pass.
Context {D : Type} `{Qsort, RetaDevice D} (fuel : nat) (num_queues num_ports q b : Z).
Hypotheses (Hnq : 0 < num_queues <= NUM_FLOW_PARTITIONS) (Hnp : 0 <= num_ports) (Hq : 0 <= q) (Hqb : num_ports * q <= b) (Hb : b < 2 ^ 15).

Lemma goodput_run cnt e ps cs (w := fun j => cnt (p_core (ps j)) e j) :
  ind <$> cs = seqZ 0 num_queues -> (forall j, 0 <= j < NUM_FLOW_PARTITIONS -> 0 <= p_core (ps j) < num_queues) ->
  (forall j, 0 <= j < NUM_FLOW_PARTITIONS -> 0 <= w j <= b) ->
  exists ps' cs', goodput cnt e (ps, clear_load <$> cs) = Done (ps', cs') /\
    (forall j, p_core (ps' j) = p_core (ps j)) /\ (forall j, 0 <= j < NUM_FLOW_PARTITIONS -> offered_load (ps' j) = w j) /\
    loaded num_queues (fun j => p_core (ps j)) w NUM_FLOW_PARTITIONS cs'.
Proof.
  intros Hi Ho Hw.
  destruct (loop_outcome_spec (fun k '(ps', cs') => (forall j, p_core (ps' j) = p_core (ps j)) /\
    (forall j, 0 <= j < k -> offered_load (ps' j) = w j) /\ loaded num_queues (fun j => p_core (ps j)) w k cs')
    (count_partition cnt e) NUM_FLOW_PARTITIONS (ps, clear_load <$> cs))
    as ([ps' cs'] & E & Hc & Hl & Hld); [done| |..].
  - split; [done|]. split; [lia|]. by apply loaded_clear.
  - intros k [ps1 cs1] Hk (Hc & Hl & Hld). unfold count_partition. cbv beta iota zeta. rewrite Hc. destruct (core_at _ _ _ _ _ (p_core (ps k)) Hld) as (c & Ec & _); [by apply Ho|].
    rewrite Ec. eexists. split; [done|]. split; [intros j; fcase; apply Hc|].
    split; [intros j Hj; fcase; [done|apply Hl; lia]|].
    eapply (loaded_add num_queues (fun j => p_core (ps j)) w b); [done|done|by apply Ho|done|lia|done].
  - exists ps', cs'. done.
Qed.

Lemma estimate_run diff own w ps cs (total := part_load own w NUM_FLOW_PARTITIONS) :
  (forall j, p_core (ps j) = own j) -> (forall j, 0 <= j < NUM_FLOW_PARTITIONS -> 0 <= own j < num_queues) ->
  (forall j, 0 <= j < NUM_FLOW_PARTITIONS -> offered_load (ps j) = w j /\ 0 <= w j <= b) ->
  (forall c, Z.abs (diff c) <= b) -> loaded num_queues own w NUM_FLOW_PARTITIONS cs ->
  exists ps', estimate diff (ps, cs) = Done (ps', cs) /\ (forall j, p_core (ps' j) = own j) /\
    forall j, 0 <= j < NUM_FLOW_PARTITIONS -> offered_load (ps' j) = offered (w j) (diff (own j)) (total (own j)).
Proof.
  intros Hc Ho Hw Hd Hld. unfold estimate.
  destruct (loop_outcome_spec (fun k '(ps', cs') => cs' = cs /\ (forall j, p_core (ps' j) = own j) /\
    forall j, 0 <= j < NUM_FLOW_PARTITIONS -> offered_load (ps' j) = if j <? k then offered (w j) (diff (own j)) (total (own j)) else w j)
    (estimate_partition diff) NUM_FLOW_PARTITIONS (ps, cs)) as ([ps' cs'] & -> & -> & Hc' & Hl'); [done| |..].
  - split; [done|]. split; [done|]. intros j Hj. destruct (Z.ltb_spec j 0); [lia|]. by apply Hw.
  - intros k [ps1 cs1] Hk (-> & Hc1 & Hl1). unfold estimate_partition. cbv beta iota zeta. rewrite Hc1.
    destruct (core_at _ _ _ _ _ (own k) Hld) as (c & -> & _ & _ & Et); [by apply Ho|]. cbn [obind].
    eexists. split; [reflexivity|]. split; [done|].
    assert (0 <= w k <= total (own k)) as Hwk.
    { split; [by apply Hw|]. apply (part_load_elem own w b); [by intros; apply Hw|done]. }
    pose proof (offered_range (w k) (diff (own k)) (total (own k)) Hwk) as [_ Hr]. destruct (Hw k Hk) as [_ Hwb]. specialize (Hd (own k)).
    assert (offered_load (ps1 k) = w k) as El by (rewrite Hl1 by done; by destruct (Z.ltb_spec k k); [lia|]).
    rewrite El, Et. change (part_load own w NUM_FLOW_PARTITIONS (own k)) with (total (own k)).
    set (p := if negb (total (own k) =? 0) then _ else _).
    assert (p_core p = own k /\ Z.max 0 (offered_load p) = offered (w k) (diff (own k)) (total (own k))) as [Ep Eo].
    { unfold p, offered. destruct (Z.eqb_spec (total (own k)) 0) as [Ez|Ez]; cbn; [by rewrite El|]. split; [done|].
      rewrite (i32_id (w k * diff (own k))) by nia. f_equal. apply i32_id.
      assert (Z.abs (Z.quot (w k * diff (own k)) (total (own k))) <= Z.abs (diff (own k))); [|lia].
      rewrite <- Z.quot_abs, Z.abs_mul by done. apply Z.quot_le_upper_bound; nia. }
    split.
    + intros j. fcase; [|done]. by case_match.
    + intros j Hj. fcase.
      * destruct (Z.ltb_spec j (j + 1)); [|lia]. rewrite <- Eo. destruct (Z.ltb_spec (offered_load p) 0); cbn; lia.
      * rewrite Hl1 by done. destruct (Z.ltb_spec j k), (Z.ltb_spec j (k + 1)); (done || lia).
  - exists ps'. split; [done|]. split; [done|]. intros j Hj. rewrite Hl' by done. by destruct (Z.ltb_spec j NUM_FLOW_PARTITIONS); [|lia].
Qed.

Lemma sum_run own w ps cs :
  ind <$> cs = seqZ 0 num_queues -> (forall j, p_core (ps j) = own j) ->
  (forall j, 0 <= j < NUM_FLOW_PARTITIONS -> 0 <= own j < num_queues) ->
  (forall j, 0 <= j < NUM_FLOW_PARTITIONS -> offered_load (ps j) = w j /\ 0 <= w j <= 2 * b) ->
  exists cs', sum_loads (ps, clear_load <$> cs) = Done (ps, cs') /\ loaded num_queues own w NUM_FLOW_PARTITIONS cs'.
Proof.
  intros Hi Hc Ho Hw.
  destruct (loop_outcome_spec (fun k '(ps', cs') => ps' = ps /\ loaded num_queues own w k cs') add_partition
    NUM_FLOW_PARTITIONS (ps, clear_load <$> cs)) as ([ps' cs'] & E & -> & Hld); [done| |..].
  - split; [done|]. by apply loaded_clear.
  - intros k [ps1 cs1] Hk (-> & Hld). unfold add_partition. cbv beta iota zeta. rewrite Hc.
    destruct (core_at _ _ _ _ _ (own k) Hld) as (c & Ec & _); [by apply Ho|]. rewrite Ec. eexists. split; [done|]. split; [done|].
    destruct (Hw k Hk) as [-> _]. apply (loaded_add num_queues own w (2 * b)); [done|done|by apply Ho|by intros; apply Hw|lia|done].
  - by exists cs'.
Qed.

(** The lengths of the queues are lengths, and grow by at most [b] together. *)
Lemma sample_range rx lens : (forall port i, 0 <= rx port i <= q) ->
  (forall k, 0 <= lens.1 k <= q /\ 0 <= lens.2 k <= q) ->
  forall k, 0 <= (sample_queues num_queues num_ports rx lens).1 k <= q /\ 0 <= (sample_queues num_queues num_ports rx lens).2 k <= q.
Proof.
  intros Hrx Hl. unfold sample_queues.
  apply (loop_range_spec (fun _ (lens : (Z -> Z) * (Z -> Z)) => forall k, 0 <= lens.1 k <= q /\ 0 <= lens.2 k <= q)); [lia|done|].
  intros port l1 _ H1.
  apply (loop_range_spec (fun _ (lens : (Z -> Z) * (Z -> Z)) => forall k, 0 <= lens.1 k <= q /\ 0 <= lens.2 k <= q)); [lia|done|].
  intros i [prev curr] _ H2 k. cbn in *. split; fcase; try apply H2. apply Hrx.
Qed.

Lemma rxq_len_diff_range prev curr i : (forall k, 0 <= prev k <= q /\ 0 <= curr k <= q) ->
  Z.abs (rxq_len_diff num_queues num_ports prev curr i) <= b.
Proof.
  intros Hl. enough (Z.abs (rxq_len_diff num_queues num_ports prev curr i) <= num_ports * q) by lia. unfold rxq_len_diff.
  apply (loop_range_spec (fun k diff => Z.abs diff <= k * q)); [lia|cbn; lia|].
  intros port diff Hp Hd. cbv beta in *. pose proof (Hl (i + port * num_queues)). rewrite i32_id by nia. nia.
Qed.

Lemma migrate_reta garbage ps reta (d : D) i : 0 <= i < NUM_FLOW_PARTITIONS -> (migrate num_ports garbage ps reta d).1 i = p_core (ps i).
Proof.
  revert i. unfold migrate. cbn [fst].
  apply (loop_range_spec (fun n (reta : Z -> Z) => forall i, 0 <= i < n -> reta i = p_core (ps i))); [done|lia|].
  intros k reta' Hk IH i Hi. fcase; [done|]. apply IH. lia.
Qed.
(** The loads that lb_rebalancing works on. *)
Lemma loads_run cnt e diff ps cs (own := fun j => p_core (ps j)) (w := fun j => cnt (own j) e j)
    (est := fun j => offered (w j) (diff (own j)) (part_load own w NUM_FLOW_PARTITIONS (own j))) :
  ind <$> cs = seqZ 0 num_queues -> (forall j, 0 <= j < NUM_FLOW_PARTITIONS -> 0 <= own j < num_queues) ->
  (forall c e j, 0 <= cnt c e j <= b) -> (forall c, Z.abs (diff c) <= b) ->
  exists ps1 cs1 ps2 cs2, goodput cnt e (ps, clear_load <$> cs) = Done (ps1, cs1) /\
    estimate diff (ps1, cs1) = Done (ps2, cs1) /\ sum_loads (ps2, clear_load <$> cs1) = Done (ps2, cs2) /\
    (forall j, p_core (ps2 j) = own j) /\
    (forall j, 0 <= j < NUM_FLOW_PARTITIONS -> offered_load (ps2 j) = est j /\ 0 <= est j <= 2 * b) /\
    loaded num_queues own est NUM_FLOW_PARTITIONS cs2.
Proof.
  intros Hi Ho Hcnt Hd. destruct (goodput_run cnt e ps cs Hi Ho) as (ps1 & cs1 & E1 & Hc1 & Hl1 & Hld1); [intros; apply Hcnt|].
  destruct (estimate_run diff own w ps1 cs1) as (ps2 & E2 & Hc2 & Hl2); [done|done| |done|done|].
  { intros j Hj. rewrite Hl1 by done. split; [done|apply Hcnt]. }
  assert (forall j, 0 <= j < NUM_FLOW_PARTITIONS -> 0 <= est j <= 2 * b) as Hest.
  { intros j Hj. unfold est. specialize (Hd (own j)). pose proof (Hcnt (own j) e j : 0 <= w j <= b).
    pose proof (part_load_elem own w b NUM_FLOW_PARTITIONS j ltac:(intros; apply Hcnt) Hj).
    pose proof (offered_range (w j) (diff (own j)) (part_load own w NUM_FLOW_PARTITIONS (own j)) ltac:(lia)). lia. }
  destruct (sum_run own est ps2 cs1) as (cs2 & E3 & Hld2); [by destruct Hld1|done|done|by intros; split; [apply Hl2|apply Hest]|].
  exists ps1, cs1, ps2, cs2. repeat (split; [done|]). split; [by intros; split; [apply Hl2|apply Hest]|done].
Qed.
(** Rebalancing on the estimated loads. *)
Lemma rebalance_run uninit own est ps cs :
  (forall j, p_core (ps j) = own j) -> (forall j, 0 <= j < NUM_FLOW_PARTITIONS -> 0 <= own j < num_queues) ->
  (forall j, 0 <= j < NUM_FLOW_PARTITIONS -> offered_load (ps j) = est j /\ 0 <= est j <= 2 * b) ->
  loaded num_queues own est NUM_FLOW_PARTITIONS cs ->
  NUM_FLOW_PARTITIONS + 2 * num_queues + 23 + 2 * b * NUM_FLOW_PARTITIONS <= Z.of_nat fuel ->
  match lb_rebalancing fuel NUM_FLOW_PARTITIONS num_queues uninit ps cs with
  | Done (r, (ps', cs')) =>
      ind <$> cs' = seqZ 0 num_queues /\ (forall i, offered_load (ps' i) = offered_load (ps i)) /\
      (forall i, 0 <= i < NUM_FLOW_PARTITIONS -> 0 <= p_core (ps' i) < num_queues) /\
      (r = 0 /\ (forall i, 0 <= i < NUM_FLOW_PARTITIONS -> p_core (ps' i) = own i) \/
       r = 1 /\ exists k, 0 <= k < num_queues /\ forall k', 0 <= k' < num_queues ->
         core_load NUM_FLOW_PARTITIONS ps' k' < part_load own est NUM_FLOW_PARTITIONS k)
  | Undefined => 3 <= num_queues
  | Spent => False
  end.
Proof.
  intros Hown Ho Hest Hld Hfuel.
  assert (forall c, core_load NUM_FLOW_PARTITIONS ps c = part_load own est NUM_FLOW_PARTITIONS c) as Hcl.
  { intros c. apply core_load_by. intros j Hj. split; [done|by apply Hest]. }
  assert (zsum (fun i => offered_load (ps i)) (seqZ 0 NUM_FLOW_PARTITIONS) <= 2 * b * NUM_FLOW_PARTITIONS) as Hsum.
  { pose proof (zsum_bound (fun i => offered_load (ps i)) (seqZ 0 NUM_FLOW_PARTITIONS) (2 * b)) as Hz.
    rewrite length_seqZ, Z2Nat.id in Hz by done. apply Hz; [|pose proof (Hest 0 ltac:(done)); lia].
    intros j Hj%elem_of_seqZ. destruct (Hest j ltac:(lia)) as [-> ?]. lia. }
  pose proof (lb_rebalancing_run fuel NUM_FLOW_PARTITIONS num_queues uninit ps cs Hnq) as Hrun.
  lapply Hrun; [clear Hrun; intros Hrun|intros i Hr; rewrite Hown; destruct (Hest i Hr) as [-> ?]; split; [lia|by apply Ho]].
  destruct Hld as [Hi Hs]. specialize (Hrun ltac:(unfold NUM_FLOW_PARTITIONS in *; lia) Hi).
  specialize (Hrun ltac:(intros; rewrite Hcl; by apply Hs) ltac:(lia)).
  destruct (lb_rebalancing _ _ _ _ _ _) as [[r [ps' cs']]| |]; [|done|done].
  destruct Hrun as (H1 & H2 & H3 & [[H4 H5]|(H4 & k & Hk & H5)]); repeat (split; [done|]); [left|right]; (split; [done|]).
  - intros i Hr. rewrite H5 by done. apply Hown.
  - exists k. split; [done|]. intros k' Hk'. rewrite <- Hcl. auto.
Qed.
End pass.

(** ** Property *)

(** What holds between passes: every partition is on a core; the numbers of
    packets and the lengths of queues are at most [b] and [q]. *)
Record monitor_ok {D : Type} (num_queues q b : Z) (s : monitor D) : Prop := {
  mo_owner i : 0 <= i < NUM_FLOW_PARTITIONS -> 0 <= p_core (flow_partitions s i) < num_queues;
  mo_inds : ind <$> cores s = seqZ 0 num_queues;
  mo_epoch : monitoring_epoch s = 0 \/ monitoring_epoch s = 1;
  mo_lens k : 0 <= prev_rxq_len s k <= q /\ 0 <= curr_rxq_len s k <= q;
  mo_cnt c e i : 0 <= pkt_cnt s c e i <= b
}.

Lemma lb_start_ok {D} `{RetaDevice D} num_queues q b garbage uninit flow_partitions0 (d : D) :
  0 <= num_queues -> 0 <= q -> 0 <= b ->
  (forall i, 0 <= i < NUM_FLOW_PARTITIONS -> 0 <= (get_rss_reta 0 garbage uninit d).2 i < num_queues) ->
  monitor_ok num_queues q b (lb_start num_queues garbage uninit flow_partitions0 d).
Proof.
  intros Hn Hq Hb Hr. split; cbn [lb_start flow_partitions cores monitoring_epoch prev_rxq_len curr_rxq_len pkt_cnt]; [|..|lia|lia].
  - intros i Hi. rewrite assign_cores by done. destruct (Z.leb_spec 0 i), (Z.ltb_spec i NUM_FLOW_PARTITIONS); [|lia..]. by apply Hr.
  - rewrite <- list_fmap_compose. apply list_fmap_id.
  - by left.
Qed.

(** The load of the core [c] in [s'], with the partitions it has in [s]. *)
Definition load_by {D} (s s' : monitor D) (c : Z) : Z :=
  part_load (fun j => p_core (flow_partitions s j)) (fun j => offered_load (flow_partitions s' j)) NUM_FLOW_PARTITIONS c.

(** Nothing moves; or the devices get the new cores of the partitions, with
    which the greatest load of a core is smaller. *)
Definition moved {D} `{RetaDevice D} (num_queues num_ports : Z) (garbage : Z -> reta_entry64) (s s' : monitor D) : Prop :=
  (forall i, 0 <= i < NUM_FLOW_PARTITIONS -> p_core (flow_partitions s' i) = p_core (flow_partitions s i)) /\
    lb_new_reta s' = lb_new_reta s /\ device s' = device s \/
  (forall i, 0 <= i < NUM_FLOW_PARTITIONS -> lb_new_reta s' i = p_core (flow_partitions s' i)) /\
    device s' = loop_range 0 (Z.to_nat num_ports)
      (fun port d => (set_rss_reta port garbage (lb_new_reta s') NUM_FLOW_PARTITIONS d).2) (device s) /\
    exists k, 0 <= k < num_queues /\ forall k', 0 <= k' < num_queues -> load_by s' s' k' < load_by s s' k.

(** The load that is estimated for a core: the packets of its partitions that
    it counted, and not more or less than the growth of its queue. *)
Definition estimated {D} (num_queues num_ports : Z) (rx : Z -> Z -> Z) (s s' : monitor D) : Prop :=
  let (prev, curr) := sample_queues num_queues num_ports rx (prev_rxq_len s, curr_rxq_len s) in
  lb_triggered curr prev (num_queues * num_ports) = true ->
  forall c, let counted := part_load (fun j => p_core (flow_partitions s j))
              (fun j => pkt_cnt s (p_core (flow_partitions s j)) (monitoring_epoch s) j) NUM_FLOW_PARTITIONS c in
    let growth := rxq_len_diff num_queues num_ports prev curr c in
    counted + Z.min 0 growth <= load_by s s' c <= counted + Z.max 0 growth.


Lemma monitor_next {D} num_queues q b (s s' : monitor D) e :
  0 <= num_queues -> monitor_ok num_queues q b s -> monitoring_epoch s' = 1 - e -> e = 0 \/ e = 1 ->
  (forall i, 0 <= i < NUM_FLOW_PARTITIONS -> 0 <= p_core (flow_partitions s' i) < num_queues) -> ind <$> cores s' = seqZ 0 num_queues ->
  (forall k, 0 <= prev_rxq_len s' k <= q /\ 0 <= curr_rxq_len s' k <= q) ->
  (exists cnt, pkt_cnt s' = clear_counters num_queues e cnt /\ forall c e i, 0 <= cnt c e i <= b) ->
  monitor_ok num_queues q b s' /\
  forall c i, 0 <= c < num_queues -> 0 <= i < NUM_FLOW_PARTITIONS -> pkt_cnt s' c (1 - monitoring_epoch s') i = 0.
Proof.
  intros Hnq Hs Ee He Ho Hi Hl (cnt & Ec & Hcnt). split.
  - split; [done|done|lia|done|]. intros c e' i. rewrite Ec. by apply clear_counters_range.
  - intros c i Hc Hr. rewrite Ec, Ee. apply clear_counters_spec; lia.
Qed.

(** C26: one pass of the monitor.  Whatever the cores have counted and however
    long their queues are, as long as the count of a partition and the length
    of a core's queues stay below 2^15, the pass ends, with every partition on a core and
    the counters of the coming epoch at 0; the load it estimates for a core is
    what the core counted, up to the growth of its queue; and it either leaves
    the cores' partitions alone or gives the devices a table with which the
    greatest load is smaller.  Only with three cores or more can it come to
    read in front of the array of partitions. *)
Theorem lb_pass_spec {D} `{Qsort, RetaDevice D} (fuel : nat) (num_queues num_ports q b : Z)
    (garbage : Z -> reta_entry64) (uninit : Z -> Z) (rx1 rx2 : Z -> Z -> Z) (s : monitor D)
    (Hnq : 0 < num_queues <= NUM_FLOW_PARTITIONS) (Hnp : 0 <= num_ports)
    (Hqb : 0 <= q /\ num_ports * q <= b) (Hb : b < 2 ^ 15)
    (Hfuel : NUM_FLOW_PARTITIONS + 2 * num_queues + 23 + 2 * b * NUM_FLOW_PARTITIONS <= Z.of_nat fuel)
    (Hrx : forall port i, 0 <= rx1 port i <= q /\ 0 <= rx2 port i <= q) (Hs : monitor_ok num_queues q b s) :
  match lb_pass fuel num_queues num_ports garbage uninit rx1 rx2 s with
  | Done s' =>
      (monitor_ok num_queues q b s' /\
       forall c i, 0 <= c < num_queues -> 0 <= i < NUM_FLOW_PARTITIONS -> pkt_cnt s' c (1 - monitoring_epoch s') i = 0) /\
      moved num_queues num_ports garbage s s' /\ estimated num_queues num_ports rx1 s s'
  | Undefined => 3 <= num_queues
  | Spent => False
  end.
Proof.
  destruct Hqb as [Hq Hqb]. destruct (Hs) as [Ho Hi He Hl Hcnt]. unfold lb_pass, estimated.
  pose proof (sample_range num_queues num_ports q Hnq Hnp rx1 (prev_rxq_len s, curr_rxq_len s) ltac:(intros; apply Hrx) Hl) as Hl1.
  destruct (sample_queues num_queues num_ports rx1 _) as [prev curr]. cbn [fst snd] in Hl1. destruct (lb_triggered _ _ _); cycle 1.
  { split; [|by split; [left|]]. eapply (monitor_next num_queues q b s _ (monitoring_epoch s)); cbn; eauto with lia. }
  destruct (loads_run num_queues b Hb (pkt_cnt s) (monitoring_epoch s) (rxq_len_diff num_queues num_ports prev curr)
    (flow_partitions s) (cores s)) as (ps1 & cs1 & ps2 & cs2 & -> & E2 & E3 & Hown & Hest & Hld); [done|done|done| |].
  { intros c. by apply (rxq_len_diff_range num_queues num_ports q b). }
  set (est := fun j => offered _ _ _) in *. cbn [obind]. rewrite E2. cbn [obind]. rewrite E3. cbn [obind]. clear E2 E3.
  pose proof (rebalance_run fuel num_queues b Hnq Hb uninit _ est ps2 cs2 Hown Ho Hest Hld Hfuel) as Hrun.
  destruct (lb_rebalancing _ _ _ _ _ _) as [[r [ps3 cs3]]| |]; cbn [obind]; [|done|done].
  destruct Hrun as (Hi3 & Hload & Ho3 & Hr).
  assert (forall j, 0 <= j < NUM_FLOW_PARTITIONS -> offered_load (ps3 j) = est j) as Hload'.
  { intros j Hj. trans (offered_load (ps2 j)); [apply Hload|by apply Hest]. }
  pose proof (sample_range num_queues num_ports q Hnq Hnp rx2 (prev, curr) ltac:(intros; apply Hrx) Hl1) as Hl2.
  destruct (if negb (r =? 0) then _ else _) as [reta d] eqn:Em. destruct (sample_queues num_queues num_ports rx2 _) as [prev2 curr2].
  split; [|split].
  - eapply (monitor_next num_queues q b s _ (1 - monitoring_epoch s)); cbn; eauto with lia.
    eexists. split; [done|]. intros. apply clear_counters_range; [lia|done].
  - unfold moved, load_by. cbn. destruct Hr as [[-> Hsame]|(-> & k & Hk & Hlt)]; cbn in Em; [left; injection Em as <- <-; by split|right].
    pose proof (migrate_reta num_ports garbage ps3 (lb_new_reta s) (device s)) as Hreta. rewrite Em in Hreta.
    split; [done|]. split; [unfold migrate in Em; by simplify_eq|]. exists k. split; [done|]. intros k' Hk'.
    rewrite <- (core_load_by ps3 _ _ k') by done. rewrite (part_load_ext _ (fun j => offered_load (ps3 j)) est) by exact Hload'. by apply Hlt.
  - intros _ c. unfold load_by. cbn. rewrite (part_load_ext _ (fun j => offered_load (ps3 j)) est) by exact Hload'.
    apply (offered_sum _ _ (rxq_len_diff num_queues num_ports prev curr) b). intros; apply Hcnt.
Qed.

(** ** Witness: two cores, one port; the first core has counted all packets
    and its queue has grown to 70 *)

#[local] Existing Instance ex_qsort.
#[local] Existing Instance ex_reta_device.
Definition ex_counted : list Z := [50; 30; 20; 10].
Definition ex_monitor : monitor (Z -> Z -> Z) :=
  Monitor (fun _ => 0) (fun _ => 0) (fun _ => Partition 0 0 7 7) [Core 0 (-1) 0; Core 0 (-1) 1] 0
    (fun c e i => if (c =? 0) && (e =? 0) && (0 <=? i) && (i <? 128) then nth (Z.to_nat i) ex_counted 0 else 0) (fun _ => 0) (fun _ _ => 0).
Definition ex_lengths (port i : Z) : Z := if i =? 0 then 70 else 0.
Definition ex_garbage : Z -> reta_entry64 := fun _ => RetaEntry 0 (fun _ => 0).
Definition ex_uninit : Z -> Z := fun _ => 9.
Definition ex_fuel : nat := Z.to_nat 25755.
Abbreviation ex_pass := (lb_pass ex_fuel 2 1 ex_garbage ex_uninit ex_lengths ex_lengths ex_monitor).
Definition ex_after (s : monitor (Z -> Z -> Z)) : list Z * list Z * list Z :=
  (p_core <$> (flow_partitions s <$> [0; 1; 2; 3; 4]), device s 0 <$> [0; 1; 2; 3; 4], offered_load <$> (flow_partitions s <$> [0; 1; 2; 3; 4])).

Lemma ex_monitor_ok : monitor_ok 2 100 100 ex_monitor.
Proof.
  split; cbn; [lia|reflexivity|by left|lia|]. intros c e i. destruct (_ && _); [|lia].
  destruct (Z.to_nat i) as [|[|[|[|n]]]]; cbn; try lia. destruct n; lia.
Qed.

(** The first and the fourth partition move. *)
Lemma lb_pass_spec_witness :
  match ex_pass with
  | Done s' => ex_after s' = ([1; 0; 0; 1; 0], [1; 0; 0; 1; 0], [81; 49; 32; 16; 0]) /\
      monitor_ok 2 100 100 s' /\ moved 2 1 ex_garbage ex_monitor s' /\ estimated 2 1 ex_lengths ex_monitor s'
  | _ => False
  end.
Proof.
  pose proof (lb_pass_spec ex_fuel 2 1 100 100 ex_garbage ex_uninit ex_lengths ex_lengths ex_monitor
    ltac:(done) ltac:(done) ltac:(done) ltac:(done) ltac:(unfold ex_fuel; rewrite Z2Nat.id; done)
    ltac:(intros port i; unfold ex_lengths; case_match; lia) ex_monitor_ok) as Hs.
  assert (match ex_pass with Done s => Some (ex_after s) | _ => None end =
    Some ([1; 0; 0; 1; 0], [1; 0; 0; 1; 0], [81; 49; 32; 16; 0])) as E by (vm_compute; reflexivity).
  destruct ex_pass as [s'| |]; [|discriminate E|discriminate E]. apply (f_equal (default ([], [], []))) in E.
  split; [exact E|]. destruct Hs as ((H1 & _) & H2 & H3). split; [exact H1|]. split; [exact H2|exact H3].
Defined.
