(* ===== verification/LbSync.v ===== *)
(** * Workers and monitor meet

    How the table new_reta changes under the workers: lb_main
    (src/deps/vigor/nf-lb/lb.c) raises migration_sync, waits, writes the table,
    lowers migration_sync and waits again; a worker (src/src/nf.c,
    process_main, with LOAD_BALANCING) that sees migration_sync waits twice,
    then reads the table.  The waits are those of Barrier.v, access by access;
    the threads 0 to n-1 are workers, n is the monitor. *)

From stdpp Require Import relations.
From S2P Require Import Prelude Barrier.
Open Scope Z_scope.

(** At if (migration_sync); in the first and in the second barrier_wait(); at
    new_reta[partition]. *)
Inductive worker_at := CheckSync | FirstWait | SecondWait | ReadReta.
(** Looking for skew; in the first barrier_wait(); about to write new_reta[i];
    about to reset migration_sync; in the second barrier_wait(). *)
Inductive monitor_at := Monitoring | FirstMeet | WriteReta (i : Z) | ResetSync | SecondMeet.

(** [owners]: the cores of the partitions that the monitor has found;
    [table]: those of the last migration that was completed. *)
Record sync_state := SyncState {
  meeting : barrier;
  migration_sync : Z;
  shared_reta : Z -> Z;
  worker : Z -> worker_at;
  monitor_pc : monitor_at;
  owners : Z -> Z;
  table : Z -> Z
}.

Section sync.
Context (n : Z).
#[local] Abbreviation P := (n + 1).

Definition NUM_PARTITIONS : Z := 128.

Definition set_meeting (b : barrier) (s : sync_state) : sync_state :=
  SyncState b (migration_sync s) (shared_reta s) (worker s) (monitor_pc s) (owners s) (table s).
Definition set_worker (t : Z) (p : worker_at) (s : sync_state) : sync_state :=
  SyncState (meeting s) (migration_sync s) (shared_reta s) (<[t := p]> (worker s)) (monitor_pc s) (owners s) (table s).
Definition set_monitor (p : monitor_at) (s : sync_state) : sync_state :=
  SyncState (meeting s) (migration_sync s) (shared_reta s) (worker s) p (owners s) (table s).
Definition set_sync (x : Z) (s : sync_state) : sync_state :=
  SyncState (meeting s) x (shared_reta s) (worker s) (monitor_pc s) (owners s) (table s).
Definition set_owners (o : Z -> Z) (s : sync_state) : sync_state :=
  SyncState (meeting s) (migration_sync s) (shared_reta s) (worker s) (monitor_pc s) o (table s).
Definition write_reta (i : Z) (s : sync_state) : sync_state :=
  SyncState (meeting s) (migration_sync s) (<[i := owners s i]> (shared_reta s)) (worker s) (monitor_pc s) (owners s) (table s).
Definition complete (s : sync_state) : sync_state :=
  SyncState (meeting s) (migration_sync s) (shared_reta s) (worker s) (monitor_pc s) (owners s) (owners s).

(** An access of barrier_wait by [t]; whether the call has returned. *)
Definition meet (t : Z) (s : sync_state) : bool * sync_state :=
  let b := wait_step P false t (meeting s) in
  (match threads b t with Idle => true | _ => false end, set_meeting b s).

Definition worker_step (t : Z) (s : sync_state) : sync_state :=
  match worker s t with
  | CheckSync => set_worker t (if migration_sync s =? 0 then ReadReta else FirstWait) s
  | FirstWait => let (back, s) := meet t s in if back then set_worker t SecondWait s else s
  | SecondWait => let (back, s) := meet t s in if back then set_worker t ReadReta s else s
  | ReadReta => set_worker t CheckSync s
  end.

(** [o]: what lb_rebalancing finds, when the monitor has to migrate. *)
Definition monitor_step (o : Z -> Z) (s : sync_state) : sync_state :=
  match monitor_pc s with
  | Monitoring => set_monitor FirstMeet (set_sync 1 (set_owners o s))
  | FirstMeet => let (back, s) := meet n s in if back then set_monitor (WriteReta 0) s else s
  | WriteReta i =>
      if i <? NUM_PARTITIONS then set_monitor (WriteReta (i + 1)) (write_reta i s)
      else set_monitor ResetSync (complete s)
  | ResetSync => set_monitor SecondMeet (set_sync 0 s)
  | SecondMeet => let (back, s) := meet n s in if back then set_monitor Monitoring s else s
  end.

Inductive sync_step (s : sync_state) : sync_state -> Prop :=
| step_worker t : 0 <= t < n -> sync_step s (worker_step t s)
| step_monitor o : sync_step s (monitor_step o s).

Definition sync_init (reta : Z -> Z) : sync_state :=
  SyncState barrier_init 0 reta (fun _ => CheckSync) Monitoring reta reta.

(** ** The invariant *)

Hypothesis Hn : 0 < n < 2 ^ 31 - 1.

Definition idle (s : sync_state) (t : Z) : Prop := threads (meeting s) t = Idle.
Definition waits (s : sync_state) (t : Z) : Z := left (meeting s) t.

Definition worker_ok (s : sync_state) (t : Z) : Prop :=
  match worker s t with
  | CheckSync | ReadReta => idle s t /\ exists m, waits s t = 2 * m
  | FirstWait => (exists m, waits s t = 2 * m) /\ monitor_pc s <> Monitoring /\ waits s t <= waits s n <= waits s t + 1
  | SecondWait => (exists m, waits s t = 2 * m + 1) /\ (monitor_pc s = Monitoring -> waits s t < waits s n)
  end.

Definition monitor_at_ok (s : sync_state) : Prop :=
  match monitor_pc s with
  | Monitoring => idle s n /\ exists m, waits s n = 2 * m
  | FirstMeet => exists m, waits s n = 2 * m
  | WriteReta i => idle s n /\ (exists m, waits s n = 2 * m + 1) /\ 0 <= i <= NUM_PARTITIONS /\ forall j, 0 <= j < i -> shared_reta s j = owners s j
  | ResetSync => idle s n /\ exists m, waits s n = 2 * m + 1
  | SecondMeet => exists m, waits s n = 2 * m + 1
  end.

Record sync_inv (s : sync_state) : Prop := {
  si_bar : exists R, barrier_inv P R (meeting s);
  si_worker t : 0 <= t < n -> worker_ok s t;
  si_monitor : monitor_at_ok s;
  si_sync : migration_sync s <> 0 -> match monitor_pc s with FirstMeet | WriteReta _ | ResetSync => True | _ => False end;
  si_table : match monitor_pc s with WriteReta _ => True | _ => forall i, 0 <= i < NUM_PARTITIONS -> shared_reta s i = table s i end
}.

(** What the barrier says of two threads. *)
Lemma meeting_counts s t u : (exists R, barrier_inv P R (meeting s)) -> 0 <= t < P -> 0 <= u < P ->
  (idle s t -> entered (meeting s) t = waits s t) /\ entered (meeting s) t <= waits s t + 1 /\ waits s t <= entered (meeting s) u.
Proof.
  intros [R Hb] Ht Hu. unfold idle, waits. pose proof (inv_counts P R _ u Hb Hu). pose proof (inv_counts P R _ t Hb Ht).
  pose proof (bi_threads _ _ _ Hb t Ht) as Hok. unfold thread_ok, waiting in Hok.
  destruct (threads (meeting s) t); try done; split; try done; lia.
Qed.

(** One access in a barrier call: it returns, or the count stays. *)
Lemma meet_cases t s back s' : meet t s = (back, s') ->
  (if back then idle s' t /\ waits s' t = waits s t + 1 else waits s' t = waits s t) /\
  s' = set_meeting (meeting s') s /\ meeting s' = wait_step P false t (meeting s) /\
  forall u, u <> t -> waits s' u = waits s u /\ (idle s' u <-> idle s u).
Proof.
  unfold meet, idle, waits. intros E. injection E as <- <-. cbn. split; [|split; [done|split; [done|]]].
  - unfold wait_step. destruct (threads (meeting s) t) eqn:Et; cbn; rewrite ?Et, ?fn_lookup_insert; try done.
    + by destruct (_ =? _).
    + destruct (_ =? _); cbn; by rewrite ?Et, ?fn_lookup_insert.
  - intros u Hu. destruct (step_others P false t (meeting s) u Hu) as (-> & _ & ->). done.
Qed.

Lemma meet_bar t s back s' : meet t s = (back, s') -> 0 <= t < P -> (exists R, barrier_inv P R (meeting s)) ->
  exists R, barrier_inv P R (meeting s').
Proof.
  intros E Ht [R Hb]. destruct (meet_cases t s back s' E) as (_ & _ & -> & _).
  destruct (run_inv P false ltac:(lia) R (meeting s) [t] Hb) as (R' & _ & Hb'); [set_solver|by exists R'].
Qed.

(** The monitor and the other workers are as they were. *)
Lemma worker_frame s s' t : sync_inv s -> 0 <= t < n ->
  monitor_pc s' = monitor_pc s -> migration_sync s' = migration_sync s -> shared_reta s' = shared_reta s ->
  owners s' = owners s -> table s' = table s -> (exists R, barrier_inv P R (meeting s')) ->
  (forall u, u <> t -> worker s' u = worker s u /\ waits s' u = waits s u /\ (idle s' u <-> idle s u)) ->
  worker_ok s' t -> sync_inv s'.
Proof.
  intros [Hb Hw Hm Hs Ht] Hr E1 E2 E3 E4 E5 Hb' Ho Hok.
  destruct (Ho n ltac:(lia)) as (_ & Ewn & Hin). split; [done| | |by rewrite E1, E2|by rewrite E1, E3, E5].
  - intros u Hu. destruct (decide (u = t)) as [->|Hne]; [done|]. destruct (Ho u Hne) as (Ew & Ewu & Hi). specialize (Hw u Hu).
    unfold worker_ok in *. rewrite Ew, Ewu, Ewn, E1. by destruct (worker s u); rewrite ?Hi.
  - unfold monitor_at_ok in *. rewrite E1, E3, E4, Ewn. by destruct (monitor_pc s); rewrite ?Hin.
Qed.

(** A worker in a barrier call, which goes on to [p] when it returns. *)
Lemma worker_meets s t p : sync_inv s -> 0 <= t < n ->
  (forall s', waits s' n = waits s n -> monitor_pc s' = monitor_pc s ->
     idle s' t /\ waits s' t = waits s t + 1 /\ worker s' t = p \/ waits s' t = waits s t /\ worker s' t = worker s t ->
     worker_ok s' t) ->
  sync_inv (let (back, s') := meet t s in if back then set_worker t p s' else s').
Proof.
  intros Hi Hr Hok. destruct (meet t s) as [back s'] eqn:Em. pose proof (meet_bar t s back s' Em ltac:(lia) (si_bar s Hi)) as Hb'.
  destruct (meet_cases t s back s' Em) as (Hc & Es' & _ & Ho). set (b := meeting s') in *. clearbody b. subst s'.
  destruct (Ho n ltac:(lia)) as [Hwn _]. destruct back; apply (worker_frame s _ t); try done.
  - intros u Hu. cbn. rewrite fn_lookup_insert_ne by done. split; [done|]. by apply Ho.
  - apply Hok; [done|done|left]. cbn. rewrite fn_lookup_insert. by destruct Hc.
  - intros u Hu. split; [done|]. by apply Ho.
  - apply Hok; [done|done|by right].
Qed.

Lemma worker_step_inv s t : sync_inv s -> 0 <= t < n -> sync_inv (worker_step t s).
Proof.
  intros Hi Hr. pose proof (si_worker s Hi t Hr) as Hok. pose proof Hi as [Hb _ Hm Hs _]. unfold worker_step.
  pose proof (meeting_counts s t n Hb ltac:(lia) ltac:(lia)) as (Het & _ & Hn1).
  pose proof (meeting_counts s n t Hb ltac:(lia) ltac:(lia)) as (Hen & Hn2 & Hn3).
  unfold worker_ok in Hok. destruct (worker s t) eqn:Ew.
  - apply (worker_frame s _ t); try done; [intros u Hu; cbn; by rewrite fn_lookup_insert_ne|].
    unfold worker_ok. cbn. rewrite fn_lookup_insert. destruct (Z.eqb_spec (migration_sync s) 0) as [|Hz]; [done|].
    destruct Hok as [Hid [m Em2]]. split; [by exists m|]. specialize (Hs Hz). unfold monitor_at_ok in Hm. cbn. change (waits (set_worker _ _ _)) with (waits s).
    split; [by destruct (monitor_pc s)|]. specialize (Het Hid).
    destruct (monitor_pc s); try done; [destruct Hm as [M ?]|destruct Hm as (Hin & [M ?] & _)|destruct Hm as (Hin & M & ?)]; try specialize (Hen Hin); lia.
  - apply worker_meets; [done|done|]. intros s' E1 E2 [(Hid & Ec & E)|(Ec & E)]; unfold worker_ok; rewrite E, ?Ew, Ec, E1, E2; [|done].
    destruct Hok as ([m ?] & ? & ?). split; [exists m; lia|done].
  - apply worker_meets; [done|done|]. intros s' E1 E2 [(Hid & Ec & E)|(Ec & E)]; unfold worker_ok; rewrite E, ?Ew, Ec, ?E1, ?E2; [|done].
    destruct Hok as ([m ?] & ?). split; [done|]. exists (m + 1). lia.
  - apply (worker_frame s _ t); try done; [intros u Hu; cbn; by rewrite fn_lookup_insert_ne|].
    unfold worker_ok. cbn. by rewrite fn_lookup_insert.
Qed.

(** The workers are where they were. *)
Lemma monitor_frame s s' : sync_inv s -> (exists R, barrier_inv P R (meeting s')) -> worker s' = worker s ->
  (forall u, u <> n -> waits s' u = waits s u /\ (idle s' u <-> idle s u)) ->
  (forall u, 0 <= u < n -> worker s u = FirstWait -> worker_ok s u -> monitor_pc s' <> Monitoring /\ waits s u <= waits s' n <= waits s u + 1) ->
  (forall u, 0 <= u < n -> worker s u = SecondWait -> worker_ok s u -> monitor_pc s' = Monitoring -> waits s u < waits s' n) ->
  monitor_at_ok s' ->
  (migration_sync s' <> 0 -> match monitor_pc s' with FirstMeet | WriteReta _ | ResetSync => True | _ => False end) ->
  match monitor_pc s' with WriteReta _ => True | _ => forall i, 0 <= i < NUM_PARTITIONS -> shared_reta s' i = table s' i end ->
  sync_inv s'.
Proof.
  intros Hi Hb Ew Ho H1 H2 Hm Hs Ht. split; try done. intros u Hu. pose proof (si_worker s Hi u Hu) as Hok.
  specialize (H1 u Hu). specialize (H2 u Hu). destruct (Ho u ltac:(lia)) as [Ewu Hid]. unfold worker_ok. rewrite Ew, Ewu.
  destruct (worker s u) eqn:E; rewrite ?Hid.
  1, 4: unfold worker_ok in Hok; by rewrite E in Hok.
  - specialize (H1 eq_refl Hok). split; [|done]. unfold worker_ok in Hok. rewrite E in Hok. apply Hok.
  - specialize (H2 eq_refl Hok). split; [|done]. unfold worker_ok in Hok. rewrite E in Hok. apply Hok.
Qed.

(** The monitor in a barrier call, which goes on to [p] when it returns. *)
Lemma monitor_meets s p : sync_inv s -> (match monitor_pc s with FirstMeet | SecondMeet => True | _ => False end) ->
  (forall b (s' := set_monitor p (set_meeting b s)), (exists R, barrier_inv P R b) -> idle s' n -> waits s' n = waits s n + 1 ->
     (forall u, u <> n -> waits s' u = waits s u /\ (idle s' u <-> idle s u)) -> sync_inv s') ->
  sync_inv (let (back, s') := meet n s in if back then set_monitor p s' else s').
Proof.
  intros Hi Hpc Hback. destruct (meet n s) as [back s'] eqn:Em. pose proof (meet_bar n s back s' Em ltac:(lia) (si_bar s Hi)) as Hb'.
  destruct (meet_cases n s back s' Em) as (Hc & Es' & _ & Ho). set (b := meeting s') in *. clearbody b. subst s'. destruct back.
  - destruct Hc as [Hid Hw]. by apply Hback.
  - pose proof Hi as [_ _ Hm Hs Ht]. apply (monitor_frame s); try done.
    + intros u Hu E Hok. unfold worker_ok in Hok. rewrite E in Hok. rewrite Hc. by destruct Hok as (_ & ? & ?).
    + intros u Hu E Hok. unfold worker_ok in Hok. rewrite E in Hok. rewrite Hc. by destruct Hok as (_ & ?).
    + unfold monitor_at_ok in *. cbn in *. rewrite Hc. by destruct (monitor_pc s).
Qed.

(** The monitor steps outside the barrier. *)
Lemma monitor_moves s s' : sync_inv s -> meeting s' = meeting s -> worker s' = worker s ->
  monitor_pc s' <> Monitoring -> monitor_at_ok s' ->
  (migration_sync s' <> 0 -> match monitor_pc s' with FirstMeet | WriteReta _ | ResetSync => True | _ => False end) ->
  match monitor_pc s' with WriteReta _ => True | _ => forall i, 0 <= i < NUM_PARTITIONS -> shared_reta s' i = table s' i end ->
  sync_inv s'.
Proof.
  intros Hi Eb Ew Hp Hm Hs Ht. unfold waits, idle. apply (monitor_frame s); try done.
  - rewrite Eb. apply Hi.
  - unfold waits, idle. by rewrite Eb.
  - intros u Hu E Hok. split; [done|]. unfold worker_ok in Hok. rewrite E in Hok. unfold waits in *. rewrite Eb. apply Hok.
Qed.

Lemma monitor_step_inv o s : sync_inv s -> sync_inv (monitor_step o s).
Proof.
  intros Hi. pose proof Hi as [Hb _ Hm Hs Ht]. unfold monitor_step, monitor_at_ok in *. destruct (monitor_pc s) as [| |i| |] eqn:Ep.
  - apply (monitor_moves s); try done. by destruct Hm.
  - apply monitor_meets; [done|by rewrite Ep|]. intros b s' Hb' Hid Hw Ho. destruct Hm as [M HM].
    apply (monitor_frame s); try done.
    + intros u Hu E Hok. unfold worker_ok in Hok. rewrite E in Hok. destruct Hok as ([m ?] & _ & ?). split; [done|lia].
    + split; [done|]. split; [exists M; lia|]. split; [done|lia].
  - destruct Hm as (Hid & Hodd & Hir & Hw). destruct (Z.ltb_spec i NUM_PARTITIONS) as [Hlt|Hge]; apply (monitor_moves s); try done.
    + split; [done|]. split; [done|]. split; [lia|]. intros j Hj. cbn. fcase; [done|]. apply Hw. lia.
    + intros j Hj. cbn. apply Hw. lia.
  - destruct Hm as [Hid Hodd]. by apply (monitor_moves s).
  - apply monitor_meets; [done|by rewrite Ep|]. intros b s' Hb' Hid Hw Ho. destruct Hm as [M HM].
    assert (forall u, 0 <= u < n -> waits s u <= waits s n + 1 <= waits s u + 1) as Hc.
    { intros u Hu. destruct (Ho u ltac:(lia)) as [Ewu _]. pose proof (meeting_counts s' u n Hb' ltac:(lia) ltac:(lia)) as (_ & H1 & H2).
      pose proof (meeting_counts s' n u Hb' ltac:(lia) ltac:(lia)) as (H3 & _ & H4). specialize (H3 Hid). lia. }
    apply (monitor_frame s); try done.
    + intros u Hu E Hok. unfold worker_ok in Hok. rewrite E in Hok. destruct Hok as ([m ?] & _ & ?). specialize (Hc u Hu). lia.
    + intros u Hu E Hok _. unfold worker_ok in Hok. rewrite E in Hok. destruct Hok as ([m ?] & _). specialize (Hc u Hu). lia.
    + split; [done|]. exists (M + 1). lia.
Qed.

Lemma sync_reachable reta s : rtc (sync_step) (sync_init reta) s -> sync_inv s.
Proof.
  apply (rtc_ind_r (fun s => sync_inv s) (sync_init reta)).
  - split; try done; [exists 0; apply init_inv; lia| |]; [intros t Ht|]; (split; [done|by exists 0]).
  - intros s1 s2 _ [t Ht|o] Hi; [by apply worker_step_inv|by apply monitor_step_inv].
Qed.
End sync.

(** ** Property *)

Definition in_call (s : sync_state) (t : Z) : Prop := worker s t = FirstWait \/ worker s t = SecondWait.

(** C25: however the workers and the monitor interleave: while the monitor
    writes new_reta every worker is in a call of barrier_wait; so a worker
    reads new_reta as one migration left it, never half written; and a worker
    that waits while the monitor is back at monitoring waits for a meeting
    that has taken place - none is left behind by a look at migration_sync
    that came too late. *)
Theorem migration_synchronized n reta s :
  0 < n < 2 ^ 31 - 1 -> rtc (sync_step n) (sync_init reta) s ->
  ((exists i, monitor_pc s = WriteReta i) \/ monitor_pc s = ResetSync -> forall t, 0 <= t < n -> in_call s t) /\
  (forall t, 0 <= t < n -> worker s t = ReadReta -> forall i, 0 <= i < NUM_PARTITIONS -> shared_reta s i = table s i) /\
  (forall t, 0 <= t < n -> in_call s t -> monitor_pc s = Monitoring -> left (meeting s) t < left (meeting s) n).
Proof.
  intros Hn Hs%(sync_reachable n Hn). pose proof Hs as [Hb Hw Hm _ Ht].
  assert ((exists i, monitor_pc s = WriteReta i) \/ monitor_pc s = ResetSync -> forall t, 0 <= t < n -> in_call s t) as Hcall.
  { intros Hpc t Hr. assert (idle s n /\ exists m, waits s n = 2 * m + 1) as [Hid [M HM]].
    { unfold monitor_at_ok in Hm. destruct Hpc as [[i E]|E]; rewrite E in Hm; [by destruct Hm as (? & ? & _)|done]. }
    pose proof (meeting_counts n s t n Hb ltac:(lia) ltac:(lia)) as (Het & _ & H1).
    pose proof (meeting_counts n s n t Hb ltac:(lia) ltac:(lia)) as (Hen & _ & H2). specialize (Hw t Hr). unfold worker_ok in Hw.
    unfold in_call. destruct (worker s t); [|by left|by right|]; destruct Hw as [Hidt [m ?]]; specialize (Het Hidt); specialize (Hen Hid); lia. }
  split; [done|]. split.
  - intros t Hr Ew i Hi. destruct (monitor_pc s) as [| |j| |] eqn:Ep; try by apply Ht.
    destruct (Hcall ltac:(left; by exists j) t Hr); congruence.
  - intros t Hr Hc Ep. specialize (Hw t Hr). unfold worker_ok in Hw. rewrite Ep in Hw.
    destruct Hc as [E|E]; rewrite E in Hw; [by destruct Hw as (_ & ? & _)|by apply Hw].
Qed.

(** ** Witness: one worker and the monitor, up to the writing of the table *)

(** A schedule: steps of workers, and of the monitor with what it finds. *)
Definition sync_run (n : Z) (l : list (Z + (Z -> Z))) (s : sync_state) : sync_state :=
  foldl (fun s e => match e with inl t => worker_step n t s | inr o => monitor_step n o s end) s l.

Lemma sync_run_reach n l s : Forall (fun e => match e with inl t => 0 <= t < n | inr _ => True end) l -> rtc (sync_step n) s (sync_run n l s).
Proof.
  revert s. induction l as [|e l IH]; intros s Hl; [apply rtc_refl|]. apply Forall_cons in Hl as [He Hl].
  eapply rtc_l; [|by apply IH]. destruct e; by constructor.
Qed.

Definition ex_schedule : list (Z + (Z -> Z)) :=
  let w := inl 0 in let m := inr (fun i => 1 - i) in [m; w; w; w; m; m; m; m; m; m].
Definition ex_sync : sync_state := sync_run 1 ex_schedule (sync_init (fun _ => 0)).

Lemma migration_synchronized_witness :
  monitor_pc ex_sync = WriteReta 2 /\ shared_reta ex_sync <$> [0; 1; 2] = [1; 0; 0] /\ in_call ex_sync 0.
Proof.
  split; [reflexivity|]. split; [reflexivity|].
  assert (rtc (sync_step 1) (sync_init (fun _ => 0)) ex_sync) as Hs by (apply sync_run_reach; repeat constructor; lia).
  apply (proj1 (migration_synchronized 1 (fun _ => 0) ex_sync ltac:(lia) Hs)); [left; exists 2; reflexivity|lia].
Defined.
